(* ===== verification/_CoqProject ===== *)
-Q . S2P
Prelude.v
GoLib.v
Vector.v
Base32.v
DeviceID.v
Platform.v
FileInfo.v
Queue.v
BlockPull.v
PullerState.v
DownloadState.v
Messages.v
Semaphore.v
Paths.v
Wire.v
Dispatch.v
BufferPool.v
EncNames.v
Encryption.v
Backup.v
FolderDB.v
FolderMarks.v
FolderQueries.v
IndexHandler.v
IndexExchange.v
IndexRegistry.v
FolderConfig.v
Config.v
ConfigWrapper.v
FolderPaths.v
Introductions.v
ClusterCheck.v
Glob.v
Ignore.v
Disk.v
MapDisk.v
Puller.v
Copier.v
PullLoop.v
Scanner.v
