(* ===== verification/Prelude.v ===== *)
(** * A verification development for the VidSync synchronisation engine

    VidSync is a fork of Syncthing: devices keep folders in step by exchanging file
    records (indexes) over authenticated connections and pulling the blocks they
    miss from each other.  This development translates the engine's core from the
    Go sources under [src/] into executable definitions, one file per component,
    and proves what makes each of them correct.

    ** The program and its parts

    A device describes every file by a record with a version vector
    ([lib/protocol]).  The scanner and the puller write the records of the local
    device to a database per folder ([internal/db/sqlite]), which also holds the
    records other devices announced and decides for each name which version is
    the global one and whether the local device needs it.  An index handler per
    folder and connection ([lib/model/indexhandler.go]) announces local changes in
    batches and stores what arrives.  The connection ([lib/protocol/protocol.go])
    frames, compresses and checks messages and matches responses to requests; for
    folders shared with untrusted devices a layer of encryption
    ([lib/protocol/encryption.go]) lies in between.  The puller takes needed files
    from a queue, orders their blocks, tracks every file it writes and tells other
    devices of its progress ([lib/model]).  [cmd/vidsync] adds the desktop
    application with a backup of projects.

    ** Files, and the sources they model

    - [Prelude], [GoLib]: outcomes of Go calls ([Ok], [Err], [Panic]) with their
      monad, tactics and generic lemmas; machine integers, bytes, strings, dates
      and the functions of the standard library in use.
    - [Vector] ([vector.go], [util.go] of the database), [Base32], [DeviceID]
      ([deviceid.go], [luhn.go]), [Platform], [FileInfo] ([bep_fileinfo.go]):
      the data two devices exchange, its order and its wire and database forms.
    - [Messages] ([bep_*.go], [errors.go]), [Wire] (framing, compression, greeting),
      [Dispatch] (dispatcher, requests, writer, Windows names), [BufferPool]:
      the connection, from bytes to calls of the model.
    - [EncNames], [Encryption] ([encryption.go]): what an untrusted device sees.
    - [FolderDB] (tables, triggers, [Update]), [FolderMarks] (which version is
      global, who needs it), [FolderQueries] (counts, needed files, remote needs,
      index IDs): the database of a folder, with SQLite tables as maps and lists.
    - [IndexHandler] (one handler), [IndexExchange] (two devices and their
      databases), [IndexRegistry] ([service_map.go], which handlers run).
    - [Queue], [BlockPull], [PullerState], [DownloadState], [Semaphore]: the parts
      of the puller ([queue.go], [blockpullreorderer.go], [sharedpullerstate.go],
      [sentdownloadstate.go], [devicedownloadstate.go], [lib/semaphore]).
    - [Paths] ([lib/fs]): lexical paths, rooting, temporary names.
    - [Backup] ([cmd/vidsync/backup.go]): the project backup.
    - [FolderConfig], [Config] ([lib/config]: folders, devices, options, [prepare] and
      the migrations), [ConfigWrapper] ([wrapper.go]: changes while running, and when
      they are written), [FolderPaths] (overlapping folders).
    - [Introductions], [ClusterCheck] ([lib/model/model.go]): what a cluster
      configuration of another device does: introduced devices, the check of the
      encryption, the folders that are exchanged.
    - [Glob], [Ignore] ([lib/ignore]): ignore patterns, their file and the matcher.
    - [Disk] (the interface of the file system and what is built on it: [lib/fs],
      [lib/osutil], [CreateFileInfo]), [MapDisk] (an implementation on a finite map).
    - [Puller], [Copier], [PullLoop] ([folder_sendrecv.go]): items that are put on
      disk, the blocks of a file, and a round of pulling with the updates of the
      database.
    - [Scanner] ([lib/scanner]): the walk that compares the disk with the database.

    The scanner and the puller meet in the records of the local device: what the scanner
    reports is stored by [Update] of [FolderDB], what [IndexHandler] announces is read
    from there, and the puller compares the disk with them before it touches anything.
    [Ignore] tells both what to leave alone, [Config] and [FolderConfig] give every
    component its settings.

    A Go struct is a Record, an operation a function from the state to the new state
    and its results; operations under a lock are one step, and where goroutines
    interleave ([Semaphore], [Dispatch], [IndexRegistry], [ConfigWrapper], [Copier],
    the checks of [ClusterCheck]) the theorems speak of all sequences of steps.
    Operations on the disk are computations [M] of [Disk] over a [world]: the state of
    the file system, the jobs for the database, the requests to scan and the errors;
    every call may fail.  Integers are [Z] with the wrap-around of their width ([i32],
    [u64], ...) wherever the code can reach it.  Maps are [gmap]; a range over a map is
    an argument that gives the order.

    ** What the theorems show

    - Order of versions: [Vector.Compare_spec], [Merge_spec], the choice between
      conflicting files ([FileInfo.WinsConflict_total]), round trips of records.
    - Database: after any sequence of updates exactly one version of each name is
      global and the need flags are those of the definition ([FolderMarks]), the
      counts are exact, what is stored is read back, a delta index holds what
      changed ([FolderQueries]).
    - Index exchange: sending catches up in a bounded number of rounds, batches are
      linked, and the receiver ends with the announced files, over the interface
      [LocalIndex], which the database is proved to implement.  The registry runs
      exactly the handlers that a specification of two bits per folder asks for.
    - Connection: bytes written are messages read, the dispatcher lets only checked
      names, files and sizes through, a whole session arrives in order without a
      protocol error, requests are answered at most once, buffers are never shared.
    - Encryption: names, records and blocks come back from an untrusted device as
      they went out, fake records pass the checks and keep the order of versions.
    - Configuration: [prepare] establishes the form every reader relies on, migrations
      run once each in ascending order, no configuration is installed that a verifier
      refuses, and one that is installed is written or will be unless its write fails.
    - Cluster configurations: an announcement of an introducer has exactly the stated
      effect; a folder is accepted exactly when both sides mean the same encryption, a
      token is never replaced while the folder has it, and index handlers, folder states
      and offered folders are then those the message asks for.
    - Ignore patterns: the cache is transparent, parsing ends, and skipping directories
      loses nothing under a condition on the exceptions that is shown to be needed.
    - Puller: no item is lost or overwritten that was not known, conflicts are kept as
      copies, a changed item is scanned and stays, a finished file is in place when the
      database is told of it, its blocks have the hashes of its record, and a round
      drops no needed item; queues, reorderings, semaphores and progress are exact.
    - Scanner: every item on disk is as recorded, or reported, or has an error.
    - Backup: the backup is in step with the directory.
    Findings, where the code does not do what it means to, are proved as theorems or
    examples next to the definitions.

    ** Interfaces

    Third-party code and system calls are an argument or a class with its laws: [Codec]
    and [FileCodec] (protocol buffers and LZ4), [Crypto] (AES-SIV, XChaCha20-Poly1305,
    scrypt, HKDF), [Engine] (the order of rows and of unstable sorting), [Glob] (globs),
    [Filesystem] with [FilesystemLaws] and [ListingLaws] (files), [UnicodeFold] (letters
    of either case), SHA-256 and Unicode normalisation as functions.  Each class has an
    instance that satisfies its laws, on which the witnesses of the theorems compute.
    Between components: [LocalIndex] is what sending an index needs of the database,
    which implements it; [BlockSources] and [TempLaws] are what assembling a file needs
    of other files and of the temporary one; [Noting] collects what an invariant of the
    puller's notes needs, so that [Puller] proves it once for each handler and [PullLoop]
    uses it for its own relation.

    ** Fuel

    Recursion follows the Go loops.  Where a loop has no structural bound the
    function takes fuel that a lemma shows to be enough: [serve_loop] one round more
    than there are pending files, [readerLoop] one round more than there are messages,
    [hex_quanta] and [long_components] the length of their input, [merge_loop] the
    lengths of both vectors, [loadParseIncludeFile] one more than there are lines in all
    the files that may be included, [resolve_loop] the length of the path ([resolve_loop_fuel]),
    the walks over a tree its depth, [depth] ([within] of [Scanner]; the theorems about
    the puller hold for any depth, as a walk that ends early reports an error).

    ** Not modelled

    Sockets, timers, goroutine start-up, metrics, events and logging; the system calls
    below the interface of the file system, and changes of the disk by others while an
    operation of the scanner or the puller runs; special files (items are files,
    directories and links); SQL text, migrations and garbage collection of the database
    (the statements are translated as functions on tables); reading and writing the XML
    and JSON of the configuration; the scheduling of scans and pulls, reverting and
    overriding, automatic acceptance of folders; watch aggregation, versioning of old
    files (an argument of the puller), discovery, relays, address translation, upgrades,
    the REST and desktop interfaces, generated and test code. *)
From Stdlib Require String Ascii.
From Stdlib Require Export ZArith Lia Bool.
From stdpp Require Export base tactics numbers list gmap strings sorting.

(** ** Notations of the development *)

Declare Scope go_scope.
Delimit Scope go_scope with go.

(** The outcome of a Go call that may return an error or panic. *)
Inductive go (A : Type) : Type :=
  | Ok (a : A)
  | Err (e : string)
  | Panic (msg : string).
Arguments Ok {A} _.
Arguments Err {A} _.
Arguments Panic {A} _.

#[export] Instance go_ret : MRet go := λ A a, Ok a.
#[export] Instance go_bind : MBind go := λ A B f m,
  match m with
  | Ok a => f a
  | Err e => Err e
  | Panic p => Panic p
  end.

Notation "'let!' x ':=' m 'in' k" := (mbind (λ x, k) m)
  (at level 10, x pattern, m at level 100, k at level 200) : go_scope.
Open Scope go_scope.

Lemma Ok_inj {A} (x y : A) : Ok x = Ok y → x = y.
Proof. by intros [=]. Qed.

Definition is_ok {A} (m : go A) : bool := match m with Ok _ => true | _ => false end.

(** ** Update of one field of a record

    [r <| field := v |>] is the record [r] with a field replaced, as the
    assignment [r.field = v] of the program; [Eta] lists the fields of a record. *)
Class Eta (R : Type) := eta : R → R.
Class Setter {R T : Type} (proj : R → T) := set_field : (T → T) → R → R.
Arguments set_field {_ _} proj {_} _ _ /.

Ltac build_setter R proj :=
  let f := fresh "f" in let r := fresh "r" in
  intros f r;
  let t := eval hnf in (@eta R _ r) in
  match eval pattern (proj r) in t with
  | ?g _ => let u := eval cbv beta in (g (f (proj r))) in exact u
  end.
#[export] Hint Extern 1 (@Setter ?R _ ?proj) => build_setter R proj : typeclass_instances.

Notation "r <| proj := v |>" := (set_field proj (λ _, v) r)
  (at level 1, left associativity, proj at level 1, v at level 99,
   format "r  <| proj  :=  v |>") : go_scope.

(** ** Tactics *)

(** Split on every boolean test and match of the goal and the context, and use
    the arithmetic content of the tests. *)
Ltac zb :=
  repeat match goal with
  | H : (_ =? _)%Z = true |- _ => apply Z.eqb_eq in H
  | H : (_ =? _)%Z = false |- _ => apply Z.eqb_neq in H
  | H : (_ <? _)%Z = true |- _ => apply Z.ltb_lt in H
  | H : (_ <? _)%Z = false |- _ => apply Z.ltb_ge in H
  | H : (_ <=? _)%Z = true |- _ => apply Z.leb_le in H
  | H : (_ <=? _)%Z = false |- _ => apply Z.leb_gt in H
  | H : andb _ _ = true |- _ => apply andb_true_iff in H; destruct H
  | H : orb _ _ = false |- _ => apply orb_false_iff in H; destruct H
  | H : negb _ = true |- _ => apply negb_true_iff in H
  | H : negb _ = false |- _ => apply negb_false_iff in H
  | H : bool_decide _ = true |- _ => apply bool_decide_eq_true in H
  | H : bool_decide _ = false |- _ => apply bool_decide_eq_false in H
  end.

(** Arithmetic with [/] and [mod] by constants. *)
Ltac zlia := Z.to_euclidean_division_equations; lia.

(** ** Databases shared by the components *)

Create HintDb go.
Create Rewrite HintDb go.
#[export] Hint Constructors Forall StronglySorted : go.
#[export] Hint Extern 5 (_ ≤ _)%Z => lia : go.
#[export] Hint Extern 5 (_ < _)%Z => lia : go.

(** ** Generic lemmas *)

Section lists.
Context {A : Type}.

Lemma StronglySorted_impl (R S : A → A → Prop) l :
  (∀ x y, R x y → S x y) → StronglySorted R l → StronglySorted S l.
Proof.
  intros HRS. induction 1 as [|x l Hl IH Hx]; constructor; [done|].
  eapply Forall_impl; [exact Hx|]. auto.
Qed.

Lemma Forall_sublist_of (P : A → Prop) l k : l `sublist_of` k → Forall P k → Forall P l.
Proof.
  intros Hs. rewrite !Forall_forall. intros H x Hx. apply H. by eapply elem_of_sublist.
Qed.

Lemma StronglySorted_sublist_of (R : A → A → Prop) l k :
  l `sublist_of` k → StronglySorted R k → StronglySorted R l.
Proof.
  induction 1 as [|x l k Hs IH|x l k Hs IH]; intros Hk; [done| |].
  - apply StronglySorted_inv in Hk as [Hk Hx]. constructor; [auto|]. by eapply Forall_sublist_of.
  - apply StronglySorted_inv in Hk as [Hk _]. auto.
Qed.

Lemma forallb_lookup (p : A → bool) (l : list A) :
  forallb p l = true ↔ ∀ i x, l !! i = Some x → p x = true.
Proof.
  rewrite forallb_forall. split.
  - intros H i x Hi. apply H, list_elem_of_In. by eapply list_elem_of_lookup_2.
  - intros H x [i Hi]%list_elem_of_In%list_elem_of_lookup_1. eauto.
Qed.

Lemma existsb_lookup (p : A → bool) (l : list A) :
  existsb p l = true ↔ ∃ i x, l !! i = Some x ∧ p x = true.
Proof.
  rewrite existsb_exists. split.
  - intros (x & [i Hi]%list_elem_of_In%list_elem_of_lookup_1 & Hp). eauto.
  - intros (i & x & Hi & Hp). exists x. split; [|done].
    apply list_elem_of_In. by eapply list_elem_of_lookup_2.
Qed.

Lemma filter_id (P : A → Prop) `{∀ x, Decision (P x)} l : Forall P l → filter P l = l.
Proof.
  induction 1 as [|x l Hx Hl IH]; [done|]. by rewrite filter_cons_True, IH.
Qed.

Lemma filter_none (P : A → Prop) `{∀ x, Decision (P x)} l : (∀ x, x ∈ l → ¬ P x) → filter P l = [].
Proof.
  induction l as [|x l IH]; intros H'; [done|]. rewrite filter_cons_False by (apply H'; left).
  apply IH. intros y Hy. apply H'. by right.
Qed.

Lemma filter_ext_in (P Q : A → Prop) `{!∀ x, Decision (P x), !∀ x, Decision (Q x)} (l : list A) :
  (∀ x, x ∈ l → P x ↔ Q x) → filter P l = filter Q l.
Proof.
  induction l as [|x l IH]; intros HPQ; [done|]. rewrite !filter_cons.
  rewrite IH by (intros y Hy; apply HPQ; by right).
  destruct (HPQ x ltac:(left)). destruct (decide (P x)), (decide (Q x)); tauto.
Qed.

Lemma filter_of_fmap {B} (g : B → A) (P : A → Prop) `{∀ x, Decision (P x)} (l : list B) :
  filter P (g <$> l) = g <$> filter (λ x, P (g x)) l.
Proof.
  induction l as [|x l IH]; [done|]. rewrite fmap_cons, !filter_cons, IH.
  by destruct (decide (P (g x))).
Qed.

Lemma rev_replicate n (x : A) : rev (replicate n x) = replicate n x.
Proof. rewrite rev_alt. apply reverse_replicate. Qed.

Lemma take_snoc_lookup (l : list A) i x :
  l !! i = Some x → take (S i) l = take i l ++ [x].
Proof. intros H. by rewrite (take_S_r _ _ x). Qed.
End lists.
