(* ===== verification/GoLib.v ===== *)
(** * The part of Go's language and standard library the source uses

    Machine integers are [Z] with the wrap-around of their width written out,
    byte slices are lists of [Z] in [0, 256), strings are Rocq strings read as
    byte strings, and instants are nanoseconds since the Unix epoch. *)
From S2P Require Import Prelude.
From Stdlib Require Import Ascii.
From Stdlib Require String.

Local Open Scope Z_scope.

(** A boolean test that holds below a concrete bound, by computation. *)
Lemma forallb_below (p : Z → bool) n :
  forallb p (seqZ 0 n) = true → ∀ z, 0 ≤ z < n → p z = true.
Proof.
  intros H z Hz. rewrite forallb_forall in H. apply H, list_elem_of_In, elem_of_seqZ. lia.
Qed.

(** ** Machine integers *)

Definition u8 (z : Z) : Z := (z mod 256)%Z.
Definition u32 (z : Z) : Z := (z mod 4294967296)%Z.
Definition u64 (z : Z) : Z := (z mod 18446744073709551616)%Z.

(** Two's complement reading of the low 32 or 64 bits. *)
Definition i32 (z : Z) : Z := ((z + 2147483648) mod 4294967296 - 2147483648)%Z.
Definition i64 (z : Z) : Z :=
  ((z + 9223372036854775808) mod 18446744073709551616 - 9223372036854775808)%Z.

Definition in_u32 (z : Z) : Prop := (0 ≤ z < 4294967296)%Z.
Definition in_u64 (z : Z) : Prop := (0 ≤ z < 18446744073709551616)%Z.
Definition in_i32 (z : Z) : Prop := (-2147483648 ≤ z < 2147483648)%Z.
Definition in_i64 (z : Z) : Prop :=
  (-9223372036854775808 ≤ z < 9223372036854775808)%Z.
Definition is_byte (z : Z) : Prop := (0 ≤ z < 256)%Z.

Lemma u32_id z : in_u32 z → u32 z = z.
Proof. unfold in_u32, u32. intros. apply Z.mod_small. lia. Qed.
Lemma u64_id z : in_u64 z → u64 z = z.
Proof. unfold in_u64, u64. intros. apply Z.mod_small. lia. Qed.
Lemma u64_range z : in_u64 (u64 z).
Proof. unfold in_u64, u64. zlia. Qed.
Lemma i32_id z : in_i32 z → i32 z = z.
Proof. unfold in_i32, i32. intros. rewrite Z.mod_small; lia. Qed.
Lemma i64_id z : in_i64 z → i64 z = z.
Proof. unfold in_i64, i64. intros. rewrite Z.mod_small; lia. Qed.
Lemma i32_range z : in_i32 (i32 z).
Proof. unfold in_i32, i32. zlia. Qed.
Lemma i64_range z : in_i64 (i64 z).
Proof. unfold in_i64, i64. zlia. Qed.
#[export] Hint Resolve u64_range i32_range i64_range : go.
#[export] Hint Rewrite u32_id u64_id i32_id i64_id using (auto with go; lia) : go.

(** Go's integer division and remainder truncate towards zero. *)
Abbreviation go_div := Z.quot.
Abbreviation go_mod := Z.rem.

(** ** Big-endian integers ([encoding/binary]) *)

Fixpoint be_decode_from (acc : Z) (bs : list Z) : Z :=
  match bs with
  | [] => acc
  | b :: bs => be_decode_from (acc * 256 + b)%Z bs
  end.
(** [binary.BigEndian.Uint64] and [Uint32] on a slice of the right length. *)
Definition be_decode (bs : list Z) : Z := be_decode_from 0 bs.

(** [binary.BigEndian.PutUint64] ([n = 8]) and [PutUint32] ([n = 4]). *)
Fixpoint be_encode (n : nat) (z : Z) : list Z :=
  match n with
  | O => []
  | S n => (z / 256 ^ Z.of_nat n) mod 256 :: be_encode n z
  end%Z.

Lemma length_be_encode n z : length (be_encode n z) = n.
Proof. induction n as [|n IH]; simpl; congruence. Qed.

Lemma be_encode_bytes n z : Forall is_byte (be_encode n z).
Proof. induction n as [|n IH]; simpl; constructor; [|done]. unfold is_byte. zlia. Qed.

Lemma be_decode_from_encode n acc z :
  be_decode_from acc (be_encode n z) =
  (acc * 256 ^ Z.of_nat n + z mod 256 ^ Z.of_nat n)%Z.
Proof.
  revert acc. induction n as [|n IH]; intros acc; simpl be_encode.
  - simpl. rewrite Z.mod_1_r. lia.
  - cbn [be_decode_from]. rewrite IH.
    rewrite Nat2Z.inj_succ, Z.pow_succ_r by lia.
    rewrite (Z.mul_comm 256), Z.rem_mul_r by (try apply Z.pow_nonzero; lia). lia.
Qed.

(** Encoding then decoding an integer that fits is the identity. *)
Lemma be_decode_encode n z :
  (0 ≤ z < 256 ^ Z.of_nat n)%Z → be_decode (be_encode n z) = z.
Proof. intros. unfold be_decode. rewrite be_decode_from_encode, Z.mod_small; lia. Qed.

(** ** Strings *)

Abbreviation s2l := String.list_ascii_of_string.
Abbreviation l2s := String.string_of_list_ascii.

Lemma s2l_l2s l : s2l (l2s l) = l.
Proof. apply String.list_ascii_of_string_of_list_ascii. Qed.
Lemma l2s_s2l s : l2s (s2l s) = s.
Proof. apply String.string_of_list_ascii_of_string. Qed.
#[export] Hint Rewrite s2l_l2s l2s_s2l : go.

Lemma s2l_app s t : s2l (s +:+ t) = s2l s ++ s2l t.
Proof. induction s as [|c s IH]; simpl; [done|]. by f_equal. Qed.
#[export] Hint Rewrite s2l_app : go.

Lemma length_s2l s : length (s2l s) = String.length s.
Proof. induction s; simpl; congruence. Qed.

Lemma s2l_inj s t : s2l s = s2l t → s = t.
Proof. intros H. by rewrite <- (l2s_s2l s), H, l2s_s2l. Qed.

(** Bytes of a string and back ([[]byte(s)], [string(bs)]). *)
Definition byte_val (c : ascii) : Z := Z.of_nat (nat_of_ascii c).
Definition byte_chr (z : Z) : ascii := ascii_of_nat (Z.to_nat z).

Lemma byte_val_range c : is_byte (byte_val c).
Proof. unfold is_byte, byte_val. pose proof (nat_ascii_bounded c). lia. Qed.
Lemma byte_chr_val c : byte_chr (byte_val c) = c.
Proof. unfold byte_chr, byte_val. by rewrite Nat2Z.id, ascii_nat_embedding. Qed.
Lemma byte_val_inj a b : byte_val a = byte_val b → a = b.
Proof. intros H. by rewrite <-(byte_chr_val a), <-(byte_chr_val b), H. Qed.
Lemma byte_val_chr z : is_byte z → byte_val (byte_chr z) = z.
Proof.
  unfold is_byte, byte_chr, byte_val. intros.
  rewrite nat_ascii_embedding by lia. lia.
Qed.
#[export] Hint Resolve byte_val_range : go.

(** [strings.HasPrefix], [strings.HasSuffix], [strings.Contains]. *)
Fixpoint prefixb (p l : list ascii) : bool :=
  match p, l with
  | [], _ => true
  | c :: p, d :: l => Ascii.eqb c d && prefixb p l
  | _ :: _, [] => false
  end.
Definition HasPrefix (s p : string) : bool := prefixb (s2l p) (s2l s).
Definition HasSuffix (s p : string) : bool := prefixb (rev (s2l p)) (rev (s2l s)).
Fixpoint containsb (p l : list ascii) : bool :=
  prefixb p l || match l with [] => false | _ :: l => containsb p l end.
Definition Contains (s p : string) : bool := containsb (s2l p) (s2l s).

Lemma prefixb_spec p l : prefixb p l = true ↔ ∃ k, l = p ++ k.
Proof.
  revert l. induction p as [|c p IH]; intros l; simpl.
  - split; [eauto|done].
  - destruct l as [|d l]; [split; [done|by intros [? ?]]|].
    rewrite andb_true_iff, Ascii.eqb_eq, IH. split.
    + intros [-> [k ->]]. eauto.
    + intros [k [= -> ->]]. eauto.
Qed.

Lemma HasPrefix_spec s p : HasPrefix s p = true ↔ ∃ k, s = p +:+ k.
Proof.
  unfold HasPrefix. rewrite prefixb_spec. split.
  - intros [k Hk]. exists (l2s k). apply s2l_inj. by rewrite s2l_app, s2l_l2s.
  - intros [k ->]. exists (s2l k). by rewrite s2l_app.
Qed.

(** [strings.ReplaceAll(s, c, t)] for a one-byte [c]. *)
Definition replace_byte (c : ascii) (t : list ascii) (l : list ascii) : list ascii :=
  flat_map (λ d, if Ascii.eqb d c then t else [d]) l.

Lemma replace_byte_absent c t l : c ∉ l → replace_byte c t l = l.
Proof.
  induction l as [|d l IH]; intros Hc; simpl; [done|].
  apply not_elem_of_cons in Hc as [Hd Hl].
  destruct (Ascii.eqb_spec d c); [congruence|]. simpl. by rewrite IH.
Qed.
Lemma replace_byte_app c t l k :
  replace_byte c t (l ++ k) = replace_byte c t l ++ replace_byte c t k.
Proof. apply flat_map_app. Qed.

(** [strings.Trim(s, c)] for a one-byte cutset. *)
Fixpoint trim_left (c : ascii) (l : list ascii) : list ascii :=
  match l with
  | d :: k => if Ascii.eqb d c then trim_left c k else l
  | [] => []
  end.
Definition trim_right (c : ascii) (l : list ascii) : list ascii :=
  rev (trim_left c (rev l)).
Definition trim_both (c : ascii) (l : list ascii) : list ascii :=
  trim_right c (trim_left c l).

Lemma trim_left_absent c l : c ∉ l → trim_left c l = l.
Proof.
  destruct l as [|d l]; [done|]. intros [Hd Hl]%not_elem_of_cons. simpl.
  destruct (Ascii.eqb_spec d c); [congruence|done].
Qed.
Lemma trim_both_absent c l : c ∉ l → trim_both c l = l.
Proof.
  intros H. unfold trim_both, trim_right. rewrite (trim_left_absent c l) by done.
  rewrite trim_left_absent; [apply rev_involutive|].
  by rewrite list_elem_of_In, <- in_rev, <- list_elem_of_In.
Qed.

(** ** Splitting and joining on one byte ([strings.Split], [strings.Cut]) *)

Fixpoint split_byte (c : ascii) (l : list ascii) : list (list ascii) :=
  match l with
  | [] => [[]]
  | d :: l =>
      let parts := split_byte c l in
      if Ascii.eqb d c then [] :: parts
      else match parts with
           | h :: t => (d :: h) :: t
           | [] => [[d]]
           end
  end.

Fixpoint cut_byte (c : ascii) (l : list ascii) : option (list ascii * list ascii) :=
  match l with
  | [] => None
  | d :: l =>
      if Ascii.eqb d c then Some ([], l)
      else match cut_byte c l with
           | Some (before, after) => Some (d :: before, after)
           | None => None
           end
  end.

(** The parts with [c] between them. *)
Fixpoint join_byte (c : ascii) (parts : list (list ascii)) : list ascii :=
  match parts with
  | [] => []
  | [p] => p
  | p :: ps => p ++ c :: join_byte c ps
  end.

Lemma split_byte_part c p : c ∉ p → split_byte c p = [p].
Proof.
  induction p as [|d p IH]; [done|]. intros [Hd Hp]%not_elem_of_cons. simpl.
  rewrite IH by done. destruct (Ascii.eqb_spec d c); congruence.
Qed.

Lemma split_byte_app c p l :
  c ∉ p → split_byte c (p ++ c :: l) = p :: split_byte c l.
Proof.
  induction p as [|d p IH]; simpl.
  - intros _. by rewrite Ascii.eqb_refl.
  - intros [Hd Hp]%not_elem_of_cons. rewrite IH by done.
    destruct (Ascii.eqb_spec d c); congruence.
Qed.

(** Removing the separator from a join leaves the parts. *)
Lemma replace_byte_join c parts :
  Forall (λ p, c ∉ p) parts → replace_byte c [] (join_byte c parts) = concat parts.
Proof.
  induction 1 as [|p ps Hp Hps IH]; [done|]. destruct ps as [|q ps].
  - simpl. rewrite app_nil_r. by apply replace_byte_absent.
  - cbn [join_byte]. rewrite replace_byte_app, replace_byte_absent by done.
    change (concat (p :: q :: ps)) with (p ++ concat (q :: ps)). rewrite <- IH.
    unfold replace_byte at 1. cbn [flat_map]. by rewrite Ascii.eqb_refl.
Qed.

Lemma elem_of_join_byte c d parts :
  d ∈ join_byte c parts → d = c ∨ ∃ p, p ∈ parts ∧ d ∈ p.
Proof.
  induction parts as [|p ps IH]; [set_solver|]. destruct ps as [|q ps]; [set_solver|].
  intros [H|[->|H]%elem_of_cons]%elem_of_app; [set_solver|by left|].
  destruct (IH H) as [->|(r & ? & ?)]; set_solver.
Qed.

(** Splitting undoes joining when no part holds the separator. *)
Lemma split_join c parts :
  parts ≠ [] → Forall (λ p, c ∉ p) parts → split_byte c (join_byte c parts) = parts.
Proof.
  intros Hne Hall. induction Hall as [|p ps Hp Hall IH]; [done|].
  destruct ps as [|q ps]; simpl.
  - by apply split_byte_part.
  - rewrite split_byte_app by done. f_equal. by apply IH.
Qed.

Lemma cut_byte_app c p l : c ∉ p → cut_byte c (p ++ c :: l) = Some (p, l).
Proof.
  induction p as [|d p IH]; simpl.
  - intros _. by rewrite Ascii.eqb_refl.
  - intros [Hd Hp]%not_elem_of_cons. rewrite IH by done.
    destruct (Ascii.eqb_spec d c); congruence.
Qed.

(** ** Hexadecimal ([encoding/hex], [%x]) *)

Definition hex_digits : list ascii := s2l "0123456789abcdef".
Definition hex_chr (d : Z) : ascii := default "0"%char (hex_digits !! Z.to_nat d).
Definition hex_val (c : ascii) : option Z :=
  let v := byte_val c in
  if (48 <=? v) && (v <=? 57) then Some (v - 48)
  else if (97 <=? v) && (v <=? 102) then Some (v - 87)
  else if (65 <=? v) && (v <=? 70) then Some (v - 55)
  else None.

(** [hex.EncodeToString], also what [%x] prints for a byte slice. *)
Definition hex_encode (bs : list Z) : list ascii :=
  flat_map (λ b, [hex_chr (b / 16); hex_chr (b mod 16)]) bs.

(** [hex.DecodeString]: an odd length or another character is an error. *)
Fixpoint hex_decode (l : list ascii) : option (list Z) :=
  match l with
  | [] => Some []
  | [_] => None
  | c :: d :: l =>
      match hex_val c, hex_val d, hex_decode l with
      | Some x, Some y, Some bs => Some (x * 16 + y :: bs)
      | _, _, _ => None
      end
  end.

Lemma hex_val_chr d : (0 ≤ d < 16)%Z → hex_val (hex_chr d) = Some d.
Proof.
  intros Hd. apply (bool_decide_unpack (hex_val (hex_chr d) = Some d)), Is_true_true.
  revert d Hd. apply forallb_below. reflexivity.
Qed.

Lemma hex_decode_encode bs :
  Forall is_byte bs → hex_decode (hex_encode bs) = Some bs.
Proof.
  unfold is_byte. induction 1 as [|b bs Hb Hbs IH]; [done|].
  cbn [hex_encode flat_map app hex_decode]. fold (hex_encode bs).
  rewrite !hex_val_chr, IH by zlia. do 2 f_equal. zlia.
Qed.

Lemma hex_encode_chars c bs :
  Forall is_byte bs → c ∈ hex_encode bs → c ∈ hex_digits.
Proof.
  unfold is_byte. induction 1 as [|b bs Hb Hbs IH]; simpl; [set_solver|].
  intros [->|[->|H]%elem_of_cons]%elem_of_cons; [| |auto].
  all: clear Hb; unfold hex_chr; destruct (hex_digits !! _) eqn:E; [by eapply list_elem_of_lookup_2|]; clear E.
  all: unfold hex_digits; set_solver.
Qed.

(** ** Decimal ([%d], [strconv.ParseUint(s, 10, 64)]) *)

Definition dec_chr (d : Z) : ascii := byte_chr (48 + d).
Definition dec_val (c : ascii) : option Z :=
  let v := byte_val c in
  if (48 <=? v) && (v <=? 57) then Some (v - 48)%Z else None.

Fixpoint dec_encode_fuel (n : nat) (z : Z) : list ascii :=
  match n with
  | O => []
  | S n =>
      if z <? 10 then [dec_chr z]
      else dec_encode_fuel n (z / 10) ++ [dec_chr (z mod 10)]
  end%Z.
(** Twenty digits are enough for a [uint64]. *)
Definition dec_encode (z : Z) : list ascii := dec_encode_fuel 20 z.

Definition dec_step (acc : option Z) (c : ascii) : option Z :=
  match acc, dec_val c with
  | Some a, Some d =>
      let a' := (a * 10 + d)%Z in
      if (a' <? 18446744073709551616)%Z then Some a' else None
  | _, _ => None
  end.
Definition parse_uint64 (l : list ascii) : option Z :=
  match l with
  | [] => None
  | _ => fold_left dec_step l (Some 0%Z)
  end.

Lemma dec_val_chr d : (0 ≤ d < 10)%Z → dec_val (dec_chr d) = Some d.
Proof.
  intros. unfold dec_val, dec_chr. rewrite byte_val_chr by (unfold is_byte; lia).
  destruct (Z.leb_spec 48 (48 + d)), (Z.leb_spec (48 + d) 57); simpl; try lia.
  f_equal. lia.
Qed.

Lemma dec_encode_fuel_parse n z :
  in_u64 z → (z < 10 ^ Z.of_nat n)%Z →
  fold_left dec_step (dec_encode_fuel n z) (Some 0%Z) = Some z.
Proof.
  unfold in_u64. revert z. induction n as [|n IH]; intros z Hz Hn.
  - simpl in Hn. simpl. f_equal. lia.
  - cbn [dec_encode_fuel]. destruct (Z.ltb_spec z 10).
    + cbn [fold_left dec_step]. rewrite dec_val_chr by lia.
      replace (0 * 10 + z) with z by lia.
      destruct (Z.ltb_spec z 18446744073709551616); [done|lia].
    + rewrite fold_left_app, IH; [|zlia|].
      * cbn [fold_left dec_step]. rewrite dec_val_chr by zlia.
        replace (z / 10 * 10 + z mod 10)%Z with z by zlia.
        destruct (Z.ltb_spec z 18446744073709551616); [done|lia].
      * rewrite Nat2Z.inj_succ, Z.pow_succ_r in Hn by lia. zlia.
Qed.

Lemma dec_encode_nonempty z : dec_encode z ≠ [].
Proof.
  unfold dec_encode. cbn [dec_encode_fuel]. destruct (z <? 10)%Z; [done|].
  intros [_ ?]%app_nil. done.
Qed.

Lemma parse_uint64_encode z : in_u64 z → parse_uint64 (dec_encode z) = Some z.
Proof.
  intros Hz. pose proof (dec_encode_nonempty z) as Hne. unfold parse_uint64.
  destruct (dec_encode z) eqn:E; [done|]. rewrite <- E.
  apply dec_encode_fuel_parse; [done|]. unfold in_u64 in Hz. simpl Z.of_nat. lia.
Qed.

Lemma dec_encode_fuel_chars c n z :
  (0 ≤ z)%Z → c ∈ dec_encode_fuel n z → dec_val c ≠ None.
Proof.
  revert z. induction n as [|n IH]; intros z Hz; cbn [dec_encode_fuel]; [set_solver|].
  destruct (Z.ltb_spec z 10).
  - intros ->%list_elem_of_singleton. rewrite dec_val_chr by lia. done.
  - intros [H'|H']%elem_of_app; [eapply IH, H'; zlia|].
    apply list_elem_of_singleton in H' as ->. rewrite dec_val_chr by zlia. done.
Qed.

(** ** Sorting ([slices.Sort], [slices.SortFunc])

    [lt] is the "comes before" test.  Go does not promise a stable sort; the
    model's insertion sort is one of the orders it may return. *)
Section sorting.
Context {A : Type} (lt : A → A → bool).

Fixpoint insert_by (x : A) (l : list A) : list A :=
  match l with
  | [] => [x]
  | y :: l => if lt y x then y :: insert_by x l else x :: y :: l
  end.
Definition sort_by (l : list A) : list A := foldr insert_by [] l.

Lemma insert_by_perm x l : insert_by x l ≡ₚ x :: l.
Proof.
  induction l as [|y l IH]; simpl; [done|].
  destruct (lt y x); [|done]. rewrite IH. apply Permutation_swap.
Qed.
Lemma sort_by_perm l : sort_by l ≡ₚ l.
Proof. induction l as [|x l IH]; simpl; [done|]. by rewrite insert_by_perm, IH. Qed.

Lemma sort_by_id l : StronglySorted (λ x y, lt y x = false) l → sort_by l = l.
Proof.
  induction 1 as [|x l Hl IH Hx]; [done|]. simpl. rewrite IH.
  destruct Hx as [|y l Hy Hl']; simpl; [done|]. by rewrite Hy.
Qed.

Context (Htotal : ∀ x y, lt x y = true → lt y x = false).
Context (Htrans : ∀ x y z, lt y x = false → lt z y = false → lt z x = false).

Lemma insert_by_sorted x l :
  StronglySorted (λ x y, lt y x = false) l →
  StronglySorted (λ x y, lt y x = false) (insert_by x l).
Proof.
  induction 1 as [|y l Hl IH Hy]; simpl; [by repeat constructor|].
  destruct (lt y x) eqn:E.
  - constructor; [done|]. rewrite insert_by_perm. constructor; [by apply Htotal|done].
  - constructor; [by constructor|]. constructor; [done|].
    eapply Forall_impl; [exact Hy|]. simpl. eauto.
Qed.
Lemma sort_by_sorted l : StronglySorted (λ x y, lt y x = false) (sort_by l).
Proof. induction l; simpl; [constructor|by apply insert_by_sorted]. Qed.
End sorting.

(** ** Instants and durations ([time.Time], [time.Duration])

    [time.Unix(s, ns)] is the instant [s * 10^9 + ns]; the model leaves out the
    wrap-around of the internal second counter, which is outside the range of
    the file systems' time stamps.  [Sub] saturates, as documented. *)
Definition time_unix (s ns : Z) : Z := (s * 1000000000 + ns)%Z.
Definition min_duration : Z := (-9223372036854775808)%Z.
Definition max_duration : Z := 9223372036854775807%Z.
Definition time_sub (a b : Z) : Z := (Z.max min_duration (Z.min max_duration (a - b)))%Z.

Lemma time_sub_small a b : in_i64 (a - b) → time_sub a b = (a - b)%Z.
Proof. unfold in_i64, time_sub, min_duration, max_duration. lia. Qed.
