(* ===== verification/Vector.v ===== *)
(** * Version vectors ([src/lib/protocol/vector.go])

    A [Vector] is a slice of counters sorted by device.  The file translates
    [Update], [Merge], [Compare] and the textual form, and proves that on sorted
    vectors [Compare] decides the pointwise order of the counters and [Merge]
    computes its least upper bound. *)
From S2P Require Import Prelude GoLib.
From Stdlib Require Import Ascii.
From Stdlib Require String.

Local Open Scope Z_scope.

(** ** Data *)

(** [ShortID] and the counter value are [uint64]. *)
Record Counter := MkCounter { ID : Z; Value : Z }.
Record Vector := MkVector { Counters : list Counter }.

#[export] Instance Counter_eq_dec : EqDecision Counter.
Proof. solve_decision. Defined.
#[export] Instance Vector_eq_dec : EqDecision Vector.
Proof. solve_decision. Defined.

Inductive Ordering := Equal | Greater | Lesser | ConcurrentLesser | ConcurrentGreater.

#[export] Instance Ordering_eq_dec : EqDecision Ordering.
Proof. solve_decision. Defined.

(** The generated messages [bep.Counter] and [bep.Vector]. *)
Record bepCounter := MkBepCounter { bepId : Z; bepValue : Z }.
Record bepVector := MkBepVector { bepCounters : list bepCounter }.

(** ** Operations *)

Definition counter_toWire (c : Counter) : bepCounter :=
  {| bepId := ID c; bepValue := Value c |}.
Definition counterFromWire (w : bepCounter) : Counter :=
  {| ID := bepId w; Value := bepValue w |}.

Definition ToWire (v : Vector) : bepVector :=
  {| bepCounters := map counter_toWire (Counters v) |}.

(** [nil] is [None]. *)
Definition VectorFromWire (w : option bepVector) : Vector :=
  match w with
  | None => MkVector []
  | Some w => MkVector (map counterFromWire (bepCounters w))
  end.

(** One counter as [%x:%d] prints it. *)
Definition counter_string (c : Counter) : list ascii :=
  hex_encode (be_encode 8 (ID c)) ++ ":"%char :: dec_encode (Value c).

Definition String_ (v : Vector) : list ascii :=
  join_byte ","%char (map counter_string (Counters v)).

(** One pair of [VectorFromString].  [copy(idbs[8-len(idslice):], idslice)]
    panics when the slice is longer than the eight-byte array. *)
Definition parse_pair (p : list ascii) : go Counter :=
  match cut_byte ":"%char p with
  | None => Err "bad pair"
  | Some (idStr, valStr) =>
      match hex_decode idStr with
      | None => Err "bad id in pair"
      | Some idslice =>
          if (8 <? length idslice)%nat then Panic "slice bounds out of range"
          else
            let idbs := replicate (8 - length idslice) 0 ++ idslice in
            match parse_uint64 valStr with
            | None => Err "bad val in pair"
            | Some val => Ok {| ID := be_decode idbs; Value := val |}
            end
      end
  end.

Fixpoint parse_pairs (pairs : list (list ascii)) : go (list Counter) :=
  match pairs with
  | [] => Ok []
  | p :: pairs =>
      let! c := parse_pair p in
      let! cs := parse_pairs pairs in
      Ok (c :: cs)
  end.

Definition VectorFromString (s : list ascii) : go Vector :=
  let! cs := parse_pairs (split_byte ","%char s) in
  Ok (MkVector cs).

(** The loop of [updateWithNow] over the counters from an index on. *)
Fixpoint update_counters (cs : list Counter) (id now : Z) : list Counter :=
  match cs with
  | [] => [ {| ID := id; Value := Z.max 1 now |} ]
  | c :: cs' =>
      if ID c =? id then {| ID := ID c; Value := Z.max (u64 (Value c + 1)) now |} :: cs'
      else if id <? ID c then {| ID := id; Value := Z.max 1 now |} :: c :: cs'
      else c :: update_counters cs' id now
  end.

Definition updateWithNow (v : Vector) (id now : Z) : Vector :=
  MkVector (update_counters (Counters v) id now).

(** [unix] is what [time.Now().Unix()] returns. *)
Definition Update (v : Vector) (id unix : Z) : Vector :=
  updateWithNow v id (u64 unix).

(** One pass of the loop body of [Merge], at indices [vi] and [bi], both in
    range; the result is the counters and the two next indices. *)
Definition merge_body (v : list Counter) (cv cb : Counter) (vi bi : nat)
  : list Counter * nat * nat :=
  let v1 := if ID cb <? ID cv then take vi v ++ cb :: drop vi v else v in
  let cv1 := if ID cb <? ID cv then cb else cv in
  let v2 := if (ID cv1 =? ID cb) && (Value cv1 <? Value cb)
            then <[vi := {| ID := ID cv1; Value := Value cb |}]> v1 else v1 in
  (v2, S vi, if ID cv1 =? ID cb then S bi else bi).

Fixpoint merge_loop (fuel : nat) (v b : list Counter) (vi bi : nat) : option (list Counter) :=
  match fuel with
  | O => None
  | S fuel =>
      match b !! bi with
      | None => Some v
      | Some cb =>
          match v !! vi with
          | None => Some (v ++ drop bi b)
          | Some cv =>
              let '(v', vi', bi') := merge_body v cv cb vi bi in
              merge_loop fuel v' b vi' bi'
          end
      end
  end.

(** [merge_total] shows that the fuel is enough, so that the default is never
    used. *)
Definition Merge (v b : Vector) : Vector :=
  MkVector (default [] (merge_loop (S (length (Counters v) + length (Counters b)))
                                   (Counters v) (Counters b) 0 0)).

Definition Copy (v : Vector) : Vector := MkVector (Counters v).

(** The body of the loop of [Compare] between reading the two counters and
    moving the indices: a final verdict, or the running result. *)
Definition compare_body (av bv : Counter) (aMissing bMissing : bool) (result : Ordering)
  : Ordering + Ordering :=
  if ID av =? ID bv then
    if Value bv <? Value av then
      if decide (result = Lesser) then inl ConcurrentLesser else inr Greater
    else if Value av <? Value bv then
      if decide (result = Greater) then inl ConcurrentGreater else inr Lesser
    else inr result
  else if (negb aMissing && (ID av <? ID bv)) || bMissing then
    if 0 <? Value av then
      if decide (result = Lesser) then inl ConcurrentLesser else inr Greater
    else inr result
  else if (negb bMissing && (ID bv <? ID av)) || aMissing then
    if 0 <? Value bv then
      if decide (result = Greater) then inl ConcurrentGreater else inr Lesser
    else inr result
  else inr result.

Definition zero_counter : Counter := {| ID := 0; Value := 0 |}.

Fixpoint compare_loop (fuel : nat) (a b : list Counter) (ai bi : nat) (result : Ordering)
  : option Ordering :=
  match fuel with
  | O => None
  | S fuel =>
      if negb ((ai <? length a)%nat || (bi <? length b)%nat) then Some result
      else
        let aMissing := negb (ai <? length a)%nat in
        let bMissing := negb (bi <? length b)%nat in
        let av := default zero_counter (a !! ai) in
        let bv := default zero_counter (b !! bi) in
        match compare_body av bv aMissing bMissing result with
        | inl r => Some r
        | inr r =>
            let ai' := if (ai <? length a)%nat && ((ID av <=? ID bv) || bMissing)
                       then S ai else ai in
            let bi' := if (bi <? length b)%nat && ((ID bv <=? ID av) || aMissing)
                       then S bi else bi in
            compare_loop fuel a b ai' bi' r
        end
  end.

(** [compare_total] shows that the fuel is enough. *)
Definition Compare (v b : Vector) : Ordering :=
  default Equal (compare_loop (S (length (Counters v) + length (Counters b)))
                              (Counters v) (Counters b) 0 0 Equal).

Definition Vector_Equal (v b : Vector) : bool := bool_decide (Compare v b = Equal).
Definition LesserEqual (v b : Vector) : bool :=
  let comp := Compare v b in bool_decide (comp = Lesser) || bool_decide (comp = Equal).
Definition GreaterEqual (v b : Vector) : bool :=
  let comp := Compare v b in bool_decide (comp = Greater) || bool_decide (comp = Equal).
Definition Concurrent (v b : Vector) : bool :=
  let comp := Compare v b in
  bool_decide (comp = ConcurrentGreater) || bool_decide (comp = ConcurrentLesser).

Fixpoint counter_of (cs : list Counter) (id : Z) : Z :=
  match cs with
  | [] => 0
  | c :: cs => if ID c =? id then Value c else counter_of cs id
  end.
(** [Counter(id)], the value of a device's counter. *)
Definition Counter_ (v : Vector) (id : Z) : Z := counter_of (Counters v) id.

Definition IsEmpty (v : Vector) : bool := bool_decide (length (Counters v) = 0%nat).

Fixpoint drop_others (cs : list Counter) (id : Z) : list Counter :=
  match cs with
  | [] => []
  | c :: cs => if ID c =? id then [c] else drop_others cs id
  end.
Definition DropOthers (v : Vector) (id : Z) : Vector :=
  MkVector (drop_others (Counters v) id).

(** *** The database column ([dbVector] of [src/internal/db/sqlite/util.go]) *)

(** A value of type [any] read from the database. *)
Inductive dbAny := DbString (s : list ascii) | DbOther.

Definition dbVector_Value (v : Vector) : dbAny := DbString (String_ v).

Definition dbVector_Scan (value : dbAny) : go Vector :=
  match value with
  | DbOther => Err "not a string"
  | DbString str =>
      if bool_decide (str = []) then Ok (MkVector [])
      else
        let! vec := VectorFromString str in
        Ok (MkVector (sort_by (λ a b, ID a <? ID b) (Counters vec)))
  end.

(** ** Specification: vectors as functions from devices to counter values *)

(** A well-formed vector is strictly sorted by device and holds [uint64]s. *)
Definition counters_wf (cs : list Counter) : Prop :=
  StronglySorted (λ c d, ID c < ID d) cs ∧
  Forall (λ c, in_u64 (ID c) ∧ in_u64 (Value c)) cs.
Definition vector_wf (v : Vector) : Prop := counters_wf (Counters v).

Definition veq (a b : list Counter) : Prop := ∀ id, counter_of a id = counter_of b id.
Definition vle (a b : list Counter) : Prop := ∀ id, counter_of a id ≤ counter_of b id.
(** At the first device where they differ, [a] has the greater value. *)
Definition first_greater (a b : list Counter) : Prop :=
  ∃ id, counter_of b id < counter_of a id ∧
        ∀ id', id' < id → counter_of a id' = counter_of b id'.

#[export] Instance veq_equiv : Equivalence veq.
Proof.
  split; unfold veq; [by intros ??|intros a b H id; by rewrite H|].
  intros a b c H1 H2 id. by rewrite H1.
Qed.
#[export] Instance vle_proper : Proper (veq ==> veq ==> iff) vle.
Proof. unfold veq, vle. intros a a' Ha b b' Hb. by setoid_rewrite Ha; setoid_rewrite Hb. Qed.
#[export] Instance first_greater_proper : Proper (veq ==> veq ==> iff) first_greater.
Proof.
  unfold veq, first_greater. intros a a' Ha b b' Hb.
  by setoid_rewrite Ha; setoid_rewrite Hb.
Qed.

Lemma veq_vle a b : veq a b ↔ vle a b ∧ vle b a.
Proof.
  unfold veq, vle. split; [intros H; split; intros id; rewrite H; lia|].
  intros [H1 H2] id. specialize (H1 id). specialize (H2 id). lia.
Qed.

Lemma first_greater_not_vle a b : first_greater a b → ¬ vle a b.
Proof. intros (id & H & _) Hle. specialize (Hle id). lia. Qed.

Lemma first_greater_asym a b : first_greater a b → first_greater b a → False.
Proof.
  intros (i & Hi & Ei) (j & Hj & Ej).
  destruct (Z.lt_trichotomy i j) as [?|[->|?]]; [| lia |].
  - specialize (Ej i). lia.
  - specialize (Ei j). lia.
Qed.

(** All counters of [cs] belong to devices after [id]. *)
Abbreviation above id cs := (Forall (λ c, id < ID c) cs).

Lemma above_mono id id' cs : id ≤ id' → above id' cs → above id cs.
Proof. intros Hle H. eapply Forall_impl; [exact H|]. simpl. lia. Qed.

Lemma counters_wf_nil : counters_wf [].
Proof. split; constructor. Qed.

Lemma counters_wf_cons c cs :
  counters_wf (c :: cs) ↔
  above (ID c) cs ∧ in_u64 (ID c) ∧ in_u64 (Value c) ∧ counters_wf cs.
Proof.
  unfold counters_wf. split.
  - intros [Hs Hr]. inversion Hs; subst. inversion Hr as [|?? [??]]; subst. done.
  - intros (? & ? & ? & ? & ?). split; constructor; done.
Qed.

Lemma counter_of_above id cs : above id cs → ∀ id', id' ≤ id → counter_of cs id' = 0.
Proof.
  induction 1 as [|c cs Hc Hcs IH]; intros id' Hid; simpl; [done|].
  destruct (Z.eqb_spec (ID c) id'); [lia|auto].
Qed.

Lemma counter_of_range cs id : counters_wf cs → in_u64 (counter_of cs id).
Proof.
  induction cs as [|c cs IH]; simpl; [unfold in_u64; lia|].
  intros (_ & _ & Hv & Hcs)%counters_wf_cons. destruct (ID c =? id); auto.
Qed.

Lemma counter_of_nonneg cs id : counters_wf cs → 0 ≤ counter_of cs id.
Proof. intros H. pose proof (counter_of_range cs id H). unfold in_u64 in *. lia. Qed.

(** *** How the order changes with the first counter *)

Section head.
Context (ca : Counter) (a b : list Counter).
Context (Ha : counters_wf (ca :: a)) (Hb : counters_wf b).

Lemma head_above : above (ID ca) a.
Proof. by apply counters_wf_cons in Ha as (? & _). Qed.
Lemma head_value : 0 ≤ Value ca.
Proof. apply counters_wf_cons in Ha as (_ & _ & H & _). unfold in_u64 in H. lia. Qed.
Lemma counter_of_head : counter_of (ca :: a) (ID ca) = Value ca.
Proof. simpl. by rewrite Z.eqb_refl. Qed.
Lemma counter_of_tail id : id ≠ ID ca → counter_of (ca :: a) id = counter_of a id.
Proof. intros H. simpl. by destruct (Z.eqb_spec (ID ca) id); [congruence|]. Qed.
Lemma counter_of_tail_head : counter_of a (ID ca) = 0.
Proof. apply (counter_of_above _ _ head_above). lia. Qed.

Lemma veq_zero : Value ca = 0 → veq (ca :: a) a.
Proof.
  intros Hz id. destruct (decide (id = ID ca)) as [->|];
    [rewrite counter_of_head, counter_of_tail_head; lia|by apply counter_of_tail].
Qed.

(** The device of [ca] is missing in [b]. *)
Lemma vle_missing : above (ID ca) b → vle (ca :: a) b ↔ Value ca ≤ 0 ∧ vle a b.
Proof.
  intros Hab. pose proof head_value. split.
  - intros Hle. pose proof (Hle (ID ca)) as H0. rewrite counter_of_head in H0.
    rewrite (counter_of_above _ _ Hab) in H0 by lia. split; [done|].
    by rewrite <- veq_zero by lia.
  - intros [Hz Hle]. by rewrite veq_zero by lia.
Qed.

Lemma missing_vle : above (ID ca) b → vle b (ca :: a) ↔ vle b a.
Proof.
  intros Hab. pose proof head_value. unfold vle. split; intros Hle id;
    (destruct (decide (id = ID ca)) as [->|Hid]; [|by rewrite <- ?counter_of_tail by done;
      specialize (Hle id); rewrite ?counter_of_tail in * by done]).
  - rewrite counter_of_tail_head, (counter_of_above _ _ Hab); lia.
  - rewrite counter_of_head, (counter_of_above _ _ Hab); lia.
Qed.

Lemma first_greater_missing :
  above (ID ca) b → 0 < Value ca → first_greater (ca :: a) b.
Proof.
  intros Hab Hv. exists (ID ca). rewrite counter_of_head, (counter_of_above _ _ Hab) by lia.
  split; [done|]. intros id' Hid. rewrite counter_of_tail by lia.
  rewrite (counter_of_above _ _ Hab), (counter_of_above _ _ head_above); lia.
Qed.
End head.

Section both.
Context (ca cb : Counter) (a b : list Counter).
Context (Ha : counters_wf (ca :: a)) (Hb : counters_wf (cb :: b)) (Hid : ID ca = ID cb).

Lemma both_at :
  counter_of (ca :: a) (ID ca) = Value ca ∧ counter_of (cb :: b) (ID ca) = Value cb ∧
  counter_of a (ID ca) = 0 ∧ counter_of b (ID ca) = 0.
Proof.
  rewrite counter_of_head, (counter_of_tail_head ca a Ha), Hid, counter_of_head.
  by rewrite (counter_of_tail_head cb b Hb).
Qed.
Lemma both_off id : id ≠ ID ca →
  counter_of (ca :: a) id = counter_of a id ∧ counter_of (cb :: b) id = counter_of b id.
Proof. intros Hne. by rewrite !counter_of_tail by congruence. Qed.

Lemma vle_both : vle (ca :: a) (cb :: b) ↔ Value ca ≤ Value cb ∧ vle a b.
Proof.
  pose proof both_at as (E1 & E2 & E3 & E4). unfold vle. split.
  - intros Hle. split; [by rewrite <- E1, <- E2|]. intros id.
    destruct (decide (id = ID ca)) as [->|Hne]; [lia|].
    specialize (Hle id). by destruct (both_off id Hne) as [<- <-].
  - intros [Hv Hle] id. destruct (decide (id = ID ca)) as [->|Hne]; [lia|].
    by destruct (both_off id Hne) as [-> ->].
Qed.

Lemma first_greater_both_eq :
  Value ca = Value cb → first_greater (ca :: a) (cb :: b) ↔ first_greater a b.
Proof.
  intros Hv. pose proof both_at as (E1 & E2 & E3 & E4). unfold first_greater.
  assert (∀ id, counter_of (ca :: a) id - counter_of (cb :: b) id =
                counter_of a id - counter_of b id) as Hpt.
  { intros id. destruct (decide (id = ID ca)) as [->|Hne]; [lia|].
    destruct (both_off id Hne) as [-> ->]. lia. }
  split; intros (id & H1 & H2); exists id; (split; [specialize (Hpt id); lia|]);
    intros id' H'; specialize (H2 id' H'); specialize (Hpt id'); lia.
Qed.

Lemma first_greater_both : Value cb < Value ca → first_greater (ca :: a) (cb :: b).
Proof.
  intros Hv. pose proof both_at as (E1 & E2 & E3 & E4). exists (ID ca). split; [lia|].
  intros id' H'. destruct (both_off id') as [-> ->]; [lia|].
  rewrite (counter_of_above _ _ (head_above ca a Ha)) by lia.
  rewrite (counter_of_above _ _ (head_above cb b Hb)); lia.
Qed.
End both.

(** *** [Compare] decides the order *)

(** What the loop returns from two remaining lists and a running result. *)
Definition verdict (r : Ordering) (a b : list Counter) (o : Ordering) : Prop :=
  match r with
  | Equal =>
      (vle a b → vle b a → o = Equal) ∧
      (vle b a → ¬ vle a b → o = Greater) ∧
      (vle a b → ¬ vle b a → o = Lesser) ∧
      (¬ vle a b → ¬ vle b a →
        (first_greater a b → o = ConcurrentGreater) ∧
        (first_greater b a → o = ConcurrentLesser))
  | Greater => (vle b a → o = Greater) ∧ (¬ vle b a → o = ConcurrentGreater)
  | Lesser => (vle a b → o = Lesser) ∧ (¬ vle a b → o = ConcurrentLesser)
  | _ => False
  end.

(** Nothing changes when the heads compare equal. *)
Lemma verdict_same r a b a' b' o :
  (vle a b ↔ vle a' b') → (vle b a ↔ vle b' a') →
  (first_greater a b ↔ first_greater a' b') → (first_greater b a ↔ first_greater b' a') →
  verdict r a' b' o → verdict r a b o.
Proof. intros H1 H2 H3 H4. destruct r; simpl; tauto. Qed.

(** The head is a counter that is greater on the left. *)
Lemma verdict_greater r a b a' b' o :
  first_greater a b → (vle b a ↔ vle b' a') → r = Equal ∨ r = Greater →
  verdict Greater a' b' o → verdict r a b o.
Proof.
  intros Hf H1 Hr [HG HC]. pose proof (first_greater_not_vle _ _ Hf).
  pose proof (first_greater_asym a b Hf).
  destruct Hr as [-> | ->]; simpl; tauto.
Qed.
Lemma verdict_lesser r a b a' b' o :
  first_greater b a → (vle a b ↔ vle a' b') → r = Equal ∨ r = Lesser →
  verdict Lesser a' b' o → verdict r a b o.
Proof.
  intros Hf H1 Hr [HG HC]. pose proof (first_greater_not_vle _ _ Hf).
  pose proof (first_greater_asym b a Hf).
  destruct Hr as [-> | ->]; simpl; tauto.
Qed.

Lemma verdict_conc_lesser a b : first_greater a b → verdict Lesser a b ConcurrentLesser.
Proof. intros H%first_greater_not_vle. simpl. tauto. Qed.
Lemma verdict_conc_greater a b : first_greater b a → verdict Greater a b ConcurrentGreater.
Proof. intros H%first_greater_not_vle. simpl. tauto. Qed.

(** The three ways one pass of the loop can go: what it computes, and that the
    verdict on the remaining lists gives the verdict on the current ones. *)
Definition left_step (ca : Counter) (r : Ordering) : Ordering + Ordering :=
  if 0 <? Value ca then if decide (r = Lesser) then inl ConcurrentLesser else inr Greater
  else inr r.
Definition right_step (cb : Counter) (r : Ordering) : Ordering + Ordering :=
  if 0 <? Value cb then if decide (r = Greater) then inl ConcurrentGreater else inr Lesser
  else inr r.
Definition both_step (ca cb : Counter) (r : Ordering) : Ordering + Ordering :=
  if Value cb <? Value ca then
    if decide (r = Lesser) then inl ConcurrentLesser else inr Greater
  else if Value ca <? Value cb then
    if decide (r = Greater) then inl ConcurrentGreater else inr Lesser
  else inr r.

Definition simple (r : Ordering) : Prop := r = Equal ∨ r = Greater ∨ r = Lesser.

(** [out] continues correctly when whatever the rest yields is a verdict. *)
Definition sound (out : Ordering + Ordering) (r : Ordering) (a b a' b' : list Counter) : Prop :=
  match out with
  | inl o => verdict r a b o
  | inr r' => simple r' ∧ ∀ o, verdict r' a' b' o → verdict r a b o
  end.

Lemma left_step_sound ca a b r :
  counters_wf (ca :: a) → counters_wf b → above (ID ca) b → simple r →
  sound (left_step ca r) r (ca :: a) b a b.
Proof.
  intros Ha Hb Hab Hr. unfold left_step. pose proof (head_value ca a Ha).
  destruct (Z.ltb_spec 0 (Value ca)).
  - pose proof (first_greater_missing ca a b Ha Hab ltac:(done)) as Hf.
    destruct (decide (r = Lesser)) as [->|]; [by apply verdict_conc_lesser|].
    split; [unfold simple; tauto|]. intros o.
    apply verdict_greater; [done|by apply missing_vle|]. unfold simple in Hr. naive_solver.
  - split; [done|]. intros o. assert (veq (ca :: a) a) as E by (apply veq_zero; [done|lia]).
    apply verdict_same; by rewrite E.
Qed.

Lemma right_step_sound cb a b r :
  counters_wf a → counters_wf (cb :: b) → above (ID cb) a → simple r →
  sound (right_step cb r) r a (cb :: b) a b.
Proof.
  intros Ha Hb Hab Hr. unfold right_step. pose proof (head_value cb b Hb).
  destruct (Z.ltb_spec 0 (Value cb)).
  - pose proof (first_greater_missing cb b a Hb Hab ltac:(done)) as Hf.
    destruct (decide (r = Greater)) as [->|]; [by apply verdict_conc_greater|].
    split; [unfold simple; tauto|]. intros o.
    apply verdict_lesser; [done|by apply missing_vle|]. unfold simple in Hr. naive_solver.
  - split; [done|]. intros o. assert (veq (cb :: b) b) as E by (apply veq_zero; [done|lia]).
    apply verdict_same; by rewrite E.
Qed.

Lemma both_step_sound ca cb a b r :
  counters_wf (ca :: a) → counters_wf (cb :: b) → ID ca = ID cb → simple r →
  sound (both_step ca cb r) r (ca :: a) (cb :: b) a b.
Proof.
  intros Ha Hb Hid Hr. unfold both_step.
  pose proof (vle_both ca cb a b Ha Hb Hid) as L1.
  pose proof (vle_both cb ca b a Hb Ha (eq_sym Hid)) as L2.
  destruct (Z.ltb_spec (Value cb) (Value ca)); [|destruct (Z.ltb_spec (Value ca) (Value cb))].
  - assert (first_greater (ca :: a) (cb :: b)) as Hf by by apply first_greater_both.
    destruct (decide (r = Lesser)) as [->|]; [by apply verdict_conc_lesser|].
    split; [unfold simple; tauto|]. intros o.
    apply verdict_greater; [done| rewrite L2; intuition lia |unfold simple in Hr; naive_solver].
  - assert (first_greater (cb :: b) (ca :: a)) as Hf by by apply first_greater_both.
    destruct (decide (r = Greater)) as [->|]; [by apply verdict_conc_greater|].
    split; [unfold simple; tauto|]. intros o.
    apply verdict_lesser; [done| rewrite L1; intuition lia |unfold simple in Hr; naive_solver].
  - split; [done|]. intros o. apply verdict_same.
    + rewrite L1. intuition lia.
    + rewrite L2. intuition lia.
    + apply first_greater_both_eq; [done..|lia].
    + apply first_greater_both_eq; [done..|lia].
Qed.

Lemma compare_body_left ca bv bMissing r :
  (bMissing = true ∧ bv = zero_counter ∧ 0 ≤ Value ca ∨ ID ca < ID bv) →
  compare_body ca bv false bMissing r = left_step ca r.
Proof.
  intros H. unfold compare_body, left_step. destruct (Z.eqb_spec (ID ca) (ID bv)) as [E|].
  - destruct H as [(-> & -> & Hv)|]; [|lia]. simpl.
    destruct (Z.ltb_spec 0 (Value ca)); [done|].
    by destruct (Z.ltb_spec (Value ca) 0); [lia|].
  - destruct H as [(-> & -> & Hv)|Hlt]; [by rewrite orb_true_r|].
    by destruct (Z.ltb_spec (ID ca) (ID bv)); [|lia].
Qed.

Lemma compare_body_right av cb aMissing r :
  (aMissing = true ∧ av = zero_counter ∧ 0 ≤ Value cb ∨ ID cb < ID av) →
  compare_body av cb aMissing false r = right_step cb r.
Proof.
  intros H. unfold compare_body, right_step. destruct (Z.eqb_spec (ID av) (ID cb)) as [E|].
  - destruct H as [(-> & -> & Hv)|]; [|lia]. simpl.
    destruct (Z.ltb_spec (Value cb) 0); [lia|].
    by destruct (Z.ltb_spec 0 (Value cb)).
  - destruct H as [(-> & -> & Hv)|Hlt]; simpl; [by rewrite orb_true_r|].
    destruct (Z.ltb_spec (ID av) (ID cb)); [lia|].
    by rewrite andb_false_r; destruct (Z.ltb_spec (ID cb) (ID av)); [|lia].
Qed.

Lemma compare_body_both ca cb r :
  ID ca = ID cb → compare_body ca cb false false r = both_step ca cb r.
Proof. intros E. unfold compare_body. by rewrite (proj2 (Z.eqb_eq _ _) E). Qed.

(** Reading the list from an index on. *)
Lemma drop_cons_inv {A} (l : list A) i x k :
  drop i l = x :: k → l !! i = Some x ∧ drop (S i) l = k ∧ (i <? length l)%nat = true.
Proof.
  intros E. assert (l !! i = Some x) as Hx.
  { by rewrite <- (Nat.add_0_r i), <- lookup_drop, E. }
  split; [done|]. split.
  - rewrite <- Nat.add_1_r, <- drop_drop, E. done.
  - apply Nat.ltb_lt. by eapply lookup_lt_Some.
Qed.
Lemma drop_nil_inv {A} (l : list A) i :
  drop i l = [] → l !! i = None ∧ (i <? length l)%nat = false.
Proof.
  intros E. assert (length l ≤ i)%nat.
  { apply (f_equal length) in E. rewrite length_drop in E. simpl in E. lia. }
  split; [by apply lookup_ge_None_2|by apply Nat.ltb_ge].
Qed.

Lemma compare_loop_verdict fuel a b ai bi r :
  counters_wf (drop ai a) → counters_wf (drop bi b) → simple r →
  (length (drop ai a) + length (drop bi b) < fuel)%nat →
  ∃ o, compare_loop fuel a b ai bi r = Some o ∧ verdict r (drop ai a) (drop bi b) o.
Proof.
  revert ai bi r. induction fuel as [|fuel IH]; intros ai bi r Ha Hb Hr Hf; [lia|].
  cbn [compare_loop].
  assert (∀ out ai' bi',
    sound out r (drop ai a) (drop bi b) (drop ai' a) (drop bi' b) →
    counters_wf (drop ai' a) → counters_wf (drop bi' b) →
    (length (drop ai' a) + length (drop bi' b) < fuel)%nat →
    ∃ o, match out with inl r0 => Some r0 | inr r0 => compare_loop fuel a b ai' bi' r0 end
         = Some o ∧ verdict r (drop ai a) (drop bi b) o) as Hstep.
  { intros [o|r'] ai' bi' Hs Ha' Hb' Hl; [eauto|]. destruct Hs as [Hr' Hs].
    destruct (IH ai' bi' r' Ha' Hb' Hr' Hl) as (o & -> & Ho). eauto. }
  destruct (drop ai a) as [|ca a'] eqn:Ea, (drop bi b) as [|cb b'] eqn:Eb.
  - apply drop_nil_inv in Ea as [_ ->], Eb as [_ ->]. simpl. eexists; split; [done|].
    unfold simple in Hr. destruct r; simpl; unfold vle; naive_solver lia.
  - apply drop_nil_inv in Ea as Ea'; apply drop_cons_inv in Eb as Eb'.
    destruct Ea' as [-> ->], Eb' as (-> & Eb' & ->). cbn [orb negb from_option id andb].
    rewrite compare_body_right, orb_true_r by (left; split_and!; try done; by eapply head_value).
    apply counters_wf_cons in Hb as Hb'. apply Hstep; rewrite ?Ea, ?Eb'; [|done|tauto|simpl in *; lia].
    by apply right_step_sound.
  - apply drop_cons_inv in Ea as Ea'; apply drop_nil_inv in Eb as Eb'.
    destruct Ea' as (-> & Ea' & ->), Eb' as [-> ->]. cbn [orb negb from_option id andb].
    rewrite compare_body_left, orb_true_r by (left; split_and!; try done; by eapply head_value).
    apply counters_wf_cons in Ha as Ha'. apply Hstep; rewrite ?Eb, ?Ea'; [|tauto|done|simpl in *; lia].
    by apply left_step_sound.
  - apply drop_cons_inv in Ea as Ea'; apply drop_cons_inv in Eb as Eb'.
    destruct Ea' as (-> & Ea' & ->), Eb' as (-> & Eb' & ->). cbn [orb negb from_option id andb].
    rewrite !orb_false_r.
    apply counters_wf_cons in Ha as Ha'. apply counters_wf_cons in Hb as Hb'.
    destruct (Z.lt_trichotomy (ID ca) (ID cb)) as [Hlt|[Heq|Hlt]].
    + rewrite compare_body_left by auto.
      destruct (Z.leb_spec (ID ca) (ID cb)), (Z.leb_spec (ID cb) (ID ca)); try lia; cbn [orb andb].
      apply Hstep; rewrite ?Ea', ?Eb; [|tauto|done|simpl in *; lia].
      apply left_step_sound; try done. constructor; [done|].
      apply (above_mono _ (ID cb)); [lia|tauto].
    + rewrite compare_body_both by done.
      destruct (Z.leb_spec (ID ca) (ID cb)), (Z.leb_spec (ID cb) (ID ca)); try lia; cbn [orb andb].
      apply Hstep; rewrite ?Ea', ?Eb'; [|tauto|tauto|simpl in *; lia].
      by apply both_step_sound.
    + rewrite compare_body_right by auto.
      destruct (Z.leb_spec (ID ca) (ID cb)), (Z.leb_spec (ID cb) (ID ca)); try lia; cbn [orb andb].
      apply Hstep; rewrite ?Ea, ?Eb'; [|done|tauto|simpl in *; lia].
      apply right_step_sound; try done. constructor; [done|].
      apply (above_mono _ (ID ca)); [lia|tauto].
Qed.

Lemma veq_both ca cb a b : ID ca = ID cb → Value ca = Value cb → veq a b → veq (ca :: a) (cb :: b).
Proof. intros Hi Hv H id. simpl. by rewrite Hi, Hv, (H id). Qed.

Lemma first_difference a b :
  counters_wf a → counters_wf b → veq a b ∨ first_greater a b ∨ first_greater b a.
Proof.
  revert b. induction a as [|ca a IHa]; intros b Ha; [clear Ha|];
    induction b as [|cb b IHb]; intros Hb; [by left| | |].
  - apply counters_wf_cons in Hb as Hb'. pose proof (head_value cb b Hb).
    destruct (decide (Value cb = 0)) as [Hz|].
    + rewrite (veq_zero cb b Hb Hz). apply IHb. tauto.
    + right; right. apply first_greater_missing; [done..|constructor|lia].
  - apply counters_wf_cons in Ha as Ha'. pose proof (head_value ca a Ha).
    destruct (decide (Value ca = 0)) as [Hz|].
    + rewrite (veq_zero ca a Ha Hz). apply IHa; tauto.
    + right; left. apply first_greater_missing; [done..|constructor|lia].
  - apply counters_wf_cons in Ha as Ha'. apply counters_wf_cons in Hb as Hb'.
    pose proof (head_value ca a Ha). pose proof (head_value cb b Hb).
    destruct (Z.lt_trichotomy (ID ca) (ID cb)) as [Hlt|[Heq|Hlt]].
    + assert (above (ID ca) (cb :: b)).
      { constructor; [done|]. apply (above_mono _ (ID cb)); [lia|tauto]. }
      destruct (decide (Value ca = 0)) as [Hz|].
      * rewrite (veq_zero ca a Ha Hz). apply IHa; tauto.
      * right; left. apply first_greater_missing; [done..|lia].
    + destruct (Z.lt_trichotomy (Value ca) (Value cb)) as [Hv|[Hv|Hv]].
      * right; right. by apply first_greater_both.
      * rewrite (first_greater_both_eq ca cb), (first_greater_both_eq cb ca) by done.
        destruct (IHa b) as [?|?]; [tauto..| |by right]. left. by apply veq_both.
      * right; left. by apply first_greater_both.
    + assert (above (ID cb) (ca :: a)).
      { constructor; [done|]. apply (above_mono _ (ID ca)); [lia|tauto]. }
      destruct (decide (Value cb = 0)) as [Hz|].
      * rewrite (veq_zero cb b Hb Hz). apply IHb; tauto.
      * right; right. apply first_greater_missing; [done..|lia].
Qed.

Lemma vle_forall a b :
  counters_wf a → counters_wf b →
  vle a b ↔ Forall (λ c, Value c ≤ counter_of b (ID c)) a.
Proof.
  intros Ha Hb. revert Ha. induction a as [|c a IH]; intros Ha.
  - split; [constructor|]. intros _ id. by apply counter_of_nonneg.
  - apply counters_wf_cons in Ha as Ha'. rewrite Forall_cons, <- IH by tauto. split.
    + intros Hle. split; [specialize (Hle (ID c)); by rewrite counter_of_head in Hle|].
      intros id. destruct (decide (id = ID c)) as [->|Hne].
      * rewrite (counter_of_tail_head c a Ha). by apply counter_of_nonneg.
      * specialize (Hle id). by rewrite counter_of_tail in Hle.
    + intros [Hv Hle] id. destruct (decide (id = ID c)) as [->|Hne].
      * by rewrite counter_of_head.
      * rewrite counter_of_tail by done. apply Hle.
Qed.

Lemma vle_dec a b : counters_wf a → counters_wf b → vle a b ∨ ¬ vle a b.
Proof.
  intros Ha Hb. rewrite (vle_forall a b Ha Hb).
  destruct (decide (Forall (λ c, Value c ≤ counter_of b (ID c)) a)); auto.
Qed.

(** The fuel of [Compare] is enough. *)
Lemma compare_total v b :
  vector_wf v → vector_wf b →
  is_Some (compare_loop (S (length (Counters v) + length (Counters b)))
                        (Counters v) (Counters b) 0 0 Equal).
Proof.
  intros Hv Hb. destruct (compare_loop_verdict (S (length (Counters v) + length (Counters b)))
    (Counters v) (Counters b) 0 0 Equal) as (o & -> & _); rewrite ?drop_0; try done.
  - by left.
  - lia.
Qed.

Lemma compare_verdict v b :
  vector_wf v → vector_wf b → verdict Equal (Counters v) (Counters b) (Compare v b).
Proof.
  intros Hv Hb. unfold Compare.
  destruct (compare_loop_verdict (S (length (Counters v) + length (Counters b)))
    (Counters v) (Counters b) 0 0 Equal) as (o & -> & Ho); rewrite ?drop_0; try done.
  - by left.
  - lia.
Qed.

(** The order on vectors. *)
Definition below (v b : Vector) : Prop := ∀ id, Counter_ v id ≤ Counter_ b id.
Definition leads (v b : Vector) : Prop := first_greater (Counters v) (Counters b).

Lemma compare_cases v b :
  vector_wf v → vector_wf b →
  (Compare v b = Equal ↔ below v b ∧ below b v) ∧
  (Compare v b = Greater ↔ below b v ∧ ¬ below v b) ∧
  (Compare v b = Lesser ↔ below v b ∧ ¬ below b v) ∧
  (Compare v b = ConcurrentGreater ↔ ¬ below v b ∧ ¬ below b v ∧ leads v b) ∧
  (Compare v b = ConcurrentLesser ↔ ¬ below v b ∧ ¬ below b v ∧ leads b v).
Proof.
  intros Hv Hb. destruct (compare_verdict v b Hv Hb) as (H1 & H2 & H3 & H4).
  change (vle (Counters v) (Counters b)) with (below v b) in *.
  change (vle (Counters b) (Counters v)) with (below b v) in *.
  change (first_greater (Counters v) (Counters b)) with (leads v b) in *.
  change (first_greater (Counters b) (Counters v)) with (leads b v) in *.
  pose proof (first_greater_asym (Counters v) (Counters b)) as Has.
  destruct (vle_dec _ _ Hv Hb) as [L1|L1], (vle_dec _ _ Hb Hv) as [L2|L2];
    change (vle (Counters v) (Counters b)) with (below v b) in L1;
    change (vle (Counters b) (Counters v)) with (below b v) in L2.
  - specialize (H1 L1 L2). clear H2 H3 H4. rewrite H1. intuition congruence.
  - specialize (H3 L1 L2). clear H1 H2 H4. rewrite H3. intuition congruence.
  - specialize (H2 L2 L1). clear H1 H3 H4. rewrite H2. intuition congruence.
  - destruct (H4 L1 L2) as [HG HL]. clear H1 H2 H3 H4.
    destruct (first_difference _ _ Hv Hb) as [E|[F|F]].
    + apply veq_vle in E as [E _]. contradiction.
    + rewrite (HG F). intuition congruence.
    + rewrite (HL F). intuition congruence.
Qed.

(** The result with the arguments exchanged. *)
Definition flip_ordering (o : Ordering) : Ordering :=
  match o with
  | Equal => Equal
  | Greater => Lesser
  | Lesser => Greater
  | ConcurrentLesser => ConcurrentGreater
  | ConcurrentGreater => ConcurrentLesser
  end.

Lemma Compare_swap v b :
  vector_wf v → vector_wf b → Compare b v = flip_ordering (Compare v b).
Proof.
  intros Hv Hb. destruct (compare_cases b v Hb Hv) as (E & G & L & CG & CL).
  destruct (compare_cases v b Hv Hb) as (E' & G' & L' & CG' & CL').
  destruct (Compare v b); simpl.
  - apply E. destruct E' as [E' _]. destruct (E' eq_refl). done.
  - apply L, G'. done.
  - apply G, L'. done.
  - apply CG. destruct CL' as [CL' _]. destruct (CL' eq_refl) as (? & ? & ?). done.
  - apply CL. destruct CG' as [CG' _]. destruct (CG' eq_refl) as (? & ? & ?). done.
Qed.

(** [Equal] is equality of all counters. *)
Lemma Vector_Equal_spec v b :
  vector_wf v → vector_wf b →
  Vector_Equal v b = true ↔ ∀ id, Counter_ v id = Counter_ b id.
Proof.
  intros Hv Hb. unfold Vector_Equal. rewrite bool_decide_eq_true.
  destruct (compare_cases v b Hv Hb) as [-> _]. unfold below. split.
  - intros [H1 H2] id. specialize (H1 id). specialize (H2 id). lia.
  - intros H. split; intros id; rewrite H; lia.
Qed.

Lemma Vector_Equal_refl v : vector_wf v → Vector_Equal v v = true.
Proof. intros Hv. by apply Vector_Equal_spec. Qed.
Lemma Vector_Equal_sym v b :
  vector_wf v → vector_wf b → Vector_Equal v b = true → Vector_Equal b v = true.
Proof. intros Hv Hb. rewrite !Vector_Equal_spec by done. auto. Qed.
Lemma Vector_Equal_trans v b c :
  vector_wf v → vector_wf b → vector_wf c →
  Vector_Equal v b = true → Vector_Equal b c = true → Vector_Equal v c = true.
Proof. intros Hv Hb Hc. rewrite !Vector_Equal_spec by done. intros H1 H2 id. by rewrite H1. Qed.

(** C6.  On sorted vectors [Compare] decides the pointwise order of the
    counters: each of the five results is returned exactly when the vectors are
    so related, and of two concurrent vectors the one whose counter is greater
    at the first difference is the greater. *)
Theorem Compare_spec v b :
  vector_wf v → vector_wf b →
  (Compare v b = Equal ↔ below v b ∧ below b v) ∧
  (Compare v b = Greater ↔ below b v ∧ ¬ below v b) ∧
  (Compare v b = Lesser ↔ below v b ∧ ¬ below b v) ∧
  (Compare v b = ConcurrentGreater ↔ ¬ below v b ∧ ¬ below b v ∧ leads v b) ∧
  (Compare v b = ConcurrentLesser ↔ ¬ below v b ∧ ¬ below b v ∧ leads b v).
Proof. apply compare_cases. Qed.

Definition v12 : Vector := MkVector [MkCounter 1 5; MkCounter 7 2].
Definition v13 : Vector := MkVector [MkCounter 1 4; MkCounter 7 3].

Lemma v12_wf : vector_wf v12.
Proof. split; repeat constructor; unfold in_u64; simpl; lia. Defined.
Lemma v13_wf : vector_wf v13.
Proof. split; repeat constructor; unfold in_u64; simpl; lia. Defined.

Lemma Compare_spec_witness : ¬ below v12 v13 ∧ ¬ below v13 v12 ∧ leads v12 v13.
Proof. by apply (Compare_spec v12 v13 v12_wf v13_wf). Defined.

(** *** [Merge] *)

(** What the loop computes on the remaining counters. *)
Fixpoint merge_ref (v : list Counter) : list Counter → list Counter :=
  fix go (b : list Counter) : list Counter :=
    match v, b with
    | _, [] => v
    | [], _ => b
    | cv :: v', cb :: b' =>
        if ID cb <? ID cv then cb :: go b'
        else if ID cv =? ID cb then
          {| ID := ID cv; Value := Z.max (Value cv) (Value cb) |} :: merge_ref v' b'
        else cv :: merge_ref v' b
    end.

Lemma merge_ref_nil_r v : merge_ref v [] = v.
Proof. by destruct v. Qed.
Lemma merge_ref_nil_l b : merge_ref [] b = b.
Proof. by destruct b. Qed.
Lemma merge_ref_cons cv v cb b :
  merge_ref (cv :: v) (cb :: b) =
  if ID cb <? ID cv then cb :: merge_ref (cv :: v) b
  else if ID cv =? ID cb then
    {| ID := ID cv; Value := Z.max (Value cv) (Value cb) |} :: merge_ref v b
  else cv :: merge_ref v (cb :: b).
Proof. done. Qed.

Lemma counter_eta c : {| ID := ID c; Value := Value c |} = c.
Proof. by destruct c. Qed.

(** One pass at the first of the remaining counters [cv :: v]. *)
Lemma merge_body_app pre cv v cb bi :
  merge_body (pre ++ cv :: v) cv cb (length pre) bi =
  if ID cb <? ID cv then (pre ++ cb :: cv :: v, S (length pre), S bi)
  else if ID cv =? ID cb then
    (pre ++ {| ID := ID cv; Value := Z.max (Value cv) (Value cb) |} :: v, S (length pre), S bi)
  else (pre ++ cv :: v, S (length pre), bi).
Proof.
  unfold merge_body. destruct (Z.ltb_spec (ID cb) (ID cv)).
  - rewrite Z.eqb_refl, Z.ltb_irrefl. cbn [andb].
    by rewrite take_app_length, drop_app_length.
  - destruct (Z.eqb_spec (ID cv) (ID cb)) as [E|]; cbn [andb]; [|done].
    destruct (Z.ltb_spec (Value cv) (Value cb)).
    + rewrite insert_app_r_alt, Nat.sub_diag by done. simpl. by rewrite Z.max_r by lia.
    + rewrite Z.max_l, counter_eta by lia. done.
Qed.

Lemma merge_loop_ref fuel pre v b bi :
  (length v + length (drop bi b) < fuel)%nat →
  merge_loop fuel (pre ++ v) b (length pre) bi = Some (pre ++ merge_ref v (drop bi b)).
Proof.
  revert pre v bi. induction fuel as [|fuel IH]; intros pre v bi Hf; [lia|].
  assert (∀ c v' bi', (length v' + length (drop bi' b) < fuel)%nat →
    merge_loop fuel (pre ++ c :: v') b (S (length pre)) bi' =
    Some (pre ++ c :: merge_ref v' (drop bi' b))) as Hnext.
  { intros c v' bi' Hl. specialize (IH (pre ++ [c]) v' bi' Hl).
    rewrite length_app, <- !app_assoc in IH. simpl in IH. by rewrite Nat.add_1_r in IH. }
  cbn [merge_loop]. destruct (drop bi b) as [|cb b'] eqn:Eb.
  - apply drop_nil_inv in Eb as [-> _]. by rewrite merge_ref_nil_r.
  - apply drop_cons_inv in Eb as Eb'. destruct Eb' as (-> & Eb' & _).
    destruct v as [|cv v].
    + rewrite app_nil_r, lookup_ge_None_2 by lia. by rewrite merge_ref_nil_l.
    + rewrite lookup_app_r, Nat.sub_diag by lia. cbn [lookup list_lookup].
      rewrite merge_body_app, merge_ref_cons. simpl in Hf.
      destruct (Z.ltb_spec (ID cb) (ID cv)); [|destruct (Z.eqb_spec (ID cv) (ID cb))].
      * rewrite Hnext, Eb'; [done|]. rewrite Eb'. simpl. lia.
      * rewrite Hnext, Eb'; [done|]. rewrite Eb'. lia.
      * rewrite Hnext, Eb; [done|]. rewrite Eb. simpl. lia.
Qed.

(** The fuel of [Merge] is enough. *)
Lemma merge_total v b :
  merge_loop (S (length v + length b)) v b 0 0 = Some (merge_ref v b).
Proof.
  rewrite <- (drop_0 b) at 3. apply (merge_loop_ref _ [] v b 0). rewrite drop_0. lia.
Qed.
Lemma Merge_ref v b : Merge v b = MkVector (merge_ref (Counters v) (Counters b)).
Proof. unfold Merge. by rewrite merge_total. Qed.

Lemma merge_ref_above id v b : above id v → above id b → above id (merge_ref v b).
Proof.
  intros Hv. revert b. induction Hv as [|cv v Hcv Hv IHv]; intros b Hb.
  { by rewrite merge_ref_nil_l. }
  induction Hb as [|cb b Hcb Hb IHb]; [by constructor|].
  rewrite merge_ref_cons. destruct (ID cb <? ID cv); [by constructor|].
  destruct (ID cv =? ID cb); constructor; simpl; auto.
Qed.

(** Both halves of the correctness of [Merge], by the recursion of the loop. *)
Lemma merge_ref_spec v b :
  counters_wf v → counters_wf b →
  counters_wf (merge_ref v b) ∧
  ∀ id, counter_of (merge_ref v b) id = Z.max (counter_of v id) (counter_of b id).
Proof.
  revert b. induction v as [|cv v IHv]; intros b Hv Hb.
  { rewrite merge_ref_nil_l. split; [done|]. intros id. simpl.
    pose proof (counter_of_nonneg b id Hb). lia. }
  induction b as [|cb b IHb].
  { rewrite merge_ref_nil_r. split; [done|]. intros id. simpl counter_of at 3.
    pose proof (counter_of_nonneg (cv :: v) id Hv). lia. }
  apply counters_wf_cons in Hv as Hv'. apply counters_wf_cons in Hb as Hb'.
  destruct Hv' as (Av & Iv & Vv & Wv), Hb' as (Ab & Ib & Vb & Wb).
  rewrite merge_ref_cons. destruct (Z.ltb_spec (ID cb) (ID cv)); [|destruct (Z.eqb_spec (ID cv) (ID cb)) as [E|]].
  - destruct (IHb Wb) as [W C].
    assert (above (ID cb) (cv :: v)) as A.
    { constructor; [done|]. apply (above_mono _ (ID cv)); [lia|done]. }
    split; [apply counters_wf_cons; split_and!; try done; by apply merge_ref_above|].
    intros id. destruct (decide (id = ID cb)) as [->|Hne].
    + rewrite !counter_of_head, (counter_of_above _ _ A) by lia. unfold in_u64 in Vb. lia.
    + by rewrite !(counter_of_tail cb).
  - destruct (IHv b Wv Wb) as [W C]. split.
    + apply counters_wf_cons. simpl. split_and!; try done; unfold in_u64 in *; try lia.
      apply merge_ref_above; [done|]. by rewrite E.
    + intros id. simpl. rewrite <- E, C. by destruct (ID cv =? id).
  - destruct (IHv (cb :: b) Wv Hb) as [W C].
    assert (above (ID cv) (cb :: b)) as A.
    { constructor; [lia|]. apply (above_mono _ (ID cb)); [lia|done]. }
    split; [apply counters_wf_cons; split_and!; try done; by apply merge_ref_above|].
    intros id. destruct (decide (id = ID cv)) as [->|Hne].
    + rewrite counter_of_head, (counter_of_head cv), (counter_of_above _ _ A) by lia.
      unfold in_u64 in Vv. lia.
    + by rewrite !(counter_of_tail cv).
Qed.

(** C7.  [Merge] of two sorted vectors is sorted and holds, for every device,
    the maximum of the two counters; the loop always finishes. *)
Theorem Merge_spec v b :
  vector_wf v → vector_wf b →
  vector_wf (Merge v b) ∧
  (∀ id, Counter_ (Merge v b) id = Z.max (Counter_ v id) (Counter_ b id)) ∧
  is_Some (merge_loop (S (length (Counters v) + length (Counters b)))
                      (Counters v) (Counters b) 0 0).
Proof.
  intros Hv Hb. rewrite Merge_ref. destruct (merge_ref_spec _ _ Hv Hb) as [W C].
  split_and!; [done|done|]. by rewrite merge_total.
Qed.

Lemma Merge_spec_witness : Counters (Merge v12 v13) = [MkCounter 1 5; MkCounter 7 3] ∧
  vector_wf (Merge v12 v13).
Proof. split; [reflexivity|]. by apply (Merge_spec v12 v13 v12_wf v13_wf). Defined.

(** *** [Update] *)

Lemma update_counters_above id0 cs id now :
  id0 < id → above id0 cs → above id0 (update_counters cs id now).
Proof.
  intros Hid. induction 1 as [|c cs Hc Hcs IH]; simpl; [by constructor|].
  destruct (ID c =? id); [by constructor|]. destruct (id <? ID c); by repeat constructor.
Qed.

Lemma update_counters_spec cs id now :
  counters_wf cs → in_u64 id → in_u64 now →
  counters_wf (update_counters cs id now) ∧
  (∀ id', id' ≠ id → counter_of (update_counters cs id now) id' = counter_of cs id') ∧
  counter_of (update_counters cs id now) id =
    Z.max (u64 (counter_of cs id + 1)) now.
Proof.
  intros Hcs Hid Hnow. induction cs as [|c cs IH].
  { simpl. split_and!.
    - apply counters_wf_cons. unfold in_u64 in *. simpl. split_and!; try lia; [done|].
      apply counters_wf_nil.
    - intros id' Hne. destruct (Z.eqb_spec id id'); congruence.
    - by rewrite Z.eqb_refl. }
  apply counters_wf_cons in Hcs as (Ac & Ic & Vc & Wc).
  specialize (IH Wc). destruct IH as (W & O & S). cbn [update_counters].
  destruct (Z.eqb_spec (ID c) id) as [E|Hne]; [|destruct (Z.ltb_spec id (ID c))].
  - split_and!.
    + apply counters_wf_cons. simpl. split_and!; try done.
      pose proof (u64_range (Value c + 1)). unfold in_u64 in *. lia.
    + intros id' Hne. simpl. destruct (Z.eqb_spec (ID c) id'); [congruence|done].
    + simpl. by destruct (Z.eqb_spec (ID c) id).
  - split_and!.
    + apply counters_wf_cons. simpl. split_and!; unfold in_u64 in *; try lia.
      * constructor; [done|]. apply (above_mono _ (ID c)); [lia|done].
      * by apply counters_wf_cons.
    + intros id' Hne'. simpl. destruct (Z.eqb_spec id id'); [congruence|done].
    + simpl. rewrite Z.eqb_refl. destruct (Z.eqb_spec (ID c) id); [congruence|].
      by rewrite (counter_of_above _ _ Ac) by lia.
  - split_and!.
    + apply counters_wf_cons. split_and!; try done. apply update_counters_above; [lia|done].
    + intros id' Hne'. simpl. destruct (ID c =? id'); [done|by apply O].
    + simpl. destruct (Z.eqb_spec (ID c) id); [congruence|done].
Qed.

Lemma updateWithNow_newer v id now :
  vector_wf v → in_u64 id → in_u64 now → Counter_ v id < 18446744073709551615 →
  Compare (updateWithNow v id now) v = Greater.
Proof.
  intros Hv Hid Hnow Hmax.
  destruct (update_counters_spec _ id now Hv Hid Hnow) as (W & O & S).
  apply compare_cases; [done|done|]. unfold below.
  change (Counter_ (updateWithNow v id now)) with
    (counter_of (update_counters (Counters v) id now)).
  pose proof (counter_of_nonneg _ id Hv) as Hn. unfold Counter_ in *.
  assert (counter_of (Counters v) id < counter_of (update_counters (Counters v) id now) id).
  { rewrite S, u64_id; unfold in_u64; lia. }
  split.
  - intros id'. destruct (decide (id' = id)) as [->|Hne]; [lia|]. rewrite O by done. lia.
  - intros Hle. specialize (Hle id). lia.
Qed.

(** [updateWithNow] keeps the vector sorted, sets the device's counter to
    the successor of its value (modulo 2^64) or to the clock when that is
    later, and leaves every other counter alone; below the last [uint64] the
    result is strictly greater than the old vector. *)
Theorem updateWithNow_spec v id now :
  vector_wf v → in_u64 id → in_u64 now →
  vector_wf (updateWithNow v id now) ∧
  (∀ id', id' ≠ id → Counter_ (updateWithNow v id now) id' = Counter_ v id') ∧
  Counter_ (updateWithNow v id now) id = Z.max (u64 (Counter_ v id + 1)) now ∧
  (Counter_ v id < 18446744073709551615 → Compare (updateWithNow v id now) v = Greater).
Proof.
  intros Hv Hid Hnow.
  destruct (update_counters_spec _ id now Hv Hid Hnow) as (W & O & S).
  split_and!; [done|done|done|]. by apply updateWithNow_newer.
Qed.

Lemma updateWithNow_spec_witness :
  Compare (updateWithNow v12 3 100) v12 = Greater ∧
  Counters (updateWithNow v12 3 100) = [MkCounter 1 5; MkCounter 3 100; MkCounter 7 2].
Proof.
  split; [|reflexivity].
  apply (updateWithNow_spec v12 3 100 v12_wf); unfold in_u64, Counter_; simpl; lia.
Defined.

(** At the last [uint64] the counter wraps around, so the updated vector can be
    older than the one it replaces. *)
Example update_wraps :
  Compare (updateWithNow (MkVector [MkCounter 1 18446744073709551615]) 1 5)
          (MkVector [MkCounter 1 18446744073709551615]) = Lesser.
Proof. reflexivity. Qed.

(** *** The textual form *)

Lemma hex_digits_no c : c ∈ hex_digits → c ≠ ":"%char ∧ c ≠ ","%char.
Proof.
  intros H. enough (Forall (λ c, c ≠ ":"%char ∧ c ≠ ","%char) hex_digits) as HF.
  { rewrite Forall_forall in HF. by apply HF. }
  repeat constructor; discriminate.
Qed.

Lemma hex_encode_no c bs :
  Forall is_byte bs → c = ":"%char ∨ c = ","%char → c ∉ hex_encode bs.
Proof.
  intros Hb Hc Hin. apply hex_encode_chars in Hin; [|done].
  apply hex_digits_no in Hin. naive_solver.
Qed.

Lemma dec_encode_no z : 0 ≤ z → ","%char ∉ dec_encode z.
Proof. intros Hz Hin. by apply (dec_encode_fuel_chars _ _ _ Hz Hin). Qed.

Definition counter_ok (c : Counter) : Prop := in_u64 (ID c) ∧ in_u64 (Value c).

Lemma parse_pair_string c : counter_ok c → parse_pair (counter_string c) = Ok c.
Proof.
  intros [Hi Hv]. unfold parse_pair, counter_string.
  rewrite cut_byte_app by (apply hex_encode_no; [apply be_encode_bytes|by left]).
  rewrite hex_decode_encode by apply be_encode_bytes. rewrite length_be_encode.
  cbn [Nat.ltb Nat.leb Nat.sub replicate app].
  rewrite parse_uint64_encode by done.
  rewrite be_decode_encode by exact Hi. by rewrite counter_eta.
Qed.

Lemma parse_pairs_string cs :
  Forall counter_ok cs → parse_pairs (map counter_string cs) = Ok cs.
Proof.
  induction 1 as [|c cs Hc Hcs IH]; [done|]. cbn [map parse_pairs].
  rewrite parse_pair_string by done. cbn [mbind go_bind]. by rewrite IH.
Qed.

Lemma counter_string_no_comma c : counter_ok c → ","%char ∉ counter_string c.
Proof.
  intros [Hi Hv]. unfold counter_string. rewrite elem_of_app, elem_of_cons.
  intros [H|[H|H]]; [|done|].
  - by apply (hex_encode_no ","%char (be_encode 8 (ID c))); [apply be_encode_bytes|right|].
  - revert H. apply dec_encode_no. unfold in_u64 in Hv. lia.
Qed.

Lemma VectorFromString_String v :
  Counters v ≠ [] → Forall counter_ok (Counters v) → VectorFromString (String_ v) = Ok v.
Proof.
  intros Hne Hok. unfold VectorFromString, String_.
  rewrite split_join.
  - rewrite parse_pairs_string by done. by destruct v.
  - by destruct (Counters v).
  - apply Forall_map. eapply Forall_impl; [exact Hok|]. apply counter_string_no_comma.
Qed.

Lemma dbVector_Scan_Value v :
  vector_wf v → dbVector_Scan (dbVector_Value v) = Ok v.
Proof.
  intros [Hs Hr]. unfold dbVector_Scan, dbVector_Value.
  destruct v as [[|c cs]]; [done|].
  assert (String_ (MkVector (c :: cs)) ≠ []) as Hne.
  { unfold String_. cbn [Counters map join_byte]. destruct (counter_string c) eqn:E.
    - by apply app_nil in E as [_ ?].
    - by destruct (map _ cs). }
  case_bool_decide; [done|]. rewrite VectorFromString_String by done.
  cbn [mbind go_bind Counters] in *. rewrite sort_by_id; [done|].
  eapply StronglySorted_impl; [|exact Hs]. simpl. intros x y Hxy.
  apply Z.ltb_ge. lia.
Qed.

(** A sorted vector written to a database column reads back as itself. *)
Theorem dbVector_roundtrip v :
  vector_wf v → dbVector_Scan (dbVector_Value v) = Ok v.
Proof. apply dbVector_Scan_Value. Qed.

Lemma dbVector_roundtrip_witness : dbVector_Scan (dbVector_Value v12) = Ok v12.
Proof. apply (dbVector_roundtrip v12 v12_wf). Defined.

(** [VectorFromString] refuses what [String] prints for the empty vector,
    and it panics on every identifier longer than eight bytes. *)
Theorem VectorFromString_partial bs t :
  Forall is_byte bs → (8 < length bs)%nat → ","%char ∉ t →
  VectorFromString (String_ (MkVector [])) = Err "bad pair" ∧
  VectorFromString (hex_encode bs ++ ":"%char :: t) = Panic "slice bounds out of range".
Proof.
  intros Hbs Hlen Ht. split; [done|]. unfold VectorFromString.
  rewrite split_byte_part.
  - cbn [parse_pairs]. unfold parse_pair.
    rewrite cut_byte_app by (apply hex_encode_no; auto).
    rewrite hex_decode_encode by done. by rewrite (proj2 (Nat.ltb_lt _ _) Hlen).
  - rewrite elem_of_app, elem_of_cons. intros [H|[H|H]]; [|done|done].
    by apply (hex_encode_no ","%char bs); auto.
Qed.

Lemma VectorFromString_partial_witness :
  VectorFromString (s2l "000000000000000001:1") = Panic "slice bounds out of range".
Proof.
  apply (VectorFromString_partial [0; 0; 0; 0; 0; 0; 0; 0; 1] (s2l "1")).
  - unfold is_byte. repeat (constructor; [lia|]). constructor.
  - simpl. lia.
  - cbn. set_solver.
Defined.
