(* ===== verification/Base32.v ===== *)
(** * Base 32 ([encoding/base32], [StdEncoding])

    The standard encoding with padding, as [src/lib/protocol/deviceid.go] uses
    it: encoding of a byte slice, and the decoder's quantum-by-quantum reading
    with its padding rules. *)
From S2P Require Import Prelude GoLib.
From Stdlib Require Import Ascii.

Local Open Scope Z_scope.

Definition alphabet : list ascii := s2l "ABCDEFGHIJKLMNOPQRSTUVWXYZ234567".
Definition b32_chr (v : Z) : ascii := default "A"%char (alphabet !! Z.to_nat v).
Definition b32_val (c : ascii) : option Z :=
  let v := byte_val c in
  if (65 <=? v) && (v <=? 90) then Some (v - 65)
  else if (50 <=? v) && (v <=? 55) then Some (v - 24)
  else None.

(** Bits, most significant first. *)
Definition byte_bits (b : Z) : list bool := map (Z.testbit b) [7; 6; 5; 4; 3; 2; 1; 0].
Definition quint_bits (v : Z) : list bool := map (Z.testbit v) [4; 3; 2; 1; 0].
Definition bits_val (bits : list bool) : Z :=
  fold_left (λ acc (b : bool), acc * 2 + if b then 1 else 0) bits 0.

(** Groups of five bits, the last one filled up with zeroes. *)
Fixpoint quints (bits : list bool) : list Z :=
  match bits with
  | a :: b :: c :: d :: e :: rest => bits_val [a; b; c; d; e] :: quints rest
  | [] => []
  | [a] => [bits_val [a; false; false; false; false]]
  | [a; b] => [bits_val [a; b; false; false; false]]
  | [a; b; c] => [bits_val [a; b; c; false; false]]
  | [a; b; c; d] => [bits_val [a; b; c; d; false]]
  end.

(** Groups of eight bits; a rest that does not fill a byte is dropped. *)
Fixpoint octets (bits : list bool) : list Z :=
  match bits with
  | a :: b :: c :: d :: e :: f :: g :: h :: rest =>
      bits_val [a; b; c; d; e; f; g; h] :: octets rest
  | _ => []
  end.

Definition encode_group (bs : list Z) : list ascii :=
  map b32_chr (quints (flat_map byte_bits bs)).

(** [EncodeToString]: five bytes become eight characters, a shorter last group
    is padded with [=]. *)
Fixpoint b32_encode (bs : list Z) : list ascii :=
  match bs with
  | a :: b :: c :: d :: e :: rest => encode_group [a; b; c; d; e] ++ b32_encode rest
  | [] => []
  | tail => let cs := encode_group tail in cs ++ replicate (8 - length cs) "="%char
  end.

(** Reading one quantum: [k] characters are still missing, [acc] are the values
    so far.  The result is the values, the unread input and whether padding
    ended the input. *)
Fixpoint read_quantum (k : nat) (acc : list Z) (src : list ascii)
  : option (list Z * list ascii * bool) :=
  match k with
  | O => Some (acc, src, false)
  | S k' =>
      match src with
      | [] => None
      | c :: src' =>
          let j := length acc in
          if Ascii.eqb c "="%char && (2 <=? j)%nat && (length src' <? 8)%nat then
            if (length src' + j <? 7)%nat then None
            else if negb (forallb (Ascii.eqb "="%char) (take (7 - j) src')) then None
            else if existsb (Nat.eqb j) [1; 3; 6]%nat then None
            else Some (acc, src', true)
          else
            match b32_val c with
            | None => None
            | Some v => read_quantum k' (acc ++ [v]) src'
            end
      end
  end.

Fixpoint decode_quanta (fuel : nat) (src : list ascii) : option (list Z) :=
  match fuel, src with
  | _, [] => Some []
  | O, _ => None
  | S fuel, _ =>
      match read_quantum 8 [] src with
      | None => None
      | Some (vs, src', stop) =>
          let bs := octets (flat_map quint_bits vs) in
          if stop then Some bs
          else match decode_quanta fuel src' with
               | None => None
               | Some rest => Some (bs ++ rest)
               end
      end
  end.

(** [DecodeString] drops line ends first.  Every quantum reads at least one
    character, so the length is enough fuel. *)
Definition b32_decode (s : list ascii) : option (list Z) :=
  let src := filter (λ c, c ≠ "010"%char ∧ c ≠ "013"%char) s in
  decode_quanta (length src) src.

(** ** Round trip *)

Lemma quint_bits_val a b c d e : quint_bits (bits_val [a; b; c; d; e]) = [a; b; c; d; e].
Proof. by destruct a, b, c, d, e. Qed.

Lemma octets_byte_bits b rest :
  is_byte b → octets (byte_bits b ++ rest) = b :: octets rest.
Proof.
  intros Hb. cbn [byte_bits map app octets]. f_equal. apply Z.eqb_eq. revert b Hb.
  apply (forallb_below (λ b, bits_val (byte_bits b) =? b)). reflexivity.
Qed.

Lemma octets_bytes bs rest :
  Forall is_byte bs → octets (flat_map byte_bits bs ++ rest) = bs ++ octets rest.
Proof.
  induction 1 as [|b bs Hb Hbs IH]; [done|].
  cbn [flat_map]. rewrite <- app_assoc, octets_byte_bits by done. by rewrite IH.
Qed.

Lemma bits_val_range a b c d e : 0 ≤ bits_val [a; b; c; d; e] < 32.
Proof. destruct a, b, c, d, e; vm_compute; split; congruence. Qed.

Lemma b32_val_chr v : 0 ≤ v < 32 → b32_val (b32_chr v) = Some v.
Proof.
  intros Hv. apply (bool_decide_unpack (b32_val (b32_chr v) = Some v)), Is_true_true.
  revert v Hv. apply forallb_below. reflexivity.
Qed.

Lemma b32_chr_in v : 0 ≤ v < 32 → b32_chr v ∈ alphabet.
Proof.
  intros Hv. unfold b32_chr.
  destruct (alphabet !! Z.to_nat v) eqn:E; [by eapply list_elem_of_lookup_2|].
  apply lookup_ge_None_1 in E. simpl in E. lia.
Qed.

Lemma alphabet_no c : c ∈ alphabet → b32_val c ≠ None.
Proof.
  intros H. enough (Forall (λ c, b32_val c ≠ None) alphabet) as HF.
  { rewrite Forall_forall in HF. by apply HF. }
  unfold alphabet. repeat constructor; discriminate.
Qed.

Lemma read_quantum_chars vs acc rest :
  Forall (λ v, 0 ≤ v < 32) vs →
  ∀ k, read_quantum (length vs + k) acc (map b32_chr vs ++ rest) =
       read_quantum k (acc ++ vs) rest.
Proof.
  intros Hvs. revert acc. induction Hvs as [|v vs Hv Hvs IH]; intros acc k.
  { by rewrite app_nil_r. }
  cbn [length Nat.add map app read_quantum].
  destruct (Ascii.eqb_spec (b32_chr v) "="%char) as [E|].
  { pose proof (b32_val_chr v Hv) as H. rewrite E in H. done. }
  cbn [andb]. rewrite b32_val_chr, IH, <- app_assoc by done. done.
Qed.

Lemma quints_range bits : Forall (λ v, 0 ≤ v < 32) (quints bits).
Proof.
  enough (∀ n bits, (length bits ≤ n)%nat → Forall (λ v, 0 ≤ v < 32) (quints bits)) as H
    by by apply (H (length bits)).
  clear bits. induction n as [|n IH]; intros bits Hn.
  { by destruct bits; [constructor|simpl in Hn; lia]. }
  destruct bits as [|a [|b [|c [|d [|e rest]]]]]; cbn [quints]; repeat constructor;
    try apply bits_val_range.
  apply IH. simpl in Hn. lia.
Qed.

(** Five bytes in one quantum. *)
Lemma decode_group fuel a b c d e rest :
  Forall is_byte [a; b; c; d; e] →
  decode_quanta (S fuel) (encode_group [a; b; c; d; e] ++ rest) =
  match decode_quanta fuel rest with
  | None => None
  | Some bs => Some ([a; b; c; d; e] ++ bs)
  end.
Proof.
  intros Hbs. unfold encode_group.
  set (vs := quints (flat_map byte_bits [a; b; c; d; e])).
  assert (length vs = 8%nat) as Hlen by done.
  assert (flat_map quint_bits vs = flat_map byte_bits [a; b; c; d; e]) as Hbits.
  { unfold vs. cbn [flat_map byte_bits map app quints].
    by rewrite !quint_bits_val. }
  assert (read_quantum 8 [] (map b32_chr vs ++ rest) = Some (vs, rest, false)) as Hread.
  { rewrite <- (Nat.add_0_r 8), <- Hlen, read_quantum_chars by apply quints_range. done. }
  cbn [decode_quanta]. destruct (map b32_chr vs ++ rest) eqn:E; [done|]. rewrite <- E in Hread.
  rewrite <- E, Hread, Hbits.
  rewrite <- (app_nil_r (flat_map byte_bits _)), octets_bytes by done. by rewrite app_nil_r.
Qed.

(** Two bytes in a padded quantum. *)
Lemma decode_tail2 fuel a b :
  Forall is_byte [a; b] →
  decode_quanta (S fuel) (encode_group [a; b] ++ s2l "====") = Some [a; b].
Proof.
  intros Hbs. unfold encode_group.
  set (vs := quints (flat_map byte_bits [a; b])).
  assert (length vs = 4%nat) as Hlen by done.
  assert (flat_map quint_bits vs =
          flat_map byte_bits [a; b] ++ [false; false; false; false]) as Hbits.
  { unfold vs. cbn [flat_map byte_bits map app quints]. by rewrite !quint_bits_val. }
  assert (read_quantum 8 [] (map b32_chr vs ++ s2l "====") = Some (vs, s2l "===", true)) as Hread.
  { change 8%nat with (4 + 4)%nat. rewrite <- Hlen at 1.
    rewrite read_quantum_chars by apply quints_range. done. }
  cbn [decode_quanta]. destruct (map b32_chr vs ++ s2l "====") eqn:E; [done|].
  rewrite <- E in Hread. rewrite <- E, Hread, Hbits, octets_bytes by done. done.
Qed.

(** The characters of an encoding are letters of the alphabet and padding. *)
Lemma encode_group_alphabet bs : Forall (λ c, c ∈ alphabet) (encode_group bs).
Proof.
  unfold encode_group. apply Forall_map. eapply Forall_impl; [apply quints_range|].
  simpl. apply b32_chr_in.
Qed.
