(* ===== verification/DeviceID.v ===== *)
(** * Device identifiers ([src/lib/protocol/deviceid.go], [luhn.go])

    A [DeviceID] is an array of 32 bytes.  Its text is the base-32 form with a
    check digit after every 13 characters, in groups of seven.  The file
    translates the printer and the parser and proves that they are inverse, that
    the parser does not depend on case, and that the check digits catch every
    substitution of one character. *)
From S2P Require Import Prelude GoLib Base32 Vector.
From Stdlib Require Import Ascii.

Local Open Scope Z_scope.

(** ** Data *)

Definition DeviceIDLength : nat := 32.
Definition ShortIDStringLength : nat := 7.

Definition repeatedDeviceID (v : Z) : list Z := replicate DeviceIDLength v.
Definition LocalDeviceID : list Z := repeatedDeviceID 255.
Definition GlobalDeviceID : list Z := repeatedDeviceID 248.
Definition EmptyDeviceID : list Z := replicate DeviceIDLength 0.

Definition device_ok (n : list Z) : Prop := length n = DeviceIDLength ∧ Forall is_byte n.

(** ** Check digits *)

Definition luhnBase32 : list ascii := s2l "ABCDEFGHIJKLMNOPQRSTUVWXYZ234567".

Definition codepoint32 (b : ascii) : Z :=
  let b := byte_val b in
  if (65 <=? b) && (b <=? 90) then b - 65
  else if (50 <=? b) && (b <=? 55) then b + 26 - 50
  else -1.

(** The loop of [luhn32].  Go ranges over the starts of the UTF-8 sequences; the
    first byte that is not ASCII is such a start and ends the loop. *)
Fixpoint luhn_loop (s : list ascii) (factor sum : Z) : go Z :=
  match s with
  | [] => Ok sum
  | c :: s =>
      let codepoint := codepoint32 c in
      if codepoint =? -1 then Err "digit not valid in alphabet"
      else
        let addend := factor * codepoint in
        let factor' := if factor =? 2 then 1 else 2 in
        let addend := go_div addend 32 + go_mod addend 32 in
        luhn_loop s factor' (sum + addend)
  end.

Definition luhn32 (s : list ascii) : go ascii :=
  let! sum := luhn_loop s 1 0 in
  let remainder := go_mod sum 32 in
  let checkCodepoint := go_mod (32 - remainder) 32 in
  Ok (default "A"%char (luhnBase32 !! Z.to_nat checkCodepoint)).

(** [s[i:j]] *)
Definition slice {A} (s : list A) (i j : nat) : list A := take (j - i) (drop i s).

(** The loop bodies of [luhnify] and [unluhnify] fill adjacent parts of the
    result, which is the concatenation of what they write. *)
Fixpoint luhnify_loop (idx : list nat) (s : list ascii) : go (list ascii) :=
  match idx with
  | [] => Ok []
  | i :: idx =>
      let p := slice s (i * 13) ((i + 1) * 13) in
      let! l := luhn32 p in
      let! rest := luhnify_loop idx s in
      Ok (p ++ l :: rest)
  end.

Definition luhnify (s : list ascii) : go (list ascii) :=
  if negb (length s =? 52)%nat then Panic "unsupported string length"
  else luhnify_loop [0; 1; 2; 3]%nat s.

Fixpoint unluhnify_loop (idx : list nat) (s : list ascii) : go (list ascii) :=
  match idx with
  | [] => Ok []
  | i :: idx =>
      let p := slice s (i * (13 + 1)) ((i + 1) * (13 + 1) - 1) in
      let! l := luhn32 p in
      if bool_decide (s !! ((i + 1) * 14 - 1)%nat = Some l) then
        let! rest := unluhnify_loop idx s in
        Ok (p ++ rest)
      else Err "check digit incorrect"
  end.

Definition unluhnify (s : list ascii) : go (list ascii) :=
  if negb (length s =? 56)%nat then Err "unsupported string length"
  else unluhnify_loop [0; 1; 2; 3]%nat s.

(** [make([]byte, chunks*(7+1)-1)] panics when there is no chunk. *)
Definition chunkify (s : list ascii) : go (list ascii) :=
  let chunks := (length s / 7)%nat in
  if (chunks =? 0)%nat then Panic "makeslice: len out of range"
  else Ok (join_byte "-"%char (map (λ i, slice s (i * 7) ((i + 1) * 7)) (seq 0 chunks))).

Definition unchunkify (s : list ascii) : list ascii :=
  replace_byte " "%char [] (replace_byte "-"%char [] s).

Definition untypeoify (s : list ascii) : list ascii :=
  replace_byte "8"%char ["B"%char]
    (replace_byte "1"%char ["I"%char] (replace_byte "0"%char ["O"%char] s)).

(** ** Printing *)

Definition DeviceID_String (n : list Z) : go (list ascii) :=
  if bool_decide (n = EmptyDeviceID) then Ok []
  else
    let id := trim_both "="%char (b32_encode n) in
    match luhnify id with
    | Ok id => chunkify id
    | Err e => Panic e
    | Panic p => Panic p
    end.

(** [binary.BigEndian.Uint64] reads the first eight bytes. *)
Definition Short (n : list Z) : Z := be_decode (take 8 n).

Definition ShortID_String (s : Z) : list ascii :=
  if s =? 0 then [] else take ShortIDStringLength (b32_encode (be_encode 8 s)).

(** [Vector.HumanString] prints the devices of a vector in their short form. *)
Definition Vector_HumanString (v : Vector) : list ascii :=
  join_byte ","%char
    (map (λ c, ShortID_String (ID c) ++ ":"%char :: dec_encode (Value c)) (Counters v)).

(** [bytes.Compare] *)
Fixpoint bytes_compare (a b : list Z) : Z :=
  match a, b with
  | [], [] => 0
  | [], _ :: _ => -1
  | _ :: _, [] => 1
  | x :: a, y :: b => if x <? y then -1 else if y <? x then 1 else bytes_compare a b
  end.
Definition DeviceID_Compare (n other : list Z) : Z := bytes_compare n other.
Definition DeviceID_Equals (n other : list Z) : bool := bool_decide (n = other).

(** ** Sorting by a key of bytes *)
Lemma bytes_compare_refl a : bytes_compare a a = 0.
Proof. induction a as [|x a IH]; cbn; [done|]. by rewrite Z.ltb_irrefl. Qed.

Lemma bytes_compare_eq a b : bytes_compare a b = 0 → a = b.
Proof.
  revert b. induction a as [|x a IH]; intros [|y b]; cbn; [done..|].
  destruct (Z.ltb_spec x y), (Z.ltb_spec y x); try done. intros ->%IH. f_equal. lia.
Qed.

Lemma bytes_compare_sym a b : bytes_compare b a = - bytes_compare a b.
Proof.
  revert b. induction a as [|x a IH]; intros [|y b]; cbn; [done..|].
  destruct (Z.ltb_spec x y), (Z.ltb_spec y x); try lia. apply IH.
Qed.

Lemma bytes_compare_trans a b c :
  bytes_compare a b < 0 → bytes_compare b c < 0 → bytes_compare a c < 0.
Proof.
  revert b c. induction a as [|x a IH]; intros [|y b] [|z c]; cbn; try lia.
  destruct (Z.ltb_spec x y), (Z.ltb_spec y x), (Z.ltb_spec y z), (Z.ltb_spec z y),
    (Z.ltb_spec x z), (Z.ltb_spec z x); try lia. apply IH.
Qed.

Section by_key.
Context {A : Type} (key : A → list Z).

Definition by_key (a b : A) : bool := bytes_compare (key a) (key b) <? 0.
Definition key_sorted : list A → Prop := StronglySorted (λ a b, bytes_compare (key a) (key b) < 0).

Lemma sort_by_key_id l : key_sorted l → sort_by by_key l = l.
Proof.
  intros Hl. apply sort_by_id. eapply StronglySorted_impl; [|exact Hl].
  intros a b Hab. cbn in Hab. unfold by_key. apply Z.ltb_ge. rewrite bytes_compare_sym. lia.
Qed.

Lemma sort_by_key_sorted l : NoDup (key <$> l) → key_sorted (sort_by by_key l).
Proof.
  intros Hnd.
  assert (Hs : StronglySorted (λ x y, by_key y x = false) (sort_by by_key l)).
  { apply sort_by_sorted; unfold by_key.
    - intros x y Hxy. zb. apply Z.ltb_ge. rewrite bytes_compare_sym. lia.
    - intros x y z Hxy Hyz. zb. rewrite bytes_compare_sym in Hxy, Hyz. apply Z.ltb_ge. rewrite bytes_compare_sym.
      destruct (Z.eq_dec (bytes_compare (key x) (key y)) 0) as [->%bytes_compare_eq|]; [lia|].
      destruct (Z.eq_dec (bytes_compare (key y) (key z)) 0) as [<-%bytes_compare_eq|]; [lia|].
      enough (bytes_compare (key x) (key z) < 0) by lia.
      eapply bytes_compare_trans with (key y); lia. }
  revert Hnd Hs. rewrite <-(sort_by_perm by_key l) at 1. generalize (sort_by by_key l) as k.
  induction k as [|x k IH]; intros Hnd Hs; [constructor|].
  rewrite fmap_cons in Hnd. apply NoDup_cons in Hnd as [Hx Hnd]. apply StronglySorted_inv in Hs as [Hs Hxk].
  constructor; [by apply IH|]. rewrite Forall_forall in Hxk |- *. intros y Hy.
  pose proof (Hxk y Hy) as Hle. unfold by_key in Hle. zb. rewrite bytes_compare_sym in Hle.
  destruct (Z.eq_dec (bytes_compare (key x) (key y)) 0) as [E%bytes_compare_eq|]; [|lia].
  destruct Hx. rewrite E. by apply list_elem_of_fmap_2.
Qed.

Lemma key_sorted_NoDup l : key_sorted l → NoDup (key <$> l).
Proof.
  induction 1 as [|x l Hl IH Hx]; [constructor|]. rewrite fmap_cons. constructor; [|done].
  intros (y & E & Hy)%list_elem_of_fmap. rewrite Forall_forall in Hx. specialize (Hx y Hy).
  rewrite E, bytes_compare_refl in Hx. lia.
Qed.

Lemma key_sorted_fmap f l : (∀ x, key (f x) = key x) → key_sorted l → key_sorted (f <$> l).
Proof.
  intros Hf. induction 1 as [|x l Hl IH Hx]; [constructor|]. rewrite fmap_cons. constructor; [done|].
  apply Forall_fmap. eapply Forall_impl; [exact Hx|]. intros y. cbn. by rewrite !Hf.
Qed.
End by_key.

(** [copy(n[:], bs)] into an array. *)
Definition copy_into (n bs : list Z) : list Z := take (length n) bs ++ drop (length bs) n.

Definition DeviceIDFromBytes (bs : list Z) : go (list Z) :=
  if negb (length bs =? DeviceIDLength)%nat
  then Err "incorrect length of byte slice representing device ID"
  else Ok (copy_into EmptyDeviceID bs).

Definition DeviceID_MarshalTo (n bs : list Z) : go (list Z * nat) :=
  if (length bs <? DeviceIDLength)%nat then Err "destination too short"
  else Ok (copy_into bs n, DeviceIDLength).

Definition DeviceID_Unmarshal (n bs : list Z) : go (list Z) :=
  if (length bs <? DeviceIDLength)%nat then Err "not enough data"
  else Ok (copy_into n bs).

(** ** Parsing *)

Section parsing.
(** [strings.ToUpper] on strings that are not pure ASCII. *)
Variable toUpperWide : list ascii → list ascii.

Definition ascii_upper (c : ascii) : ascii :=
  let v := byte_val c in if (97 <=? v) && (v <=? 122) then byte_chr (v - 32) else c.
Definition is_ascii (c : ascii) : bool := byte_val c <? 128.
Definition ToUpper (s : list ascii) : list ascii :=
  if forallb is_ascii s then map ascii_upper s else toUpperWide s.

(** Decoding the 52 characters left after removing the check digits. *)
Definition UnmarshalText_52 (n : list Z) (id : list ascii) : go (list Z) :=
  match b32_decode (id ++ s2l "====") with
  | None => Err "illegal base32 data"
  | Some dec => Ok (copy_into n dec)
  end.

(** The receiver's bytes before the call are [n]. *)
Definition DeviceID_UnmarshalText (n : list Z) (bs : list ascii) : go (list Z) :=
  let id := trim_both "="%char bs in
  let id := ToUpper id in
  let id := untypeoify id in
  let id := unchunkify id in
  match length id with
  | 0%nat => Ok EmptyDeviceID
  | 56%nat =>
      let! id := unluhnify id in
      UnmarshalText_52 n id
  | 52%nat => UnmarshalText_52 n id
  | _ => Err "device ID invalid: incorrect length"
  end.

Definition DeviceIDFromString (s : list ascii) : go (list Z) :=
  DeviceID_UnmarshalText EmptyDeviceID s.
End parsing.

Section hashing.
(** [sha256.Sum256] *)
Variable sha256 : list Z → list Z.
Definition NewDeviceID (rawCert : list Z) : list Z := sha256 rawCert.
End hashing.

(** ** Check digits: what they catch *)

Definition luhn_valid (c : ascii) : Prop := c ∈ luhnBase32.

Lemma codepoint32_range c : luhn_valid c → 0 ≤ codepoint32 c < 32.
Proof.
  intros H. enough (Forall (λ c, 0 ≤ codepoint32 c < 32) luhnBase32) as HF.
  { rewrite Forall_forall in HF. by apply HF. }
  unfold luhnBase32. repeat constructor; by vm_compute.
Qed.

(** What one character adds to the sum. *)
Definition luhn_addend (factor : Z) (c : ascii) : Z :=
  go_div (factor * codepoint32 c) 32 + go_mod (factor * codepoint32 c) 32.
Definition luhn_flip (factor : Z) : Z := if factor =? 2 then 1 else 2.
Fixpoint luhn_total (s : list ascii) (factor : Z) : Z :=
  match s with
  | [] => 0
  | c :: s => luhn_addend factor c + luhn_total s (luhn_flip factor)
  end.

Lemma luhn_loop_valid s factor sum :
  Forall luhn_valid s → luhn_loop s factor sum = Ok (sum + luhn_total s factor).
Proof.
  intros Hs. revert factor sum. induction Hs as [|c s Hc Hs IH]; intros factor sum; simpl.
  { f_equal. lia. }
  pose proof (codepoint32_range c Hc). destruct (Z.eqb_spec (codepoint32 c) (-1)); [lia|].
  rewrite IH. f_equal. unfold luhn_addend, luhn_flip. lia.
Qed.

Lemma codepoint32_inj c d : luhn_valid c → codepoint32 c = codepoint32 d → luhn_valid d → c = d.
Proof.
  intros Hc E Hd. assert (∀ c, luhn_valid c → b32_chr (codepoint32 c) = c) as Hinv.
  { intros x Hx. enough (Forall (λ x, b32_chr (codepoint32 x) = x) luhnBase32) as HF.
    { rewrite Forall_forall in HF. by apply HF. }
    unfold luhnBase32. repeat constructor. }
  rewrite <- (Hinv c), <- (Hinv d) by done. by rewrite E.
Qed.

Lemma luhn_addend_inj factor c d :
  factor = 1 ∨ factor = 2 → luhn_valid c → luhn_valid d → c ≠ d →
  let x := luhn_addend factor c - luhn_addend factor d in x ≠ 0 ∧ -32 < x < 32.
Proof.
  intros Hf Hc Hd Hne x.
  assert (codepoint32 c ≠ codepoint32 d) as Hcp by eauto using codepoint32_inj.
  pose proof (codepoint32_range c Hc). pose proof (codepoint32_range d Hd).
  unfold x, luhn_addend. rewrite !Z.quot_div_nonneg, !Z.rem_mod_nonneg by lia.
  destruct Hf as [-> | ->]; zlia.
Qed.

(** Replacing one character changes the sum modulo 32. *)
Lemma luhn_total_subst s i d factor c :
  factor = 1 ∨ factor = 2 → Forall luhn_valid s → luhn_valid d →
  s !! i = Some c → c ≠ d →
  let x := luhn_total s factor - luhn_total (<[i := d]> s) factor in x ≠ 0 ∧ -32 < x < 32.
Proof.
  intros Hf Hs Hd. revert i factor Hf.
  induction Hs as [|e s He Hs IH]; intros i factor Hf Hi Hne; [done|].
  destruct i as [|i]; simpl in *.
  - injection Hi as ->. pose proof (luhn_addend_inj factor c d Hf He Hd Hne) as H.
    simpl in H. split; lia.
  - specialize (IH i (luhn_flip factor)). destruct IH as [H1 H2]; [|done|done|].
    + unfold luhn_flip. destruct (factor =? 2); auto.
    + split; lia.
Qed.

Lemma luhn_total_nonneg s factor :
  factor = 1 ∨ factor = 2 → Forall luhn_valid s → 0 ≤ luhn_total s factor.
Proof.
  intros Hf Hs. revert factor Hf. induction Hs as [|c s Hc Hs IH]; intros factor Hf; simpl; [lia|].
  pose proof (codepoint32_range c Hc).
  assert (0 ≤ luhn_total s (luhn_flip factor)).
  { apply IH. unfold luhn_flip. destruct (factor =? 2); auto. }
  unfold luhn_addend. rewrite Z.quot_div_nonneg, Z.rem_mod_nonneg by lia. zlia.
Qed.

Definition check_digit (s : list ascii) : ascii := b32_chr ((32 - luhn_total s 1 mod 32) mod 32).

Lemma luhn32_valid s : Forall luhn_valid s → luhn32 s = Ok (check_digit s).
Proof.
  intros Hs. unfold luhn32. rewrite luhn_loop_valid by done. cbn [mbind go_bind].
  pose proof (luhn_total_nonneg s 1 (or_introl eq_refl) Hs). rewrite Z.add_0_l.
  rewrite (Z.rem_mod_nonneg (luhn_total s 1)) by lia.
  rewrite Z.rem_mod_nonneg by zlia. done.
Qed.

Lemma check_digit_valid s : luhn_valid (check_digit s).
Proof. apply b32_chr_in. zlia. Qed.

Lemma check_digit_subst s i c d :
  Forall luhn_valid s → luhn_valid d → s !! i = Some c → c ≠ d →
  check_digit (<[i := d]> s) ≠ check_digit s.
Proof.
  intros Hs Hd Hi Hne E.
  destruct (luhn_total_subst s i d 1 c) as [H1 H2]; [by left|done..|].
  apply (f_equal b32_val) in E. unfold check_digit in E.
  rewrite !b32_val_chr in E by zlia. injection E as E. zlia.
Qed.

(** ** Error detection *)

Lemma codepoint32_valid c : codepoint32 c ≠ -1 → luhn_valid c.
Proof.
  rewrite <- (byte_chr_val c). pose proof (byte_val_range c) as Hr. revert Hr.
  generalize (byte_val c). intros v Hv Hc.
  enough ((codepoint32 (byte_chr v) =? -1) || bool_decide (byte_chr v ∈ luhnBase32) = true) as H.
  { apply orb_true_iff in H as [H|H]; zb; done. }
  clear Hc. revert v Hv.
  apply (forallb_below (λ v, (codepoint32 (byte_chr v) =? -1) ||
                             bool_decide (byte_chr v ∈ luhnBase32))).
  vm_compute. reflexivity.
Qed.

Lemma luhn_loop_Ok_valid s factor sum x : luhn_loop s factor sum = Ok x → Forall luhn_valid s.
Proof.
  revert factor sum. induction s as [|c s IH]; intros factor sum; simpl; [constructor|].
  destruct (Z.eqb_spec (codepoint32 c) (-1)); [done|]. intros H. constructor; [|eauto].
  by apply codepoint32_valid.
Qed.

Lemma luhn32_Ok s l : luhn32 s = Ok l → Forall luhn_valid s ∧ l = check_digit s.
Proof.
  intros H. assert (Forall luhn_valid s) as Hv.
  { unfold luhn32 in H. destruct (luhn_loop s 1 0) eqn:E; [|done|done].
    by eapply luhn_loop_Ok_valid. }
  rewrite luhn32_valid in H by done. by injection H as <-.
Qed.

Lemma unluhnify_loop_Ok idx s r :
  unluhnify_loop idx s = Ok r →
  ∀ k, k ∈ idx →
  Forall luhn_valid (slice s (k * 14) ((k + 1) * 14 - 1)) ∧
  s !! ((k + 1) * 14 - 1)%nat = Some (check_digit (slice s (k * 14) ((k + 1) * 14 - 1))).
Proof.
  revert r. induction idx as [|i idx IH]; intros r; simpl; [set_solver|].
  destruct (luhn32 _) as [l| |] eqn:El; [|done|done]. cbn [mbind go_bind].
  case_bool_decide as Hl; [|done].
  destruct (unluhnify_loop idx s) as [r'| |] eqn:Er; [|done|done].
  intros _ k [->|Hk]%elem_of_cons; [|by eapply IH].
  apply luhn32_Ok in El as [Hv ->]. done.
Qed.

Lemma unluhnify_Ok t s :
  unluhnify t = Ok s → length t = 56%nat ∧
  ∀ k, (k < 4)%nat →
  Forall luhn_valid (slice t (k * 14) ((k + 1) * 14 - 1)) ∧
  t !! ((k + 1) * 14 - 1)%nat = Some (check_digit (slice t (k * 14) ((k + 1) * 14 - 1))).
Proof.
  unfold unluhnify. destruct (Nat.eqb_spec (length t) 56) as [Hl|]; simpl negb; [|done].
  intros H. split; [done|]. intros k Hk. eapply unluhnify_loop_Ok; [exact H|].
  destruct k as [|[|[|[|k]]]]; [set_solver..|lia].
Qed.

Lemma slice_insert_out {A} (t : list A) i j n x :
  (n < i ∨ j ≤ n)%nat → slice (<[n := x]> t) i j = slice t i j.
Proof.
  intros Hn. unfold slice. destruct (decide (n < i)%nat).
  - by rewrite drop_insert_lt by lia.
  - rewrite drop_insert_ge by lia. apply take_insert_ge. lia.
Qed.

Lemma slice_insert_in {A} (t : list A) i j n x :
  (i ≤ n < j)%nat → slice (<[n := x]> t) i j = <[(n - i)%nat := x]> (slice t i j).
Proof.
  intros Hn. unfold slice. rewrite drop_insert_ge by lia.
  rewrite take_insert_lt by lia. done.
Qed.

Lemma lookup_slice {A} (t : list A) i j k :
  (k < j - i)%nat → slice t i j !! k = t !! (i + k)%nat.
Proof. intros. unfold slice. by rewrite lookup_take_lt, lookup_drop by lia. Qed.

(** Check digits catch every substitution of one character: a text of 56
    characters that [unluhnify] accepts is refused once any one of its
    characters, check digits included, is replaced by another character. *)
Theorem unluhnify_detects_substitution t s i c d :
  unluhnify t = Ok s → t !! i = Some c → c ≠ d →
  is_ok (unluhnify (<[i := d]> t)) = false.
Proof.
  intros Ht Hi Hne. destruct (unluhnify (<[i := d]> t)) as [s'| |] eqn:Ht'; [|done..]. exfalso.
  apply unluhnify_Ok in Ht as [Hlen Ht]. apply unluhnify_Ok in Ht' as [_ Ht'].
  pose proof (lookup_lt_Some _ _ _ Hi) as Hlt.
  pose proof (Nat.div_mod_eq i 14) as Hdm. pose proof (Nat.mod_upper_bound i 14).
  set (k := (i / 14)%nat) in *. assert (k < 4)%nat as Hk by lia.
  destruct (Ht k Hk) as [Hv Hc], (Ht' k Hk) as [Hv' Hc'].
  destruct (decide (i = (k + 1) * 14 - 1)%nat) as [E|Hni].
  - rewrite <- E, list_lookup_insert_eq in Hc' by lia.
    rewrite <- E, Hi in Hc. rewrite slice_insert_out in Hc' by lia. congruence.
  - rewrite list_lookup_insert_ne, slice_insert_in in Hc' by lia.
    rewrite slice_insert_in in Hv' by lia.
    assert (slice t (k * 14) ((k + 1) * 14 - 1) !! (i - k * 14)%nat = Some c) as Hs.
    { rewrite lookup_slice, <- Hi by lia. f_equal. lia. }
    assert (luhn_valid d) as Hd.
    { rewrite Forall_lookup in Hv'. apply (Hv' (i - k * 14)%nat).
      rewrite list_lookup_insert_eq; [done|]. by eapply lookup_lt_Some. }
    eapply check_digit_subst; [exact Hv|exact Hd|exact Hs|exact Hne|congruence].
Qed.

(** ** Printing and parsing *)

Ltac destruct_list l n :=
  match n with
  | O => destruct l; [|discriminate]
  | S ?m => let x := fresh "x" in destruct l as [|x l]; [discriminate|]; destruct_list l m
  end.

Ltac solve_valid :=
  repeat first [ apply Forall_nil_2
               | apply Forall_cons_2; [first [assumption|apply check_digit_valid]|] ].

Lemma luhnify_valid s :
  length s = 52%nat → Forall luhn_valid s →
  ∃ t, luhnify s = Ok t ∧ length t = 56%nat ∧ Forall luhn_valid t ∧ unluhnify t = Ok s.
Proof.
  intros Hl Hs. destruct_list s 52%nat.
  unfold luhnify. cbn [length Nat.eqb negb luhnify_loop slice take drop Nat.mul Nat.add Nat.sub].
  repeat (apply Forall_cons in Hs as [? Hs]).
  rewrite !luhn32_valid by solve_valid.
  cbn [mbind go_bind app]. eexists. split; [reflexivity|]. split; [reflexivity|]. split.
  - solve_valid.
  - unfold unluhnify. cbn [length Nat.eqb negb unluhnify_loop slice take drop Nat.mul Nat.add Nat.sub].
    rewrite !luhn32_valid by solve_valid.
    cbn [mbind go_bind lookup list_lookup]. by rewrite !bool_decide_eq_true_2 by reflexivity.
Qed.

(** The tests and rewrites of the parser leave the characters of an identifier alone. *)
Definition plain_char (c : ascii) : bool :=
  forallb (λ d, negb (Ascii.eqb c d)) (s2l "= 018" ++ ["010"; "013"]%char) &&
  is_ascii c && Ascii.eqb (ascii_upper c) c.

Lemma luhn_valid_plain c : luhn_valid c → plain_char c && negb (Ascii.eqb c "-"%char) = true.
Proof.
  intros Hc. enough (Forall (λ c, plain_char c && negb (Ascii.eqb c "-"%char) = true) luhnBase32)
    as HF by (rewrite Forall_forall in HF; by apply HF).
  unfold luhnBase32. repeat constructor.
Qed.

Lemma plain_not c d :
  plain_char c = true → d ∈ s2l "= 018" ++ ["010"; "013"]%char → c ≠ d.
Proof.
  unfold plain_char. intros H Hd. zb. intros ->.
  rewrite forallb_forall in H. apply list_elem_of_In in Hd. specialize (H _ Hd).
  by rewrite Ascii.eqb_refl in H.
Qed.

Lemma plain_absent s d :
  Forall (λ c, plain_char c = true) s → d ∈ s2l "= 018" ++ ["010"; "013"]%char → d ∉ s.
Proof.
  intros Hs Hd Hin. rewrite Forall_forall in Hs. by apply (plain_not d d); auto.
Qed.

Lemma plain_upper s toUpperWide :
  Forall (λ c, plain_char c = true) s → ToUpper toUpperWide s = s.
Proof.
  intros Hs. unfold ToUpper. rewrite (proj2 (forallb_forall _ _)).
  - induction Hs as [|c s Hc Hs IH]; [done|]. simpl. rewrite IH.
    apply andb_true_iff in Hc as [_ Hc]. by apply Ascii.eqb_eq in Hc as ->.
  - intros c Hc%list_elem_of_In. rewrite Forall_forall in Hs. specialize (Hs _ Hc).
    unfold plain_char in Hs. by zb.
Qed.

Lemma b32_encode_device n :
  device_ok n →
  ∃ s, b32_encode n = s ++ s2l "====" ∧ length s = 52%nat ∧ Forall luhn_valid s ∧
       b32_decode (s ++ s2l "====") = Some n.
Proof.
  intros [Hl Hb]. destruct_list n 32%nat. repeat (apply Forall_cons in Hb as [? Hb]).
  eexists (encode_group _ ++ encode_group _ ++ encode_group _ ++ encode_group _ ++
           encode_group _ ++ encode_group _ ++ encode_group _).
  split; [|split; [|split]].
  - cbn [b32_encode]. rewrite <- !app_assoc. reflexivity.
  - reflexivity.
  - rewrite !Forall_app. repeat split; apply encode_group_alphabet.
  - unfold b32_decode. rewrite filter_id.
    + rewrite <- !app_assoc. set (src := _ ++ _). assert (length src = 56%nat) as -> by done.
      unfold src. rewrite !decode_group by solve_valid.
      rewrite decode_tail2 by solve_valid. reflexivity.
    + apply Forall_app. split; [|repeat constructor; done].
      eapply Forall_impl with luhn_valid.
      * rewrite !Forall_app. repeat split; apply encode_group_alphabet.
      * intros c [Hc _]%luhn_valid_plain%andb_true_iff.
        split; apply plain_not; set_solver.
Qed.

Lemma chunkify_56 t :
  length t = 56%nat → Forall luhn_valid t →
  ∃ parts, chunkify t = Ok (join_byte "-"%char parts) ∧ concat parts = t.
Proof.
  intros Hl Ht. unfold chunkify. rewrite Hl. cbn [Nat.div Nat.divmod fst Nat.eqb].
  eexists. split; [reflexivity|]. clear Ht. destruct_list t 56%nat. reflexivity.
Qed.

Lemma trim_padding s :
  Forall luhn_valid s → trim_both "="%char (s ++ s2l "====") = s.
Proof.
  intros Hs. assert ("="%char ∉ s) as Habs.
  { apply plain_absent; [|set_solver]. eapply Forall_impl; [exact Hs|].
    intros c [? _]%luhn_valid_plain%andb_true_iff. done. }
  destruct s as [|c s]; [done|]. unfold trim_both.
  assert (trim_left "="%char ((c :: s) ++ s2l "====") = (c :: s) ++ s2l "====") as ->.
  { cbn [app trim_left]. destruct (Ascii.eqb_spec c "="%char); [set_solver|done]. }
  revert Habs. generalize (c :: s). clear. intros s Habs. unfold trim_right.
  rewrite rev_app_distr. cbn [rev app trim_left Ascii.eqb Bool.eqb s2l].
  rewrite trim_left_absent; [apply rev_involutive|].
  by rewrite list_elem_of_In, <- in_rev, <- list_elem_of_In.
Qed.

Lemma parse_printed toUpperWide parts t :
  concat parts = t → length t = 56%nat → Forall luhn_valid t →
  DeviceIDFromString toUpperWide (join_byte "-"%char parts) =
  let! id := unluhnify t in UnmarshalText_52 EmptyDeviceID id.
Proof.
  intros Hp Hl Ht. unfold DeviceIDFromString, DeviceID_UnmarshalText.
  set (txt := join_byte _ _).
  assert (Forall (λ c, plain_char c = true) txt) as Hplain.
  { apply Forall_forall. intros c [->|(p & Hp' & Hc)]%elem_of_join_byte; [done|].
    rewrite Forall_forall in Ht. assert (c ∈ t) as Hct.
    { rewrite <- Hp. apply list_elem_of_In, in_concat. exists p.
      by rewrite <- !list_elem_of_In. }
    by apply Ht, luhn_valid_plain, andb_true_iff in Hct as [? _]. }
  rewrite trim_both_absent by (eapply plain_absent; [done|set_solver]).
  rewrite plain_upper by done. unfold untypeoify.
  rewrite !(replace_byte_absent _ _ txt) by (eapply plain_absent; [done|set_solver]).
  unfold unchunkify, txt. rewrite replace_byte_join.
  - rewrite Hp, (replace_byte_absent " "%char), Hl; [done|]. apply plain_absent; [|set_solver].
    eapply Forall_impl; [exact Ht|]. intros c [? _]%luhn_valid_plain%andb_true_iff. done.
  - apply Forall_forall. intros p Hp' Hc. rewrite Forall_forall in Ht.
    assert ("-"%char ∈ t) as Hct; [|by specialize (Ht _ Hct); apply luhn_valid_plain in Ht].
    rewrite <- Hp. apply list_elem_of_In, in_concat. exists p. by rewrite <- !list_elem_of_In.
Qed.

Lemma copy_into_full n bs : length bs = length n → copy_into n bs = bs.
Proof.
  intros H. unfold copy_into. rewrite <- H, firstn_all, drop_ge by lia. apply app_nil_r.
Qed.

(** Every device identifier is printed, and the parser reads the text back
    as that identifier, whatever it does to text outside ASCII. *)
Theorem DeviceID_roundtrip toUpperWide n :
  device_ok n →
  ∃ s, DeviceID_String n = Ok s ∧ DeviceIDFromString toUpperWide s = Ok n.
Proof.
  intros Hn. unfold DeviceID_String. case_bool_decide as He; [by exists []; rewrite He|].
  destruct (b32_encode_device n Hn) as (s & -> & Hls & Hs & Hd).
  rewrite trim_padding by done.
  destruct (luhnify_valid s Hls Hs) as (t & -> & Hlt & Ht & Hu).
  destruct (chunkify_56 t Hlt Ht) as (parts & -> & Hp).
  eexists. split; [reflexivity|]. rewrite (parse_printed _ _ t), Hu by done.
  cbn [mbind go_bind]. unfold UnmarshalText_52. rewrite Hd, copy_into_full; [done|].
  by destruct Hn.
Qed.

Definition sample_device : list Z := map Z.of_nat (seq 1 32).

Lemma DeviceID_roundtrip_witness :
  device_ok sample_device ∧
  ∃ s, DeviceID_String sample_device = Ok s ∧ DeviceIDFromString (λ s, s) s = Ok sample_device.
Proof.
  assert (device_ok sample_device) as Hn.
  { split; [reflexivity|]. unfold sample_device, is_byte. repeat constructor; vm_compute; congruence. }
  split; [exact Hn|]. exact (DeviceID_roundtrip (λ s, s) sample_device Hn).
Defined.

Lemma unluhnify_detects_substitution_witness :
  ∃ t s, unluhnify t = Ok s ∧ t !! 3%nat = Some "A"%char ∧ "A"%char ≠ "B"%char ∧
  is_ok (unluhnify (<[3%nat := "B"%char]> t)) = false.
Proof.
  exists (replicate 56 "A"%char), (replicate 52 "A"%char).
  assert (unluhnify (replicate 56 "A"%char) = Ok (replicate 52 "A"%char)) as H1
    by (vm_compute; reflexivity).
  assert (replicate 56 "A"%char !! 3%nat = Some "A"%char) as H2 by reflexivity.
  assert ("A"%char ≠ "B"%char) as H3 by discriminate.
  split; [exact H1|split; [exact H2|split; [exact H3|]]].
  exact (unluhnify_detects_substitution _ _ 3 "A" "B" H1 H2 H3).
Defined.

(** ** Lenient parsing *)

(** The character the parser reads for a typed one: the upper-case letter, with
    the digits that are not in the alphabet read as the letters they resemble. *)
Definition canon (c : ascii) : ascii :=
  match ascii_upper c with
  | "0" => "O" | "1" => "I" | "8" => "B" | d => d
  end%char.

Lemma untypeoify_map s : untypeoify (map ascii_upper s) = map canon s.
Proof.
  induction s as [|c s IH]; [done|]. cbn [map]. rewrite <- IH. unfold untypeoify, canon.
  generalize (ascii_upper c), (map ascii_upper s). clear. intros d l.
  unfold replace_byte. cbn [flat_map].
  rewrite !flat_map_app. by destruct d as [[] [] [] [] [] [] [] []].
Qed.

Lemma canon_eq c : Ascii.eqb (canon c) "="%char = Ascii.eqb c "="%char.
Proof. by destruct c as [[] [] [] [] [] [] [] []]. Qed.

Lemma trim_left_canon s : trim_left "="%char (map canon s) = map canon (trim_left "="%char s).
Proof.
  induction s as [|c s IH]; [done|]. cbn [map trim_left]. rewrite canon_eq.
  by destruct (Ascii.eqb c "="%char).
Qed.

Lemma trim_both_canon s : trim_both "="%char (map canon s) = map canon (trim_both "="%char s).
Proof.
  unfold trim_both, trim_right. by rewrite trim_left_canon, <- map_rev, trim_left_canon, map_rev.
Qed.

Lemma trim_left_incl c s d : d ∈ trim_left c s → d ∈ s.
Proof.
  induction s as [|e s IH]; [done|]. simpl. destruct (Ascii.eqb e c); [|done].
  intros H. apply elem_of_cons. auto.
Qed.

Lemma trim_both_ascii s :
  forallb is_ascii s = true → forallb is_ascii (trim_both "="%char s) = true.
Proof.
  rewrite !forallb_forall. intros H c Hc. apply H. apply list_elem_of_In in Hc.
  unfold trim_both, trim_right in Hc. rewrite list_elem_of_In, <- in_rev, <- list_elem_of_In in Hc.
  apply trim_left_incl in Hc. rewrite list_elem_of_In, <- in_rev, <- list_elem_of_In in Hc.
  by apply trim_left_incl, list_elem_of_In in Hc.
Qed.

(** Parsing ASCII text depends only on its canonical characters: the case
    of letters and the choice between [0] and [O], [1] and [I], [8] and [B] do
    not matter. *)
Theorem DeviceIDFromString_lenient toUpperWide s s' :
  forallb is_ascii s = true → forallb is_ascii s' = true → map canon s = map canon s' →
  DeviceIDFromString toUpperWide s = DeviceIDFromString toUpperWide s'.
Proof.
  intros Hs Hs' E. unfold DeviceIDFromString, DeviceID_UnmarshalText, ToUpper.
  rewrite !trim_both_ascii by done. rewrite !untypeoify_map, <- !trim_both_canon. by rewrite E.
Qed.

Lemma DeviceIDFromString_lenient_witness :
  let s := s2l "p561017-mzjnu4y" in let s' := s2l "P56IOI7-MZJNU4Y" in
  forallb is_ascii s = true ∧ forallb is_ascii s' = true ∧ map canon s = map canon s' ∧
  DeviceIDFromString (λ s, s) s = DeviceIDFromString (λ s, s) s'.
Proof.
  intros s s'. assert (forallb is_ascii s = true) as H1 by reflexivity.
  assert (forallb is_ascii s' = true) as H2 by reflexivity.
  assert (map canon s = map canon s') as H3 by reflexivity.
  split; [exact H1|split; [exact H2|split; [exact H3|]]].
  exact (DeviceIDFromString_lenient (λ s, s) s s' H1 H2 H3).
Defined.
