(* ===== verification/Platform.v ===== *)
(** * Platform data of a file ([src/lib/protocol/bep_fileinfo.go], second half)

    Ownership and extended attributes per operating system, their wire forms and
    the comparisons [isEquivalent] is built from.  A nil pointer is [None]; a nil
    and an empty slice are both the empty list, which no code here tells apart. *)
From S2P Require Import Prelude GoLib.
From Stdlib Require String.

Local Open Scope Z_scope.

(** ** Data *)

Record Xattr := MkXattr { xName : string; xValue : list Z }.
Record XattrData := MkXattrData { Xattrs : list Xattr }.
(** [UID] and [GID] are [int]. *)
Record UnixData := MkUnixData { OwnerName : string; GroupName : string; UID : Z; GID : Z }.
Record WindowsData := MkWindowsData { wOwnerName : string; wOwnerIsGroup : bool }.
Record PlatformData := MkPlatformData {
  Unix : option UnixData;
  Windows : option WindowsData;
  Linux : option XattrData;
  Darwin : option XattrData;
  FreeBSD : option XattrData;
  NetBSD : option XattrData;
}.
Definition no_platform : PlatformData := MkPlatformData None None None None None None.

(** The generated messages. *)
Record bepXattr := MkBepXattr { bxName : string; bxValue : list Z }.
Record bepXattrData := MkBepXattrData { bxXattrs : list bepXattr }.
Record bepUnixData := MkBepUnixData {
  buOwnerName : string; buGroupName : string; buUid : Z; buGid : Z }.
Record bepPlatformData := MkBepPlatformData {
  bpUnix : option bepUnixData;
  bpWindows : option WindowsData;
  bpLinux : option bepXattrData;
  bpDarwin : option bepXattrData;
  bpFreebsd : option bepXattrData;
  bpNetbsd : option bepXattrData;
}.

#[export] Instance Xattr_eq_dec : EqDecision Xattr.
Proof. solve_decision. Defined.
#[export] Instance XattrData_eq_dec : EqDecision XattrData.
Proof. solve_decision. Defined.
#[export] Instance UnixData_eq_dec : EqDecision UnixData.
Proof. solve_decision. Defined.
#[export] Instance WindowsData_eq_dec : EqDecision WindowsData.
Proof. solve_decision. Defined.
#[export] Instance PlatformData_eq_dec : EqDecision PlatformData.
Proof. solve_decision. Defined.

(** ** Wire forms *)

Definition xattr_toWire (a : Xattr) : bepXattr :=
  {| bxName := xName a; bxValue := xValue a |}.
Definition xattrFromWire (w : bepXattr) : Xattr :=
  {| xName := bxName w; xValue := bxValue w |}.

Definition xattrData_toWire (x : option XattrData) : option bepXattrData :=
  match x with
  | None => None
  | Some x => Some {| bxXattrs := map xattr_toWire (Xattrs x) |}
  end.
Definition xattrDataFromWire (w : option bepXattrData) : option XattrData :=
  match w with
  | None => None
  | Some w => Some {| Xattrs := map xattrFromWire (bxXattrs w) |}
  end.

Definition unix_toWire (u : option UnixData) : option bepUnixData :=
  match u with
  | None => None
  | Some u => Some {| buOwnerName := OwnerName u; buGroupName := GroupName u;
                      buUid := i32 (UID u); buGid := i32 (GID u) |}
  end.
Definition unixDataFromWire (w : option bepUnixData) : option UnixData :=
  match w with
  | None => None
  | Some w => Some {| OwnerName := buOwnerName w; GroupName := buGroupName w;
                      UID := buUid w; GID := buGid w |}
  end.

Definition platform_toWire (p : PlatformData) : bepPlatformData :=
  {| bpUnix := unix_toWire (Unix p);
     bpWindows := Windows p;
     bpLinux := xattrData_toWire (Linux p);
     bpDarwin := xattrData_toWire (Darwin p);
     bpFreebsd := xattrData_toWire (FreeBSD p);
     bpNetbsd := xattrData_toWire (NetBSD p) |}.
Definition platformDataFromWire (w : option bepPlatformData) : PlatformData :=
  match w with
  | None => no_platform
  | Some w =>
      {| Unix := unixDataFromWire (bpUnix w);
         Windows := bpWindows w;
         Linux := xattrDataFromWire (bpLinux w);
         Darwin := xattrDataFromWire (bpDarwin w);
         FreeBSD := xattrDataFromWire (bpFreebsd w);
         NetBSD := xattrDataFromWire (bpNetbsd w) |}
  end.

(** ** Comparisons *)

(** The loop of [xattrsEqual]; the slices have the same length. *)
Fixpoint xattrs_loop (a b : list Xattr) : bool :=
  match a, b with
  | x :: a, y :: b =>
      if negb (bool_decide (xName x = xName y)) then false
      else if negb (bool_decide (xValue x = xValue y)) then false
      else xattrs_loop a b
  | _, _ => true
  end.

Definition xattrs_empty (a : option XattrData) : bool :=
  match a with None => true | Some x => (length (Xattrs x) =? 0)%nat end.

Definition xattrs_of (a : option XattrData) : list Xattr :=
  match a with None => [] | Some x => Xattrs x end.

Definition xattrsEqual (a b : option XattrData) : bool :=
  let aEmpty := xattrs_empty a in
  let bEmpty := xattrs_empty b in
  if aEmpty && bEmpty then true
  else if aEmpty || bEmpty then false
  else if negb (length (xattrs_of a) =? length (xattrs_of b))%nat then false
  else xattrs_loop (xattrs_of a) (xattrs_of b).

Definition unixOwnershipEqual (a b : option UnixData) : bool :=
  match a, b with
  | None, None => true
  | Some a, Some b =>
      if (UID a =? UID b) && (GID a =? GID b) then true
      else if bool_decide (OwnerName a = OwnerName b) &&
              bool_decide (GroupName a = GroupName b) then true
      else false
  | _, _ => false
  end.

Definition windowsOwnershipEqual (a b : option WindowsData) : bool :=
  match a, b with
  | None, None => true
  | Some a, Some b =>
      bool_decide (wOwnerName a = wOwnerName b) && eqb (wOwnerIsGroup a) (wOwnerIsGroup b)
  | _, _ => false
  end.

(** ** Merging and the attributes of the running platform *)

Definition or_else {A} (x y : option A) : option A := match x with None => y | _ => x end.

Definition MergeWith (p other : PlatformData) : PlatformData :=
  {| Unix := or_else (Unix p) (Unix other);
     Windows := or_else (Windows p) (Windows other);
     Linux := or_else (Linux p) (Linux other);
     Darwin := or_else (Darwin p) (Darwin other);
     FreeBSD := or_else (FreeBSD p) (FreeBSD other);
     NetBSD := or_else (NetBSD p) (NetBSD other) |}.

Section build.
(** [runtime.GOOS] *)
Variable GOOS : string.

Definition IsLinux : bool := bool_decide (GOOS = "linux"%string).
Definition IsDarwin : bool := bool_decide (GOOS = "darwin"%string).
Definition IsFreeBSD : bool := bool_decide (GOOS = "freebsd"%string).
Definition IsNetBSD : bool := bool_decide (GOOS = "netbsd"%string).
Definition IsWindows : bool := bool_decide (GOOS = "windows"%string).

Definition isSome {A} (x : option A) : bool := match x with Some _ => true | None => false end.

Definition Platform_Xattrs (p : PlatformData) : list Xattr :=
  if IsLinux && isSome (Linux p) then xattrs_of (Linux p)
  else if IsDarwin && isSome (Darwin p) then xattrs_of (Darwin p)
  else if IsFreeBSD && isSome (FreeBSD p) then xattrs_of (FreeBSD p)
  else if IsNetBSD && isSome (NetBSD p) then xattrs_of (NetBSD p)
  else [].

(** [SetXattrs] writes through the pointer when there is one; the model is the
    value the pointer leads to afterwards. *)
Definition SetXattrs (p : PlatformData) (xattrs : list Xattr) : PlatformData :=
  let x := Some {| Xattrs := xattrs |} in
  if IsLinux then MkPlatformData (Unix p) (Windows p) x (Darwin p) (FreeBSD p) (NetBSD p)
  else if IsDarwin then MkPlatformData (Unix p) (Windows p) (Linux p) x (FreeBSD p) (NetBSD p)
  else if IsFreeBSD then MkPlatformData (Unix p) (Windows p) (Linux p) (Darwin p) x (NetBSD p)
  else if IsNetBSD then MkPlatformData (Unix p) (Windows p) (Linux p) (Darwin p) (FreeBSD p) x
  else p.
End build.

(** ** Lemmas *)

Lemma xattrs_loop_spec a b :
  length a = length b → xattrs_loop a b = bool_decide (a = b).
Proof.
  revert b. induction a as [|x a IH]; intros [|y b] Hl; try discriminate; simpl.
  { done. }
  injection Hl as Hl. rewrite IH by done. destruct x as [n v], y as [n' v']; simpl.
  repeat case_bool_decide; simpl; try done; naive_solver.
Qed.

(** Equal exactly when the attribute lists are, nil counting as none. *)
Lemma xattrsEqual_spec a b : xattrsEqual a b = bool_decide (xattrs_of a = xattrs_of b).
Proof.
  unfold xattrsEqual.
  assert (∀ x, xattrs_empty x = bool_decide (xattrs_of x = [])) as He.
  { intros [[[|? ?]]|]; simpl; done. }
  rewrite !He. destruct (Nat.eqb_spec (length (xattrs_of a)) (length (xattrs_of b))) as [Hl|Hl].
  - rewrite xattrs_loop_spec by done. repeat case_bool_decide; simpl; try done; congruence.
  - repeat case_bool_decide; simpl; try done; congruence.
Qed.

Lemma unixOwnershipEqual_sym a b : unixOwnershipEqual a b = unixOwnershipEqual b a.
Proof.
  destruct a as [a|], b as [b|]; simpl; try done.
  rewrite (Z.eqb_sym (UID a)), (Z.eqb_sym (GID a)).
  repeat case_bool_decide; try done; congruence.
Qed.

Lemma unixOwnershipEqual_refl a : unixOwnershipEqual a a = true.
Proof. destruct a as [a|]; simpl; [|done]. by rewrite !Z.eqb_refl. Qed.

Lemma windowsOwnershipEqual_spec a b : windowsOwnershipEqual a b = bool_decide (a = b).
Proof.
  destruct a as [[n g]|], b as [[n' g']|]; simpl; try done.
  destruct g, g'; repeat case_bool_decide; simpl; try done; naive_solver.
Qed.

Lemma xattrsEqual_refl a : xattrsEqual a a = true.
Proof. rewrite xattrsEqual_spec. by apply bool_decide_eq_true_2. Qed.
Lemma windowsOwnershipEqual_refl a : windowsOwnershipEqual a a = true.
Proof. rewrite windowsOwnershipEqual_spec. by apply bool_decide_eq_true_2. Qed.

Definition unix_ok (u : UnixData) : Prop := in_i32 (UID u) ∧ in_i32 (GID u).
Definition platform_ok (p : PlatformData) : Prop :=
  match Unix p with Some u => unix_ok u | None => True end.

Lemma xattrData_roundtrip x : xattrDataFromWire (xattrData_toWire x) = x.
Proof.
  destruct x as [[l]|]; [|done]. simpl. rewrite map_map. do 2 f_equal.
  induction l as [|[n v] l IH]; simpl; by f_equal.
Qed.

Lemma platform_roundtrip p :
  platform_ok p → platformDataFromWire (Some (platform_toWire p)) = p.
Proof.
  destruct p as [u w l d f n]. unfold platform_ok, platform_toWire. simpl. intros Hu.
  rewrite !xattrData_roundtrip. f_equal. destruct u as [[o g uid gid]|]; [|done].
  destruct Hu as [H1 H2]. simpl in *. by rewrite !i32_id.
Qed.

Lemma xattrs_of_SetXattrs GOOS p xattrs :
  IsLinux GOOS || IsDarwin GOOS || IsFreeBSD GOOS || IsNetBSD GOOS = true →
  Platform_Xattrs GOOS (SetXattrs GOOS p xattrs) = xattrs.
Proof.
  unfold Platform_Xattrs, SetXattrs.
  destruct (IsLinux GOOS), (IsDarwin GOOS), (IsFreeBSD GOOS), (IsNetBSD GOOS); simpl; done.
Qed.

(** ** Merging *)

(** [MergeWith] is the union of the data of both sides that prefers the
    receiver's: it is associative and idempotent, it keeps what the receiver has,
    the empty platform data is neutral, and merging what comes from one wire
    message with a local update of the running platform's attributes keeps the
    update. *)
Theorem MergeWith_monoid p q r GOOS xattrs :
  MergeWith p (MergeWith q r) = MergeWith (MergeWith p q) r ∧
  MergeWith p p = p ∧ MergeWith no_platform p = p ∧ MergeWith p no_platform = p ∧
  (IsLinux GOOS || IsDarwin GOOS || IsFreeBSD GOOS || IsNetBSD GOOS = true →
   Platform_Xattrs GOOS (MergeWith (SetXattrs GOOS p xattrs) q) = xattrs).
Proof.
  assert (∀ A (x y z : option A), or_else x (or_else y z) = or_else (or_else x y) z) as Ha.
  { by intros A [] [] []. }
  assert (∀ A (x : option A), or_else x x = x) as Hi by by intros A [].
  assert (∀ A (x : option A), or_else x None = x) as Hn by by intros A [].
  destruct p, q, r. unfold MergeWith, no_platform. simpl. rewrite !Ha, !Hi, !Hn.
  repeat split. unfold Platform_Xattrs, SetXattrs.
  destruct (IsLinux GOOS), (IsDarwin GOOS), (IsFreeBSD GOOS), (IsNetBSD GOOS); simpl; done.
Qed.

Lemma MergeWith_monoid_witness :
  let p := MkPlatformData (Some (MkUnixData "a" "b" 1 2)) None None None None None in
  Platform_Xattrs "linux" (MergeWith (SetXattrs "linux" p [MkXattr "u" [1]]) p) = [MkXattr "u" [1]].
Proof. intros p. by apply (MergeWith_monoid p p p "linux" [MkXattr "u" [1]]). Defined.
