(* ===== verification/FileInfo.v ===== *)
(** * File records ([src/lib/protocol/bep_fileinfo.go], first half)

    [FileInfo] is the record every component exchanges: its local flags, its wire
    and database forms, the conflict rules and the equivalence test of the
    scanner.  Integers keep the width of the Go fields; instants are nanoseconds. *)
From S2P Require Import Prelude GoLib Vector Platform.
From Stdlib Require Import Ascii.
From Stdlib Require String.

Local Open Scope Z_scope.

(** ** Local flags *)

Definition FlagLocalUnsupported : Z := Z.shiftl 1 0.
Definition FlagLocalIgnored : Z := Z.shiftl 1 1.
Definition FlagLocalMustRescan : Z := Z.shiftl 1 2.
Definition FlagLocalReceiveOnly : Z := Z.shiftl 1 3.
Definition FlagLocalGlobal : Z := Z.shiftl 1 4.
Definition FlagLocalNeeded : Z := Z.shiftl 1 5.
Definition FlagLocalRemoteInvalid : Z := Z.shiftl 1 6.

Definition or_flags (l : list Z) : Z := fold_left Z.lor l 0.
Definition LocalInvalidFlags : Z :=
  or_flags [FlagLocalUnsupported; FlagLocalIgnored; FlagLocalMustRescan;
            FlagLocalReceiveOnly; FlagLocalRemoteInvalid].
Definition LocalConflictFlags : Z :=
  or_flags [FlagLocalUnsupported; FlagLocalIgnored; FlagLocalReceiveOnly].
Definition LocalAllFlags : Z :=
  or_flags [FlagLocalUnsupported; FlagLocalIgnored; FlagLocalMustRescan;
            FlagLocalReceiveOnly; FlagLocalGlobal; FlagLocalNeeded; FlagLocalRemoteInvalid].

(** [f & m != 0] *)
Definition has_flag (f m : Z) : bool := negb (Z.land f m =? 0).

Definition FlagLocal_IsInvalid (f : Z) : bool := has_flag f LocalInvalidFlags.

Definition localFlagBitNames : list (Z * string) :=
  [(FlagLocalUnsupported, "u"); (FlagLocalIgnored, "i"); (FlagLocalMustRescan, "r");
   (FlagLocalReceiveOnly, "e"); (FlagLocalGlobal, "G"); (FlagLocalNeeded, "n");
   (FlagLocalRemoteInvalid, "v")]%string.

Fixpoint assoc_flag (l : list (Z * string)) (bit : Z) : option string :=
  match l with
  | [] => None
  | (b, n) :: l => if b =? bit then Some n else assoc_flag l bit
  end.

(** [%x] without leading zeroes; eight digits are enough for 32 bits. *)
Fixpoint hex_number (fuel : nat) (z : Z) : list ascii :=
  match fuel with
  | O => []
  | S fuel => (if z <? 16 then [] else hex_number fuel (z / 16)) ++ [hex_chr (z mod 16)]
  end.

(** The loop of [HumanString]: [res] in writing order, then the extra names;
    [None] when the fuel is used up. *)
Fixpoint human_loop (fuel : nat) (f bit : Z) (res extra : list ascii)
  : option (list ascii * list ascii) :=
  if f =? 0 then Some (res, extra)
  else
    match fuel with
    | O => None
    | S fuel =>
        let '(res, extra) :=
          if has_flag f bit then
            match assoc_flag localFlagBitNames bit with
            | Some name => (res ++ s2l name, extra)
            | None => (res, extra ++ s2l "+0x" ++ hex_number 8 bit)
            end
          else (res ++ ["-"%char], extra) in
        human_loop fuel (Z.ldiff f bit) (u32 (Z.shiftl bit 1)) res extra
    end.

(** Every pass clears one of the 32 bits. *)
Definition FlagLocal_HumanString (f : Z) : option (list ascii) :=
  if f =? 0 then Some (replicate (length localFlagBitNames) "-"%char)
  else
    match human_loop 32 f 1 [] [] with
    | None => None
    | Some (res, extra) =>
        let res := if (length res <? length localFlagBitNames)%nat
                   then res ++ replicate (length localFlagBitNames - length res) "-"%char
                   else res in
        Some (rev res ++ extra)
    end.

(** ** Block sizes ([src/lib/protocol/protocol.go]) *)

Definition KiB : Z := 10.
Definition MiB : Z := 20.
Definition MinBlockSize : Z := Z.shiftl 128 KiB.
Definition MaxBlockSize : Z := Z.shiftl 16 MiB.
Definition DesiredPerFileBlocks : Z := 2000.
Definition SyntheticDirectorySize : Z := 128.

(** The loop of [init]. *)
Fixpoint block_sizes (fuel : nat) (blockSize : Z) : list Z :=
  match fuel with
  | O => []
  | S fuel => if blockSize <=? MaxBlockSize then blockSize :: block_sizes fuel (blockSize * 2) else []
  end.
Definition BlockSizes : list Z := block_sizes 64 MinBlockSize.

(** The range loop of [BlockSize], [blockSize] being the last assigned value. *)
Fixpoint block_size_loop (sizes : list Z) (blockSize fileSize : Z) : Z :=
  match sizes with
  | [] => blockSize
  | s :: sizes =>
      if fileSize <? DesiredPerFileBlocks * s then s else block_size_loop sizes s fileSize
  end.
Definition BlockSize (fileSize : Z) : Z := block_size_loop BlockSizes 0 fileSize.

(** ** Blocks *)

(** [Offset] is [int64], [Size] is [int]. *)
Record BlockInfo := MkBlockInfo { bHash : list Z; bOffset : Z; bSize : Z }.
Record bepBlockInfo := MkBepBlockInfo { wbHash : list Z; wbOffset : Z; wbSize : Z }.

#[export] Instance BlockInfo_eq_dec : EqDecision BlockInfo.
Proof. solve_decision. Defined.

Definition block_toWire (b : BlockInfo) : bepBlockInfo :=
  {| wbHash := bHash b; wbOffset := bOffset b; wbSize := i32 (bSize b) |}.
Definition BlockInfoFromWire (w : bepBlockInfo) : BlockInfo :=
  {| bHash := wbHash w; bOffset := wbOffset w; bSize := wbSize w |}.

(** The loop of [blocksEqual]; the slices have the same length. *)
Fixpoint blocks_loop (a b : list BlockInfo) : bool :=
  match a, b with
  | x :: a, y :: b =>
      if negb (bool_decide (bHash x = bHash y)) then false else blocks_loop a b
  | _, _ => true
  end.
Definition blocksEqual (a b : list BlockInfo) : bool :=
  if negb (length b =? length a)%nat then false else blocks_loop a b.

(** For each block size, the hash of a block of all zeroes. *)
Definition sha256OfEmptyBlock : list (Z * list Z) :=
  [(Z.shiftl 128 KiB,
     [250; 67; 35; 155; 206; 231; 185; 124; 166; 47; 0; 124; 198; 132; 135; 86; 10; 57; 225;
      159; 116; 243; 221; 231; 72; 109; 179; 249; 141; 248; 228; 113]);
   (Z.shiftl 256 KiB,
     [138; 57; 210; 171; 211; 153; 154; 183; 60; 52; 219; 36; 118; 132; 156; 221; 243; 3;
      206; 56; 155; 53; 130; 104; 80; 249; 167; 0; 88; 155; 74; 144]);
   (Z.shiftl 512 KiB,
     [7; 133; 77; 47; 239; 41; 122; 6; 186; 129; 104; 94; 102; 12; 51; 45; 227; 109; 93; 24;
      213; 70; 146; 125; 48; 218; 173; 109; 127; 218; 21; 65]);
   (Z.shiftl 1 MiB,
     [48; 225; 73; 85; 235; 241; 53; 34; 102; 220; 47; 248; 6; 126; 104; 16; 70; 7; 231; 80;
      171; 185; 211; 179; 101; 130; 184; 175; 144; 159; 203; 88]);
   (Z.shiftl 2 MiB,
     [86; 71; 240; 94; 193; 137; 88; 148; 125; 50; 135; 78; 235; 120; 143; 163; 150; 160; 93;
      11; 171; 124; 27; 113; 241; 18; 206; 183; 233; 179; 30; 238]);
   (Z.shiftl 4 MiB,
     [187; 159; 141; 246; 20; 116; 210; 94; 113; 250; 0; 114; 35; 24; 205; 56; 115; 150; 202;
      23; 54; 96; 94; 18; 72; 130; 28; 192; 222; 61; 58; 248]);
   (Z.shiftl 8 MiB,
     [45; 174; 177; 243; 96; 149; 180; 75; 49; 132; 16; 179; 244; 232; 181; 217; 137; 220;
      199; 187; 2; 61; 20; 38; 196; 146; 218; 176; 163; 5; 62; 116]);
   (Z.shiftl 16 MiB,
     [8; 10; 207; 53; 165; 7; 172; 152; 73; 207; 203; 164; 125; 194; 173; 131; 224; 27; 117;
      102; 58; 81; 98; 121; 200; 185; 210; 67; 183; 25; 100; 62])].

Fixpoint empty_hash (l : list (Z * list Z)) (size : Z) : option (list Z) :=
  match l with
  | [] => None
  | (s, h) :: l => if s =? size then Some h else empty_hash l size
  end.

Definition Block_IsEmpty (b : BlockInfo) : bool :=
  match empty_hash sha256OfEmptyBlock (bSize b) with
  | Some v => bool_decide (bHash b = v)
  | None => false
  end.

(** ** The record *)

(** [FileInfoType] is an open [int32] enumeration. *)
Definition FileInfoTypeFile : Z := 0.
Definition FileInfoTypeDirectory : Z := 1.
Definition FileInfoTypeSymlinkFile : Z := 2.
Definition FileInfoTypeSymlinkDirectory : Z := 3.
Definition FileInfoTypeSymlink : Z := 4.

Record FileInfo := MkFileInfo {
  fName : string;
  fSize : Z;
  fModifiedS : Z;
  fModifiedBy : Z;
  fVersion : Vector;
  fSequence : Z;
  fBlocks : list BlockInfo;
  fSymlinkTarget : list Z;
  fBlocksHash : list Z;
  fPreviousBlocksHash : list Z;
  fEncrypted : list Z;
  fPlatform : PlatformData;
  fType : Z;
  fPermissions : Z;
  fModifiedNs : Z;
  fRawBlockSize : Z;
  fLocalFlags : Z;
  fEncryptionTrailerSize : Z;
  fDeleted : bool;
  fNoPermissions : bool;
  ftruncated : bool;
}.

#[export] Instance FileInfo_eq_dec : EqDecision FileInfo.
Proof. solve_decision. Defined.

(** The generated message [bep.FileInfo]; the version hash is not used. *)
Record bepFileInfo := MkBepFileInfo {
  wName : string;
  wSize : Z;
  wModifiedS : Z;
  wModifiedBy : Z;
  wVersion : option bepVector;
  wSequence : Z;
  wBlocks : list bepBlockInfo;
  wSymlinkTarget : list Z;
  wBlocksHash : list Z;
  wPreviousBlocksHash : list Z;
  wEncrypted : list Z;
  wType : Z;
  wPermissions : Z;
  wModifiedNs : Z;
  wBlockSize : Z;
  wPlatform : option bepPlatformData;
  wLocalFlags : Z;
  wEncryptionTrailerSize : Z;
  wDeleted : bool;
  wInvalid : bool;
  wNoPermissions : bool;
}.

(** ** Predicates *)

Definition IsDeleted (f : FileInfo) : bool := fDeleted f.
Definition IsInvalid (f : FileInfo) : bool := FlagLocal_IsInvalid (fLocalFlags f).
Definition IsUnsupported (f : FileInfo) : bool := has_flag (fLocalFlags f) FlagLocalUnsupported.
Definition IsIgnored (f : FileInfo) : bool := has_flag (fLocalFlags f) FlagLocalIgnored.
Definition MustRescan (f : FileInfo) : bool := has_flag (fLocalFlags f) FlagLocalMustRescan.
Definition IsReceiveOnlyChanged (f : FileInfo) : bool :=
  has_flag (fLocalFlags f) FlagLocalReceiveOnly.
Definition IsDirectory (f : FileInfo) : bool := fType f =? FileInfoTypeDirectory.
Definition ShouldConflict (f : FileInfo) : bool := has_flag (fLocalFlags f) LocalConflictFlags.
Definition IsSymlink (f : FileInfo) : bool :=
  (fType f =? FileInfoTypeSymlink) || (fType f =? FileInfoTypeSymlinkDirectory) ||
  (fType f =? FileInfoTypeSymlinkFile).
Definition HasPermissionBits (f : FileInfo) : bool := negb (fNoPermissions f).

Definition FileSize (f : FileInfo) : Z :=
  if fDeleted f then 0
  else if IsDirectory f || IsSymlink f then SyntheticDirectorySize
  else fSize f.

Definition FileInfo_BlockSize (f : FileInfo) : Z :=
  if fRawBlockSize f <? MinBlockSize then MinBlockSize else fRawBlockSize f.

Definition ModTime (f : FileInfo) : Z := time_unix (fModifiedS f) (fModifiedNs f).

(** ** Wire and database forms *)

Definition FileInfo_ToWire (f : FileInfo) (withInternalFields : bool) : go bepFileInfo :=
  if ftruncated f && negb (IsDeleted f || IsInvalid f || IsIgnored f)
  then Panic "bug: must not serialize truncated file info"
  else
    let blocks := map block_toWire (fBlocks f) in
    Ok {| wName := fName f;
          wSize := fSize f;
          wModifiedS := fModifiedS f;
          wModifiedBy := fModifiedBy f;
          wVersion := Some (ToWire (fVersion f));
          wSequence := fSequence f;
          wBlocks := blocks;
          wSymlinkTarget := fSymlinkTarget f;
          wBlocksHash := fBlocksHash f;
          wPreviousBlocksHash := fPreviousBlocksHash f;
          wEncrypted := fEncrypted f;
          wType := fType f;
          wPermissions := fPermissions f;
          wModifiedNs := fModifiedNs f;
          wBlockSize := fRawBlockSize f;
          wPlatform := Some (platform_toWire (fPlatform f));
          wDeleted := fDeleted f;
          wInvalid := IsInvalid f;
          wNoPermissions := fNoPermissions f;
          wLocalFlags := if withInternalFields then fLocalFlags f else 0;
          wEncryptionTrailerSize :=
            if withInternalFields then i32 (fEncryptionTrailerSize f) else 0 |}.

Definition fileInfoFromWireWithBlocks (w : bepFileInfo) (blocks : list BlockInfo) : FileInfo :=
  let localFlags := if wInvalid w then FlagLocalRemoteInvalid else 0 in
  {| fName := wName w;
     fSize := wSize w;
     fModifiedS := wModifiedS w;
     fModifiedBy := wModifiedBy w;
     fVersion := VectorFromWire (wVersion w);
     fSequence := wSequence w;
     fBlocks := blocks;
     fSymlinkTarget := wSymlinkTarget w;
     fBlocksHash := wBlocksHash w;
     fPreviousBlocksHash := wPreviousBlocksHash w;
     fEncrypted := wEncrypted w;
     fType := wType w;
     fPermissions := wPermissions w;
     fModifiedNs := wModifiedNs w;
     fRawBlockSize := wBlockSize w;
     fPlatform := platformDataFromWire (wPlatform w);
     fDeleted := wDeleted w;
     fLocalFlags := localFlags;
     fNoPermissions := wNoPermissions w;
     fEncryptionTrailerSize := 0;
     ftruncated := false |}.

Definition FileInfoFromWire (w : bepFileInfo) : FileInfo :=
  let blocks := if (0 <? length (wBlocks w))%nat then map BlockInfoFromWire (wBlocks w) else [] in
  fileInfoFromWireWithBlocks w blocks.

(** The assignments after the conversion. *)
Definition set_local (f : FileInfo) (flags trailer : Z) (truncated : bool) : FileInfo :=
  {| fName := fName f; fSize := fSize f; fModifiedS := fModifiedS f;
     fModifiedBy := fModifiedBy f; fVersion := fVersion f; fSequence := fSequence f;
     fBlocks := fBlocks f; fSymlinkTarget := fSymlinkTarget f; fBlocksHash := fBlocksHash f;
     fPreviousBlocksHash := fPreviousBlocksHash f; fEncrypted := fEncrypted f;
     fPlatform := fPlatform f; fType := fType f; fPermissions := fPermissions f;
     fModifiedNs := fModifiedNs f; fRawBlockSize := fRawBlockSize f;
     fDeleted := fDeleted f; fNoPermissions := fNoPermissions f;
     fLocalFlags := flags; fEncryptionTrailerSize := trailer; ftruncated := truncated |}.

Definition FileInfoFromDB (w : bepFileInfo) : FileInfo :=
  set_local (FileInfoFromWire w) (wLocalFlags w) (wEncryptionTrailerSize w) false.

Definition FileInfoFromDBTruncated (w : bepFileInfo) : FileInfo :=
  set_local (fileInfoFromWireWithBlocks w []) (wLocalFlags w) (wEncryptionTrailerSize w) true.

(** ** Conflicts *)

Definition InConflictWith (f previous : FileInfo) : bool :=
  if GreaterEqual (fVersion f) (fVersion previous) then false
  else if (length (fPreviousBlocksHash f) =? 0)%nat || (length (fBlocksHash f) =? 0)%nat then true
  else negb (bool_decide (fPreviousBlocksHash f = fBlocksHash previous)).

Definition WinsConflict (f other : FileInfo) : bool :=
  if negb (Bool.eqb (IsInvalid f) (IsInvalid other)) then negb (IsInvalid f)
  else if ModTime other <? ModTime f then true
  else if ModTime f <? ModTime other then false
  else bool_decide (Compare (fVersion f) (fVersion other) = ConcurrentGreater).

(** ** Equivalence *)

Record FileInfoComparison := MkFileInfoComparison {
  ModTimeWindow : Z;
  IgnorePerms : bool;
  IgnoreBlocks : bool;
  IgnoreFlags : Z;
  IgnoreOwnership : bool;
  IgnoreXattrs : bool;
}.

(** Durations are [int64]: negating the smallest one wraps around. *)
Definition ModTimeEqual (a b modTimeWindow : Z) : bool :=
  if a =? b then true
  else
    let diff := time_sub a b in
    let diff := if diff <? 0 then i64 (diff * -1) else diff in
    diff <? modTimeWindow.

Definition BlocksEqual (f other : FileInfo) : bool :=
  if (0 <? length (fBlocksHash f))%nat && (0 <? length (fBlocksHash other))%nat &&
     bool_decide (fBlocksHash f = fBlocksHash other)
  then true
  else blocksEqual (fBlocks f) (fBlocks other).

Section equivalence.
Variable GOOS : string.

(** Octal 0600 and 0777. *)
Definition PermsEqual (a b : Z) : bool :=
  if IsWindows GOOS then Z.land a 384 =? Z.land b 384
  else Z.land a 511 =? Z.land b 511.

(** [samePlatform] is the comparison [f.Platform == other.Platform] of two
    structures of pointers, which the values do not determine. *)
Definition isEquivalent (samePlatform : bool) (f other : FileInfo) (comp : FileInfoComparison)
  : bool :=
  if MustRescan f || MustRescan other then false
  else
    let fFlags := Z.ldiff (fLocalFlags f) (IgnoreFlags comp) in
    let otherFlags := Z.ldiff (fLocalFlags other) (IgnoreFlags comp) in
    if negb (bool_decide (fName f = fName other)) || negb (fType f =? fType other) ||
       negb (Bool.eqb (fDeleted f) (fDeleted other)) ||
       negb (Bool.eqb (FlagLocal_IsInvalid fFlags) (FlagLocal_IsInvalid otherFlags))
    then false
    else if (negb (IgnoreOwnership comp) && negb samePlatform) &&
            (negb (unixOwnershipEqual (Unix (fPlatform f)) (Unix (fPlatform other))) ||
             negb (windowsOwnershipEqual (Windows (fPlatform f)) (Windows (fPlatform other))))
    then false
    else if (negb (IgnoreXattrs comp) && negb samePlatform) &&
            (negb (xattrsEqual (Linux (fPlatform f)) (Linux (fPlatform other))) ||
             negb (xattrsEqual (Darwin (fPlatform f)) (Darwin (fPlatform other))) ||
             negb (xattrsEqual (FreeBSD (fPlatform f)) (FreeBSD (fPlatform other))) ||
             negb (xattrsEqual (NetBSD (fPlatform f)) (NetBSD (fPlatform other))))
    then false
    else if negb (IgnorePerms comp) && negb (fNoPermissions f) && negb (fNoPermissions other) &&
            negb (PermsEqual (fPermissions f) (fPermissions other))
    then false
    else if fType f =? FileInfoTypeFile then
      (fSize f =? fSize other) &&
      ModTimeEqual (ModTime f) (ModTime other) (ModTimeWindow comp) &&
      (IgnoreBlocks comp || BlocksEqual f other)
    else if fType f =? FileInfoTypeSymlink then
      bool_decide (fSymlinkTarget f = fSymlinkTarget other)
    else if fType f =? FileInfoTypeDirectory then true
    else false.

Definition IsEquivalent (samePlatform : bool) (f other : FileInfo) (modTimeWindow : Z) : bool :=
  isEquivalent samePlatform f other
    {| ModTimeWindow := modTimeWindow; IgnorePerms := false; IgnoreBlocks := false;
       IgnoreFlags := 0; IgnoreOwnership := false; IgnoreXattrs := false |}.
Definition IsEquivalentOptional := isEquivalent.
End equivalence.

(** ** Updates *)

Definition setNoContent (f : FileInfo) : FileInfo :=
  {| fName := fName f; fSize := 0; fModifiedS := fModifiedS f;
     fModifiedBy := fModifiedBy f; fVersion := fVersion f; fSequence := fSequence f;
     fBlocks := []; fSymlinkTarget := fSymlinkTarget f; fBlocksHash := [];
     fPreviousBlocksHash := fPreviousBlocksHash f; fEncrypted := fEncrypted f;
     fPlatform := fPlatform f; fType := fType f; fPermissions := fPermissions f;
     fModifiedNs := fModifiedNs f; fRawBlockSize := fRawBlockSize f;
     fLocalFlags := fLocalFlags f; fEncryptionTrailerSize := fEncryptionTrailerSize f;
     fDeleted := fDeleted f; fNoPermissions := fNoPermissions f; ftruncated := ftruncated f |}.

Definition setLocalFlags (f : FileInfo) (flags : Z) : FileInfo :=
  setNoContent (set_local f flags (fEncryptionTrailerSize f) (ftruncated f)).
Definition SetMustRescan (f : FileInfo) : FileInfo := setLocalFlags f FlagLocalMustRescan.
Definition SetIgnored (f : FileInfo) : FileInfo := setLocalFlags f FlagLocalIgnored.
Definition SetUnsupported (f : FileInfo) : FileInfo := setLocalFlags f FlagLocalUnsupported.

(** [now] and [now'] are what [time.Now().Unix()] returns in [Update] and after it. *)
Definition SetDeleted (f : FileInfo) (by_ now now' : Z) : FileInfo :=
  setNoContent
    {| fName := fName f; fSize := fSize f; fModifiedS := now';
       fModifiedBy := by_; fVersion := Update (fVersion f) by_ now; fSequence := fSequence f;
       fBlocks := fBlocks f; fSymlinkTarget := fSymlinkTarget f; fBlocksHash := fBlocksHash f;
       fPreviousBlocksHash := fPreviousBlocksHash f; fEncrypted := fEncrypted f;
       fPlatform := fPlatform f; fType := fType f; fPermissions := fPermissions f;
       fModifiedNs := fModifiedNs f; fRawBlockSize := fRawBlockSize f;
       fLocalFlags := fLocalFlags f; fEncryptionTrailerSize := fEncryptionTrailerSize f;
       fDeleted := true; fNoPermissions := fNoPermissions f; ftruncated := ftruncated f |}.

(** ** Hashes *)

Section hashing.
(** [crypto/sha256] over what was written to the hash. *)
Variable sha256 : list Z → list Z.

Definition BlocksHash (bs : list BlockInfo) : list Z := sha256 (concat (map bHash bs)).
Definition VectorHash (v : Vector) : list Z :=
  sha256 (concat (map (λ c, be_encode 8 (ID c) ++ be_encode 8 (Value c)) (Counters v))).
End hashing.

(** ** Lemmas: flags *)

(** The bits of [f] are among those from [k] to 31. *)
Definition bits_from (k : nat) (f : Z) : Prop :=
  ∀ i, 0 ≤ i → i < Z.of_nat k ∨ 32 ≤ i → Z.testbit f i = false.

Lemma bits_from_u32 f : in_u32 f → bits_from 0 f.
Proof.
  unfold in_u32. intros Hf i Hi [?|Hi32]; [lia|].
  rewrite Z.testbit_eqb by lia. rewrite Z.div_small; [done|].
  pose proof (Z.pow_le_mono_r 2 32 i). lia.
Qed.

Lemma bits_from_32 f : bits_from 32 f → f = 0.
Proof.
  intros H. apply Z.bits_inj'. intros i Hi. rewrite Z.bits_0. apply H; lia.
Qed.

Lemma bits_from_clear k f :
  bits_from k f → bits_from (S k) (Z.ldiff f (2 ^ Z.of_nat k)).
Proof.
  intros H i Hi Hc. rewrite Z.ldiff_spec, Z.pow2_bits_eqb by lia.
  destruct (Z.eqb_spec (Z.of_nat k) i); [apply andb_false_r|].
  rewrite H; [done|lia|lia].
Qed.

Lemma human_loop_total fuel k f bit res extra :
  (fuel + k = 32)%nat → bits_from k f → bit = 2 ^ Z.of_nat k ∨ fuel = 0%nat →
  is_Some (human_loop fuel f bit res extra).
Proof.
  revert k f bit res extra. induction fuel as [|fuel IH]; intros k f bit res extra Hk Hf Hbit;
    cbn [human_loop]; destruct (Z.eqb_spec f 0) as [|Hne]; eauto.
  - exfalso. apply Hne, bits_from_32. by replace 32%nat with k by lia.
  - destruct Hbit as [->|]; [|done].
    destruct (if has_flag f (2 ^ Z.of_nat k) then _ else _) as [res' extra'].
    apply (IH (S k)); [lia|by apply bits_from_clear|].
    destruct fuel as [|fuel]; [by right|left]. rewrite Z.shiftl_mul_pow2 by lia.
    pose proof (Z.pow_le_mono_r 2 (Z.of_nat k) 30).
    rewrite u32_id, Nat2Z.inj_succ, Z.pow_succ_r by (unfold in_u32; lia). lia.
Qed.

(** Reading the string back: the names from the right are the bits from the lowest. *)
Fixpoint parse_human (names : list (Z * string)) (s : list ascii) : Z :=
  match names, s with
  | (bit, name) :: names, c :: s =>
      (if bool_decide ([c] = s2l name) then bit else 0) + parse_human names s
  | _, _ => 0
  end.

(** [HumanString] terminates for every 32-bit value, and on values made of
    the defined flags it prints one character per flag, from which the value can
    be read back. *)
Theorem FlagLocal_HumanString_spec f :
  in_u32 f →
  is_Some (FlagLocal_HumanString f) ∧
  (f ≤ LocalAllFlags →
   ∃ s, FlagLocal_HumanString f = Some s ∧ length s = 7%nat ∧
        parse_human localFlagBitNames (rev s) = f).
Proof.
  intros Hf. split.
  - unfold FlagLocal_HumanString. destruct (f =? 0); [eauto|].
    destruct (human_loop_total 32 0 f 1 [] []) as [[res extra] ->];
      [done|by apply bits_from_u32|by left|eauto].
  - intros Hle. assert (0 ≤ f < 128) as Hr.
    { change LocalAllFlags with 127 in Hle. unfold in_u32 in Hf. lia. }
    enough (match FlagLocal_HumanString f with
            | Some s => (length s =? 7)%nat && (parse_human localFlagBitNames (rev s) =? f)
            | None => false end = true) as H.
    { destruct (FlagLocal_HumanString f) as [s|]; [|done]. exists s.
      apply andb_true_iff in H as [H1%Nat.eqb_eq H2%Z.eqb_eq]. done. }
    clear Hf Hle. revert f Hr. apply (forallb_below (λ f, match FlagLocal_HumanString f with
            | Some s => (length s =? 7)%nat && (parse_human localFlagBitNames (rev s) =? f)
            | None => false end)). vm_compute. reflexivity.
Qed.

Lemma FlagLocal_HumanString_spec_witness :
  in_u32 20 ∧ 20 ≤ LocalAllFlags ∧
  ∃ s, FlagLocal_HumanString 20 = Some s ∧ length s = 7%nat ∧
       parse_human localFlagBitNames (rev s) = 20.
Proof.
  assert (in_u32 20) as H1 by (unfold in_u32; lia).
  assert (20 ≤ LocalAllFlags) as H2 by (vm_compute; congruence).
  split; [exact H1|split; [exact H2|]]. exact (proj2 (FlagLocal_HumanString_spec 20 H1) H2).
Defined.

(** ** Block sizes *)

Lemma BlockSizes_value :
  BlockSizes = [131072; 262144; 524288; 1048576; 2097152; 4194304; 8388608; 16777216].
Proof. reflexivity. Qed.

(** [BlockSize] picks the smallest of the eight block sizes, the powers of
    two from 128 KiB to 16 MiB, that gives fewer than 2000 blocks, or the largest
    size when none does; it is monotone, and the hash of an empty block is known
    for every size it can return. *)
Theorem BlockSize_spec fileSize :
  let b := BlockSize fileSize in
  b ∈ BlockSizes ∧ MinBlockSize ≤ b ≤ MaxBlockSize ∧
  (fileSize < DesiredPerFileBlocks * b ∨ b = MaxBlockSize) ∧
  (∀ s, s ∈ BlockSizes → s < b → DesiredPerFileBlocks * s ≤ fileSize) ∧
  (∀ fileSize', fileSize ≤ fileSize' → b ≤ BlockSize fileSize') ∧
  empty_hash sha256OfEmptyBlock b ≠ None.
Proof.
  assert (∀ x, BlockSize x =
    if x <? 262144000 then 131072 else if x <? 524288000 then 262144
    else if x <? 1048576000 then 524288 else if x <? 2097152000 then 1048576
    else if x <? 4194304000 then 2097152 else if x <? 8388608000 then 4194304
    else if x <? 16777216000 then 8388608 else 16777216) as E.
  { intros x. unfold BlockSize. rewrite BlockSizes_value. cbn [block_size_loop].
    unfold DesiredPerFileBlocks. 
    change (2000 * 131072) with 262144000. change (2000 * 262144) with 524288000.
    change (2000 * 524288) with 1048576000. change (2000 * 1048576) with 2097152000.
    change (2000 * 2097152) with 4194304000. change (2000 * 4194304) with 8388608000.
    change (2000 * 8388608) with 16777216000.
    repeat (case_match; [reflexivity|]). by destruct (x <? 2000 * 16777216). }
  intros b. unfold b. setoid_rewrite E. rewrite BlockSizes_value.
  change MinBlockSize with 131072. change MaxBlockSize with 16777216.
  unfold DesiredPerFileBlocks.
  split; [repeat case_match; set_solver|]. split; [repeat case_match; lia|].
  split; [repeat case_match; zb; lia|].
  split; [intros s Hs; repeat (apply elem_of_cons in Hs as [->|Hs]); [..|set_solver];
          repeat case_match; zb; lia|].
  split; [intros x' Hx; repeat case_match; zb; lia|].
  repeat case_match; discriminate.
Qed.

(** ** Wire and database forms *)

Definition block_ok (b : BlockInfo) : Prop := in_i32 (bSize b).

(** The fields the wire forms narrow are in their range. *)
Definition file_ok (f : FileInfo) : Prop :=
  Forall block_ok (fBlocks f) ∧ in_i32 (fEncryptionTrailerSize f) ∧ platform_ok (fPlatform f).

Lemma blocks_roundtrip bs :
  Forall block_ok bs → map BlockInfoFromWire (map block_toWire bs) = bs.
Proof.
  induction 1 as [|[h o s] bs Hb Hbs IH]; [done|]. simpl. rewrite IH.
  unfold block_toWire, BlockInfoFromWire. simpl. by rewrite i32_id.
Qed.

Lemma vector_wire_roundtrip v : VectorFromWire (Some (ToWire v)) = v.
Proof.
  destruct v as [cs]. simpl. f_equal. rewrite map_map.
  induction cs as [|[id x] cs IH]; simpl; by f_equal.
Qed.

Lemma nonempty_blocks {A B} (g : A → B) (l : list A) :
  (if (0 <? length l)%nat then map g l else []) = map g l.
Proof. by destruct l. Qed.

Lemma FromWire_ToWire f b w :
  file_ok f → FileInfo_ToWire f b = Ok w →
  FileInfoFromWire w =
    set_local f (if IsInvalid f then FlagLocalRemoteInvalid else 0) 0 false ∧
  wLocalFlags w = (if b then fLocalFlags f else 0) ∧
  wEncryptionTrailerSize w = (if b then fEncryptionTrailerSize f else 0).
Proof.
  intros (Hb & Ht & Hp). unfold FileInfo_ToWire. destruct (_ && _); [done|].
  intros [= <-]. unfold FileInfoFromWire, fileInfoFromWireWithBlocks, set_local.
  cbn [wBlocks wVersion wPlatform wInvalid wLocalFlags wEncryptionTrailerSize
       wName wSize wModifiedS wModifiedBy wSequence wSymlinkTarget wBlocksHash
       wPreviousBlocksHash wEncrypted wType wPermissions wModifiedNs wBlockSize
       wDeleted wNoPermissions].
  rewrite nonempty_blocks, blocks_roundtrip, vector_wire_roundtrip, platform_roundtrip by done.
  split; [done|]. split; [done|]. destruct b; [by rewrite i32_id|done].
Qed.

Lemma FromDB_ToWire f w :
  file_ok f → ftruncated f = false → FileInfo_ToWire f true = Ok w → FileInfoFromDB w = f.
Proof.
  intros Hf Ht Hw. destruct (FromWire_ToWire f true w Hf Hw) as (E & E1 & E2).
  unfold FileInfoFromDB. rewrite E, E1, E2. destruct f. unfold set_local. simpl in *. congruence.
Qed.

(** C36.  A complete file record written to the database is read back unchanged;
    sent to another device it arrives with all its data, its local flags replaced
    by the one bit that says whether it is invalid, and serialising fails, with a
    panic, exactly for truncated records that are neither deleted nor invalid. *)
Theorem FileInfo_roundtrip f :
  file_ok f →
  (∀ b, is_ok (FileInfo_ToWire f b) =
        negb (ftruncated f && negb (IsDeleted f || IsInvalid f))) ∧
  (ftruncated f = false →
   (∃ w, FileInfo_ToWire f true = Ok w ∧ FileInfoFromDB w = f) ∧
   (∃ w, FileInfo_ToWire f false = Ok w ∧
         FileInfoFromWire w =
           set_local f (if IsInvalid f then FlagLocalRemoteInvalid else 0) 0 false ∧
         IsInvalid (FileInfoFromWire w) = IsInvalid f)).
Proof.
  intros Hf. split.
  - intros b. unfold FileInfo_ToWire.
    assert (IsIgnored f = true → IsInvalid f = true) as Hi.
    { unfold IsIgnored, IsInvalid, FlagLocal_IsInvalid, has_flag. intros H%negb_true_iff%Z.eqb_neq.
      apply negb_true_iff, Z.eqb_neq. intros E. apply H, Z.bits_inj'. intros i Hpos.
      apply (f_equal (λ z, Z.testbit z i)) in E. rewrite Z.land_spec, Z.bits_0 in *.
      destruct (Z.testbit (fLocalFlags f) i); [|done]. cbn [andb] in *.
      destruct (decide (i = 1)) as [->|]; [discriminate|].
      change FlagLocalIgnored with (2 ^ 1). rewrite Z.pow2_bits_eqb by lia.
      apply Z.eqb_neq. lia. }
    destruct (ftruncated f), (IsDeleted f), (IsInvalid f), (IsIgnored f); simpl; try done.
    by specialize (Hi eq_refl).
  - intros Ht.
    assert (∀ b, ∃ w, FileInfo_ToWire f b = Ok w) as Hw.
    { intros b. unfold FileInfo_ToWire. rewrite Ht. simpl. eauto. }
    split.
    + destruct (Hw true) as [w Hw']. exists w. split; [done|]. by apply FromDB_ToWire.
    + destruct (Hw false) as [w Hw']. exists w. split; [done|].
      destruct (FromWire_ToWire f false w Hf Hw') as (E & _). split; [done|]. rewrite E.
      unfold IsInvalid at 1. simpl. by destruct (IsInvalid f).
Qed.

Definition sample_file : FileInfo :=
  MkFileInfo "a/b.txt" 300000 1700000000 7 v12 41
    [MkBlockInfo [1; 2] 0 131072; MkBlockInfo [3; 4] 131072 131072; MkBlockInfo [5] 262144 37856]
    [] [9] [8] [] (MkPlatformData (Some (MkUnixData "u" "g" 1000 100)) None None None None None)
    FileInfoTypeFile 420 123 131072 FlagLocalReceiveOnly 0 false false false.

Lemma sample_file_ok : file_ok sample_file.
Proof.
  split; [|split]; [repeat constructor; unfold block_ok, in_i32; simpl; lia|unfold in_i32; simpl; lia|].
  unfold platform_ok, unix_ok, in_i32. simpl. lia.
Defined.

Lemma FileInfo_roundtrip_witness :
  ∃ w, FileInfo_ToWire sample_file true = Ok w ∧ FileInfoFromDB w = sample_file.
Proof.
  exact (proj1 (proj2 (FileInfo_roundtrip sample_file sample_file_ok) eq_refl)).
Defined.

(** ** Conflicts *)

Lemma Compare_flip v b :
  vector_wf v → vector_wf b → Concurrent v b = true →
  bool_decide (Compare v b = ConcurrentGreater) =
  negb (bool_decide (Compare b v = ConcurrentGreater)).
Proof.
  intros Hv Hb Hc.
  destruct (compare_cases v b Hv Hb) as (_ & _ & _ & G & L).
  destruct (compare_cases b v Hb Hv) as (_ & _ & _ & G' & L').
  unfold Concurrent in Hc. destruct (Compare v b) eqn:E; try discriminate.
  - destruct (proj1 L eq_refl) as (? & ? & ?).
    rewrite (bool_decide_eq_true_2 (Compare b v = _)) by tauto. done.
  - destruct (proj1 G eq_refl) as (? & ? & ?).
    rewrite (bool_decide_eq_false_2 (Compare b v = _)); [done|].
    intros E'. apply G' in E' as (_ & _ & Hl).
    by eapply (first_greater_asym (Counters v) (Counters b)).
Qed.

(** When two versions are concurrent, exactly one of the two records wins
    the conflict, whichever side runs the test, so all devices agree on it. *)
Theorem WinsConflict_total f g :
  vector_wf (fVersion f) → vector_wf (fVersion g) →
  Concurrent (fVersion f) (fVersion g) = true →
  WinsConflict f g = negb (WinsConflict g f).
Proof.
  intros Hf Hg Hc. unfold WinsConflict.
  destruct (IsInvalid f), (IsInvalid g); simpl; try done.
  all: destruct (Z.ltb_spec (ModTime g) (ModTime f)), (Z.ltb_spec (ModTime f) (ModTime g));
    try done; try lia; by apply Compare_flip.
Qed.

Definition with_version (f : FileInfo) (v : Vector) : FileInfo :=
  MkFileInfo (fName f) (fSize f) (fModifiedS f) (fModifiedBy f) v (fSequence f) (fBlocks f)
    (fSymlinkTarget f) (fBlocksHash f) (fPreviousBlocksHash f) (fEncrypted f) (fPlatform f)
    (fType f) (fPermissions f) (fModifiedNs f) (fRawBlockSize f) (fLocalFlags f)
    (fEncryptionTrailerSize f) (fDeleted f) (fNoPermissions f) (ftruncated f).

Lemma WinsConflict_total_witness :
  Concurrent v12 v13 = true ∧
  WinsConflict sample_file (with_version sample_file v13) =
  negb (WinsConflict (with_version sample_file v13) sample_file).
Proof.
  split; [reflexivity|].
  exact (WinsConflict_total sample_file (with_version sample_file v13) v12_wf v13_wf eq_refl).
Defined.

(** ** Modification times *)

(** [ModTimeEqual] tests whether two instants are less than the window apart
    as long as they are less than 2^63 ns (292 years) apart.  Beyond that the
    difference saturates, and negating the smallest duration wraps around: an
    instant that precedes the other one by 292 years or more counts as equal to
    it, while in the other order it does not. *)
Theorem ModTimeEqual_spec a b w :
  0 ≤ w ≤ max_duration →
  (in_i64 (a - b) → a - b ≠ min_duration →
   ModTimeEqual a b w = (a =? b) || (Z.abs (a - b) <? w)) ∧
  (a - b ≤ min_duration → 0 ≤ w → ModTimeEqual a b w = true ∧ ModTimeEqual b a w = false).
Proof.
  unfold ModTimeEqual, in_i64, min_duration, max_duration. intros Hw. split.
  - intros Hr Hm. destruct (Z.eqb_spec a b) as [|Hne]; [done|]. simpl.
    rewrite time_sub_small by done. destruct (Z.ltb_spec (a - b) 0).
    + rewrite i64_id by (unfold in_i64; lia). f_equal. lia.
    + f_equal. lia.
  - intros Hm _. destruct (Z.eqb_spec a b), (Z.eqb_spec b a); try lia.
    assert (time_sub a b = -9223372036854775808) as ->
      by (unfold time_sub, min_duration, max_duration; lia).
    assert (time_sub b a = 9223372036854775807) as ->
      by (unfold time_sub, min_duration, max_duration; lia).
    change (i64 (-9223372036854775808 * -1)) with (-9223372036854775808). simpl.
    split; [apply Z.ltb_lt|apply Z.ltb_ge]; lia.
Qed.

Lemma ModTimeEqual_spec_witness :
  ModTimeEqual 0 9223372036854775808 2 = true ∧ ModTimeEqual 9223372036854775808 0 2 = false.
Proof.
  apply (ModTimeEqual_spec 0 9223372036854775808 2);
    unfold max_duration, min_duration; lia.
Defined.

(** ** Equivalence *)

Lemma blocks_loop_sym a b : blocks_loop a b = blocks_loop b a.
Proof.
  revert b. induction a as [|x a IH]; intros [|y b]; simpl; [done..|]. rewrite IH.
  by repeat case_bool_decide; try congruence.
Qed.
Lemma blocks_loop_refl a : blocks_loop a a = true.
Proof. induction a as [|x a IH]; simpl; [done|]. by rewrite bool_decide_eq_true_2. Qed.

Lemma BlocksEqual_sym f g : BlocksEqual f g = BlocksEqual g f.
Proof.
  unfold BlocksEqual, blocksEqual. rewrite blocks_loop_sym, Nat.eqb_sym.
  rewrite (andb_comm (0 <? length (fBlocksHash f))%nat).
  repeat case_bool_decide; try done; congruence.
Qed.
Lemma BlocksEqual_refl f : BlocksEqual f f = true.
Proof.
  unfold BlocksEqual, blocksEqual. rewrite Nat.eqb_refl, blocks_loop_refl. by destruct (_ && _).
Qed.

Lemma ModTimeEqual_sym a b w :
  in_i64 (a - b) → a - b ≠ min_duration → ModTimeEqual a b w = ModTimeEqual b a w.
Proof.
  unfold ModTimeEqual, in_i64, min_duration. intros Hr Hm.
  rewrite Z.eqb_sym. destruct (Z.eqb_spec b a); [done|].
  rewrite !time_sub_small by (unfold in_i64; lia).
  destruct (Z.ltb_spec (a - b) 0), (Z.ltb_spec (b - a) 0); try lia;
    rewrite i64_id by (unfold in_i64; lia); f_equal; lia.
Qed.

(** Comparing the data makes the comparison of the pointers redundant. *)
Lemma isEquivalent_pointers GOOS f g comp :
  fPlatform f = fPlatform g →
  isEquivalent GOOS true f g comp = isEquivalent GOOS false f g comp.
Proof.
  intros E. unfold isEquivalent. rewrite <- E.
  rewrite !xattrsEqual_refl, windowsOwnershipEqual_refl, unixOwnershipEqual_refl.
  by rewrite !andb_false_r.
Qed.

(** [isEquivalent] compares values: the shortcut on identical platform
    pointers never changes its result.  It is symmetric for modification times
    less than 292 years apart. *)
Theorem isEquivalent_sym GOOS samePlatform f g comp :
  (samePlatform = true → fPlatform f = fPlatform g) →
  in_i64 (ModTime f - ModTime g) → ModTime f - ModTime g ≠ min_duration →
  isEquivalent GOOS samePlatform f g comp = isEquivalent GOOS false f g comp ∧
  isEquivalent GOOS samePlatform f g comp = isEquivalent GOOS samePlatform g f comp.
Proof.
  intros Hp Hr Hm. split.
  { destruct samePlatform; [|done]. apply isEquivalent_pointers. auto. }
  unfold isEquivalent. rewrite (orb_comm (MustRescan f)).
  assert (∀ A `{EqDecision A} (x y : A), bool_decide (x = y) = bool_decide (y = x)) as Hsym.
  { intros. by repeat case_bool_decide; try congruence. }
  assert (∀ a b, Bool.eqb a b = Bool.eqb b a) as Hbs by by intros [] [].
  rewrite (Hsym _ _ (fName f)), (Z.eqb_sym (fType f) (fType g)), (Hbs (fDeleted f)),
    (Hbs (FlagLocal_IsInvalid _)), (unixOwnershipEqual_sym (Unix (fPlatform f))).
  rewrite !windowsOwnershipEqual_spec, !xattrsEqual_spec.
  rewrite (Hsym _ _ (Windows (fPlatform f))), (Hsym _ _ (xattrs_of (Linux (fPlatform f)))),
    (Hsym _ _ (xattrs_of (Darwin (fPlatform f)))), (Hsym _ _ (xattrs_of (FreeBSD (fPlatform f)))),
    (Hsym _ _ (xattrs_of (NetBSD (fPlatform f)))).
  assert (PermsEqual GOOS (fPermissions f) (fPermissions g) =
          PermsEqual GOOS (fPermissions g) (fPermissions f)) as ->.
  { unfold PermsEqual. by rewrite (Z.eqb_sym (Z.land _ 384)), (Z.eqb_sym (Z.land _ 511)). }
  rewrite (Z.eqb_sym (fSize f)), (ModTimeEqual_sym (ModTime f)), BlocksEqual_sym,
    (Hsym _ _ (fSymlinkTarget f)) by done.
  destruct (MustRescan g || MustRescan f); [done|].
  destruct (Z.eqb_spec (fType g) (fType f)) as [->|].
  - by destruct (fNoPermissions f), (fNoPermissions g), (IgnorePerms comp).
  - by rewrite !orb_true_r.
Qed.

Lemma isEquivalent_sym_witness :
  isEquivalent "linux" false sample_file (with_version sample_file v13)
    (MkFileInfoComparison 0 false false 0 false false) =
  isEquivalent "linux" false (with_version sample_file v13) sample_file
    (MkFileInfoComparison 0 false false 0 false false).
Proof.
  apply (isEquivalent_sym "linux" false sample_file (with_version sample_file v13));
    unfold in_i64, min_duration; vm_compute; first [done|split; congruence].
Defined.

(** A record is equivalent to itself exactly when it need not be rescanned
    and is a file, a directory or a symbolic link of the current type; the two
    old types of symbolic links, which [IsSymlink] accepts, are not even
    equivalent to themselves. *)
Theorem isEquivalent_refl GOOS samePlatform f comp :
  isEquivalent GOOS samePlatform f f comp =
  negb (MustRescan f) &&
  ((fType f =? FileInfoTypeFile) || (fType f =? FileInfoTypeDirectory) ||
   (fType f =? FileInfoTypeSymlink)).
Proof.
  assert (isEquivalent GOOS samePlatform f f comp = isEquivalent GOOS false f f comp) as ->.
  { destruct samePlatform; [|done]. by apply isEquivalent_pointers. }
  unfold isEquivalent. rewrite orb_diag. destruct (MustRescan f); [done|]. simpl.
  rewrite !xattrsEqual_refl, windowsOwnershipEqual_refl, unixOwnershipEqual_refl.
  rewrite !bool_decide_eq_true_2, !Z.eqb_refl, !eqb_reflx by done.
  assert (PermsEqual GOOS (fPermissions f) (fPermissions f) = true) as ->.
  { unfold PermsEqual. rewrite !Z.eqb_refl. by destruct (IsWindows GOOS). }
  rewrite BlocksEqual_refl. unfold ModTimeEqual. rewrite Z.eqb_refl, orb_true_r.
  rewrite !andb_false_r. simpl. 
  destruct (fType f =? FileInfoTypeFile), (fType f =? FileInfoTypeDirectory),
    (fType f =? FileInfoTypeSymlink); done.
Qed.

(** ** Local state *)

(** Marking a record invalid drops its content and makes it invalid, so that
    it can be serialised even when truncated; deleting it drops the content and
    yields a strictly newer version than the one before. *)
Theorem invalidate_and_delete f by_ now now' :
  (∀ g, g ∈ [SetMustRescan f; SetIgnored f; SetUnsupported f] →
        IsInvalid g = true ∧ fBlocks g = [] ∧ fSize g = 0 ∧ fVersion g = fVersion f ∧
        is_ok (FileInfo_ToWire g false) = true) ∧
  (vector_wf (fVersion f) → in_u64 by_ → Counter_ (fVersion f) by_ < 18446744073709551615 →
   let g := SetDeleted f by_ now now' in
   fDeleted g = true ∧ fBlocks g = [] ∧ FileSize g = 0 ∧ fModifiedBy g = by_ ∧
   InConflictWith g f = false ∧ is_ok (FileInfo_ToWire g false) = true).
Proof.
  split.
  - intros g Hg. unfold SetMustRescan, SetIgnored, SetUnsupported, setLocalFlags in Hg.
    assert (∃ flags, FlagLocal_IsInvalid flags = true ∧
                     g = setNoContent (set_local f flags (fEncryptionTrailerSize f) (ftruncated f)))
      as (flags & Hi & ->).
    { repeat (apply elem_of_cons in Hg as [->|Hg]); [..|set_solver]; eexists; split;
        try reflexivity; reflexivity. }
    assert (∀ t e, IsInvalid (setNoContent (set_local f flags e t)) = true) as Hinv by done.
    repeat split; [apply Hinv|]. unfold FileInfo_ToWire. rewrite Hinv, orb_true_r, andb_false_r.
    done.
  - intros Hv Hby Hmax g. repeat split.
    + unfold InConflictWith, g. cbn [fVersion SetDeleted setNoContent]. unfold GreaterEqual, Update.
      by rewrite updateWithNow_newer by auto with go.
    + unfold FileInfo_ToWire. cbn. by rewrite andb_false_r.
Qed.

Lemma invalidate_and_delete_witness :
  let g := SetDeleted sample_file 7 1700000100 1700000100 in
  fDeleted g = true ∧ fBlocks g = [] ∧ FileSize g = 0 ∧ fModifiedBy g = 7 ∧
  InConflictWith g sample_file = false ∧ is_ok (FileInfo_ToWire g false) = true.
Proof.
  apply (invalidate_and_delete sample_file 7 1700000100 1700000100);
    [exact v12_wf|unfold in_u64; lia|reflexivity].
Defined.
