(* ===== verification/Queue.v ===== *)
(** * The job queue of a folder ([src/lib/model/queue.go])

    Files waiting to be pulled and files in progress.  Every operation runs under
    the queue's lock, so an interleaving of calls is a sequence of operations.
    The file proves that no job is lost or duplicated by any such sequence, and
    that [Jobs] is a page of the jobs in progress followed by the queued ones. *)
From S2P Require Import Prelude GoLib.
From Stdlib Require String.

Local Open Scope Z_scope.

(** ** State *)

Record jobQueueEntry := MkEntry { name : string; size : Z; modified : Z }.
Record jobQueue := MkQueue { progress : list string; queued : list jobQueueEntry }.

Definition newJobQueue : jobQueue := MkQueue [] [].

(** ** Operations *)

(** [modified] is an instant; [UnixNano] is an [int64]. *)
Definition Push (q : jobQueue) (file : string) (sz modified : Z) : jobQueue :=
  MkQueue (progress q) (queued q ++ [MkEntry file sz (i64 modified)]).

Definition Pop (q : jobQueue) : jobQueue * (string * bool) :=
  match queued q with
  | [] => (q, (EmptyString, false))
  | e :: rest => (MkQueue (progress q ++ [name e]) rest, (name e, true))
  end.

(** The range loop of [BringToFront] from index [i]; [copy] shifts the first [i]
    entries one step to the right. *)
Fixpoint bring_loop (filename : string) (i : nat) (rest all : list jobQueueEntry)
  : list jobQueueEntry :=
  match rest with
  | [] => all
  | cur :: rest =>
      if bool_decide (name cur = filename) then
        if (0 <? i)%nat then cur :: take i all ++ drop (i + 1) all else all
      else bring_loop filename (i + 1) rest all
  end.
Definition BringToFront (q : jobQueue) (filename : string) : jobQueue :=
  MkQueue (progress q) (bring_loop filename 0 (queued q) (queued q)).

(** The range loop of [Done] from index [i]. *)
Fixpoint done_loop (file : string) (i : nat) (rest all : list string) : list string :=
  match rest with
  | [] => all
  | p :: rest =>
      if bool_decide (p = file) then take i all ++ drop (i + 1) all
      else done_loop file (i + 1) rest all
  end.
Definition Done (q : jobQueue) (file : string) : jobQueue :=
  MkQueue (done_loop file 0 (progress q) (progress q)) (queued q).

Definition Reset (q : jobQueue) : jobQueue := MkQueue [] [].
Definition lenQueued (q : jobQueue) : nat := length (queued q).
Definition lenProgress (q : jobQueue) : nat := length (progress q).

(** [l[i:j]]: bounds outside the slice panic ([cap] is at least the length; a
    bound between the two does not occur below). *)
Definition go_slice {A} (l : list A) (i j : Z) : go (list A) :=
  if (0 <=? i) && (i <=? j) && (j <=? Z.of_nat (length l))
  then Ok (take (Z.to_nat (j - i)) (drop (Z.to_nat i) l))
  else Panic "slice bounds out of range".

(** [queued[i] = q.queued[i+toSkip].name] for the indices of a slice made with
    length [n]. *)
Definition queued_page (q : list jobQueueEntry) (toSkip n : Z) : go (list string) :=
  if n <? 0 then Panic "makeslice: len out of range"
  else let! es := go_slice q toSkip (toSkip + n) in Ok (map name es).

Definition Jobs (q : jobQueue) (page perpage : Z) : go (list string * list string * Z) :=
  let toSkip := i64 (i64 (page - 1) * perpage) in
  let plen := Z.of_nat (length (progress q)) in
  let qlen := Z.of_nat (length (queued q)) in
  let tot := plen + qlen in
  if tot <=? toSkip then Ok ([], [], tot)
  else if i64 (toSkip + perpage) <=? plen then
    if perpage <? 0 then Panic "makeslice: len out of range"
    else let! p := go_slice (progress q) toSkip (i64 (toSkip + perpage)) in Ok (p, [], toSkip)
  else
    let! (p, toSkip) :=
      if toSkip <? plen then
        let! p := go_slice (progress q) toSkip plen in Ok (p, 0)
      else Ok ([], toSkip - plen) in
    let n := if qlen - toSkip <? perpage - Z.of_nat (length p)
             then qlen - toSkip else perpage - Z.of_nat (length p) in
    let! qs := queued_page (queued q) toSkip n in
    Ok (p, qs, i64 (i64 (page - 1) * perpage)).

(** ** Lemmas *)

Lemma bring_loop_split filename pre rest :
  Forall (λ e, name e ≠ filename) pre →
  bring_loop filename (length pre) rest (pre ++ rest) =
  match list_find (λ e, name e = filename) rest with
  | None => pre ++ rest
  | Some (i, cur) => cur :: (pre ++ take i rest) ++ drop (S i) rest
  end.
Proof.
  revert pre. induction rest as [|cur rest IH]; intros pre Hpre; simpl; [done|].
  case_bool_decide as Hc.
  - rewrite decide_True by done. simpl. destruct pre as [|p pre]; simpl; [done|].
    rewrite take_app_length, drop_app_add. simpl. by rewrite app_nil_r.
  - rewrite decide_False by done.
    replace (pre ++ cur :: rest) with ((pre ++ [cur]) ++ rest) by by rewrite <- app_assoc.
    replace (length pre + 1)%nat with (length (pre ++ [cur])) by by rewrite length_app.
    rewrite IH by (apply Forall_app; auto).
    destruct (list_find _ rest) as [[i e]|]; simpl; [|done]. by rewrite <- !app_assoc.
Qed.

(** [BringToFront] moves the first entry of that name to the front. *)
Lemma BringToFront_spec q f :
  queued (BringToFront q f) =
  match list_find (λ e, name e = f) (queued q) with
  | None => queued q
  | Some (i, cur) => cur :: take i (queued q) ++ drop (S i) (queued q)
  end.
Proof. apply (bring_loop_split f [] (queued q)). constructor. Qed.

Lemma done_loop_split file pre rest :
  done_loop file (length pre) rest (pre ++ rest) =
  match list_find (λ p, p = file) rest with
  | None => pre ++ rest
  | Some (i, _) => pre ++ take i rest ++ drop (S i) rest
  end.
Proof.
  revert pre. induction rest as [|p rest IH]; intros pre; simpl; [done|].
  case_bool_decide as Hc.
  - rewrite decide_True by done. by rewrite take_app_length, drop_app_add.
  - rewrite decide_False by done.
    replace (pre ++ p :: rest) with ((pre ++ [p]) ++ rest) by by rewrite <- app_assoc.
    replace (length pre + 1)%nat with (length (pre ++ [p])) by by rewrite length_app.
    rewrite IH. destruct (list_find _ rest) as [[i e]|]; simpl; [|done]. by rewrite <- !app_assoc.
Qed.

(** [Done] removes the first occurrence of the name from the jobs in progress. *)
Lemma Done_spec q f :
  progress (Done q f) =
  match list_find (λ p, p = f) (progress q) with
  | None => progress q
  | Some (i, _) => take i (progress q) ++ drop (S i) (progress q)
  end.
Proof. apply (done_loop_split f [] (progress q)). Qed.

Lemma list_find_split {A} (P : A → Prop) `{∀ x, Decision (P x)} l i x :
  list_find P l = Some (i, x) → l = take i l ++ x :: drop (S i) l ∧ P x.
Proof.
  intros (Hi & HP & _)%list_find_Some. split; [|done]. by rewrite take_drop_middle.
Qed.

Lemma BringToFront_perm q f : queued (BringToFront q f) ≡ₚ queued q.
Proof.
  rewrite BringToFront_spec. destruct (list_find _ _) as [[i cur]|] eqn:E; [|done].
  apply list_find_split in E as [E _]. rewrite E at 3. by rewrite Permutation_middle.
Qed.

(** ** No job is lost *)

Inductive op := OpPush (f : string) (sz t : Z) | OpPop | OpBring (f : string) | OpDone (f : string).

Definition step (q : jobQueue) (o : op) : jobQueue :=
  match o with
  | OpPush f sz t => Push q f sz t
  | OpPop => (Pop q).1
  | OpBring f => BringToFront q f
  | OpDone f => Done q f
  end.
Definition run (q : jobQueue) (os : list op) : jobQueue := fold_left step os q.

Definition jobs (q : jobQueue) : list string := progress q ++ map name (queued q).

(** Occurrences of a name. *)
Definition count (x : string) (l : list string) : Z :=
  Z.of_nat (length (filter (λ y, y = x) l)).

Lemma count_app x l k : count x (l ++ k) = count x l + count x k.
Proof. unfold count. rewrite filter_app, length_app. lia. Qed.
Lemma count_perm x l k : l ≡ₚ k → count x l = count x k.
Proof. unfold count. by intros ->. Qed.
Lemma count_cons x y l : count x (y :: l) = (if decide (y = x) then 1 else 0) + count x l.
Proof. unfold count. rewrite filter_cons. case_decide; simpl; lia. Qed.

(** How an operation changes the number of jobs of a name. *)
Definition delta (q : jobQueue) (o : op) (x : string) : Z :=
  match o with
  | OpPush f _ _ => if decide (f = x) then 1 else 0
  | OpDone f => if decide (f = x ∧ x ∈ progress q) then -1 else 0
  | _ => 0
  end.

Lemma count_step q o x : count x (jobs (step q o)) = count x (jobs q) + delta q o x.
Proof.
  unfold jobs. destruct o as [f sz t| |f|f]; simpl.
  - rewrite map_app, !count_app. simpl. rewrite count_cons. case_decide; unfold count; simpl; lia.
  - unfold Pop. destruct (queued q) as [|e rest] eqn:E; simpl; [rewrite E; simpl; lia|].
    rewrite !count_app, !count_cons. unfold count; simpl. lia.
  - rewrite !count_app. pose proof (BringToFront_perm q f) as Hp.
    apply (Permutation_map name) in Hp. rewrite (count_perm _ _ _ Hp). simpl. lia.
  - rewrite !count_app. change (count x (done_loop f 0 (progress q) (progress q))) with
      (count x (progress (Done q f))). rewrite Done_spec.
    destruct (list_find _ _) as [[i p]|] eqn:E.
    + pose proof E as (Hi & Hp & _)%list_find_Some. subst p.
      apply list_find_split in E as [E _].
      assert (count x (progress q) = (if decide (f = x) then 1 else 0) +
              count x (take i (progress q) ++ drop (S i) (progress q))) as ->.
      { rewrite E at 1. rewrite !count_app, count_cons. lia. }
      apply list_elem_of_lookup_2 in Hi. repeat case_decide; subst; try lia; naive_solver.
    + rewrite list_find_None, Forall_forall in E.
      rewrite decide_False; [lia|]. intros [-> Hin]. by apply (E x).
Qed.

Fixpoint total_delta (q : jobQueue) (os : list op) (x : string) : Z :=
  match os with
  | [] => 0
  | o :: os => delta q o x + total_delta (step q o) os x
  end.

(** No job is lost or duplicated: after any sequence of operations the
    queue holds every name as often as it was pushed minus the times it was
    reported done while in progress; [Pop] hands out the entry at the front, and
    [BringToFront] puts the first entry of the given name there without changing
    the order of the others. *)
Theorem jobs_conserved q os x :
  count x (jobs (run q os)) = count x (jobs q) + total_delta q os x ∧
  (∀ e rest, queued q = e :: rest →
     Pop q = (MkQueue (progress q ++ [name e]) rest, (name e, true))) ∧
  (x ∈ map name (queued q) →
   ∃ e pre post, queued q = pre ++ e :: post ∧ name e = x ∧ Forall (λ e, name e ≠ x) pre ∧
     queued (BringToFront q x) = e :: pre ++ post ∧ (Pop (BringToFront q x)).2 = (x, true)).
Proof.
  split; [|split].
  - revert q. induction os as [|o os IH]; intros q; simpl; [lia|].
    rewrite IH, count_step. lia.
  - intros e rest E. unfold Pop. by rewrite E.
  - intros Hx. pose proof (BringToFront_spec q x) as Hb. unfold Pop. 
    destruct (list_find _ _) as [[i e]|] eqn:E.
    + pose proof E as (Hi & Hp & Hfirst)%list_find_Some.
      exists e, (take i (queued q)), (drop (S i) (queued q)).
      rewrite take_drop_middle by done. split; [done|]. split; [done|]. split.
      * apply Forall_lookup. intros j y Hj. apply lookup_take_Some in Hj as [Hj Hlt]. eauto.
      * rewrite Hb. by rewrite Hp.
    + rewrite list_find_None, Forall_forall in E.
      apply list_elem_of_fmap in Hx as (e & -> & He). by apply E in He.
Qed.

Definition sample_queue : jobQueue :=
  MkQueue ["a"] [MkEntry "b" 1 10; MkEntry "c" 2 20; MkEntry "d" 3 30].

Lemma jobs_conserved_witness :
  let q := sample_queue in
  "c" ∈ map name (queued q) ∧
  ∃ e pre post, queued q = pre ++ e :: post ∧ name e = "c" ∧ Forall (λ e, name e ≠ "c") pre ∧
     queued (BringToFront q "c") = e :: pre ++ post ∧ (Pop (BringToFront q "c")).2 = ("c", true).
Proof.
  intros q. assert ("c" ∈ map name (queued q)) as H by (simpl; set_solver).
  split; [exact H|]. exact (proj2 (proj2 (jobs_conserved q [] "c")) H).
Defined.

(** ** Pages *)

Lemma go_slice_Ok {A} (l : list A) i j :
  0 ≤ i → i ≤ j → j ≤ Z.of_nat (length l) →
  go_slice l i j = Ok (take (Z.to_nat (j - i)) (drop (Z.to_nat i) l)).
Proof.
  intros. unfold go_slice. destruct (Z.leb_spec 0 i), (Z.leb_spec i j),
    (Z.leb_spec j (Z.of_nat (length l))); simpl; done || lia.
Qed.

Lemma queued_page_Ok es skip n :
  0 ≤ skip → 0 ≤ n → skip + n ≤ Z.of_nat (length es) →
  queued_page es skip n = Ok (take (Z.to_nat n) (drop (Z.to_nat skip) (map name es))).
Proof.
  intros. unfold queued_page. destruct (Z.ltb_spec n 0); [lia|].
  rewrite go_slice_Ok by lia. simpl. replace (skip + n - skip) with n by lia.
  by rewrite skipn_map, firstn_map.
Qed.

(** The shorter of what is left and the room on the page is what fits. *)
Lemma queued_page_room es skip room :
  0 ≤ skip ≤ Z.of_nat (length es) → 0 ≤ room →
  queued_page es skip (if Z.of_nat (length es) - skip <? room then Z.of_nat (length es) - skip else room) =
  Ok (take (Z.to_nat room) (drop (Z.to_nat skip) (map name es))).
Proof.
  intros Hs Hr. destruct (Z.ltb_spec (Z.of_nat (length es) - skip) room).
  - rewrite queued_page_Ok by lia. by rewrite !take_ge by (rewrite length_drop, length_map; lia).
  - by rewrite queued_page_Ok by lia.
Qed.

(** For positive page numbers and sizes within the range of [int], [Jobs]
    never panics: it returns the requested page of the jobs in progress followed
    by the queued ones, split at the boundary between the two, and how many jobs
    it skipped. *)
Theorem Jobs_spec q page perpage :
  1 ≤ page → 1 ≤ perpage → page * perpage < 9223372036854775808 →
  let skip := Z.to_nat ((page - 1) * perpage) in
  let n := Z.to_nat perpage in
  ∃ p qs skipped, Jobs q page perpage = Ok (p, qs, skipped) ∧
  p = take n (drop skip (progress q)) ∧
  p ++ qs = take n (drop skip (jobs q)) ∧
  skipped = Z.min ((page - 1) * perpage) (Z.of_nat (length (jobs q))).
Proof.
  intros Hp Hpp Hmax skip n.
  assert (page ≤ page * perpage ∧ perpage ≤ page * perpage ∧
          0 ≤ (page - 1) * perpage ∧ (page - 1) * perpage + perpage = page * perpage)
    as (H1 & H2 & H3 & H4) by nia.
  unfold Jobs, jobs. rewrite (i64_id (page - 1)) by (unfold in_i64; lia).
  rewrite i64_id by (unfold in_i64; lia). subst skip.
  set (skip := (page - 1) * perpage) in *. rewrite i64_id by (unfold in_i64; lia).
  set (ps := progress q). set (es := queued q). rewrite length_app, length_map.
  assert (Z.to_nat perpage = n) as Hn by done.
  destruct (Z.leb_spec (Z.of_nat (length ps) + Z.of_nat (length es)) skip) as [Hs|Hs].
  { eexists [], [], _. split; [done|]. rewrite !drop_ge by (rewrite ?length_app, ?length_map; lia).
    rewrite !take_nil. split; [done|]. split; [done|lia]. }
  destruct (Z.leb_spec (skip + perpage) (Z.of_nat (length ps))) as [Hin|Hin].
  { destruct (Z.ltb_spec perpage 0); [lia|]. rewrite go_slice_Ok by lia. simpl.
    replace (skip + perpage - skip) with perpage by lia.
    eexists _, [], _. split; [done|]. split; [done|].
    rewrite drop_app_le, take_app_le, app_nil_r by (rewrite ?length_drop; lia).
    split; [done|lia]. }
  destruct (Z.ltb_spec skip (Z.of_nat (length ps))) as [Hlt|Hge].
  - rewrite go_slice_Ok by lia. cbn [mbind go_bind].
    set (p := take _ (drop (Z.to_nat skip) ps)).
    assert (p = drop (Z.to_nat skip) ps) as Ep by (apply take_ge; rewrite length_drop; lia).
    assert (length p = (length ps - Z.to_nat skip)%nat) as Lp by (rewrite Ep; apply length_drop).
    rewrite queued_page_room by lia. simpl.
    eexists p, _, _. split; [done|]. split; [by rewrite Ep, take_ge by (rewrite length_drop; lia)|].
    rewrite drop_app_le, take_app_ge by (rewrite ?length_drop; lia). rewrite length_drop, <- Ep.
    split; [|lia]. do 2 f_equal. lia.
  - cbn [mbind go_bind length]. rewrite Z.sub_0_r, queued_page_room by lia. simpl.
    eexists [], _, _. split; [done|].
    rewrite (drop_ge ps), take_nil by lia. split; [done|].
    rewrite drop_app_ge by lia. simpl. split; [|lia]. by replace (Z.to_nat (skip - Z.of_nat (length ps))) with (Z.to_nat skip - length ps)%nat by lia.
Qed.

Lemma Jobs_spec_witness :
  ∃ p qs skipped, Jobs sample_queue 1 2 = Ok (p, qs, skipped) ∧ p ++ qs = ["a"; "b"].
Proof.
  destruct (Jobs_spec sample_queue 1 2) as (p & qs & k & H & _ & E & _); [lia..|].
  exists p, qs, k. split; [exact H|exact E].
Defined.
