(* ===== verification/BlockPull.v ===== *)
(** * The order in which blocks are pulled ([src/lib/model/blockpullreorderer.go])

    Each device fetches its own part of a file first, so that a cluster spreads
    the load.  The file proves that every reorderer returns a permutation of the
    blocks, that the parts of all devices cover the file without overlap, and
    that the standard reorderer starts with the part of its own device. *)
From S2P Require Import Prelude GoLib DeviceID FileInfo.

Local Open Scope Z_scope.

(** ** Splitting into chunks *)

(** The loop of [chunk]; [count] steps are enough because the step is positive. *)
Fixpoint chunk_loop {A} (fuel : nat) (i chunkSize : nat) (blocks : list A) : list (list A) :=
  match fuel with
  | O => []
  | S fuel =>
      if (i <? length blocks)%nat then
        let end_ := if (length blocks <? i + chunkSize)%nat then length blocks
                    else (i + chunkSize)%nat in
        take (end_ - i) (drop i blocks) :: chunk_loop fuel (i + chunkSize) chunkSize blocks
      else []
  end.

Definition chunk {A} (blocks : list A) (partCount : nat) : list (list A) :=
  if (partCount =? 0)%nat then [blocks]
  else
    let count := length blocks in
    let chunkSize := ((count + partCount - 1) / partCount)%nat in
    chunk_loop count 0 chunkSize blocks.

(** ** Reorderers *)

(** [rand.Shuffle] permutes a slice in place. *)
Class Shuffle := {
  shuffle : ∀ {A}, list A → list A;
  shuffle_perm : ∀ A (l : list A), shuffle l ≡ₚ l;
}.

Inductive BlockPullOrder := BlockPullOrderStandard | BlockPullOrderRandom | BlockPullOrderInOrder.

Record standardBlockPullReorderer := MkStandard { myIndex : nat; count : nat }.

Inductive blockPullReorderer :=
  | inOrderBlockPullReorderer
  | randomOrderBlockPullReorderer
  | Standard (p : standardBlockPullReorderer).

(** The first index at which the sorted devices hold [id]. *)
Fixpoint find_device (i : nat) (devs : list (list Z)) (id : list Z) : option nat :=
  match devs with
  | [] => None
  | dev :: devs => if DeviceID_Equals dev id then Some i else find_device (i + 1) devs id
  end.

Definition newStandardBlockPullReorderer (id : list Z) (otherDevices : list (list Z))
  : go standardBlockPullReorderer :=
  let allDevices :=
    sort_by (λ a b, DeviceID_Compare a b <? 0) (otherDevices ++ [id]) in
  match find_device 0 allDevices id with
  | None => Panic "bug: could not find my own index"
  | Some myIndex => Ok {| myIndex := myIndex; count := length allDevices |}
  end.

Definition newBlockPullReorderer (order : BlockPullOrder) (id : list Z) (otherDevices : list (list Z))
  : go blockPullReorderer :=
  match order with
  | BlockPullOrderRandom => Ok randomOrderBlockPullReorderer
  | BlockPullOrderInOrder => Ok inOrderBlockPullReorderer
  | BlockPullOrderStandard =>
      let! p := newStandardBlockPullReorderer id otherDevices in Ok (Standard p)
  end.

Section reorder.
Context `{Shuffle}.

Definition standard_Reorder {A} (p : standardBlockPullReorderer) (blocks : list A) : list A :=
  match blocks with
  | [] => blocks
  | _ =>
      let chunks := chunk blocks (count p) in
      let own := match chunks !! myIndex p with Some c => c | None => [] end in
      let indexes := filter (λ i, i ≠ myIndex p) (seq 0 (length chunks)) in
      let indexes := shuffle indexes in
      own ++ concat (map (λ idx, default [] (chunks !! idx)) indexes)
  end.

Definition Reorder {A} (r : blockPullReorderer) (blocks : list A) : list A :=
  match r with
  | inOrderBlockPullReorderer => blocks
  | randomOrderBlockPullReorderer => shuffle blocks
  | Standard p => standard_Reorder p blocks
  end.
End reorder.

(** ** Lemmas *)

Lemma chunk_loop_concat {A} fuel i n (blocks : list A) :
  (0 < n)%nat → (length blocks - i ≤ fuel)%nat →
  concat (chunk_loop fuel i n blocks) = drop i blocks.
Proof.
  intros Hn. revert i. induction fuel as [|fuel IH]; intros i Hf; simpl.
  { by rewrite drop_ge by lia. }
  destruct (Nat.ltb_spec i (length blocks)) as [Hi|Hi]; simpl; [|by rewrite drop_ge by lia].
  rewrite IH by lia. destruct (Nat.ltb_spec (length blocks) (i + n)).
  - rewrite take_ge by (rewrite length_drop; lia). rewrite (drop_ge blocks (i + n)) by lia.
    apply app_nil_r.
  - replace (i + n - i)%nat with n by lia. by rewrite <- drop_drop, take_drop.
Qed.

Lemma chunk_loop_sizes {A} fuel i n (blocks : list A) :
  (0 < n)%nat → Forall (λ c, 0 < length c ≤ n)%nat (chunk_loop fuel i n blocks).
Proof.
  intros Hn. revert i. induction fuel as [|fuel IH]; intros i; simpl; [constructor|].
  destruct (Nat.ltb_spec i (length blocks)); [|constructor]. constructor; [|apply IH].
  rewrite length_take, length_drop. destruct (Nat.ltb_spec (length blocks) (i + n)); lia.
Qed.

Lemma chunk_loop_length {A} fuel i n k (blocks : list A) :
  (0 < n)%nat → (length blocks ≤ i + k * n)%nat →
  (length (chunk_loop fuel i n blocks) ≤ k)%nat.
Proof.
  intros Hn. revert i k. induction fuel as [|fuel IH]; intros i k Hk; simpl; [lia|].
  destruct (Nat.ltb_spec i (length blocks)); simpl; [|lia].
  destruct k as [|k]; [lia|]. specialize (IH (i + n)%nat k). lia.
Qed.

Lemma chunk_size_pos (l p : nat) : (0 < l)%nat → p ≠ 0%nat → (0 < (l + p - 1) / p)%nat.
Proof. intros. apply Nat.div_str_pos. lia. Qed.

Lemma chunk_concat {A} (blocks : list A) p : concat (chunk blocks p) = blocks.
Proof.
  unfold chunk. destruct (Nat.eqb_spec p 0); simpl; [apply app_nil_r|].
  destruct blocks as [|b bs] eqn:E; [done|]. rewrite <- E.
  apply chunk_loop_concat; [apply chunk_size_pos; subst; simpl; lia|lia].
Qed.

(** The chunks are non-empty, there are at most as many as devices, and none is
    larger than the others need. *)
Lemma chunk_shape {A} (blocks : list A) p :
  blocks ≠ [] → (0 < p)%nat →
  (length (chunk blocks p) ≤ p)%nat ∧
  Forall (λ c, 0 < length c ≤ (length blocks + p - 1) / p)%nat (chunk blocks p).
Proof.
  intros Hb Hp. assert (0 < length blocks)%nat by (destruct blocks; [done|simpl; lia]).
  unfold chunk. destruct (Nat.eqb_spec p 0); [lia|].
  pose proof (chunk_size_pos (length blocks) p) as Hpos. split.
  - apply chunk_loop_length; [lia|]. simpl.
    pose proof (Nat.div_mod_eq (length blocks + p - 1) p).
    pose proof (Nat.mod_upper_bound (length blocks + p - 1) p). nia.
  - apply chunk_loop_sizes. lia.
Qed.

Lemma find_device_range i devs id k :
  find_device i devs id = Some k → (i ≤ k < i + length devs)%nat.
Proof.
  revert i. induction devs as [|d devs IH]; intros i; simpl; [done|].
  destruct (DeviceID_Equals d id); [intros [= <-]; lia|]. intros E%IH. lia.
Qed.

Lemma find_device_in i devs id : id ∈ devs → is_Some (find_device i devs id).
Proof.
  revert i. induction devs as [|d devs IH]; intros i Hin; simpl; [set_solver|].
  unfold DeviceID_Equals. case_bool_decide as E; [eauto|]. apply IH. set_solver.
Qed.

(** A device always finds its own place among the devices. *)
Lemma newStandard_Ok id others :
  ∃ p, newStandardBlockPullReorderer id others = Ok p ∧
       count p = S (length others) ∧ (myIndex p < count p)%nat.
Proof.
  unfold newStandardBlockPullReorderer. set (all := sort_by _ _).
  assert (all ≡ₚ others ++ [id]) as Hall by apply sort_by_perm.
  destruct (find_device_in 0 all id) as [k Hk]; [rewrite Hall; set_solver|].
  rewrite Hk. eexists. split; [done|]. apply find_device_range in Hk. simpl.
  rewrite Hall in *. rewrite length_app in *. simpl in *. lia.
Qed.

Lemma map_indexes {A} (chunks : list (list A)) :
  map (λ i, default [] (chunks !! i)) (seq 0 (length chunks)) = chunks.
Proof.
  apply list_eq. intros i. change (map ?f ?l) with (f <$> l). rewrite list_lookup_fmap.
  destruct (decide (i < length chunks)%nat) as [Hi|Hi].
  - rewrite lookup_seq_lt by done. simpl. by destruct (lookup_lt_is_Some_2 chunks i Hi) as [c ->].
  - rewrite lookup_seq_ge, lookup_ge_None_2 by lia. done.
Qed.

Lemma concat_indexes {A} (chunks : list (list A)) idx :
  idx ≡ₚ seq 0 (length chunks) →
  concat (map (λ i, default [] (chunks !! i)) idx) ≡ₚ concat chunks.
Proof.
  intros Hp. rewrite <- flat_map_concat_map, (Permutation_flat_map _ Hp), flat_map_concat_map.
  by rewrite map_indexes.
Qed.

Lemma own_first (k n : nat) :
  (k < n)%nat → k :: filter (λ i, i ≠ k) (seq 0 n) ≡ₚ seq 0 n.
Proof.
  intros Hk. apply NoDup_Permutation.
  - apply NoDup_cons. split; [rewrite list_elem_of_filter; tauto|].
    apply NoDup_filter, NoDup_seq.
  - apply NoDup_seq.
  - intros x. rewrite elem_of_cons, list_elem_of_filter, elem_of_seq.
    destruct (decide (x = k)); naive_solver lia.
Qed.

(** What the standard reorderer fetches first. *)
Definition own_chunk {A} (p : standardBlockPullReorderer) (blocks : list A) : list A :=
  default [] (chunk blocks (count p) !! myIndex p).

Lemma standard_Reorder_perm `{Shuffle} {A} p (blocks : list A) :
  standard_Reorder p blocks ≡ₚ blocks.
Proof.
  unfold standard_Reorder. destruct blocks as [|b bs] eqn:Eb; [done|]. rewrite <- Eb.
  set (chunks := chunk blocks (count p)).
  transitivity (concat chunks); [|by unfold chunks; rewrite chunk_concat].
  destruct (chunks !! myIndex p) as [own|] eqn:Eown.
  - transitivity (concat (map (λ i, default [] (chunks !! i))
      (myIndex p :: shuffle (filter (λ i, i ≠ myIndex p) (seq 0 (length chunks)))))).
    { simpl. by rewrite Eown. }
    apply concat_indexes. rewrite shuffle_perm. apply own_first. by eapply lookup_lt_Some.
  - simpl. apply concat_indexes. rewrite shuffle_perm, filter_id; [done|].
    apply Forall_forall. intros i Hi%elem_of_seq. apply lookup_ge_None_1 in Eown. lia.
Qed.

(** Whatever the order setting, the devices and the random numbers, a
    reorderer exists and returns a permutation of the blocks it is given, and the
    standard one starts with the chunk of its own device. *)
Theorem Reorder_perm `{Shuffle} {A} order id others (blocks : list A) :
  ∃ r, newBlockPullReorderer order id others = Ok r ∧ Reorder r blocks ≡ₚ blocks ∧
  match r with
  | Standard p =>
      (myIndex p < count p)%nat ∧ count p = S (length others) ∧
      own_chunk p blocks `prefix_of` Reorder r blocks
  | inOrderBlockPullReorderer => Reorder r blocks = blocks
  | randomOrderBlockPullReorderer => True
  end.
Proof.
  destruct order; simpl.
  - destruct (newStandard_Ok id others) as (p & -> & Hc & Hi). eexists. split; [done|].
    split; [apply standard_Reorder_perm|]. split; [done|split; [done|]].
    unfold own_chunk, Reorder, standard_Reorder. destruct blocks as [|b bs].
    + destruct (count p); [lia|]. simpl. apply prefix_nil.
    + destruct (chunk (b :: bs) (count p) !! myIndex p); by eexists.
  - eexists. split; [done|]. split; [apply shuffle_perm|done].
  - eexists. split; [done|]. done.
Qed.

(** The chunks of a file are consecutive, cover it, are not empty, are at
    most as many as the devices and have the size of an even split rounded up; so
    devices with the same list of devices start with parts that do not overlap
    and, together, every block is fetched first by exactly one of them. *)
Theorem chunk_spec {A} (blocks : list A) partCount :
  concat (chunk blocks partCount) = blocks ∧
  (blocks ≠ [] → (0 < partCount)%nat →
   (length (chunk blocks partCount) ≤ partCount)%nat ∧
   Forall (λ c, 0 < length c ≤ (length blocks + partCount - 1) / partCount)%nat
     (chunk blocks partCount) ∧
   concat (map (λ k, own_chunk (MkStandard k partCount) blocks) (seq 0 partCount)) = blocks).
Proof.
  split; [apply chunk_concat|]. intros Hb Hp.
  destruct (chunk_shape blocks partCount Hb Hp) as [Hl Hs]. split; [done|]. split; [done|].
  unfold own_chunk. cbn [count myIndex].
  transitivity (concat (chunk blocks partCount)); [|apply chunk_concat].
  set (cs := chunk blocks partCount) in *.
  replace partCount with (length cs + (partCount - length cs))%nat by lia.
  rewrite seq_app, map_app, concat_app. rewrite map_indexes. simpl.
  rewrite <- (app_nil_r (concat cs)) at 2. f_equal.
  apply concat_nil_Forall, Forall_forall. intros c Hc.
  apply list_elem_of_fmap in Hc as (i & -> & Hi%elem_of_seq).
  by rewrite lookup_ge_None_2 by lia.
Qed.

Lemma chunk_spec_witness :
  chunk [1; 2; 3; 4; 5] 3 = [[1; 2]; [3; 4]; [5]] ∧
  (length (chunk [1; 2; 3; 4; 5] 3) ≤ 3)%nat.
Proof. split; [reflexivity|]. apply (chunk_spec [1; 2; 3; 4; 5] 3); [done|lia]. Defined.

Lemma Reorder_perm_witness :
  let sh := {| shuffle := @rev; shuffle_perm := λ A l, Permutation_sym (Permutation_rev l) |} in
  ∃ r, newBlockPullReorderer BlockPullOrderStandard [2] [[1]; [3]] = Ok r ∧
       Reorder (H := sh) r [10; 20; 30; 40] ≡ₚ [10; 20; 30; 40].
Proof.
  intros sh.
  destruct (@Reorder_perm sh Z BlockPullOrderStandard [2] [[1]; [3]] [10; 20; 30; 40])
    as (r & Hr & Hp & _).
  exists r. split; [exact Hr|exact Hp].
Defined.
