(* ===== verification/PullerState.v ===== *)
(** * The state of one file being pulled ([src/lib/model/sharedpullerstate.go])

    A [sharedPullerState] is shared by the routines that copy and pull blocks and
    the one that finishes the file.  Its operations run under its lock, so an
    interleaving is a sequence of operations.  The file system is an interface;
    the file's content does not matter here. *)
From S2P Require Import Prelude GoLib Vector FileInfo.
From Stdlib Require Import Ascii.
From Stdlib Require String.

Local Open Scope Z_scope.

(** ** The file system the state works on *)

(** An error, and whether [fs.IsPermission] and [fs.IsNotExist] recognise it. *)
Record error := MkError { e_msg : string; e_permission : bool; e_notexist : bool }.

Inductive openFlag := OptReadWrite | OptCreate | OptExclusive.

(** [fs.Filesystem] and [fs.File] as state transformers.  The state has at most
    one open file, the temporary one. *)
Class Filesystem (W : Type) := {
  filepath_Dir : string → string;
  fs_Stat : string → W → W * (error + (bool * Z));
  fs_Chmod : string → Z → W → W * option error;
  fs_OpenFile : string → list openFlag → Z → W → W * option error;
  fs_Remove : string → W → W * option error;
  fs_Hide : string → W → W;
  fs_Unhide : string → W → W;
  fd_Truncate : Z → W → W * option error;
  fd_WriteAt : list Z → Z → W → W * option error;
  fd_Sync : W → W * option error;
  fd_Close : W → W * option error;
}.

(** [google.golang.org/protobuf] and [norm.NFC] on the encryption trailer. *)
Class Protobuf := {
  proto_Size : bepFileInfo → Z;
  MarshalTo : bepFileInfo → error + list Z;
  NormalizedFilename : string → string;
}.

(** ** State *)

(** The fields that the lock protects. *)
Record pullerCounters := MkPullerCounters {
  m_err : option error;
  m_writer : bool;
  m_copyTotal : Z;
  m_pullTotal : Z;
  m_copyOrigin : Z;
  m_copyNeeded : Z;
  m_pullNeeded : Z;
  m_updated : Z;
  m_closed : bool;
  m_available : list Z;
  m_availableUpdated : Z;
}.

Record sharedPullerState := MkSharedPullerState {
  s_file : FileInfo;
  s_folder : string;
  s_tempName : string;
  s_realName : string;
  s_reused : Z;
  s_ignorePerms : bool;
  s_hasCurFile : bool;
  s_curFile : FileInfo;
  s_curFileBlocks : gmap (list Z) Z;
  s_sparse : bool;
  s_created : Z;
  s_fsync : bool;
  s_mut : pullerCounters;
}.

Definition with_mut (s : sharedPullerState) (m : pullerCounters) : sharedPullerState :=
  MkSharedPullerState (s_file s) (s_folder s) (s_tempName s) (s_realName s) (s_reused s)
    (s_ignorePerms s) (s_hasCurFile s) (s_curFile s) (s_curFileBlocks s) (s_sparse s)
    (s_created s) (s_fsync s) m.
Definition with_file (s : sharedPullerState) (f : FileInfo) : sharedPullerState :=
  MkSharedPullerState f (s_folder s) (s_tempName s) (s_realName s) (s_reused s)
    (s_ignorePerms s) (s_hasCurFile s) (s_curFile s) (s_curFileBlocks s) (s_sparse s)
    (s_created s) (s_fsync s) (s_mut s).

Definition set_err (m : pullerCounters) (e : option error) : pullerCounters :=
  MkPullerCounters e (m_writer m) (m_copyTotal m) (m_pullTotal m) (m_copyOrigin m)
    (m_copyNeeded m) (m_pullNeeded m) (m_updated m) (m_closed m) (m_available m)
    (m_availableUpdated m).
Definition set_writer (m : pullerCounters) (w : bool) : pullerCounters :=
  MkPullerCounters (m_err m) w (m_copyTotal m) (m_pullTotal m) (m_copyOrigin m)
    (m_copyNeeded m) (m_pullNeeded m) (m_updated m) (m_closed m) (m_available m)
    (m_availableUpdated m).
Definition set_closed (m : pullerCounters) (c : bool) : pullerCounters :=
  MkPullerCounters (m_err m) (m_writer m) (m_copyTotal m) (m_pullTotal m) (m_copyOrigin m)
    (m_copyNeeded m) (m_pullNeeded m) (m_updated m) c (m_available m) (m_availableUpdated m).

(** The loop that maps block hashes to the last index that has them. *)
Fixpoint blocks_map (idx : Z) (blocks : list BlockInfo) (m : gmap (list Z) Z) : gmap (list Z) Z :=
  match blocks with
  | [] => m
  | b :: blocks => blocks_map (idx + 1) blocks (<[bHash b := idx]> m)
  end.

(** [t], [t'] and [t''] are what the three calls of [time.Now] return. *)
Definition newSharedPullerState (file : FileInfo) (folderID tempName : string)
    (blocks : list BlockInfo) (reused : list Z) (ignorePerms hasCurFile : bool)
    (curFile : FileInfo) (sparse fsync : bool) (t t' t'' : Z) : sharedPullerState :=
  {| s_file := file; s_folder := folderID; s_tempName := tempName; s_realName := fName file;
     s_reused := Z.of_nat (length reused); s_ignorePerms := ignorePerms;
     s_hasCurFile := hasCurFile; s_curFile := curFile;
     s_curFileBlocks := blocks_map 0 (fBlocks curFile) ∅;
     s_sparse := sparse; s_created := t''; s_fsync := fsync;
     s_mut :=
       {| m_err := None; m_writer := false;
          m_copyTotal := Z.of_nat (length blocks); m_pullTotal := 0; m_copyOrigin := 0;
          m_copyNeeded := Z.of_nat (length blocks); m_pullNeeded := 0;
          m_updated := t; m_closed := false; m_available := reused;
          m_availableUpdated := t' |} |}.

(** ** Counters *)

Definition failLocked (s : sharedPullerState) (err : option error) : sharedPullerState :=
  match m_err (s_mut s), err with
  | Some _, _ | _, None => s
  | None, Some _ => with_mut s (set_err (s_mut s) err)
  end.
Definition fail (s : sharedPullerState) (err : option error) : sharedPullerState := failLocked s err.
Definition failed (s : sharedPullerState) : option error := m_err (s_mut s).

Definition block_index (s : sharedPullerState) (block : BlockInfo) : Z :=
  go_div (bOffset block) (FileInfo_BlockSize (s_file s)).

Definition copyDone (s : sharedPullerState) (block : BlockInfo) (t t' : Z) : sharedPullerState :=
  let m := s_mut s in
  with_mut s
    {| m_err := m_err m; m_writer := m_writer m; m_copyTotal := m_copyTotal m;
       m_pullTotal := m_pullTotal m; m_copyOrigin := m_copyOrigin m;
       m_copyNeeded := m_copyNeeded m - 1; m_pullNeeded := m_pullNeeded m;
       m_updated := t; m_closed := m_closed m;
       m_available := m_available m ++ [block_index s block]; m_availableUpdated := t' |}.

Definition count_origin (s : sharedPullerState) (t : Z) : sharedPullerState :=
  let m := s_mut s in
  with_mut s
    {| m_err := m_err m; m_writer := m_writer m; m_copyTotal := m_copyTotal m;
       m_pullTotal := m_pullTotal m; m_copyOrigin := m_copyOrigin m + 1;
       m_copyNeeded := m_copyNeeded m; m_pullNeeded := m_pullNeeded m;
       m_updated := t; m_closed := m_closed m;
       m_available := m_available m; m_availableUpdated := m_availableUpdated m |}.
Definition copiedFromOrigin := count_origin.
Definition skippedSparseBlock := count_origin.

Definition pullStarted (s : sharedPullerState) (t : Z) : sharedPullerState :=
  let m := s_mut s in
  with_mut s
    {| m_err := m_err m; m_writer := m_writer m; m_copyTotal := m_copyTotal m - 1;
       m_pullTotal := m_pullTotal m + 1; m_copyOrigin := m_copyOrigin m;
       m_copyNeeded := m_copyNeeded m - 1; m_pullNeeded := m_pullNeeded m + 1;
       m_updated := t; m_closed := m_closed m;
       m_available := m_available m; m_availableUpdated := m_availableUpdated m |}.

Definition pullDone (s : sharedPullerState) (block : BlockInfo) (t t' : Z) : sharedPullerState :=
  let m := s_mut s in
  with_mut s
    {| m_err := m_err m; m_writer := m_writer m; m_copyTotal := m_copyTotal m;
       m_pullTotal := m_pullTotal m; m_copyOrigin := m_copyOrigin m;
       m_copyNeeded := m_copyNeeded m; m_pullNeeded := m_pullNeeded m - 1;
       m_updated := t; m_closed := m_closed m;
       m_available := m_available m ++ [block_index s block]; m_availableUpdated := t' |}.

Definition Updated (s : sharedPullerState) : Z := m_updated (s_mut s).
Definition AvailableUpdated (s : sharedPullerState) : Z := m_availableUpdated (s_mut s).
Definition Available (s : sharedPullerState) : list Z := m_available (s_mut s).

(** [int64] arithmetic, without the wrap-around that file sizes do not reach. *)
Definition blocksToSize (blocks blocksInFile blockSize fileSize : Z) : Z :=
  if blocksInFile =? 0 then 0
  else blocks * blockSize -
       go_div ((blockSize - go_mod fileSize blockSize) * blocks) blocksInFile.

Record PullerProgress := MkPullerProgress {
  Total : Z; Reused : Z; CopiedFromOrigin : Z; CopiedFromElsewhere : Z;
  Pulled : Z; Pulling : Z; BytesDone : Z; BytesTotal : Z;
}.

Definition Progress (s : sharedPullerState) : PullerProgress :=
  let m := s_mut s in
  let total := s_reused s + m_copyTotal m + m_pullTotal m in
  let done := total - m_copyNeeded m - m_pullNeeded m in
  let file := Z.of_nat (length (fBlocks (s_file s))) in
  {| Total := total; Reused := s_reused s; CopiedFromOrigin := m_copyOrigin m;
     CopiedFromElsewhere := m_copyTotal m - m_copyNeeded m - m_copyOrigin m;
     Pulled := m_pullTotal m - m_pullNeeded m; Pulling := m_pullNeeded m;
     BytesTotal := blocksToSize total file (FileInfo_BlockSize (s_file s)) (fSize (s_file s));
     BytesDone := blocksToSize done file (FileInfo_BlockSize (s_file s)) (fSize (s_file s)) |}.

(** ** The temporary file *)

Definition wrap (msg : string) (e : error) : error :=
  MkError (msg +:+ e_msg e) (e_permission e) (e_notexist e).

(** A permission error is put down to the directory that stayed read-only. *)
Definition blame_parent (err : option error) : option error :=
  match err with
  | Some e =>
      if e_permission e
      then Some (wrap "error after failing to make parent directory writable: " e)
      else err
  | None => None
  end.

Section files.
Context {W : Type} `{Filesystem W} `{Protobuf}.

(** [fs.ModePerm | fs.ModeSetuid | fs.ModeSetgid | fs.ModeSticky] *)
Definition permBits : Z :=
  or_flags [511; Z.shiftl 1 23; Z.shiftl 1 22; Z.shiftl 1 20].

(** [inWritableDir] of [util.go].  The deferred [Chmod] runs after [fn]; its
    errors are logged. *)
Definition inWritableDir {S : Type} (fn : string → W → go (W * S * option error)) (dflt : S)
    (path : string) (w : W) : go (W * S * option error) :=
  let dir := filepath_Dir path in
  let '(w, st) := fs_Stat dir w in
  match st with
  | inl err => Ok (w, dflt, Some err)
  | inr (isDir, fullMode) =>
      if negb isDir then Ok (w, dflt, Some (MkError ("Not a directory: " +:+ path) false false))
      else
        let mode := Z.land fullMode permBits in
        if Z.land mode 128 =? 0 then
          let '(w, parentErr) := fs_Chmod dir (Z.lor mode 448) w in
          let! (w, s, err) := fn path w in
          match parentErr with
          | Some _ => Ok (w, s, blame_parent err)
          | None =>
              let '(w, _) := fs_Chmod dir mode w in
              Ok (w, s, err)
          end
        else fn path w
  end.

(** [int64(proto.Size(file.ToWire(false))) + 4] *)
Definition encryptionTrailerSize (file : FileInfo) : go Z :=
  let! w := FileInfo_ToWire file false in Ok (proto_Size w + 4).

(** Opening the file once the mode is settled; the result tells whether the
    writer was set. *)
Definition open_temp (s : sharedPullerState) (flags : list openFlag) (mode : Z) (w : W)
  : go (W * bool * option error) :=
  let '(w, openErr) := fs_OpenFile (s_tempName s) flags mode w in
  match openErr with
  | Some err => Ok (w, false, Some (wrap "opening temp file: " err))
  | None =>
      let w := fs_Hide (s_tempName s) w in
      if s_sparse s && negb (IsSymlink (s_file s)) then
        let! trailer :=
          if (0 <? length (fEncrypted (s_file s)))%nat
          then encryptionTrailerSize (s_file s) else Ok 0 in
        let size := fSize (s_file s) + trailer in
        let '(w, truncErr) := fd_Truncate size w in
        match truncErr with
        | Some err =>
            if 0 <? s_reused s then
              let '(w, _) := fd_Close w in
              let '(w, _) := fs_Remove (s_tempName s) w in
              Ok (w, false, Some err)
            else Ok (w, true, None)
        | None => Ok (w, true, None)
        end
      else Ok (w, true, None)
  end.

Definition tempFileInWritableDir (s : sharedPullerState) (_ : string) (w : W)
  : go (W * bool * option error) :=
  let mode := if s_ignorePerms s then 438 else Z.lor (fPermissions (s_file s)) 384 in
  if s_reused s =? 0 then open_temp s [OptReadWrite; OptCreate; OptExclusive] mode w
  else if negb (s_ignorePerms s) then
    let '(w, chmodErr) := fs_Chmod (s_tempName s) mode w in
    match chmodErr with
    | Some err => Ok (w, false, Some (wrap "setting perms on temp file: " err))
    | None => open_temp s [OptReadWrite] mode w
    end
  else open_temp s [OptReadWrite] mode w.

Definition addWriterLocked (s : sharedPullerState) (w : W)
  : go (W * sharedPullerState * option error) :=
  let! (w, writer, err) :=
    inWritableDir (tempFileInWritableDir s) false (s_tempName s) w in
  Ok (w, with_mut s (set_writer (s_mut s) (m_writer (s_mut s) || writer)), err).

Definition tempFile (s : sharedPullerState) (w : W)
  : go (W * sharedPullerState * option error) :=
  match m_err (s_mut s) with
  | Some err => Ok (w, s, Some err)
  | None =>
      if m_writer (s_mut s) then Ok (w, s, None)
      else
        let! (w, s, err) := addWriterLocked s w in
        match err with
        | Some _ => Ok (w, failLocked s err, err)
        | None => Ok (w, s, None)
        end
  end.

(** [lockedWriterAt.SyncClose] *)
Definition SyncClose (fsync : bool) (w : W) : W * option error :=
  if fsync then let '(w, _) := fd_Sync w in fd_Close w else fd_Close w.

Definition with_name (f : FileInfo) (n : string) : FileInfo :=
  MkFileInfo n (fSize f) (fModifiedS f) (fModifiedBy f) (fVersion f) (fSequence f) (fBlocks f)
    (fSymlinkTarget f) (fBlocksHash f) (fPreviousBlocksHash f) (fEncrypted f) (fPlatform f)
    (fType f) (fPermissions f) (fModifiedNs f) (fRawBlockSize f) (fLocalFlags f)
    (fEncryptionTrailerSize f) (fDeleted f) (fNoPermissions f) (ftruncated f).
Definition with_trailer (f : FileInfo) (size trailer : Z) : FileInfo :=
  MkFileInfo (fName f) size (fModifiedS f) (fModifiedBy f) (fVersion f) (fSequence f) (fBlocks f)
    (fSymlinkTarget f) (fBlocksHash f) (fPreviousBlocksHash f) (fEncrypted f) (fPlatform f)
    (fType f) (fPermissions f) (fModifiedNs f) (fRawBlockSize f) (fLocalFlags f)
    trailer (fDeleted f) (fNoPermissions f) (ftruncated f).

(** The marshalled record and its length in four bytes, written after the data. *)
Definition writeEncryptionTrailer (file : FileInfo) (w : W) : go (W * (error + Z)) :=
  let wireFile := with_name file (NormalizedFilename (fName file)) in
  let! trailerSize := encryptionTrailerSize wireFile in
  let! msg := FileInfo_ToWire wireFile false in
  match MarshalTo msg with
  | inl err => Ok (w, inl err)
  | inr bs =>
      let n := Z.of_nat (length bs) in
      if trailerSize <? n + 4 then Panic "index out of range"
      else
        let bs := bs ++ be_encode 4 (u32 n) in
        let '(w, err) := fd_WriteAt bs (fSize wireFile) w in
        match err with
        | Some err => Ok (w, inl err)
        | None => Ok (w, inr trailerSize)
        end
  end.

Definition finalizeEncrypted (s : sharedPullerState) (w : W)
  : go (W * sharedPullerState * option error) :=
  let! (w, r) := writeEncryptionTrailer (s_file s) w in
  match r with
  | inl err => Ok (w, s, Some err)
  | inr trailerSize =>
      Ok (w, with_file s (with_trailer (s_file s) (fSize (s_file s) + trailerSize) trailerSize), None)
  end.

(** The state keeps the first error. *)
Definition keep_first (s : sharedPullerState) (err : option error) : sharedPullerState :=
  match err, m_err (s_mut s) with
  | Some _, None => with_mut s (set_err (s_mut s) err)
  | _, _ => s
  end.

Definition close_writer (s : sharedPullerState) (w : W) : W * sharedPullerState :=
  if m_writer (s_mut s) then
    let '(w, err) := SyncClose (s_fsync s) w in
    let s := keep_first s err in
    (w, with_mut s (set_writer (s_mut s) false))
  else (w, s).

Definition finalClose (s : sharedPullerState) (w : W)
  : go (W * sharedPullerState * (bool * option error)) :=
  let m := s_mut s in
  if m_closed m then Ok (w, s, (false, None))
  else if negb (m_pullNeeded m + m_copyNeeded m =? 0) && bool_decide (m_err m = None)
  then Ok (w, s, (false, None))
  else
    let! (w, s, err) := if negb (m_writer m) then addWriterLocked s w else Ok (w, s, None) in
    match err with
    | Some err => Ok (w, s, (false, Some err))
    | None =>
        let! (w, s) :=
          if (0 <? length (fEncrypted (s_file s)))%nat then
            let! (w, s, err) := finalizeEncrypted s w in Ok (w, keep_first s err)
          else Ok (w, s) in
        let '(w, s) := close_writer s w in
        let s := with_mut s (set_closed (s_mut s) true) in
        let w := fs_Unhide (s_tempName s) w in
        Ok (w, s, (true, m_err (s_mut s)))
    end.
End files.

(** ** How the copier and the puller use the state *)

(** A block is copied, or handed over to be pulled and later pulled; at any time
    the job may fail. *)
Inductive event :=
  | EvCopied (b : BlockInfo) (t t' : Z)
  | EvOrigin (t : Z)
  | EvPullStarted (t : Z)
  | EvPulled (b : BlockInfo) (t t' : Z)
  | EvFailed (e : error).

Definition apply_event (s : sharedPullerState) (ev : event) : sharedPullerState :=
  match ev with
  | EvCopied b t t' => copyDone s b t t'
  | EvOrigin t => copiedFromOrigin s t
  | EvPullStarted t => pullStarted s t
  | EvPulled b t t' => pullDone s b t t'
  | EvFailed e => fail s (Some e)
  end.

Definition allowed (s : sharedPullerState) (ev : event) : Prop :=
  match ev with
  | EvCopied _ _ _ | EvPullStarted _ => 0 < m_copyNeeded (s_mut s)
  | EvPulled _ _ _ => 0 < m_pullNeeded (s_mut s)
  | _ => True
  end.

Inductive reach (s : sharedPullerState) : sharedPullerState → Prop :=
  | reach_refl : reach s s
  | reach_step s' ev : reach s s' → allowed s' ev → reach s (apply_event s' ev).

Lemma failLocked_counters s e :
  ∃ m, failLocked s e = with_mut s m ∧ m_copyTotal m = m_copyTotal (s_mut s) ∧
       m_pullTotal m = m_pullTotal (s_mut s) ∧ m_copyNeeded m = m_copyNeeded (s_mut s) ∧
       m_pullNeeded m = m_pullNeeded (s_mut s) ∧ m_available m = m_available (s_mut s) ∧
       m_closed m = m_closed (s_mut s) ∧ m_writer m = m_writer (s_mut s).
Proof.
  assert (s = with_mut s (s_mut s)) as Hs by by destruct s.
  unfold failLocked. destruct (m_err (s_mut s)), e.
  3: by eexists; split_and!.
  all: exists (s_mut s); by split_and!.
Qed.

(** The counters of a job of [n] blocks that reuses some. *)
Definition counters_ok (n : Z) (reused : list Z) (s : sharedPullerState) : Prop :=
  let m := s_mut s in
  s_reused s = Z.of_nat (length reused) ∧
  m_copyTotal m + m_pullTotal m = n ∧
  0 ≤ m_copyNeeded m ≤ m_copyTotal m ∧ 0 ≤ m_pullNeeded m ≤ m_pullTotal m ∧
  Z.of_nat (length (m_available m)) + m_copyNeeded m + m_pullNeeded m =
    Z.of_nat (length reused) + n ∧
  reused `prefix_of` m_available m.

Lemma counters_ok_step n reused s ev :
  counters_ok n reused s → allowed s ev → counters_ok n reused (apply_event s ev).
Proof.
  unfold counters_ok. intros (H1 & H2 & H3 & H4 & H5 & H6) Ha.
  destruct ev as [b t t'|t|t|b t t'|e]; cbn [apply_event].
  5: { unfold fail. destruct (failLocked_counters s (Some e))
         as (m & -> & E1 & E2 & E3 & E4 & E5 & _). simpl. by rewrite E1, E2, E3, E4, E5. }
  all: simpl in *; rewrite ?length_app; simpl; split_and!; done || lia || by apply prefix_app_r.
Qed.

Lemma available_step s ev : Available s `prefix_of` Available (apply_event s ev).
Proof.
  destruct ev as [b t t'|t|t|b t t'|e]; unfold Available; cbn [apply_event].
  5: { unfold fail.
       destruct (failLocked_counters s (Some e)) as (m & -> & _ & _ & _ & _ & E & _).
       simpl. by rewrite E. }
  all: simpl; done || by apply prefix_app_r.
Qed.

(** The list of available blocks only grows at its end. *)
Lemma available_prefix s s' : reach s s' → Available s `prefix_of` Available s'.
Proof.
  induction 1 as [|s' ev Hr IH Ha]; [done|]. etransitivity; [exact IH|apply available_step].
Qed.

(** However the copying and pulling of the blocks interleave, the progress
    report adds up: its total is the number of reused and wanted blocks and stays
    constant, every block is reused, copied, pulled, being pulled or still to do,
    the list of available blocks starts with the reused ones and has exactly as
    many entries as blocks are done, and the job has nothing left to do exactly
    when all of them are available. *)
Theorem puller_progress file folder temp blocks reused ip hc cur sp fsy t t' t'' s :
  reach (newSharedPullerState file folder temp blocks reused ip hc cur sp fsy t t' t'') s →
  let p := Progress s in let m := s_mut s in
  Total p = Z.of_nat (length reused + length blocks) ∧
  Total p = Reused p + (CopiedFromOrigin p + CopiedFromElsewhere p) + Pulled p + Pulling p
            + m_copyNeeded m ∧
  0 ≤ Pulling p ∧ 0 ≤ Pulled p ∧ 0 ≤ m_copyNeeded m ∧
  reused `prefix_of` Available s ∧
  Z.of_nat (length (Available s)) = Total p - m_copyNeeded m - Pulling p ∧
  (m_pullNeeded m + m_copyNeeded m = 0 ↔ Z.of_nat (length (Available s)) = Total p).
Proof.
  intros Hr. assert (counters_ok (Z.of_nat (length blocks)) reused s) as Hok.
  { induction Hr as [|s' ev Hr IH Ha]; [|by apply counters_ok_step].
    unfold counters_ok. simpl. split_and!; done || lia. }
  destruct Hok as (H1 & H2 & H3 & H4 & H5 & H6). unfold Available. simpl.
  rewrite H1. split_and!; done || lia.
Qed.

Definition sample_state : sharedPullerState :=
  newSharedPullerState sample_file "default" ".tmp" (fBlocks sample_file) [] false false
    sample_file true false 0 0 0.

Lemma puller_progress_witness :
  let s := apply_event (apply_event (apply_event sample_state (EvPullStarted 1))
             (EvCopied (MkBlockInfo [3; 4] 131072 131072) 2 2))
             (EvPulled (MkBlockInfo [1; 2] 0 131072) 3 3) in
  Total (Progress s) = 3 ∧ Available s = [1; 0].
Proof.
  intros s. split; [|reflexivity].
  assert (reach sample_state s) as Hr.
  { unfold s. repeat apply reach_step; [apply reach_refl|..]; vm_compute; reflexivity. }
  exact (proj1 (puller_progress _ _ _ _ _ _ _ _ _ _ _ _ _ _ Hr)).
Defined.

(** ** Estimating sizes *)

(** The size estimate for all blocks of a file is its size, unless the size
    is a multiple of the block size: then the last block is full, the remainder
    is zero, and the estimate is one block too small. *)
Theorem blocksToSize_whole blockSize fileSize :
  0 < blockSize → 0 < fileSize →
  let n := (fileSize + blockSize - 1) / blockSize in
  blocksToSize n n blockSize fileSize =
  if fileSize mod blockSize =? 0 then fileSize - blockSize else fileSize.
Proof.
  intros Hb Hf n. unfold blocksToSize.
  pose proof (Z.div_mod fileSize blockSize) as Hdm. pose proof (Z.mod_pos_bound fileSize blockSize Hb).
  assert (n = fileSize / blockSize + if fileSize mod blockSize =? 0 then 0 else 1) as Hn.
  { unfold n. destruct (Z.eqb_spec (fileSize mod blockSize) 0).
    - symmetry. apply (Z.div_unique _ _ _ (blockSize - 1)); lia.
    - symmetry. apply (Z.div_unique _ _ _ (fileSize mod blockSize - 1)); lia. }
  assert (0 < n) by (apply Z.div_str_pos; lia).
  destruct (Z.eqb_spec n 0); [lia|].
  rewrite (Z.rem_mod_nonneg fileSize) by lia. rewrite Z.quot_mul by lia.
  destruct (Z.eqb_spec (fileSize mod blockSize) 0); nia.
Qed.

Lemma blocksToSize_whole_witness : blocksToSize 2 2 131072 262144 = 131072.
Proof. exact (blocksToSize_whole 131072 262144 ltac:(lia) ltac:(lia)). Defined.

(** ** Closing *)

Section closing.
Context {W : Type} `{Filesystem W} `{Protobuf}.

Lemma addWriterLocked_inv s w w' s' err :
  addWriterLocked s w = Ok (w', s', err) →
  ∃ b, s' = with_mut s (set_writer (s_mut s) b).
Proof.
  unfold addWriterLocked. destruct (inWritableDir _ _ _ _) as [[[w1 b] e]| |]; [|done..].
  intros [= <- <- <-]. eauto.
Qed.

Lemma keep_first_inv s e : ∃ e', keep_first s e = with_mut s (set_err (s_mut s) e').
Proof.
  unfold keep_first. destruct e, (m_err (s_mut s)) eqn:E; eexists; try done;
    destruct s as [? ? ? ? ? ? ? ? ? ? ? ? [ ]]; simpl in *; by rewrite E.
Qed.

Lemma close_writer_inv s w w' s' :
  close_writer s w = (w', s') → m_writer (s_mut s') = false.
Proof.
  unfold close_writer. destruct (m_writer (s_mut s)) eqn:E.
  - destruct (SyncClose _ _) as [w1 e]. by intros [= <- <-].
  - by intros [= <- <-].
Qed.

Lemma closed_stays s s' :
  reach s s' → m_closed (s_mut s) = true → m_closed (s_mut s') = true.
Proof.
  induction 1 as [|s' ev Hr IH Ha]; [done|]. intros Hc. specialize (IH Hc).
  destruct ev as [b t t'|t|t|b t t'|e]; cbn [apply_event]; try done. unfold fail.
  destruct (failLocked_counters s' (Some e)) as (m & -> & _ & _ & _ & _ & _ & E & _).
  simpl. by rewrite E.
Qed.

(** A file is reported closed at most once: when [finalClose] says so, no
    block was pending or the job had failed, the temporary file is closed again,
    the error it returns is the recorded one, and whatever the other routines
    still do, every later call reports that there is nothing to finish. *)
Theorem finalClose_once s w w' s' err :
  finalClose s w = Ok (w', s', (true, err)) →
  (m_pullNeeded (s_mut s) + m_copyNeeded (s_mut s) = 0 ∨ m_err (s_mut s) ≠ None) ∧
  m_closed (s_mut s) = false ∧ m_closed (s_mut s') = true ∧
  m_writer (s_mut s') = false ∧ err = m_err (s_mut s') ∧
  ∀ s'' w'', reach s' s'' → finalClose s'' w'' = Ok (w'', s'', (false, None)).
Proof.
  unfold finalClose at 1. destruct (m_closed (s_mut s)) eqn:Ec; [done|].
  destruct (negb _ && _) eqn:Ep; [done|].
  destruct (if negb _ then _ else _) as [[[w1 s1] e1]| |]; [|done..]. cbn [mbind go_bind].
  destruct e1 as [e1|]; [done|].
  destruct (if (0 <? _)%nat then _ else _) as [[w2 s2]| |]; [|done..].
  cbn [mbind go_bind]. destruct (close_writer s2 w2) as [w3 s3] eqn:Ew. apply close_writer_inv in Ew.
  intros [= <- <- <-]. split_and!; try done.
  - apply andb_false_iff in Ep as [Ep|Ep]; zb; [by left|by right].
  - intros s'' w'' Hr. unfold finalClose. by rewrite (closed_stays _ _ Hr).
Qed.

(** A job whose temporary file cannot be created because its directory
    cannot be examined is never reported closed, whether it failed or not: every
    call of [finalClose] says that there is nothing to finish, so the routine that
    records errors and removes finished jobs from the queue skips it. *)
Theorem finalClose_stuck s w :
  (∀ w, ∃ w' e, fs_Stat (filepath_Dir (s_tempName s)) w = (w', inl e)) →
  m_writer (s_mut s) = false → m_closed (s_mut s) = false →
  ∃ w' s' err, finalClose s w = Ok (w', s', (false, err)) ∧
  m_writer (s_mut s') = false ∧ m_closed (s_mut s') = false ∧
  m_err (s_mut s') = m_err (s_mut s).
Proof.
  intros Hstat Hw Hc. unfold finalClose. rewrite Hc, Hw.
  destruct (negb _ && _); [by eexists _, _, _|]. cbn [negb].
  unfold addWriterLocked, inWritableDir. destruct (Hstat w) as (w' & e & ->). cbn.
  rewrite Hw. by eexists _, _, _.
Qed.
End closing.

(** A file system on which everything, or everything but [Stat], succeeds. *)
Definition plain_fs (stat : error + (bool * Z)) : Filesystem unit :=
  {| filepath_Dir := λ p, "."%string;
     fs_Stat := λ _ w, (w, stat);
     fs_Chmod := λ _ _ w, (w, None);
     fs_OpenFile := λ _ _ _ w, (w, None);
     fs_Remove := λ _ w, (w, None);
     fs_Hide := λ _ w, w;
     fs_Unhide := λ _ w, w;
     fd_Truncate := λ _ w, (w, None);
     fd_WriteAt := λ _ _ w, (w, None);
     fd_Sync := λ w, (w, None);
     fd_Close := λ w, (w, None) |}.
Definition plain_proto : Protobuf :=
  {| proto_Size := λ _, 2; MarshalTo := λ _, inr [1; 2]; NormalizedFilename := λ s, s |}.

Definition io_error : error := MkError "i/o error" false false.

Lemma finalClose_once_witness :
  let fs := plain_fs (inr (true, 493)) in
  let s := fail sample_state (Some io_error) in
  ∃ w' s', @finalClose unit fs plain_proto s tt = Ok (w', s', (true, Some io_error)) ∧
           m_writer (s_mut s') = false.
Proof.
  intros fs s.
  assert (∃ w' s', @finalClose unit fs plain_proto s tt = Ok (w', s', (true, Some io_error)))
    as (w' & s' & H) by (eexists _, _; vm_compute; reflexivity).
  exists w', s'. split; [exact H|].
  exact (proj1 (proj2 (proj2 (proj2 (@finalClose_once unit fs plain_proto s tt w' s' _ H))))).
Defined.

Lemma finalClose_stuck_witness :
  let fs := plain_fs (inl io_error) in
  let s := fail sample_state (Some io_error) in
  ∃ w' s' err, @finalClose unit fs plain_proto s tt = Ok (w', s', (false, err)) ∧
  m_writer (s_mut s') = false ∧ m_closed (s_mut s') = false ∧
  m_err (s_mut s') = m_err (s_mut s).
Proof.
  intros fs s. apply (@finalClose_stuck unit fs plain_proto s tt); [|reflexivity|reflexivity].
  intros w. exists w, io_error. reflexivity.
Defined.
