(* ===== verification/DownloadState.v ===== *)
(** * Download progress ([src/lib/model/sentdownloadstate.go],
      [devicedownloadstate.go], [src/lib/protocol/bep_download_progress.go])

    A device tells its peers which blocks of unfinished files it has.  The sender
    remembers what it has told and sends differences; the receiver applies them.
    The file proves that after every message the receiver knows exactly the
    available blocks. *)
From S2P Require Import Prelude GoLib Vector FileInfo PullerState.
From Stdlib Require String.

Local Open Scope Z_scope.

(** ** Messages *)

Definition FileDownloadProgressUpdateTypeAppend : Z := 0.
Definition FileDownloadProgressUpdateTypeForget : Z := 1.

Record FileDownloadProgressUpdate := MkUpdate {
  UpdateType : Z; Name : string; uVersion : Vector; BlockIndexes : list Z; uBlockSize : Z }.
Record DownloadProgress := MkDownloadProgress {
  Folder : string; Updates : list FileDownloadProgressUpdate }.

Record bepFileDownloadProgressUpdate := MkBepUpdate {
  buUpdateType : Z; buName : string; buVersion : option bepVector;
  buBlockIndexes : list Z; buBlockSize : Z }.
Record bepDownloadProgress := MkBepDownloadProgress {
  bdFolder : string; bdUpdates : list bepFileDownloadProgressUpdate }.

Definition update_toWire (f : FileDownloadProgressUpdate) : bepFileDownloadProgressUpdate :=
  {| buUpdateType := UpdateType f; buName := Name f; buVersion := Some (ToWire (uVersion f));
     buBlockIndexes := map i32 (BlockIndexes f); buBlockSize := i32 (uBlockSize f) |}.
Definition fileDownloadProgressUpdateFromWire (w : bepFileDownloadProgressUpdate)
  : FileDownloadProgressUpdate :=
  {| UpdateType := buUpdateType w; Name := buName w; uVersion := VectorFromWire (buVersion w);
     BlockIndexes := buBlockIndexes w; uBlockSize := buBlockSize w |}.
Definition progress_toWire (d : DownloadProgress) : bepDownloadProgress :=
  {| bdFolder := Folder d; bdUpdates := map update_toWire (Updates d) |}.
Definition downloadProgressFromWire (w : bepDownloadProgress) : DownloadProgress :=
  {| Folder := bdFolder w; Updates := map fileDownloadProgressUpdateFromWire (bdUpdates w) |}.

(** ** The sender *)

Record sentFolderFileDownloadState := MkSentFile {
  sf_blockIndexes : list Z; sf_version : Vector; sf_updated : Z; sf_created : Z;
  sf_blockSize : Z }.
Abbreviation sentFiles := (gmap string sentFolderFileDownloadState).

(** The body of the loop over the pullers: the files and the updates to send.
    [pullerBlockIndexes[n:]] panics when [n] is past the end. *)
Definition update_puller (files : sentFiles) (puller : sharedPullerState)
  : go (sentFiles * list FileDownloadProgressUpdate) :=
  let name := fName (s_file puller) in
  let pullerBlockIndexes := Available puller in
  let pullerVersion := fVersion (s_file puller) in
  let pullerBlockIndexesUpdated := AvailableUpdated puller in
  let pullerCreated := s_created puller in
  let pullerBlockSize := FileInfo_BlockSize (s_file puller) in
  let fresh := MkSentFile pullerBlockIndexes pullerVersion pullerBlockIndexesUpdated
                          pullerCreated pullerBlockSize in
  let append_all := MkUpdate FileDownloadProgressUpdateTypeAppend name pullerVersion
                             pullerBlockIndexes pullerBlockSize in
  match files !! name with
  | None =>
      if (0 <? length pullerBlockIndexes)%nat then Ok (<[name := fresh]> files, [append_all])
      else Ok (files, [])
  | Some localFile =>
      if (pullerBlockIndexesUpdated =? sf_updated localFile) &&
         Vector_Equal pullerVersion (sf_version localFile)
      then Ok (files, [])
      else if negb (Vector_Equal pullerVersion (sf_version localFile)) ||
              negb (pullerCreated =? sf_created localFile)
      then
        Ok (<[name := fresh]> files,
            [MkUpdate FileDownloadProgressUpdateTypeForget name (sf_version localFile) [] 0;
             append_all])
      else if (length pullerBlockIndexes <? length (sf_blockIndexes localFile))%nat
      then Panic "slice bounds out of range"
      else
        let newBlocks := drop (length (sf_blockIndexes localFile)) pullerBlockIndexes in
        let localFile' :=
          MkSentFile (sf_blockIndexes localFile ++ newBlocks) (sf_version localFile)
                     pullerBlockIndexesUpdated (sf_created localFile) (sf_blockSize localFile) in
        Ok (<[name := localFile']> files,
            if (0 <? length newBlocks)%nat
            then [MkUpdate FileDownloadProgressUpdateTypeAppend name (sf_version localFile)
                           newBlocks pullerBlockSize]
            else [])
  end.

Fixpoint update_pullers (files : sentFiles) (pullers : list sharedPullerState)
  : go (sentFiles * list FileDownloadProgressUpdate) :=
  match pullers with
  | [] => Ok (files, [])
  | p :: pullers =>
      let! (files, us) := update_puller files p in
      let! (files, us') := update_pullers files pullers in
      Ok (files, us ++ us')
  end.

(** The loop over the tracked files, in some order of their names. *)
Fixpoint forget_unseen (files : sentFiles) (seen : list string) (order : list string)
  : sentFiles * list FileDownloadProgressUpdate :=
  match order with
  | [] => (files, [])
  | name :: order =>
      if bool_decide (name ∈ seen) then forget_unseen files seen order
      else
        match files !! name with
        | None => forget_unseen files seen order
        | Some info =>
            let '(files, us) := forget_unseen (delete name files) seen order in
            (files, MkUpdate FileDownloadProgressUpdateTypeForget name (sf_version info) [] 0 :: us)
        end
  end.

Section ranging.
(** The order in which [range] visits the keys of a map is unspecified. *)
Variable range : ∀ {A}, gmap string A → list string.

Definition update (files : sentFiles) (pullers : list sharedPullerState)
  : go (sentFiles * list FileDownloadProgressUpdate) :=
  let! (files, updates) := update_pullers files pullers in
  let seen := map (λ p, fName (s_file p)) pullers in
  let '(files, us) := forget_unseen files seen (range files) in
  Ok (files, updates ++ us).

Definition destroy (files : sentFiles) : sentFiles * list FileDownloadProgressUpdate :=
  forget_unseen files [] (range files).

(** [sentDownloadState]: the files per folder. *)
Definition sentDownloadState := gmap string sentFiles.

Definition sent_update (s : sentDownloadState) (folder : string) (pullers : list sharedPullerState)
  : go (sentDownloadState * list FileDownloadProgressUpdate) :=
  let fs := default ∅ (s !! folder) in
  let! (fs, us) := update fs pullers in
  Ok (<[folder := fs]> s, us).
Definition folders (s : sentDownloadState) : list string := range s.
Definition cleanup (s : sentDownloadState) (folder : string)
  : sentDownloadState * list FileDownloadProgressUpdate :=
  match s !! folder with
  | Some fs => let '(_, us) := destroy fs in (delete folder s, us)
  | None => (s, [])
  end.
End ranging.

(** ** The receiver *)

Record deviceFolderFileDownloadState := MkDeviceFile {
  df_blockIndexes : list Z; df_version : Vector; df_blockSize : Z }.
Abbreviation deviceFiles := (gmap string deviceFolderFileDownloadState).

Definition Has (files : deviceFiles) (file : string) (version : Vector) (index : Z) : bool :=
  match files !! file with
  | None => false
  | Some local =>
      if negb (Vector_Equal (df_version local) version) then false
      else bool_decide (index ∈ df_blockIndexes local)
  end.

(** The body of the loop of [Update]. *)
Definition receive (files : deviceFiles) (u : FileDownloadProgressUpdate) : deviceFiles :=
  let local := files !! Name u in
  let same := match local with Some l => Vector_Equal (df_version l) (uVersion u) | None => false end in
  if (UpdateType u =? FileDownloadProgressUpdateTypeForget) && same then delete (Name u) files
  else if UpdateType u =? FileDownloadProgressUpdateTypeAppend then
    let local' :=
      match local with
      | None => MkDeviceFile (BlockIndexes u) (uVersion u) (uBlockSize u)
      | Some l =>
          if negb same then MkDeviceFile (BlockIndexes u) (uVersion u) (uBlockSize u)
          else MkDeviceFile (df_blockIndexes l ++ BlockIndexes u) (df_version l) (df_blockSize l)
      end in
    <[Name u := local']> files
  else files.

Definition folder_Update (files : deviceFiles) (updates : list FileDownloadProgressUpdate)
  : deviceFiles := fold_left receive updates files.

Definition file_bytes (f : deviceFolderFileDownloadState) : Z :=
  if negb (df_blockSize f =? 0) then Z.of_nat (length (df_blockIndexes f)) * df_blockSize f
  else Z.of_nat (length (df_blockIndexes f)) * MinBlockSize.
(** [int64] sums do not depend on the order; the model leaves out the
    wrap-around. *)
Definition BytesDownloaded (files : deviceFiles) : Z :=
  map_fold (λ _ f acc, acc + file_bytes f) 0 files.
Definition GetBlockCounts (files : deviceFiles) : gmap string Z :=
  (λ f, Z.of_nat (length (df_blockIndexes f))) <$> files.

(** [deviceDownloadState]; a nil pointer is [None]. *)
Definition deviceDownloadState := option (gmap string deviceFiles).

Definition newDeviceDownloadState : deviceDownloadState := Some ∅.
Definition device_Update (t : deviceDownloadState) (folder : string)
    (updates : list FileDownloadProgressUpdate) : deviceDownloadState :=
  match t with
  | None => None
  | Some folders =>
      let f := default ∅ (folders !! folder) in
      Some (<[folder := folder_Update f updates]> folders)
  end.
Definition device_Has (t : deviceDownloadState) (folder file : string) (version : Vector)
    (index : Z) : bool :=
  match t with
  | None => false
  | Some folders =>
      match folders !! folder with None => false | Some f => Has f file version index end
  end.
Definition device_GetBlockCounts (t : deviceDownloadState) (folder : string)
  : option (gmap string Z) :=
  match t with
  | None => None
  | Some folders => match folders !! folder with None => None | Some f => Some (GetBlockCounts f) end
  end.
Definition device_BytesDownloaded (t : deviceDownloadState) (folder : string) : Z :=
  match t with
  | None => 0
  | Some folders => match folders !! folder with None => 0 | Some f => BytesDownloaded f end
  end.

(** ** The receiver mirrors the sender *)

Definition mirrors (s : sentFolderFileDownloadState) (r : deviceFolderFileDownloadState) : Prop :=
  df_blockIndexes r = sf_blockIndexes s ∧ df_version r = sf_version s ∧
  df_blockSize r = sf_blockSize s ∧ vector_wf (sf_version s).

(** The receiver holds exactly what the sender remembers to have told it. *)
Definition synced (S : sentFiles) (R : deviceFiles) : Prop :=
  ∀ name, match S !! name, R !! name with
          | Some s, Some r => mirrors s r
          | None, None => True
          | _, _ => False
          end.

Lemma synced_insert S R name s r :
  synced S R → mirrors s r → synced (<[name := s]> S) (<[name := r]> R).
Proof.
  intros H Hm n. destruct (decide (n = name)) as [->|Hne].
  - by rewrite !lookup_insert_eq.
  - rewrite !lookup_insert_ne by done. apply H.
Qed.

Lemma synced_delete S R name : synced S R → synced (delete name S) (delete name R).
Proof.
  intros H n. destruct (decide (n = name)) as [->|Hne].
  - by rewrite !lookup_delete_eq.
  - rewrite !lookup_delete_ne by done. apply H.
Qed.

Lemma folder_Update_app R us us' :
  folder_Update R (us ++ us') = folder_Update (folder_Update R us) us'.
Proof. apply fold_left_app. Qed.

Lemma receive_forget S R name s :
  synced S R → S !! name = Some s →
  receive R (MkUpdate FileDownloadProgressUpdateTypeForget name (sf_version s) [] 0) =
  delete name R.
Proof.
  intros H Hs. specialize (H name). rewrite Hs in H. unfold receive. simpl.
  destruct (R !! name) as [r|]; [|done]. destruct H as (_ & -> & _ & Hwf).
  by rewrite Vector_Equal_refl.
Qed.

Lemma receive_new R name v bs sz :
  R !! name = None →
  receive R (MkUpdate FileDownloadProgressUpdateTypeAppend name v bs sz) =
  <[name := MkDeviceFile bs v sz]> R.
Proof. intros H. unfold receive. simpl. by rewrite H. Qed.

Lemma receive_more R name r bs sz :
  R !! name = Some r → vector_wf (df_version r) →
  receive R (MkUpdate FileDownloadProgressUpdateTypeAppend name (df_version r) bs sz) =
  <[name := MkDeviceFile (df_blockIndexes r ++ bs) (df_version r) (df_blockSize r)]> R.
Proof. intros H Hwf. unfold receive. simpl. rewrite H. by rewrite Vector_Equal_refl. Qed.

Definition pname (p : sharedPullerState) : string := fName (s_file p).
Definition pversion (p : sharedPullerState) : Vector := fVersion (s_file p).

(** What the sender relies on between two messages: as long as version and
    creation time of the pull are those it remembers, the list of available blocks
    has only grown at its end; and while the time of its last change is the
    remembered one, it has not changed.  [available_prefix] is the former. *)
Definition tracks (S : sentFiles) (p : sharedPullerState) : Prop :=
  ∀ s, S !! pname p = Some s → Vector_Equal (pversion p) (sf_version s) = true →
  (s_created p = sf_created s → sf_blockIndexes s `prefix_of` Available p) ∧
  (AvailableUpdated p = sf_updated s → Available p = sf_blockIndexes s).

(** The sender remembers the current blocks of a pull. *)
Definition current (S : sentFiles) (p : sharedPullerState) : Prop :=
  match S !! pname p with
  | Some s => sf_blockIndexes s = Available p ∧ Vector_Equal (pversion p) (sf_version s) = true
  | None => Available p = []
  end.

Definition fresh_entry (p : sharedPullerState) : sentFolderFileDownloadState :=
  MkSentFile (Available p) (pversion p) (AvailableUpdated p) (s_created p)
             (FileInfo_BlockSize (s_file p)).
Definition append_all (p : sharedPullerState) : FileDownloadProgressUpdate :=
  MkUpdate FileDownloadProgressUpdateTypeAppend (pname p) (pversion p) (Available p)
           (FileInfo_BlockSize (s_file p)).

Lemma fresh_synced S R p :
  synced (delete (pname p) S) R → R !! pname p = None → vector_wf (pversion p) →
  synced (<[pname p := fresh_entry p]> S) (receive R (append_all p)).
Proof.
  intros HS HR Hwf. unfold append_all. rewrite receive_new by done.
  rewrite <- insert_delete_eq. by apply synced_insert.
Qed.

(** What one pass of the loop establishes. *)
Definition pass_ok (S : sentFiles) (R : deviceFiles) (p : sharedPullerState)
    (S' : sentFiles) (us : list FileDownloadProgressUpdate) : Prop :=
  synced S' (folder_Update R us) ∧ current S' p ∧ ∀ n, n ≠ pname p → S' !! n = S !! n.

Lemma fresh_pass S R p us :
  vector_wf (pversion p) →
  synced (<[pname p := fresh_entry p]> S) (folder_Update R us) →
  pass_ok S R p (<[pname p := fresh_entry p]> S) us.
Proof.
  intros Hwf HS. split; [done|]. split.
  - unfold current. rewrite lookup_insert_eq. split; [done|]. by apply Vector_Equal_refl.
  - intros n Hn. by rewrite lookup_insert_ne.
Qed.

(** The file is known and its list of blocks has grown. *)
Lemma grown_pass S R p s k sz :
  synced S R → S !! pname p = Some s → Available p = sf_blockIndexes s ++ k →
  Vector_Equal (pversion p) (sf_version s) = true →
  pass_ok S R p
    (<[pname p := MkSentFile (sf_blockIndexes s ++ k) (sf_version s) (AvailableUpdated p)
                             (sf_created s) (sf_blockSize s)]> S)
    (if (0 <? length k)%nat
     then [MkUpdate FileDownloadProgressUpdateTypeAppend (pname p) (sf_version s) k sz]
     else []).
Proof.
  intros HS Hs Hk Hv. pose proof (HS (pname p)) as Hp. rewrite Hs in Hp.
  destruct (R !! pname p) as [r|] eqn:Er; [|done]. destruct Hp as (Hb & Hrv & Hsz & Hwf).
  split; [|split].
  - destruct (Nat.ltb_spec 0 (length k)).
    + cbn [folder_Update fold_left]. rewrite <- Hrv, (receive_more R (pname p) r) by congruence.
      apply synced_insert; [done|]. unfold mirrors. simpl. rewrite Hb, Hsz, Hrv. done.
    + destruct k; [|simpl in *; lia]. cbn [folder_Update fold_left].
      rewrite <- (insert_id R (pname p) r) by done. apply synced_insert; [done|].
      unfold mirrors. simpl. by rewrite app_nil_r.
  - unfold current. rewrite lookup_insert_eq. done.
  - intros n Hn. by rewrite lookup_insert_ne.
Qed.

Lemma update_puller_synced S R p :
  synced S R → vector_wf (pversion p) → tracks S p →
  ∃ S' us, update_puller S p = Ok (S', us) ∧ pass_ok S R p S' us.
Proof.
  intros HS Hwf Ht. unfold update_puller. fold (pname p) (pversion p).
  fold (fresh_entry p) (append_all p). pose proof (HS (pname p)) as Hp.
  destruct (S !! pname p) as [s|] eqn:Es.
  - specialize (Ht s Es).
    destruct (Vector_Equal (pversion p) (sf_version s)) eqn:Ev.
    + destruct (Ht eq_refl) as [Hgrow Hsame].
      destruct (Z.eqb_spec (AvailableUpdated p) (sf_updated s)) as [Eu|]; cbn [andb orb negb].
      { eexists _, _. split; [done|]. split; [done|]. split; [|done].
        unfold current. rewrite Es. by rewrite Hsame. }
      destruct (Z.eqb_spec (s_created p) (sf_created s)) as [Ec|]; cbn [negb].
      * destruct (Hgrow Ec) as [k Hk]. rewrite Hk, length_app.
        destruct (Nat.ltb_spec (length (sf_blockIndexes s) + length k) (length (sf_blockIndexes s)));
          [lia|]. rewrite drop_app_length.
        eexists _, _. split; [done|]. by apply grown_pass.
      * eexists _, _. split; [done|]. apply fresh_pass; [done|]. cbn [folder_Update fold_left].
        rewrite (receive_forget S) by done.
        apply fresh_synced; [by apply synced_delete|by rewrite lookup_delete_eq|done].
    + rewrite andb_false_r. cbn [negb orb].
      eexists _, _. split; [done|]. apply fresh_pass; [done|]. cbn [folder_Update fold_left].
      rewrite (receive_forget S) by done.
      apply fresh_synced; [by apply synced_delete|by rewrite lookup_delete_eq|done].
  - destruct (R !! pname p) eqn:Er; [done|]. destruct (Nat.ltb_spec 0 (length (Available p))).
    + eexists _, _. split; [done|]. apply fresh_pass; [done|]. cbn [folder_Update fold_left].
      apply fresh_synced; [by rewrite delete_id|done|done].
    + eexists _, _. split; [done|]. split; [done|]. split; [|done].
      unfold current. rewrite Es. destruct (Available p); [done|simpl in *; lia].
Qed.

Lemma update_pullers_synced S R ps :
  synced S R → NoDup (map pname ps) →
  (∀ p, p ∈ ps → vector_wf (pversion p) ∧ tracks S p) →
  ∃ S' us, update_pullers S ps = Ok (S', us) ∧ synced S' (folder_Update R us) ∧
  (∀ p, p ∈ ps → current S' p) ∧ (∀ n, n ∉ map pname ps → S' !! n = S !! n).
Proof.
  revert S R. induction ps as [|p ps IH]; intros S R HS Hnd Hps; cbn [update_pullers].
  { eexists _, _. split_and!; [done|done|set_solver|done]. }
  cbn [map] in Hnd. apply NoDup_cons in Hnd as [Hnin Hnd].
  destruct (Hps p) as [Hwf Ht]; [set_solver|].
  destruct (update_puller_synced S R p HS Hwf Ht) as (S1 & us1 & -> & HS1 & Hc1 & Ho1).
  cbn [mbind go_bind].
  destruct (IH S1 (folder_Update R us1) HS1 Hnd) as (S2 & us2 & -> & HS2 & Hc2 & Ho2).
  { intros q Hq. destruct (Hps q) as [Hwq Htq]; [set_solver|]. split; [done|].
    intros s Hs. apply Htq. rewrite <- Ho1; [done|]. intros E. apply Hnin. rewrite <- E.
    by apply list_elem_of_fmap_2. }
  cbn [mbind go_bind]. eexists _, _. split; [done|]. rewrite folder_Update_app.
  split; [done|]. split.
  - intros q [->|Hq]%elem_of_cons; [|by apply Hc2]. unfold current. by rewrite Ho2.
  - cbn [map]. intros n Hn. apply not_elem_of_cons in Hn as [Hn Hn'].
    by rewrite Ho2, Ho1.
Qed.

Lemma forget_unseen_synced S R seen order S' us :
  synced S R → forget_unseen S seen order = (S', us) →
  synced S' (folder_Update R us) ∧
  ∀ n, S' !! n = if decide (n ∈ order ∧ n ∉ seen) then None else S !! n.
Proof.
  revert S R S' us. induction order as [|name order IH]; intros S R S' us HS; cbn [forget_unseen].
  { intros [= <- <-]. split; [done|]. intros n. rewrite decide_False; [done|]. set_solver. }
  case_bool_decide as Hseen.
  { intros E. destruct (IH _ _ _ _ HS E) as [H1 H2]. split; [done|]. intros n. rewrite H2.
    repeat case_decide; set_solver. }
  destruct (S !! name) as [info|] eqn:Ei.
  - destruct (forget_unseen (delete name S) seen order) as [S1 us1] eqn:E1. intros [= <- <-].
    cbn [folder_Update fold_left]. rewrite (receive_forget S) by done.
    destruct (IH _ _ _ _ (synced_delete _ _ name HS) E1) as [H1 H2]. split; [done|].
    intros n. rewrite H2. destruct (decide (n = name)) as [->|Hne].
    + rewrite lookup_delete_eq. repeat case_decide; set_solver.
    + rewrite lookup_delete_ne by done. repeat case_decide; set_solver.
  - intros E. destruct (IH _ _ _ _ HS E) as [H1 H2]. split; [done|]. intros n. rewrite H2.
    destruct (decide (n = name)) as [->|]; repeat case_decide; try done; set_solver.
Qed.

(** [range] visits every key. *)
Definition visits_all (range : ∀ A, gmap string A → list string) : Prop :=
  ∀ A (m : gmap string A) k, k ∈ range A m ↔ is_Some (m !! k).

(** C13.  A receiver that holds what the sender remembers to have told holds, after
    the sender's next message, exactly the blocks that are available: the sender
    does not panic, the two stay in step, and [Has] answers yes precisely for the
    blocks of the running pulls with an equal version.  This needs that pulls have
    different names and that the lists of available blocks only grow, and holds
    for every order in which maps are visited. *)
Theorem progress_synchronised range S R ps :
  visits_all range → synced S R → NoDup (map pname ps) →
  (∀ p, p ∈ ps → vector_wf (pversion p) ∧ tracks S p) →
  ∃ S' us, update range S ps = Ok (S', us) ∧ synced S' (folder_Update R us) ∧
  ∀ file v idx, vector_wf v →
  Has (folder_Update R us) file v idx = true ↔
  ∃ p, p ∈ ps ∧ pname p = file ∧ Vector_Equal (pversion p) v = true ∧ idx ∈ Available p.
Proof.
  intros Hrange HS Hnd Hps. unfold update.
  destruct (update_pullers_synced S R ps HS Hnd Hps) as (S1 & us1 & -> & HS1 & Hc1 & Ho1).
  cbn [mbind go_bind]. change (map (λ p, fName (s_file p)) ps) with (map pname ps).
  destruct (forget_unseen _ _ _) as [S2 us2] eqn:E2.
  destruct (forget_unseen_synced _ _ _ _ _ _ HS1 E2) as [HS2 Hl2].
  eexists _, _. split; [done|]. rewrite folder_Update_app. split; [done|].
  set (R2 := folder_Update _ us2) in *. intros file v idx Hv. unfold Has.
  pose proof (HS2 file) as Hf.
  assert (∀ p q, p ∈ ps → q ∈ ps → pname p = pname q → p = q) as Hinj.
  { intros p q [i Hi]%list_elem_of_lookup_1 [j Hj]%list_elem_of_lookup_1 E.
    assert (i = j) as ->; [|congruence]. eapply NoDup_lookup; [exact Hnd| |].
    - change (map pname ps) with (pname <$> ps). by rewrite list_lookup_fmap, Hi.
    - change (map pname ps) with (pname <$> ps). by rewrite list_lookup_fmap, Hj, E. }
  rewrite Hl2 in Hf. destruct (decide (file ∈ map pname ps)) as [Hin|Hnin].
  - apply list_elem_of_fmap in Hin as (p & -> & Hp). rewrite decide_False in Hf by
      (intros [_ Hn]; apply Hn; by apply list_elem_of_fmap_2).
    pose proof (Hc1 p Hp) as Hc. unfold current in Hc. destruct (Hps p Hp) as [Hpw _].
    destruct (S1 !! pname p) as [s|] eqn:Es, (R2 !! pname p) as [r|] eqn:Er; try done.
    + destruct Hf as (Hb & Hrv & _ & Hwf). destruct Hc as [Hcb Hcv].
      rewrite Hrv, Hb, Hcb. split.
      * destruct (Vector_Equal (sf_version s) v) eqn:Ev; [|done]. simpl. intros Hi.
        apply bool_decide_eq_true in Hi. exists p. split_and!; [done|done| |done].
        by eapply (Vector_Equal_trans _ (sf_version s)).
      * intros (q & Hq & En & Ev & Hi). rewrite (Hinj q p) in Ev, Hi by done.
        assert (Vector_Equal (sf_version s) v = true) as ->.
        { eapply (Vector_Equal_trans _ (pversion p)); try done. by apply Vector_Equal_sym. }
        simpl. by apply bool_decide_eq_true.
    + split; [done|]. intros (q & Hq & En & Ev & Hi). rewrite (Hinj q p), Hc in Hi by done.
      set_solver.
  - assert (R2 !! file = None) as ->.
    { destruct (decide (file ∈ range _ S1)) as [Hr|Hr].
      - rewrite decide_True in Hf by done. by destruct (R2 !! file).
      - rewrite decide_False in Hf by tauto.
        destruct (S1 !! file) eqn:E; [destruct Hr; apply Hrange; rewrite E; eauto|]. by destruct (R2 !! file). }
    split; [done|]. intros (q & Hq & <- & _). destruct Hnin. by apply list_elem_of_fmap_2.
Qed.

Definition map_keys : ∀ A, gmap string A → list string := λ A m, (map_to_list m).*1.

Lemma map_keys_all : visits_all map_keys.
Proof.
  intros A m k. unfold map_keys. rewrite list_elem_of_fmap. split.
  - intros ([k' x] & -> & Hx). apply elem_of_map_to_list in Hx. simpl. eauto.
  - intros [x Hx]. exists (k, x). by rewrite elem_of_map_to_list.
Qed.

Lemma progress_synchronised_witness :
  let p := apply_event sample_state (EvCopied (MkBlockInfo [3; 4] 131072 131072) 2 2) in
  ∃ S' us, update map_keys ∅ [p] = Ok (S', us) ∧
  Has (folder_Update ∅ us) "a/b.txt" v12 1 = true.
Proof.
  intros p.
  destruct (progress_synchronised map_keys ∅ ∅ [p] map_keys_all) as (S' & us & Hu & _ & Hh).
  - intros n. by rewrite !lookup_empty.
  - apply NoDup_singleton.
  - intros q ->%list_elem_of_singleton. split; [exact v12_wf|]. intros s Hs.
    by rewrite lookup_empty in Hs.
  - exists S', us. split; [exact Hu|]. apply Hh; [exact v12_wf|].
    exists p. split; [by apply list_elem_of_singleton|]. split; [reflexivity|].
    split; [exact (Vector_Equal_refl v12 v12_wf)|]. vm_compute. left.
Defined.

(** A progress message arrives as it was sent, when its block indexes and
    block sizes fit the 32 bits of their wire form. *)
Theorem DownloadProgress_roundtrip d :
  Forall (λ u, Forall in_i32 (BlockIndexes u) ∧ in_i32 (uBlockSize u)) (Updates d) →
  downloadProgressFromWire (progress_toWire d) = d.
Proof.
  destruct d as [f us]. unfold downloadProgressFromWire, progress_toWire. simpl.
  intros H. f_equal. rewrite map_map.
  induction H as [|[t n v bs sz] us [Hb Hs] Hus IH]; simpl; [done|]. rewrite IH. f_equal.
  unfold fileDownloadProgressUpdateFromWire, update_toWire.
  cbn [buUpdateType buName buVersion buBlockIndexes buBlockSize UpdateType Name uVersion
       BlockIndexes uBlockSize] in *.
  rewrite vector_wire_roundtrip, (i32_id sz) by done. f_equal.
  clear -Hb. induction Hb as [|b bs Hb Hbs IH]; simpl; [done|]. by rewrite i32_id, IH.
Qed.

Lemma DownloadProgress_roundtrip_witness :
  let d := MkDownloadProgress "f" [MkUpdate 0 "a" v12 [0; 5] 131072] in
  downloadProgressFromWire (progress_toWire d) = d.
Proof.
  intros d. apply DownloadProgress_roundtrip.
  repeat constructor; unfold in_i32; simpl; lia.
Defined.
