(* ===== verification/Messages.v ===== *)
(** * The messages of the protocol ([src/lib/protocol/bep_*.go], [errors.go])

    The internal form of the messages two devices exchange, the form of the
    generated wire package, and the conversions between them.  File records are
    those of [FileInfo], download progress is in [DownloadState]. *)
From S2P Require Import Prelude GoLib Vector Platform FileInfo DeviceID DownloadState.
From Stdlib Require String.

Local Open Scope Z_scope.

(** ** Index messages ([bep_index_updates.go]) *)

(** [protocol.Index] and [protocol.IndexUpdate] without the folder. *)
Inductive message :=
  | Index (fs : list FileInfo) (LastSequence : Z)
  | IndexUpdate (fs : list FileInfo) (PrevSequence LastSequence : Z).

Definition LastSequence (m : message) : Z :=
  match m with Index _ l => l | IndexUpdate _ _ l => l end.
Definition message_files (m : message) : list FileInfo :=
  match m with Index fs _ => fs | IndexUpdate fs _ _ => fs end.

Fixpoint files_toWire (fs : list FileInfo) : go (list bepFileInfo) :=
  match fs with
  | [] => Ok []
  | f :: fs =>
      let! w := FileInfo_ToWire f false in
      let! ws := files_toWire fs in
      Ok (w :: ws)
  end.

Inductive bepMessage :=
  | bepIndex (files : list bepFileInfo) (LastSequence : Z)
  | bepIndexUpdate (files : list bepFileInfo) (LastSequence PrevSequence : Z).

Definition toWire (m : message) : go bepMessage :=
  match m with
  | Index fs l => let! ws := files_toWire fs in Ok (bepIndex ws l)
  | IndexUpdate fs p l => let! ws := files_toWire fs in Ok (bepIndexUpdate ws l p)
  end.

Definition fromWire (w : bepMessage) : message :=
  match w with
  | bepIndex ws l => Index (map FileInfoFromWire ws) l
  | bepIndexUpdate ws l p => IndexUpdate (map FileInfoFromWire ws) p l
  end.

(** ** Requests and responses ([bep_request_response.go], [errors.go]) *)

Definition ErrorCodeNoError : Z := 0.
Definition ErrorCodeGeneric : Z := 1.
Definition ErrorCodeNoSuchFile : Z := 2.
Definition ErrorCodeInvalidFile : Z := 3.

(** The errors that have a code of their own, and all others. *)
Inductive protoError := ErrNoSuchFile | ErrInvalid | ErrGeneric.

#[export] Instance protoError_eq_dec : EqDecision protoError.
Proof. solve_decision. Defined.

Definition codeToError (code : Z) : option protoError :=
  if code =? ErrorCodeNoError then None
  else if code =? ErrorCodeNoSuchFile then Some ErrNoSuchFile
  else if code =? ErrorCodeInvalidFile then Some ErrInvalid
  else Some ErrGeneric.

Definition errorToCode (err : option protoError) : Z :=
  match err with
  | None => ErrorCodeNoError
  | Some ErrNoSuchFile => ErrorCodeNoSuchFile
  | Some ErrInvalid => ErrorCodeInvalidFile
  | Some ErrGeneric => ErrorCodeGeneric
  end.

Record Request := MkRequest {
  rqID : Z; rqFolder : string; rqName : string; rqOffset : Z; rqSize : Z; rqHash : list Z;
  rqFromTemporary : bool; rqBlockNo : Z }.
Record bepRequest := MkBepRequest {
  wrqId : Z; wrqFolder : string; wrqName : string; wrqOffset : Z; wrqSize : Z; wrqHash : list Z;
  wrqFromTemporary : bool; wrqBlockNo : Z }.

Definition request_toWire (r : Request) : bepRequest :=
  MkBepRequest (i32 (rqID r)) (rqFolder r) (rqName r) (rqOffset r) (i32 (rqSize r)) (rqHash r)
    (rqFromTemporary r) (i32 (rqBlockNo r)).
Definition requestFromWire (w : bepRequest) : Request :=
  MkRequest (wrqId w) (wrqFolder w) (wrqName w) (wrqOffset w) (wrqSize w) (wrqHash w)
    (wrqFromTemporary w) (wrqBlockNo w).

Record Response := MkResponse { rsID : Z; rsData : list Z; rsCode : Z }.
Record bepResponse := MkBepResponse { wrsId : Z; wrsData : list Z; wrsCode : Z }.

Definition response_toWire (r : Response) : bepResponse :=
  MkBepResponse (i32 (rsID r)) (rsData r) (rsCode r).
Definition responseFromWire (w : bepResponse) : Response :=
  MkResponse (wrsId w) (wrsData w) (wrsCode w).

(** ** Cluster configurations ([bep_clusterconfig.go]) *)

Definition FolderStopReasonRunning : Z := 0.
Definition FolderStopReasonPaused : Z := 1.

Record Device := MkDevice {
  dID : list Z; dName : string; dAddresses : list string; dCompression : Z; dCertName : string;
  dMaxSequence : Z; dIntroducer : bool; dIndexID : Z; dSkipIntroductionRemovals : bool;
  dEncryptionPasswordToken : list Z }.
Record bepDevice := MkBepDevice {
  wdId : list Z; wdName : string; wdAddresses : list string; wdCompression : Z;
  wdCertName : string; wdMaxSequence : Z; wdIntroducer : bool; wdIndexId : Z;
  wdSkipIntroductionRemovals : bool; wdEncryptionPasswordToken : list Z }.

Definition device_toWire (d : Device) : bepDevice :=
  MkBepDevice (dID d) (dName d) (dAddresses d) (dCompression d) (dCertName d) (dMaxSequence d)
    (dIntroducer d) (dIndexID d) (dSkipIntroductionRemovals d) (dEncryptionPasswordToken d).

(** [DeviceID(w.Id)] converts a slice to an array, which panics when the slice is
    too short and drops what is too long. *)
Definition deviceFromWire (w : bepDevice) : go Device :=
  if (length (wdId w) <? DeviceIDLength)%nat
  then Panic "runtime error: cannot convert slice to array"
  else Ok (MkDevice (take DeviceIDLength (wdId w)) (wdName w) (wdAddresses w) (wdCompression w)
             (wdCertName w) (wdMaxSequence w) (wdIntroducer w) (wdIndexId w)
             (wdSkipIntroductionRemovals w) (wdEncryptionPasswordToken w)).

(** [append] to a slice of results, one conversion after the other. *)
Fixpoint convert_all {A B} (f : A → go B) (l : list A) : go (list B) :=
  match l with
  | [] => Ok []
  | x :: l =>
      let! y := f x in
      let! ys := convert_all f l in
      Ok (y :: ys)
  end.

Record Folder := MkFolder {
  foID : string; foLabel : string; foType : Z; foStopReason : Z; foDevices : list Device }.
Record bepFolder := MkBepFolder {
  wfoId : string; wfoLabel : string; wfoType : Z; wfoStopReason : Z; wfoDevices : list bepDevice }.

Definition folder_toWire (f : Folder) : bepFolder :=
  MkBepFolder (foID f) (foLabel f) (foType f) (foStopReason f) (map device_toWire (foDevices f)).
Definition folderFromWire (w : bepFolder) : go Folder :=
  let! devices := convert_all deviceFromWire (wfoDevices w) in
  Ok (MkFolder (wfoId w) (wfoLabel w) (wfoType w) (wfoStopReason w) devices).
Definition IsRunning (f : Folder) : bool := negb (foStopReason f =? FolderStopReasonPaused).

Record ClusterConfig := MkClusterConfig { ccFolders : list Folder; ccSecondary : bool }.
Record bepClusterConfig := MkBepClusterConfig {
  wccFolders : list bepFolder; wccSecondary : bool }.

Definition clusterConfig_toWire (c : ClusterConfig) : bepClusterConfig :=
  MkBepClusterConfig (map folder_toWire (ccFolders c)) (ccSecondary c).
Definition clusterConfigFromWire (w : bepClusterConfig) : go ClusterConfig :=
  let! folders := convert_all folderFromWire (wccFolders w) in
  Ok (MkClusterConfig folders (wccSecondary w)).

(** ** Files on the wire *)

(** A file as it arrives. *)
Definition over_wire (f : FileInfo) : FileInfo :=
  set_local f (if IsInvalid f then FlagLocalRemoteInvalid else 0) 0 false.

Definition replace_files (m : message) (fs : list FileInfo) : message :=
  match m with Index _ l => Index fs l | IndexUpdate _ p l => IndexUpdate fs p l end.

(** The conditions on a file that is exchanged. *)
Record file_fine (f : FileInfo) : Prop := {
  fine_version : vector_wf (fVersion f);
  fine_file : file_ok f;
  fine_complete : ftruncated f = false;
}.

Lemma over_wire_fine f : file_fine f → file_fine (over_wire f).
Proof.
  intros [Hv (Hb & He & Hp) Ht]. split; [done| |done]. split_and!; [done|by split|done].
Qed.

Lemma files_over_wire fs :
  Forall file_fine fs →
  ∃ ws, files_toWire fs = Ok ws ∧ map FileInfoFromWire ws = map over_wire fs.
Proof.
  induction 1 as [|f fs Hf Hfs (ws & Hws & IH)]; [by exists []|].
  destruct (FileInfo_ToWire f false) as [w| |] eqn:Ew.
  2,3: unfold FileInfo_ToWire in Ew; by rewrite (fine_complete _ Hf) in Ew.
  exists (w :: ws). cbn [files_toWire map]. rewrite Ew, Hws. cbn [mbind go_bind]. split; [done|].
  rewrite IH. f_equal. by destruct (FromWire_ToWire f false w (fine_file _ Hf) Ew).
Qed.

(** Sending and receiving. *)
Definition deliver (m : message) : go message := let! w := toWire m in Ok (fromWire w).

Lemma deliver_spec m :
  Forall file_fine (message_files m) →
  deliver m = Ok (replace_files m (map over_wire (message_files m))).
Proof.
  intros Hm. destruct (files_over_wire _ Hm) as (ws & Hws & Hmap).
  destruct m as [fs l|fs p l]; cbn [message_files] in *; unfold deliver, toWire;
    rewrite Hws; cbn [mbind go_bind fromWire replace_files]; by rewrite Hmap.
Qed.

(** ** Round trips *)

(** The errors that are sent arrive as they are, other codes as the generic one. *)
Lemma error_roundtrip err : codeToError (errorToCode err) = err.
Proof. by destruct err as [[]|]. Qed.

Lemma request_roundtrip r :
  in_i32 (rqID r) → in_i32 (rqSize r) → in_i32 (rqBlockNo r) →
  requestFromWire (request_toWire r) = r.
Proof. intros. destruct r. unfold requestFromWire, request_toWire. cbn in *. by rewrite !i32_id. Qed.

Lemma response_roundtrip r : in_i32 (rsID r) → responseFromWire (response_toWire r) = r.
Proof. intros. destruct r. unfold responseFromWire, response_toWire. cbn in *. by rewrite i32_id. Qed.

Lemma convert_all_map {A B} (f : A → go B) (g : B → A) l :
  Forall (λ y, f (g y) = Ok y) l → convert_all f (map g l) = Ok l.
Proof. induction 1 as [|y l Hy _ IH]; [done|]. cbn [map convert_all]. by rewrite Hy, IH. Qed.

(** The outcome of converting a list: all results, or a panic when one conversion
    panics and none fails. *)
Lemma convert_all_panics {A B} (f : A → go B) (bad : A → bool) l :
  (∀ x, if bad x then ∃ p, f x = Panic p else ∃ y, f x = Ok y) →
  if existsb bad l then ∃ p, convert_all f l = Panic p else ∃ ys, convert_all f l = Ok ys.
Proof.
  intros Hf. induction l as [|x l IH]; [by exists []|]. cbn [existsb convert_all].
  specialize (Hf x). destruct (bad x); cbn [orb].
  { destruct Hf as [p ->]. by exists p. }
  destruct Hf as [y ->]. cbn [mbind go_bind]. destruct (existsb bad l).
  - destruct IH as [p ->]. by exists p.
  - destruct IH as [ys ->]. by eexists.
Qed.

Definition short_id (w : bepDevice) : bool := (length (wdId w) <? DeviceIDLength)%nat.

(** A cluster configuration arrives as it was sent; one that contains a
    device identifier of less than 32 bytes, and no other, makes the receiver
    panic. *)
Theorem clusterConfig_wire c w :
  (Forall (λ f, Forall (λ d, length (dID d) = 32%nat) (foDevices f)) (ccFolders c) →
   clusterConfigFromWire (clusterConfig_toWire c) = Ok c) ∧
  (if existsb (λ f, existsb short_id (wfoDevices f)) (wccFolders w)
   then ∃ p, clusterConfigFromWire w = Panic p
   else ∃ c', clusterConfigFromWire w = Ok c').
Proof.
  split.
  - intros Hc. destruct c as [fs sec]. unfold clusterConfigFromWire, clusterConfig_toWire. cbn in *.
    rewrite convert_all_map; [done|]. eapply Forall_impl; [exact Hc|].
    intros [i l t s ds] Hd. unfold folderFromWire, folder_toWire. cbn in *.
    rewrite convert_all_map; [done|]. eapply Forall_impl; [exact Hd|].
    intros d Hl. destruct d. cbn in Hl. unfold deviceFromWire. cbn [device_toWire wdId dID].
    rewrite Hl. cbn. by rewrite take_ge by (unfold DeviceIDLength; lia).
  - assert (∀ f, if existsb short_id (wfoDevices f) then ∃ p, folderFromWire f = Panic p
                 else ∃ f', folderFromWire f = Ok f') as Hf.
    { intros f. pose proof (convert_all_panics deviceFromWire short_id (wfoDevices f)) as Hd.
      unfold folderFromWire. destruct (existsb short_id (wfoDevices f)).
      - destruct Hd as [p ->]; [|by exists p]. intros d. unfold deviceFromWire, short_id.
        destruct (_ <? _)%nat; eauto.
      - destruct Hd as [ds ->]; [|by eexists]. intros d. unfold deviceFromWire, short_id.
        destruct (_ <? _)%nat; eauto. }
    pose proof (convert_all_panics folderFromWire _ (wccFolders w) Hf) as Hw.
    unfold clusterConfigFromWire. destruct (existsb _ (wccFolders w)); destruct Hw as [x ->]; by eexists.
Qed.

Lemma clusterConfig_wire_witness :
  let d := MkDevice LocalDeviceID "a" [] 0 "" 5 false 9 false [] in
  let c := MkClusterConfig [MkFolder "f" "F" 0 0 [d]] false in
  let short := MkBepClusterConfig [MkBepFolder "f" "F" 0 0 [MkBepDevice [1; 2] "b" [] 0 "" 0 false 0 false []]] false in
  clusterConfigFromWire (clusterConfig_toWire c) = Ok c ∧ ∃ p, clusterConfigFromWire short = Panic p.
Proof.
  intros d c short. split.
  - apply (clusterConfig_wire c short). repeat constructor.
  - exact (proj2 (clusterConfig_wire c short)).
Defined.
