(* ===== verification/Semaphore.v ===== *)
(** * Resizable semaphores ([src/lib/semaphore/semaphore.go])

    A semaphore hands out a number of units, blocking callers on a condition
    variable.  Critical sections are single steps of a transition system over
    concurrent callers; what happens outside the lock, the context checks at the
    start of a call and the wake-up after a cancellation, are steps of their own. *)
From S2P Require Import Prelude GoLib.

Local Open Scope Z_scope.

(** ** The critical sections *)

Record Semaphore := MkSemaphore { max : Z; available : Z }.

Definition New (max : Z) : Semaphore :=
  let max := if max <? 0 then 0 else max in MkSemaphore max max.

(** [size] after it was cut down to the capacity. *)
Definition cap (s : Semaphore) (size : Z) : Z := if max s <? size then max s else size.

(** One pass of the loop of [takeInner] under the lock: the units are taken, or
    the caller goes to sleep wanting the given size. *)
Definition try_take (s : Semaphore) (size : Z) : Semaphore * option Z :=
  let size := cap s size in
  if available s <? size then (s, Some size)
  else (MkSemaphore (max s) (available s - size), None).

Definition Give (s : Semaphore) (size : Z) : Semaphore :=
  let size := cap s size in
  if max s <? available s + size then MkSemaphore (max s) (max s)
  else MkSemaphore (max s) (available s + size).

Definition SetCapacity (s : Semaphore) (capacity : Z) : Semaphore :=
  let capacity := if capacity <? 0 then 0 else capacity in
  let diff := capacity - max s in
  let available := available s + diff in
  MkSemaphore capacity
    (if available <? 0 then 0 else if capacity <? available then capacity else available).

Definition Available (s : Semaphore) : Z := available s.

(** ** Callers *)

(** Where a call of [Take] or [TakeWithContext] is: before its first context
    check, before the lock, waiting on the condition variable, woken up, or
    returned, having taken the units or with the error of its context. *)
Inductive pc :=
  | PStart (size : Z)
  | PChecked (size : Z)
  | PAsleep (size : Z)
  | PWoken (size : Z)
  | PTook
  | PErr.

(** [t_size] is the argument of the call; [t_broadcast] tells whether the call has
    already reacted to the cancellation of its context. *)
Record caller := MkCaller { t_pc : pc; t_size : Z; t_cancelled : bool; t_broadcast : bool }.

Record system := MkSystem { sem : Semaphore; callers : list caller }.

Definition set_pc (c : caller) (p : pc) : caller :=
  MkCaller p (t_size c) (t_cancelled c) (t_broadcast c).

(** [cond.Broadcast] wakes every sleeping caller. *)
Definition wake (c : caller) : caller :=
  match t_pc c with PAsleep size => set_pc c (PWoken size) | _ => c end.

Inductive action :=
  | ACall (size : Z)
  | ACheck (i : nat)
  | ALock (i : nat)
  | AGive (size : Z)
  | ASetCapacity (capacity : Z)
  | ACancel (i : nat)
  | ABroadcast (i : nat).

Definition with_caller (st : system) (i : nat) (f : caller → option system) : option system :=
  match callers st !! i with Some c => f c | None => None end.

(** What an action does, [None] when it is not possible. *)
Definition step (st : system) (a : action) : option system :=
  match a with
  | ACall size =>
      Some (MkSystem (sem st) (callers st ++ [MkCaller (PStart size) size false false]))
  | ACheck i => with_caller st i (λ c,
      match t_pc c with
      | PStart size =>
          Some (MkSystem (sem st)
                  (<[i := set_pc c (if t_cancelled c then PErr else PChecked size)]> (callers st)))
      | _ => None
      end)
  | ALock i => with_caller st i (λ c,
      let locked size :=
        let '(s, r) := try_take (sem st) size in
        Some (MkSystem s (<[i := set_pc c (match r with Some size => PAsleep size
                                                      | None => PTook end)]> (callers st))) in
      match t_pc c with
      | PChecked size => locked size
      | PWoken size =>
          if t_cancelled c then Some (MkSystem (sem st) (<[i := set_pc c PErr]> (callers st)))
          else locked size
      | _ => None
      end)
  | AGive size => Some (MkSystem (Give (sem st) size) (map wake (callers st)))
  | ASetCapacity capacity =>
      Some (MkSystem (SetCapacity (sem st) capacity) (map wake (callers st)))
  | ACancel i => with_caller st i (λ c,
      Some (MkSystem (sem st)
              (<[i := MkCaller (t_pc c) (t_size c) true (t_broadcast c)]> (callers st))))
  | ABroadcast i => with_caller st i (λ c,
      if t_cancelled c && negb (t_broadcast c) then
        Some (MkSystem (sem st)
                (map wake (<[i := MkCaller (t_pc c) (t_size c) true true]> (callers st))))
      else None)
  end.

Fixpoint run (st : system) (acts : list action) : option system :=
  match acts with
  | [] => Some st
  | a :: acts => match step st a with Some st => run st acts | None => None end
  end.

(** ** Several semaphores *)

(** [None] is a nil semaphore.  A [Take] that does not have to wait; [None] when
    it would. *)
Fixpoint Multi_Take (s : list (option Semaphore)) (size : Z) : option (list (option Semaphore)) :=
  match s with
  | [] => Some []
  | None :: s => option_map (cons None) (Multi_Take s size)
  | Some x :: s =>
      match try_take x size with
      | (x, None) => option_map (cons (Some x)) (Multi_Take s size)
      | (_, Some _) => None
      end
  end.

(** [TakeWithContext]: the context is cancelled while the caller waits for the
    first semaphore that has too few units, and the call fails. *)
Fixpoint Multi_TakeCancelled (s : list (option Semaphore)) (size : Z)
  : list (option Semaphore) * bool :=
  match s with
  | [] => ([], true)
  | None :: s => let '(s, ok) := Multi_TakeCancelled s size in (None :: s, ok)
  | Some x :: s =>
      match try_take x size with
      | (x, None) => let '(s, ok) := Multi_TakeCancelled s size in (Some x :: s, ok)
      | (_, Some _) => (Some x :: s, false)
      end
  end.

(** [Give] visits the semaphores in reverse. *)
Fixpoint give_all (s : list (option Semaphore)) (size : Z) : list (option Semaphore) :=
  match s with
  | [] => []
  | x :: s => option_map (λ x, Give x size) x :: give_all s size
  end.
Definition Multi_Give (s : list (option Semaphore)) (size : Z) : list (option Semaphore) :=
  rev (give_all (rev s) size).

(** ** Bounds *)

Definition sem_ok (s : Semaphore) : Prop := 0 ≤ available s ≤ max s.

Definition pc_size (p : pc) : option Z :=
  match p with PStart n | PChecked n | PAsleep n | PWoken n => Some n | _ => None end.

(** Sizes are not negative, and a sleeping caller cannot be served. *)
Definition caller_ok (s : Semaphore) (c : caller) : Prop :=
  (∀ n, pc_size (t_pc c) = Some n → 0 ≤ n) ∧
  (∀ n, t_pc c = PAsleep n → available s < cap s n).

Definition action_ok (a : action) : Prop :=
  match a with ACall n | AGive n => 0 ≤ n | _ => True end.

Definition system_ok (st : system) : Prop :=
  sem_ok (sem st) ∧ Forall (caller_ok (sem st)) (callers st).

Lemma New_ok n : sem_ok (New n).
Proof. unfold sem_ok, New. simpl. destruct (Z.ltb_spec n 0); lia. Qed.

Lemma cap_min s n : cap s n = Z.min (max s) n.
Proof. unfold cap. destruct (Z.ltb_spec (max s) n); lia. Qed.

Lemma Give_ok s n : sem_ok s → 0 ≤ n → sem_ok (Give s n).
Proof.
  unfold sem_ok, Give. rewrite cap_min. intros.
  destruct (Z.ltb_spec (max s) (available s + Z.min (max s) n)); simpl; lia.
Qed.
Lemma SetCapacity_ok s n : sem_ok (SetCapacity s n).
Proof.
  unfold sem_ok, SetCapacity. destruct (Z.ltb_spec n 0); simpl; repeat case_match; zb; lia.
Qed.

Lemma wake_ok s s' c : caller_ok s c → caller_ok s' (wake c).
Proof.
  intros [H1 H2]. unfold wake. destruct (t_pc c) eqn:E; split; simpl; rewrite ?E; try done.
  all: intros k Hk; first [by apply H1|congruence].
Qed.
Lemma wake_all_ok s s' cs : Forall (caller_ok s) cs → Forall (caller_ok s') (map wake cs).
Proof. intros H. apply Forall_map. eapply Forall_impl; [exact H|]. intros c. apply wake_ok. Qed.

(** Taking units keeps sleeping callers blocked. *)
Lemma take_keeps_ok s s' size r c :
  try_take s size = (s', r) → 0 ≤ cap s size → caller_ok s c → caller_ok s' c.
Proof.
  unfold try_take. intros E Hc [H1 H2]. destruct (_ <? _); injection E as <- <-; [done|].
  split; [done|]. intros n Hn. specialize (H2 n Hn). unfold cap in *. simpl. lia.
Qed.

Lemma set_ok s cs i c :
  Forall (caller_ok s) cs → caller_ok s c → Forall (caller_ok s) (<[i := c]> cs).
Proof. intros H Hc. apply Forall_insert; [done|done]. Qed.

Lemma lock_ok s cs i c size :
  sem_ok s → Forall (caller_ok s) cs → 0 ≤ size →
  ∀ st, (let '(s', r) := try_take s size in
         Some (MkSystem s' (<[i := set_pc c (match r with Some size => PAsleep size
                                                        | None => PTook end)]> cs))) = Some st →
  system_ok st.
Proof.
  intros Hs Hcs Hsz st. assert (0 ≤ cap s size) as Hcap by (unfold sem_ok in Hs; rewrite cap_min; lia).
  destruct (try_take s size) as [s' r] eqn:E. intros [= <-]. split; simpl.
  - unfold try_take in E. unfold sem_ok in *. destruct (Z.ltb_spec (available s) (cap s size));
      injection E as <- <-; simpl; lia.
  - assert (Forall (caller_ok s') cs) as Hcs'.
    { eapply Forall_impl; [exact Hcs|]. intros c'. by eapply take_keeps_ok. }
    apply set_ok; [done|]. unfold try_take in E.
    destruct (Z.ltb_spec (available s) (cap s size)); injection E as <- <-; split; simpl; try done.
    + intros n [= <-]. lia.
    + intros n [= <-]. rewrite cap_min in *. rewrite cap_min. lia.
Qed.

Lemma step_ok st a st' : system_ok st → action_ok a → step st a = Some st' → system_ok st'.
Proof.
  intros [Hs Hc] Ha. destruct a as [n|i|i|n|n|i|i]; simpl; unfold with_caller.
  - intros [= <-]. split; [done|]. simpl. apply Forall_app. split; [done|]. constructor; [|done].
    split; simpl; [|done]. by intros k [= <-].
  - destruct (callers st !! i) as [c|] eqn:E; [|done].
    pose proof (Forall_lookup_1 _ _ _ _ Hc E) as [H1 H2].
    destruct (t_pc c) eqn:Ep; try done. intros [= <-]. split; [done|]. simpl.
    apply set_ok; [done|]. by split; simpl; destruct (t_cancelled c).
  - destruct (callers st !! i) as [c|] eqn:E; [|done].
    pose proof (Forall_lookup_1 _ _ _ _ Hc E) as [H1 H2].
    destruct (t_pc c) eqn:Ep; try done.
    + apply lock_ok; auto.
    + destruct (t_cancelled c); [|apply lock_ok; auto].
      intros [= <-]. split; [done|]. simpl. by apply set_ok.
  - intros [= <-]. split; simpl; [by apply Give_ok|by eapply wake_all_ok].
  - intros [= <-]. split; simpl; [apply SetCapacity_ok|by eapply wake_all_ok].
  - destruct (callers st !! i) as [c|] eqn:E; [|done].
    pose proof (Forall_lookup_1 _ _ _ _ Hc E) as H1. intros [= <-]. split; [done|]. by apply set_ok.
  - destruct (callers st !! i) as [c|] eqn:E; [|done].
    pose proof (Forall_lookup_1 _ _ _ _ Hc E) as H1. destruct (_ && _); [|done].
    intros [= <-]. split; [done|]. simpl. eapply wake_all_ok. by apply set_ok.
Qed.

(** The states that callers with non-negative sizes can bring about. *)
Inductive reach (n : Z) : system → Prop :=
  | reach_init : reach n (MkSystem (New n) [])
  | reach_step st a st' : reach n st → action_ok a → step st a = Some st' → reach n st'.

Lemma reach_ok n st : reach n st → system_ok st.
Proof.
  induction 1 as [|st a st' Hr IH Ha Hst]; [|by eapply step_ok].
  split; [apply New_ok|constructor].
Qed.

(** C37.  However calls, cancellations and changes of the capacity interleave, the
    available units stay between zero and the capacity, and no caller sleeps while
    there are enough units for it: no wake-up by [Give] or [SetCapacity] is lost. *)
Theorem semaphore_invariant n st :
  reach n st →
  0 ≤ available (sem st) ≤ max (sem st) ∧
  ∀ i c size, callers st !! i = Some c → t_pc c = PAsleep size →
    available (sem st) < Z.min (max (sem st)) size.
Proof.
  intros H. destruct (reach_ok n st H) as [Hs Hc]. split; [done|].
  intros i c size Hi Hp. rewrite <- cap_min. by apply (Forall_lookup_1 _ _ _ _ Hc Hi).
Qed.

Definition script : list action :=
  [ACall 3; ACheck 0; ALock 0; ACall 9; ACheck 1; ALock 1; AGive 3; ALock 1].

Lemma run_reach n acts st st' :
  reach n st → Forall action_ok acts → run st acts = Some st' → reach n st'.
Proof.
  intros Hr Ha. revert st Hr. induction Ha as [|a acts Ha Hacts IH]; intros st Hr; simpl.
  { by intros [= <-]. }
  destruct (step st a) as [st1|] eqn:E; [|done]. apply IH. by eapply reach_step.
Qed.

Lemma semaphore_invariant_witness :
  ∃ st, run (MkSystem (New 4) []) script = Some st ∧ available (sem st) = 0 ∧
  0 ≤ available (sem st) ≤ max (sem st).
Proof.
  eexists. split; [reflexivity|]. split; [reflexivity|].
  apply (semaphore_invariant 4).
  apply (run_reach 4 script (MkSystem (New 4) [])); [apply reach_init| |reflexivity].
  repeat constructor; simpl; lia.
Defined.

(** ** Conservation *)

(** The units an action takes, negative when it gives. *)
Definition units_taken (st : system) (a : action) : Z :=
  match a with
  | ALock i =>
      match callers st !! i with
      | Some c =>
          let amount size := if available (sem st) <? cap (sem st) size then 0 else cap (sem st) size in
          match t_pc c with
          | PChecked size => amount size
          | PWoken size => if t_cancelled c then 0 else amount size
          | _ => 0
          end
      | None => 0
      end
  | AGive size => - cap (sem st) size
  | _ => 0
  end.

Definition fixed_capacity (a : action) : Prop :=
  match a with ASetCapacity _ => False | _ => True end.

(** Runs with [out] units taken and not given back, in which callers give back no
    more than that. *)
Inductive greach (n : Z) : Z → system → Prop :=
  | greach_init : greach n 0 (MkSystem (New n) [])
  | greach_step out st a st' :
      greach n out st → action_ok a → fixed_capacity a → 0 ≤ out + units_taken st a →
      step st a = Some st' → greach n (out + units_taken st a) st'.

(** While the capacity does not change and callers give back no more than was
    taken, the available units and those in use add up to the capacity, so the
    units in use never exceed it. *)
Theorem units_conserved n out st :
  0 ≤ n → greach n out st →
  available (sem st) + out = n ∧ max (sem st) = n ∧ 0 ≤ out ≤ n.
Proof.
  intros Hn H. assert (available (sem st) + out = n ∧ max (sem st) = n ∧ 0 ≤ available (sem st) ∧ 0 ≤ out)
    as (?&?&?&?); [|lia].
  induction H as [|out st a st' Hr IH Ha Hf Ho Hst].
  { simpl. destruct (Z.ltb_spec n 0); lia. }
  destruct IH as (H1 & H2 & H3 & H4).
  destruct a as [k|i|i|k|k|i|i]; simpl in *; unfold with_caller in Hst;
    try (destruct (callers st !! i) as [c|]; [|done]).
  - injection Hst as <-. simpl. lia.
  - destruct (t_pc c); try done. injection Hst as <-. simpl. lia.
  - destruct (t_pc c) as [k|k|k|k| |]; try done; [|destruct (t_cancelled c)];
      unfold try_take in Hst; try destruct (Z.ltb_spec (available (sem st)) (cap (sem st) k));
      injection Hst as <-; simpl; lia.
  - injection Hst as <-. simpl. unfold Give. rewrite !cap_min in *.
    destruct (Z.ltb_spec (max (sem st)) (available (sem st) + Z.min (max (sem st)) k)); simpl; lia.
  - done.
  - injection Hst as <-. simpl. lia.
  - destruct (_ && _); [|done]. injection Hst as <-. simpl. lia.
Qed.

Lemma units_conserved_witness :
  ∃ out st, greach 4 out st ∧ available (sem st) = 1 ∧ available (sem st) + out = 4.
Proof.
  pose proof (greach_init 4) as g0.
  pose proof (greach_step 4 _ _ (ACall 3) _ g0 ltac:(simpl; lia) I ltac:(vm_compute; congruence) eq_refl) as g1.
  pose proof (greach_step 4 _ _ (ACheck 0) _ g1 I I ltac:(vm_compute; congruence) eq_refl) as g2.
  pose proof (greach_step 4 _ _ (ALock 0) _ g2 I I ltac:(vm_compute; congruence) eq_refl) as g3.
  eexists _, _. split; [exact g3|]. split; [reflexivity|].
  exact (proj1 (units_conserved 4 _ _ ltac:(lia) g3)).
Defined.

(** ** Cancellation *)

(** A caller that no action of its own can move. *)
Definition stuck (st : system) (i : nat) : Prop :=
  step st (ACheck i) = None ∧ step st (ALock i) = None ∧ step st (ABroadcast i) = None.

(** The wake-up after a cancellation can be lost: [TakeWithContext] signals
    the condition variable without holding the lock, so when the context is
    cancelled after the call has checked it and before the call goes to sleep, the
    call sleeps with its context cancelled, none of its own steps is possible, and
    it returns only after another call signals, such as a [Give]. *)
Theorem cancel_lost s size :
  sem_ok s → available s < Z.min (max s) size →
  ∃ st c, run (MkSystem s []) [ACall size; ACheck 0; ACancel 0; ABroadcast 0; ALock 0] = Some st ∧
  callers st = [c] ∧ sem st = s ∧ t_cancelled c = true ∧
  t_pc c = PAsleep (Z.min (max s) size) ∧ stuck st 0 ∧
  (∀ k, run st [AGive k; ALock 0] = Some (MkSystem (Give s k) [set_pc (wake c) PErr])).
Proof.
  intros Hs Hlt.
  assert (try_take s size = (s, Some (Z.min (max s) size))) as E.
  { unfold try_take. rewrite cap_min.
    by destruct (Z.ltb_spec (available s) (Z.min (max s) size)); [|lia]. }
  cbn -[try_take Give Z.min]. rewrite E.
  eexists _, _. split; [reflexivity|]. cbn -[try_take Give Z.min].
  by split_and!.
Qed.

Lemma cancel_lost_witness :
  ∃ st c, run (MkSystem (MkSemaphore 4 0) []) [ACall 1; ACheck 0; ACancel 0; ABroadcast 0; ALock 0] = Some st ∧
  callers st = [c] ∧ t_cancelled c = true ∧ stuck st 0.
Proof.
  destruct (cancel_lost (MkSemaphore 4 0) 1) as (st & c & H1 & H2 & _ & H3 & _ & H4 & _);
    [unfold sem_ok; simpl; lia|simpl; lia|].
  exists st, c. split; [exact H1|split; [exact H2|split; [exact H3|exact H4]]].
Defined.

(** ** Several semaphores *)

Definition multi_ok (s : list (option Semaphore)) : Prop :=
  Forall (λ x, match x with Some x => sem_ok x | None => True end) s.

Lemma Multi_Give_map s size : Multi_Give s size = map (option_map (λ x, Give x size)) s.
Proof.
  assert (∀ l, give_all l size = map (option_map (λ x, Give x size)) l) as E.
  { induction l as [|x l IH]; simpl; [done|]. by rewrite IH. }
  unfold Multi_Give. by rewrite E, map_rev, rev_involutive.
Qed.

Lemma take_give s s' size :
  sem_ok s → 0 ≤ size → try_take s size = (s', None) → Give s' size = s.
Proof.
  unfold sem_ok, try_take, Give. intros Hs Hsz.
  destruct (Z.ltb_spec (available s) (cap s size)) as [|Hle]; [done|]. intros [= <-].
  assert (cap (MkSemaphore (max s) (available s - cap s size)) size = cap s size) as -> by done.
  simpl. destruct s as [m a]. simpl in *.
  destruct (Z.ltb_spec m (a - cap (MkSemaphore m a) size + cap (MkSemaphore m a) size)); [lia|].
  f_equal. lia.
Qed.

(** Giving back what a successful [Take] of several semaphores took restores
    all of them.  When [TakeWithContext] fails it keeps the units of the semaphores
    before the one it had to wait for; the caller, who must not call [Give] after
    an error, cannot return them. *)
Theorem Multi_Take_Give s size :
  multi_ok s → 0 ≤ size →
  (∀ s', Multi_Take s size = Some s' → Multi_Give s' size = s) ∧
  (∀ s', Multi_TakeCancelled s size = (s', false) →
   ∃ pre x post pre', s = pre ++ Some x :: post ∧ s' = pre' ++ Some x :: post ∧
     available x < Z.min (max x) size ∧ Multi_Take pre size = Some pre').
Proof.
  intros Hs Hsz. split.
  - intros s'. rewrite Multi_Give_map. revert s'.
    induction Hs as [|[x|] s Hx Hs IH]; intros s'; simpl.
    + by intros [= <-].
    + destruct (try_take x size) as [x' [k|]] eqn:E; [done|].
      destruct (Multi_Take s size) as [s1|]; simpl; [|done]. intros [= <-]. simpl.
      rewrite (take_give x) by done. by rewrite IH.
    + destruct (Multi_Take s size) as [s1|]; simpl; [|done]. intros [= <-]. simpl. by rewrite IH.
  - induction Hs as [|[x|] s Hx Hs IH]; intros s'; simpl; [done| |].
    + destruct (try_take x size) as [x' [k|]] eqn:E.
      * intros [= <-]. exists [], x, s, []. split_and!; try done. rewrite <- cap_min.
        unfold try_take in E. destruct (Z.ltb_spec (available x) (cap x size)); [done|done].
      * destruct (Multi_TakeCancelled s size) as [s1 ok]. intros [= <- ->].
        destruct (IH s1 eq_refl) as (pre & y & post & pre' & -> & -> & Hlt & Ht).
        exists (Some x :: pre), y, post, (Some x' :: pre'). simpl. by rewrite E, Ht.
    + destruct (Multi_TakeCancelled s size) as [s1 ok]. intros [= <- ->].
      destruct (IH s1 eq_refl) as (pre & y & post & pre' & -> & -> & Hlt & Ht).
      exists (None :: pre), y, post, (None :: pre'). simpl. by rewrite Ht.
Qed.

Lemma Multi_Take_Give_witness :
  let s := [Some (MkSemaphore 4 2); None; Some (MkSemaphore 3 3)] in
  Multi_Give [Some (MkSemaphore 4 0); None; Some (MkSemaphore 3 1)] 2 = s.
Proof.
  intros s. apply (Multi_Take_Give s 2); [|lia|reflexivity].
  repeat constructor; unfold sem_ok; simpl; lia.
Defined.
