(* ===== verification/Paths.v ===== *)
(** * Paths ([path/filepath], [src/lib/fs/util.go], [filesystem.go],
      [tempname.go], [basicfs.go])

    Paths are byte strings with [/] as the separator, as on every system but
    Windows.  The file translates the lexical operations and proves that a
    canonical path cannot leave its root and that temporary names are recognised,
    stay in their directory and have a bounded length. *)
From S2P Require Import Prelude GoLib.
From Stdlib Require Import Ascii.
From Stdlib Require String.

Local Open Scope Z_scope.

Abbreviation path := (list ascii).

(** ** [path/filepath] *)

Definition sep : ascii := "/"%char.
Definition dot : path := s2l ".".
Definition dotdot : path := s2l "..".

Definition IsAbs (p : path) : bool := match p with c :: _ => Ascii.eqb c sep | [] => false end.

(** One element of the path, [acc] being the reversed elements so far. *)
Definition push (rooted : bool) (acc : list path) (e : path) : list path :=
  if bool_decide (e = []) || bool_decide (e = dot) then acc
  else if bool_decide (e = dotdot) then
    match acc with
    | top :: acc' => if bool_decide (top = dotdot) then dotdot :: acc else acc'
    | [] => if rooted then [] else [dotdot]
    end
  else e :: acc.

Definition clean_elems (rooted : bool) (elems : list path) : list path :=
  rev (fold_left (push rooted) elems []).

Definition build (rooted : bool) (elems : list path) : path :=
  if rooted then sep :: join_byte sep elems
  else if bool_decide (elems = []) then dot else join_byte sep elems.

Definition Clean (p : path) : path :=
  if bool_decide (p = []) then dot
  else build (IsAbs p) (clean_elems (IsAbs p) (split_byte sep p)).

(** [Join]: empty leading elements are dropped. *)
Fixpoint Join (elems : list path) : path :=
  match elems with
  | [] => []
  | e :: rest => if bool_decide (e = []) then Join rest else Clean (join_byte sep elems)
  end.

(** The last element, after removing trailing separators. *)
Definition Base (p : path) : path :=
  if bool_decide (p = []) then dot
  else
    let p := trim_right sep p in
    let b := default [] (last (split_byte sep p)) in
    if bool_decide (b = []) then [sep] else b.

(** What precedes the last separator, with it. *)
Definition Dir (p : path) : path :=
  let elems := split_byte sep p in
  let dir := take (length elems - 1) elems in
  Clean (if bool_decide (dir = []) then [] else join_byte sep dir ++ [sep]).

Definition has_prefix (p q : path) : bool := prefixb q p.
Definition has_suffix (p q : path) : bool := prefixb (rev q) (rev p).

(** ** [filesystem.go] and [basicfs.go] *)

Definition Canonicalize (file : path) : go path :=
  if has_prefix file [sep; sep] then Err "path is invalid"
  else
    let file := Clean file in
    if bool_decide (file = dotdot) then Err "relative path traversing upwards (starting with ..)"
    else if has_prefix file (dotdot ++ [sep])
    then Err "relative path traversing upwards (starting with ..)"
    else if has_prefix file [sep] then
      if bool_decide (file = [sep]) then Ok dot else Ok (drop 1 file)
    else Ok file.

Definition rooted (rel root : path) : go path :=
  if bool_decide (root = []) then Err "name is invalid, must not be empty"
  else
    let! rel := Canonicalize rel in
    Ok (Join [root; rel]).

(** Indexing a string past its end panics. *)
Definition IsParent (p parent : path) : bool :=
  if bool_decide (parent = p) then false
  else if negb (Bool.eqb (IsAbs p) (IsAbs parent)) then false
  else if bool_decide (parent = []) || bool_decide (parent = dot)
  then negb (bool_decide (p = [])) && negb (bool_decide (p = dot))
  else if bool_decide (parent = [sep]) then negb (bool_decide (p = [sep]))
  else if bool_decide (last parent = Some sep) then has_prefix p parent
  else if negb (has_prefix p parent) then false
  else if (length p <=? length parent)%nat then false
  else bool_decide (p !! length parent = Some sep).

Definition internals : list path := map s2l [".vidsync"; ".stfolder"; ".stignore"; ".stversions"]%string.

Definition IsInternal (file : path) : bool :=
  existsb (λ internal, bool_decide (file = internal) || IsParent file internal) internals.

Definition PathComponents (p : path) : list path := split_byte sep p.

Fixpoint common_parts (a b : list path) : list path :=
  match a, b with
  | x :: a, y :: b => if bool_decide (x = y) then x :: common_parts a b else []
  | _, _ => []
  end.

Definition CommonPrefix (first second : path) : path :=
  if negb (Bool.eqb (IsAbs first) (IsAbs second)) then []
  else
    let common := common_parts (PathComponents (Clean first)) (PathComponents (Clean second)) in
    if IsAbs first && IsAbs second && (length common =? 1)%nat then [sep]
    else if (length common =? 0)%nat then []
    else Clean (join_byte sep common).

(** ** Names that Windows refuses ([util.go]) *)

Definition windowsDisallowedCharacters : list ascii :=
  s2l "<>:|?*" ++ ["034"%char] ++ map (λ n, ascii_of_nat n) (seq 0 32).

Definition reserved_names : list path :=
  map s2l ["CON"; "PRN"; "AUX"; "NUL";
           "COM0"; "COM1"; "COM2"; "COM3"; "COM4"; "COM5"; "COM6"; "COM7"; "COM8"; "COM9";
           "LPT0"; "LPT1"; "LPT2"; "LPT3"; "LPT4"; "LPT5"; "LPT6"; "LPT7"; "LPT8"; "LPT9"]%string.

Definition upper (c : ascii) : ascii :=
  let v := byte_val c in if (97 <=? v) && (v <=? 122) then byte_chr (v - 32) else c.

(** The name up to the first dot.  Only texts of three or four bytes are compared;
    the only letters outside ASCII whose upper case is ASCII are variants of S and I,
    which no reserved name contains, so upper-casing ASCII letters is enough. *)
Definition windowsReservedNamePart (part : path) : path :=
  let part := match cut_byte "."%char part with Some (before, _) => before | None => part end in
  if negb (length part =? 3)%nat && negb (length part =? 4)%nat then []
  else if bool_decide (map upper part ∈ reserved_names) then part else [].

Definition bad_part (part : path) : option string :=
  match last part with
  | None => None
  | Some c =>
      if Ascii.eqb c " "%char || Ascii.eqb c "."%char then Some "name is invalid, must not end in space or period on Windows"%string
      else if bool_decide (windowsReservedNamePart part ≠ []) then Some "name is invalid, contains Windows reserved name"%string
      else None
  end.

Fixpoint first_bad (parts : list path) : option string :=
  match parts with
  | [] => None
  | p :: parts => match bad_part p with Some e => Some e | None => first_bad parts end
  end.

(** Parts are separated by backslashes. *)
Definition WindowsInvalidFilename (name : path) : option string :=
  if existsb (λ c, bool_decide (c ∈ windowsDisallowedCharacters)) name
  then Some "name is invalid, contains Windows reserved character"%string
  else first_bad (split_byte "\"%char name).

(** ** Temporary names ([tempname.go]) *)

Definition WindowsTempPrefix : path := s2l "~vidsync~".
Definition UnixTempPrefix : path := s2l ".vidsync.".
Definition legacyWindowsTempPrefix : path := s2l "~syncthing~".
Definition legacyUnixTempPrefix : path := s2l ".syncthing.".
Definition maxFilenameLength : nat := 160 - length UnixTempPrefix - 4.

Definition IsTemporary (name : path) : bool :=
  let name := Base name in
  has_prefix name WindowsTempPrefix || has_prefix name UnixTempPrefix ||
  has_prefix name legacyWindowsTempPrefix || has_prefix name legacyUnixTempPrefix.

Section temp.
(** [sha256.Sum256] and [build.IsWindows]. *)
Variable sha256 : list Z → list Z.
Variable IsWindows : bool.

Definition tempPrefix : path := if IsWindows then WindowsTempPrefix else UnixTempPrefix.

Definition TempNameWithPrefix (name prefix : path) : path :=
  let tdir := Dir name in
  let tbase := Base name in
  let tname :=
    if (maxFilenameLength <? length tbase)%nat
    then prefix ++ hex_encode (sha256 (map byte_val tbase)) ++ s2l ".tmp"
    else prefix ++ tbase ++ s2l ".tmp" in
  Join [tdir; tname].

Definition TempName (name : path) : path := TempNameWithPrefix name tempPrefix.
End temp.

(** ** Lemmas on cleaning *)

(** An element that cleaning keeps, and lists of elements as cleaning leaves them. *)
Definition normal (e : path) : Prop := e ≠ [] ∧ e ≠ dot ∧ e ≠ dotdot ∧ sep ∉ e.
Definition nf (rooted : bool) (es : list path) : Prop :=
  ∃ k ns, es = replicate k dotdot ++ ns ∧ Forall normal ns ∧ (rooted = true → k = 0%nat).

Lemma normal_dotdot : ¬ normal dotdot.
Proof. by intros (_ & _ & H & _). Qed.

Lemma push_normal r acc e : normal e → push r acc e = e :: acc.
Proof. intros (H1 & H2 & H3 & _). unfold push. by rewrite !bool_decide_eq_false_2. Qed.

Lemma push_all_normal r acc es :
  Forall normal es → fold_left (push r) es acc = rev es ++ acc.
Proof.
  intros H. revert acc. induction H as [|e es He Hes IH]; intros acc; simpl; [done|].
  by rewrite IH, push_normal, <- app_assoc.
Qed.

Lemma push_dotdots k :
  fold_left (push false) (replicate k dotdot) [] = replicate k dotdot.
Proof.
  assert (∀ j, fold_left (push false) (replicate k dotdot) (replicate j dotdot) =
               replicate (k + j) dotdot) as H.
  { induction k as [|k IH]; intros j; simpl; [done|].
    transitivity (fold_left (push false) (replicate k dotdot) (replicate (S j) dotdot)).
    - f_equal. unfold push. simpl. by destruct j.
    - rewrite IH. by rewrite Nat.add_succ_r. }
  rewrite <- (Nat.add_0_r k) at 2. apply (H 0%nat).
Qed.

(** Cleaning leaves clean lists of elements alone. *)
Lemma push_nf r es : nf r es → fold_left (push r) es [] = rev es.
Proof.
  intros (k & ns & -> & Hns & Hr). rewrite fold_left_app. destruct r.
  - rewrite (Hr eq_refl). simpl. by rewrite push_all_normal, app_nil_r.
  - rewrite push_dotdots, push_all_normal by done. rewrite rev_app_distr. f_equal.
    by rewrite rev_replicate.
Qed.

Lemma push_keeps_nf r acc e :
  nf r (rev acc) → sep ∉ e → nf r (rev (push r acc e)).
Proof.
  intros (k & ns & E & Hns & Hr) He. unfold push.
  case_bool_decide as H1; [by exists k, ns|]. case_bool_decide as H2; [by exists k, ns|]. simpl.
  apply (f_equal (@rev path)) in E. rewrite rev_involutive in E. subst acc.
  case_bool_decide as H3.
  - destruct ns as [|n ns _] using rev_ind.
    + rewrite app_nil_r, rev_replicate. destruct k as [|k].
      * destruct r; [by exists 0%nat, []|]. by exists 1%nat, [].
      * cbn [replicate]. rewrite bool_decide_eq_true_2 by done. exists (S (S k)), [].
        rewrite app_nil_r. split; [apply (rev_replicate (S (S k)) dotdot)|].
        split; [constructor|]. intros E. by apply Hr in E.
    + rewrite !rev_app_distr. simpl. apply Forall_app in Hns as [Hns Hn].
      apply Forall_cons in Hn as [Hn _]. assert (n ≠ dotdot) by apply Hn.
      rewrite bool_decide_eq_false_2 by done. exists k, ns.
      rewrite rev_app_distr, !rev_involutive. done.
  - exists k, (ns ++ [e]). simpl. rewrite rev_involutive, <- app_assoc. split; [done|].
    split; [|done]. apply Forall_app. split; [done|]. by apply Forall_cons_2; [|apply Forall_nil_2].
Qed.

Lemma split_byte_no c l : Forall (λ p, c ∉ p) (split_byte c l).
Proof.
  induction l as [|d l IH]; simpl; [by repeat constructor; set_solver|].
  destruct (Ascii.eqb_spec d c) as [->|Hne]; [constructor; [set_solver|done]|].
  destruct (split_byte c l) as [|h t]; [repeat constructor; set_solver|].
  apply Forall_cons in IH as [Hh Ht]. constructor; [set_solver|done].
Qed.

Lemma clean_elems_nf r p : nf r (clean_elems r (split_byte sep p)).
Proof.
  unfold clean_elems. pose proof (split_byte_no sep p) as H. revert H.
  assert (nf r (rev [])) as H0 by by exists 0%nat, []. revert H0. generalize (@nil path).
  induction (split_byte sep p) as [|e es IH]; intros acc Hacc H; simpl; [done|].
  apply Forall_cons in H as [He Hes]. apply IH; [by apply push_keeps_nf|done].
Qed.

Lemma split_byte_nonempty c l : split_byte c l ≠ [].
Proof.
  destruct l as [|d l]; simpl; [done|]. destruct (Ascii.eqb d c); [done|].
  by destruct (split_byte c l).
Qed.

Lemma split_byte_app_sep c a b : split_byte c (a ++ c :: b) = split_byte c a ++ split_byte c b.
Proof.
  induction a as [|d a IH]; simpl; [by rewrite Ascii.eqb_refl|]. rewrite IH.
  destruct (Ascii.eqb d c); [done|].
  pose proof (split_byte_nonempty c a). by destruct (split_byte c a).
Qed.

Lemma dotdot_no_sep : sep ∉ dotdot.
Proof. apply (bool_decide_eq_true (sep ∉ dotdot)). reflexivity. Qed.

Lemma nf_no_sep r es : nf r es → Forall (λ p, sep ∉ p) es.
Proof.
  intros (k & ns & -> & Hns & _). apply Forall_app. split.
  - apply Forall_replicate, dotdot_no_sep.
  - eapply Forall_impl; [exact Hns|]. by intros e (_ & _ & _ & ?).
Qed.

Lemma normal_head e : normal e → ∃ c e', e = c :: e' ∧ c ≠ sep.
Proof.
  intros (H & _ & _ & Hs). destruct e as [|c e]; [done|]. exists c, e.
  split; [done|]. intros ->. apply Hs. left.
Qed.

Lemma nf_false_head es e :
  nf false (e :: es) → ∃ c e', e = c :: e' ∧ c ≠ sep.
Proof.
  intros (k & ns & E & Hns & _). destruct k as [|k].
  - simpl in E. subst ns. apply Forall_cons in Hns as [He _]. by apply normal_head.
  - injection E as -> _. by eexists _, _.
Qed.

(** The elements of a built path, as splitting finds them. *)
Definition raw (r : bool) (es : list path) : list path :=
  match r, es with
  | true, [] => [[]; []]
  | true, _ => [] :: es
  | false, [] => [dot]
  | false, _ => es
  end.

Lemma split_build r es : nf r es → split_byte sep (build r es) = raw r es.
Proof.
  intros H. pose proof (nf_no_sep _ _ H) as Hs. unfold build, raw. destruct r.
  - change (sep :: join_byte sep es) with ([] ++ sep :: join_byte sep es).
    rewrite split_byte_app by set_solver. destruct es as [|e es]; [done|].
    by rewrite split_join.
  - case_bool_decide as He; [by subst es|]. rewrite split_join by done. by destruct es.
Qed.

Lemma push_raw r es : nf r es → fold_left (push r) (raw r es) [] = rev es.
Proof.
  intros H. pose proof (push_nf r es H) as Hp. unfold raw.
  destruct r, es as [|e es]; try done.
Qed.

Lemma IsAbs_build r es k : nf r es → IsAbs (build r es ++ k) = r.
Proof.
  intros H. unfold build. destruct r; [done|]. case_bool_decide as He; [done|].
  destruct es as [|e es]; [done|]. destruct (nf_false_head es e H) as (c & e' & -> & Hc).
  destruct es; simpl; by destruct (Ascii.eqb_spec c sep).
Qed.

Lemma build_nonempty r es : nf r es → build r es ≠ [].
Proof.
  intros H. unfold build. destruct r; [done|]. case_bool_decide as He; [done|].
  destruct es as [|e es]; [done|]. destruct (nf_false_head es e H) as (c & e' & -> & _).
  by destruct es.
Qed.

(** Cleaning a built path with more after it. *)
Lemma Clean_build_app r es q :
  nf r es →
  Clean (build r es ++ sep :: q) = build r (rev (fold_left (push r) (split_byte sep q) (rev es))).
Proof.
  intros H. unfold Clean. rewrite bool_decide_eq_false_2.
  2: { intros E. by apply app_eq_nil in E as [_ E]. }
  rewrite (IsAbs_build r es _ H). unfold clean_elems.
  by rewrite split_byte_app_sep, fold_left_app, split_build, push_raw.
Qed.

Lemma Clean_build r es : nf r es → Clean (build r es) = build r es.
Proof.
  intros H. unfold Clean. rewrite bool_decide_eq_false_2 by by apply build_nonempty.
  rewrite <- (app_nil_r (build r es)), (IsAbs_build r es [] H), app_nil_r. unfold clean_elems.
  by rewrite split_build, push_raw, rev_involutive.
Qed.

(** The shape of every cleaned path. *)
Lemma Clean_shape p : ∃ es, nf (IsAbs p) es ∧ Clean p = build (IsAbs p) es.
Proof.
  unfold Clean. case_bool_decide as Hp.
  - subst p. exists []. split; [|done]. by exists 0%nat, [].
  - eexists. split; [|reflexivity]. apply clean_elems_nf.
Qed.

Lemma nf_snoc r es t : nf r es → normal t → nf r (es ++ [t]).
Proof.
  intros (k & ns & -> & Hns & Hr) Ht. exists k, (ns ++ [t]). rewrite app_assoc.
  split; [done|]. split; [|done]. apply Forall_app. split; [done|]. by apply Forall_cons_2; [|apply Forall_nil_2].
Qed.

Lemma raw_snoc r es t : raw r (es ++ [t]) = (if r then [] :: es else es) ++ [t].
Proof. unfold raw. by destruct r, es. Qed.

Lemma Join_build r es t :
  nf r es → normal t → Join [build r es; t] = build r (es ++ [t]).
Proof.
  intros H Ht. cbn [Join]. rewrite bool_decide_eq_false_2 by by apply build_nonempty.
  cbn [join_byte]. rewrite Clean_build_app by done. f_equal.
  rewrite split_byte_part by apply Ht. simpl. rewrite push_normal by done. simpl.
  by rewrite rev_involutive.
Qed.

Lemma Dir_build r es t : nf r es → normal t → Dir (build r (es ++ [t])) = build r es.
Proof.
  intros H Ht. unfold Dir. rewrite split_build, raw_snoc by by apply nf_snoc.
  set (pre := if r then [] :: es else es). rewrite length_app. simpl.
  rewrite Nat.add_sub, take_app_length.
  assert (pre = [] → r = false ∧ es = []) as Hpre by (unfold pre; by destruct r).
  case_bool_decide as Hp.
  { destruct (Hpre Hp) as [-> ->]. done. }
  assert (Forall (λ p, sep ∉ p) pre) as Hs.
  { pose proof (nf_no_sep _ _ H). unfold pre. destruct r; [|done]. constructor; [set_solver|done]. }
  unfold Clean. rewrite bool_decide_eq_false_2.
  2: { intros E. by apply app_eq_nil in E as [_ E]. }
  assert (IsAbs (join_byte sep pre ++ [sep]) = r) as ->.
  { unfold pre. destruct r; [by destruct es|]. destruct es as [|e es]; [done|].
    destruct (nf_false_head es e H) as (c & e' & -> & Hc).
    destruct es; simpl; by destruct (Ascii.eqb_spec c sep). }
  unfold clean_elems. rewrite split_byte_app_sep, split_join, fold_left_app by done.
  assert (fold_left (push r) pre [] = rev es) as ->.
  { unfold pre. destruct r; [|by apply push_nf]. simpl. by apply push_nf. }
  simpl. unfold push. simpl. by rewrite rev_involutive.
Qed.

Lemma trim_right_other c l d : d ≠ c → trim_right c (l ++ [d]) = l ++ [d].
Proof.
  intros Hd. unfold trim_right. rewrite rev_app_distr. simpl.
  destruct (Ascii.eqb_spec d c); [done|]. simpl. by rewrite rev_involutive.
Qed.

Lemma join_byte_snoc c es t :
  es ≠ [] → join_byte c (es ++ [t]) = join_byte c es ++ c :: t.
Proof.
  intros H. induction es as [|e es IH]; [done|]. destruct es as [|e' es]; [done|].
  cbn [app join_byte] in *. rewrite IH by done. by rewrite <- app_assoc.
Qed.

Lemma normal_last t : normal t → ∃ t' d, t = t' ++ [d] ∧ d ≠ sep.
Proof.
  intros (H1 & _ & _ & Hs). destruct t as [|d t' _] using rev_ind; [done|].
  exists t', d. split; [done|]. intros ->. apply Hs, elem_of_app. right. left.
Qed.

Lemma build_snoc r es t :
  nf r es → normal t → ∃ q d, build r (es ++ [t]) = q ++ [d] ∧ d ≠ sep.
Proof.
  intros H Ht. destruct (normal_last t Ht) as (t' & d & -> & Hd).
  assert (∃ q, join_byte sep (es ++ [t' ++ [d]]) = q ++ [d]) as [q Hq].
  { destruct es as [|e es]; [by exists t'|]. rewrite join_byte_snoc by done.
    exists (join_byte sep (e :: es) ++ sep :: t'). by rewrite <- app_assoc. }
  unfold build. destruct r.
  - exists (sep :: q), d. by rewrite Hq.
  - rewrite bool_decide_eq_false_2 by by destruct es. exists q, d. done.
Qed.

Lemma Base_build r es t : nf r es → normal t → Base (build r (es ++ [t])) = t.
Proof.
  intros H Ht. unfold Base. rewrite bool_decide_eq_false_2 by by apply build_nonempty, nf_snoc.
  destruct (build_snoc r es t H Ht) as (q & d & E & Hd).
  rewrite E, trim_right_other, <- E by done.
  rewrite split_build, raw_snoc by by apply nf_snoc. rewrite last_snoc. simpl.
  by rewrite bool_decide_eq_false_2 by apply Ht.
Qed.

(** ** Canonical paths *)

Lemma nf_true_normal es : nf true es → Forall normal es.
Proof. intros (k & ns & -> & Hns & Hr). by rewrite (Hr eq_refl). Qed.

Lemma Forall_normal_nf r es : Forall normal es → nf r es.
Proof. intros H. by exists 0%nat, es. Qed.

(** What [Canonicalize] accepts, and what it makes of it. *)
Lemma Canonicalize_Ok file p :
  Canonicalize file = Ok p → ∃ es, Forall normal es ∧ p = build false es.
Proof.
  unfold Canonicalize. destruct (has_prefix file _); [done|].
  destruct (Clean_shape file) as (es & Hnf & ->). destruct (IsAbs file).
  - pose proof (nf_true_normal es Hnf) as Hn. simpl build.
    case_bool_decide as E1; [done|]. destruct (has_prefix _ (dotdot ++ _)); [done|].
    unfold has_prefix. simpl. case_bool_decide as E2.
    + intros [= <-]. by exists [].
    + intros [= <-]. exists es. split; [done|]. unfold build.
      rewrite bool_decide_eq_false_2; [done|]. intros ->. done.
  - destruct Hnf as (k & ns & E & Hns & _). destruct k as [|k].
    + simpl in E. subst es. case_bool_decide; [done|]. destruct (has_prefix _ (dotdot ++ _)); [done|].
      assert (has_prefix (build false ns) [sep] = false) as ->.
      { unfold has_prefix, build. case_bool_decide as Hn; [done|].
        destruct ns as [|n ns]; [done|]. apply Forall_cons in Hns as [Hn1 _].
        destruct (normal_head n Hn1) as (c & n' & -> & Hc).
        destruct ns; cbn [join_byte app prefixb]; by destruct (Ascii.eqb_spec sep c). }
      intros [= <-]. by exists ns.
    + subst es. cbn [replicate app]. change (build false (dotdot :: replicate k dotdot ++ ns))
        with (join_byte sep (dotdot :: replicate k dotdot ++ ns)).
      case_bool_decide as Hd; [done|].
      by destruct (replicate k dotdot ++ ns) as [|e es].
Qed.

(** Plain names are canonical. *)
Lemma Canonicalize_build es :
  Forall normal es → Canonicalize (build false es) = Ok (build false es).
Proof.
  intros Hes. pose proof (Forall_normal_nf false es Hes) as HnE. unfold Canonicalize.
  assert (∀ q, has_prefix (build false es) (sep :: q) = false) as Hp.
  { intros q. unfold has_prefix, build. case_bool_decide as Hn; [done|].
    destruct es as [|e es]; [done|]. destruct (nf_false_head es e HnE) as (c & e' & -> & Hc).
    destruct es; cbn [join_byte app prefixb]; by destruct (Ascii.eqb_spec sep c). }
  rewrite Hp, Clean_build by done. rewrite bool_decide_eq_false_2.
  2: { intros E. pose proof (split_build false es HnE) as Hs. rewrite E in Hs.
       destruct es as [|e es]; [done|]. simpl in Hs. injection Hs as <- <-.
       apply Forall_cons in Hes as [He _]. by apply normal_dotdot in He. }
  destruct (has_prefix (build false es) (dotdot ++ [sep])) eqn:Hd; [|by rewrite Hp].
  apply prefixb_spec in Hd as [k Hk]. pose proof (split_build false es HnE) as Hs.
  rewrite Hk in Hs. change ((dotdot ++ [sep]) ++ k) with (dotdot ++ sep :: k) in Hs.
  rewrite split_byte_app in Hs by apply dotdot_no_sep.
  destruct es as [|e es]; [done|]. simpl in Hs. injection Hs as <- _.
  apply Forall_cons in Hes as [He _]. by apply normal_dotdot in He.
Qed.

Lemma Join_rooted R es :
  Forall normal R → Forall normal es →
  Join [build true R; build false es] = build true (R ++ es).
Proof.
  intros HR Hes. pose proof (Forall_normal_nf true R HR) as HnR.
  pose proof (Forall_normal_nf false es Hes) as HnE.
  change (Clean (build true R ++ sep :: build false es) = build true (R ++ es)).
  rewrite Clean_build_app by done. f_equal. rewrite split_build by done.
  destruct es as [|e es].
  - simpl. unfold push. simpl. by rewrite rev_involutive, app_nil_r.
  - cbn [raw]. rewrite push_all_normal by done. by rewrite rev_app_distr, !rev_involutive.
Qed.

(** A path of plain names stays below its root. *)
Lemma rooted_build R es :
  Forall normal R → Forall normal es →
  rooted (build false es) (build true R) = Ok (build true (R ++ es)).
Proof.
  intros HR Hes. unfold rooted. rewrite bool_decide_eq_false_2 by done.
  rewrite Canonicalize_build by done. cbn [mbind go_bind]. by rewrite Join_rooted.
Qed.

(** [Canonicalize] returns a path made of plain names, without empty elements,
    dots or steps upwards, and accepts its own results unchanged; so the path that
    [rooted] makes of any relative path lies in the tree of its root. *)
Theorem rooted_contained rel root R q :
  root = build true R → Forall normal R → rooted rel root = Ok q →
  ∃ es, Forall normal es ∧ q = build true (R ++ es) ∧
  Canonicalize rel = Ok (build false es) ∧
  Canonicalize (build false es) = Ok (build false es).
Proof.
  intros -> HR. unfold rooted. case_bool_decide as Hroot; [done|].
  destruct (Canonicalize rel) as [p| |] eqn:Ec; [|done..]. cbn [mbind go_bind]. intros [= <-].
  destruct (Canonicalize_Ok rel p Ec) as (es & Hes & ->). exists es.
  split_and!; [done|by apply Join_rooted|done|by apply Canonicalize_build].
Qed.

Lemma rooted_contained_witness :
  ∃ es, Forall normal es ∧ s2l "/data/a/c" = build true ([s2l "data"] ++ es).
Proof.
  assert (Forall normal [s2l "data"]) as HR.
  { apply Forall_cons_2; [|apply Forall_nil_2].
    apply (bool_decide_eq_true (_ ∧ _ ∧ _ ∧ _)). vm_compute. reflexivity. }
  destruct (rooted_contained (s2l "./a/../a//c/") (s2l "/data") [s2l "data"] (s2l "/data/a/c")
    eq_refl HR) as (es & H1 & H2 & _); [vm_compute; reflexivity|].
  exists es. split; [exact H1|exact H2].
Defined.

(** ** Temporary names *)

(** The base name holds no separator unless it is that of the root; it may still be
    a dot or a step upwards. *)
Lemma Base_no_sep p : Base p ≠ [sep] → Base p ≠ [] ∧ sep ∉ Base p.
Proof.
  unfold Base. case_bool_decide as Hp.
  { intros _. split; [done|]. apply (bool_decide_eq_true (sep ∉ dot)). reflexivity. }
  case_bool_decide as Hb; [done|]. intros _. split; [done|].
  pose proof (split_byte_no sep (trim_right sep p)) as H.
  destruct (last _) as [b|] eqn:El; [|done]. simpl. apply last_Some_elem_of in El.
  rewrite Forall_forall in H. by apply H.
Qed.

Definition sha_ok (sha256 : list Z → list Z) : Prop := ∀ bs, length (sha256 bs) = 32%nat ∧ Forall is_byte (sha256 bs).

Lemma length_hex_encode bs : length (hex_encode bs) = (2 * length bs)%nat.
Proof.
  induction bs as [|b bs IH]; [done|]. change (hex_encode (b :: bs)) with
    ([hex_chr (b / 16); hex_chr (b mod 16)] ++ hex_encode bs). rewrite length_app, IH. simpl. lia.
Qed.

Lemma sep_no_hex bs : Forall is_byte bs → sep ∉ hex_encode bs.
Proof.
  intros H Hin. apply (hex_encode_chars _ _ H) in Hin. revert Hin.
  apply (bool_decide_eq_true (sep ∉ hex_digits)). reflexivity.
Qed.

(** The name without its directory. *)
Definition temp_base (sha256 : list Z → list Z) (name prefix : path) : path :=
  if (maxFilenameLength <? length (Base name))%nat
  then prefix ++ hex_encode (sha256 (map byte_val (Base name))) ++ s2l ".tmp"
  else prefix ++ Base name ++ s2l ".tmp".

Lemma temp_base_ok sha256 IsWindows name :
  sha_ok sha256 → Base name ≠ [sep] →
  let t := temp_base sha256 name (tempPrefix IsWindows) in
  normal t ∧ (length t ≤ 160)%nat ∧ has_prefix t (tempPrefix IsWindows) = true.
Proof.
  intros Hsha Hb. destruct (Base_no_sep name Hb) as [_ Hsep].
  assert (∃ c pre, tempPrefix IsWindows = c :: pre ∧ (7 ≤ length pre ≤ 8)%nat ∧ sep ∉ c :: pre)
    as (c & pre & E & Hlen & Hps).
  { destruct IsWindows; eexists _, _; (split; [reflexivity|]); (split; [simpl; lia|]);
      apply (bool_decide_eq_true (sep ∉ _)); reflexivity. }
  intros t. assert (∃ mid, t = (c :: pre) ++ mid ++ s2l ".tmp" ∧ (sep ∉ mid) ∧ (length mid ≤ 147)%nat)
    as (mid & Et & Hmid & Hml).
  { unfold t, temp_base. rewrite E. destruct (Hsha (map byte_val (Base name))) as [Hl Hbytes].
    destruct (Nat.ltb_spec maxFilenameLength (length (Base name))) as [|Hle].
    - eexists. split; [reflexivity|]. split; [by apply sep_no_hex|].
      rewrite length_hex_encode, Hl. lia.
    - eexists. split; [reflexivity|]. split; [done|]. vm_compute in Hle |- *. exact Hle. }
  clearbody t. subst t. rewrite E. split; [|split].
  - split; [done|]. split; [|split].
    + intros D. destruct pre as [|? [|? ?]]; simpl in Hlen; [lia|lia|done].
    + intros D. destruct pre as [|? [|? ?]]; simpl in Hlen; [lia|lia|done].
    + rewrite !elem_of_app. intros [H|[H|H]]; [done|done|]. revert H.
      apply (bool_decide_eq_true (sep ∉ s2l ".tmp")). reflexivity.
  - rewrite !length_app. simpl in *. lia.
  - unfold has_prefix. apply prefixb_spec. by eexists.
Qed.

(** The temporary name of a file lies in the directory of the file, so that
    the final rename does not leave it, is recognised as temporary, and its last
    element has at most 160 bytes however long the name of the file is. *)
Theorem TempName_spec sha256 IsWindows name :
  sha_ok sha256 → Base name ≠ [sep] →
  let t := TempName sha256 IsWindows name in
  Dir t = Dir name ∧ IsTemporary t = true ∧ (length (Base t) ≤ 160)%nat.
Proof.
  intros Hsha Hb t. destruct (temp_base_ok sha256 IsWindows name Hsha Hb) as (Ht & Hl & Hp).
  assert (∃ r es, nf r es ∧ Dir name = build r es) as (r & es & Hnf & Hd).
  { unfold Dir. match goal with |- context [Clean ?q] => destruct (Clean_shape q) as (es & H1 & H2) end.
    rewrite H2. by eexists _, es. }
  assert (t = build r (es ++ [temp_base sha256 name (tempPrefix IsWindows)])) as ->.
  { unfold t, TempName, TempNameWithPrefix. fold (temp_base sha256 name (tempPrefix IsWindows)).
    rewrite Hd. by apply Join_build. }
  rewrite Dir_build, Base_build, Hd by done. split; [done|]. split; [|done].
  unfold IsTemporary. rewrite Base_build by done.
  destruct IsWindows; unfold tempPrefix in *; rewrite Hp; by rewrite ?orb_true_r.
Qed.

Lemma TempName_spec_witness :
  let sha := λ _, replicate 32 7 in
  let t := TempName sha false (s2l "a/b.txt") in
  t = s2l "a/.vidsync.b.txt.tmp" ∧ IsTemporary t = true ∧ Dir t = Dir (s2l "a/b.txt").
Proof.
  intros sha t. split; [vm_compute; reflexivity|].
  destruct (TempName_spec sha false (s2l "a/b.txt")) as (H1 & H2 & _).
  - intros bs. split; [reflexivity|]. apply Forall_replicate. unfold is_byte. lia.
  - apply (bool_decide_eq_true (_ ≠ _)). vm_compute. reflexivity.
  - split; [exact H2|exact H1].
Defined.
