(* ===== verification/Wire.v ===== *)
(** * Connections ([src/lib/protocol/protocol.go], [bep_hello.go])

    How messages are framed, compressed and written, what the reader makes of the
    bytes of the other side, which messages the dispatcher lets through to the
    model, and how responses find their requests.  Protocol buffers and LZ4 are
    the interface [Codec]. *)
From S2P Require Import Prelude GoLib Vector Platform FileInfo DeviceID DownloadState Messages Paths.
From Stdlib Require Import Ascii.
From Stdlib Require String.

Local Open Scope Z_scope.

Definition MaxMessageLen : Z := 500 * 1000 * 1000.
Definition MaxRequestSize : Z := 2 * MaxBlockSize.
Definition compressionThreshold : Z := 128.

Definition CompressionMetadata : Z := 0.
Definition CompressionNever : Z := 1.
Definition CompressionAlways : Z := 2.

(** [proto.Message], with the messages of the generated package. *)
Inductive protoMessage :=
  | PClusterConfig (m : bepClusterConfig)
  | PIndex (folder : string) (files : list bepFileInfo) (LastSequence : Z)
  | PIndexUpdate (folder : string) (files : list bepFileInfo) (LastSequence PrevSequence : Z)
  | PRequest (m : bepRequest)
  | PResponse (m : bepResponse)
  | PDownloadProgress (m : bepDownloadProgress)
  | PPing
  | PClose (reason : string).

(** [bep.MessageType] *)
Definition typeOf (msg : protoMessage) : Z :=
  match msg with
  | PClusterConfig _ => 0
  | PIndex _ _ _ => 1
  | PIndexUpdate _ _ _ _ => 2
  | PRequest _ => 3
  | PResponse _ => 4
  | PDownloadProgress _ => 5
  | PPing => 6
  | PClose _ => 7
  end.

(** The types [newMessage] knows. *)
Definition newMessage (t : Z) : bool := (0 <=? t) && (t <=? 7).

Record Hello := MkHello {
  DeviceName : string; ClientName : string; ClientVersion : string; NumConnections : Z;
  Timestamp : Z }.
Record bepHello := MkBepHello {
  wDeviceName : string; wClientName : string; wClientVersion : string; wNumConnections : Z;
  wTimestamp : Z }.
Definition hello_toWire (h : Hello) : bepHello :=
  MkBepHello (DeviceName h) (ClientName h) (ClientVersion h) (i32 (NumConnections h)) (Timestamp h).
Definition helloFromWire (w : bepHello) : Hello :=
  MkHello (wDeviceName w) (wClientName w) (wClientVersion w) (wNumConnections w) (wTimestamp w).

(** [proto.Marshal], [proto.Unmarshal] into a message of a type, and the block
    functions of LZ4, with the room in the destination; [None] is an error (the
    strings of a message have to be UTF-8) or data that cannot be compressed. *)
Class Codec := {
  marshal : protoMessage → option (list Z);
  unmarshal : Z → list Z → option protoMessage;
  marshal_header : Z → Z → list Z;
  unmarshal_header : list Z → option (Z * Z);
  marshal_hello : bepHello → option (list Z);
  unmarshal_hello : list Z → option bepHello;
  compress : list Z → Z → option (list Z);
  uncompress : list Z → Z → option (list Z);
}.

Class CodecLaws (C : Codec) : Prop := {
  unmarshal_marshal m bs : marshal m = Some bs → unmarshal (typeOf m) bs = Some m;
  unmarshal_marshal_header t c : unmarshal_header (marshal_header t c) = Some (t, c);
  unmarshal_marshal_hello h bs : marshal_hello h = Some bs → unmarshal_hello bs = Some h;
  uncompress_compress src room c :
    compress src room = Some c → uncompress c (Z.of_nat (length src)) = Some src;
  compress_room src room c : compress src room = Some c → Z.of_nat (length c) ≤ room;
}.

Section framing.
Context {C : Codec}.

(** ** Writing *)

Abbreviation len l := (Z.of_nat (length l)).

(** [size] is [proto.Size(msg)]. *)
Definition shouldCompressMessage (compression : Z) (msg : protoMessage) (size : Z) : go bool :=
  if compression =? CompressionNever then Ok false
  else if compression =? CompressionAlways then Ok (compressionThreshold <=? size)
  else if compression =? CompressionMetadata
  then Ok (negb (match msg with PResponse _ => true | _ => false end) &&
           (compressionThreshold <=? size))
  else Panic "unknown compression setting".

(** The compressed data after the size of the original, in a buffer of [room]
    bytes. *)
Definition lz4Compress (src : list Z) (room : Z) : option (list Z) :=
  match compress src (room - 4) with
  | Some c => Some (be_encode 4 (len src) ++ c)
  | None => None
  end.

Definition frame (hdr body : list Z) : list Z :=
  be_encode 2 (len hdr) ++ hdr ++ be_encode 4 (len body) ++ body.

(** The bytes of a compressed message, [None] when it has to be sent as it is. *)
Definition writeCompressedMessage (msg : protoMessage) (marshaled : list Z) : go (option (list Z)) :=
  let hdr := marshal_header (typeOf msg) 1 in
  if 65535 <? len hdr then Panic "impossibly large header"
  else Ok (frame hdr <$> lz4Compress marshaled (len marshaled - len marshaled / 32)).

Definition writeMessage (compression : Z) (msg : protoMessage) : go (list Z) :=
  let hdr := marshal_header (typeOf msg) 0 in
  if 65535 <? len hdr then Panic "impossibly large header"
  else
    match marshal msg with
    | None => Err "marshalling message"
    | Some body =>
        match shouldCompressMessage compression msg (len body) with
        | Ok true =>
            let! compressed := writeCompressedMessage msg body in
            Ok (default (frame hdr body) compressed)
        | Ok false => Ok (frame hdr body)
        | Err e => Err e
        | Panic p => Panic p
        end
    end.

(** ** Reading *)

(** [io.ReadFull] *)
Definition ReadFull (n : nat) (s : list Z) : option (list Z * list Z) :=
  if (n <=? length s)%nat then Some (take n s, drop n s) else None.

Definition i16 (z : Z) : Z := (z + 32768) mod 65536 - 32768.

Definition lz4Decompress (src : list Z) : go (list Z) :=
  if (length src <? 4)%nat then Err "compressed message is too short"
  else
    let size := be_decode (take 4 src) in
    if MaxMessageLen <? size then Err "decompressed message is too large"
    else match uncompress (drop 4 src) size with
         | Some buf => Ok buf
         | None => Err "decompressing message"
         end.

Definition readHeader (s : list Z) : go ((Z * Z) * list Z) :=
  match ReadFull 2 s with
  | None => Err "reading length"
  | Some (lenbuf, s) =>
      let hdrLen := i16 (be_decode lenbuf) in
      if hdrLen <? 0 then Err "negative header length"
      else
        match ReadFull (Z.to_nat hdrLen) s with
        | None => Err "reading header"
        | Some (buf, s) =>
            match unmarshal_header buf with
            | None => Err "unmarshalling header"
            | Some hdr => Ok (hdr, s)
            end
        end
  end.

(** A message that was read, a message of an unknown type that is skipped, or an
    error that ends the connection; with the rest of the stream. *)
Inductive readResult :=
  | ReadMessage (msg : protoMessage) (rest : list Z)
  | UnknownMessage (rest : list Z)
  | ReadError (e : string).

Definition readMessageAfterHeader (hdr : Z * Z) (s : list Z) : readResult :=
  match ReadFull 4 s with
  | None => ReadError "reading message length"
  | Some (lenbuf, s) =>
      let msgLen := i32 (be_decode lenbuf) in
      if msgLen <? 0 then ReadError "negative message length"
      else if MaxMessageLen <? msgLen then ReadError "message length exceeds maximum"
      else
        match ReadFull (Z.to_nat msgLen) s with
        | None => ReadError "reading message"
        | Some (buf, s) =>
            match (if hdr.2 =? 0 then Ok buf
                   else if hdr.2 =? 1 then lz4Decompress buf
                   else Err "unknown message compression") with
            | Ok buf =>
                if newMessage hdr.1
                then match unmarshal hdr.1 buf with
                     | Some msg => ReadMessage msg s
                     | None => ReadError "unmarshalling message"
                     end
                else UnknownMessage s
            | Err e | Panic e => ReadError e
            end
        end
  end.

Definition readMessage (s : list Z) : readResult :=
  match readHeader s with
  | Ok (hdr, s) => readMessageAfterHeader hdr s
  | Err e | Panic e => ReadError e
  end.

(** The messages the reader hands on, up to the error that closes the
    connection. *)
Fixpoint readerLoop (fuel : nat) (s : list Z) : list protoMessage * string :=
  match fuel with
  | O => ([], "out of fuel"%string)
  | S fuel =>
      match readMessage s with
      | ReadMessage msg s => let '(msgs, e) := readerLoop fuel s in (msg :: msgs, e)
      | UnknownMessage s => readerLoop fuel s
      | ReadError e => ([], e)
      end
  end.

(** ** The greeting ([bep_hello.go]) *)

Definition HelloMessageMagic : Z := 782752011.
Definition Version13HelloMagic : Z := 2675555392.

Definition writeHello (h : Hello) : go (list Z) :=
  match marshal_hello (hello_toWire h) with
  | None => Err "marshal"
  | Some msg =>
      if 32767 <? len msg then Panic "bug: attempting to serialize too large hello message"
      else Ok (be_encode 4 HelloMessageMagic ++ be_encode 2 (len msg) ++ msg)
  end.

Definition readHello (s : list Z) : go (Hello * list Z) :=
  match ReadFull 4 s with
  | None => Err "EOF"
  | Some (header, s) =>
      let magic := be_decode header in
      if magic =? HelloMessageMagic then
        match ReadFull 2 s with
        | None => Err "EOF"
        | Some (header, s) =>
            let msgSize := be_decode header in
            if 32767 <? msgSize then Err "hello message too big"
            else
              match ReadFull (Z.to_nat msgSize) s with
              | None => Err "EOF"
              | Some (buf, s) =>
                  match unmarshal_hello buf with
                  | None => Err "unmarshal"
                  | Some w => Ok (helloFromWire w, s)
                  end
              end
        end
      else if (magic =? 65537) || (magic =? 65536) || (magic =? Version13HelloMagic)
      then Err "the remote device speaks an older version of the protocol not compatible with this version"
      else Err "the remote device speaks an unknown (newer?) version of the protocol"
  end.

(** The timestamp must be set; the answer is what the other side sends. *)
Definition ExchangeHello (h : Hello) (incoming : list Z) : go (list Z * (Hello * list Z)) :=
  if Timestamp h =? 0 then Panic "bug: missing timestamp in outgoing hello"
  else
    let! out := writeHello h in
    let! r := readHello incoming in
    Ok (out, r).

(** ** What is written is read *)

Context {L : CodecLaws C}.

Lemma ReadFull_app n a b : length a = n → ReadFull n (a ++ b) = Some (a, b).
Proof.
  intros <-. unfold ReadFull. rewrite length_app, (proj2 (Nat.leb_le _ _)) by lia.
  by rewrite take_app_length, drop_app_length.
Qed.

Lemma ReadFull_Some n s a b : ReadFull n s = Some (a, b) → s = a ++ b ∧ length a = n.
Proof.
  unfold ReadFull. destruct (Nat.leb_spec n (length s)); [|done]. intros [= <- <-].
  split; [by rewrite take_drop|]. rewrite length_take. lia.
Qed.

(** More bytes do not change what was read. *)
Lemma ReadFull_more n s a b more : ReadFull n s = Some (a, b) → ReadFull n (s ++ more) = Some (a, b ++ more).
Proof. intros [-> Ha]%ReadFull_Some. rewrite <-(assoc_L (++)). by apply ReadFull_app. Qed.
Definition and_more (r : readResult) (more : list Z) : readResult :=
  match r with ReadMessage msg s => ReadMessage msg (s ++ more) | UnknownMessage s => UnknownMessage (s ++ more) | ReadError e => ReadError e end.
Lemma readMessage_more s more : (∃ e, readMessage s = ReadError e) ∨ readMessage (s ++ more) = and_more (readMessage s) more.
Proof.
  unfold readMessage, readHeader. destruct (ReadFull 2 s) as [[a s1]|] eqn:E1; [|left; by eexists].
  rewrite (ReadFull_more _ _ _ _ more E1). destruct (i16 (be_decode a) <? 0); [left; by eexists|].
  destruct (ReadFull _ s1) as [[b s2]|] eqn:E2; [|left; by eexists]. rewrite (ReadFull_more _ _ _ _ more E2).
  destruct (unmarshal_header b) as [hdr|]; [|left; by eexists].
  unfold readMessageAfterHeader. destruct (ReadFull 4 s2) as [[c s3]|] eqn:E3; [|left; by eexists].
  rewrite (ReadFull_more _ _ _ _ more E3). destruct (i32 (be_decode c) <? 0); [left; by eexists|].
  destruct (MaxMessageLen <? i32 (be_decode c)); [left; by eexists|].
  destruct (ReadFull _ s3) as [[d s4]|] eqn:E4; [|left; by eexists]. rewrite (ReadFull_more _ _ _ _ more E4).
  destruct (if hdr.2 =? 0 then _ else _) as [buf|e|p]; [|left; by eexists..].
  destruct (newMessage _); [|by right]. destruct (unmarshal _ _); [by right|left; by eexists].
Qed.

Lemma i16_id z : 0 ≤ z < 32768 → i16 z = z.
Proof. unfold i16. intros. rewrite Z.mod_small; lia. Qed.

(** A frame whose header and body are in bounds. *)
Lemma read_frame t c body rest :
  len (marshal_header t c) ≤ 32767 → len body ≤ MaxMessageLen →
  readMessage (frame (marshal_header t c) body ++ rest) =
  match (if c =? 0 then Ok body else if c =? 1 then lz4Decompress body
         else Err "unknown message compression") with
  | Ok buf => if newMessage t
              then match unmarshal t buf with
                   | Some msg => ReadMessage msg rest
                   | None => ReadError "unmarshalling message"
                   end
              else UnknownMessage rest
  | Err e | Panic e => ReadError e
  end.
Proof.
  intros Hh Hb. unfold readMessage, readHeader, frame. rewrite <- !app_assoc.
  rewrite ReadFull_app by apply length_be_encode.
  rewrite be_decode_encode by lia. rewrite i16_id by lia. rewrite (proj2 (Z.ltb_ge _ _)) by lia.
  rewrite Nat2Z.id, ReadFull_app by done. rewrite unmarshal_marshal_header.
  unfold readMessageAfterHeader. rewrite ReadFull_app by apply length_be_encode.
  unfold MaxMessageLen in Hb. rewrite be_decode_encode by lia.
  rewrite i32_id by (unfold in_i32; lia). rewrite (proj2 (Z.ltb_ge _ 0)) by lia.
  unfold MaxMessageLen at 1. rewrite (proj2 (Z.ltb_ge _ (len body))) by lia.
  by rewrite Nat2Z.id, ReadFull_app.
Qed.

Lemma lz4_roundtrip src room c :
  len src ≤ MaxMessageLen → lz4Compress src room = Some c →
  lz4Decompress c = Ok src ∧ len c ≤ Z.max room 4.
Proof.
  unfold MaxMessageLen. intros Hs. unfold lz4Compress.
  destruct (compress src (room - 4)) as [d|] eqn:Ec; [|done]. intros <-%(inj Some).
  unfold lz4Decompress. split.
  - rewrite length_app, length_be_encode. rewrite (proj2 (Nat.ltb_ge _ _)) by lia.
    rewrite take_app_length' by (by rewrite length_be_encode).
    rewrite drop_app_length' by (by rewrite length_be_encode).
    rewrite be_decode_encode by lia. unfold MaxMessageLen. rewrite (proj2 (Z.ltb_ge _ _)) by lia.
    by rewrite (uncompress_compress _ _ _ Ec).
  - rewrite length_app, length_be_encode. pose proof (compress_room _ _ _ Ec). lia.
Qed.

(** The type of a message is known. *)
Lemma newMessage_typeOf msg : newMessage (typeOf msg) = true.
Proof. by destruct msg. Qed.

Definition setting_ok (compression : Z) : Prop :=
  compression = CompressionMetadata ∨ compression = CompressionNever ∨
  compression = CompressionAlways.

(** A message that can be marshalled and is not too long. *)
Definition message_ok (msg : protoMessage) : Prop :=
  (∃ body, marshal msg = Some body ∧ len body ≤ MaxMessageLen) ∧
  ∀ c, len (marshal_header (typeOf msg) c) ≤ 32767.

Lemma write_shape compression msg body :
  setting_ok compression → (∀ c, len (marshal_header (typeOf msg) c) ≤ 32767) →
  marshal msg = Some body →
  writeMessage compression msg = Ok (frame (marshal_header (typeOf msg) 0) body) ∨
  ∃ c room, lz4Compress body room = Some c ∧ room ≤ len body ∧
    writeMessage compression msg = Ok (frame (marshal_header (typeOf msg) 1) c).
Proof.
  intros Hc Hh Hb. unfold writeMessage. rewrite (proj2 (Z.ltb_ge _ _)) by (specialize (Hh 0); lia).
  rewrite Hb. assert (∃ b, shouldCompressMessage compression msg (len body) = Ok b) as [b ->].
  { unfold shouldCompressMessage. destruct Hc as [->|[->| ->]]; cbn; eauto. }
  destruct b; [|by left]. unfold writeCompressedMessage.
  rewrite (proj2 (Z.ltb_ge _ _)) by (specialize (Hh 1); lia). cbn [mbind go_bind].
  destruct (lz4Compress _ _) as [c|] eqn:Ec; [|by left]. right. eexists c, _.
  split_and!; [exact Ec| |done]. assert (0 ≤ len body / 32) by (apply Z.div_pos; lia). lia.
Qed.

Lemma read_written compression msg rest bs :
  setting_ok compression → message_ok msg → writeMessage compression msg = Ok bs →
  readMessage (bs ++ rest) = ReadMessage msg rest.
Proof.
  intros Hc [(body & Hb & Hl) Hh] Hw.
  destruct (write_shape compression msg body Hc Hh Hb) as [E|(c & room & Ec & Hroom & E)];
    rewrite E in Hw; apply Ok_inj in Hw as <-.
  - rewrite read_frame by (first [apply Hh|done]). change (0 =? 0) with true. cbv iota.
    by rewrite newMessage_typeOf, (unmarshal_marshal msg body).
  - destruct (lz4_roundtrip _ _ _ Hl Ec) as [Hd Hlen].
    rewrite read_frame; [|apply Hh|unfold MaxMessageLen in *; lia].
    change (1 =? 0) with false. change (1 =? 1) with true. cbv iota. rewrite Hd.
    by rewrite newMessage_typeOf, (unmarshal_marshal msg body).
Qed.

(** A message of which bytes are missing is not read. *)
Lemma read_truncated compression msg part tail :
  setting_ok compression → message_ok msg → tail ≠ [] → writeMessage compression msg = Ok (part ++ tail) →
  ∃ e, readMessage part = ReadError e.
Proof.
  intros Hc Hm Ht Hw. destruct (readMessage_more part tail) as [?|E]; [done|].
  pose proof (read_written compression msg [] _ Hc Hm Hw) as Hr. rewrite app_nil_r, E in Hr.
  destruct (readMessage part) as [m s|s|e]; [|done|by exists e]. cbn in Hr. injection Hr as _ Hr.
  by apply app_eq_nil in Hr as [_ ?].
Qed.

(** Writing fails only for messages that cannot be marshalled. *)
Lemma write_succeeds compression msg :
  setting_ok compression → message_ok msg → ∃ bs, writeMessage compression msg = Ok bs.
Proof.
  intros Hc [(body & Hb & _) Hh].
  destruct (write_shape compression msg body Hc Hh Hb) as [E|(c & room & _ & _ & E)]; eauto.
Qed.

(** The messages of a stream, with the settings they are written under. *)
Fixpoint write_all (ms : list (Z * protoMessage)) : go (list Z) :=
  match ms with
  | [] => Ok []
  | (c, msg) :: ms =>
      let! bs := writeMessage c msg in
      let! rest := write_all ms in
      Ok (bs ++ rest)
  end.

(** The bytes of a message the reader accepted or skipped. *)
Lemma readMessage_consumes s rest :
  (∃ msg, readMessage s = ReadMessage msg rest) ∨ readMessage s = UnknownMessage rest →
  ∃ used, s = used ++ rest ∧ 6 ≤ len used ≤ 2 + 32767 + 4 + MaxMessageLen.
Proof.
  unfold readMessage, readHeader. destruct (ReadFull 2 s) as [[a s1]|] eqn:E1; [|by intros [[]|]].
  apply ReadFull_Some in E1 as [-> Ha]. destruct (Z.ltb_spec (i16 (be_decode a)) 0); [by intros [[]|]|].
  destruct (ReadFull _ s1) as [[b s2]|] eqn:E2; [|by intros [[]|]].
  apply ReadFull_Some in E2 as [-> Hb]. destruct (unmarshal_header b) as [hdr|]; [|by intros [[]|]].
  unfold readMessageAfterHeader. destruct (ReadFull 4 s2) as [[c s3]|] eqn:E3; [|by intros [[]|]].
  apply ReadFull_Some in E3 as [-> Hc]. destruct (Z.ltb_spec (i32 (be_decode c)) 0); [by intros [[]|]|].
  destruct (Z.ltb_spec MaxMessageLen (i32 (be_decode c))); [by intros [[]|]|].
  destruct (ReadFull _ s3) as [[d s4]|] eqn:E4; [|by intros [[]|]].
  apply ReadFull_Some in E4 as [-> Hd]. intros Hread.
  assert (s4 = rest) as ->.
  { destruct (if hdr.2 =? 0 then _ else _) as [buf|e|p]; [|by destruct Hread as [[]|]..].
    destruct (newMessage _); [|by destruct Hread as [[]|[= ->]]].
    destruct (unmarshal _ _); [|by destruct Hread as [[]|]]. by destruct Hread as [[? [= _ ->]]|]. }
  exists (a ++ b ++ c ++ d). rewrite !length_app, <- !app_assoc. split; [done|].
  assert (i16 (be_decode a) < 32768) by (unfold i16; zlia). lia.
Qed.

Lemma readerLoop_written ms : ∀ bs rest fuel,
  Forall (λ cm, setting_ok cm.1 ∧ message_ok cm.2) ms → write_all ms = Ok bs →
  (length ms ≤ fuel)%nat →
  readerLoop fuel (bs ++ rest) =
  let '(msgs, e) := readerLoop (fuel - length ms) rest in (map snd ms ++ msgs, e).
Proof.
  induction ms as [|[c msg] ms IH]; intros bs rest fuel Hok Hw Hf; cbn [write_all] in Hw.
  { apply Ok_inj in Hw as <-. cbn [length app map]. rewrite Nat.sub_0_r. by destruct (readerLoop _ _). }
  apply Forall_cons in Hok as [[Hc Hm] Hok]. cbn in Hc, Hm.
  destruct (writeMessage c msg) as [b| |] eqn:Ew; [|done..]. cbn [mbind go_bind] in Hw.
  destruct (write_all ms) as [bs'| |] eqn:Ea; [|done..]. cbn [mbind go_bind] in Hw.
  apply Ok_inj in Hw as <-. destruct fuel as [|fuel]; [cbn in Hf; lia|].
  cbn [readerLoop]. rewrite <- app_assoc, (read_written c msg _ b Hc Hm Ew).
  rewrite (IH bs' rest fuel Hok eq_refl) by (cbn in Hf; lia). cbn [length Nat.sub].
  by destruct (readerLoop _ _).
Qed.

Lemma write_all_succeeds ms :
  Forall (λ cm, setting_ok cm.1 ∧ message_ok cm.2) ms → ∃ bs, write_all ms = Ok bs.
Proof.
  induction 1 as [|[c m] ms [Hc Hm] _ [bs' IH]]; [by eexists|]. cbn [write_all].
  destruct (write_succeeds c m Hc Hm) as [bs ->]. cbn [mbind go_bind]. rewrite IH. by eexists.
Qed.

(** C16.  What one side writes the other side reads: a sequence of messages,
    each written with or without compression, can be written and is read as these
    messages in this order; and whatever the other side sends, a message takes at
    least six bytes of the stream and at most 500 MB and some more. *)
Theorem connection_roundtrip ms s rest :
  (Forall (λ cm, setting_ok cm.1 ∧ message_ok cm.2) ms →
   ∃ bs, write_all ms = Ok bs ∧
     readerLoop (S (length ms)) bs = (map snd ms, "reading length"%string)) ∧
  ((∃ msg, readMessage s = ReadMessage msg rest) ∨ readMessage s = UnknownMessage rest →
   ∃ used, s = used ++ rest ∧ 6 ≤ len used ≤ 500032773).
Proof.
  split; [|apply readMessage_consumes]. intros Hok. destruct (write_all_succeeds ms Hok) as [bs Hw].
  exists bs. split; [done|]. rewrite <- (app_nil_r bs).
  rewrite (readerLoop_written ms bs [] (S (length ms)) Hok Hw) by lia.
  replace (S (length ms) - length ms)%nat with 1%nat by lia. cbn. by rewrite app_nil_r.
Qed.

(** The greeting is read as it was written; only too long ones cannot be sent. *)
Lemma hello_roundtrip h rest msg :
  in_i32 (NumConnections h) → marshal_hello (hello_toWire h) = Some msg →
  if 32767 <? len msg then ∃ p, writeHello h = Panic p
  else ∃ bs, writeHello h = Ok bs ∧ readHello (bs ++ rest) = Ok (h, rest).
Proof.
  intros Hn Hm. unfold writeHello. rewrite Hm.
  destruct (Z.ltb_spec 32767 (len msg)); [by eexists|].
  eexists. split; [done|]. unfold readHello. rewrite <- !app_assoc.
  rewrite ReadFull_app by apply length_be_encode.
  rewrite be_decode_encode by (unfold HelloMessageMagic; lia). rewrite Z.eqb_refl.
  rewrite ReadFull_app by apply length_be_encode. rewrite be_decode_encode by lia.
  rewrite (proj2 (Z.ltb_ge _ _)) by lia. rewrite Nat2Z.id, ReadFull_app by done.
  rewrite (unmarshal_marshal_hello _ _ Hm). destruct h. unfold helloFromWire, hello_toWire. cbn in *.
  by rewrite i32_id.
Qed.
End framing.

(** ** An encoding that satisfies the laws *)

(** The messages the example encoding knows: pings, closes, configurations without
    folders and requests without a folder; a run of one byte is compressed to it. *)
Definition sample_codec : Codec := {|
  marshal msg :=
    match msg with
    | PPing => Some []
    | PClose reason => Some (map byte_val (s2l reason))
    | PClusterConfig (MkBepClusterConfig [] sec) => Some [if sec then 1 else 0]
    | PRequest (MkBepRequest id "" name 0 size [] false 0) => Some (id :: size :: map byte_val (s2l name))
    | _ => None
    end;
  unmarshal t bs :=
    match t, bs with
    | 6, _ => Some PPing
    | 7, _ => Some (PClose (l2s (map byte_chr bs)))
    | 0, [b] => Some (PClusterConfig (MkBepClusterConfig [] (b =? 1)))
    | 3, id :: size :: bs => Some (PRequest (MkBepRequest id "" (l2s (map byte_chr bs)) 0 size [] false 0))
    | _, _ => None
    end;
  marshal_header t c := [t; c];
  unmarshal_header bs := match bs with [t; c] => Some (t, c) | _ => None end;
  marshal_hello h :=
    match h with MkBepHello "" "" "" n t => Some [n; t] | _ => None end;
  unmarshal_hello bs := match bs with [n; t] => Some (MkBepHello "" "" "" n t) | _ => None end;
  compress src room :=
    match src with
    | b :: _ => if (1 <=? room) && bool_decide (src = replicate (length src) b) then Some [b] else None
    | [] => None
    end;
  uncompress bs n := match bs with [b] => Some (replicate (Z.to_nat n) b) | _ => None end;
|}.

Lemma name_bytes s : l2s (map byte_chr (map byte_val (s2l s))) = s.
Proof.
  rewrite map_map, (map_ext _ id) by apply byte_chr_val. by rewrite map_id, l2s_s2l.
Qed.

#[export] Instance sample_laws : CodecLaws sample_codec.
Proof.
  split.
  - intros m bs. destruct m as [[[|? ?] sec]| | |[id [|? ?] name [|?|?] size [|? ?] [] [|?|?]]| | | |reason]; try done.
    + intros [= <-]. by destruct sec.
    + intros [= <-]. cbn. by rewrite name_bytes.
    + intros [= <-]. cbn. by rewrite name_bytes.
  - done.
  - intros [[|? ?] [|? ?] [|? ?] n t] bs; try done. by intros [= <-].
  - intros src room c. cbn. destruct src as [|b src]; [done|].
    destruct (1 <=? room); [|done]. cbn [andb]. case_bool_decide as Hr; [|done]. intros [= <-].
    by rewrite Nat2Z.id, <- Hr.
  - intros src room c. cbn. destruct src as [|b src]; [done|].
    destruct (Z.leb_spec 1 room); [|done]. cbn [andb]. case_bool_decide; [|done]. by intros [= <-].
Qed.

Definition sample_close : protoMessage := PClose (l2s (replicate 200 "x"%char)).

Lemma connection_roundtrip_witness :
  let ms := [(CompressionAlways, PClusterConfig (MkBepClusterConfig [] true));
             (CompressionAlways, sample_close); (CompressionNever, PPing)] in
  (∃ bs, write_all (C := sample_codec) ms = Ok bs ∧ length bs = 30%nat ∧
     readerLoop (C := sample_codec) 4 bs = (map snd ms, "reading length"%string)) ∧
  ∃ used, [0; 2; 6; 0; 0; 0; 0; 0; 9] = used ++ [9] ∧ 6 ≤ Z.of_nat (length used) ≤ 500032773.
Proof.
  intros ms.
  destruct (connection_roundtrip (C := sample_codec) ms [0; 2; 6; 0; 0; 0; 0; 0; 9] [9]) as [H1 H2].
  split.
  - destruct H1 as (bs & Hw & Hr).
    + repeat constructor; cbn; try (by right; right); try (by right; left); try lia;
        eexists; (split; [reflexivity|]); unfold MaxMessageLen; cbn; lia.
    + exists bs. split; [exact Hw|]. split; [|exact Hr].
      vm_compute in Hw. apply Ok_inj in Hw. rewrite <- Hw. reflexivity.
  - apply H2. left. exists PPing. vm_compute. reflexivity.
Defined.
