(* ===== verification/Dispatch.v ===== *)
(** * The message loops of a connection ([src/lib/protocol/protocol.go],
      [nativemodel_windows.go])

    What the dispatcher lets through to the model, how responses find the requests
    they answer, in which order the writer sends, and what Windows makes of the
    names it receives. *)
From S2P Require Import Prelude GoLib Vector Platform FileInfo DeviceID DownloadState Messages Paths Wire.
From Stdlib Require Import Ascii.
From Stdlib Require String.

Local Open Scope Z_scope.

(** ** The checks on what arrives *)

Definition errUncleanFilename : string := "filename not in canonical format".
Definition errInvalidFilename : string := "filename is invalid".
Definition errDeletedHasBlocks : string := "deleted file with non-empty block list".
Definition errDirectoryHasBlocks : string := "directory with non-empty block list".
Definition errFileHasNoBlocks : string := "file with empty block list".

Definition checkFilename (name : string) : option string :=
  let p := s2l name in
  if negb (bool_decide (Clean p = p)) then Some errUncleanFilename
  else if bool_decide (p = []) || bool_decide (p = dot) || bool_decide (p = dotdot)
  then Some errInvalidFilename
  else if has_prefix p [sep] then Some errInvalidFilename
  else if has_prefix p (dotdot ++ [sep]) then Some errInvalidFilename
  else None.

Definition checkFileInfoConsistency (f : FileInfo) : option string :=
  match checkFilename (fName f) with
  | Some e => Some e
  | None =>
      if fDeleted f && negb (length (fBlocks f) =? 0)%nat then Some errDeletedHasBlocks
      else if (fType f =? FileInfoTypeDirectory) && negb (length (fBlocks f) =? 0)%nat
      then Some errDirectoryHasBlocks
      else if negb (fDeleted f) && negb (IsInvalid f) && (fType f =? FileInfoTypeFile)
              && (length (fBlocks f) =? 0)%nat
      then Some errFileHasNoBlocks
      else None
  end.

Fixpoint checkIndexConsistency (fs : list FileInfo) : option string :=
  match fs with
  | [] => None
  | f :: fs =>
      match checkFileInfoConsistency f with
      | Some e => Some e
      | None => checkIndexConsistency fs
      end
  end.

(** ** The dispatcher *)

(** What the dispatcher hands on: calls of the model, a request that is answered by
    a goroutine of its own, a response for the table of requests. *)
Inductive call :=
  | CallClusterConfig (c : ClusterConfig)
  | CallIndex (folder : string) (m : message)
  | CallRequest (r : Request)
  | CallResponse (r : Response)
  | CallDownloadProgress (p : DownloadProgress).

(** [stateInitial] and [stateReady] *)
Inductive dispatcherState := stateInitial | stateReady.

(** The transition of the state for a message, or the error that ends the loop. *)
Definition next_state (state : dispatcherState) (msg : protoMessage) : go dispatcherState :=
  match msg with
  | PClusterConfig _ => Ok stateReady
  | PClose reason => Err ("closed by remote: " +:+ reason)
  | _ =>
      match state with
      | stateReady => Ok stateReady
      | stateInitial => Err "invalid state"
      end
  end.

(** The call a message leads to, none for a ping. *)
Definition handle (msg : protoMessage) : go (option call) :=
  match msg with
  | PClusterConfig m => let! c := clusterConfigFromWire m in Ok (Some (CallClusterConfig c))
  | PIndex folder files l =>
      let fs := map FileInfoFromWire files in
      match checkIndexConsistency fs with
      | Some e => Err e
      | None => Ok (Some (CallIndex folder (Index fs l)))
      end
  | PIndexUpdate folder files l p =>
      let fs := map FileInfoFromWire files in
      match checkIndexConsistency fs with
      | Some e => Err e
      | None => Ok (Some (CallIndex folder (IndexUpdate fs p l)))
      end
  | PRequest m =>
      match checkFilename (wrqName m) with
      | Some e => Err e
      | None =>
          if wrqSize m <=? 0 then Err "request size too small"
          else if MaxRequestSize <? wrqSize m then Err "request size exceeds maximum allowed"
          else Ok (Some (CallRequest (requestFromWire m)))
      end
  | PResponse m => Ok (Some (CallResponse (responseFromWire m)))
  | PDownloadProgress m => Ok (Some (CallDownloadProgress (downloadProgressFromWire m)))
  | PPing => Ok None
  | PClose _ => Ok None
  end.

(** Requests and responses are handed on and cannot fail; for the other calls the
    model may return an error. *)
Definition may_fail (c : call) : bool :=
  match c with CallRequest _ | CallResponse _ => false | _ => true end.

Section dispatcher.
(** The answer of the model to a call, after the calls before it. *)
Variable model : list call → call → option string.

(** How the loop ends: it waits for more, it returns an error, or it panics. *)
Inductive ending := Waiting (state : dispatcherState) | Ended (e : string) | Panicked (p : string).

(** [trace] holds the calls so far. *)
Fixpoint dispatcherLoop (state : dispatcherState) (trace : list call) (inbox : list protoMessage)
    : list call * ending :=
  match inbox with
  | [] => (trace, Waiting state)
  | msg :: inbox =>
      match next_state state msg with
      | Err e => (trace, Ended e)
      | Panic p => (trace, Panicked p)
      | Ok state =>
          match handle msg with
          | Err e => (trace, Ended e)
          | Panic p => (trace, Panicked p)
          | Ok None => dispatcherLoop state trace inbox
          | Ok (Some c) =>
              match (if may_fail c then model trace c else None) with
              | Some e => (trace ++ [c], Ended e)
              | None => dispatcherLoop state (trace ++ [c]) inbox
              end
          end
      end
  end.
End dispatcher.

(** ** Answering requests *)

(** The response for what the model returned for the request. *)
Definition handleRequest (req : Request) (res : list Z + protoError) : Response :=
  match res with
  | inr err => MkResponse (rqID req) [] (errorToCode (Some err))
  | inl data => MkResponse (rqID req) data (errorToCode None)
  end.

(** ** The requests that wait for an answer *)

(** A caller of [Request] is known by the number it was given; an answer is the
    data and the error, [None] the closing of the channel. *)
Abbreviation answer := (option (list Z * option protoError)).

Record requestTable := MkRequestTable {
  nextID : Z;
  awaiting : gset Z;
  answered : list (Z * answer);
  tableClosed : bool;
}.
Definition newTable : requestTable := MkRequestTable 0 ∅ [] false.

Inductive tableEvent :=
  | EvRequest
  | EvResponse (resp : Response)
  | EvClose.

(** The part of [Request] under the lock.  It may run after the connection was
    closed; sending the request fails then and the caller does not wait. *)
Definition startRequest (t : requestTable) : go requestTable :=
  if bool_decide (nextID t ∈ awaiting t) then Panic "id taken"
  else Ok (MkRequestTable (i64 (nextID t + 1)) ({[nextID t]} ∪ awaiting t) (answered t)
             (tableClosed t)).

Definition handleResponse (t : requestTable) (resp : Response) : requestTable :=
  if bool_decide (rsID resp ∈ awaiting t)
  then MkRequestTable (nextID t) (awaiting t ∖ {[rsID resp]})
         (answered t ++ [(rsID resp, Some (rsData resp, codeToError (rsCode resp)))])
         (tableClosed t)
  else t.

(** The part of [internalClose] that ends the waiting. *)
Definition closeAwaiting (t : requestTable) : requestTable :=
  if tableClosed t then t
  else MkRequestTable (nextID t) ∅
         (answered t ++ map (λ i, (i, None)) (elements (awaiting t))) true.

Definition table_step (t : requestTable) (e : tableEvent) : go requestTable :=
  match e with
  | EvRequest => startRequest t
  | EvResponse resp => Ok (handleResponse t resp)
  | EvClose => Ok (closeAwaiting t)
  end.

Fixpoint table_run (t : requestTable) (es : list tableEvent) : go requestTable :=
  match es with
  | [] => Ok t
  | e :: es => let! t := table_step t e in table_run t es
  end.

(** ** The writer *)

(** What the writer takes from its channels. *)
Inductive writerEvent :=
  | TakeClusterConfig (c : ClusterConfig)
  | TakeOutbox (msg : protoMessage)
  | TakeClose (reason : string)
  | TakeClosed.

(** The loop has not sent the cluster configuration, takes messages, has ended, or has
    ended with [internalClose] because a write failed. *)
Inductive writerState := WriterInitial | WriterRunning | WriterDone | WriterFailed.

(** A message that was written, or whose write failed. *)
Inductive sent := Written (msg : protoMessage) | Broken (msg : protoMessage).
Definition write (fails : bool) (msg : protoMessage) : writerState * list sent :=
  if fails then (WriterFailed, [Broken msg]) else (WriterRunning, [Written msg]).

(** One [select]: [None] when the writer does not listen on that channel.
    [fails] says whether writing fails; the error of the last message is not looked at. *)
Definition writer_step (fails : bool) (s : writerState) (e : writerEvent)
    : option (writerState * list sent) :=
  match s, e with
  | (WriterDone | WriterFailed), _ => None
  | WriterInitial, TakeOutbox _ => None
  | _, TakeClusterConfig c => Some (write fails (PClusterConfig (clusterConfig_toWire c)))
  | WriterRunning, TakeOutbox msg => Some (write fails msg)
  | _, TakeClose reason => Some (WriterDone, (write fails (PClose reason)).2)
  | _, TakeClosed => Some (WriterDone, [])
  end.

(** What is sent for a sequence of events. *)
Fixpoint writerLoop (s : writerState) (es : list (writerEvent * bool))
    : option (writerState * list sent) :=
  match es with
  | [] => Some (s, [])
  | (e, fails) :: es =>
      match writer_step fails s e with
      | None => None
      | Some (s, out) =>
          match writerLoop s es with
          | None => None
          | Some (s, out') => Some (s, out ++ out')
          end
      end
  end.

(** ** Names on Windows ([nativemodel_windows.go]) *)

Definition backslash : ascii := "\"%char.
Definition FromSlash (s : string) : string :=
  l2s (map (λ c, if Ascii.eqb c sep then backslash else c) (s2l s)).

Definition name_set (f : FileInfo) (n : string) : FileInfo :=
  {| fName := n; fSize := fSize f; fModifiedS := fModifiedS f;
     fModifiedBy := fModifiedBy f; fVersion := fVersion f; fSequence := fSequence f;
     fBlocks := fBlocks f; fSymlinkTarget := fSymlinkTarget f; fBlocksHash := fBlocksHash f;
     fPreviousBlocksHash := fPreviousBlocksHash f; fEncrypted := fEncrypted f;
     fPlatform := fPlatform f; fType := fType f; fPermissions := fPermissions f;
     fModifiedNs := fModifiedNs f; fRawBlockSize := fRawBlockSize f;
     fDeleted := fDeleted f; fNoPermissions := fNoPermissions f;
     fLocalFlags := fLocalFlags f; fEncryptionTrailerSize := fEncryptionTrailerSize f;
     ftruncated := ftruncated f |}.

Definition has_backslash (s : string) : bool := bool_decide (backslash ∈ s2l s).

(** The loop at index [length passed]: [passed] is the part of [files] it has passed,
    with the names that were replaced in place. *)
Fixpoint fixup_loop (passed rest : list FileInfo) (out : option (list FileInfo))
    : list FileInfo :=
  match rest with
  | [] => default passed out
  | f :: rest =>
      if has_backslash (fName f)
      then fixup_loop (passed ++ [f]) rest (Some (default passed out))
      else
        let f := name_set f (FromSlash (fName f)) in
        fixup_loop (passed ++ [f]) rest ((λ o, o ++ [f]) <$> out)
  end.

Definition fixupFiles (files : list FileInfo) : list FileInfo := fixup_loop [] files None.

(** ** Names that pass the check *)

(** The check accepts the relative paths made of plain names, in the form [Join]
    gives them, and no others. *)
Lemma checkFilename_None name :
  checkFilename name = None ↔
  ∃ es, es ≠ [] ∧ Forall normal es ∧ s2l name = build false es.
Proof.
  unfold checkFilename. split.
  - case_bool_decide as Hc; [|done]. cbn [negb].
    destruct (bool_decide_reflect (s2l name = [])) as [|Hn]; [done|].
    destruct (bool_decide_reflect (s2l name = dot)) as [|Hd]; [done|].
    destruct (bool_decide_reflect (s2l name = dotdot)) as [|Hdd]; [done|]. cbn [orb].
    destruct (has_prefix (s2l name) [sep]) eqn:Hs; [done|].
    destruct (has_prefix (s2l name) (dotdot ++ [sep])) eqn:Hu; [done|]. intros _.
    assert (Canonicalize (s2l name) = Ok (s2l name)) as Ha.
    { unfold Canonicalize. rewrite Hc, Hu, Hs.
      rewrite bool_decide_eq_false_2 by done. destruct (has_prefix _ [sep; sep]) eqn:Hss; [|done].
      exfalso. apply prefixb_spec in Hss as [k Hk]. unfold has_prefix in Hs. by rewrite Hk in Hs. }
    destruct (Canonicalize_Ok _ _ Ha) as (es & Hes & E). exists es. split_and!; [|done|done].
    intros ->. apply Hd. by rewrite E.
  - intros (es & Hne & Hes & ->). pose proof (Forall_normal_nf false es Hes) as Hnf.
    rewrite bool_decide_eq_true_2 by (by apply Clean_build). cbn [negb].
    pose proof (Canonicalize_build es Hes) as Hc. unfold Canonicalize in Hc.
    rewrite Clean_build in Hc by done.
    assert (build false es ≠ dot) as Hd.
    { intros E. pose proof (split_build false es Hnf) as Hs. rewrite E in Hs.
      destruct es as [|e es]; [done|]. cbn in Hs. injection Hs as <- <-.
      apply Forall_cons in Hes as [(_ & He & _) _]. done. }
    destruct (has_prefix _ [sep; sep]); [done|].
    case_bool_decide as Hdd; [done|]. destruct (has_prefix _ (dotdot ++ [sep])); [done|].
    rewrite !bool_decide_eq_false_2; [|done|by apply build_nonempty]. cbn [orb].
    destruct (has_prefix (build false es) [sep]) eqn:Hs; [|done].
    apply prefixb_spec in Hs as [k Hk]. pose proof (IsAbs_build false es [] Hnf) as Ha.
    by rewrite app_nil_r, Hk in Ha.
Qed.

(** A file name passes the check of the dispatcher exactly if it is a relative
    path of plain names in its canonical form; the file system then finds such a
    name below its root, whatever the root is. *)
Theorem checkFilename_contained name root R :
  root = build true R → Forall normal R →
  (checkFilename name = None ↔ ∃ es, es ≠ [] ∧ Forall normal es ∧ s2l name = build false es) ∧
  (checkFilename name = None →
   ∃ es, es ≠ [] ∧ Forall normal es ∧ rooted (s2l name) root = Ok (build true (R ++ es))).
Proof.
  intros -> HR. split; [apply checkFilename_None|].
  intros (es & Hne & Hes & ->)%checkFilename_None. exists es.
  split_and!; [done|done|by apply rooted_build].
Qed.

Lemma checkFilename_contained_witness :
  checkFilename "../a" = Some errInvalidFilename ∧ checkFilename "a//b" = Some errUncleanFilename ∧
  ∃ es, es ≠ [] ∧ Forall normal es ∧
    rooted (s2l "a/b") (s2l "/data") = Ok (build true ([s2l "data"] ++ es)).
Proof.
  split; [vm_compute; reflexivity|]. split; [vm_compute; reflexivity|].
  refine (proj2 (checkFilename_contained "a/b" (s2l "/data") [s2l "data"] eq_refl _) _).
  - apply Forall_cons_2; [|apply Forall_nil_2].
    apply (bool_decide_eq_true (_ ∧ _ ∧ _ ∧ _)). vm_compute. reflexivity.
  - vm_compute. reflexivity.
Defined.

(** ** The dispatcher lets only checked messages through *)

(** What the model may rely on in a call. *)
Definition call_checked (c : call) : Prop :=
  match c with
  | CallIndex _ m => Forall (λ f, checkFileInfoConsistency f = None) (message_files m)
  | CallRequest r => checkFilename (rqName r) = None ∧ 0 < rqSize r ≤ MaxRequestSize
  | _ => True
  end.

Definition is_cluster_config (c : call) : bool :=
  match c with CallClusterConfig _ => true | _ => false end.

Lemma checkIndexConsistency_None fs :
  checkIndexConsistency fs = None ↔ Forall (λ f, checkFileInfoConsistency f = None) fs.
Proof.
  induction fs as [|f fs IH]; cbn [checkIndexConsistency]; [done|]. rewrite Forall_cons, <- IH.
  destruct (checkFileInfoConsistency f); naive_solver.
Qed.

Lemma handle_checked msg c : handle msg = Ok (Some c) → call_checked c.
Proof.
  destruct msg; cbn [handle]; intros H.
  - destruct (clusterConfigFromWire m); [|done..]. apply Ok_inj in H as [= <-]. done.
  - destruct (checkIndexConsistency _) eqn:E; [done|]. apply Ok_inj in H as [= <-].
    by apply checkIndexConsistency_None.
  - destruct (checkIndexConsistency _) eqn:E; [done|]. apply Ok_inj in H as [= <-].
    by apply checkIndexConsistency_None.
  - destruct (checkFilename _) eqn:E; [done|]. destruct (Z.leb_spec (wrqSize m) 0); [done|].
    destruct (Z.ltb_spec MaxRequestSize (wrqSize m)); [done|]. apply Ok_inj in H as [= <-]. done.
  - by apply Ok_inj in H as [= <-].
  - by apply Ok_inj in H as [= <-].
  - done.
  - done.
Qed.

(** The calls for the messages that are let through. *)
Definition calls (msgs : list protoMessage) : list call :=
  omap (λ msg, match handle msg with Ok c => c | _ => None end) msgs.

Definition is_close (msg : protoMessage) : bool :=
  match msg with PClose _ => true | _ => false end.

(** A run of the loop: it hands on the calls of a prefix of the inbox without a
    close, and the prefix is the inbox when the loop waits for more. *)
Lemma dispatcher_prefix model inbox : ∀ state trace trace' e,
  dispatcherLoop model state trace inbox = (trace', e) →
  ∃ k, trace' = trace ++ calls (take k inbox) ∧ existsb is_close (take k inbox) = false ∧
    Forall call_checked (calls (take k inbox)) ∧
    (match e with Waiting _ => k = length inbox | _ => True end) ∧
    (state = stateInitial →
     match calls (take k inbox) with [] => True | c :: _ => is_cluster_config c = true end).
Proof.
  assert (∀ (state : dispatcherState) (trace : list call) inbox,
    ∃ k, trace = trace ++ calls (take k inbox) ∧ existsb is_close (take k inbox) = false ∧
      Forall call_checked (calls (take k inbox)) ∧ True ∧
      (state = stateInitial →
       match calls (take k inbox) with [] => True | c :: _ => is_cluster_config c = true end))
    as Hstop.
  { intros. exists 0%nat. cbn. by rewrite app_nil_r. }
  induction inbox as [|msg inbox IH]; intros state trace trace' e; cbn [dispatcherLoop].
  { intros [= <- <-]. exists 0%nat. cbn. by rewrite app_nil_r. }
  destruct (next_state state msg) as [state'| |] eqn:En; [|intros [= <- <-]; apply Hstop..].
  destruct (handle msg) as [c| |] eqn:Eh; [|intros [= <- <-]; apply Hstop..].
  assert (is_close msg = false) as Hcl by by destruct msg.
  assert (state = stateInitial →
    match c with Some c => is_cluster_config c = true | None => False end ∧ state' = stateReady) as Hcc.
  { intros ->. destruct msg; try done. apply Ok_inj in En as <-. cbn [handle] in Eh.
    destruct (clusterConfigFromWire m); [|done..]. by apply Ok_inj in Eh as <-. }
  assert (calls (msg :: inbox) = match c with Some c => [c] | None => [] end ++ calls inbox) as Hc.
  { cbn. rewrite Eh. by destruct c. }
  destruct c as [c|].
  - destruct (if may_fail c then _ else _) as [err|].
    + intros [= <- <-]. exists 1%nat. cbn [take calls omap list_omap existsb]. rewrite Eh, Hcl.
      split_and!; [done|done| |done|by intros [? _]%Hcc].
      apply Forall_cons_2; [|apply Forall_nil_2]. by eapply handle_checked.
    + intros Hrun. destruct (IH _ _ _ _ Hrun) as (k & -> & H2 & H3 & H4 & _).
      exists (S k). cbn [take calls omap list_omap existsb length]. rewrite Eh, Hcl.
      rewrite <- app_assoc. split_and!; [done|done| |by destruct e; subst|by intros [? _]%Hcc].
      apply Forall_cons_2; [|done]. by eapply handle_checked.
  - intros Hrun. destruct (IH _ _ _ _ Hrun) as (k & -> & H2 & H3 & H4 & _).
    exists (S k). cbn [take calls omap list_omap existsb length]. rewrite Eh, Hcl.
    split_and!; [done|done|done|by destruct e; subst|by intros []%Hcc].
Qed.

(** C14.  Whatever messages the other side sends, and whatever the model answers: the
    first call the model sees is that of a cluster configuration; every file of an
    index has a clean relative name and blocks that agree with its type; every
    request has such a name and asks for between one byte and two blocks of the
    maximal size; and the calls are those of a prefix of the messages, which holds
    no close and is all of them while the loop waits for more. *)
Theorem dispatcher_safe model inbox trace e :
  dispatcherLoop model stateInitial [] inbox = (trace, e) →
  Forall call_checked trace ∧
  (match trace with [] => True | c :: _ => is_cluster_config c = true end) ∧
  ∃ k, trace = calls (take k inbox) ∧ existsb is_close (take k inbox) = false ∧
    (match e with Waiting _ => k = length inbox | _ => True end).
Proof.
  intros Hrun. destruct (dispatcher_prefix _ _ _ _ _ _ Hrun) as (k & -> & H2 & H3 & H4 & H5).
  split_and!; [done|by apply H5|by exists k].
Qed.

Lemma dispatcher_safe_witness :
  let cc := PClusterConfig (MkBepClusterConfig [] false) in
  let rq n := PRequest (MkBepRequest 1 "f" n 0 4096 [] false 0) in
  let run := dispatcherLoop (λ _ _, None) stateInitial [] [cc; rq "a"; PPing; rq "../b"; rq "c"] in
  run.2 = Ended errInvalidFilename ∧ length run.1 = 2%nat ∧ Forall call_checked run.1.
Proof.
  intros cc rq run. split; [vm_compute; reflexivity|]. split; [vm_compute; reflexivity|].
  apply (dispatcher_safe (λ _ _, None) [cc; rq "a"; PPing; rq "../b"; rq "c"]%string run.1 run.2).
  vm_compute. reflexivity.
Defined.

(** ** What the writer sends the other dispatcher accepts *)

(** A message the model may put on the outbox: neither a cluster configuration nor a
    close, files with clean names and fitting blocks, requests in bounds. *)
Definition well_formed (msg : protoMessage) : Prop :=
  match msg with
  | PClusterConfig _ | PClose _ => False
  | PIndex _ files _ | PIndexUpdate _ files _ _ => Forall (λ f, checkFileInfoConsistency (FileInfoFromWire f) = None) files
  | PRequest m => checkFilename (wrqName m) = None ∧ 0 < wrqSize m ≤ MaxRequestSize
  | PResponse _ | PDownloadProgress _ | PPing => True
  end.
(** A cluster configuration names devices by identifiers of full length. *)
Definition event_ok (e : writerEvent) : Prop :=
  match e with
  | TakeClusterConfig c => Forall (λ f, Forall (λ d, length (dID d) = 32%nat) (foDevices f)) (ccFolders c)
  | TakeOutbox msg => well_formed msg
  | TakeClose _ | TakeClosed => True
  end.

Definition event_message (e : writerEvent) : option protoMessage :=
  match e with
  | TakeClusterConfig c => Some (PClusterConfig (clusterConfig_toWire c))
  | TakeOutbox msg => Some msg
  | TakeClose reason => Some (PClose reason)
  | TakeClosed => None
  end.
Definition taken (es : list (writerEvent * bool)) : list protoMessage := omap (λ ef, event_message ef.1) es.
Definition written (out : list sent) : list protoMessage := omap (λ s, match s with Written m => Some m | Broken _ => None end) out.
Definition broken (out : list sent) : option protoMessage := match last out with Some (Broken m) => Some m | _ => None end.

(** The reason of the close at the end of a stream. *)
Definition closing (out : list protoMessage) : option string :=
  match last out with Some (PClose reason) => Some reason | _ => None end.

Definition dstate (s : writerState) : dispatcherState :=
  match s with WriterInitial => stateInitial | _ => stateReady end.
Definition over (s : writerState) : bool := match s with WriterDone | WriterFailed => true | _ => false end.

Lemma writer_over s es s' out : over s = true → writerLoop s es = Some (s', out) → es = [] ∧ s' = s ∧ out = [].
Proof. intros Hs. destruct es as [|[e fails] es]; [by intros [= <- <-]|]. by destruct s. Qed.

Lemma well_formed_accepted msg : well_formed msg → is_ok (handle msg) = true.
Proof.
  destruct msg; cbn [well_formed handle]; try done.
  1,2: intros H; rewrite (proj2 (checkIndexConsistency_None (map FileInfoFromWire _))); [done|by apply Forall_fmap].
  intros (-> & H1 & H2). rewrite (proj2 (Z.leb_gt _ _)), (proj2 (Z.ltb_ge _ _)) by lia. done.
Qed.
Lemma event_accepted e msg : event_ok e → event_message e = Some msg → is_close msg = false → is_ok (handle msg) = true.
Proof.
  destruct e as [c|m|reason|]; cbn [event_ok event_message]; intros He [= <-] Hc; [|by apply well_formed_accepted|done].
  cbn [handle]. by rewrite (proj1 (clusterConfig_wire c (clusterConfig_toWire c)) He).
Qed.

(** A message that is let through. *)
Lemma dispatch_message model state state' trace msg inbox :
  (∀ tr c, model tr c = None) → next_state state msg = Ok state' → is_ok (handle msg) = true →
  dispatcherLoop model state trace (msg :: inbox) =
  dispatcherLoop model state' (trace ++ calls [msg]) inbox.
Proof.
  intros Hm Hn Hh. cbn [dispatcherLoop calls omap list_omap]. rewrite Hn.
  destruct (handle msg) as [[c|]| |]; [|by rewrite app_nil_r|done..].
  by rewrite Hm; destruct (may_fail c).
Qed.

(** A step takes its message and writes it, or fails and is the last one. *)
Lemma writer_step_cases fails s e s1 o1 : writer_step fails s e = Some (s1, o1) → event_ok e →
  over s = false ∧
  match event_message e with
  | None => s1 = WriterDone ∧ o1 = []
  | Some msg => o1 = [if fails then Broken msg else Written msg] ∧ next_state (dstate s) msg = (if is_close msg then Err (match closing [msg] with Some r => "closed by remote: " +:+ r | None => "" end) else Ok stateReady) ∧
      s1 = (if is_close msg then WriterDone else if fails then WriterFailed else WriterRunning)
  end.
Proof.
  unfold writer_step, write. destruct s, e as [c|m|r|], fails; cbn; intros [= <- <-] He; try done; by destruct m.
Qed.

Lemma writer_taken es : Forall (λ ef, event_ok ef.1) es → ∀ s s' out,
  writerLoop s es = Some (s', out) → taken es = written out ++ option_list (broken out) ∧
  (s' = WriterFailed → s = WriterFailed ∨ is_Some (broken out)).
Proof.
  induction 1 as [|[e fails] es He _ IH]; intros s s' out Hw; [injection Hw as <- <-; split; [done|by left]|].
  cbn [writerLoop] in Hw. destruct (writer_step fails s e) as [[s1 o1]|] eqn:E; [|done].
  destruct (writerLoop s1 es) as [[s2 o2]|] eqn:Ew; [|done]. injection Hw as <- <-.
  destruct (writer_step_cases _ _ _ _ _ E He) as [Hs Hc]. unfold taken. cbn [omap list_omap fst]. fold (taken es).
  destruct (event_message e) as [msg|].
  - destruct Hc as (-> & _ & Hs1). destruct (over s1) eqn:Ho.
    + destruct (writer_over _ _ _ _ Ho Ew) as (-> & -> & ->). cbn [app taken omap list_omap].
      destruct fails; [by split; [|intros _; right; eexists]|]. split; [done|]. intros ->. by destruct (is_close msg).
    + assert (fails = false) as -> by (destruct fails; [subst s1; by destruct (is_close msg)|done]).
      destruct (IH _ _ _ Ew) as [-> Hf]. cbn [app]. split.
      * unfold broken. by destruct o2.
      * intros Hd. destruct (Hf Hd) as [->|Hb]; [done|]. right. unfold broken in *. by destruct o2; [destruct Hb|].
  - destruct Hc as [-> ->]. destruct (writer_over WriterDone es s2 o2 eq_refl Ew) as (-> & -> & ->). by split.
Qed.

Lemma writer_dispatched model es : (∀ tr c, model tr c = None) →
  Forall (λ ef, event_ok ef.1) es → ∀ s s' out trace,
  over s = false → writerLoop s es = Some (s', out) →
  dispatcherLoop model (dstate s) trace (written out) =
  (trace ++ calls (written out),
   match closing (written out) with
   | Some reason => Ended ("closed by remote: " +:+ reason)
   | None => Waiting (match written out with [] => dstate s | _ => stateReady end)
   end).
Proof.
  intros Hm. induction 1 as [|[e fails] es He _ IH]; intros s s' out trace Hs Hw.
  { injection Hw as <- <-. cbn. by rewrite app_nil_r. }
  cbn [writerLoop] in Hw. destruct (writer_step fails s e) as [[s1 o1]|] eqn:E; [|done].
  destruct (writerLoop s1 es) as [[s2 o2]|] eqn:Ew; [|done]. injection Hw as <- <-.
  destruct (writer_step_cases _ _ _ _ _ E He) as [_ Hc]. destruct (event_message e) as [msg|] eqn:Em.
  2:{ destruct Hc as [-> ->]. destruct (writer_over WriterDone es s2 o2 eq_refl Ew) as (-> & -> & ->). cbn. by rewrite app_nil_r. }
  destruct Hc as (-> & Hn & Hs1). destruct fails.
  { assert (over s1 = true) as Ho by (subst s1; by destruct (is_close msg)).
    destruct (writer_over _ _ _ _ Ho Ew) as (-> & -> & ->). cbn. by rewrite app_nil_r. }
  change (written ([Written msg] ++ o2)) with (msg :: written o2). destruct (is_close msg) eqn:Hcl.
  - subst s1. destruct (writer_over WriterDone es s2 o2 eq_refl Ew) as (-> & -> & ->).
    destruct msg; try done. cbn. by rewrite app_nil_r.
  - subst s1. rewrite (dispatch_message _ _ stateReady); [|done|done|by eapply event_accepted].
    change (msg :: written o2) with ([msg] ++ written o2). unfold calls. rewrite omap_app, app_assoc.
    fold (calls [msg]) (calls (written o2)).
    pose proof (IH WriterRunning _ _ (trace ++ calls [msg]) eq_refl Ew) as Ho. cbn [dstate] in Ho. rewrite Ho. f_equal.
    unfold closing. destruct (written o2); [by destruct msg|]. done.
Qed.

(** What may be on the wire of a message whose write failed: nothing, or some bytes of it. *)
Definition partly {C : Codec} (compression : Z) (msg : option protoMessage) (part : list Z) : Prop :=
  part = [] ∨ ∃ m tail, msg = Some m ∧ message_ok m ∧ tail ≠ [] ∧ writeMessage compression m = Ok (part ++ tail).

(** C15.  From the channels of one device to the model of the other: in whatever order
    the writer finds cluster configurations, messages and the closing of the connection
    in its channels, each message that it takes is written, up to the first one whose
    write fails, after which it closes the connection.  If the messages are well formed
    (device identifiers of full length, clean names, files with fitting blocks, requests
    in bounds) and the model of the other side returns no errors, then the bytes on the
    wire, with a part of the message that broke, are read and dispatched there as exactly
    the calls of the messages that were written, in that order, without a protocol error,
    and the loop of the other side ends because of the close, which is the last message,
    or waits for more. *)
Theorem session_delivers {C : Codec} {L : CodecLaws C} compression model es s out bs part :
  (∀ tr c, model tr c = None) → setting_ok compression →
  Forall (λ ef, event_ok ef.1) es → writerLoop WriterInitial es = Some (s, out) →
  Forall message_ok (written out) → write_all (pair compression <$> written out) = Ok bs →
  partly compression (broken out) part →
  taken es = written out ++ option_list (broken out) ∧ (s = WriterFailed → is_Some (broken out)) ∧
  dispatcherLoop model stateInitial [] (readerLoop (S (length (written out))) (bs ++ part)).1 =
  (calls (written out),
   match closing (written out) with
   | Some reason => Ended ("closed by remote: " +:+ reason)
   | None => Waiting (match written out with [] => stateInitial | _ => stateReady end)
   end).
Proof.
  intros Hm Hset Hes Hw Hout Hbs Hpart. destruct (writer_taken es Hes _ _ _ Hw) as [Ht Hf]. split; [done|].
  split; [intros Hs; by destruct (Hf Hs)|].
  assert (Hlast : (readerLoop 1 part).1 = []).
  { destruct Hpart as [->|(m & tail & _ & Hmo & Htl & Hwm)]; [done|]. cbn [readerLoop].
    by destruct (read_truncated compression m part tail Hset Hmo Htl Hwm) as [e ->]. }
  rewrite (readerLoop_written (pair compression <$> written out) bs part (S (length (written out)))).
  - rewrite length_fmap. replace (S (length (written out)) - length (written out))%nat with 1%nat by lia.
    destruct (readerLoop 1 part) as [msgs e]. cbn in Hlast. subst msgs. cbn [fst].
    rewrite app_nil_r. change (map snd (pair compression <$> written out)) with (snd <$> (pair compression <$> written out)).
    rewrite <- list_fmap_compose. assert (snd ∘ pair compression <$> written out = written out) as -> by apply list_fmap_id.
    exact (writer_dispatched model es Hm Hes WriterInitial s out [] eq_refl Hw).
  - apply Forall_fmap. eapply Forall_impl; [exact Hout|]. by intros msg.
  - done.
  - rewrite length_fmap. lia.
Qed.

Lemma session_delivers_witness :
  let cc := TakeClusterConfig (MkClusterConfig [] false) in
  let rq := PRequest (MkBepRequest 7 "" "a/b" 0 4096 [] false 0) in
  let out := [PClusterConfig (MkBepClusterConfig [] false); rq; PPing] in
  ∃ bs, write_all (C := sample_codec) (pair CompressionMetadata <$> out) = Ok bs ∧
    dispatcherLoop (λ _ _, None) stateInitial [] (readerLoop (C := sample_codec) 4 (bs ++ [0])).1 = (calls out, Waiting stateReady).
Proof.
  intros cc rq out. eexists. split; [reflexivity|].
  refine (proj2 (proj2 (session_delivers (C := sample_codec) CompressionMetadata (λ _ _, None)
    [(cc, false); (TakeOutbox rq, false); (TakeOutbox PPing, false); (TakeOutbox rq, true)] WriterFailed
    [Written (PClusterConfig (MkBepClusterConfig [] false)); Written rq; Written PPing; Broken rq] _ [0] _ _ _ _ _ _ _))).
  - done.
  - by left.
  - repeat (apply Forall_cons_2; [vm_compute; first [reflexivity|exact I|by repeat constructor|by split]|]). apply Forall_nil_2.
  - reflexivity.
  - repeat (apply Forall_cons_2;
      [split; [eexists; split; [reflexivity|]; vm_compute; discriminate|intros c; vm_compute; discriminate]|]).
    apply Forall_nil_2.
  - reflexivity.
  - right. eexists rq, _. split; [reflexivity|]. split; [split; [eexists; split; [reflexivity|]; vm_compute; discriminate|intros c; vm_compute; discriminate]|].
    split; [|cbn; reflexivity]. discriminate.
Defined.

(** ** Every request gets its answer *)

Definition answers_of (i : Z) (t : requestTable) : list answer :=
  map snd (filter (λ a, a.1 = i) (answered t)).

(** What the channel of a waiting request receives: the first response with its
    number, or the closing of the connection, whichever is first. *)
Fixpoint first_answer (i : Z) (closed : bool) (es : list tableEvent) : list answer :=
  match es with
  | [] => []
  | EvRequest :: es => first_answer i closed es
  | EvResponse resp :: es =>
      if rsID resp =? i then [Some (rsData resp, codeToError (rsCode resp))]
      else first_answer i closed es
  | EvClose :: es => if closed then first_answer i closed es else [None]
  end.

Fixpoint requests (es : list tableEvent) : Z :=
  match es with
  | [] => 0
  | EvRequest :: es => 1 + requests es
  | _ :: es => requests es
  end.
Definition is_close_event (e : tableEvent) : bool :=
  match e with EvClose => true | _ => false end.

(** The numbers in use are below the next one, and no number both waits and has
    its answer. *)
Record table_ok (t : requestTable) : Prop := {
  next_nonneg : 0 ≤ nextID t;
  awaiting_below i : i ∈ awaiting t → i < nextID t;
  answered_below i : answers_of i t ≠ [] → (i ∉ awaiting t) ∧ i < nextID t;
}.

Lemma requests_nonneg es : 0 ≤ requests es.
Proof. induction es as [|[] es IH]; cbn [requests]; lia. Qed.

Lemma response_answers i t resp :
  answers_of i (handleResponse t resp) =
  answers_of i t ++ (if bool_decide (i ∈ awaiting t) && (rsID resp =? i)
                     then [Some (rsData resp, codeToError (rsCode resp))] else []).
Proof.
  unfold handleResponse, answers_of. destruct (Z.eqb_spec (rsID resp) i) as [<-|Hne].
  - case_bool_decide; cbn [andb]; [|by rewrite app_nil_r]. cbn [answered].
    by rewrite filter_app, map_app, filter_cons_True by done.
  - rewrite andb_false_r, app_nil_r. case_bool_decide; [|done]. cbn [answered].
    rewrite filter_app, map_app, filter_cons_False by done. cbn. by rewrite app_nil_r.
Qed.

Lemma closing_answers (i : Z) (l : list Z) : NoDup l →
  map snd (filter (λ x : (prod Z answer), x.1 = i) (map (λ j, (j, None)) l)) =
  if bool_decide (i ∈ l) then [None] else [].
Proof.
  induction 1 as [|j l Hj _ IH]; [done|]. cbn [map]. destruct (decide (j = i)) as [->|Hne].
  - rewrite filter_cons_True by done. rewrite map_cons, IH. rewrite bool_decide_eq_false_2 by done.
    by rewrite bool_decide_eq_true_2 by left.
  - rewrite filter_cons_False by done. rewrite IH.
    by rewrite (bool_decide_ext (i ∈ l) (i ∈ j :: l)) by (rewrite elem_of_cons; naive_solver).
Qed.

Lemma close_answers i t :
  answers_of i (closeAwaiting t) =
  answers_of i t ++ (if bool_decide (i ∈ awaiting t) && negb (tableClosed t) then [None] else []).
Proof.
  unfold closeAwaiting, answers_of. destruct (tableClosed t); [by rewrite andb_false_r, app_nil_r|].
  rewrite andb_true_r. cbn [answered]. rewrite filter_app, map_app. f_equal.
  rewrite closing_answers by apply NoDup_elements.
  by rewrite (bool_decide_ext _ _ (elem_of_elements (awaiting t) i)).
Qed.

(** The requests that wait after an event. *)
Lemma request_step t :
  table_ok t → nextID t + 1 < 9223372036854775808 →
  startRequest t = Ok (MkRequestTable (nextID t + 1) ({[nextID t]} ∪ awaiting t) (answered t)
                         (tableClosed t)).
Proof.
  intros [Hn Hw _] Hb. unfold startRequest. rewrite bool_decide_eq_false_2.
  - rewrite i64_id by (unfold in_i64; lia). done.
  - intros Hin%Hw. lia.
Qed.

Lemma response_awaiting i t resp :
  i ∈ awaiting (handleResponse t resp) ↔ i ∈ awaiting t ∧ rsID resp ≠ i.
Proof.
  unfold handleResponse. case_bool_decide; cbn [awaiting]; [set_solver|]. naive_solver.
Qed.

Lemma close_awaiting i t :
  i ∈ awaiting (closeAwaiting t) ↔ i ∈ awaiting t ∧ tableClosed t = true.
Proof.
  unfold closeAwaiting. destruct (tableClosed t); cbn [awaiting]; set_solver.
Qed.

(** The invariant holds after every event, and no number is taken twice. *)
Lemma table_step_ok t e :
  table_ok t → nextID t + requests [e] < 9223372036854775808 →
  ∃ t', table_step t e = Ok t' ∧ table_ok t' ∧ nextID t' = nextID t + requests [e] ∧
    tableClosed t' = tableClosed t || is_close_event e.
Proof.
  intros Ht Hb. pose proof Ht as [Hn Hw Ha]. destruct e as [|resp|]; cbn [table_step].
  - rewrite request_step by (first [done|cbn in Hb; lia]). eexists. split; [done|].
    cbn [nextID tableClosed is_close_event requests]. rewrite orb_false_r. split_and!; [|lia|done].
    split; cbn [nextID awaiting].
    + lia.
    + intros i [->%elem_of_singleton|Hi%Hw]%elem_of_union; lia.
    + intros i Hi. destruct (Ha i Hi). split; [|lia]. set_unfold. intros [->|?]; [lia|done].
  - eexists. split; [done|]. assert (nextID (handleResponse t resp) = nextID t ∧
      tableClosed (handleResponse t resp) = tableClosed t) as [En Ec].
    { unfold handleResponse. by case_bool_decide. }
    rewrite En, Ec. cbn [requests is_close_event]. rewrite orb_false_r. split_and!; [|lia|done].
    split; rewrite ?En.
    + done.
    + intros i [? _]%response_awaiting. auto.
    + intros i. rewrite response_answers, response_awaiting. destruct (bool_decide_reflect (i ∈ awaiting t)).
      * destruct (Z.eqb_spec (rsID resp) i); cbn [andb]; [split; [naive_solver|auto]|].
        rewrite app_nil_r. by intros []%Ha.
      * rewrite app_nil_r. intros []%Ha. naive_solver.
  - eexists. split; [done|]. assert (nextID (closeAwaiting t) = nextID t ∧
      tableClosed (closeAwaiting t) = true) as [En Ec].
    { unfold closeAwaiting. by destruct (tableClosed t) eqn:?. }
    rewrite En, Ec. cbn [requests is_close_event]. rewrite orb_true_r. split_and!; [|lia|done].
    split; rewrite ?En.
    + done.
    + intros i [? _]%close_awaiting. auto.
    + intros i. rewrite close_answers, close_awaiting. destruct (bool_decide_reflect (i ∈ awaiting t)).
      * destruct (tableClosed t); cbn [andb negb]; [|split; [naive_solver|auto]].
        rewrite app_nil_r. by intros []%Ha.
      * rewrite app_nil_r. intros []%Ha. naive_solver.
Qed.

Lemma requests_cons e es : requests (e :: es) = requests [e] + requests es.
Proof. by destruct e; cbn; lia. Qed.

(** A run that starts in a good state. *)
Lemma table_run_ok es : ∀ t,
  table_ok t → nextID t + requests es < 9223372036854775808 →
  ∃ t', table_run t es = Ok t' ∧ table_ok t' ∧ nextID t' = nextID t + requests es ∧
    tableClosed t' = tableClosed t || existsb is_close_event es.
Proof.
  induction es as [|e es IH]; intros t Ht Hb; cbn [table_run existsb].
  { exists t. rewrite orb_false_r. split_and!; [done|done|cbn; lia|done]. }
  rewrite requests_cons in *. pose proof (requests_nonneg es).
  destruct (table_step_ok t e Ht) as (t1 & -> & Ht1 & En & Ec); [lia|]. cbn [mbind go_bind].
  destruct (IH t1 Ht1) as (t' & -> & Ht' & En' & Ec'); [lia|]. exists t'.
  split_and!; [done|done|lia|]. by rewrite Ec', Ec, orb_assoc.
Qed.

(** A number that is not waiting keeps the answers it has. *)
Lemma settled_run i es : ∀ t t',
  table_ok t → nextID t + requests es < 9223372036854775808 → i ∉ awaiting t → i < nextID t →
  table_run t es = Ok t' → answers_of i t' = answers_of i t.
Proof.
  induction es as [|e es IH]; intros t t' Ht Hb Hi Hlt; cbn [table_run]; [by intros [= <-]|].
  rewrite requests_cons in Hb. pose proof (requests_nonneg es).
  destruct (table_step_ok t e Ht) as (t1 & E & Ht1 & En & _); [lia|]. rewrite E. cbn [mbind go_bind].
  intros Hrun. assert (0 ≤ requests [e]) by apply requests_nonneg.
  assert ((i ∉ awaiting t1) ∧ answers_of i t1 = answers_of i t) as [Hi1 <-].
  { destruct e as [|resp|]; cbn [table_step] in E.
    - rewrite request_step in E by (first [done|cbn in *; lia]). apply Ok_inj in E as <-.
      split; [|done]. cbn [awaiting]. set_unfold. intros [->|?]; [lia|done].
    - apply Ok_inj in E as <-. rewrite response_awaiting, response_answers.
      rewrite bool_decide_eq_false_2, app_nil_r by done. naive_solver.
    - apply Ok_inj in E as <-. rewrite close_awaiting, close_answers.
      rewrite bool_decide_eq_false_2, app_nil_r by done. naive_solver. }
  apply (IH t1 t'); [done|lia|done|lia|done].
Qed.

(** A number that waits gets the first answer. *)
Lemma waiting_run i es : ∀ t t',
  table_ok t → nextID t + requests es < 9223372036854775808 → i ∈ awaiting t →
  table_run t es = Ok t' → answers_of i t' = answers_of i t ++ first_answer i (tableClosed t) es.
Proof.
  induction es as [|e es IH]; intros t t' Ht Hb Hi; cbn [table_run].
  { intros [= <-]. by rewrite app_nil_r. }
  rewrite requests_cons in Hb. pose proof (requests_nonneg es).
  destruct (table_step_ok t e Ht) as (t1 & E & Ht1 & En & Ec); [lia|]. rewrite E. cbn [mbind go_bind].
  intros Hrun. assert (i < nextID t1) as Hlt.
  { pose proof (awaiting_below _ Ht i Hi). pose proof (requests_nonneg [e]). lia. }
  pose proof (IH t1 t' Ht1 ltac:(lia)) as IHt. pose proof (settled_run i es t1 t' Ht1 ltac:(lia)) as Hs.
  destruct e as [|resp|]; cbn [table_step] in E; cbn [first_answer is_close_event] in *.
  - rewrite orb_false_r in Ec. rewrite request_step in E by (first [done|cbn in *; lia]).
    apply Ok_inj in E as <-. cbn [tableClosed awaiting] in *. rewrite IHt; [done|set_solver|done].
  - rewrite orb_false_r in Ec. apply Ok_inj in E as <-. rewrite response_awaiting, response_answers in *.
    rewrite bool_decide_eq_true_2 in * by done. destruct (Z.eqb_spec (rsID resp) i); cbn [andb] in *.
    + by rewrite Hs by (first [done|naive_solver]).
    + rewrite app_nil_r, Ec in IHt. by apply IHt.
  - apply Ok_inj in E as <-. rewrite close_awaiting, close_answers in *.
    rewrite bool_decide_eq_true_2 in * by done. destruct (tableClosed t) eqn:Ecl; cbn [andb negb] in *.
    + rewrite app_nil_r, Ec in IHt. by apply IHt.
    + by rewrite Hs by (first [done|naive_solver]).
Qed.

Lemma newTable_ok : table_ok newTable.
Proof. by split. Qed.

(** In a connection with fewer than 2^63 requests no number is ever taken
    twice, and each request gets at most one answer: the data and the error of the
    first response with its number that arrives while it waits, or that the
    connection was closed, whichever comes first. *)
Theorem requests_matched before after :
  requests before + 1 + requests after < 9223372036854775808 →
  ∃ t, table_run newTable (before ++ EvRequest :: after) = Ok t ∧
    answers_of (requests before) t =
      first_answer (requests before) (existsb is_close_event before) after.
Proof.
  intros Hb. pose proof (requests_nonneg before). pose proof (requests_nonneg after).
  destruct (table_run_ok before newTable newTable_ok) as (t0 & E0 & Ht0 & En & Ec); [cbn; lia|].
  change (nextID newTable) with 0 in En. change (tableClosed newTable) with false in Ec.
  rewrite Z.add_0_l in En. rewrite orb_false_l in Ec.
  assert (∀ es t t1, table_run t es = Ok t1 → ∀ es', table_run t (es ++ es') = table_run t1 es') as Happ.
  { induction es as [|e es IH]; intros t t1; cbn [table_run app]; [by intros [= <-]|].
    destruct (table_step t e); cbn [mbind go_bind]; [|done..]. apply IH. }
  rewrite (Happ _ _ _ E0). cbn [table_run table_step].
  destruct (table_step_ok t0 EvRequest Ht0) as (t1 & E1 & Ht1 & En1 & Ec1); [cbn; lia|].
  cbn in En1. cbn [table_step] in E1. rewrite E1. cbn [mbind go_bind].
  destruct (table_run_ok after t1 Ht1) as (t & E & _); [lia|]. exists t. split; [done|].
  rewrite request_step in E1 by (first [done|lia]). apply Ok_inj in E1. subst t1. cbn in Ec1.
  rewrite (waiting_run (requests before) after _ t Ht1); [|cbn; lia| |done].
  2: { cbn [awaiting]. rewrite <- En. set_solver. }
  cbn [tableClosed]. rewrite Ec. destruct (decide (answers_of (requests before) t0 = [])) as [Ha|Ha].
  - unfold answers_of in *. cbn [answered]. by rewrite Ha.
  - destruct (answered_below _ Ht0 _ Ha). lia.
Qed.

Lemma requests_matched_witness :
  let r1 := MkResponse 1 [5] 2 in let r0 := MkResponse 0 [8; 9] 0 in
  ∃ t, table_run newTable [EvRequest; EvRequest; EvResponse r1; EvResponse r1; EvResponse r0; EvClose] = Ok t ∧
    answers_of 1 t = [Some ([5], Some ErrNoSuchFile)].
Proof.
  intros r1 r0.
  apply (requests_matched [EvRequest] [EvResponse r1; EvResponse r1; EvResponse r0; EvClose]).
  vm_compute. reflexivity.
Defined.

(** The number of the response to a request, seen from the side that asked. *)
Definition answer_number (r : Request) (res : list Z + protoError) : Z :=
  rsID (responseFromWire (response_toWire (handleRequest (requestFromWire (request_toWire r)) res))).

(** C38. The response to a request comes back with the number of the request,
    whatever the answer of the model is, exactly as long as the number fits in 32
    bits: the response to request 2^31 and to those after it comes back with another
    number, so that it is dropped or answers another request. *)
Theorem answer_number_spec r res :
  (answer_number r res = rqID r ↔ in_i32 (rqID r)) ∧ in_i32 (answer_number r res).
Proof.
  assert (answer_number r res = i32 (i32 (rqID r))) as ->.
  { unfold answer_number. by destruct res. }
  split; [|apply i32_range]. rewrite (i32_id (i32 _)) by apply i32_range. split.
  - intros <-. apply i32_range.
  - apply i32_id.
Qed.

(** ** Names on Windows *)

Lemma fixup_loop_spec rest : ∀ passed out,
  fixup_loop passed rest out =
  let good := map (λ f, name_set f (FromSlash (fName f))) (filter (λ f, has_backslash (fName f) = false) rest) in
  match out with
  | Some o => o ++ good
  | None => passed ++ good
  end.
Proof.
  induction rest as [|f rest IH]; intros passed out; cbn [fixup_loop].
  { destruct out; cbn; by rewrite app_nil_r. }
  rewrite filter_cons. destruct (has_backslash (fName f)) eqn:E.
  - rewrite decide_False by done. rewrite IH. by destruct out.
  - rewrite decide_True by done. rewrite IH. destruct out; cbn; by rewrite <- app_assoc.
Qed.

(** On Windows the loop that avoids copying does what it is meant to: of the
    files of an index exactly those with a backslash in their name are dropped, and
    the others keep their order and get the separators of the system. *)
Theorem fixupFiles_filter files :
  fixupFiles files =
  map (λ f, name_set f (FromSlash (fName f))) (filter (λ f, has_backslash (fName f) = false) files).
Proof. unfold fixupFiles. by rewrite fixup_loop_spec. Qed.
