(* ===== verification/BufferPool.v ===== *)
(** * The pool of buffers ([src/lib/protocol/bufferpool.go])

    A pool holds one [sync.Pool] for each block size.  Buffers carry an identity, so
    that the model can say that no buffer is in two hands; what [sync.Pool] returns,
    an item of its choice or nothing, is the parameter [pick]. *)
From S2P Require Import Prelude GoLib Vector Platform FileInfo.
From Stdlib Require String.

Local Open Scope Z_scope.

Record buffer := MkBuffer { bufID : Z; bufCap : Z }.

#[export] Instance buffer_eq_dec : EqDecision buffer.
Proof. solve_decision. Defined.

(** The next identity stands for the addresses not in use. *)
Record bufferPool := MkBufferPool { pools : list (list buffer); nextBuf : Z }.

Definition newBufferPool : bufferPool := MkBufferPool (map (λ _, []) BlockSizes) 0.

Fixpoint getBucket (sizes : list Z) (i : nat) (len : Z) : go nat :=
  match sizes with
  | [] => Panic "bug: tried to get impossible block len"
  | blockSize :: sizes => if len <=? blockSize then Ok i else getBucket sizes (S i) len
  end.
Definition getBucketForLen (len : Z) : go nat := getBucket BlockSizes 0 len.

Fixpoint putBucket (sizes : list Z) (i : nat) (cap : Z) : go nat :=
  match sizes with
  | [] => Panic "bug: tried to put impossible block cap"
  | blockSize :: sizes => if cap =? blockSize then Ok i else putBucket sizes (S i) cap
  end.
Definition putBucketForCap (cap : Z) : go nat := putBucket BlockSizes 0 cap.

Section pool.
(** The item of bucket [j] that [sync.Pool.Get] takes. *)
Variable pick : nat → list buffer → option nat.

(** The loop over the fitting and all bigger pools. *)
Fixpoint take_from (j : nat) (ps : list (list buffer)) : option (buffer * list (list buffer)) :=
  match ps with
  | [] => None
  | p :: ps =>
      match (let! i := pick j p in let! b := p !! i in Some (b, delete i p)) with
      | Some (b, p) => Some (b, p :: ps)
      | None =>
          match take_from (S j) ps with
          | Some (b, ps) => Some (b, p :: ps)
          | None => None
          end
      end
  end.

(** [make([]byte, size, cap)] *)
Definition allocate (p : bufferPool) (size cap : Z) : go (bufferPool * buffer) :=
  if size <? 0 then Panic "runtime error: makeslice: len out of range"
  else Ok (MkBufferPool (pools p) (nextBuf p + 1), MkBuffer (nextBuf p) cap).

(** The result is a slice of the buffer of length [size]. *)
Definition Get (p : bufferPool) (size : Z) : go (bufferPool * buffer) :=
  if MaxBlockSize <? size then allocate p size size
  else
    let! bkt := getBucketForLen size in
    match take_from bkt (drop bkt (pools p)) with
    | Some (b, ps) =>
        if (size <? 0) || (bufCap b <? size) then Panic "runtime error: slice bounds out of range"
        else Ok (MkBufferPool (take bkt (pools p) ++ ps) (nextBuf p), b)
    | None =>
        if size <? go_div MinBlockSize 64 then allocate p size size
        else
          match BlockSizes !! bkt with
          | Some cap => allocate p size cap
          | None => Panic "runtime error: index out of range"
          end
    end.

Definition Put (p : bufferPool) (b : buffer) : go bufferPool :=
  if (MaxBlockSize <? bufCap b) || (bufCap b <? MinBlockSize) then Ok p
  else
    let! bkt := putBucketForCap (bufCap b) in
    Ok (MkBufferPool (alter (λ l, b :: l) bkt (pools p)) (nextBuf p)).

(** ** The invariant *)

(** The buffers in the pool and in the hands of callers are all different, those
    of bucket [j] have the [j]-th block size, and callers hold buffers that the pool
    takes back or ignores. *)
Record pool_ok (p : bufferPool) (out : list buffer) : Prop := {
  pools_fit : Forall2 (λ l size, Forall (λ b, bufCap b = size) l) (pools p) BlockSizes;
  pools_nodup : NoDup (map bufID (concat (pools p) ++ out));
  pools_fresh b : b ∈ concat (pools p) ++ out → bufID b < nextBuf p;
  out_caps b : b ∈ out → bufCap b ∈ BlockSizes ∨ bufCap b < MinBlockSize ∨ MaxBlockSize < bufCap b;
}.

Lemma pool_ok_new : pool_ok newBufferPool [].
Proof.
  assert (concat (pools newBufferPool) = []) as E by (by vm_compute).
  split; rewrite ?E; try (intros b Hb; by apply not_elem_of_nil in Hb).
  - cbn [newBufferPool pools]. rewrite BlockSizes_value. by repeat constructor.
  - constructor.
Qed.

Lemma take_from_spec ps : ∀ j b ps',
  take_from j ps = Some (b, ps') →
  concat ps ≡ₚ b :: concat ps' ∧ (∃ i l, ps !! i = Some l ∧ b ∈ l) ∧
  Forall2 (λ l l' : list buffer, ∀ x, x ∈ l' → x ∈ l) ps ps'.
Proof.
  induction ps as [|p ps IH]; intros j b ps'; cbn [take_from]; [done|].
  assert (∀ qs : list (list buffer), Forall2 (λ l l' : list buffer, ∀ x, x ∈ l' → x ∈ l) qs qs) as Hrefl.
  { induction qs; by constructor. }
  destruct (pick j p) as [i|]; cbn [mbind option_bind].
  1: destruct (p !! i) as [b'|] eqn:Ei; cbn [mbind option_bind].
  1: { intros [= <- <-]. cbn [concat]. split_and!.
       - by rewrite (delete_Permutation p i b' Ei) at 1.
       - exists 0%nat, p. split; [done|]. by eapply list_elem_of_lookup_2.
       - constructor; [|apply Hrefl]. intros x Hx. rewrite (delete_Permutation p i b' Ei). by right. }
  all: destruct (take_from (S j) ps) as [[b'' ps'']|] eqn:Et; [|done]; intros [= <- <-];
    destruct (IH _ _ _ Et) as (Hp & (k & l & Hk & Hb) & Hf); cbn [concat]; split_and!;
    [rewrite Hp; by rewrite Permutation_middle|by exists (S k), l|by constructor].
Qed.

Lemma getBucketForLen_spec len :
  if MaxBlockSize <? len then ∃ e, getBucketForLen len = Panic e
  else ∃ i s, getBucketForLen len = Ok i ∧ BlockSizes !! i = Some s ∧ len ≤ s ∧
    ∀ j s', (i ≤ j)%nat → BlockSizes !! j = Some s' → len ≤ s'.
Proof.
  unfold getBucketForLen. rewrite BlockSizes_value. change MaxBlockSize with 16777216.
  cbn [getBucket].
  repeat match goal with |- context [len <=? ?b] => destruct (Z.leb_spec len b) end;
    try (rewrite (proj2 (Z.ltb_lt _ _)) by lia; by eexists);
    rewrite (proj2 (Z.ltb_ge _ _)) by lia; eexists _, _; (split; [done|]); (split; [done|]);
    (split; [done|]); intros j s' Hj Hs';
    repeat (destruct j as [|j]; [try lia; cbn in Hs'; injection Hs' as <-; lia|]); done.
Qed.

Lemma putBucketForCap_spec cap :
  cap ∈ BlockSizes → ∃ i, putBucketForCap cap = Ok i ∧ BlockSizes !! i = Some cap.
Proof.
  unfold putBucketForCap. rewrite BlockSizes_value. intros Hc.
  repeat (apply elem_of_cons in Hc as [->|Hc]; [by eexists|]). by apply not_elem_of_nil in Hc.
Qed.

Lemma BlockSizes_bounds s : s ∈ BlockSizes → MinBlockSize ≤ s ≤ MaxBlockSize.
Proof.
  rewrite BlockSizes_value. change MinBlockSize with 131072. change MaxBlockSize with 16777216.
  intros Hc. repeat (apply elem_of_cons in Hc as [->|Hc]; [lia|]). by apply not_elem_of_nil in Hc.
Qed.

(** [Get] adds a buffer of its own to the hands of the callers. *)
Lemma allocate_ok p out size cap :
  pool_ok p out → 0 ≤ size →
  cap ∈ BlockSizes ∨ cap < MinBlockSize ∨ MaxBlockSize < cap →
  ∃ p', allocate p size cap = Ok (p', MkBuffer (nextBuf p) cap) ∧
    pool_ok p' (MkBuffer (nextBuf p) cap :: out).
Proof.
  intros [Hf Hn Hlt Hc] Hs Hcap. unfold allocate. rewrite (proj2 (Z.ltb_ge _ _)) by lia.
  eexists. split; [done|]. split; cbn [pools nextBuf]; [done| | |].
  - rewrite <- Permutation_middle. cbn [map bufID]. constructor; [|done].
    intros (b & E & Hb)%list_elem_of_fmap. apply Hlt in Hb. lia.
  - intros b. rewrite <- Permutation_middle. intros [->|Hb%Hlt]%elem_of_cons; cbn; lia.
  - intros b [->|Hb]%elem_of_cons; [done|auto].
Qed.

Lemma Get_ok p out size :
  pool_ok p out → 0 ≤ size →
  ∃ p' b, Get p size = Ok (p', b) ∧ size ≤ bufCap b ∧ (b ∉ out) ∧ pool_ok p' (b :: out).
Proof.
  intros Hok Hs.
  assert (∀ p' b, pool_ok p' (b :: out) → b ∉ out) as Hnew.
  { intros p' b [_ Hn _ _] Hb. rewrite map_app in Hn. apply NoDup_app in Hn as (_ & _ & Hn).
    cbn [map] in Hn. apply NoDup_cons in Hn as [Hn _]. apply Hn.
    by apply (list_elem_of_fmap_2 bufID). }
  assert (∀ cap, size ≤ cap → cap ∈ BlockSizes ∨ cap < MinBlockSize ∨ MaxBlockSize < cap →
    ∃ p' b, allocate p size cap = Ok (p', b) ∧ size ≤ bufCap b ∧ (b ∉ out) ∧ pool_ok p' (b :: out)) as Hal.
  { intros cap Hle Hcap. destruct (allocate_ok p out size cap Hok Hs Hcap) as (p' & E & Hp').
    eexists _, _. split_and!; [done|done|by eapply Hnew|done]. }
  unfold Get. pose proof (getBucketForLen_spec size) as Hb.
  destruct (Z.ltb_spec MaxBlockSize size); [apply Hal; [lia|auto]|].
  destruct Hb as (bkt & s & -> & Es & Hle & Hall). cbn [mbind go_bind].
  destruct (take_from bkt (drop bkt (pools p))) as [[b ps]|] eqn:Et.
  2: { destruct (Z.ltb_spec size (go_div MinBlockSize 64)) as [Hlt|].
       - apply Hal; [lia|]. right. left. revert Hlt. change MinBlockSize with 131072.
         change (go_div 131072 64) with 2048. lia.
       - rewrite Es. apply Hal; [lia|]. left. by eapply list_elem_of_lookup_2. }
  destruct (take_from_spec _ _ _ _ Et) as (Hp & (i & l & Hi & Hbl) & Hf2).
  destruct Hok as [Hf Hn Hlt Hc]. rewrite lookup_drop in Hi.
  destruct (Forall2_lookup_l _ _ _ _ _ Hf Hi) as (s' & Es' & Hl).
  assert (bufCap b = s') as Hcap by (rewrite Forall_forall in Hl; by apply Hl).
  assert (size ≤ s') by (eapply Hall; [|exact Es']; lia).
  rewrite (proj2 (Z.ltb_ge size 0)), (proj2 (Z.ltb_ge (bufCap b) size)) by lia. cbn [orb].
  assert (concat (pools p) ++ out ≡ₚ concat (take bkt (pools p) ++ ps) ++ b :: out) as Hperm.
  { rewrite <- (take_drop bkt (pools p)) at 1. rewrite !concat_app, Hp, <- !app_assoc.
    f_equiv. cbn. by rewrite Permutation_middle. }
  assert (pool_ok (MkBufferPool (take bkt (pools p) ++ ps) (nextBuf p)) (b :: out)) as Hok'.
  { split; cbn [pools nextBuf].
    - rewrite <- (take_drop bkt (pools p)) in Hf. apply Forall2_app_inv_l in Hf as (s1 & s2 & H1 & H2 & ->).
      apply Forall2_app; [done|]. revert Hf2 H2. generalize (drop bkt (pools p)). clear.
      intros qs Hf2. revert s2. induction Hf2 as [|x y xs ys Hxy _ IH]; intros s2 H2.
      { by inversion H2. }
      inversion H2 as [|? ? ? ? Hx Hxs]; subst. constructor; [|auto].
      rewrite Forall_forall in *. auto.
    - by rewrite <- Hperm.
    - intros b'. rewrite <- Hperm. auto.
    - intros b' [->|Hb']%elem_of_cons; [|auto]. left. rewrite Hcap. by eapply list_elem_of_lookup_2. }
  eexists _, _. split_and!; [done|lia|by eapply Hnew|done].
Qed.

Lemma concat_alter (b : buffer) ps : ∀ i l,
  ps !! i = Some l → concat (alter (λ l, b :: l) i ps) ≡ₚ b :: concat ps.
Proof.
  induction ps as [|q ps IH]; intros [|i] l; [done|done|done|]. cbn. intros Hl.
  rewrite (IH i l Hl). by rewrite Permutation_middle.
Qed.

Lemma Put_ok p b out : pool_ok p (b :: out) → ∃ p', Put p b = Ok p' ∧ pool_ok p' out.
Proof.
  intros Hok. assert (pool_ok p out) as Hskip.
  { destruct Hok as [Hf Hn Hlt Hc]. split; [done| | |].
    - rewrite <- Permutation_middle in Hn. by apply NoDup_cons in Hn as [_ ?].
    - intros b' Hb'. apply Hlt. rewrite elem_of_app in *. set_solver.
    - intros b' Hb'. apply Hc. by right. }
  unfold Put. destruct ((MaxBlockSize <? bufCap b) || (bufCap b <? MinBlockSize)) eqn:E; [by eexists|].
  zb. destruct Hok as [Hf Hn Hlt Hc].
  assert (bufCap b ∈ BlockSizes) as Hin by (destruct (Hc b ltac:(left)) as [?|[?|?]]; [done|lia|lia]).
  destruct (putBucketForCap_spec _ Hin) as (bkt & -> & Hs). cbn [mbind go_bind].
  eexists. split; [done|].
  destruct (Forall2_lookup_r _ _ _ _ _ Hf Hs) as (l & Hl & Hlc).
  pose proof (concat_alter b _ _ _ Hl) as Hperm. split; cbn [pools nextBuf].
  - apply Forall2_alter_l; [done|]. intros x y Hx Hy Hxy. constructor; [|done]. congruence.
  - rewrite Hperm. by rewrite <- Permutation_middle in Hn.
  - intros b' Hb'. apply Hlt. rewrite Hperm in Hb'. set_solver.
  - intros b' Hb'. apply Hc. by right.
Qed.

(** ** Any use by the rules *)

(** Callers put back only buffers they hold. *)
Inductive poolOp := OpGet (size : Z) | OpPut (b : buffer).

Fixpoint pool_run (p : bufferPool) (out : list buffer) (ops : list poolOp)
    : go (bufferPool * list buffer) :=
  match ops with
  | [] => Ok (p, out)
  | OpGet size :: ops => let! r := Get p size in pool_run r.1 (r.2 :: out) ops
  | OpPut b :: ops =>
      if bool_decide (b ∈ out)
      then let! p := Put p b in pool_run p (filter (λ b', b' ≠ b) out) ops
      else pool_run p out ops
  end.

Lemma pool_ok_Permutation p out out' : out ≡ₚ out' → pool_ok p out → pool_ok p out'.
Proof.
  intros Hp [Hf Hn Hlt Hc]. split; [done|by rewrite <- Hp| |].
  - intros b. rewrite <- Hp. auto.
  - intros b. rewrite <- Hp. auto.
Qed.

Lemma filter_out (b : buffer) out : NoDup out → b ∈ out → out ≡ₚ b :: filter (λ b', b' ≠ b) out.
Proof.
  induction 1 as [|x out Hx Hnd IH]; [by intros ?%not_elem_of_nil|]. rewrite filter_cons.
  destruct (decide (x = b)) as [->|Hne].
  - rewrite decide_False by naive_solver. intros _. rewrite (filter_id _ out); [done|].
    apply Forall_forall. by intros y Hy ->.
  - intros [?|Hb]%elem_of_cons; [done|]. rewrite decide_True by done.
    rewrite (IH Hb) at 1. apply Permutation_swap.
Qed.

Lemma pool_run_ok ops : ∀ p out,
  Forall (λ op, match op with OpGet size => 0 ≤ size | _ => True end) ops → pool_ok p out →
  ∃ p' out', pool_run p out ops = Ok (p', out') ∧ pool_ok p' out'.
Proof.
  induction ops as [|[size|b] ops IH]; intros p out Hops Hok; cbn [pool_run]; [eauto| |];
    apply Forall_cons in Hops as [Hop Hops].
  - destruct (Get_ok p out size Hok Hop) as (p' & b & -> & _ & _ & Hok'). by apply IH.
  - case_bool_decide as Hb; [|by apply IH].
    assert (NoDup out) as Hnd.
    { destruct Hok as [_ Hn _ _]. apply (NoDup_fmap_1 bufID).
      change (map bufID) with (fmap (M := list) bufID) in Hn. rewrite fmap_app in Hn.
      by apply NoDup_app in Hn as (_ & _ & ?). }
    destruct (Put_ok p b (filter (λ b', b' ≠ b) out)) as (p' & -> & Hok').
    { by apply (pool_ok_Permutation p out); [apply filter_out|]. }
    by apply IH.
Qed.

(** However buffers are taken and put back, the pool never panics, every
    buffer it gives out is large enough and in no other hands, and the buffers in
    the pool and those given out stay different from each other. *)
Theorem pool_safe ops size :
  Forall (λ op, match op with OpGet size => 0 ≤ size | _ => True end) ops → 0 ≤ size →
  ∃ p out, pool_run newBufferPool [] ops = Ok (p, out) ∧ NoDup (map bufID (concat (pools p) ++ out)) ∧
    ∃ p' b, Get p size = Ok (p', b) ∧ size ≤ bufCap b ∧ b ∉ out.
Proof.
  intros Hops Hs. destruct (pool_run_ok ops newBufferPool [] Hops pool_ok_new) as (p & out & E & Hok).
  exists p, out. destruct (Get_ok p out size Hok Hs) as (p' & b & Hg & Hle & Hb & _).
  split_and!; [done|apply Hok|by exists p', b].
Qed.
End pool.

Lemma pool_safe_witness :
  let pick := (λ _ l, match l with [] => None | _ :: _ => Some 0%nat end) in
  let b := MkBuffer 0 262144 in
  ∃ p out, pool_run pick newBufferPool [] [OpGet 200000; OpPut b; OpGet 131072; OpGet 1000] = Ok (p, out) ∧
    out = [MkBuffer 1 1000; b] ∧
    ∃ p' b', Get pick p 20000000 = Ok (p', b') ∧ 20000000 ≤ bufCap b' ∧ b' ∉ out.
Proof.
  intros pick b.
  destruct (pool_safe pick [OpGet 200000; OpPut b; OpGet 131072; OpGet 1000] 20000000)
    as (p & out & E & _ & H).
  - repeat constructor; lia.
  - lia.
  - exists p, out. split; [exact E|]. split; [|exact H].
    vm_compute in E. apply Ok_inj in E. injection E as _ <-. reflexivity.
Defined.
