(* ===== verification/EncNames.v ===== *)
(** * Names of encrypted files ([src/lib/protocol/encryption.go])

    Base 32 with the extended hex alphabet and no padding ([encoding/base32]), the
    paths that encrypted names are cut into, and the names themselves.  The ciphers
    and the key derivation are the interface [Crypto]. *)
From S2P Require Import Prelude GoLib Base32 Vector Platform FileInfo DeviceID DownloadState Messages Paths Wire Dispatch.
From Stdlib Require Import Ascii.
From Stdlib Require String.

Local Open Scope Z_scope.

(** ** [base32.HexEncoding.WithPadding(base32.NoPadding)] *)

Definition hex_alphabet : list ascii := s2l "0123456789ABCDEFGHIJKLMNOPQRSTUV".
Definition hex32_chr (v : Z) : ascii := default "0"%char (hex_alphabet !! Z.to_nat v).
Definition hex32_val (c : ascii) : option Z :=
  let v := byte_val c in
  if (48 <=? v) && (v <=? 57) then Some (v - 48)
  else if (65 <=? v) && (v <=? 86) then Some (v - 55)
  else None.

(** Five bytes are eight characters, so that the groups need not be told apart. *)
Definition hex32_encode (bs : list Z) : list ascii := map hex32_chr (quints (flat_map byte_bits bs)).

(** [NoPadding] is -1, so that the byte 255 is what the decoder takes for
    padding. *)
Definition no_padding : ascii := "255"%char.

(** One quantum: the values, the rest of the input, and whether the input ended. *)
Fixpoint hex_quantum (k : nat) (acc : list Z) (src : list ascii)
  : option (list Z * list ascii * bool) :=
  match k with
  | O => Some (acc, src, false)
  | S k' =>
      match src with
      | [] => Some (acc, [], true)
      | c :: src' =>
          let j := length acc in
          if Ascii.eqb c no_padding && (2 <=? j)%nat && (length src' <? 8)%nat then
            if (length src' + j <? 7)%nat then None
            else if negb (forallb (Ascii.eqb no_padding) (take (7 - j) src')) then None
            else if existsb (Nat.eqb j) [1; 3; 6]%nat then None
            else Some (acc, src', true)
          else
            match hex32_val c with
            | None => None
            | Some v => hex_quantum k' (acc ++ [v]) src'
            end
      end
  end.

(** A quantum of one, three or six characters has no bytes. *)
Definition quantum_bytes (vs : list Z) : list Z :=
  if existsb (Nat.eqb (length vs)) [1; 3; 6]%nat then [] else octets (flat_map quint_bits vs).

Fixpoint hex_quanta (fuel : nat) (src : list ascii) : option (list Z) :=
  match fuel, src with
  | _, [] => Some []
  | O, _ => None
  | S fuel, _ =>
      match hex_quantum 8 [] src with
      | None => None
      | Some (vs, src', stop) =>
          if stop then Some (quantum_bytes vs)
          else match hex_quanta fuel src' with
               | None => None
               | Some rest => Some (quantum_bytes vs ++ rest)
               end
      end
  end.

(** Every quantum reads at least one character, so the length is enough fuel. *)
Definition hex32_decode (s : list ascii) : option (list Z) :=
  let src := filter (λ c, c ≠ "010"%char ∧ c ≠ "013"%char) s in
  hex_quanta (length src) src.

(** ** Paths of encrypted names *)

Definition maxPathComponent : nat := 200.
Definition encryptedDirExtension : list ascii := s2l ".syncthing-enc".

(** The loop over what follows the first three characters. *)
Fixpoint long_components (fuel : nat) (s : list ascii) : list path :=
  match fuel with
  | O => []
  | S fuel =>
      if (maxPathComponent <? length s)%nat
      then take maxPathComponent s :: long_components fuel (drop maxPathComponent s)
      else if (0 <? length s)%nat then [s] else []
  end.

Definition slash_components (s : list ascii) : list path :=
  (take 1 s ++ encryptedDirExtension) :: take 2 (drop 1 s) ::
  long_components (length s) (drop 3 s).

(** Cutting more than there is panics. *)
Definition slashify (s : list ascii) : go path :=
  if (length s <? 3)%nat then Panic "runtime error: slice bounds out of range"
  else Ok (join_byte sep (slash_components s)).

Definition deslashify (s : path) : go (list ascii) :=
  if bool_decide (s = []) || negb (prefixb encryptedDirExtension (drop 1 s))
  then Err "invalid encrypted path"
  else
    let s := take 1 s ++ drop (1 + length encryptedDirExtension) s in
    Ok (filter (λ c, c ≠ sep) s).

(** [pathComponents[2:]] of a list of one element is not reached. *)
Definition IsEncryptedParent (pathComponents : list path) : bool :=
  let l := length pathComponents in
  if (l =? 2)%nat && negb (length (default [] (pathComponents !! 1%nat)) =? 2)%nat then false
  else if (l =? 0)%nat then false
  else
    let first := default [] (pathComponents !! 0%nat) in
    if bool_decide (first = []) then false
    else if negb (bool_decide (drop 1 first = encryptedDirExtension)) then false
    else if (l <? 2)%nat then true
    else forallb (λ comp, (length comp =? maxPathComponent)%nat) (drop 2 pathComponents).

(** ** Ciphers *)

Definition nonceSize : nat := 24.
Definition tagSize : nat := 16.
Definition keySize : nat := 32.

Abbreviation key := (list Z).

(** AES-SIV ([miscreant.go]), XChaCha20-Poly1305, scrypt and HKDF with SHA-256. *)
Class Crypto := {
  siv_seal : key → list Z → list Z → list Z;
  siv_open : key → list Z → list Z → option (list Z);
  aead_seal : key → list Z → list Z → list Z;
  aead_open : key → list Z → list Z → option (list Z);
  scrypt : list Z → list Z → key;
  hkdf : list Z → list Z → key;
}.

(** Opening undoes sealing of bytes, and a sealed text has sixteen bytes more. *)
Class CryptoLaws (C : Crypto) : Prop := {
  siv_open_seal k ad d : Forall is_byte d → siv_open k ad (siv_seal k ad d) = Some d;
  siv_seal_bytes k ad d : Forall is_byte d → Forall is_byte (siv_seal k ad d);
  length_siv_seal k ad d : length (siv_seal k ad d) = (length d + 16)%nat;
  aead_open_seal k n d : length n = nonceSize → aead_open k n (aead_seal k n d) = Some d;
  length_aead_seal k n d : length (aead_seal k n d) = (length d + 16)%nat;
}.

Section names.
Context {C : Crypto}.

Definition bytes_of (s : string) : list Z := map byte_val (s2l s).
Definition string_of (bs : list Z) : string := l2s (map byte_chr bs).

Definition encryptDeterministic (data : list Z) (k : key) (additionalData : list Z) : list Z :=
  siv_seal k additionalData data.
Definition decryptDeterministic (data : list Z) (k : key) (additionalData : list Z) : go (list Z) :=
  match siv_open k additionalData data with
  | Some d => Ok d
  | None => Err "message authentication failed"
  end.

Definition encryptName (name : string) (k : key) : go string :=
  let enc := encryptDeterministic (bytes_of name) k [] in
  let! p := slashify (hex32_encode enc) in
  Ok (l2s p).

Definition decryptName (name : string) (k : key) : go string :=
  let! s := deslashify (s2l name) in
  match hex32_decode s with
  | None => Err "illegal base32 data"
  | Some bs => let! dec := decryptDeterministic bs k [] in Ok (string_of dec)
  end.
End names.

(** ** Base 32 round trip *)

Lemma hex32_val_chr v : 0 ≤ v < 32 → hex32_val (hex32_chr v) = Some v.
Proof.
  intros Hv. apply (bool_decide_unpack (hex32_val (hex32_chr v) = Some v)), Is_true_true.
  revert v Hv. apply forallb_below. reflexivity.
Qed.

Lemma hex32_chr_in v : 0 ≤ v < 32 → hex32_chr v ∈ hex_alphabet.
Proof.
  intros Hv. unfold hex32_chr.
  destruct (hex_alphabet !! Z.to_nat v) eqn:E; [by eapply list_elem_of_lookup_2|].
  apply lookup_ge_None_1 in E. simpl in E. lia.
Qed.

Lemma hex_quantum_chars vs acc rest :
  Forall (λ v, 0 ≤ v < 32) vs →
  ∀ k, hex_quantum (length vs + k) acc (map hex32_chr vs ++ rest) =
       hex_quantum k (acc ++ vs) rest.
Proof.
  intros Hvs. revert acc. induction Hvs as [|v vs Hv Hvs IH]; intros acc k.
  { by rewrite app_nil_r. }
  cbn [length Nat.add map app hex_quantum].
  destruct (Ascii.eqb_spec (hex32_chr v) no_padding) as [E|].
  { pose proof (hex32_val_chr v Hv) as H. rewrite E in H. done. }
  cbn [andb]. rewrite hex32_val_chr, IH, <- app_assoc by done. done.
Qed.

(** The bits of a group, filled up to a multiple of five. *)
Lemma quints_short bs :
  (length bs ≤ 5)%nat →
  ∃ pad, flat_map quint_bits (quints (flat_map byte_bits bs)) = flat_map byte_bits bs ++ pad ∧
    (length pad < 8)%nat ∧ length (quints (flat_map byte_bits bs)) ∈ [0; 2; 4; 5; 7; 8]%nat.
Proof.
  intros Hl. destruct bs as [|a [|b [|c [|d [|e [|f bs]]]]]]; [..|cbn in Hl; lia];
    [exists (replicate 0 false)|exists (replicate 2 false)|exists (replicate 4 false)
    |exists (replicate 1 false)|exists (replicate 3 false)|exists (replicate 0 false)];
    cbn [flat_map byte_bits map app quints]; rewrite ?quint_bits_val; (split; [done|]);
    (split; [cbn; lia|]); cbn [length]; rewrite !elem_of_cons; naive_solver.
Qed.

Lemma octets_short pad : (length pad < 8)%nat → octets pad = [].
Proof. intros H. do 8 (destruct pad as [|? pad]; [done|]). cbn in H. lia. Qed.

Lemma quantum_bytes_short bs :
  Forall is_byte bs → (length bs ≤ 5)%nat → quantum_bytes (quints (flat_map byte_bits bs)) = bs.
Proof.
  intros Hb Hl. destruct (quints_short bs Hl) as (pad & E & Hp & Hn). unfold quantum_bytes.
  rewrite E, octets_bytes, octets_short, app_nil_r by done.
  destruct (existsb _ _) eqn:Ex; [|done]. exfalso. revert Hn Ex.
  generalize (length (quints (flat_map byte_bits bs))). intros n Hn Hx.
  repeat (apply elem_of_cons in Hn as [->|Hn]; [discriminate Hx|]). by apply not_elem_of_nil in Hn.
Qed.

(** A full group in front of others. *)
Lemma quints_group a b c d e bs :
  quints (flat_map byte_bits (a :: b :: c :: d :: e :: bs)) =
  quints (flat_map byte_bits [a; b; c; d; e]) ++ quints (flat_map byte_bits bs).
Proof. done. Qed.

Lemma hex_decode_encode_fuel n bs : ∀ fuel,
  (length bs ≤ n)%nat → Forall is_byte bs → (length (hex32_encode bs) ≤ fuel)%nat →
  hex_quanta fuel (hex32_encode bs) = Some bs.
Proof.
  revert bs. induction n as [|n IH]; intros bs fuel Hn Hb Hf.
  { destruct bs; [|cbn in Hn; lia]. by destruct fuel. }
  destruct (decide (length bs < 5)%nat) as [Hlt|Hge].
  - destruct (decide (bs = [])) as [->|Hne]; [by destruct fuel|].
    pose proof (quints_short bs ltac:(lia)) as (_ & _ & _ & Hl).
    pose proof (quantum_bytes_short bs Hb ltac:(lia)) as Hq.
    pose proof (quints_range (flat_map byte_bits bs)) as Hr. unfold hex32_encode in *.
    set (vs := quints (flat_map byte_bits bs)) in *.
    assert (length vs < 8 ∧ vs ≠ [])%nat as [Hv8 Hv0].
    { destruct bs as [|? [|? [|? [|? [|? bs]]]]]; [done|..|cbn in Hlt; lia]; unfold vs; (split; [cbn; lia|discriminate]). }
    clearbody vs. assert (hex_quantum 8 [] (map hex32_chr vs) = Some (vs, [], true)) as Hread.
    { rewrite <- (app_nil_r (map hex32_chr vs)).
      replace 8%nat with (length vs + S (7 - length vs))%nat by lia.
      rewrite hex_quantum_chars by done. done. }
    destruct vs as [|v vs]; [done|]. destruct fuel as [|fuel]; [cbn in Hf; lia|].
    cbn [hex_quanta map] in *. by rewrite Hread, Hq.
  - destruct bs as [|a [|b [|c [|d [|e bs]]]]]; try (cbn in Hge; lia).
    unfold hex32_encode in *. rewrite quints_group, map_app in *.
    set (vs := quints (flat_map byte_bits [a; b; c; d; e])) in *.
    assert (length vs = 8%nat) as Hl by done.
    assert (Forall is_byte [a; b; c; d; e] ∧ Forall is_byte bs) as [Hg Hbs].
    { apply (Forall_app _ [a; b; c; d; e] bs). done. }
    pose proof (quantum_bytes_short [a; b; c; d; e] Hg ltac:(done)) as Hq. fold vs in Hq.
    set (rest := map hex32_chr (quints (flat_map byte_bits bs))) in *.
    assert (hex_quantum 8 [] (map hex32_chr vs ++ rest) = Some (vs, rest, false)) as Hread.
    { rewrite <- (Nat.add_0_r 8), <- Hl, hex_quantum_chars by apply quints_range. done. }
    rewrite length_app, length_map, Hl in Hf. destruct fuel as [|fuel]; [lia|].
    cbn [hex_quanta]. destruct (map hex32_chr vs ++ rest) eqn:E; [by destruct vs|].
    rewrite Hread, Hq. assert (hex_quanta fuel rest = Some bs) as ->; [|done].
    apply IH; [cbn in Hn; lia|done|]. change (length rest ≤ fuel)%nat. lia.
Qed.

Lemma hex32_encode_alphabet bs : Forall (λ c, c ∈ hex_alphabet) (hex32_encode bs).
Proof.
  unfold hex32_encode. apply Forall_map. eapply Forall_impl; [apply quints_range|].
  simpl. apply hex32_chr_in.
Qed.

(** The characters in use are neither line ends nor separators nor dots. *)
Lemma hex_plain c :
  c ∈ hex_alphabet → c ≠ "010"%char ∧ c ≠ "013"%char ∧ c ≠ sep ∧ c ≠ "."%char.
Proof.
  intros Hc. enough (Forall (λ c, c ≠ "010"%char ∧ c ≠ "013"%char ∧ c ≠ sep ∧ c ≠ "."%char) hex_alphabet) as H.
  { rewrite Forall_forall in H. auto. }
  unfold hex_alphabet. repeat constructor; discriminate.
Qed.

(** Decoding undoes encoding. *)
Lemma hex32_roundtrip bs : Forall is_byte bs → hex32_decode (hex32_encode bs) = Some bs.
Proof.
  intros Hb. unfold hex32_decode. rewrite filter_id.
  - by apply (hex_decode_encode_fuel (length bs)).
  - eapply Forall_impl; [apply hex32_encode_alphabet|]. intros c Hc.
    by destruct (hex_plain c Hc) as (? & ? & _).
Qed.

(** The length of an encoding: never three more than a multiple of eight. *)
Lemma quints_length n bs :
  (length bs ≤ n)%nat → ∃ k r, length (hex32_encode bs) = (8 * k + r)%nat ∧ r ∈ [0; 2; 4; 5; 7]%nat ∧
    (length bs ≤ length (hex32_encode bs))%nat.
Proof.
  revert bs. induction n as [|n IH]; intros bs Hn.
  { exists 0%nat, 0%nat. destruct bs; [|cbn in Hn; lia]. cbn. rewrite elem_of_cons. auto. }
  destruct bs as [|a [|b [|c [|d [|e bs]]]]].
  1-5: eexists 0%nat, _; split; [reflexivity|]; cbn; rewrite !elem_of_cons; (split; [auto 10|lia]).
  destruct (IH bs) as (k & r & E & Hr & Hle); [cbn in Hn; lia|]. exists (S k), r.
  unfold hex32_encode in *. rewrite quints_group, map_app, length_app.
  change (length (map hex32_chr (quints (flat_map byte_bits [a; b; c; d; e])))) with 8%nat.
  rewrite E in *. split_and!; [lia|done|cbn [length]; lia].
Qed.

(** ** Cutting names into paths *)

Lemma long_components_spec fuel s :
  (length s ≤ fuel)%nat →
  concat (long_components fuel s) = s ∧
  Forall (λ c, (0 < length c ≤ maxPathComponent)%nat) (long_components fuel s) ∧
  ∀ k, (k < length (long_components fuel s) - 1)%nat →
    ∃ c, long_components fuel s !! k = Some c ∧ length c = maxPathComponent.
Proof.
  revert s. induction fuel as [|fuel IH]; intros s Hs; cbn [long_components].
  { destruct s; [|cbn in Hs; lia]. split_and!; [done|constructor|cbn; lia]. }
  destruct (Nat.ltb_spec maxPathComponent (length s)) as [Hlt|Hge].
  - assert (length (take maxPathComponent s) = maxPathComponent) as Hl by (rewrite length_take; lia).
    destruct (IH (drop maxPathComponent s)) as (H1 & H2 & H3).
    { rewrite length_drop. unfold maxPathComponent in *. lia. }
    cbn [concat length]. split_and!.
    + by rewrite H1, take_drop.
    + constructor; [unfold maxPathComponent in *; lia|done].
    + intros [|k] Hk; [by eexists|]. apply H3. lia.
  - destruct (Nat.ltb_spec 0 (length s)).
    + cbn. rewrite app_nil_r. split_and!; [done|constructor; [lia|constructor]|lia].
    + destruct s; [|cbn in *; lia]. split_and!; [done|constructor|cbn; lia].
Qed.

Lemma filter_join (l : list path) :
  Forall (λ p, sep ∉ p) l → filter (λ c, c ≠ sep) (join_byte sep l) = concat l.
Proof.
  assert (∀ p : path, sep ∉ p → filter (λ c, c ≠ sep) p = p) as Hp.
  { intros p Hp. apply filter_id, Forall_forall. by intros c Hc ->. }
  induction 1 as [|p l Hs Hl IH]; [done|]. destruct l as [|q l].
  { cbn. by rewrite app_nil_r, Hp. }
  cbn [join_byte concat] in *. rewrite filter_app, filter_cons_False by naive_solver.
  by rewrite IH, Hp.
Qed.

Lemma elem_of_long c fuel s x :
  (length s ≤ fuel)%nat → x ∈ long_components fuel s → c ∈ x → c ∈ s.
Proof.
  intros Hs Hx Hc. destruct (long_components_spec fuel s Hs) as (<- & _ & _).
  rewrite list_elem_of_In, in_concat. exists x. by rewrite <- !list_elem_of_In.
Qed.

Lemma slash_components_3 a b c s :
  slash_components (a :: b :: c :: s) =
  (a :: encryptedDirExtension) :: [b; c] :: long_components (length (a :: b :: c :: s)) s.
Proof. done. Qed.

Lemma slashify_deslashify s :
  (3 ≤ length s)%nat → sep ∉ s →
  slashify s = Ok (join_byte sep (slash_components s)) ∧
  deslashify (join_byte sep (slash_components s)) = Ok s.
Proof.
  intros Hl Hs. unfold slashify. rewrite (proj2 (Nat.ltb_ge _ _)) by done. split; [done|].
  destruct s as [|a [|b [|c s]]]; try (cbn in Hl; lia).
  assert (length s ≤ length (a :: b :: c :: s))%nat as Hf by (cbn; lia).
  destruct (long_components_spec _ s Hf) as (Hc & _ & _).
  unfold deslashify. rewrite slash_components_3.
  set (L := long_components (length (a :: b :: c :: s)) s) in *.
  change (join_byte sep ((a :: encryptedDirExtension) :: [b; c] :: L))
    with ((a :: encryptedDirExtension) ++ sep :: join_byte sep ([b; c] :: L)).
  rewrite bool_decide_eq_false_2 by done. cbn [orb app].
  set (q := sep :: join_byte sep ([b; c] :: L)).
  change (drop 1 (a :: encryptedDirExtension ++ q)) with (encryptedDirExtension ++ q).
  rewrite (proj2 (prefixb_spec encryptedDirExtension (encryptedDirExtension ++ q))) by by exists q.
  cbn [negb]. change (take 1 (a :: encryptedDirExtension ++ q)) with [a].
  change (drop (1 + length encryptedDirExtension) (a :: encryptedDirExtension ++ q))
    with (drop (length encryptedDirExtension) (encryptedDirExtension ++ q)).
  rewrite drop_app_length. f_equal. unfold q. cbn [app]. rewrite filter_cons_True by (intros ->; apply Hs; left).
  rewrite filter_cons_False by naive_solver. rewrite filter_join.
  - cbn [concat app]. by rewrite Hc.
  - constructor; [set_solver|]. apply Forall_forall. intros x Hx Hin. apply Hs.
    do 3 right. by eapply elem_of_long.
Qed.

(** The components of a name are plain, short, and its parents are the proper
    prefixes. *)
Lemma slash_components_normal s :
  (3 ≤ length s)%nat → Forall (λ c, c ∈ hex_alphabet) s →
  Forall (λ c, normal c ∧ (length c ≤ maxPathComponent)%nat) (slash_components s).
Proof.
  intros Hl Hs. assert (∀ x, x ≠ [] → Forall (λ c, c ∈ s) x → normal x) as Hn.
  { intros x Hx Hin. rewrite Forall_forall in Hs, Hin. split_and!; [done| | |].
    - intros ->. destruct (hex_plain "."%char) as (_ & _ & _ & H); [|done]. apply Hs, Hin. left.
    - intros ->. destruct (hex_plain "."%char) as (_ & _ & _ & H); [|done]. apply Hs, Hin. left.
    - intros Hsep. by destruct (hex_plain sep (Hs _ (Hin _ Hsep))) as (_ & _ & ? & _). }
  destruct s as [|a [|b [|c s]]]; try (cbn in Hl; lia).
  assert (length s ≤ length (a :: b :: c :: s))%nat as Hf by (cbn; lia).
  destruct (long_components_spec _ s Hf) as (_ & Hlen & _).
  rewrite slash_components_3. repeat (apply Forall_cons_2); [split|split|].
  - assert (normal [a]) as (_ & _ & _ & Ha) by (apply Hn; [done|]; repeat constructor; left).
    split_and!; try done. intros Hin. apply elem_of_cons in Hin as [E|Hin]; [apply Ha; rewrite E; left|].
    revert Hin. apply (bool_decide_eq_true (sep ∉ encryptedDirExtension)). reflexivity.
  - cbn. unfold maxPathComponent. lia.
  - apply Hn; [done|]. repeat constructor; set_solver.
  - cbn. unfold maxPathComponent. lia.
  - apply Forall_forall. intros x Hx. rewrite Forall_forall in Hlen. specialize (Hlen x Hx). cbn in Hlen.
    split; [|lia]. apply Hn; [by intros ->; cbn in Hlen; lia|]. apply Forall_forall. intros d Hd.
    do 3 right. by eapply elem_of_long.
Qed.

Lemma parents_of_components s k :
  (3 < length s)%nat → (length s mod 200 ≠ 3)%nat →
  IsEncryptedParent (take k (slash_components s)) = (0 <? k)%nat && (k <? length (slash_components s))%nat.
Proof.
  intros Hl Hm. destruct s as [|a [|b [|c s]]]; try (cbn in Hl; lia).
  assert (length s ≤ length (a :: b :: c :: s))%nat as Hf by (cbn; lia).
  destruct (long_components_spec _ s Hf) as (Hc & Hlen & Hfull).
  rewrite slash_components_3.
  set (L := long_components (length (a :: b :: c :: s)) s) in *. clearbody L. unfold IsEncryptedParent.
  destruct k as [|[|k]]; [done|done|]. cbn [take length lookup list_lookup default drop].
  change ([b; c] : path) with [b; c]. cbn [length]. rewrite Nat.eqb_refl, andb_false_r.
  change (S (S (length (take k L))) =? 0)%nat with false. cbv iota.
  rewrite bool_decide_eq_false_2 by done. cbn [drop]. rewrite bool_decide_eq_true_2 by done.
  change (S (S (length (take k L))) <? 2)%nat with false. cbn [negb].
  change (0 <? S (S k))%nat with true. cbn [andb].
  change (S (S k) <? S (S (length L)))%nat with (k <? length L)%nat.
  destruct (Nat.ltb_spec k (length L)) as [Hk|Hk].
  - apply forallb_lookup. intros i x Hi. apply lookup_take_Some in Hi as [Hi Hik].
    destruct (Hfull i) as (y & Hy & Hylen); [lia|]. rewrite Hi in Hy. injection Hy as <-.
    by apply Nat.eqb_eq.
  - rewrite take_ge by lia. apply not_true_is_false. intros Hall. apply Hm.
    assert (length (concat L) = length L * 200)%nat as Hcat.
    { clear -Hall. induction L as [|x L IH]; [done|]. cbn in *. apply andb_true_iff in Hall as [Hx Hall].
      apply Nat.eqb_eq in Hx. rewrite length_app, Hx, (IH Hall). unfold maxPathComponent. lia. }
    rewrite Hc in Hcat. cbn [length]. rewrite Hcat.
    replace (S (S (S (length L * 200)))) with (3 + length L * 200)%nat by lia.
    by rewrite Nat.Div0.mod_add.
Qed.

Section encrypted_names.
Context {C : Crypto} {L : CryptoLaws C}.

Lemma string_of_bytes s : string_of (bytes_of s) = s.
Proof. apply name_bytes. Qed.

(** C34.  Every name can be encrypted: the encrypted name passes the check for
    names, no component of it is longer than 200 bytes, it decrypts to the name
    it was made from, and the paths that count as parents of encrypted files are
    exactly the proper prefixes of its components, never the whole path. *)
Theorem encryptName_spec name k :
  ∃ enc es, encryptName name k = Ok enc ∧ checkFilename enc = None ∧
    decryptName enc k = Ok name ∧
    s2l enc = build false es ∧ Forall (λ c, (length c ≤ 200)%nat) es ∧
    ∀ n, IsEncryptedParent (take n es) = (0 <? n)%nat && (n <? length es)%nat.
Proof.
  assert (Forall is_byte (bytes_of name)) as Hb.
  { unfold bytes_of. apply Forall_map, Forall_forall. intros c _. apply byte_val_range. }
  set (d := siv_seal k [] (bytes_of name)). pose proof (siv_seal_bytes k [] _ Hb) as Hd.
  pose proof (length_siv_seal k [] (bytes_of name)) as Hl. fold d in Hd, Hl. pose proof (hex32_encode_alphabet d) as Halpha.
  destruct (quints_length (length d) d) as (q & r & Elen & Hr & Hle); [lia|].
  assert (sep ∉ hex32_encode d) as Hsep.
  { intros H. rewrite Forall_forall in Halpha. by destruct (hex_plain sep (Halpha _ H)) as (_ & _ & ? & _). }
  destruct (slashify_deslashify (hex32_encode d)) as [Hs Hds]; [lia|done|].
  pose proof (slash_components_normal (hex32_encode d) ltac:(lia) Halpha) as Hcomp.
  exists (l2s (join_byte sep (slash_components (hex32_encode d)))), (slash_components (hex32_encode d)).
  split_and!.
  - unfold encryptName, encryptDeterministic. fold d. by rewrite Hs.
  - apply checkFilename_None. exists (slash_components (hex32_encode d)).
    rewrite s2l_l2s. split_and!; [done| |done]. eapply Forall_impl; [exact Hcomp|]. by intros ? [].
  - unfold decryptName. rewrite s2l_l2s, Hds. cbn [mbind go_bind]. rewrite hex32_roundtrip by done.
    unfold decryptDeterministic, d. rewrite siv_open_seal by done. cbn [mbind go_bind]. by rewrite string_of_bytes.
  - by rewrite s2l_l2s.
  - eapply Forall_impl; [exact Hcomp|]. by intros ? [].
  - intros n. apply parents_of_components; [lia|]. rewrite Elen. intros Hmod.
    pose proof (Nat.div_mod_eq (8 * q + r) 200) as E. rewrite Hmod in E.
    repeat (apply elem_of_cons in Hr as [->|Hr]; [lia|]). by apply not_elem_of_nil in Hr.
Qed.
End encrypted_names.

(** ** Ciphers that satisfy the laws *)

(** The text behind sixteen bytes, which depend on the key. *)
Definition sample_crypto : Crypto := {|
  siv_seal k ad d := replicate 16 (u8 (fold_left Z.add k 0)) ++ d;
  siv_open k ad c := if bool_decide (take 16 c = replicate 16 (u8 (fold_left Z.add k 0))) then Some (drop 16 c) else None;
  aead_seal k n d := replicate 16 (u8 (fold_left Z.add k 0)) ++ d;
  aead_open k n c := if bool_decide (take 16 c = replicate 16 (u8 (fold_left Z.add k 0))) then Some (drop 16 c) else None;
  scrypt p s := replicate 32 (fold_left Z.add (p ++ s) 0);
  hkdf p s := replicate 32 (fold_left Z.add (p ++ s) 0);
|}.

#[export] Instance sample_crypto_laws : CryptoLaws sample_crypto.
Proof.
  split; intros k ad d; cbn [siv_seal siv_open aead_seal aead_open sample_crypto].
  - intros _. rewrite take_app_length' by (by rewrite length_replicate).
    rewrite bool_decide_eq_true_2 by done. by rewrite drop_app_length' by (by rewrite length_replicate).
  - intros Hd. apply Forall_app. split; [|done]. apply Forall_replicate. unfold is_byte, u8. zlia.
  - rewrite length_app, length_replicate. lia.
  - intros _. rewrite take_app_length' by (by rewrite length_replicate).
    rewrite bool_decide_eq_true_2 by done. by rewrite drop_app_length' by (by rewrite length_replicate).
  - rewrite length_app, length_replicate. lia.
Qed.

Lemma encryptName_spec_witness :
  ∃ enc es, encryptName (C := sample_crypto) "a/b.txt" [1; 2] = Ok enc ∧
    decryptName (C := sample_crypto) enc [1; 2] = Ok "a/b.txt"%string ∧
    s2l enc = build false es ∧ IsEncryptedParent (take 2 es) = (2 <? length es)%nat.
Proof.
  destruct (encryptName_spec (C := sample_crypto) "a/b.txt" [1; 2]) as (enc & es & H1 & _ & H2 & H3 & _ & H4).
  exists enc, es. split; [exact H1|]. split; [exact H2|]. split; [exact H3|]. exact (H4 2%nat).
Defined.
