(* ===== verification/Encryption.v ===== *)
(** * Encrypted folders ([src/lib/protocol/encryption.go])

    What a device sends to one that must not read the data: file records wrapped
    into fake ones, requests and their answers translated both ways.  The ciphers
    are the interface [Crypto], the encoding of file records the interface
    [FileCodec]; nonces and padding are arguments. *)
From S2P Require Import Prelude GoLib Base32 Vector Platform FileInfo DeviceID DownloadState Messages Paths Wire Dispatch EncNames.
From Stdlib Require Import Ascii.
From Stdlib Require String.

Local Open Scope Z_scope.

Definition minPaddedSize : Z := 1024.
Definition blockOverhead : Z := Z.of_nat tagSize + Z.of_nat nonceSize.

(** [proto.Marshal] and [proto.Unmarshal] of file records. *)
Class FileCodec := {
  marshal_fi : bepFileInfo → option (list Z);
  unmarshal_fi : list Z → option bepFileInfo;
}.
Class FileCodecLaws (F : FileCodec) : Prop := {
  unmarshal_marshal_fi w bs : marshal_fi w = Some bs → unmarshal_fi bs = Some w;
}.

Abbreviation len l := (Z.of_nat (length l)).

Section encryption.
Context {C : Crypto}.

(** ** Keys *)

Definition knownBytes (folderID : string) : list Z := bytes_of ("syncthing" +:+ folderID).
Definition hkdfSalt : list Z := bytes_of "syncthing".

(** The keys that are derived; the generator remembers some of them. *)
Definition derive_folder_key (folderID password : string) : key :=
  scrypt (bytes_of password) (knownBytes folderID).
Definition derive_file_key (filename : string) (folderKey : key) : key :=
  hkdf (folderKey ++ bytes_of filename) hkdfSalt.

Record KeyGenerator := MkKeyGenerator {
  folderKeys : gmap (string * string) key;
  fileKeys : gmap (string * key) key;
}.
Definition NewKeyGenerator : KeyGenerator := MkKeyGenerator ∅ ∅.

Section caches.
(** [Add] of the LRU caches, which drops what it likes. *)
Variable add_folder : gmap (string * string) key → string * string → key → gmap (string * string) key.
Variable add_file : gmap (string * key) key → string * key → key → gmap (string * key) key.

Definition KeyFromPassword (g : KeyGenerator) (folderID password : string) : KeyGenerator * key :=
  match folderKeys g !! (folderID, password) with
  | Some k => (g, k)
  | None =>
      let k := derive_folder_key folderID password in
      (MkKeyGenerator (add_folder (folderKeys g) (folderID, password) k) (fileKeys g), k)
  end.

Definition FileKey (g : KeyGenerator) (filename : string) (folderKey : key) : KeyGenerator * key :=
  match fileKeys g !! (filename, folderKey) with
  | Some k => (g, k)
  | None =>
      let k := derive_file_key filename folderKey in
      (MkKeyGenerator (folderKeys g) (add_file (fileKeys g) (filename, folderKey) k), k)
  end.
End caches.

Definition PasswordToken (folderID password : string) : list Z :=
  encryptDeterministic (knownBytes folderID) (derive_folder_key folderID password) [].

(** [folderKeyRegistry] *)
Definition registry : Type := gmap string key.
Definition registry_get (r : registry) (folder : string) : option key := r !! folder.
Definition keysFromPasswords (passwords : gmap string string) : registry :=
  map_imap (λ folder password, Some (derive_folder_key folder password)) passwords.
Definition setPasswords (r : registry) (passwords : gmap string string) : registry :=
  keysFromPasswords passwords.

(** ** Bytes *)

Definition encryptBytes (nonce data : list Z) (k : key) : list Z := nonce ++ aead_seal k nonce data.

Definition DecryptBytes (data : list Z) (k : key) : go (list Z) :=
  if len data <? blockOverhead then Err "data too short"
  else match aead_open k (take nonceSize data) (drop nonceSize data) with
       | Some d => Ok d
       | None => Err "message authentication failed"
       end.

Definition encryptBlockHash (hash : list Z) (offset : Z) (fileKey : key) : list Z :=
  encryptDeterministic hash fileKey (be_encode 8 (u64 offset)).

(** ** File records *)

Context {F : FileCodec}.

Definition fake_version (v : Vector) : Vector :=
  MkVector [MkCounter 1 (fold_left (λ acc c, u64 (acc + Value c)) (Counters v) 0)].

(** The blocks of the fake file, from [offset] on, and where they end. *)
Fixpoint fake_blocks (fileKey : key) (offset : Z) (bs : list BlockInfo) : list BlockInfo * Z :=
  match bs with
  | [] => ([], offset)
  | b :: bs =>
      let bsize := if bSize b <? minPaddedSize then minPaddedSize else bSize b in
      let size := bsize + blockOverhead in
      let hash := encryptBlockHash (bHash b) (bOffset b) fileKey in
      let '(rest, total) := fake_blocks fileKey (i64 (offset + size)) bs in
      (MkBlockInfo hash offset size :: rest, total)
  end.

Definition encryptFileInfo (nonce : list Z) (fi : FileInfo) (folderKey : key) : go FileInfo :=
  let fileKey := derive_file_key (fName fi) folderKey in
  let! w := FileInfo_ToWire fi false in
  match marshal_fi w with
  | None => Panic "impossible serialization mishap"
  | Some bs =>
      let encryptedFI := encryptBytes nonce bs fileKey in
      let version := fake_version (fVersion fi) in
      let '(blocks, offset) := fake_blocks fileKey 0 (fBlocks fi) in
      let typ := if fType fi =? FileInfoTypeFile then FileInfoTypeFile else FileInfoTypeDirectory in
      let! name := encryptName (fName fi) folderKey in
      let file := typ =? FileInfoTypeFile in
      Ok {| fName := name;
            fSize := if file then offset else 0;
            fModifiedS := 1234567890;
            fModifiedBy := 0;
            fVersion := version;
            fSequence := fSequence fi;
            fBlocks := if file then blocks else [];
            fSymlinkTarget := [];
            fBlocksHash := [];
            fPreviousBlocksHash := [];
            fEncrypted := encryptedFI;
            fPlatform := MkPlatformData None None None None None None;
            fType := typ;
            fPermissions := 420;
            fModifiedNs := 0;
            fRawBlockSize := if file then i32 (FileInfo_BlockSize fi + blockOverhead) else 0;
            fLocalFlags := if IsInvalid fi then FlagLocalRemoteInvalid else 0;
            fEncryptionTrailerSize := 0;
            fDeleted := fDeleted fi;
            fNoPermissions := false;
            ftruncated := false |}
  end.

(** The [i]-th file of a list gets the [i]-th nonce. *)
Fixpoint encryptFileInfos (nonces : nat → list Z) (files : list FileInfo) (folderKey : key)
    : go (list FileInfo) :=
  match files with
  | [] => Ok []
  | fi :: files =>
      let! e := encryptFileInfo (nonces 0%nat) fi folderKey in
      let! es := encryptFileInfos (λ i, nonces (S i)) files folderKey in
      Ok (e :: es)
  end.

Definition wire_sequence (w : bepFileInfo) (seq : Z) : bepFileInfo :=
  {| wName := wName w; wSize := wSize w; wModifiedS := wModifiedS w; wModifiedBy := wModifiedBy w;
     wVersion := wVersion w; wSequence := seq; wBlocks := wBlocks w;
     wSymlinkTarget := wSymlinkTarget w; wBlocksHash := wBlocksHash w;
     wPreviousBlocksHash := wPreviousBlocksHash w; wEncrypted := wEncrypted w; wType := wType w;
     wPermissions := wPermissions w; wModifiedNs := wModifiedNs w; wBlockSize := wBlockSize w;
     wPlatform := wPlatform w; wLocalFlags := wLocalFlags w;
     wEncryptionTrailerSize := wEncryptionTrailerSize w; wDeleted := wDeleted w;
     wInvalid := wInvalid w; wNoPermissions := wNoPermissions w |}.

Definition DecryptFileInfo (fi : FileInfo) (folderKey : key) : go FileInfo :=
  let! realName := decryptName (fName fi) folderKey in
  let fileKey := derive_file_key realName folderKey in
  let! dec := DecryptBytes (fEncrypted fi) fileKey in
  match unmarshal_fi dec with
  | None => Err "unmarshal"
  | Some decFI => Ok (FileInfoFromWire (wire_sequence decFI (fSequence fi)))
  end.

Fixpoint decryptFileInfos (files : list FileInfo) (folderKey : key) : go (list FileInfo) :=
  match files with
  | [] => Ok []
  | fi :: files =>
      let! d := DecryptFileInfo fi folderKey in
      let! ds := decryptFileInfos files folderKey in
      Ok (d :: ds)
  end.

(** [encryptedConnection.Index], [IndexUpdate] and [encryptedModel.Index],
    [IndexUpdate]: what is passed on. *)
Definition connection_index (r : registry) (nonces : nat → list Z) (folder : string) (m : message)
    : go message :=
  match registry_get r folder with
  | None => Ok m
  | Some k => let! fs := encryptFileInfos nonces (message_files m) k in Ok (replace_files m fs)
  end.

Definition model_index (r : registry) (folder : string) (m : message) : go message :=
  match registry_get r folder with
  | None => Ok m
  | Some k => let! fs := decryptFileInfos (message_files m) k in Ok (replace_files m fs)
  end.

(** ** Requests *)

(** [encryptedConnection.Request]: the request that is sent. *)
Definition connection_request (req : Request) (folderKey : key) : go Request :=
  let fileKey := derive_file_key (rqName req) folderKey in
  let encSize := if rqSize req <? minPaddedSize then minPaddedSize else rqSize req in
  let encSize := encSize + blockOverhead in
  let! encName := encryptName (rqName req) folderKey in
  let encOffset := i64 (rqOffset req + i64 (rqBlockNo req * blockOverhead)) in
  let encHash := encryptBlockHash (rqHash req) (rqOffset req) fileKey in
  Ok (MkRequest (rqID req) (rqFolder req) encName encOffset encSize encHash false (rqBlockNo req)).

(** [bs[:req.Size]] *)
Definition slice_to (bs : list Z) (n : Z) : go (list Z) :=
  if (n <? 0) || (len bs <? n) then Panic "runtime error: slice bounds out of range"
  else Ok (take (Z.to_nat n) bs).

(** Its result for the answer [bs] to the request that was sent.  Opening
    allocates exactly the bytes it returns, so that slicing beyond them panics. *)
Definition connection_answer (req : Request) (folderKey : key) (bs : list Z) : go (list Z) :=
  let! bs := DecryptBytes bs (derive_file_key (rqName req) folderKey) in
  slice_to bs (rqSize req).

(** [encryptedModel.Request]: the request the model gets. *)
Definition model_request (req : Request) (folderKey : key) : go Request :=
  let! realName := decryptName (rqName req) folderKey in
  let realSize := rqSize req - blockOverhead in
  let realOffset := i64 (rqOffset req - i64 (rqBlockNo req * blockOverhead)) in
  if rqSize req <? minPaddedSize then Err "short request"
  else
    let fileKey := derive_file_key realName folderKey in
    let! realHash :=
      match length (rqHash req) with
      | O => Ok []
      | S _ =>
          match decryptDeterministic (rqHash req) fileKey (be_encode 8 (u64 realOffset)) with
          | Ok h => Ok h
          | _ => decryptDeterministic (rqHash req) fileKey []
          end
      end in
    Ok (MkRequest (rqID req) (rqFolder req) realName realOffset realSize realHash
          (rqFromTemporary req) (rqBlockNo req)).

(** Its answer for the data of the model, with random padding and a nonce. *)
Definition model_answer (req : Request) (folderKey : key) (random nonce data : list Z) : go (list Z) :=
  let! realName := decryptName (rqName req) folderKey in
  let padded := if len data <? minPaddedSize
                then data ++ take (Z.to_nat minPaddedSize - length data) random else data in
  Ok (encryptBytes nonce padded (derive_file_key realName folderKey)).

(** [DownloadProgress] on both sides: progress is not exchanged for encrypted
    folders. *)
Definition progress_passes (r : registry) (folder : string) : bool :=
  match registry_get r folder with None => true | Some _ => false end.
End encryption.

(** ** The caches change nothing *)

Section cached.
Context {C : Crypto}.
Variable add_folder : gmap (string * string) key → string * string → key → gmap (string * string) key.
Variable add_file : gmap (string * key) key → string * key → key → gmap (string * key) key.
(** A cache holds nothing but what was added. *)
Hypothesis add_folder_sub : ∀ m k v, add_folder m k v ⊆ <[k := v]> m.
Hypothesis add_file_sub : ∀ m k v, add_file m k v ⊆ <[k := v]> m.

Definition cache_ok (g : KeyGenerator) : Prop :=
  (∀ folder password k, folderKeys g !! (folder, password) = Some k → k = derive_folder_key folder password) ∧
  (∀ file fk k, fileKeys g !! (file, fk) = Some k → k = derive_file_key file fk).

Lemma KeyFromPassword_cached g folder password :
  cache_ok g →
  (KeyFromPassword add_folder g folder password).2 = derive_folder_key folder password ∧
  cache_ok (KeyFromPassword add_folder g folder password).1.
Proof.
  intros [H1 H2]. unfold KeyFromPassword. destruct (folderKeys g !! _) as [k|] eqn:E.
  { split; [by apply H1|done]. }
  split; [done|]. split; [|done]. cbn. intros f p k Hk.
  pose proof (lookup_weaken _ _ _ _ Hk (add_folder_sub _ _ _)) as H.
  apply lookup_insert_Some in H as [[[= <- <-] <-]|[_ ?]]; auto.
Qed.

Lemma FileKey_cached g file fk :
  cache_ok g →
  (FileKey add_file g file fk).2 = derive_file_key file fk ∧ cache_ok (FileKey add_file g file fk).1.
Proof.
  intros [H1 H2]. unfold FileKey. destruct (fileKeys g !! _) as [k|] eqn:E.
  { split; [by apply H2|done]. }
  split; [done|]. split; [done|]. cbn. intros f p k Hk.
  pose proof (lookup_weaken _ _ _ _ Hk (add_file_sub _ _ _)) as H.
  apply lookup_insert_Some in H as [[[= <- <-] <-]|[_ ?]]; auto.
Qed.
End cached.

(** ** Files survive *)

Definition sequence_set (f : FileInfo) (seq : Z) : FileInfo :=
  {| fName := fName f; fSize := fSize f; fModifiedS := fModifiedS f;
     fModifiedBy := fModifiedBy f; fVersion := fVersion f; fSequence := seq;
     fBlocks := fBlocks f; fSymlinkTarget := fSymlinkTarget f; fBlocksHash := fBlocksHash f;
     fPreviousBlocksHash := fPreviousBlocksHash f; fEncrypted := fEncrypted f;
     fPlatform := fPlatform f; fType := fType f; fPermissions := fPermissions f;
     fModifiedNs := fModifiedNs f; fRawBlockSize := fRawBlockSize f;
     fDeleted := fDeleted f; fNoPermissions := fNoPermissions f;
     fLocalFlags := fLocalFlags f; fEncryptionTrailerSize := fEncryptionTrailerSize f;
     ftruncated := ftruncated f |}.

Section roundtrips.
Context {C : Crypto} {L : CryptoLaws C} {F : FileCodec} {FL : FileCodecLaws F}.

(** The strings of the record are UTF-8, and it is not truncated. *)
Definition serialisable (f : FileInfo) : bool :=
  match FileInfo_ToWire f false with
  | Ok w => match marshal_fi w with Some _ => true | None => false end
  | _ => false
  end.

Lemma decrypt_encrypted nonce d k :
  length nonce = nonceSize → DecryptBytes (encryptBytes nonce d k) k = Ok d.
Proof.
  intros Hn. unfold DecryptBytes, encryptBytes. rewrite length_app, length_aead_seal, Hn.
  rewrite (proj2 (Z.ltb_ge _ _)) by (change blockOverhead with 40; unfold nonceSize; lia).
  by rewrite take_app_length', drop_app_length', aead_open_seal by done.
Qed.

Lemma length_fake_blocks fileKey bs : ∀ offset,
  length (fake_blocks fileKey offset bs).1 = length bs.
Proof.
  induction bs as [|b bs IH]; intros offset; cbn [fake_blocks]; [done|].
  specialize (IH (i64 (offset + ((if bSize b <? minPaddedSize then minPaddedSize else bSize b) + blockOverhead)))).
  revert IH. destruct (fake_blocks _ _ bs). cbn. by intros ->.
Qed.

Lemma FileInfoFromWire_sequence w s :
  FileInfoFromWire (wire_sequence w s) = sequence_set (FileInfoFromWire w) s.
Proof. done. Qed.

(** The part of the fake file that is kept from the real one. *)
Lemma encryptFileInfo_Ok nonce f k :
  file_fine f → serialisable f = true →
  ∃ e w bs, encryptFileInfo nonce f k = Ok e ∧ FileInfo_ToWire f false = Ok w ∧
    marshal_fi w = Some bs ∧ encryptName (fName f) k = Ok (fName e) ∧
    fEncrypted e = encryptBytes nonce bs (derive_file_key (fName f) k) ∧
    fSequence e = fSequence f ∧ fDeleted e = fDeleted f ∧ IsInvalid e = IsInvalid f ∧
    fVersion e = fake_version (fVersion f) ∧
    (fType f = FileInfoTypeFile → fType e = FileInfoTypeFile ∧
     (fBlocks e, fSize e) = fake_blocks (derive_file_key (fName f) k) 0 (fBlocks f)) ∧
    (fType f ≠ FileInfoTypeFile → fType e = FileInfoTypeDirectory ∧ fBlocks e = []).
Proof.
  intros Hf Hok. unfold encryptFileInfo. unfold serialisable in Hok.
  destruct (FileInfo_ToWire f false) as [w| |]; [|done..]. cbn [mbind go_bind] in *.
  destruct (marshal_fi w) as [bs|] eqn:Ebs; [|done].
  destruct (encryptName_spec (fName f) k) as (enc & _ & En & _). rewrite En. cbn [mbind go_bind].
  destruct (fake_blocks _ 0 (fBlocks f)) as [blocks offset].
  assert (∀ b : bool, FlagLocal_IsInvalid (if b then FlagLocalRemoteInvalid else 0) = b) as Hinv by by intros [].
  eexists _, w, bs. split; [reflexivity|]. cbn [fName fEncrypted fSequence fDeleted fVersion fType fBlocks fSize].
  unfold IsInvalid at 1. cbn [fLocalFlags]. split_and!; try done; try (by apply Hinv).
  - intros ->. by rewrite Z.eqb_refl.
  - intros Ht. by rewrite (proj2 (Z.eqb_neq _ _) Ht).
Qed.

(** C33.  A complete file record that can be serialised is wrapped into a fake record
    that the dispatcher of the untrusted device accepts if it accepts the real one,
    and whoever knows the key of the folder gets the real record back from any
    record with the same name and payload, with the number that the untrusted
    device gave it. *)
Theorem encryptFileInfo_roundtrip nonce f k :
  length nonce = nonceSize → file_fine f →
  serialisable f = true →
  ∃ e, encryptFileInfo nonce f k = Ok e ∧ fSequence e = fSequence f ∧
    (checkFileInfoConsistency f = None → checkFileInfoConsistency e = None) ∧
    ∀ e', fName e' = fName e → fEncrypted e' = fEncrypted e →
      DecryptFileInfo e' k = Ok (sequence_set (over_wire f) (fSequence e')).
Proof.
  intros Hn Hf Hm. destruct (encryptFileInfo_Ok nonce f k Hf Hm)
    as (e & w & bs & He & Hw & Hbs & Hname & Henc & Hseq & Hdel & Hinv & _ & Hfile & Hother).
  destruct (encryptName_spec (fName f) k) as (enc & _ & En & Hcheck & Hdec & _).
  rewrite En in Hname. apply Ok_inj in Hname. subst enc. exists e. split_and!; [done|done| |].
  - unfold checkFileInfoConsistency. rewrite Hcheck, Hdel, Hinv. destruct (checkFilename (fName f)); [done|].
    destruct (decide (fType f = FileInfoTypeFile)) as [Ht|Ht].
    + destruct (Hfile Ht) as [-> Hb]. rewrite Ht.
      pose proof (length_fake_blocks (derive_file_key (fName f) k) (fBlocks f) 0) as Hl.
      rewrite <- Hb in Hl. cbn in Hl. by rewrite Hl.
    + destruct (Hother Ht) as [-> ->]. cbn. by rewrite !andb_false_r.
  - intros e' E1 E2. unfold DecryptFileInfo. rewrite E1, Hdec. cbn [mbind go_bind].
    rewrite E2, Henc, decrypt_encrypted by done. cbn [mbind go_bind].
    rewrite (unmarshal_marshal_fi _ _ Hbs), FileInfoFromWire_sequence. f_equal. f_equal.
    by destruct (FromWire_ToWire f false w (fine_file _ Hf) Hw).
Qed.

(** ** Blocks and requests *)

(** The blocks follow each other from [offset] on, and all but the last are at
    least as long as the padded ones. *)
Fixpoint blocks_from (offset : Z) (bs : list BlockInfo) : Prop :=
  match bs with
  | [] => True
  | b :: bs => bOffset b = offset ∧ 0 ≤ bSize b ∧ (bs ≠ [] → minPaddedSize ≤ bSize b) ∧
               Forall is_byte (bHash b) ∧ blocks_from (offset + bSize b) bs
  end.

Definition padded_size (b : BlockInfo) : Z := Z.max (bSize b) minPaddedSize.

Lemma fake_block_spec fileKey bs : ∀ offset i j b,
  blocks_from offset bs → 0 ≤ offset → 0 ≤ i →
  (∀ b, b ∈ bs → bOffset b + padded_size b + (i + len bs) * 40 < 9223372036854775808) →
  bs !! j = Some b →
  (fake_blocks fileKey (offset + i * 40) bs).1 !! j =
    Some (MkBlockInfo (encryptBlockHash (bHash b) (bOffset b) fileKey)
            (bOffset b + (i + Z.of_nat j) * 40) (padded_size b + 40)) ∧
  0 ≤ bOffset b ∧ Forall is_byte (bHash b).
Proof.
  induction bs as [|b0 bs IH]; intros offset i j b Hbs Ho Hi Hmax Hj; [done|].
  destruct Hbs as (Eo & Hs & Hpad & Hh & Hbs). cbn [fake_blocks].
  assert ((if bSize b0 <? minPaddedSize then minPaddedSize else bSize b0) + blockOverhead = padded_size b0 + 40) as ->.
  { change blockOverhead with 40. unfold padded_size. destruct (Z.ltb_spec (bSize b0) minPaddedSize); lia. }
  assert (bs ≠ [] → i64 (offset + i * 40 + (padded_size b0 + 40)) = (offset + bSize b0) + (i + 1) * 40) as Hnext.
  { intros Hne. assert (padded_size b0 = bSize b0) as -> by (specialize (Hpad Hne); unfold padded_size; lia).
    specialize (Hmax b0 ltac:(left)). unfold padded_size in Hmax. cbn [length] in Hmax.
    rewrite i64_id; [lia|]. unfold in_i64. lia. }
  destruct j as [|j].
  - injection Hj as <-. destruct (fake_blocks _ _ bs). cbn. rewrite Eo.
    split_and!; [do 2 f_equal; lia|done|done].
  - assert (bs ≠ []) as Hne by by destruct bs. rewrite (Hnext Hne).
    destruct (IH (offset + bSize b0) (i + 1) j b) as (H1 & H2 & H3); try done; try lia.
    { intros b' Hb'. specialize (Hmax b' ltac:(by right)). cbn [length] in Hmax. lia. }
    revert H1. destruct (fake_blocks _ _ bs) as [bl t]. cbn [fst]. intros H1. split_and!; [|done|done].
    transitivity (bl !! j); [done|]. rewrite H1. do 2 f_equal. lia.
Qed.

(** What the translation of a request leaves of the hash. *)
Lemma decrypt_hash fileKey h offset :
  Forall is_byte h →
  match length (encryptBlockHash h offset fileKey) with
  | O => Ok []
  | S _ =>
      match decryptDeterministic (encryptBlockHash h offset fileKey) fileKey (be_encode 8 (u64 offset)) with
      | Ok h => Ok h
      | _ => decryptDeterministic (encryptBlockHash h offset fileKey) fileKey []
      end
  end = Ok h.
Proof.
  intros Hh. unfold encryptBlockHash, encryptDeterministic at 1. rewrite length_siv_seal.
  rewrite Nat.add_comm. unfold decryptDeterministic, encryptDeterministic. cbn [Nat.add].
  by rewrite siv_open_seal.
Qed.

(** C32.  A block on its way through an untrusted device.  The request of the untrusted
    device for the [j]-th block of the fake file reaches the model as one for the
    [j]-th block of the real file, filled up to 1024 bytes, with the hash of the
    block; the answer has the size of the fake block.  A device with the key that
    asks for the real block sends a request for exactly the fake block, and makes of
    that answer the data of the real block. *)
Theorem block_through_untrusted f k enc e j b rid folder ft random nonce data :
  encryptName (fName f) k = Ok enc → fName e = enc →
  (fBlocks e, fSize e) = fake_blocks (derive_file_key (fName f) k) 0 (fBlocks f) →
  blocks_from 0 (fBlocks f) → fBlocks f !! j = Some b →
  (∀ b, b ∈ fBlocks f → bOffset b + padded_size b + len (fBlocks f) * 40 < 9223372036854775808) →
  length nonce = nonceSize → len data = bSize b → minPaddedSize ≤ len random →
  ∃ eb answer,
    fBlocks e !! j = Some eb ∧
    let asked := MkRequest rid folder (fName e) (bOffset eb) (bSize eb) (bHash eb) ft (Z.of_nat j) in
    model_request asked k =
      Ok (MkRequest rid folder (fName f) (bOffset b) (padded_size b) (bHash b) ft (Z.of_nat j)) ∧
    model_answer asked k random nonce data = Ok answer ∧ len answer = bSize eb ∧
    let wanted := MkRequest rid folder (fName f) (bOffset b) (bSize b) (bHash b) ft (Z.of_nat j) in
    connection_request wanted k =
      Ok (MkRequest rid folder (fName e) (bOffset eb) (bSize eb) (bHash eb) false (Z.of_nat j)) ∧
    connection_answer wanted k answer = Ok data.
Proof.
  intros Hname <- Hfake Hbs Hj Hmax Hn Hdata Hrand.
  destruct (encryptName_spec (fName f) k) as (enc & _ & En & _ & Hdec & _).
  rewrite Hname in En. apply Ok_inj in En. subst enc.
  destruct (fake_block_spec (derive_file_key (fName f) k) (fBlocks f) 0 0 j b Hbs) as (Hb & Hoff & Hh);
    [lia|lia|done|done|].
  change (0 + 0 * 40) with 0 in Hb. rewrite <- Hfake in Hb. cbn [fst] in Hb. eexists _, _. split; [exact Hb|].
  assert (j < length (fBlocks f))%nat as Hjl by (by eapply lookup_lt_Some).
  assert (bOffset b + padded_size b + len (fBlocks f) * 40 < 9223372036854775808) as Hb64.
  { apply Hmax. by eapply list_elem_of_lookup_2. }
  assert (0 ≤ bSize b ∧ minPaddedSize = 1024) as [Hsz Hmin] by (split; [lia|done]).
  assert (i64 (Z.of_nat j * blockOverhead) = Z.of_nat j * 40) as Hj40.
  { change blockOverhead with 40. apply i64_id. unfold in_i64, padded_size in *. lia. }
  cbn [bOffset bSize bHash rqName rqOffset rqSize rqHash rqBlockNo]. rewrite Z.add_0_l. split_and!.
  - unfold model_request. cbn [rqName rqOffset rqSize rqHash rqBlockNo rqID rqFolder rqFromTemporary].
    rewrite Hdec. cbn [mbind go_bind]. rewrite Hj40.
    rewrite (i64_id (_ - _)) by (unfold in_i64, padded_size in *; lia).
    rewrite (proj2 (Z.ltb_ge _ minPaddedSize)) by (unfold padded_size; lia).
    replace (bOffset b + Z.of_nat j * 40 - Z.of_nat j * 40) with (bOffset b) by lia.
    rewrite decrypt_hash by done. cbn [mbind go_bind]. do 2 f_equal. change blockOverhead with 40. lia.
  - unfold model_answer. cbn [rqName]. rewrite Hdec. reflexivity.
  - unfold encryptBytes. rewrite length_app, length_aead_seal, Hn. unfold nonceSize, padded_size.
    destruct (Z.ltb_spec (len data) minPaddedSize); [rewrite length_app, length_take|]; lia.
  - unfold connection_request. cbn [rqName rqOffset rqSize rqHash rqBlockNo rqID rqFolder].
    rewrite Hname. cbn [mbind go_bind]. rewrite Hj40, i64_id by (unfold in_i64, padded_size in *; lia).
    do 2 f_equal. change blockOverhead with 40. unfold padded_size.
    destruct (Z.ltb_spec (bSize b) minPaddedSize); lia.
  - unfold connection_answer. cbn [rqName rqSize]. rewrite decrypt_encrypted by done. cbn [mbind go_bind].
    unfold slice_to. rewrite (proj2 (Z.ltb_ge (bSize b) 0)) by lia. cbn [orb]. rewrite <- Hdata, Nat2Z.id.
    destruct (Z.ltb_spec (len data) minPaddedSize).
    + rewrite length_app. rewrite (proj2 (Z.ltb_ge _ _)) by lia. by rewrite take_app_length.
    + rewrite (proj2 (Z.ltb_ge _ _)) by lia. by rewrite take_ge.
Qed.

(** The answers a request can have: too few bytes and forged ones are errors,
    authentic data is cut to the size that was asked for; but authentic data that is
    shorter, such as that of a smaller block of the same file, which the untrusted
    device has, makes the device with the key panic. *)
Theorem connection_answer_cases req k bs :
  0 ≤ rqSize req →
  (len bs < 40 → ∃ e, connection_answer req k bs = Err e) ∧
  (∀ d, DecryptBytes bs (derive_file_key (rqName req) k) = Ok d →
     if len d <? rqSize req then ∃ p, connection_answer req k bs = Panic p
     else connection_answer req k bs = Ok (take (Z.to_nat (rqSize req)) d)) ∧
  (∀ nonce d, length nonce = nonceSize → len d < rqSize req →
     ∃ p, connection_answer req k (encryptBytes nonce d (derive_file_key (rqName req) k)) = Panic p).
Proof.
  intros Hs.
  assert (∀ bs d, DecryptBytes bs (derive_file_key (rqName req) k) = Ok d →
    if len d <? rqSize req then ∃ p, connection_answer req k bs = Panic p
    else connection_answer req k bs = Ok (take (Z.to_nat (rqSize req)) d)) as Hd.
  { intros bs' d E. unfold connection_answer, slice_to. rewrite E. cbn [mbind go_bind].
    rewrite (proj2 (Z.ltb_ge (rqSize req) 0)) by lia. cbn [orb]. destruct (_ <? _); eauto. }
  split_and!; [|apply Hd|].
  - intros Hl. unfold connection_answer, DecryptBytes. change blockOverhead with 40.
    rewrite (proj2 (Z.ltb_lt _ _)) by lia. cbn [mbind go_bind]. by eexists.
  - intros nonce d Hn Hl. pose proof (Hd _ d (decrypt_encrypted nonce d _ Hn)) as H.
    by rewrite (proj2 (Z.ltb_lt _ _)) in H by lia.
Qed.
End roundtrips.

(** ** The fake version *)

Fixpoint vector_sum (cs : list Counter) : Z :=
  match cs with [] => 0 | c :: cs => Value c + vector_sum cs end.

Lemma vector_sum_nonneg cs : Forall (λ c, in_u64 (ID c) ∧ in_u64 (Value c)) cs → 0 ≤ vector_sum cs.
Proof. induction 1 as [|c cs [_ Hc] _ IH]; cbn; [lia|]. unfold in_u64 in Hc. lia. Qed.

(** Without overflow the value of the fake counter is the sum. *)
Lemma fake_version_sum v :
  vector_wf v → vector_sum (Counters v) < 18446744073709551616 →
  fake_version v = MkVector [MkCounter 1 (vector_sum (Counters v))].
Proof.
  intros [_ Hr] Hs. unfold fake_version. do 2 f_equal. f_equal. revert Hs.
  assert (∀ acc, 0 ≤ acc → acc + vector_sum (Counters v) < 18446744073709551616 →
    fold_left (λ acc c, u64 (acc + Value c)) (Counters v) acc = acc + vector_sum (Counters v)) as H.
  { induction Hr as [|c cs [_ Hc] Hcs IH]; intros acc Ha Hs; cbn [fold_left vector_sum] in *; [lia|].
    pose proof (vector_sum_nonneg cs Hcs). unfold in_u64 in Hc.
    rewrite u64_id by (unfold in_u64; lia). rewrite IH; lia. }
  intros Hs. by rewrite H by lia.
Qed.

(** The sum over any devices that include those of the vector. *)
Lemma sum_over_ids cs ids :
  NoDup ids → StronglySorted (λ c d, ID c < ID d) cs → (∀ c, c ∈ cs → ID c ∈ ids) →
  vector_sum cs = fold_right (λ id acc, counter_of cs id + acc) 0 ids.
Proof.
  intros Hids Hs. induction Hs as [|c cs Hs IH Hc]; intros Hin.
  { clear. cbn. induction ids as [|id ids IH]; cbn; [done|lia]. }
  cbn [vector_sum]. rewrite IH by (intros d Hd; apply Hin; by right).
  assert (counter_of cs (ID c) = 0) as Hz.
  { clear -Hc. induction Hc as [|d cs Hd _ IH]; [done|]. cbn. by rewrite (proj2 (Z.eqb_neq _ _)) by lia. }
  assert (∀ l, NoDup l →
    fold_right (λ id acc, counter_of (c :: cs) id + acc) 0 l =
    (if decide (ID c ∈ l) then Value c else 0) + fold_right (λ id acc, counter_of cs id + acc) 0 l) as H.
  { induction 1 as [|id l Hid _ IHl]; [done|]. cbn [fold_right counter_of]. cbn [counter_of] in IHl. rewrite IHl.
    destruct (Z.eqb_spec (ID c) id) as [<-|Hne].
    - rewrite decide_False by done. rewrite decide_True by left. rewrite Hz. lia.
    - destruct (decide (ID c ∈ l)); [rewrite decide_True by by right|rewrite decide_False by set_solver]; lia. }
  rewrite (H ids Hids), decide_True by (apply Hin; left). done.
Qed.

Lemma vector_sum_monotone v w :
  vector_wf v → vector_wf w → below w v →
  vector_sum (Counters w) ≤ vector_sum (Counters v) ∧
  (¬ below v w → vector_sum (Counters w) < vector_sum (Counters v)).
Proof.
  intros [Hv _] [Hw _] Hle. set (ids := remove_dups (map ID (Counters v ++ Counters w))).
  assert (NoDup ids) as Hnd by apply NoDup_remove_dups.
  assert (∀ c, c ∈ Counters v ++ Counters w → ID c ∈ ids) as Hin.
  { intros c Hc. apply elem_of_remove_dups. by apply (list_elem_of_fmap_2 ID). }
  rewrite (sum_over_ids (Counters v) ids), (sum_over_ids (Counters w) ids);
    try done; try (intros c Hc; apply Hin, elem_of_app; auto).
  unfold below, Counter_ in Hle.
  assert (∀ l, fold_right (λ id acc, counter_of (Counters w) id + acc) 0 l ≤
               fold_right (λ id acc, counter_of (Counters v) id + acc) 0 l) as Hall.
  { induction l as [|id l IH]; cbn; [done|]. specialize (Hle id). lia. }
  split; [apply Hall|]. intros Hnot. apply Z.le_neq. split; [apply Hall|]. intros E. apply Hnot.
  assert (∀ l, fold_right (λ id acc, counter_of (Counters w) id + acc) 0 l =
               fold_right (λ id acc, counter_of (Counters v) id + acc) 0 l →
          ∀ id, id ∈ l → counter_of (Counters v) id = counter_of (Counters w) id) as Heq.
  { induction l as [|id l IH]; cbn [fold_right]; [intros _ ? ?%not_elem_of_nil; done|]. intros El id' Hid'.
    pose proof (Hle id). pose proof (Hall l). apply elem_of_cons in Hid' as [->|Hid']; [lia|].
    apply IH; [lia|done]. }
  intros id. unfold Counter_. destruct (decide (id ∈ ids)) as [Hid|Hid]; [by rewrite (Heq ids E id Hid)|].
  assert (∀ cs, (∀ c, c ∈ cs → ID c ∈ ids) → counter_of cs id = 0) as Hz.
  { induction cs as [|c cs IH]; intros Hcs; [done|]. cbn.
    rewrite (proj2 (Z.eqb_neq _ _)) by (intros <-; apply Hid, Hcs; left). apply IH. intros d Hd. apply Hcs. by right. }
  rewrite !Hz; [done|..]; intros c Hc; apply Hin, elem_of_app; auto.
Qed.

(** The version that stands for a newer version of a file is newer: as long as
    the counters of the vectors do not add up to 2^64, a vector that is greater than
    another has a fake vector greater than that of the other, and equal vectors have
    equal ones, so that an untrusted device keeps what a trusted one would keep. *)
Theorem fake_version_monotone v w :
  vector_wf v → vector_wf w →
  vector_sum (Counters v) < 18446744073709551616 → vector_sum (Counters w) < 18446744073709551616 →
  (Compare v w = Greater → Compare (fake_version v) (fake_version w) = Greater) ∧
  (Compare v w = Equal → fake_version v = fake_version w).
Proof.
  intros Hv Hw Sv Sw. rewrite !fake_version_sum by done.
  destruct (compare_cases v w Hv Hw) as (Heq & Hgt & _).
  pose proof (vector_sum_nonneg _ (proj2 Hv)) as Nv. pose proof (vector_sum_nonneg _ (proj2 Hw)) as Nw.
  assert (∀ z, 0 ≤ z < 18446744073709551616 → vector_wf (MkVector [MkCounter 1 z])) as Hwf.
  { intros z Hz. split; repeat constructor; unfold in_u64; cbn; lia. }
  split.
  - intros [Hb Hn]%Hgt. destruct (vector_sum_monotone v w Hv Hw Hb) as [_ Hlt]. specialize (Hlt Hn).
    apply (compare_cases _ _ (Hwf _ ltac:(split; [exact Nv|exact Sv])) (Hwf _ ltac:(split; [exact Nw|exact Sw]))).
    split.
    + intros id. unfold Counter_. cbn [Counters counter_of ID Value]. destruct (1 =? id); lia.
    + intros H. specialize (H 1). unfold Counter_ in H. cbn [Counters counter_of ID Value] in H.
      rewrite Z.eqb_refl in H. lia.
  - intros [H1 H2]%Heq. destruct (vector_sum_monotone v w Hv Hw H2) as [Hle _].
    destruct (vector_sum_monotone w v Hw Hv H1) as [Hge _]. do 2 f_equal. f_equal. lia.
Qed.

Lemma fake_version_monotone_witness :
  let v := MkVector [MkCounter 1 5; MkCounter 7 3] in
  Compare v v12 = Greater ∧ Compare (fake_version v) (fake_version v12) = Greater.
Proof.
  intros v. split; [vm_compute; reflexivity|].
  apply (fake_version_monotone v v12).
  - split; repeat constructor; unfold in_u64; cbn; lia.
  - apply v12_wf.
  - cbn. lia.
  - cbn. lia.
  - vm_compute. reflexivity.
Defined.

(** ** Examples *)

(** An encoding that knows records of plain files and directories without blocks. *)
Definition sample_fi_codec : FileCodec := {|
  marshal_fi w :=
    match w with
    | MkBepFileInfo n size 0 0 (Some (MkBepVector [])) seq [] [] [] [] [] ty 0 0 bs
        (Some (MkBepPlatformData None None None None None None)) 0 0 false false false =>
        Some (size :: seq :: ty :: bs :: bytes_of n)
    | _ => None
    end;
  unmarshal_fi bs :=
    match bs with
    | size :: seq :: ty :: bs :: n =>
        Some (MkBepFileInfo (string_of n) size 0 0 (Some (MkBepVector [])) seq [] [] [] [] [] ty 0 0 bs
                (Some (MkBepPlatformData None None None None None None)) 0 0 false false false)
    | _ => None
    end;
|}.

#[export] Instance sample_fi_laws : FileCodecLaws sample_fi_codec.
Proof.
  split. intros w bs. cbn [marshal_fi sample_fi_codec].
  repeat match goal with |- context [match ?x with _ => _ end] => is_var x; destruct x; try done end.
  intros E. apply (inj Some) in E. rewrite <- E. cbn [unmarshal_fi sample_fi_codec]. by rewrite string_of_bytes.
Qed.

Definition sample_dir : FileInfo :=
  MkFileInfo "a/dir" 0 0 0 (MkVector []) 12 [] [] [] [] [] (MkPlatformData None None None None None None)
    FileInfoTypeDirectory 0 0 0 0 0 false false false.

Lemma encryptFileInfo_roundtrip_witness :
  ∃ e, encryptFileInfo (C := sample_crypto) (F := sample_fi_codec) (replicate 24 9) sample_dir [1; 2] = Ok e ∧
    checkFileInfoConsistency e = None ∧
    DecryptFileInfo (C := sample_crypto) (F := sample_fi_codec) (sequence_set e 40) [1; 2] =
      Ok (sequence_set (over_wire sample_dir) 40).
Proof.
  destruct (encryptFileInfo_roundtrip (C := sample_crypto) (F := sample_fi_codec) (replicate 24 9) sample_dir [1; 2])
    as (e & He & _ & Hc & Hd).
  - reflexivity.
  - split; [split; constructor|split; [constructor|split; [unfold in_i32; cbn; lia|exact I]]|reflexivity].
  - vm_compute. reflexivity.
  - exists e. split; [exact He|]. split; [apply Hc; vm_compute; reflexivity|].
    exact (Hd (sequence_set e 40) eq_refl eq_refl).
Defined.

Definition sample_blocks : FileInfo :=
  MkFileInfo "a/b" 131572 0 0 (MkVector []) 12 [MkBlockInfo [1; 2] 0 131072; MkBlockInfo [3] 131072 500] [] [] [] []
    (MkPlatformData None None None None None None) FileInfoTypeFile 0 0 131072 0 0 false false false.

Lemma block_through_untrusted_witness :
  let k := [1; 2] in
  let name := match encryptName (C := sample_crypto) "a/b" k with Ok n => n | _ => "" end in
  let fake := fake_blocks (C := sample_crypto) (derive_file_key (C := sample_crypto) "a/b" k) 0 (fBlocks sample_blocks) in
  let e := MkFileInfo name fake.2 0 0 (MkVector []) 12 fake.1 [] [] [] [] (MkPlatformData None None None None None None)
             FileInfoTypeFile 0 0 131072 0 0 false false false in
  ∃ eb answer, fBlocks e !! 1%nat = Some eb ∧ bOffset eb = 131112 ∧ Z.of_nat (length answer) = bSize eb ∧
    connection_answer (C := sample_crypto) (MkRequest 3 "f" "a/b" 131072 500 [3] false 1) k answer = Ok (replicate 500 77).
Proof.
  intros k name fake e.
  destruct (block_through_untrusted (C := sample_crypto) sample_blocks k name e 1 (MkBlockInfo [3] 131072 500) 3 "f"
    false (replicate 1024 5) (replicate 24 9) (replicate 500 77)) as (eb & answer & H1 & H2).
  - vm_compute. reflexivity.
  - reflexivity.
  - reflexivity.
  - cbn. unfold minPaddedSize, is_byte. repeat split; try done; try lia; repeat constructor; lia.
  - reflexivity.
  - intros b Hb. cbn in Hb. apply elem_of_cons in Hb as [->|Hb]; [vm_compute; reflexivity|].
    apply elem_of_cons in Hb as [->|Hb]; [vm_compute; reflexivity|]. by apply not_elem_of_nil in Hb.
  - reflexivity.
  - reflexivity.
  - vm_compute. discriminate.
  - destruct H2 as (_ & _ & H3 & _ & H4). exists eb, answer. split; [exact H1|]. split; [|split; [exact H3|exact H4]].
    vm_compute in H1. injection H1 as <-. reflexivity.
Defined.

Lemma connection_answer_cases_witness :
  let req := MkRequest 3 "f" "a/b" 0 131072 [3] false 0 in
  ∃ p, connection_answer (C := sample_crypto) req [1; 2]
    (encryptBytes (C := sample_crypto) (replicate 24 9) (replicate 1024 7) (derive_file_key (C := sample_crypto) "a/b" [1; 2])) = Panic p.
Proof.
  intros req. refine (proj2 (proj2 (connection_answer_cases (C := sample_crypto) req [1; 2] [] _)) _ _ _ _).
  - cbn. lia.
  - reflexivity.
  - vm_compute. reflexivity.
Defined.
