(* ===== verification/Backup.v ===== *)
(** * The Dropbox backup of a project ([src/cmd/vidsync/backup.go])

    The owner's side mirrors the files of a folder into Dropbox and registers
    them with the cloud service; the manifest is the cache of what is registered.
    The teammate's side downloads registered files into its copy of the folder.
    Network, database and file contents are parameters; the bookkeeping is
    translated in full. *)
From S2P Require Import Prelude GoLib FileInfo Paths.
From Stdlib Require Import Ascii.
From Stdlib Require String.

Local Open Scope Z_scope.

(** ** The manager's state *)

Record backupTarget := MkTarget {
  FolderID : string; FolderPath : string; AppFolderPath : string; DeviceID : string }.

(** folder → path → content key *)
Abbreviation manifest := (gmap string string).

Record BackupStatusInfo := MkStatus {
  Enabled : bool; Uploading : bool; LastBackupUnixMs : Z; LastError : string; FileCount : Z }.
Definition no_status : BackupStatusInfo := MkStatus false false 0 "" 0.

Record backupPersisted := MkPersisted {
  Targets : option (gmap string backupTarget); Manifests : option (gmap string manifest) }.

(** [m_trigger] is the channel of capacity 8, [m_secret] what was stored last. *)
Record backupManager := MkManager {
  m_targets : gmap string backupTarget;
  m_manifests : gmap string manifest;
  m_status : gmap string BackupStatusInfo;
  m_trigger : list string;
  m_secret : option backupPersisted;
}.

Definition set_status_map (m : backupManager) (s : gmap string BackupStatusInfo) : backupManager :=
  MkManager (m_targets m) (m_manifests m) s (m_trigger m) (m_secret m).

(** ** Bookkeeping; each function is one critical section *)

Definition persistLocked (m : backupManager) : backupManager :=
  MkManager (m_targets m) (m_manifests m) (m_status m) (m_trigger m)
    (Some (MkPersisted (Some (m_targets m)) (Some (m_manifests m)))).

(** [load] on an empty manager; [None] when the secret cannot be read. *)
Definition load (m : backupManager) : backupManager :=
  match m_secret m with
  | None => m
  | Some p =>
      let targets := default (m_targets m) (Targets p) in
      let manifests := default (m_manifests m) (Manifests p) in
      MkManager targets manifests
        (map_imap (λ id _, Some (MkStatus true false 0 ""
                     (Z.of_nat (size (default ∅ (manifests !! id)))))) targets ∪ m_status m)
        (m_trigger m) (m_secret m)
  end.

Definition newBackupManager (secret : option backupPersisted) : backupManager :=
  load (MkManager ∅ ∅ ∅ [] secret).

Definition kick (m : backupManager) (folderID : string) : backupManager :=
  if (length (m_trigger m) <? 8)%nat then
    MkManager (m_targets m) (m_manifests m) (m_status m) (m_trigger m ++ [folderID]) (m_secret m)
  else m.

Definition targetFor (m : backupManager) (folderID : string) : option backupTarget :=
  m_targets m !! folderID.

Definition set_enabled (s : BackupStatusInfo) : BackupStatusInfo :=
  MkStatus true (Uploading s) (LastBackupUnixMs s) (LastError s) (FileCount s).

Definition addTarget (m : backupManager) (t : backupTarget) : backupManager :=
  persistLocked
    (MkManager (<[FolderID t := t]> (m_targets m)) (m_manifests m)
       (<[FolderID t := set_enabled (default no_status (m_status m !! FolderID t))]> (m_status m))
       (m_trigger m) (m_secret m)).

Definition removeTarget (m : backupManager) (folderID : string) : backupManager :=
  persistLocked
    (MkManager (delete folderID (m_targets m)) (delete folderID (m_manifests m))
       (delete folderID (m_status m)) (m_trigger m) (m_secret m)).

Definition statusFor (m : backupManager) (folderID : string) : BackupStatusInfo :=
  default no_status (m_status m !! folderID).

Definition setStatus (m : backupManager) (folderID : string)
    (mutate : BackupStatusInfo → BackupStatusInfo) : backupManager :=
  set_status_map m (<[folderID := mutate (statusFor m folderID)]> (m_status m)).

(** ** One pass over a folder *)

Record backendMaterial := MkMaterial {
  mPath : string; mContentKey : string; mSizeBytes : Z; mDropboxPath : string;
  mDropboxRev : string; mDeleted : bool }.
Definition tombstone (name : string) : backendMaterial := MkMaterial name "" 0 "" "" true.

Definition backupSkipName (name : string) : bool :=
  if bool_decide (name = ".stfolder"%string) || bool_decide (name = ".vidsync"%string) then true
  else if HasPrefix name ".stversions/" || Contains name "/.stversions/" then true
  else
    let base := Base (s2l name) in
    if has_prefix base (s2l ".syncthing.") && has_suffix base (s2l ".tmp") then true
    else false.

Definition contentKey (fi : FileInfo) : string := l2s (hex_encode (fBlocksHash fi)).

(** Files that are looked at: not those skipped, nor deleted ones. *)
Definition eligible (fi : FileInfo) : bool :=
  negb (IsDirectory fi || IsSymlink fi || IsInvalid fi || backupSkipName (fName fi)) &&
  negb (IsDeleted fi).

(** What the pass has gathered so far. *)
Record pass := MkPass {
  newManifest : manifest; present : gset string; deltas : list backendMaterial;
  firstErr : string }.

(** One upload: the chunks the file is read in, with the error that ends it. *)
Inductive read := RFull (n : Z) | REOF (n : Z) | RErr (n : Z) (e : string).

Section uploading.
(** [ctx.Err], per chunk, and [dropboxSessionAppend]. *)
Variable cancelled : nat → bool.
Variable append : Z → Z → option string.

(** The loop of [dropboxBackupUpload]: the offset to commit, or the error. *)
Fixpoint upload_loop (i : nat) (reads : list read) (offset : Z) : string + Z :=
match reads with
| [] => inr offset
| r :: reads =>
    if cancelled i then inl "context canceled"%string
    else
      let n := match r with RFull n | REOF n | RErr n _ => n end in
      match (if 0 <? n then append offset n else None) with
      | Some e => inl e
      | None =>
          let offset := if 0 <? n then offset + n else offset in
          match r with
          | RFull _ => upload_loop (i + 1) reads offset
          | REOF _ => inr offset
          | RErr _ e => inl e
          end
      end
end.
End uploading.

Section one_pass.
Variable tgt : backupTarget.
(** [dropboxBackupUpload] for a local file and a path in Dropbox: the error or the
  revision. *)
Variable upload : path → path → FileInfo → string + string.
(** What the manager knew when the pass began. *)
Variable old : manifest.

Definition dropbox_path (name : string) : path := Join [s2l (AppFolderPath tgt); s2l name].
Definition local_path (name : string) : path := Join [s2l (FolderPath tgt); s2l name].

(** The body of the loop over the files of the index. *)
Definition backup_file (p : pass) (fi : FileInfo) : pass :=
let name := fName fi in
if negb (eligible fi) then p
else
  let present := {[name]} ∪ present p in
  let ck := contentKey fi in
  if bool_decide (default "" (old !! name) = ck)%string then
    MkPass (<[name := ck]> (newManifest p)) present (deltas p) (firstErr p)
  else
    match upload (local_path name) (dropbox_path name) fi with
    | inl uerr =>
        MkPass (match old !! name with
                | Some prev => <[name := prev]> (newManifest p)
                | None => newManifest p
                end)
          present (deltas p) (if bool_decide (firstErr p = "")%string then uerr else firstErr p)
    | inr rev =>
        MkPass (<[name := ck]> (newManifest p)) present
          (deltas p ++ [MkMaterial name ck (fSize fi) (l2s (dropbox_path name)) rev false])
          (firstErr p)
    end.

Definition pass_init : pass := MkPass ∅ ∅ [] "".

(** The files the index yields and the error that may end the iteration; [None]
  when the context is cancelled before the [k]-th file. *)
Definition backup_files (files : list FileInfo) (iterErr : option string) (cancel : option nat)
: option pass :=
match cancel with
| Some k => if (k <? length files)%nat then None else
    Some (let p := fold_left backup_file files pass_init in
          match iterErr with Some e => MkPass (newManifest p) (present p) (deltas p) e | None => p end)
| None =>
    Some (let p := fold_left backup_file files pass_init in
          match iterErr with Some e => MkPass (newManifest p) (present p) (deltas p) e | None => p end)
end.

(** Tombstones for the files that are gone, in the order [range] visits [old]. *)
Definition tombstones (p : pass) (order : list string) : list backendMaterial :=
map tombstone (filter (λ name, name ∉ present p) order).
End one_pass.

Definition finish (m : backupManager) (folderID errMsg : string) (mf : option manifest)
    (changed : bool) (now : Z) : backupManager :=
  setStatus m folderID (λ s,
    MkStatus (Enabled s) false
      (if changed && bool_decide (errMsg = "")%string then now else LastBackupUnixMs s) errMsg
      (match mf with Some mf => Z.of_nat (size mf) | None => FileCount s end)).

Definition store_manifest (m : backupManager) (folderID : string) (mf : manifest) : backupManager :=
  MkManager (m_targets m) (<[folderID := mf]> (m_manifests m)) (m_status m) (m_trigger m)
            (m_secret m).

(** The end of [backupTarget]: [putErr] is what [backendPutMaterials] returns, if it
    is called, and [now] the time. *)
Definition conclude (m : backupManager) (folderID : string) (p : pass) (gone : list backendMaterial)
    (putErr : option string) (now : Z) : backupManager :=
  let ds := deltas p ++ gone in
  if (0 <? length ds)%nat then
    match putErr with
    | Some e => finish m folderID ("manifest sync: " +:+ e) None false now
    | None =>
        let m := persistLocked (store_manifest m folderID (newManifest p)) in
        finish m folderID (firstErr p) (Some (newManifest p)) true now
    end
  else
    let m := store_manifest m folderID (newManifest p) in
    finish m folderID (firstErr p) (Some (newManifest p)) false now.

(** [backupTarget] up to the iteration: the status is set, the preconditions are
    checked and the old manifest is read. *)
Definition begin_pass (m : backupManager) (folderID : string) (daemon : bool)
    (tokenErr : option string) (now : Z) : backupManager * option manifest :=
  let m := setStatus m folderID (λ s,
    MkStatus (Enabled s) true (LastBackupUnixMs s) "" (FileCount s)) in
  if negb daemon then (finish m folderID "daemon not ready" None false now, None)
  else
    match tokenErr with
    | Some e => (finish m folderID ("Dropbox auth: " +:+ e) None false now, None)
    | None => (m, Some (default ∅ (m_manifests m !! folderID)))
    end.

(** A whole pass that nothing else interrupts. *)
Definition run_backupTarget (m : backupManager) (tgt : backupTarget) (daemon : bool)
    (tokenErr : option string) (upload : path → path → FileInfo → string + string)
    (files : list FileInfo) (iterErr : option string) (cancel : option nat)
    (order : manifest → list string) (putErr : option string) (now : Z) : backupManager :=
  let folderID := FolderID tgt in
  match begin_pass m folderID daemon tokenErr now with
  | (m, None) => m
  | (m, Some old) =>
      match backup_files tgt upload old files iterErr cancel with
      | None => finish m folderID "canceled" None false now
      | Some p => conclude m folderID p (tombstones p (order old)) putErr now
      end
  end.

(** ** The teammate's side *)

Record backendMaterialOut := MkOut {
  oPath : string; oContentKey : string; oSizeBytes : Z; oDeleted : bool }.

Record BackupPullResult := MkResult {
  Downloaded : Z; Skipped : Z; Failed : Z; Bytes : Z }.

(** Files on disk by absolute path. *)
Abbreviation files := (gmap path (list Z)).

(** What [downloadTo] does: it fails before creating the destination, fails with
    a part of the content written, or succeeds. *)
Inductive download := DlNone (e : string) | DlPart (part : list Z) (e : string) | DlOk (content : list Z).

Section pulling.
(** [os.MkdirAll], [os.Rename], the download of a link and [scanner.HashFile]. *)
Variable mkdirAll : path → option string.
Variable rename : path → path → option string.
Variable downloadTo : string → download.
Variable HashFile : Z → list Z → string + list BlockInfo.
Variable sha256 : list Z → list Z.
Variable IsWindows : bool.

(** The verification of the downloaded bytes.  The file system it goes through
  refuses paths that leave the folder. *)
Definition verify (folderPath tmpRel : path) (m : backendMaterialOut) (content : list Z)
: option string :=
if bool_decide (oContentKey m = "")%string then None
else
  match rooted tmpRel folderPath with
  | Ok _ =>
      match HashFile (BlockSize (Z.of_nat (length content))) content with
      | inl e => Some ("verify hash: " +:+ e)
      | inr blocks =>
          if bool_decide (l2s (hex_encode (BlocksHash sha256 blocks)) = oContentKey m)
          then None else Some "content hash mismatch after download"%string
      end
  | Err e => Some ("verify hash: " +:+ e)
  | Panic e => Some e
  end.

Definition pullOneMaterial (fs : files) (folderPath : path) (m : backendMaterialOut) (link : string)
: files * (string + Z) :=
let relOS := s2l (oPath m) in
let tmpRel := TempName sha256 IsWindows relOS in
let finalAbs := Join [folderPath; relOS] in
let tmpAbs := Join [folderPath; tmpRel] in
match mkdirAll (Dir finalAbs) with
| Some e => (fs, inl e)
| None =>
    match downloadTo link with
    | DlNone e => (delete tmpAbs fs, inl e)
    | DlPart part e => (delete tmpAbs (<[tmpAbs := part]> fs), inl e)
    | DlOk content =>
        let fs := <[tmpAbs := content]> fs in
        let n := Z.of_nat (length content) in
        if (0 <? oSizeBytes m) && negb (n =? oSizeBytes m)
        then (delete tmpAbs fs, inl "size mismatch"%string)
        else
          match verify folderPath tmpRel m content with
          | Some e => (delete tmpAbs fs, inl e)
          | None =>
              match rename tmpAbs finalAbs with
              | Some e => (delete tmpAbs fs, inl e)
              | None => (<[finalAbs := content]> (delete tmpAbs fs), inr n)
              end
          end
    end
end.

(** The content keys of the local files.  An iteration error ends the loop. *)
Definition local_keys (index : list FileInfo) : gmap string string :=
fold_left (λ l fi,
  if IsDeleted fi || IsDirectory fi || IsSymlink fi then l
  else <[fName fi := contentKey fi]> l) index ∅.

(** [backendMaterialLink] *)
Variable materialLink : string → option string.

Fixpoint pull_loop (fs : files) (folderPath : path) (local : gmap string string)
  (mats : list backendMaterialOut) (res : BackupPullResult) : files * BackupPullResult :=
match mats with
| [] => (fs, res)
| m :: mats =>
    if oDeleted m || bool_decide (oPath m = "")%string then pull_loop fs folderPath local mats res
    else if bool_decide (default "" (local !! oPath m) = oContentKey m)%string &&
            negb (bool_decide (oContentKey m = "")%string)
    then pull_loop fs folderPath local mats
           (MkResult (Downloaded res) (Skipped res + 1) (Failed res) (Bytes res))
    else
      let failed := MkResult (Downloaded res) (Skipped res) (Failed res + 1) (Bytes res) in
      match materialLink (oPath m) with
      | None => pull_loop fs folderPath local mats failed
      | Some link =>
          match pullOneMaterial fs folderPath m link with
          | (fs, inl _) => pull_loop fs folderPath local mats failed
          | (fs, inr n) =>
              pull_loop fs folderPath local mats
                (MkResult (Downloaded res + 1) (Skipped res) (Failed res) (Bytes res + n))
          end
      end
end.

Definition BackupPull (fs : files) (folderPath : path) (daemon : bool)
  (listed : string + list backendMaterialOut) (index : list FileInfo)
: files * (string + BackupPullResult) :=
if negb daemon then (fs, inl "daemon not ready"%string)
else
  match listed with
  | inl e => (fs, inl ("fetch manifest: " +:+ e)%string)
  | inr mats =>
      let '(fs, res) := pull_loop fs folderPath (local_keys index) mats (MkResult 0 0 0 0) in
      (fs, inr res)
  end.
End pulling.

(** ** The manifest stays in step with what is registered *)

(** What the cloud service makes of a delta. *)
Definition apply_delta (reg : manifest) (d : backendMaterial) : manifest :=
  if mDeleted d then delete (mPath d) reg else <[mPath d := mContentKey d]> reg.
Definition apply_deltas (reg : manifest) (ds : list backendMaterial) : manifest :=
  fold_left apply_delta ds reg.

Definition names (files : list FileInfo) : list string := map fName (filter (λ fi, eligible fi = true) files).

Section in_step.
Context (tgt : backupTarget) (upload : path → path → FileInfo → string + string) (old : manifest).

(** The registered keys agree with the new manifest where files were seen, and
  with the old one elsewhere. *)
Definition in_step (p : pass) : Prop :=
(∀ n, apply_deltas old (deltas p) !! n =
      if decide (n ∈ present p) then newManifest p !! n else old !! n) ∧
∀ n, n ∉ present p → newManifest p !! n = None.

Lemma in_step_init : in_step pass_init.
Proof. split; [|done]. intros n. by rewrite decide_False by set_solver. Qed.

Lemma backup_file_step p fi :
in_step p → (eligible fi = true → (fName fi ∉ present p) ∧ contentKey fi ≠ ""%string) →
in_step (backup_file tgt upload old p fi) ∧
present (backup_file tgt upload old p fi) =
  (if eligible fi then {[fName fi]} ∪ present p else present p) ∧
(∀ n, n ≠ fName fi ∨ eligible fi = false →
      newManifest (backup_file tgt upload old p fi) !! n = newManifest p !! n) ∧
(eligible fi = true →
 default "" (old !! fName fi) = contentKey fi ∨
 is_Some (match upload (local_path tgt (fName fi)) (dropbox_path tgt (fName fi)) fi with
          | inr r => Some r | inl _ => None end) →
 newManifest (backup_file tgt upload old p fi) !! fName fi = Some (contentKey fi)).
Proof.
intros [Hreg Hnone] Hfi. unfold backup_file. destruct (eligible fi) eqn:Ee; simpl.
2: { split_and!; by try done. }
destruct (Hfi eq_refl) as [Hnew Hck]. set (name := fName fi) in *. set (ck := contentKey fi) in *.
assert (old !! name = apply_deltas old (deltas p) !! name) as Hold by by rewrite Hreg, decide_False.
case_bool_decide as Hsame; [|destruct (upload _ _ _) as [uerr|rev] eqn:Eu];
  cbn [present newManifest deltas]; split_and!; try done.
- split; cbn [present newManifest deltas].
  + intros n. destruct (decide (n = name)) as [->|Hne].
    * rewrite decide_True by set_solver. rewrite lookup_insert_eq, <- Hold.
      destruct (old !! name) as [k|]; simpl in Hsame; congruence.
    * rewrite lookup_insert_ne, Hreg by done. repeat case_decide; set_solver.
  + intros n Hn. rewrite lookup_insert_ne by set_solver. apply Hnone. set_solver.
- intros n [Hn|]; [|done]. by rewrite lookup_insert_ne.
- intros _ _. by rewrite lookup_insert_eq.
- split; cbn [present newManifest deltas].
  + intros n. destruct (decide (n = name)) as [->|Hne].
    * rewrite decide_True by set_solver. rewrite <- Hold.
      destruct (old !! name) as [k|]; [by rewrite lookup_insert_eq|]. symmetry. by apply Hnone.
    * rewrite Hreg. destruct (old !! name); rewrite ?lookup_insert_ne by done;
        repeat case_decide; set_solver.
  + intros n Hn. destruct (old !! name); rewrite ?lookup_insert_ne by set_solver;
      apply Hnone; set_solver.
- intros n [Hn|]; [|done]. destruct (old !! name); by rewrite ?lookup_insert_ne.
- intros _ [|[? ?]]; done.
- split; cbn [present newManifest deltas].
  + intros n. unfold apply_deltas. rewrite fold_left_app. simpl. unfold apply_delta at 1. simpl.
    fold (apply_deltas old (deltas p)). destruct (decide (n = name)) as [->|Hne].
    * rewrite decide_True by set_solver. by rewrite !lookup_insert_eq.
    * rewrite !lookup_insert_ne, Hreg by done. repeat case_decide; set_solver.
  + intros n Hn. rewrite lookup_insert_ne by set_solver. apply Hnone. set_solver.
- intros n [Hn|]; [|done]. by rewrite lookup_insert_ne.
- intros _ _. by rewrite lookup_insert_eq.
Qed.

(** An upload that works, or is not needed. *)
Definition backed_up (fi : FileInfo) : Prop :=
  default ""%string (old !! fName fi) = contentKey fi ∨
  is_Some (match upload (local_path tgt (fName fi)) (dropbox_path tgt (fName fi)) fi with
           | inr r => Some r | inl _ => None end).

Lemma backup_files_step fs p :
  in_step p → NoDup (names fs) → (∀ n, n ∈ names fs → n ∉ present p) →
  (∀ fi, fi ∈ fs → eligible fi = true → contentKey fi ≠ ""%string) →
  let p' := fold_left (backup_file tgt upload old) fs p in
  in_step p' ∧ (∀ n, n ∈ present p' ↔ n ∈ present p ∨ n ∈ names fs) ∧
  (∀ n, n ∉ names fs → newManifest p' !! n = newManifest p !! n) ∧
  (∀ fi, fi ∈ fs → eligible fi = true → backed_up fi →
         newManifest p' !! fName fi = Some (contentKey fi)).
Proof.
  revert p. induction fs as [|fi fs IH]; intros p Hp Hnd Hdisj Hck; cbn [fold_left].
  { split_and!; try done; set_solver. }
  assert (names (fi :: fs) = if eligible fi then fName fi :: names fs else names fs) as En.
  { unfold names. rewrite filter_cons. by destruct (eligible fi). }
  rewrite En in Hnd, Hdisj |- *.
  destruct (backup_file_step p fi Hp) as (Hp1 & Hpres & Hkeep & Hset).
  { intros Ee. rewrite Ee in Hdisj. split; [apply Hdisj; left|]. apply Hck; [left|done]. }
  set (p1 := backup_file tgt upload old p fi) in *.
  assert (NoDup (names fs) ∧ (eligible fi = true → fName fi ∉ names fs)) as [Hnd1 Hnin].
  { destruct (eligible fi); [|done]. apply NoDup_cons in Hnd as [? ?]. auto. }
  destruct (IH p1 Hp1 Hnd1) as (H1 & H2 & H3 & H4).
  - intros n Hn. rewrite Hpres. destruct (eligible fi); [|by apply Hdisj].
    intros [->%elem_of_singleton|Hin]%elem_of_union; [by apply Hnin|].
    revert Hin. apply Hdisj. by right.
  - intros fj Hj. apply Hck. by right.
  - split; [done|]. split; [|split].
    + intros n. rewrite H2, Hpres. destruct (eligible fi); set_solver.
    + intros n Hn. rewrite H3 by (destruct (eligible fi); set_solver). apply Hkeep.
      destruct (eligible fi); [left; set_solver|by right].
    + intros fj [->|Hj]%elem_of_cons Ee Hb; [|by apply H4].
      rewrite H3 by by apply Hnin. by apply Hset.
Qed.

Lemma apply_tombstones reg ns n :
  apply_deltas reg (map tombstone ns) !! n = if decide (n ∈ ns) then None else reg !! n.
Proof.
  revert reg. induction ns as [|k ns IH]; intros reg; [by rewrite decide_False by set_solver|].
  change (apply_deltas reg (map tombstone (k :: ns))) with
    (apply_deltas (apply_delta reg (tombstone k)) (map tombstone ns)).
  rewrite IH. unfold apply_delta. cbn [mDeleted mPath tombstone].
  destruct (decide (n = k)) as [->|Hne].
  - rewrite lookup_delete_eq. repeat case_decide; set_solver.
  - rewrite lookup_delete_ne by done. repeat case_decide; set_solver.
Qed.
End in_step.

(** [order] visits the names of the old manifest. *)
Definition visits (order : manifest → list string) : Prop :=
  ∀ m k, k ∈ order m ↔ is_Some (m !! k).

(** C35.  When the cloud service holds what the manifest says and accepts the
    deltas of a pass, it holds what the new manifest says: uploads that fail leave
    both sides at the old content, files that are gone disappear from both, and
    every file that needed no upload or was uploaded is registered under the hash
    of its present content.  This needs that the index lists every name once and
    that every file has a content hash. *)
Theorem backup_in_step tgt upload old files iterErr cancel order p :
  visits order → NoDup (names files) →
  (∀ fi, fi ∈ files → eligible fi = true → contentKey fi ≠ ""%string) →
  backup_files tgt upload old files iterErr cancel = Some p →
  apply_deltas old (deltas p ++ tombstones p (order old)) = newManifest p ∧
  (∀ fi, fi ∈ files → eligible fi = true → backed_up tgt upload old fi →
         newManifest p !! fName fi = Some (contentKey fi)) ∧
  (∀ n, n ∉ names files → newManifest p !! n = None).
Proof.
  intros Hv Hnd Hck. set (q := fold_left (backup_file tgt upload old) files pass_init).
  destruct (backup_files_step tgt upload old files pass_init (in_step_init old) Hnd)
    as ([Hreg Hnone] & Hpres & Hkeep & Hset); [set_solver|done|]. fold q in Hreg, Hnone, Hpres, Hkeep, Hset.
  intros Hp. assert (newManifest p = newManifest q ∧ present p = present q ∧ deltas p = deltas q)
    as (E1 & E2 & E3).
  { unfold backup_files in Hp. fold q in Hp.
    destruct cancel as [k|]; [destruct (_ <? _)%nat; [done|]|]; injection Hp as <-;
      by destruct iterErr. }
  rewrite E1, E3. split; [|split].
  - apply map_eq. intros n. unfold apply_deltas. rewrite fold_left_app.
    change (apply_deltas (apply_deltas old (deltas q)) (tombstones p (order old)) !! n =
            newManifest q !! n).
    unfold tombstones. rewrite apply_tombstones, Hreg, E2.
    destruct (decide (n ∈ present q)) as [Hin|Hnin].
    + rewrite decide_False; [done|]. by rewrite list_elem_of_filter; intros [? _].
    + rewrite (Hnone n Hnin). case_decide as Hf; [done|].
      destruct (old !! n) as [k|] eqn:Eo; [|done]. destruct Hf.
      apply list_elem_of_filter. split; [done|]. apply Hv. by rewrite Eo.
  - done.
  - intros n Hn. rewrite Hkeep by done. done.
Qed.

Definition sample_target : backupTarget := MkTarget "f" "/home/u/f" "/f" "DEV".
Definition sample_index : list FileInfo := [sample_file].
Definition all_uploads : path → path → FileInfo → string + string := λ _ _ _, inr "rev1"%string.
Definition key_order : manifest → list string := λ m, (map_to_list m).*1.

Lemma key_order_visits : visits key_order.
Proof.
  intros m k. unfold key_order. rewrite list_elem_of_fmap. split.
  - intros ([k' x] & -> & Hx). apply elem_of_map_to_list in Hx. simpl. eauto.
  - intros [x Hx]. exists (k, x). by rewrite elem_of_map_to_list.
Qed.

Lemma backup_in_step_witness :
  let old : manifest := {["gone" := "aa"]} in
  ∃ p, backup_files sample_target all_uploads old sample_index None None = Some p ∧
  apply_deltas old (deltas p ++ tombstones p (key_order old)) = newManifest p ∧
  newManifest p !! "a/b.txt" = None.
Proof.
  intros old.
  destruct (backup_files sample_target all_uploads old sample_index None None) as [p|] eqn:E;
    [|discriminate E].
  exists p. split; [reflexivity|].
  destruct (backup_in_step sample_target all_uploads old sample_index None None key_order p
    key_order_visits) as (H1 & _ & H3); [| |exact E|].
  - apply (bool_decide_eq_true (NoDup _)). vm_compute. reflexivity.
  - intros fi [->|[]%not_elem_of_nil]%elem_of_cons _. vm_compute. discriminate.
  - split; [exact H1|]. apply H3. apply (bool_decide_eq_true (_ ∉ _)). vm_compute. reflexivity.
Defined.

(** ** Where the backup loses files *)

Lemma backup_files_names tgt upload old fs p n :
  n ∉ names fs →
  let p' := fold_left (backup_file tgt upload old) fs p in
  (n ∈ present p' ↔ n ∈ present p) ∧ newManifest p' !! n = newManifest p !! n.
Proof.
  revert p. induction fs as [|fi fs IH]; intros p Hn; cbn [fold_left]; [done|].
  assert (names (fi :: fs) = if eligible fi then fName fi :: names fs else names fs) as En.
  { unfold names. rewrite filter_cons. by destruct (eligible fi). }
  rewrite En in Hn. destruct (IH (backup_file tgt upload old p fi)) as [H1 H2];
    [destruct (eligible fi); set_solver|].
  cbn zeta. rewrite H1, H2. unfold backup_file. destruct (eligible fi) eqn:Ee; simpl; [|done].
  apply not_elem_of_cons in Hn as [Hn _].
  case_bool_decide; [|destruct (upload _ _ _); [destruct (old !! fName fi)|]];
    simpl; rewrite ?lookup_insert_ne by done; set_solver.
Qed.

(** A registered file that the pass does not come across as an eligible file
    is taken for deleted: it is registered as deleted and dropped from the
    manifest.  This is so even when the iteration over the index failed before
    reaching it, and when the file is there but marked invalid for the moment; the
    pass then reports the error of the iteration and still commits. *)
Theorem backup_unlisted_lost m tgt upload files iterErr order old name now :
  visits order → m_manifests m !! FolderID tgt = Some old → is_Some (old !! name) →
  name ∉ names files →
  ∃ p, backup_files tgt upload old files iterErr None = Some p ∧
  tombstone name ∈ tombstones p (order old) ∧
  let m' := run_backupTarget m tgt true None upload files iterErr None order None now in
  m_manifests m' !! FolderID tgt = Some (newManifest p) ∧ newManifest p !! name = None ∧
  ∀ e, iterErr = Some e → LastError (statusFor m' (FolderID tgt)) = e.
Proof.
  intros Hv Hm Hold Hn.
  destruct (backup_files_names tgt upload old files pass_init name Hn) as [Hp Hnew].
  set (q := fold_left (backup_file tgt upload old) files pass_init) in *.
  set (p := match iterErr with Some e => MkPass (newManifest q) (present q) (deltas q) e | None => q end).
  assert (newManifest p = newManifest q ∧ present p = present q) as [E1 E2] by by unfold p; destruct iterErr.
  assert (tombstone name ∈ tombstones p (order old)) as Ht.
  { unfold tombstones. apply list_elem_of_fmap. exists name. split; [done|].
    apply list_elem_of_filter. rewrite E2, Hp. split; [set_solver|]. by apply Hv. }
  exists p. split; [done|]. split; [done|]. unfold run_backupTarget, begin_pass. cbn [negb].
  cbn [setStatus set_status_map m_manifests]. rewrite Hm.
  change (default ∅ (Some old)) with old. unfold backup_files. fold q. fold p.
  unfold conclude. destruct (Nat.ltb_spec 0 (length (deltas p ++ tombstones p (order old)))) as [|Hl].
  2: { rewrite length_app in Hl. destruct (tombstones p (order old)); [set_solver|simpl in Hl; lia]. }
  unfold finish, setStatus, set_status_map, persistLocked, store_manifest, statusFor. simpl.
  rewrite !lookup_insert_eq, E1, Hnew. split; [done|]. split; [done|]. intros e He. simpl.
  unfold p. by rewrite He.
Qed.

Definition sample_manager : backupManager :=
  MkManager {["f" := sample_target]} {["f" := {["a" := "11"]}]} ∅ [] None.

Lemma backup_unlisted_lost_witness :
  let m' := run_backupTarget sample_manager sample_target true None all_uploads [] (Some "disk")
              None key_order None 5 in
  ∃ p, tombstone "a" ∈ tombstones p (key_order {["a" := "11"]}) ∧
  m_manifests m' !! "f" = Some (newManifest p) ∧ newManifest p !! "a" = None.
Proof.
  intros m'.
  destruct (backup_unlisted_lost sample_manager sample_target all_uploads [] (Some "disk") key_order
    {["a" := "11"]} "a" 5 key_order_visits) as (p & _ & H1 & H2 & H3 & _).
  - reflexivity.
  - by exists "11"%string.
  - apply (bool_decide_eq_true (_ ∉ _)). vm_compute. reflexivity.
  - exists p. split; [exact H1|split; [exact H2|exact H3]].
Defined.

(** When a backup is disabled while a pass over its folder runs, the pass
    stores its manifest afterwards: the folder has no target but its manifest is
    there and is persisted, and when the backup is enabled again the next pass
    starts from it, although the service was told to unlink the project. *)
Theorem disable_during_pass m t p gone now :
  deltas p ++ gone ≠ [] →
  let f := FolderID t in
  let m1 := conclude (removeTarget m f) f p gone None now in
  m_targets m1 !! f = None ∧ m_manifests m1 !! f = Some (newManifest p) ∧
  m_manifests (newBackupManager (m_secret m1)) !! f = Some (newManifest p) ∧
  (begin_pass (addTarget m1 t) f true None now).2 = Some (newManifest p).
Proof.
  intros Hd f m1. unfold m1, conclude.
  destruct (Nat.ltb_spec 0 (length (deltas p ++ gone))) as [_|Hl];
    [|destruct (deltas p ++ gone); [done|simpl in Hl; lia]].
  unfold finish, setStatus, set_status_map, persistLocked, store_manifest, removeTarget. simpl.
  unfold newBackupManager, load, begin_pass, addTarget, persistLocked, setStatus, set_status_map.
  simpl. by rewrite lookup_delete_eq, lookup_insert_eq.
Qed.

Lemma disable_during_pass_witness :
  let p := MkPass {["a" := "11"]} {["a"]} [] "" in
  let m1 := conclude (removeTarget sample_manager "f") "f" p [tombstone "b"] None 5 in
  m_targets m1 !! "f" = None ∧ m_manifests m1 !! "f" = Some {["a" := "11"]}.
Proof.
  intros p m1.
  destruct (disable_during_pass sample_manager sample_target p [tombstone "b"] 5) as (H1 & H2 & _);
    [discriminate|]. split; [exact H1|exact H2].
Defined.

(** ** What a teammate ends up with *)

Section pulled.
Context (mkdirAll : path → option string) (rename : path → path → option string)
  (downloadTo : string → download) (HashFile : Z → list Z → string + list BlockInfo)
  (sha256 : list Z → list Z) (IsWindows : bool).
Abbreviation pull := (pullOneMaterial mkdirAll rename downloadTo HashFile sha256 IsWindows).

Definition final_path (folderPath : path) (m : backendMaterialOut) : path :=
  Join [folderPath; s2l (oPath m)].
Definition temp_path (folderPath : path) (m : backendMaterialOut) : path :=
  Join [folderPath; TempName sha256 IsWindows (s2l (oPath m))].

(** A download that fails, for whatever reason, leaves every file but the
    temporary one as it was and no temporary file behind; one that succeeds puts
    exactly the downloaded bytes at the final path, they have the registered size
    when there is one, and their blocks hash to the registered key when there is
    one. *)
Theorem pullOneMaterial_spec fs folderPath m link fs' r :
  pull fs folderPath m link = (fs', r) →
  match r with
  | inl _ =>
      (∀ q, q ≠ temp_path folderPath m → fs' !! q = fs !! q) ∧
      (fs' = fs ∨ fs' !! temp_path folderPath m = None)
  | inr n =>
      ∃ content, downloadTo link = DlOk content ∧ n = Z.of_nat (length content) ∧
      fs' !! final_path folderPath m = Some content ∧
      (∀ q, q ≠ temp_path folderPath m → q ≠ final_path folderPath m → fs' !! q = fs !! q) ∧
      (0 < oSizeBytes m → n = oSizeBytes m) ∧
      (oContentKey m ≠ "" → ∃ blocks, HashFile (BlockSize n) content = inr blocks ∧
         l2s (hex_encode (BlocksHash sha256 blocks)) = oContentKey m)
  end.
Proof.
  assert (∀ (g : files) c, (∀ q, q ≠ temp_path folderPath m →
      delete (temp_path folderPath m) (<[temp_path folderPath m := c]> g) !! q = g !! q) ∧
      delete (temp_path folderPath m) (<[temp_path folderPath m := c]> g) !! temp_path folderPath m = None)
    as Hdel.
  { intros g c. split; [|by rewrite lookup_delete_eq].
    intros q Hq. by rewrite lookup_delete_ne, lookup_insert_ne. }
  unfold pullOneMaterial. fold (final_path folderPath m). fold (temp_path folderPath m).
  destruct (mkdirAll _); [by intros [= <- <-]; auto|].
  destruct (downloadTo link) as [e|part e|content] eqn:Ed.
  { intros [= <- <-]. split; [|right; by rewrite lookup_delete_eq].
    intros q Hq. by rewrite lookup_delete_ne. }
  { intros [= <- <-]. destruct (Hdel fs part). auto. }
  destruct (Hdel fs content) as [H1 H2].
  destruct ((0 <? oSizeBytes m) && _) eqn:Esz; [intros [= <- <-]; auto|].
  destruct (verify _ _ _ _ _ _) eqn:Ev; [intros [= <- <-]; auto|].
  destruct (rename _ _); [intros [= <- <-]; auto|]. intros [= <- <-].
  exists content. split; [done|]. split; [done|]. split; [by rewrite lookup_insert_eq|].
  split; [intros q Hq Hq'; rewrite lookup_insert_ne by done; by apply H1|]. split.
  - intros Hpos. apply andb_false_iff in Esz as [Esz|Esz]; zb; lia.
  - intros Hk. unfold verify in Ev. rewrite bool_decide_eq_false_2 in Ev by done.
    destruct (rooted _ _); [|done..]. destruct (HashFile _ _) as [?|blocks]; [done|].
    case_bool_decide; [|done]. by exists blocks.
Qed.

(** The folder does not confine a pulled file: a registered path that steps
    upwards and has no content key is downloaded, without any check, to a place
    outside the folder.  A content key would stop it, since the temporary file is
    then read through a file system that refuses such paths. *)
Theorem pull_escapes_folder fs link content key size :
  (∀ p, mkdirAll p = None) → (∀ p q, rename p q = None) → downloadTo link = DlOk content →
  let m := MkOut "../other/evil" key size false in
  let folder := s2l "/home/u/project" in
  (key = "" → size = 0 →
   ∃ fs', pullOneMaterial mkdirAll rename downloadTo HashFile sha256 IsWindows fs folder m link =
            (fs', inr (Z.of_nat (length content))) ∧
          fs' !! s2l "/home/u/other/evil" = Some content) ∧
  (key ≠ "" → ∃ fs' e,
     pullOneMaterial mkdirAll rename downloadTo HashFile sha256 IsWindows fs folder m link = (fs', inl e)).
Proof.
  intros Hmk Hrn Hdl m folder. unfold pullOneMaterial. rewrite Hmk, Hdl.
  assert (TempName sha256 IsWindows (s2l (oPath m)) =
          if IsWindows then s2l "../other/~vidsync~evil.tmp" else s2l "../other/.vidsync.evil.tmp") as ->.
  { destruct IsWindows; vm_compute; reflexivity. }
  assert (Join [folder; s2l (oPath m)] = s2l "/home/u/other/evil") as -> by (vm_compute; reflexivity).
  cbn [oSizeBytes m]. split.
  - intros -> ->. cbn [Z.ltb Z.compare andb]. unfold verify. cbn [oContentKey m].
    rewrite bool_decide_eq_true_2 by done. rewrite Hrn. eexists. split; [done|].
    by rewrite lookup_insert_eq.
  - intros Hk. destruct (_ && _); [by eexists _, _|]. unfold verify. cbn [oContentKey m].
    rewrite bool_decide_eq_false_2 by done.
    assert (∃ e, rooted (if IsWindows then s2l "../other/~vidsync~evil.tmp"
                         else s2l "../other/.vidsync.evil.tmp") folder = Err e) as [e ->].
    { destruct IsWindows; eexists; vm_compute; reflexivity. }
    by eexists _, _.
Qed.
End pulled.

Lemma pullOneMaterial_spec_witness :
  let fs' := <[s2l "/d/a" := [1; 2]]> (∅ : files) in
  fs' !! final_path (s2l "/d") (MkOut "a" "" 2 false) = Some [1; 2].
Proof.
  intros fs'.
  destruct (pullOneMaterial_spec (λ _, None) (λ _ _, None) (λ _, DlOk [1; 2]) (λ _ _, inr [])
    (λ _, []) false ∅ (s2l "/d") (MkOut "a" "" 2 false) "link" fs' (inr 2))
    as (content & [= <-] & _ & H & _); [vm_compute; reflexivity|exact H].
Defined.

Lemma pull_escapes_folder_witness :
  ∃ fs', pullOneMaterial (λ _, None) (λ _ _, None) (λ _, DlOk [1; 2]) (λ _ _, inr []) (λ _, [])
    false ∅ (s2l "/home/u/project") (MkOut "../other/evil" "" 0 false) "link" = (fs', inr 2) ∧
  fs' !! s2l "/home/u/other/evil" = Some [1; 2].
Proof.
  apply (pull_escapes_folder (λ _, None) (λ _ _, None) (λ _, DlOk [1; 2]) (λ _ _, inr []) (λ _, [])
    false ∅ "link" [1; 2] "" 0); reflexivity.
Defined.
