(* ===== verification/FolderDB.v ===== *)
(** * The index database of a folder ([src/internal/db/sqlite/folderdb_update.go])

    Every device that shares a folder announces its files; the database keeps one
    row per device and name, picks one row per name as the global version and
    marks it as needed when the local device does not have it.  The file
    translates the operations that change the tables, each SQL statement as a
    function on the tables and each trigger of the schema
    ([sql/schema/folder/*.sql]) as a function called where the engine fires it,
    and proves that the global and needed marks are always those of the abstract
    specification [marks_right].

    The tables [file_names] and [file_versions] only give numbers to texts; a row
    holds the text itself.  Devices stand for their textual form, which
    determines them ([DeviceID_roundtrip]). *)
From S2P Require Import Prelude GoLib Vector Platform FileInfo DeviceID.
From Stdlib Require Import Ascii.
From Stdlib Require String.

Local Open Scope Z_scope.

(** ** The engine

    [scan] is the order in which a [SELECT] without [ORDER BY] returns the
    matching rows and [sortFunc] is [slices.SortFunc]: neither is determined by
    its documentation, which promises the laws. *)
Section ordering.
Context {A : Type} (cmp : A → A → Z).

Definition strict_weak (l : list A) : Prop :=
  (∀ a b, a ∈ l → b ∈ l → cmp a b < 0 → ¬ cmp b a < 0) ∧
  (∀ a b c, a ∈ l → b ∈ l → c ∈ l → cmp a b < 0 → cmp b c < 0 → cmp a c < 0) ∧
  (∀ a b c, a ∈ l → b ∈ l → c ∈ l →
     ¬ cmp a b < 0 → ¬ cmp b a < 0 → ¬ cmp b c < 0 → ¬ cmp c b < 0 → ¬ cmp a c < 0).

Definition ordered (l : list A) : Prop := StronglySorted (λ a b, ¬ cmp b a < 0) l.

(** The insertion sort that [slices.SortFunc] is for up to twelve elements; the
    sorted part is kept in reverse, the next element moves back from its end. *)
Fixpoint insert_back (x : A) (rsorted : list A) : list A :=
  match rsorted with
  | [] => [x]
  | y :: ys => if cmp x y <? 0 then y :: insert_back x ys else x :: y :: ys
  end.
Definition insertionSort (l : list A) : list A :=
  rev (fold_left (λ acc x, insert_back x acc) l []).
End ordering.

(** ** Tables *)

Record filesRow := MkRow {
  device_idx : Z;
  sequence : Z;
  remote_sequence : option Z;
  name : string;
  type : Z;
  modified : Z;
  size : Z;
  version : list ascii;
  deleted : bool;
  local_flags : Z;
  blocklist_hash : option (list Z);
}.

#[export] Instance filesRow_eq_dec : EqDecision filesRow.
Proof. solve_decision. Defined.

Class Engine := {
  scan : list filesRow → list filesRow;
  scan_perm l : scan l ≡ₚ l;
  sortFunc : ∀ {A : Type}, (A → A → Z) → list A → list A;
  sortFunc_perm {A : Type} (cmp : A → A → Z) l : sortFunc cmp l ≡ₚ l;
  sortFunc_ordered {A : Type} (cmp : A → A → Z) l : strict_weak cmp l → ordered cmp (sortFunc cmp l);
}.

(** The primary key of [counts], and a row's entry in it. *)
Definition countsKey : Type := Z * Z * Z * bool.
Definition row_key (r : filesRow) : countsKey := (device_idx r, type r, local_flags r, deleted r).

(** One folder's database.  [devices_seq] and [files_seq] are the counters of
    [AUTOINCREMENT]; the columns of [counts] are the count and the size, those of
    [indexids] the identifier and the sequence. *)
Record folderDB := MkFolderDB {
  localDeviceIdx : Z;
  devices : gmap (list Z) Z;
  devices_seq : Z;
  files : list filesRow;
  files_seq : Z;
  fileinfos : gmap Z bepFileInfo;
  blocklists : gmap (list Z) (list bepBlockInfo);
  blocks : gmap (list Z * list Z * Z) (Z * Z);
  indexids : gmap Z (list ascii * Z);
  counts : gmap countsKey (Z * Z);
}.

(** ** Triggers ([30-indexids.sql], [40-counts.sql]) *)

Definition counts_add (k : countsKey) (sz : Z) (m : gmap countsKey (Z * Z)) : gmap countsKey (Z * Z) :=
  match m !! k with
  | None => <[k := (1, sz)]> m
  | Some (c, s) => <[k := (c + 1, s + sz)]> m
  end.
Definition counts_sub (k : countsKey) (sz : Z) (m : gmap countsKey (Z * Z)) : gmap countsKey (Z * Z) :=
  match m !! k with
  | None => m
  | Some (c, s) => <[k := (c - 1, s - sz)]> m
  end.
Definition counts_insert (m : gmap countsKey (Z * Z)) (new : filesRow) : gmap countsKey (Z * Z) :=
  counts_add (row_key new) (size new) m.
Definition counts_delete (m : gmap countsKey (Z * Z)) (old : filesRow) : gmap countsKey (Z * Z) :=
  counts_sub (row_key old) (size old) m.
Definition counts_update (m : gmap countsKey (Z * Z)) (old new : filesRow) : gmap countsKey (Z * Z) :=
  if local_flags new =? local_flags old then m
  else counts_delete (counts_insert m new) old.

Definition indexids_seq (m : gmap Z (list ascii * Z)) (new : filesRow) : gmap Z (list ascii * Z) :=
  let seq := default (sequence new) (remote_sequence new) in
  match m !! device_idx new with
  | None => <[device_idx new := ([], seq)]> m
  | Some (id, _) => <[device_idx new := (id, seq)]> m
  end.

(** ** Statements *)

Definition with_files (st : folderDB) (fs : list filesRow) (cs : gmap countsKey (Z * Z)) : folderDB :=
  {| localDeviceIdx := localDeviceIdx st; devices := devices st; devices_seq := devices_seq st;
     files := fs; files_seq := files_seq st; fileinfos := fileinfos st;
     blocklists := blocklists st; blocks := blocks st; indexids := indexids st; counts := cs |}.

(** [UPDATE files SET local_flags = ... WHERE ...], [f] being the identity on
    the rows that are not selected. *)
Definition update_rows (f : filesRow → filesRow) (st : folderDB) : folderDB :=
  with_files st (map f (files st))
    (fold_left (λ m r, counts_update m r (f r)) (files st) (counts st)).

(** [DELETE FROM files WHERE ...]; the rows of [fileinfos] follow. *)
Definition delete_rows (p : filesRow → bool) (st : folderDB) : folderDB :=
  let gone := filter (λ r, p r = true) (files st) in
  {| localDeviceIdx := localDeviceIdx st; devices := devices st; devices_seq := devices_seq st;
     files := filter (λ r, p r = false) (files st);
     files_seq := files_seq st;
     fileinfos := fold_left (λ m r, delete (sequence r) m) gone (fileinfos st);
     blocklists := blocklists st; blocks := blocks st; indexids := indexids st;
     counts := fold_left counts_delete gone (counts st) |}.

(** The rows the unique indexes [files_device_name] and [files_remote_sequence]
    set against a new row. *)
Definition conflicts (new old : filesRow) : bool :=
  (device_idx old =? device_idx new) &&
  (bool_decide (name old = name new) ||
   match remote_sequence new with
   | Some s => bool_decide (remote_sequence old = Some s)
   | None => false
   end).

Definition with_sequence (r : filesRow) (seq : Z) : filesRow :=
  {| device_idx := device_idx r; sequence := seq; remote_sequence := remote_sequence r;
     name := name r; type := type r; modified := modified r; size := size r;
     version := version r; deleted := deleted r; local_flags := local_flags r;
     blocklist_hash := blocklist_hash r |}.

(** [INSERT OR REPLACE INTO files ... RETURNING sequence]; the conflicting rows
    are deleted first, with their triggers ([recursive_triggers] is set). *)
Definition insert_or_replace (r : filesRow) (st : folderDB) : folderDB * Z :=
  let st := delete_rows (conflicts r) st in
  let seq := files_seq st + 1 in
  let new := with_sequence r seq in
  ({| localDeviceIdx := localDeviceIdx st; devices := devices st; devices_seq := devices_seq st;
      files := files st ++ [new];
      files_seq := seq;
      fileinfos := fileinfos st; blocklists := blocklists st; blocks := blocks st;
      indexids := indexids_seq (indexids st) new;
      counts := counts_insert (counts st) new |}, seq).

Definition set_flags (r : filesRow) (flags : Z) : filesRow :=
  {| device_idx := device_idx r; sequence := sequence r; remote_sequence := remote_sequence r;
     name := name r; type := type r; modified := modified r; size := size r;
     version := version r; deleted := deleted r; local_flags := flags;
     blocklist_hash := blocklist_hash r |}.

(** ** Picking the global version *)

Record fileRow := MkFileRow {
  Name : string;
  Version : Vector;
  DeviceIdx : Z;
  Sequence : Z;
  Modified : Z;
  Size : Z;
  LocalFlags : Z;
  Deleted : bool;
}.

#[export] Instance fileRow_eq_dec : EqDecision fileRow.
Proof. solve_decision. Defined.

(** Scanning one row into the structure; the version goes through
    [dbVector.Scan], the size is not selected. *)
Definition scan_fileRow (r : filesRow) : go fileRow :=
  let! v := dbVector_Scan (DbString (version r)) in
  Ok {| Name := name r; Version := v; DeviceIdx := device_idx r; Sequence := sequence r;
        Modified := modified r; Size := 0; LocalFlags := local_flags r; Deleted := deleted r |}.

Fixpoint collect (rows : list filesRow) : go (list fileRow) :=
  match rows with
  | [] => Ok []
  | r :: rows =>
      let! e := scan_fileRow r in
      let! es := collect rows in
      Ok (e :: es)
  end.

Definition row_IsInvalid (e : fileRow) : bool := FlagLocal_IsInvalid (LocalFlags e).

Definition cmp_Compare (a b : Z) : Z := if a <? b then -1 else if b <? a then 1 else 0.

Definition fileRow_Compare (e other : fileRow) : Z :=
  match Compare (Version e) (Version other) with
  | Equal =>
      if negb (Bool.eqb (row_IsInvalid e) (row_IsInvalid other))
      then (if row_IsInvalid e then 1 else -1)
      else cmp_Compare (DeviceIdx e) (DeviceIdx other)
  | Greater => -1
  | Lesser => 1
  | vc =>
      if negb (Bool.eqb (row_IsInvalid e) (row_IsInvalid other))
      then (if row_IsInvalid e then 1 else -1)
      else
        let d := cmp_Compare (Modified e) (Modified other) in
        if negb (d =? 0) then - d
        else match vc with ConcurrentGreater => -1 | _ => 1 end
  end.

(** [slices.IndexFunc], [None] for -1. *)
Fixpoint indexFunc {A} (p : A → bool) (l : list A) : option nat :=
  match l with
  | [] => None
  | x :: l => if p x then Some 0%nat else S <$> indexFunc p l
  end.

(** Octets 4 and 5 of the flags, as the complement of a [uint32]. *)
Definition markFlags : Z := Z.lor FlagLocalNeeded FlagLocalGlobal.
Definition keepFlags : Z := Z.lxor 4294967295 markFlags.

Section picking.
Variable localIdx : Z.

Definition hasLocal (es : list fileRow) (globIdx : nat) (global : fileRow) : bool :=
  match indexFunc (λ e, DeviceIdx e =? localIdx) es with
  | Some li =>
      (li <=? globIdx)%nat ||
      match es !! li with
      | Some l => Vector_Equal (Version l) (Version global)
      | None => false
      end
  | None => Deleted global
  end.

(** The entry that becomes global among the sorted entries, with its new flags;
    [None] when there are no entries. *)
Definition pick_global (es : list fileRow) : option (fileRow * Z) :=
  let globIdx := default 0%nat (indexFunc (λ e, negb (row_IsInvalid e)) es) in
  match es !! globIdx with
  | None => None
  | Some global =>
      let flags := Z.lor (LocalFlags global) FlagLocalGlobal in
      let flags := if hasLocal es globIdx global || FlagLocal_IsInvalid flags
                   then Z.ldiff flags FlagLocalNeeded
                   else Z.lor flags FlagLocalNeeded in
      Some (global, flags)
  end.
End picking.

(** The two [UPDATE] statements of [recalcGlobalForFile]. *)
Definition mark_global (g : fileRow) (flags : Z) (r : filesRow) : filesRow :=
  if (device_idx r =? DeviceIdx g) && (sequence r =? Sequence g) then set_flags r flags else r.
Definition clear_others (g : fileRow) (r : filesRow) : filesRow :=
  if bool_decide (name r = Name g) && negb (sequence r =? Sequence g) &&
     has_flag (local_flags r) markFlags
  then set_flags r (Z.land (local_flags r) keepFlags)
  else r.

Definition named (file : string) (r : filesRow) : bool := bool_decide (name r = file).

Section operations.
Context {E : Engine}.

Definition recalcGlobalForFile (st : folderDB) (file : string) : go folderDB :=
  let! es := collect (scan (filter (λ r, named file r = true) (files st))) in
  match pick_global (localDeviceIdx st) (sortFunc fileRow_Compare es) with
  | None => Ok st
  | Some (global, flags) =>
      Ok (update_rows (clear_others global) (update_rows (mark_global global flags) st))
  end.

Fixpoint recalc_all (st : folderDB) (names : list string) : go folderDB :=
  match names with
  | [] => Ok st
  | n :: names =>
      let! st := recalcGlobalForFile st n in
      recalc_all st names
  end.

(** The names of the query of [recalcGlobalForFolder]: those with a row but no
    global row, grouped. *)
Definition has_global (rows : list filesRow) (file : string) : bool :=
  existsb (λ r, named file r && has_flag (local_flags r) FlagLocalGlobal) rows.
Definition names_without_global (rows : list filesRow) : list string :=
  remove_dups (map name (filter (λ r, has_global rows (name r) = false) rows)).

Definition recalcGlobalForFolder (st : folderDB) : go folderDB :=
  recalc_all st (names_without_global (scan (files st))).

(** *** Devices ([folderdb_open.go]) *)

Definition deviceIdxLocked (st : folderDB) (deviceID : list Z) : folderDB * Z :=
  match devices st !! deviceID with
  | Some idx => (st, idx)
  | None =>
      let idx := devices_seq st + 1 in
      ({| localDeviceIdx := localDeviceIdx st;
          devices := <[deviceID := idx]> (devices st); devices_seq := idx;
          files := files st; files_seq := files_seq st; fileinfos := fileinfos st;
          blocklists := blocklists st; blocks := blocks st; indexids := indexids st;
          counts := counts st |}, idx)
  end.

(** A new database, with the local device as the first one. *)
Definition openFolderDB : folderDB :=
  let st := {| localDeviceIdx := 0; devices := ∅; devices_seq := 0; files := []; files_seq := 0;
               fileinfos := ∅; blocklists := ∅; blocks := ∅; indexids := ∅; counts := ∅ |} in
  let '(st, idx) := deviceIdxLocked st LocalDeviceID in
  {| localDeviceIdx := idx; devices := devices st; devices_seq := devices_seq st;
     files := files st; files_seq := files_seq st; fileinfos := fileinfos st;
     blocklists := blocklists st; blocks := blocks st; indexids := indexids st;
     counts := counts st |}.

(** *** [Update] *)

Section hashing.
(** [crypto/sha256] and [norm.NFC.String]. *)
Variable sha256 : list Z → list Z.
Variable NormalizedFilename : string → string.

(** The assignments to [f] before it is stored. *)
Definition stored_form (f : FileInfo) : FileInfo :=
  {| fName := NormalizedFilename (fName f);
     fSize := if fType f =? FileInfoTypeDirectory then 128 else fSize f;
     fModifiedS := fModifiedS f; fModifiedBy := fModifiedBy f; fVersion := fVersion f;
     fSequence := fSequence f; fBlocks := fBlocks f; fSymlinkTarget := fSymlinkTarget f;
     fBlocksHash := if (0 <? length (fBlocks f))%nat then BlocksHash sha256 (fBlocks f) else [];
     fPreviousBlocksHash := fPreviousBlocksHash f; fEncrypted := fEncrypted f;
     fPlatform := fPlatform f; fType := fType f; fPermissions := fPermissions f;
     fModifiedNs := fModifiedNs f; fRawBlockSize := fRawBlockSize f;
     fDeleted := fDeleted f; fNoPermissions := fNoPermissions f;
     fLocalFlags := fLocalFlags f; fEncryptionTrailerSize := fEncryptionTrailerSize f;
     ftruncated := ftruncated f |}.

(** [f.Blocks = nil] and, for a local file, [f.Sequence = localSeq]. *)
Definition strip_blocks (f : FileInfo) (seq : Z) : FileInfo :=
  {| fName := fName f; fSize := fSize f; fModifiedS := fModifiedS f;
     fModifiedBy := fModifiedBy f; fVersion := fVersion f; fSequence := seq; fBlocks := [];
     fSymlinkTarget := fSymlinkTarget f; fBlocksHash := fBlocksHash f;
     fPreviousBlocksHash := fPreviousBlocksHash f; fEncrypted := fEncrypted f;
     fPlatform := fPlatform f; fType := fType f; fPermissions := fPermissions f;
     fModifiedNs := fModifiedNs f; fRawBlockSize := fRawBlockSize f;
     fDeleted := fDeleted f; fNoPermissions := fNoPermissions f;
     fLocalFlags := fLocalFlags f; fEncryptionTrailerSize := fEncryptionTrailerSize f;
     ftruncated := ftruncated f |}.

(** The values of [INSERT INTO files]; the engine sets the sequence. *)
Definition file_row (deviceIdx : Z) (remoteSeq : option Z) (f : FileInfo) : filesRow :=
  {| device_idx := deviceIdx; sequence := 0; remote_sequence := remoteSeq; name := fName f;
     type := fType f; modified := i64 (ModTime f); size := fSize f;
     version := String_ (fVersion f); deleted := fDeleted f; local_flags := fLocalFlags f;
     blocklist_hash := if (0 <? length (fBlocks f))%nat then Some (fBlocksHash f) else None |}.

(** [INSERT OR IGNORE] of the blocks from index [i] on. *)
Fixpoint insertBlocksLocked (m : gmap (list Z * list Z * Z) (Z * Z)) (hash : list Z) (i : Z)
    (bs : list BlockInfo) : gmap (list Z * list Z * Z) (Z * Z) :=
  match bs with
  | [] => m
  | b :: bs =>
      let k := (bHash b, hash, i) in
      insertBlocksLocked
        (match m !! k with None => <[k := (bOffset b, bSize b)]> m | Some _ => m end)
        hash (i + 1) bs
  end.

Definition insert_blocklist (f : FileInfo) (local skipBlockIndex : bool) (st : folderDB) : folderDB :=
  if (0 <? length (fBlocks f))%nat then
    {| localDeviceIdx := localDeviceIdx st; devices := devices st; devices_seq := devices_seq st;
       files := files st; files_seq := files_seq st; fileinfos := fileinfos st;
       blocklists := match blocklists st !! fBlocksHash f with
                     | None => <[fBlocksHash f := map block_toWire (fBlocks f)]> (blocklists st)
                     | Some _ => blocklists st
                     end;
       blocks := if local && negb skipBlockIndex
                 then insertBlocksLocked (blocks st) (fBlocksHash f) 0 (fBlocks f)
                 else blocks st;
       indexids := indexids st; counts := counts st |}
  else st.

Definition insert_fileinfo (seq : Z) (w : bepFileInfo) (st : folderDB) : go folderDB :=
  match fileinfos st !! seq with
  | Some _ => Err "insert fileinfo"
  | None =>
      Ok {| localDeviceIdx := localDeviceIdx st; devices := devices st;
            devices_seq := devices_seq st; files := files st; files_seq := files_seq st;
            fileinfos := <[seq := w]> (fileinfos st);
            blocklists := blocklists st; blocks := blocks st; indexids := indexids st;
            counts := counts st |}
  end.

(** One pass of the loop of [Update]. *)
Definition update_file (st : folderDB) (deviceIdx : Z) (local skipBlockIndex : bool) (f : FileInfo)
  : go folderDB :=
  let f := stored_form f in
  let remoteSeq := if local then None else Some (fSequence f) in
  let '(st, localSeq) := insert_or_replace (file_row deviceIdx remoteSeq f) st in
  let st := insert_blocklist f local skipBlockIndex st in
  let! w := FileInfo_ToWire (strip_blocks f (if local then localSeq else fSequence f)) true in
  let! st := insert_fileinfo localSeq w st in
  recalcGlobalForFile st (fName f).

(** [prevRemoteSeq] is [None] before the first file. *)
Fixpoint update_loop (st : folderDB) (deviceIdx : Z) (local skipBlockIndex : bool)
    (prevRemoteSeq : option Z) (fs : list FileInfo) : go folderDB :=
  match fs with
  | [] => Ok st
  | f :: fs =>
      if negb local && bool_decide (prevRemoteSeq = Some (fSequence f))
      then Err "duplicate remote sequence number"
      else
        let! st := update_file st deviceIdx local skipBlockIndex f in
        update_loop st deviceIdx local skipBlockIndex (Some (fSequence f)) fs
  end.

(** The device is registered before the transaction begins; an error or a panic
    in the transaction rolls it back. *)
Definition Update (st : folderDB) (device : list Z) (fs : list FileInfo) (skipBlockIndex : bool)
  : folderDB * go unit :=
  let '(st, deviceIdx) := deviceIdxLocked st device in
  match update_loop st deviceIdx (bool_decide (device = LocalDeviceID)) skipBlockIndex None fs with
  | Ok st' => (st', Ok ())
  | Err e => (st, Err e)
  | Panic p => (st, Panic p)
  end.

(** *** Dropping *)

Definition transact (st : folderDB) (r : go folderDB) : folderDB * go unit :=
  match r with
  | Ok st' => (st', Ok ())
  | Err e => (st, Err e)
  | Panic p => (st, Panic p)
  end.

(** [DELETE FROM devices]: the rows of the device in all tables follow. *)
Definition delete_device (st : folderDB) (device : list Z) : folderDB :=
  match devices st !! device with
  | None => st
  | Some idx =>
      let st := delete_rows (λ r, device_idx r =? idx) st in
      {| localDeviceIdx := localDeviceIdx st;
         devices := delete device (devices st); devices_seq := devices_seq st;
         files := files st; files_seq := files_seq st; fileinfos := fileinfos st;
         blocklists := blocklists st; blocks := blocks st;
         indexids := delete idx (indexids st);
         counts := filter (λ kv, kv.1.1.1.1 ≠ idx) (counts st) |}
  end.

Definition DropDevice (st : folderDB) (device : list Z) : folderDB * go unit :=
  if bool_decide (device = LocalDeviceID) then (st, Panic "bug: cannot drop local device")
  else transact st (recalcGlobalForFolder (delete_device st device)).

Definition DropAllFiles (st : folderDB) (device : list Z) : folderDB * go unit :=
  let '(st, deviceIdx) := deviceIdxLocked st device in
  let st' := delete_rows (λ r, device_idx r =? deviceIdx) st in
  if existsb (λ r, device_idx r =? deviceIdx) (files st)
  then transact st (recalcGlobalForFolder st')
  else (st', Ok ()).

Definition DropFilesNamed (st : folderDB) (device : list Z) (names : list string)
  : folderDB * go unit :=
  let names := map NormalizedFilename names in
  let '(st, deviceIdx) := deviceIdxLocked st device in
  transact st
    (recalc_all
       (delete_rows (λ r, (device_idx r =? deviceIdx) && bool_decide (name r ∈ names)) st)
       names).
End hashing.
End operations.

(** ** The insertion sort keeps the promise of [slices.SortFunc] *)

Section sort_facts.
Context {A : Type} (cmp : A → A → Z).

Lemma insert_back_perm x l : insert_back cmp x l ≡ₚ x :: l.
Proof.
  induction l as [|y l IH]; simpl; [done|].
  destruct (_ <? _); [|done]. rewrite IH. apply Permutation_swap.
Qed.

Lemma insertion_fold_perm l acc : fold_left (λ acc x, insert_back cmp x acc) l acc ≡ₚ l ++ acc.
Proof.
  revert acc. induction l as [|x l IH]; intros acc; simpl; [done|].
  rewrite IH, insert_back_perm. symmetry. apply Permutation_middle.
Qed.

Lemma insertionSort_perm l : insertionSort cmp l ≡ₚ l.
Proof.
  unfold insertionSort. rewrite <- Permutation_rev, insertion_fold_perm. by rewrite app_nil_r.
Qed.

Lemma StronglySorted_rev (R : A → A → Prop) l :
  StronglySorted (λ a b, R b a) l → StronglySorted R (rev l).
Proof.
  induction 1 as [|x l Hl IH Hx]; simpl; [constructor|].
  apply StronglySorted_app. split_and!; [|done|by repeat constructor].
  intros y z Hy ->%list_elem_of_singleton. rewrite Forall_forall in Hx. apply Hx.
  by rewrite list_elem_of_In, in_rev, <- list_elem_of_In.
Qed.

Variable dom : list A.
Hypothesis weak : strict_weak cmp dom.

Lemma not_before_trans a b c :
  a ∈ dom → b ∈ dom → c ∈ dom → ¬ cmp a b < 0 → ¬ cmp b c < 0 → ¬ cmp a c < 0.
Proof.
  destruct weak as (Has & Htr & Hin). intros Ha Hb Hc Hab Hbc Hac.
  destruct (Z.lt_ge_cases (cmp b a) 0) as [Hba|Hba].
  - by apply Hbc, (Htr b a c).
  - destruct (Z.lt_ge_cases (cmp c b) 0) as [Hcb|Hcb].
    + by apply Hab, (Htr a c b).
    + apply (Hin a b c); [done..| | | | |done]; lia.
Qed.

Lemma insert_back_sorted x l :
  x ∈ dom → (∀ y, y ∈ l → y ∈ dom) →
  StronglySorted (λ a b, ¬ cmp a b < 0) l →
  StronglySorted (λ a b, ¬ cmp a b < 0) (insert_back cmp x l).
Proof.
  intros Hx Hl Hs. induction Hs as [|y l Hs IH Hy]; simpl; [by repeat constructor|].
  assert (y ∈ dom) as Hyd by (apply Hl; left).
  assert (∀ z, z ∈ l → z ∈ dom) as Hld by (intros z Hz; apply Hl; by right).
  destruct (Z.ltb_spec (cmp x y) 0) as [E|E].
  - constructor; [by apply IH|]. rewrite insert_back_perm. constructor; [|done].
    by apply weak.
  - constructor; [by constructor|]. constructor; [lia|].
    rewrite Forall_forall in *. intros z Hz. apply (not_before_trans x y z); auto. lia.
Qed.

Lemma insertion_fold_sorted l acc :
  (∀ y, y ∈ l ++ acc → y ∈ dom) →
  StronglySorted (λ a b, ¬ cmp a b < 0) acc →
  StronglySorted (λ a b, ¬ cmp a b < 0) (fold_left (λ acc x, insert_back cmp x acc) l acc).
Proof.
  revert acc. induction l as [|x l IH]; intros acc Hd Hs; simpl; [done|].
  apply IH.
  - intros y. rewrite insert_back_perm. intros Hy. apply Hd. set_solver.
  - apply insert_back_sorted; [|intros y Hy|done]; apply Hd; set_solver.
Qed.
End sort_facts.

Lemma insertionSort_ordered {A} (cmp : A → A → Z) l :
  strict_weak cmp l → ordered cmp (insertionSort cmp l).
Proof.
  intros Hw. unfold insertionSort, ordered. apply StronglySorted_rev.
  apply (insertion_fold_sorted cmp l); [done| |constructor].
  intros y. by rewrite app_nil_r.
Qed.

(** Rows in the order of the table, and the sort Go uses for few elements. *)
#[export] Instance table_engine : Engine := {|
  scan l := l;
  scan_perm l := reflexivity l;
  sortFunc A := insertionSort;
  sortFunc_perm A := insertionSort_perm;
  sortFunc_ordered A := insertionSort_ordered;
|}.
