(* ===== verification/FolderMarks.v ===== *)
(** * The global and needed marks of a folder's database

    The invariants of the tables of [FolderDB] and the specification of the two
    marks, with the proofs that every operation keeps them. *)
From S2P Require Import Prelude GoLib Vector Platform FileInfo DeviceID FolderDB.
From Stdlib Require Import Ascii.
From Stdlib Require String.

Local Open Scope Z_scope.

(** ** [Compare] *)

Definition entry_ok (e : fileRow) : Prop := vector_wf (Version e).

Lemma cmp_Compare_flip a b : cmp_Compare b a = - cmp_Compare a b.
Proof. unfold cmp_Compare. destruct (Z.ltb_spec a b), (Z.ltb_spec b a); lia. Qed.
Lemma cmp_Compare_zero a b : cmp_Compare a b = 0 → a = b.
Proof. unfold cmp_Compare. destruct (Z.ltb_spec a b), (Z.ltb_spec b a); lia. Qed.

Lemma fileRow_Compare_flip a b :
  entry_ok a → entry_ok b → fileRow_Compare b a = - fileRow_Compare a b.
Proof.
  intros Ha Hb. unfold fileRow_Compare. rewrite (Compare_swap _ _ Ha Hb).
  rewrite (cmp_Compare_flip (DeviceIdx a)), (cmp_Compare_flip (Modified a)).
  destruct (Compare _ _), (row_IsInvalid a), (row_IsInvalid b); simpl; try lia;
    destruct (Z.eqb_spec (cmp_Compare (Modified a) (Modified b)) 0) as [->|];
    destruct (Z.eqb_spec (- cmp_Compare (Modified a) (Modified b)) 0); simpl; try lia.
Qed.

Lemma fileRow_Compare_zero a b : fileRow_Compare a b = 0 → DeviceIdx a = DeviceIdx b.
Proof.
  unfold fileRow_Compare.
  destruct (Bool.eqb (row_IsInvalid a) (row_IsInvalid b)), (Compare _ _); simpl;
    try (destruct (row_IsInvalid a); discriminate); try discriminate; try apply cmp_Compare_zero;
    destruct (Z.eqb_spec (cmp_Compare (Modified a) (Modified b)) 0); simpl; try discriminate; lia.
Qed.

(** ** What the marks mean

    The announcements of one name are compared by [fileRow_Compare]; this is not
    an order in general ([global_can_be_outdated] below), so the specification
    asks for the transitivity it needs. *)

Definition distinct (es : list fileRow) : Prop := NoDup (DeviceIdx <$> es).

Definition consistent (es : list fileRow) : Prop :=
  ∀ a b c, a ∈ es → b ∈ es → c ∈ es →
    fileRow_Compare a b < 0 → fileRow_Compare b c < 0 → fileRow_Compare a c < 0.

(** The global announcement comes before all other valid ones, or before all
    others when none is valid. *)
Definition best (es : list fileRow) (g : fileRow) : Prop :=
  g ∈ es ∧
  ((row_IsInvalid g = false ∧
    ∀ e, e ∈ es → row_IsInvalid e = false → e ≠ g → fileRow_Compare g e < 0) ∨
   ((∀ e, e ∈ es → row_IsInvalid e = true) ∧
    ∀ e, e ∈ es → e ≠ g → fileRow_Compare g e < 0)).

(** The local device [li] has the global file: its own announcement is not
    behind, or has the same version, or there is none and the file is deleted. *)
Definition up_to_date (li : Z) (es : list fileRow) (g : fileRow) : Prop :=
  (∃ l, l ∈ es ∧ DeviceIdx l = li ∧
        (fileRow_Compare l g ≤ 0 ∨ Vector_Equal (Version l) (Version g) = true)) ∨
  ((∀ l, l ∈ es → DeviceIdx l ≠ li) ∧ Deleted g = true).

Definition new_flags (flags : Z) (needed : bool) : Z :=
  if needed then Z.lor (Z.lor flags FlagLocalGlobal) FlagLocalNeeded
  else Z.ldiff (Z.lor flags FlagLocalGlobal) FlagLocalNeeded.

Lemma indexFunc_Some {A} (p : A → bool) l i :
  indexFunc p l = Some i ↔
  (∃ x, l !! i = Some x ∧ p x = true) ∧ ∀ j x, (j < i)%nat → l !! j = Some x → p x = false.
Proof.
  revert i. induction l as [|y l IH]; intros i; simpl.
  - split; [done|]. by intros [(x & ? & _) _].
  - destruct (p y) eqn:Ey.
    + split.
      * intros [= <-]. split; [by exists y|]. intros j x Hj. lia.
      * intros [_ H]. destruct i; [done|]. specialize (H 0%nat y ltac:(lia) eq_refl). congruence.
    + destruct (indexFunc p l) as [k|]; simpl.
      * split.
        -- intros [= <-]. destruct (IH k) as [(IH1 & IH2) _]; [done|]. split; [done|].
           intros [|j] x Hj; simpl; [by intros [= <-]|]. apply IH2. lia.
        -- intros [(x & Hx & Hp) H]. destruct i as [|i]; simpl in *; [congruence|].
           assert (Some k = Some i) as [= ->]; [|done]. apply IH. split; [by eauto|].
           intros j z Hj. apply (H (S j)). lia.
      * split; [done|]. intros [(x & Hx & Hp) H]. destruct i as [|i]; simpl in *; [congruence|].
        enough (None = Some i) by done. apply IH. split; [by eauto|].
        intros j z Hj. apply (H (S j)). lia.
Qed.

Lemma indexFunc_None {A} (p : A → bool) l :
  indexFunc p l = None ↔ ∀ x, x ∈ l → p x = false.
Proof.
  induction l as [|y l IH]; simpl; [by split; [intros _ x ?%elem_of_nil|]|].
  destruct (p y) eqn:Ey.
  - split; [done|]. intros H. rewrite (H y) in Ey; [done|left].
  - destruct (indexFunc p l); simpl.
    + split; [done|]. intros H. destruct IH as [_ IH]. enough (Some n = None) by done.
      apply IH. intros x Hx. apply H. by right.
    + split; [|done]. intros _ x [->|Hx]%elem_of_cons; [done|]. by apply IH.
Qed.

Lemma StronglySorted_lookup {A} (R : A → A → Prop) l i j a b :
  StronglySorted R l → (i < j)%nat → l !! i = Some a → l !! j = Some b → R a b.
Proof.
  intros Hs. revert i j. induction Hs as [|x l Hs IH Hx]; intros i j Hij Ha Hb; [done|].
  destruct j as [|j]; [lia|]. destruct i as [|i]; simpl in *.
  - injection Ha as ->. rewrite Forall_forall in Hx. apply Hx. by eapply list_elem_of_lookup_2.
  - apply (IH i j); [lia|done..].
Qed.

(** *** Marks and the other flags *)

Lemma has_flag_lor f m k : Z.land m k = 0 → has_flag (Z.lor f m) k = has_flag f k.
Proof. intros H. unfold has_flag. by rewrite Z.land_lor_distr_l, H, Z.lor_0_r. Qed.
Lemma has_flag_lor_same f m : m ≠ 0 → has_flag (Z.lor f m) m = true.
Proof.
  intros H. unfold has_flag. rewrite Z.land_lor_distr_l, Z.land_diag.
  apply negb_true_iff, Z.eqb_neq. by intros [_ ?]%Z.lor_eq_0_iff.
Qed.
Lemma has_flag_ldiff f m k : Z.land m k = 0 → has_flag (Z.ldiff f m) k = has_flag f k.
Proof.
  intros H. unfold has_flag. f_equal. f_equal. apply Z.bits_inj'. intros i Hi.
  apply (f_equal (λ z, Z.testbit z i)) in H. rewrite Z.land_spec, Z.bits_0 in H.
  rewrite !Z.land_spec, Z.ldiff_spec.
  destruct (Z.testbit f i), (Z.testbit m i), (Z.testbit k i); done.
Qed.
Lemma has_flag_ldiff_same f m : has_flag (Z.ldiff f m) m = false.
Proof.
  unfold has_flag. rewrite Z.land_comm. replace (Z.land m (Z.ldiff f m)) with 0; [done|].
  apply Z.bits_inj'. intros i Hi. rewrite Z.land_spec, Z.ldiff_spec, Z.bits_0.
  destruct (Z.testbit f i), (Z.testbit m i); done.
Qed.
Lemma has_flag_land f m k : has_flag (Z.land f m) k = has_flag f (Z.land m k).
Proof. unfold has_flag. by rewrite Z.land_assoc. Qed.

Lemma new_flags_global f b : has_flag (new_flags f b) FlagLocalGlobal = true.
Proof.
  unfold new_flags. destruct b.
  - by rewrite has_flag_lor, has_flag_lor_same.
  - by rewrite has_flag_ldiff, has_flag_lor_same.
Qed.
Lemma new_flags_needed f b : has_flag (new_flags f b) FlagLocalNeeded = b.
Proof. unfold new_flags. destruct b; [by rewrite has_flag_lor_same|apply has_flag_ldiff_same]. Qed.
Lemma new_flags_invalid f b : FlagLocal_IsInvalid (new_flags f b) = FlagLocal_IsInvalid f.
Proof.
  unfold new_flags, FlagLocal_IsInvalid. destruct b; by rewrite ?has_flag_ldiff, !has_flag_lor.
Qed.
Lemma keep_flags_marks f :
  has_flag (Z.land f keepFlags) FlagLocalGlobal = false ∧
  has_flag (Z.land f keepFlags) FlagLocalNeeded = false.
Proof.
  rewrite !has_flag_land. unfold has_flag.
  change (Z.land keepFlags FlagLocalGlobal) with 0. change (Z.land keepFlags FlagLocalNeeded) with 0.
  by rewrite Z.land_0_r.
Qed.
Lemma keep_flags_invalid f : FlagLocal_IsInvalid (Z.land f keepFlags) = FlagLocal_IsInvalid f.
Proof. unfold FlagLocal_IsInvalid. rewrite has_flag_land. done. Qed.
Lemma keep_flags_new f b : Z.land (new_flags f b) keepFlags = Z.land f keepFlags.
Proof.
  unfold new_flags. destruct b.
  - rewrite !Z.land_lor_distr_l. change (Z.land FlagLocalGlobal keepFlags) with 0.
    change (Z.land FlagLocalNeeded keepFlags) with 0. by rewrite !Z.lor_0_r.
  - rewrite Z.ldiff_land, <- Z.land_assoc.
    change (Z.land (Z.lnot FlagLocalNeeded) keepFlags) with keepFlags.
    rewrite Z.land_lor_distr_l. change (Z.land FlagLocalGlobal keepFlags) with 0.
    by rewrite Z.lor_0_r.
Qed.
Lemma keep_flags_keep f : Z.land (Z.land f keepFlags) keepFlags = Z.land f keepFlags.
Proof. by rewrite <- Z.land_assoc, Z.land_diag. Qed.
Lemma no_mark_flags f :
  has_flag f markFlags = false →
  has_flag f FlagLocalGlobal = false ∧ has_flag f FlagLocalNeeded = false.
Proof.
  unfold has_flag, markFlags. rewrite !negb_false_iff, !Z.eqb_eq, Z.land_lor_distr_r.
  intros [? ?]%Z.lor_eq_0_iff. done.
Qed.

Section pick.
Context {E : Engine}.
Variable li : Z.

Lemma distinct_elem es a b :
  distinct es → a ∈ es → b ∈ es → DeviceIdx a = DeviceIdx b → a = b.
Proof.
  intros Hd [i Hi]%list_elem_of_lookup_1 [j Hj]%list_elem_of_lookup_1 Hab.
  assert (i = j) as ->; [|congruence].
  apply (NoDup_lookup _ i j (DeviceIdx a) Hd); rewrite list_lookup_fmap.
  - by rewrite Hi.
  - rewrite Hj, Hab. done.
Qed.

Lemma consistent_weak es :
  Forall entry_ok es → distinct es → consistent es → strict_weak fileRow_Compare es.
Proof.
  intros Hok Hd Hc. rewrite Forall_forall in Hok.
  assert (∀ a b, a ∈ es → b ∈ es → ¬ fileRow_Compare a b < 0 → ¬ fileRow_Compare b a < 0 → a = b)
    as Heq.
  { intros a b Ha Hb H1 H2. eapply distinct_elem; [done..|]. apply fileRow_Compare_zero.
    rewrite (fileRow_Compare_flip a b) in H2 by auto. lia. }
  split_and!; [|done|].
  - intros a b Ha Hb Hab. rewrite (fileRow_Compare_flip a b) by auto. lia.
  - intros a b c Ha Hb Hc' H1 H2 H3 H4.
    assert (a = b) as -> by auto. assert (b = c) as -> by auto.
    pose proof (fileRow_Compare_flip c c (Hok c Hc') (Hok c Hc')). lia.
Qed.

Lemma sorted_before es i j a b :
  Forall entry_ok es → distinct es → consistent es → (i < j)%nat →
  sortFunc fileRow_Compare es !! i = Some a → sortFunc fileRow_Compare es !! j = Some b →
  fileRow_Compare a b < 0.
Proof.
  intros Hok Hd Hc Hij Ha Hb.
  pose proof (sortFunc_perm fileRow_Compare es) as Hp.
  assert (¬ fileRow_Compare b a < 0) as H.
  { eapply (StronglySorted_lookup (λ a b, ¬ fileRow_Compare b a < 0)); [|done..].
    by apply sortFunc_ordered, consistent_weak. }
  assert (a ∈ es ∧ b ∈ es) as [Hae Hbe].
  { rewrite <- Hp. split; by eapply list_elem_of_lookup_2. }
  rewrite Forall_forall in Hok. rewrite (fileRow_Compare_flip a b) in H by auto.
  destruct (Z.eq_dec (fileRow_Compare a b) 0) as [Hz|]; [|lia].
  apply fileRow_Compare_zero in Hz. exfalso.
  assert (i = j) as ->; [|lia].
  apply (NoDup_lookup (DeviceIdx <$> sortFunc fileRow_Compare es) i j (DeviceIdx a)).
  - by rewrite Hp.
  - by rewrite list_lookup_fmap, Ha.
  - by rewrite list_lookup_fmap, Hb, Hz.
Qed.

(** Whatever the order, some entry becomes global; it is needed only when it is
    valid and of another device. *)
Lemma pick_some es :
  es ≠ [] →
  ∃ g needed, g ∈ es ∧ pick_global li es = Some (g, new_flags (LocalFlags g) needed) ∧
    (needed = true → row_IsInvalid g = false ∧ DeviceIdx g ≠ li).
Proof.
  intros Hne. unfold pick_global.
  set (gi := default 0%nat _).
  assert (is_Some (es !! gi)) as [g Hg].
  { unfold gi. destruct (indexFunc _ _) as [i|] eqn:Ei; simpl.
    - apply indexFunc_Some in Ei as [(x & -> & _) _]. eauto.
    - destruct es; [done|]. eauto. }
  rewrite Hg. eexists g, (negb (_ || _)). split; [by eapply list_elem_of_lookup_2|].
  split; [unfold new_flags; by rewrite if_negb|].
  intros [Hhl Hi]%negb_true_iff%orb_false_iff.
  unfold FlagLocal_IsInvalid in Hi. rewrite has_flag_lor in Hi by done. split; [done|].
  intros Hli. unfold hasLocal in Hhl.
  destruct (indexFunc (λ e, DeviceIdx e =? li) es) as [k|] eqn:Ek.
  - apply orb_false_iff in Hhl as [Hk%Nat.leb_gt _].
    apply indexFunc_Some in Ek as [_ Hbefore]. specialize (Hbefore gi g Hk Hg).
    apply Z.eqb_neq in Hbefore. done.
  - rewrite indexFunc_None in Ek. specialize (Ek g (list_elem_of_lookup_2 _ _ _ Hg)).
    apply Z.eqb_neq in Ek. done.
Qed.

Lemma pick_none : pick_global li [] = None.
Proof. done. Qed.

Lemma hasLocal_spec es gi g :
  Forall entry_ok es → distinct es → consistent es →
  sortFunc fileRow_Compare es !! gi = Some g →
  hasLocal li (sortFunc fileRow_Compare es) gi g = true ↔ up_to_date li es g.
Proof.
  intros Hok Hd Hc Hg. unfold hasLocal, up_to_date.
  pose proof (sortFunc_perm fileRow_Compare es) as Hp.
  pose proof Hok as Hok'. rewrite Forall_forall in Hok'.
  assert (g ∈ es) as Hge by (rewrite <- Hp; by eapply list_elem_of_lookup_2).
  destruct (indexFunc _ _) as [k|] eqn:Ek.
  - apply indexFunc_Some in Ek as [(l & Hl & Hli%Z.eqb_eq) _]. rewrite Hl.
    assert (l ∈ es) as Hle by (rewrite <- Hp; by eapply list_elem_of_lookup_2).
    assert ((k <=? gi)%nat = true ↔ fileRow_Compare l g ≤ 0) as Hk.
    { rewrite Nat.leb_le. destruct (Nat.lt_trichotomy k gi) as [H|[->|H]].
      - pose proof (sorted_before es k gi l g Hok Hd Hc H Hl Hg). split; lia.
      - assert (l = g) as -> by congruence.
        pose proof (fileRow_Compare_flip g g (Hok' g Hge) (Hok' g Hge)). split; lia.
      - pose proof (sorted_before es gi k g l Hok Hd Hc H Hg Hl) as Hgl.
        rewrite (fileRow_Compare_flip g l) by auto. split; lia. }
    rewrite orb_true_iff, Hk. split; [intros H; left; by exists l|].
    intros [(l' & Hl' & Hd' & H)|[H _]]; [|by destruct (H l)].
    assert (l' = l) as -> by (eapply distinct_elem; [done..|congruence]). done.
  - rewrite indexFunc_None in Ek.
    assert (∀ l, l ∈ es → DeviceIdx l ≠ li) as Hno.
    { intros l Hl. rewrite <- Hp in Hl. specialize (Ek l Hl). by apply Z.eqb_neq in Ek. }
    split; [by right|]. intros [(l & Hl & Hli & _)|[_ H]]; [|done]. by destruct (Hno l).
Qed.

Lemma pick_best es g flags :
  Forall entry_ok es → distinct es → consistent es →
  pick_global li (sortFunc fileRow_Compare es) = Some (g, flags) →
  best es g ∧
  ∃ needed, flags = new_flags (LocalFlags g) needed ∧
            (needed = true ↔ row_IsInvalid g = false ∧ ¬ up_to_date li es g).
Proof.
  intros Hok Hd Hc. unfold pick_global.
  pose proof (sortFunc_perm fileRow_Compare es) as Hp.
  set (s := sortFunc _ _) in *. set (gi := default 0%nat _).
  destruct (s !! gi) as [g'|] eqn:Hg; [|done]. intros [= -> <-]. split; [split|].
  - rewrite <- Hp. by eapply list_elem_of_lookup_2.
  - unfold gi in Hg. destruct (indexFunc _ _) as [i|] eqn:Ei; simpl in Hg.
    + left. apply indexFunc_Some in Ei as [(x & Hx & Hv) Hbefore].
      assert (x = g) as -> by congruence. split; [by apply negb_true_iff|].
      intros e He Hev Hne. rewrite <- Hp in He. apply list_elem_of_lookup_1 in He as [j Hj].
      destruct (Nat.lt_trichotomy i j) as [H|[->|H]].
      * eapply (sorted_before es i j); eauto.
      * congruence.
      * specialize (Hbefore j e H Hj). by rewrite Hev in Hbefore.
    + right. rewrite indexFunc_None in Ei. split.
      * intros e He. rewrite <- Hp in He. by apply negb_false_iff, Ei.
      * intros e He Hne. rewrite <- Hp in He. apply list_elem_of_lookup_1 in He as [j Hj].
        destruct j as [|j]; [congruence|]. eapply (sorted_before es 0 (S j)); eauto. lia.
  - exists (negb (hasLocal li s gi g || FlagLocal_IsInvalid (Z.lor (LocalFlags g) FlagLocalGlobal))).
    unfold new_flags. rewrite if_negb. split; [done|].
    rewrite negb_true_iff, orb_false_iff. unfold FlagLocal_IsInvalid at 1.
    rewrite has_flag_lor by done. rewrite <- (hasLocal_spec es gi g) by done. fold s.
    rewrite not_true_iff_false. unfold row_IsInvalid, FlagLocal_IsInvalid. tauto.
Qed.
End pick.

#[export] Instance distinct_proper : Proper ((≡ₚ) ==> iff) distinct.
Proof. intros es es' H. unfold distinct. by rewrite H. Qed.
#[export] Instance consistent_proper : Proper ((≡ₚ) ==> iff) consistent.
Proof. intros es es' H. unfold consistent. by setoid_rewrite H. Qed.
#[export] Instance best_proper : Proper ((≡ₚ) ==> (=) ==> iff) best.
Proof. intros es es' H g _ <-. unfold best. by setoid_rewrite H. Qed.
#[export] Instance up_to_date_proper li : Proper ((≡ₚ) ==> (=) ==> iff) (up_to_date li).
Proof. intros es es' H g _ <-. unfold up_to_date. by setoid_rewrite H. Qed.

Lemma consistent_subset es es' : es ⊆ es' → consistent es' → consistent es.
Proof. intros H Hc a b c Ha Hb Hd. apply Hc; by apply H. Qed.

(** *** From rows to announcements *)

Definition row_ok (r : filesRow) : Prop := ∃ v, vector_wf v ∧ version r = String_ v.

Definition decode (r : filesRow) : fileRow :=
  match scan_fileRow r with
  | Ok e => e
  | _ => MkFileRow (name r) (MkVector []) (device_idx r) (sequence r) (modified r) 0
           (local_flags r) (deleted r)
  end.

(** The announcement without the marks and the number of the row. *)
Definition unmarked (e : fileRow) : fileRow :=
  {| Name := Name e; Version := Version e; DeviceIdx := DeviceIdx e; Sequence := 0;
     Modified := Modified e; Size := Size e; LocalFlags := Z.land (LocalFlags e) keepFlags;
     Deleted := Deleted e |}.

Definition entry (r : filesRow) : fileRow := unmarked (decode r).

Definition rows_of (st : folderDB) (file : string) : list filesRow :=
  filter (λ r, named file r = true) (files st).
Definition entries (st : folderDB) (file : string) : list fileRow :=
  entry <$> rows_of st file.

Lemma elem_rows_of st file r : r ∈ rows_of st file ↔ name r = file ∧ r ∈ files st.
Proof. unfold rows_of, named. rewrite list_elem_of_filter, bool_decide_eq_true. done. Qed.

Lemma scan_decode r : row_ok r → scan_fileRow r = Ok (decode r) ∧ entry_ok (decode r).
Proof.
  intros (v & Hv & Hs). unfold decode, scan_fileRow, entry_ok.
  change (DbString (version r)) with (DbString (version r)). rewrite Hs.
  change (DbString (String_ v)) with (dbVector_Value v). by rewrite dbVector_Scan_Value.
Qed.

Lemma collect_decode rows :
  Forall row_ok rows → collect rows = Ok (decode <$> rows) ∧ Forall entry_ok (decode <$> rows).
Proof.
  induction 1 as [|r rows Hr Hrows [IH1 IH2]]; simpl; [done|].
  destruct (scan_decode r Hr) as [-> ?]. cbn [mbind go_bind]. rewrite IH1. by split; [|constructor].
Qed.

Lemma decode_fields r :
  Name (decode r) = name r ∧ DeviceIdx (decode r) = device_idx r ∧
  Sequence (decode r) = sequence r ∧ LocalFlags (decode r) = local_flags r ∧
  Deleted (decode r) = deleted r.
Proof. unfold decode, scan_fileRow. by destruct (dbVector_Scan _). Qed.

Lemma unmarked_invalid e : row_IsInvalid (unmarked e) = row_IsInvalid e.
Proof.
  unfold row_IsInvalid, unmarked. cbn [LocalFlags]. apply keep_flags_invalid.
Qed.
Lemma unmarked_Compare a b : fileRow_Compare (unmarked a) (unmarked b) = fileRow_Compare a b.
Proof. unfold fileRow_Compare. by rewrite !unmarked_invalid. Qed.

Section unmark.
Variable es : list fileRow.

Lemma elem_unmarked e : e ∈ unmarked <$> es ↔ ∃ e', e = unmarked e' ∧ e' ∈ es.
Proof. apply list_elem_of_fmap. Qed.

Lemma consistent_unmarked : consistent (unmarked <$> es) ↔ consistent es.
Proof.
  split; intros H a b c.
  - intros Ha Hb Hc H1 H2. rewrite <- unmarked_Compare.
    apply (H (unmarked a) (unmarked b) (unmarked c)); rewrite ?unmarked_Compare; try done;
      by apply list_elem_of_fmap_2.
  - rewrite !elem_unmarked. intros (a' & -> & ?) (b' & -> & ?) (c' & -> & ?).
    rewrite !unmarked_Compare. by apply H.
Qed.

Lemma best_unmarked g : best es g → best (unmarked <$> es) (unmarked g).
Proof.
  intros [Hg H]. split; [by apply list_elem_of_fmap_2|]. destruct H as [[Hv H]|[Hi H]].
  - left. rewrite unmarked_invalid. split; [done|]. intros e (e' & -> & He)%elem_unmarked.
    rewrite unmarked_invalid, unmarked_Compare. intros. apply H; congruence.
  - right. split; intros e (e' & -> & He)%elem_unmarked.
    + rewrite unmarked_invalid. auto.
    + rewrite unmarked_Compare. intros. apply H; congruence.
Qed.

Lemma up_to_date_unmarked li g : up_to_date li (unmarked <$> es) (unmarked g) ↔ up_to_date li es g.
Proof.
  unfold up_to_date. setoid_rewrite elem_unmarked. split.
  - intros [(l & (l' & -> & Hl) & Hd & H)|[H Hd]].
    + left. exists l'. rewrite unmarked_Compare in H. done.
    + right. split; [|done]. intros l Hl. apply (H (unmarked l)). eauto.
  - intros [(l & Hl & Hd & H)|[H Hd]].
    + left. exists (unmarked l). rewrite unmarked_Compare. eauto.
    + right. split; [|done]. intros ? (l & -> & Hl). exact (H l Hl).
Qed.
End unmark.

(** ** The state of a database *)

Record db_ok (st : folderDB) : Prop := {
  ok_rows : Forall row_ok (files st);
  ok_sequences : NoDup (sequence <$> files st);
  ok_seq : 0 ≤ files_seq st;
  ok_last : Forall (λ r, 0 < sequence r ≤ files_seq st) (files st);
  ok_names : NoDup ((λ r, (device_idx r, name r)) <$> files st);
  ok_fileinfos : ∀ s, is_Some (fileinfos st !! s) ↔ s ∈ sequence <$> files st;
  ok_devices : ∀ d d' i, devices st !! d = Some i → devices st !! d' = Some i → d = d';
  ok_device_last : ∀ d i, devices st !! d = Some i → i ≤ devices_seq st;
  ok_local : devices st !! LocalDeviceID = Some (localDeviceIdx st);
}.

(** Statements that touch the flags alone. *)
Definition only_flags (f : filesRow → filesRow) : Prop := ∀ r, f r = set_flags r (local_flags (f r)).

Lemma set_flags_eta r : set_flags r (local_flags r) = r.
Proof. by destruct r. Qed.

Lemma mark_global_flags g fl : only_flags (mark_global g fl).
Proof. intros r. unfold mark_global. destruct (_ && _); [done|]. by rewrite set_flags_eta. Qed.
Lemma clear_others_flags g : only_flags (clear_others g).
Proof. intros r. unfold clear_others. destruct (_ && _); [done|]. by rewrite set_flags_eta. Qed.

Lemma map_only_flags {B} (f : filesRow → filesRow) (proj : filesRow → B) l :
  only_flags f → (∀ r fl, proj (set_flags r fl) = proj r) → proj <$> map f l = proj <$> l.
Proof.
  intros Hf Hp. change (map f l) with (f <$> l). rewrite <- list_fmap_compose.
  apply list_fmap_ext. intros i r _. simpl. by rewrite Hf, Hp.
Qed.

Lemma Forall_only_flags (f : filesRow → filesRow) (P : filesRow → Prop) l :
  only_flags f → (∀ r fl, P (set_flags r fl) ↔ P r) → Forall P (map f l) ↔ Forall P l.
Proof.
  intros Hf Hp. rewrite Forall_map. apply Forall_proper; [|done]. intros r. by rewrite Hf, Hp.
Qed.

(** What any number of such statements does. *)
Inductive flag_steps (st : folderDB) : folderDB → Prop :=
  | flag_done : flag_steps st st
  | flag_step f st' : only_flags f → flag_steps (update_rows f st) st' → flag_steps st st'.

Definition unflagged (rs : list filesRow) : list filesRow := (λ r, set_flags r 0) <$> rs.

#[export] Instance flag_steps_trans : Transitive flag_steps.
Proof. intros a b c. induction 1 as [|a f b Hf _ IH]; [done|]. intros. eapply flag_step; eauto. Qed.

(** *** [recalcGlobalForFile] *)

Definition remark (r0 : filesRow) (fl : Z) (r : filesRow) : filesRow :=
  clear_others (decode r0) (mark_global (decode r0) fl r).

Lemma entry_set_flags r fl :
  Z.land fl keepFlags = Z.land (local_flags r) keepFlags → entry (set_flags r fl) = entry r.
Proof.
  intros H. unfold entry, unmarked, decode, scan_fileRow. cbn [set_flags version].
  destruct (dbVector_Scan _); simpl; by rewrite H.
Qed.

Lemma same_sequence st r r' :
  db_ok st → r ∈ files st → r' ∈ files st → sequence r = sequence r' → r = r'.
Proof.
  intros Hok [i Hi]%list_elem_of_lookup_1 [j Hj]%list_elem_of_lookup_1 Hs.
  assert (i = j) as ->; [|congruence].
  apply (NoDup_lookup _ i j (sequence r) (ok_sequences _ Hok)); rewrite list_lookup_fmap.
  - by rewrite Hi.
  - by rewrite Hj, Hs.
Qed.

Lemma same_name st r r' :
  db_ok st → r ∈ files st → r' ∈ files st → device_idx r = device_idx r' → name r = name r' →
  r = r'.
Proof.
  intros Hok [i Hi]%list_elem_of_lookup_1 [j Hj]%list_elem_of_lookup_1 Hs Hn.
  assert (i = j) as ->; [|congruence].
  apply (NoDup_lookup _ i j (device_idx r, name r) (ok_names _ Hok)); rewrite list_lookup_fmap.
  - by rewrite Hi.
  - rewrite Hj. simpl. by rewrite Hs, Hn.
Qed.

Lemma remark_cases st r0 fl r :
  db_ok st → r0 ∈ files st → r ∈ files st →
  (name r ≠ name r0 ∧ remark r0 fl r = r) ∨
  (r = r0 ∧ remark r0 fl r = set_flags r0 fl) ∨
  (name r = name r0 ∧ r ≠ r0 ∧ ∃ fl', remark r0 fl r = set_flags r fl' ∧
     has_flag fl' FlagLocalGlobal = false ∧ has_flag fl' FlagLocalNeeded = false ∧
     Z.land fl' keepFlags = Z.land (local_flags r) keepFlags).
Proof.
  intros Hok H0 Hr. unfold remark, mark_global, clear_others.
  destruct (decode_fields r0) as (-> & -> & -> & _).
  destruct (Z.eqb_spec (sequence r) (sequence r0)) as [Es|Es].
  - assert (r = r0) as -> by (by eapply same_sequence). right. left. split; [done|].
    rewrite Z.eqb_refl. simpl. by rewrite bool_decide_eq_true_2, Z.eqb_refl.
  - rewrite andb_false_r. rewrite (proj2 (Z.eqb_neq _ _) Es). simpl.
    destruct (bool_decide (name r = name r0)) eqn:En; zb; simpl; [|by left].
    right. right. split; [done|]. split; [congruence|].
    destruct (has_flag (local_flags r) markFlags) eqn:Ef.
    + eexists. split; [done|]. rewrite keep_flags_keep. destruct (keep_flags_marks (local_flags r)). done.
    + exists (local_flags r). rewrite set_flags_eta. by destruct (no_mark_flags _ Ef).
Qed.

Lemma update_rows_ok f st : only_flags f → db_ok st → db_ok (update_rows f st).
Proof.
  intros Hf []. split; unfold update_rows;
    cbn [with_files files files_seq fileinfos devices devices_seq localDeviceIdx]; try done.
  - by apply Forall_only_flags.
  - by rewrite map_only_flags.
  - by apply Forall_only_flags.
  - by rewrite map_only_flags.
  - by rewrite map_only_flags.
Qed.

Lemma flag_steps_frame st st' :
  flag_steps st st' →
  st' = with_files st (files st') (counts st') ∧ unflagged (files st') = unflagged (files st).
Proof.
  induction 1 as [st|st f st' Hf _ [IH1 IH2]]; [by destruct st|].
  split; [rewrite IH1 at 1; done|]. rewrite IH2. unfold unflagged, update_rows.
  cbn [with_files files]. by rewrite map_only_flags.
Qed.

Lemma flag_steps_ok st st' : flag_steps st st' → db_ok st → db_ok st'.
Proof. induction 1; [done|]. intros. by apply IHflag_steps, update_rows_ok. Qed.

(** The marks of one name, and of all names. *)
Definition marks_right_at (st : folderDB) (n : string) : Prop :=
  ∀ g r, best (entries st n) g → r ∈ rows_of st n →
    (has_flag (local_flags r) FlagLocalGlobal = true ↔ device_idx r = DeviceIdx g) ∧
    (has_flag (local_flags r) FlagLocalNeeded = true ↔
       device_idx r = DeviceIdx g ∧ row_IsInvalid g = false ∧
       ¬ up_to_date (localDeviceIdx st) (entries st n) g).
Definition marks_right (st : folderDB) : Prop := ∀ n, marks_right_at st n.

(** One row of the name is global and no other row is global or needed; it is
    needed only when it is valid and was announced by another device. *)
Definition marked_at (st : folderDB) (n : string) : Prop :=
  rows_of st n ≠ [] →
  ∃ g, g ∈ rows_of st n ∧
    ∀ r, r ∈ rows_of st n →
      (has_flag (local_flags r) FlagLocalGlobal = true ↔ r = g) ∧
      (has_flag (local_flags r) FlagLocalNeeded = true →
       r = g ∧ FlagLocal_IsInvalid (local_flags r) = false ∧ device_idx r ≠ localDeviceIdx st).
Definition marked (st : folderDB) : Prop := ∀ n, marked_at st n.

Lemma entries_ok st n e : db_ok st → e ∈ entries st n → entry_ok e.
Proof.
  intros Hok (r & -> & [_ Hr]%elem_rows_of)%list_elem_of_fmap.
  pose proof (ok_rows _ Hok) as Hrows. rewrite Forall_forall in Hrows.
  by destruct (scan_decode r (Hrows _ Hr)).
Qed.

Lemma best_unique es g g' : (∀ e, e ∈ es → entry_ok e) → best es g → best es g' → g = g'.
Proof.
  intros Hok [Hge Hg] [Hge' Hg']. destruct (decide (g = g')) as [|Hne]; [done|]. exfalso.
  assert (fileRow_Compare g g' < 0 ∧ fileRow_Compare g' g < 0) as [H1 H2].
  { destruct Hg as [[Hv Hg]|[Hi Hg]], Hg' as [[Hv' Hg']|[Hi' Hg']].
    - auto.
    - rewrite Hi' in Hv by done. done.
    - rewrite Hi in Hv' by done. done.
    - auto. }
  rewrite (fileRow_Compare_flip g g') in H2 by auto. lia.
Qed.

(** The state after the two statements. *)
Section remarking.
Variables (st : folderDB) (r0 : filesRow) (b : bool).
Hypothesis Hok : db_ok st.
Hypothesis H0 : r0 ∈ files st.
Let fl := new_flags (local_flags r0) b.
Let st' := update_rows (clear_others (decode r0)) (update_rows (mark_global (decode r0) fl) st).

Lemma remark_files : files st' = remark r0 fl <$> files st.
Proof. unfold st', update_rows. cbn [with_files files]. by rewrite map_map. Qed.

Lemma remark_name r : name (remark r0 fl r) = name r.
Proof. unfold remark. by rewrite clear_others_flags, mark_global_flags. Qed.

Lemma remark_sequence r : sequence (remark r0 fl r) = sequence r.
Proof. unfold remark. by rewrite clear_others_flags, mark_global_flags. Qed.

Lemma remark_rows m : rows_of st' m = remark r0 fl <$> rows_of st m.
Proof.
  unfold rows_of. rewrite remark_files. clear H0. induction (files st) as [|r l IH]; [done|].
  rewrite fmap_cons, !filter_cons, IH. unfold named. rewrite remark_name.
  by destruct (decide (bool_decide (name r = m) = true)).
Qed.

Lemma remark_other m : m ≠ name r0 → rows_of st' m = rows_of st m.
Proof.
  intros Hm. rewrite remark_rows. rewrite <- (list_fmap_id (rows_of st m)) at 2.
  apply list_fmap_ext. intros i r Hr%list_elem_of_lookup_2.
  apply elem_rows_of in Hr as [Hn Hr].
  destruct (remark_cases st r0 fl r Hok H0 Hr) as [[_ ->]|[[-> _]|[? _]]]; [done|congruence..].
Qed.

Lemma remark_entry r : r ∈ files st → entry (remark r0 fl r) = entry r.
Proof.
  intros Hr. destruct (remark_cases st r0 fl r Hok H0 Hr)
    as [[_ ->]|[[-> ->]|(_ & _ & fl' & -> & _ & _ & Hk)]]; [done| |].
  - apply entry_set_flags. unfold fl. apply keep_flags_new.
  - by apply entry_set_flags.
Qed.

Lemma remark_entries m : entries st' m = entries st m.
Proof.
  unfold entries. rewrite remark_rows, <- list_fmap_compose. apply list_fmap_ext.
  intros i r Hr%list_elem_of_lookup_2. apply elem_rows_of in Hr as [_ Hr]. by apply remark_entry.
Qed.

Lemma remark_flags r :
  r ∈ rows_of st (name r0) →
  has_flag (local_flags (remark r0 fl r)) FlagLocalGlobal = bool_decide (r = r0) ∧
  has_flag (local_flags (remark r0 fl r)) FlagLocalNeeded = bool_decide (r = r0) && b.
Proof.
  intros [Hn Hr]%elem_rows_of.
  destruct (remark_cases st r0 fl r Hok H0 Hr) as [[? _]|[[-> ->]|(_ & Hne & fl' & -> & Hg & Hd & _)]].
  - done.
  - cbn [set_flags local_flags]. unfold fl. rewrite new_flags_global, new_flags_needed.
    by rewrite bool_decide_eq_true_2.
  - cbn [set_flags local_flags]. rewrite Hg, Hd. by rewrite bool_decide_eq_false_2.
Qed.

Lemma remark_marked :
  (b = true → FlagLocal_IsInvalid (local_flags r0) = false ∧ device_idx r0 ≠ localDeviceIdx st) →
  marked_at st' (name r0).
Proof.
  intros Hb _. exists (remark r0 fl r0). rewrite remark_rows. split.
  - apply list_elem_of_fmap_2, elem_rows_of. done.
  - intros r' (r & -> & Hr)%list_elem_of_fmap. destruct (remark_flags r Hr) as [-> ->].
    rewrite andb_true_iff, !bool_decide_eq_true. apply elem_rows_of in Hr as [Hn Hr].
    split.
    + split; [by intros ->|]. intros H. apply (same_sequence st); [done..|].
      apply (f_equal sequence) in H. by rewrite !remark_sequence in H.
    + intros [-> Hb']. split; [done|]. destruct (Hb Hb') as [Hv Hd].
      destruct (remark_cases st r0 fl r0 Hok H0 H0) as [[? _]|[[_ ->]|(_ & ? & _)]]; [done| |done].
      cbn [set_flags local_flags device_idx]. unfold fl. by rewrite new_flags_invalid.
Qed.

Lemma remark_right :
  best (entries st (name r0)) (entry r0) →
  (b = true ↔ row_IsInvalid (entry r0) = false ∧
              ¬ up_to_date (localDeviceIdx st) (entries st (name r0)) (entry r0)) →
  marks_right_at st' (name r0).
Proof.
  intros Hbest Hb g r' Hg. rewrite remark_entries in *. rewrite remark_rows.
  assert (g = entry r0) as ->.
  { eapply best_unique; [|exact Hg|exact Hbest]. intros e. by apply entries_ok. }
  intros (r & -> & Hr)%list_elem_of_fmap. destruct (remark_flags r Hr) as [-> ->].
  rewrite andb_true_iff, !bool_decide_eq_true, Hb.
  assert (device_idx (remark r0 fl r) = DeviceIdx (entry r0) ↔ r = r0) as Hdev.
  { unfold remark. rewrite clear_others_flags, mark_global_flags.
    destruct (decode_fields r0) as (_ & Hd & _). cbn [set_flags device_idx].
    unfold entry, unmarked. cbn [DeviceIdx]. rewrite Hd. split; [|by intros ->].
    apply elem_rows_of in Hr as [? Hr]. by intros; eapply same_name. }
  unfold st'. cbn [update_rows with_files localDeviceIdx]. tauto.
Qed.
End remarking.

Lemma entry_set_sequence r seq : entry (with_sequence r seq) = entry r.
Proof.
  unfold entry, unmarked, decode, scan_fileRow. cbn [with_sequence version].
  by destruct (dbVector_Scan _).
Qed.

Lemma marks_same st st' n :
  localDeviceIdx st' = localDeviceIdx st → rows_of st' n = rows_of st n →
  marks_right_at st n → marks_right_at st' n.
Proof. unfold marks_right_at, entries. by intros -> ->. Qed.

Lemma marked_same st st' n :
  localDeviceIdx st' = localDeviceIdx st → rows_of st' n = rows_of st n →
  marked_at st n → marked_at st' n.
Proof. unfold marked_at. by intros -> ->. Qed.

Section recalc.
Context {E : Engine}.

Lemma distinct_entries st n : db_ok st → distinct (entries st n).
Proof.
  intros Hok. unfold distinct, entries. rewrite <- list_fmap_compose.
  apply NoDup_fmap_2_strong.
  - intros r r' [Hn Hr]%elem_rows_of [Hn' Hr']%elem_rows_of. simpl.
    destruct (decode_fields r) as (_ & -> & _), (decode_fields r') as (_ & -> & _).
    intros Hd. eapply same_name; [done..|congruence].
  - apply NoDup_filter. eapply NoDup_fmap_1, ok_sequences, Hok.
Qed.

Lemma recalc_effect st n :
  db_ok st →
  (rows_of st n = [] ∧ recalcGlobalForFile st n = Ok st) ∨
  ∃ r0 b,
    r0 ∈ rows_of st n ∧
    recalcGlobalForFile st n =
      Ok (update_rows (clear_others (decode r0))
            (update_rows (mark_global (decode r0) (new_flags (local_flags r0) b)) st)) ∧
    (b = true → FlagLocal_IsInvalid (local_flags r0) = false ∧ device_idx r0 ≠ localDeviceIdx st) ∧
    (consistent (entries st n) →
     best (entries st n) (entry r0) ∧
     (b = true ↔ row_IsInvalid (entry r0) = false ∧
                 ¬ up_to_date (localDeviceIdx st) (entries st n) (entry r0))).
Proof.
  intros Hok. unfold recalcGlobalForFile. change (filter _ (files st)) with (rows_of st n).
  pose proof (scan_perm (rows_of st n)) as Hp.
  destruct (collect_decode (scan (rows_of st n))) as [-> Hes].
  { rewrite Hp. pose proof (ok_rows _ Hok) as Hr. rewrite Forall_forall in *.
    intros r [_ ?]%elem_rows_of. auto. }
  cbn [mbind go_bind]. set (es := decode <$> scan (rows_of st n)) in *.
  assert (entries st n ≡ₚ unmarked <$> es) as Hent.
  { unfold entries, es. rewrite <- list_fmap_compose. by rewrite Hp. }
  destruct (decide (rows_of st n = [])) as [Hnil|Hne].
  { left. split; [done|]. replace (sortFunc fileRow_Compare es) with (@nil fileRow); [done|].
    symmetry. apply Permutation_nil_r. rewrite sortFunc_perm. unfold es. by rewrite Hp, Hnil. }
  right. destruct (pick_some (localDeviceIdx st) (sortFunc fileRow_Compare es)) as (g & b & Hg & Hpick & Hb).
  { intros H. apply Hne. apply Permutation_nil_r. rewrite <- Hp.
    pose proof (sortFunc_perm fileRow_Compare es) as H'. rewrite H in H'.
    apply Permutation_nil_l in H'. symmetry in H'.
    by apply fmap_nil_inv in H' as ->. }
  rewrite Hpick. rewrite sortFunc_perm in Hg.
  apply list_elem_of_fmap in Hg as (r0 & -> & Hr0). rewrite Hp in Hr0.
  destruct (decode_fields r0) as (_ & Hdev & _ & Hf & _).
  unfold row_IsInvalid in Hb. rewrite Hf, Hdev in *.
  exists r0, b. split; [done|]. split; [done|]. split; [done|]. intros Hc. rewrite Hent in Hc.
  pose proof (distinct_entries st n Hok) as Hd. rewrite Hent in Hd.
  destruct (pick_best (localDeviceIdx st) es (decode r0) (new_flags (local_flags r0) b))
    as (Hbest & b' & Hb' & Hneed); [done| |by apply consistent_unmarked|done|].
  { unfold distinct in *. by rewrite <- list_fmap_compose in Hd. }
  rewrite Hf in Hb'. assert (b' = b) as ->.
  { apply (f_equal (λ f, has_flag f FlagLocalNeeded)) in Hb'. by rewrite !new_flags_needed in Hb'. }
  rewrite Hent. split; [by apply best_unmarked|].
  unfold entry. rewrite unmarked_invalid. by rewrite up_to_date_unmarked.
Qed.

Lemma recalc_spec st n :
  db_ok st →
  ∃ st', recalcGlobalForFile st n = Ok st' ∧ flag_steps st st' ∧
    (∀ m, entries st' m = entries st m) ∧
    (∀ m, m ≠ n → rows_of st' m = rows_of st m) ∧
    marked_at st' n ∧
    (consistent (entries st n) → marks_right_at st' n).
Proof.
  intros Hok. destruct (recalc_effect st n Hok) as [[Hn Hr]|(r0 & b & Hr0 & Hr & Hb & Hc)].
  - exists st. split; [done|]. split; [apply flag_done|]. do 2 (split; [done|]).
    split; [by intros Hne; rewrite Hn in Hne|].
    intros _ g r _. rewrite Hn. by intros ?%elem_of_nil.
  - pose proof Hr0 as [<- H0]%elem_rows_of. eexists. split; [exact Hr|]. split_and!.
    + eapply flag_step, flag_step, flag_done; [apply mark_global_flags|apply clear_others_flags].
    + intros m. by apply remark_entries.
    + intros m Hm. by apply remark_other.
    + by apply remark_marked.
    + intros Hcons. destruct (Hc Hcons). by apply remark_right.
Qed.

Lemma best_exists st n :
  db_ok st → consistent (entries st n) → rows_of st n ≠ [] →
  ∃ r, r ∈ rows_of st n ∧ best (entries st n) (entry r).
Proof.
  intros Hok Hc Hne. destruct (recalc_effect st n Hok) as [[? _]|(r0 & b & Hr0 & _ & _ & H)]; [done|].
  exists r0. destruct (H Hc). done.
Qed.

Lemma recalc_all_spec names st :
  db_ok st →
  ∃ st', recalc_all st names = Ok st' ∧ flag_steps st st' ∧
    (∀ m, entries st' m = entries st m) ∧
    (∀ m, m ∉ names → rows_of st' m = rows_of st m) ∧
    (∀ m, m ∈ names → marked_at st' m) ∧
    (∀ m, m ∈ names → consistent (entries st m) → marks_right_at st' m).
Proof.
  revert st. induction names as [|n names IH]; intros st Hok; simpl.
  { exists st. split; [done|]. split; [apply flag_done|]. do 2 (split; [done|]).
    split; by intros m ?%elem_of_nil. }
  destruct (recalc_spec st n Hok) as (st1 & -> & Hs1 & He1 & Ho1 & Hm1 & Hr1). cbn [mbind go_bind].
  destruct (IH st1) as (st2 & -> & Hs2 & He2 & Ho2 & Hm2 & Hr2); [by eapply flag_steps_ok|].
  assert (localDeviceIdx st2 = localDeviceIdx st1) as Hl.
  { destruct (flag_steps_frame _ _ Hs2) as [-> _]. done. }
  exists st2. split_and!; try done.
  - by transitivity st1.
  - intros m. by rewrite He2.
  - intros m [? ?]%not_elem_of_cons. rewrite Ho2, Ho1; done.
  - intros m Hm. destruct (decide (m ∈ names)) as [|Hni]; [by apply Hm2|].
    apply elem_of_cons in Hm as [->|]; [|done]. exact (marked_same st1 st2 n Hl (Ho2 n Hni) Hm1).
  - intros m Hm Hc. destruct (decide (m ∈ names)) as [|Hni]; [apply Hr2; [done|by rewrite He1]|].
    apply elem_of_cons in Hm as [->|]; [|done].
    eapply marks_same; [exact Hl|by apply Ho2|by apply Hr1].
Qed.
End recalc.

(** ** Deleting rows *)

Lemma delete_rows_rows p st n : rows_of (delete_rows p st) n = filter (λ r, p r = false) (rows_of st n).
Proof. unfold rows_of, delete_rows. cbn [files]. rewrite !list_filter_filter. by apply list_filter_iff; tauto. Qed.

Lemma elem_delete_rows p st n r :
  r ∈ rows_of (delete_rows p st) n ↔ r ∈ rows_of st n ∧ p r = false.
Proof. rewrite delete_rows_rows, list_elem_of_filter. tauto. Qed.

Lemma delete_fileinfos (gone : list filesRow) (m : gmap Z bepFileInfo) s :
  fold_left (λ m r, delete (sequence r) m) gone m !! s =
  if bool_decide (s ∈ sequence <$> gone) then None else m !! s.
Proof.
  revert m. induction gone as [|r gone IH]; intros m; cbn [fold_left]; [done|].
  rewrite IH, fmap_cons. destruct (decide (s = sequence r)) as [->|Hne].
  - rewrite (bool_decide_eq_true_2 (_ ∈ _ :: _)) by left. rewrite lookup_delete_eq.
    by case_bool_decide.
  - rewrite lookup_delete_ne by done. repeat case_bool_decide; set_solver.
Qed.

Lemma delete_rows_ok p st : db_ok st → db_ok (delete_rows p st).
Proof.
  intros []. split; unfold delete_rows; cbn [files files_seq fileinfos devices devices_seq localDeviceIdx];
    try done.
  - rewrite Forall_forall in *. intros r [_ ?]%list_elem_of_filter. auto.
  - eapply sublist_NoDup; [exact ok_sequences0|]. apply fmap_sublist, sublist_filter.
  - rewrite Forall_forall in *. intros r [_ ?]%list_elem_of_filter. auto.
  - eapply sublist_NoDup; [exact ok_names0|]. apply fmap_sublist, sublist_filter.
  - intros s. rewrite delete_fileinfos. case_bool_decide as Hs.
    + split; [by intros []|]. rewrite list_elem_of_fmap in *.
      destruct Hs as (r & -> & [Hp Hr]%list_elem_of_filter).
      intros (r' & Hs & [Hp' Hr']%list_elem_of_filter).
      assert (r = r') as ->; [|congruence]. eapply (same_sequence st); [by split|done..].
    + rewrite ok_fileinfos0, !list_elem_of_fmap. split; intros (r & -> & Hr).
      * exists r. split; [done|]. apply list_elem_of_filter. split; [|done].
        apply not_true_iff_false. intros Hp. apply Hs, list_elem_of_fmap.
        exists r. by rewrite list_elem_of_filter.
      * apply list_elem_of_filter in Hr as [_ ?]. eauto.
Qed.

(** As long as the global row of a name is kept, and the local row with it, the
    marks stay right: this is why [recalcGlobalForFolder] looks at the names
    without a global row only. *)
Lemma delete_keeps_marks `{Engine} p st n r :
  db_ok st → consistent (entries st n) → marks_right_at st n →
  (∀ l, l ∈ files st → device_idx l = localDeviceIdx st → p l = false) →
  r ∈ rows_of (delete_rows p st) n → has_flag (local_flags r) FlagLocalGlobal = true →
  marks_right_at (delete_rows p st) n.
Proof.
  intros Hok Hc Hm Hloc [Hr Hp]%elem_delete_rows Hg.
  destruct (best_exists st n Hok Hc) as (r0 & Hr0 & Hb).
  { intros Hnil. rewrite Hnil in Hr. by apply elem_of_nil in Hr. }
  pose proof (Hm _ _ Hb Hr) as [[Hd _] _]. specialize (Hd Hg).
  assert (r = r0) as <-.
  { apply elem_rows_of in Hr as [? ?], Hr0 as [? ?]. eapply same_name; [done..| |congruence].
    rewrite Hd. destruct (decode_fields r0) as (_ & E & _). done. }
  assert (entries (delete_rows p st) n ⊆ entries st n) as Hsub.
  { intros e. unfold entries. rewrite !list_elem_of_fmap.
    intros (r' & -> & [? _]%elem_delete_rows). eauto. }
  assert (entry r ∈ entries (delete_rows p st) n) as Hin.
  { apply list_elem_of_fmap_2, elem_delete_rows. done. }
  assert (best (entries (delete_rows p st) n) (entry r)) as Hb'.
  { destruct Hb as [_ [[Hv Hb]|[Hi Hb]]]; (split; [done|]); [left|right]; split; auto. }
  intros g r' Hg' Hr'. assert (g = entry r) as ->.
  { eapply best_unique; [|exact Hg'|exact Hb']. intros e He. apply Hsub in He.
    by eapply entries_ok. }
  apply elem_delete_rows in Hr' as [Hr' _]. destruct (Hm _ _ Hb Hr') as [-> ->].
  split; [done|]. cbn [delete_rows localDeviceIdx].
  assert (up_to_date (localDeviceIdx st) (entries (delete_rows p st) n) (entry r) ↔
          up_to_date (localDeviceIdx st) (entries st n) (entry r)) as ->; [|done].
  assert (∀ l, l ∈ entries st n → DeviceIdx l = localDeviceIdx st →
               l ∈ entries (delete_rows p st) n) as Hl.
  { intros l (rl & -> & Hrl)%list_elem_of_fmap Hdl. apply list_elem_of_fmap_2, elem_delete_rows.
    split; [done|]. apply elem_rows_of in Hrl as [_ Hrl]. apply Hloc; [done|].
    destruct (decode_fields rl) as (_ & E & _). by rewrite <- E. }
  unfold up_to_date. split; (intros [(l & Hl1 & Hl2 & Hl3)|[Hl1 Hl2]]; [left; exists l; auto|right]).
  - split; [|done]. intros l Hle Hld. by eapply Hl1, Hld; apply Hl.
  - split; [|done]. intros l Hle. by apply Hl1, Hsub.
Qed.

Lemma delete_keeps_marked p st n r :
  marked_at st n → r ∈ rows_of (delete_rows p st) n →
  has_flag (local_flags r) FlagLocalGlobal = true → marked_at (delete_rows p st) n.
Proof.
  intros Hm Hr Hg _. pose proof Hr as [Hr' _]%elem_delete_rows.
  destruct Hm as (g & Hgr & Hm). { intros Hnil. rewrite Hnil in Hr'. by apply elem_of_nil in Hr'. }
  destruct (Hm r Hr') as [[E _] _]. specialize (E Hg) as ->. exists g. split; [done|].
  intros r' [Hr'' _]%elem_delete_rows. by apply Hm.
Qed.

(** ** Inserting rows *)

Lemma insert_rows_of r st m :
  rows_of (insert_or_replace r st).1 m =
  rows_of (delete_rows (conflicts r) st) m ++
  (if bool_decide (name r = m) then [with_sequence r (insert_or_replace r st).2] else []).
Proof.
  unfold insert_or_replace, rows_of. cbn [fst snd files]. rewrite filter_app. f_equal.
  unfold named. rewrite filter_cons, filter_nil. cbn [with_sequence name].
  by destruct (bool_decide (name r = m)).
Qed.

Lemma insert_sequence r st : (insert_or_replace r st).2 = files_seq st + 1.
Proof. done. Qed.

Lemma insert_blocklist_files f local skip st :
  files (insert_blocklist f local skip st) = files st ∧
  files_seq (insert_blocklist f local skip st) = files_seq st ∧
  fileinfos (insert_blocklist f local skip st) = fileinfos st ∧
  devices (insert_blocklist f local skip st) = devices st ∧
  devices_seq (insert_blocklist f local skip st) = devices_seq st ∧
  localDeviceIdx (insert_blocklist f local skip st) = localDeviceIdx st ∧
  indexids (insert_blocklist f local skip st) = indexids st ∧
  counts (insert_blocklist f local skip st) = counts st.
Proof. unfold insert_blocklist. by destruct (0 <? _)%nat. Qed.

Lemma insert_ok st r f local skip w :
  db_ok st → row_ok r →
  ∃ st', insert_fileinfo (insert_or_replace r st).2 w
           (insert_blocklist f local skip (insert_or_replace r st).1) = Ok st' ∧
    db_ok st' ∧ files st' = files (insert_or_replace r st).1 ∧
    localDeviceIdx st' = localDeviceIdx st ∧ files_seq st' = files_seq st + 1 ∧
    fileinfos st' = <[files_seq st + 1 := w]> (fileinfos (delete_rows (conflicts r) st)) ∧
    devices st' = devices st ∧ blocklists st' = blocklists (insert_blocklist f local skip st) ∧
    indexids st' = indexids_seq (indexids st) (with_sequence r (files_seq st + 1)).
Proof.
  intros Hok Hr. pose proof (delete_rows_ok (conflicts r) st Hok) as Hd.
  set (st1 := (insert_or_replace r st).1).
  destruct (insert_blocklist_files f local skip st1) as (E1 & E2 & E3 & E4 & E5 & E6 & E7 & E8).
  unfold insert_fileinfo. rewrite insert_sequence, E3.
  set (std := delete_rows (conflicts r) st) in *.
  assert (fileinfos std !! (files_seq st + 1) = None) as Hnone.
  { apply eq_None_not_Some. rewrite (ok_fileinfos _ Hd), list_elem_of_fmap.
    intros (r' & E & Hr'). pose proof (ok_last _ Hd) as Hl. rewrite Forall_forall in Hl.
    specialize (Hl _ Hr'). change (files_seq std) with (files_seq st) in Hl. lia. }
  change (fileinfos st1) with (fileinfos std). rewrite Hnone.
  eexists. split; [reflexivity|].
  cbn [files localDeviceIdx files_seq fileinfos devices indexids counts blocklists].
  rewrite ?E1, ?E2, ?E3, ?E4, ?E5, ?E6, ?E7, ?E8.
  split; [|do 5 (split; [done|]); split; [|done];
           unfold insert_blocklist; by destruct (0 <? _)%nat].
  change (files st1) with (files std ++ [with_sequence r (files_seq st + 1)]).
  change (fileinfos st1) with (fileinfos std). destruct Hd.
  assert (files_seq st + 1 ∉ sequence <$> files std) as Hfresh.
  { rewrite <- ok_fileinfos0, Hnone. by intros []. }
  split; cbn [files localDeviceIdx files_seq fileinfos devices devices_seq];
    rewrite ?E1, ?E2, ?E3, ?E4, ?E5, ?E6; try done.
  - apply Forall_app. split; [done|]. constructor; [exact Hr|done].
  - change (files st1) with (files std ++ [with_sequence r (files_seq st + 1)]).
    rewrite fmap_app. apply NoDup_app. split_and!; [done| |apply NoDup_singleton].
    intros s Hs ->%list_elem_of_singleton. done.
  - change (files_seq st1) with (files_seq std + 1). lia.
  - apply Forall_app. change (files_seq st1) with (files_seq std + 1). split.
    + eapply Forall_impl; [exact ok_last0|]. simpl. lia.
    + constructor; [|done]. cbn [with_sequence sequence]. change (files_seq std) with (files_seq st) in *. lia.
  - change (files st1) with (files std ++ [with_sequence r (files_seq st + 1)]).
    rewrite fmap_app. apply NoDup_app. split_and!; [done| |apply NoDup_singleton].
    intros x Hx ->%list_elem_of_singleton.
    apply list_elem_of_fmap in Hx as (r' & E & [Hc _]%list_elem_of_filter). cbn in E.
    injection E as E5' E6'. unfold conflicts in Hc. rewrite <- E5', <- E6', Z.eqb_refl in Hc.
    by rewrite bool_decide_eq_true_2 in Hc.
  - intros s. change (files st1) with (files std ++ [with_sequence r (files_seq st + 1)]).
    change (fileinfos st1) with (fileinfos std).
    rewrite fmap_app, elem_of_app.
    change (sequence <$> [with_sequence r (files_seq st + 1)]) with [files_seq st + 1].
    rewrite list_elem_of_singleton, lookup_insert_is_Some, ok_fileinfos0. destruct (decide (files_seq st + 1 = s)) as [<-|]; naive_solver.
Qed.

(** ** [Update] *)

Section updating.
Context {E : Engine}.
Variable sha256 : list Z → list Z.
Variable NormalizedFilename : string → string.

Abbreviation stored := (stored_form sha256 NormalizedFilename).

(** The row that is inserted for a file. *)
Definition new_row (deviceIdx : Z) (local : bool) (f : FileInfo) : filesRow :=
  file_row deviceIdx (if local then None else Some (fSequence f)) (stored f).

Record update_file_result (st : folderDB) (d : Z) (local skip : bool) (f : FileInfo)
    (st' : folderDB) : Prop := {
  uf_ok : db_ok st';
  uf_local : localDeviceIdx st' = localDeviceIdx st;
  uf_devices : devices st' = devices st;
  uf_seq : files_seq st' = files_seq st + 1;
  uf_files : unflagged (files st') =
    unflagged (files (delete_rows (conflicts (new_row d local f)) st) ++
               [with_sequence (new_row d local f) (files_seq st + 1)]);
  uf_other m : m ≠ NormalizedFilename (fName f) →
    rows_of st' m = rows_of (delete_rows (conflicts (new_row d local f)) st) m;
  uf_entries : entries st' (NormalizedFilename (fName f)) =
    entries (delete_rows (conflicts (new_row d local f)) st) (NormalizedFilename (fName f)) ++
    [entry (new_row d local f)];
  uf_marked : marked_at st' (NormalizedFilename (fName f));
  uf_right : consistent (entries st' (NormalizedFilename (fName f))) →
    marks_right_at st' (NormalizedFilename (fName f));
  uf_stored : ∃ w,
    FileInfo_ToWire (strip_blocks (stored f) (if local then files_seq st + 1 else fSequence f)) true
      = Ok w ∧
    fileinfos st' = <[files_seq st + 1 := w]>
      (fileinfos (delete_rows (conflicts (new_row d local f)) st));
  uf_blocklists : blocklists st' = blocklists (insert_blocklist (stored f) local skip st);
  uf_indexids : indexids st' =
    indexids_seq (indexids st) (with_sequence (new_row d local f) (files_seq st + 1));
}.

Lemma new_row_ok d local f : vector_wf (fVersion f) → row_ok (new_row d local f).
Proof. intros Hv. by exists (fVersion f). Qed.

Lemma update_file_spec st d local skip f st' :
  db_ok st → vector_wf (fVersion f) →
  update_file sha256 NormalizedFilename st d local skip f = Ok st' →
  update_file_result st d local skip f st'.
Proof.
  intros Hok Hv. unfold update_file.
  change (file_row d (if local then None else Some (fSequence (stored f))) (stored f))
    with (new_row d local f).
  set (r := new_row d local f).
  rewrite (surjective_pairing (insert_or_replace r st)).
  change (if local then (insert_or_replace r st).2 else fSequence (stored f))
    with (if local then files_seq st + 1 else fSequence f).
  destruct (FileInfo_ToWire _ true) as [w| |] eqn:Ew; [|done..]. cbn [mbind go_bind].
  destruct (insert_ok st r (stored f) local skip w Hok (new_row_ok d local f Hv))
    as (st1 & -> & Hok1 & Hf1 & Hl1 & Hs1 & Hw1 & Hd1 & Hb1 & Hi1). cbn [mbind go_bind].
  change (fName (stored f)) with (NormalizedFilename (fName f)).
  destruct (recalc_spec st1 (NormalizedFilename (fName f)) Hok1)
    as (st2 & -> & Hs & He & Ho & Hm & Hr). intros [= ->].
  destruct (flag_steps_frame _ _ Hs) as [Hfr Hun].
  assert (∀ m, rows_of st1 m = rows_of (insert_or_replace r st).1 m) as Hrows.
  { intros m. unfold rows_of. by rewrite Hf1. }
  split; fold r; try (rewrite Hfr; done).
  - by eapply flag_steps_ok.
  - by rewrite Hun, Hf1.
  - intros m Hne. rewrite Ho by done. rewrite Hrows, insert_rows_of, bool_decide_eq_false_2.
    + apply app_nil_r.
    + intros Hn. apply Hne. by rewrite <- Hn.
  - rewrite He. unfold entries. rewrite Hrows, insert_rows_of, fmap_app.
    rewrite bool_decide_eq_true_2 by done. f_equal. rewrite <- (entry_set_sequence r) at 1. done.
  - exact Hm.
  - rewrite He. done.
  - exists w. split; [done|]. by rewrite Hfr.
Qed.

Lemma stored_is_truncated f seq : ftruncated (strip_blocks (stored f) seq) = ftruncated f.
Proof. done. Qed.

Lemma update_file_total st d local skip f :
  db_ok st → vector_wf (fVersion f) → ftruncated f = false →
  ∃ st', update_file sha256 NormalizedFilename st d local skip f = Ok st'.
Proof.
  intros Hok Hv Ht. unfold update_file.
  change (file_row d (if local then None else Some (fSequence (stored f))) (stored f))
    with (new_row d local f).
  rewrite (surjective_pairing (insert_or_replace (new_row d local f) st)).
  unfold FileInfo_ToWire. rewrite stored_is_truncated, Ht. cbn [andb mbind go_bind].
  match goal with |- context [insert_fileinfo _ ?w _] =>
    destruct (insert_ok st (new_row d local f) (stored f) local skip w Hok (new_row_ok d local f Hv))
      as (st1 & -> & Hok1 & _) end.
  cbn [mbind go_bind]. destruct (recalc_spec st1 (fName (stored f)) Hok1) as (st2 & -> & _). eauto.
Qed.
End updating.

(** ** Recalculating a folder *)

Lemma elem_names_without_global rows n :
  n ∈ names_without_global rows ↔
  (∃ r, r ∈ rows ∧ name r = n) ∧
  ∀ r, r ∈ rows → name r = n → has_flag (local_flags r) FlagLocalGlobal = false.
Proof.
  unfold names_without_global. rewrite elem_of_remove_dups.
  change (map name ?l) with (name <$> l). rewrite list_elem_of_fmap.
  setoid_rewrite list_elem_of_filter.
  assert (∀ m, has_global rows m = false ↔
    ∀ r, r ∈ rows → name r = m → has_flag (local_flags r) FlagLocalGlobal = false) as Hg.
  { intros m. unfold has_global. rewrite <- not_true_iff_false, existsb_exists.
    setoid_rewrite <- list_elem_of_In. setoid_rewrite andb_true_iff. unfold named.
    setoid_rewrite bool_decide_eq_true. split.
    - intros H r Hr Hn. apply not_true_iff_false. intros Hf. apply H. by exists r.
    - intros H (r & Hr & Hn & Hf). by rewrite H in Hf. }
  setoid_rewrite Hg. naive_solver.
Qed.

Section folder.
Context {E : Engine}.

Lemma recalcGlobalForFolder_spec st :
  db_ok st →
  ∃ st', recalcGlobalForFolder st = Ok st' ∧ flag_steps st st' ∧
    ((∀ n r, r ∈ rows_of st n → has_flag (local_flags r) FlagLocalGlobal = true →
             marked_at st n) → marked st') ∧
    ((∀ n, consistent (entries st n)) →
     (∀ n r, r ∈ rows_of st n → has_flag (local_flags r) FlagLocalGlobal = true →
             marks_right_at st n) → marks_right st').
Proof.
  intros Hok. unfold recalcGlobalForFolder.
  set (names := names_without_global (scan (files st))).
  assert (∀ n, n ∉ names →
    rows_of st n = [] ∨
    ∃ r, r ∈ rows_of st n ∧ has_flag (local_flags r) FlagLocalGlobal = true) as Hnames.
  { intros n Hn. destruct (rows_of st n) as [|r0 l] eqn:El; [by left|right]. rewrite <- El.
    destruct (existsb (λ r, has_flag (local_flags r) FlagLocalGlobal) (rows_of st n)) eqn:Ex.
    - apply existsb_exists in Ex as (r & Hr%list_elem_of_In & Hf). eauto.
    - exfalso. apply Hn, elem_names_without_global. setoid_rewrite scan_perm. split.
      + exists r0. assert (r0 ∈ rows_of st n) as [? ?]%elem_rows_of by (rewrite El; left). done.
      + intros r Hr Hnr. apply not_true_iff_false. intros Hf.
        rewrite <- not_true_iff_false, existsb_exists in Ex. apply Ex. exists r.
        by rewrite <- list_elem_of_In, elem_rows_of. }
  destruct (recalc_all_spec names st Hok) as (st' & -> & Hs & He & Ho & Hm & Hr).
  destruct (flag_steps_frame _ _ Hs) as [Hfr _].
  exists st'. split_and!; [done..| |].
  - intros H n. destruct (decide (n ∈ names)) as [|Hn]; [auto|].
    apply (marked_same st); [by rewrite Hfr|by apply Ho|]. destruct (Hnames n Hn) as [Hnil|(r & Hr1 & Hr2)]; [|eauto].
    by intros Hne; rewrite Hnil in Hne.
  - intros Hc H n. destruct (decide (n ∈ names)) as [|Hn]; [auto|].
    apply (marks_same st); [by rewrite Hfr|by apply Ho|].
    destruct (Hnames n Hn) as [Hnil|(r & Hr1 & Hr2)]; [|eauto].
    intros g r _. rewrite Hnil. by intros ?%elem_of_nil.
Qed.

(** *** Devices *)

Lemma deviceIdxLocked_spec st device :
  db_ok st →
  let st' := (deviceIdxLocked st device).1 in
  db_ok st' ∧ files st' = files st ∧ localDeviceIdx st' = localDeviceIdx st ∧
  fileinfos st' = fileinfos st ∧ files_seq st' = files_seq st ∧
  devices st' !! device = Some (deviceIdxLocked st device).2 ∧
  counts st' = counts st ∧ indexids st' = indexids st.
Proof.
  intros Hok. unfold deviceIdxLocked. destruct (devices st !! device) as [idx|] eqn:Ed; [done|].
  cbn [fst snd]. split_and!; try done; [|by cbn; rewrite lookup_insert_eq].
  destruct Hok. split; cbn [files files_seq fileinfos devices devices_seq localDeviceIdx]; try done.
  - intros d d' i. destruct (decide (d = device)) as [->|], (decide (d' = device)) as [->|];
      rewrite ?lookup_insert_eq, ?lookup_insert_ne by done; try done.
    + intros [= <-] H%ok_device_last0. lia.
    + intros H%ok_device_last0 [= <-]. lia.
    + by apply ok_devices0.
  - intros d i. destruct (decide (d = device)) as [->|].
    + rewrite lookup_insert_eq. intros [= <-]. lia.
    + rewrite lookup_insert_ne by done. intros ?%ok_device_last0. lia.
  - rewrite lookup_insert_ne; [done|]. intros ->. congruence.
Qed.

Lemma remote_device st d i :
  db_ok st → devices st !! d = Some i → d ≠ LocalDeviceID → i ≠ localDeviceIdx st.
Proof. intros Hok Hd Hne ->. apply Hne. eapply ok_devices; [done|exact Hd|]. apply Hok. Qed.

Lemma delete_device_ok st device :
  db_ok st → device ≠ LocalDeviceID → db_ok (delete_device st device).
Proof.
  intros Hok Hne. unfold delete_device. destruct (devices st !! device) as [idx|]; [|done].
  destruct (delete_rows_ok (λ r, device_idx r =? idx) st Hok).
  split; cbn [files files_seq fileinfos devices devices_seq localDeviceIdx]; try done.
  - intros d d' i [_ H1]%lookup_delete_Some [_ H2]%lookup_delete_Some. by eapply ok_devices0.
  - intros d i [_ H1]%lookup_delete_Some. by eapply ok_device_last0.
  - by rewrite lookup_delete_ne.
Qed.
End folder.

(** ** Properties *)

(** The operations that change the rows. *)
Inductive operation :=
  | OpUpdate (device : list Z) (fs : list FileInfo) (skipBlockIndex : bool)
  | OpDropDevice (device : list Z)
  | OpDropAllFiles (device : list Z)
  | OpDropFilesNamed (device : list Z) (names : list string).

Section properties.
Context {E : Engine}.
Variable sha256 : list Z → list Z.
Variable NormalizedFilename : string → string.

Definition perform (st : folderDB) (op : operation) : folderDB * go unit :=
  match op with
  | OpUpdate device fs skip => Update sha256 NormalizedFilename st device fs skip
  | OpDropDevice device => DropDevice st device
  | OpDropAllFiles device => DropAllFiles st device
  | OpDropFilesNamed device names => DropFilesNamed NormalizedFilename st device names
  end.

(** The sequence numbers a device uses, with the names they stand for: those of
    its rows and those of the files it announces now. *)
Definition numbers (st : folderDB) (device : list Z) (fs : list FileInfo) : list (Z * string) :=
  omap (λ r, if device_idx r =? (deviceIdxLocked st device).2
             then (λ s, (s, name r)) <$> remote_sequence r else None) (files st) ++
  map (λ f, (fSequence f, NormalizedFilename (fName f))) fs.

(** No number stands for two names; the local device has no numbers. *)
Definition numbers_ok (st : folderDB) (device : list Z) (fs : list FileInfo) : Prop :=
  device = LocalDeviceID ∨
  ∀ s n n', (s, n) ∈ numbers st device fs → (s, n') ∈ numbers st device fs → n = n'.

(** What the device announces for one name. *)
Definition announced (st : folderDB) (device : list Z) (fs : list FileInfo) (n : string)
  : list fileRow :=
  entry <$> filter (λ r, named n r = true)
    (new_row sha256 NormalizedFilename (deviceIdxLocked st device).2
       (bool_decide (device = LocalDeviceID)) <$> fs).

(** The conditions on an operation: versions are sorted, the device numbers its
    files. *)
Definition acceptable (st : folderDB) (op : operation) : Prop :=
  match op with
  | OpUpdate device fs _ => Forall (λ f, vector_wf (fVersion f)) fs ∧ numbers_ok st device fs
  | _ => True
  end.

(** The announcements of every name are comparable, before and during the
    operation, and the local device's files are not dropped at once. *)
Definition comparable (st : folderDB) (op : operation) : Prop :=
  match op with
  | OpUpdate device fs _ => ∀ n, consistent (entries st n ++ announced st device fs n)
  | OpDropAllFiles device => device ≠ LocalDeviceID ∧ ∀ n, consistent (entries st n)
  | _ => ∀ n, consistent (entries st n)
  end.

(** *** Single files *)

Abbreviation new_row' := (new_row sha256 NormalizedFilename).

(** No other name of the device has the number of the file. *)
Definition fresh (st : folderDB) (d : Z) (local : bool) (f : FileInfo) : Prop :=
  local = true ∨
  ∀ r, r ∈ files st → device_idx r = d → remote_sequence r = Some (fSequence f) →
       name r = NormalizedFilename (fName f).

Lemma fresh_other st d local f m :
  fresh st d local f → m ≠ NormalizedFilename (fName f) →
  rows_of (delete_rows (conflicts (new_row' d local f)) st) m = rows_of st m.
Proof.
  intros Hf Hm. rewrite delete_rows_rows. apply filter_id, Forall_forall.
  intros r [Hn Hr]%elem_rows_of. unfold conflicts, new_row, file_row, stored_form.
  cbn [device_idx name remote_sequence fName fSequence].
  destruct (Z.eqb_spec (device_idx r) d) as [Hd|]; [|done]. simpl.
  rewrite bool_decide_eq_false_2 by congruence. simpl.
  destruct local; [done|]. apply bool_decide_eq_false. intros Hs.
  destruct Hf as [?|Hf]; [done|]. specialize (Hf r Hr Hd Hs). congruence.
Qed.

Lemma update_file_keeps st d local skip f st' :
  update_file_result sha256 NormalizedFilename st d local skip f st' → fresh st d local f →
  (marked st → marked st') ∧
  (marks_right st → consistent (entries st' (NormalizedFilename (fName f))) → marks_right st').
Proof.
  intros Hres Hf. set (n0 := NormalizedFilename (fName f)).
  assert (∀ m, m ≠ n0 → rows_of st' m = rows_of st m) as Ho.
  { intros m Hm. rewrite (uf_other _ _ _ _ _ _ _ _ Hres) by done. by apply fresh_other. }
  split.
  - intros Hm n. destruct (decide (n = n0)) as [->|Hne]; [by eapply uf_marked|].
    by apply (marked_same st); [eapply uf_local|apply Ho|].
  - intros Hm Hc n. destruct (decide (n = n0)) as [->|Hne]; [by eapply uf_right|].
    apply (marks_same st); [by eapply uf_local|by apply Ho|done].
Qed.

Lemma update_file_entries st d local skip f st' n :
  update_file_result sha256 NormalizedFilename st d local skip f st' →
  entries st' n ⊆ entries st n ++ (entry <$> filter (λ r, named n r = true) [new_row' d local f]).
Proof.
  intros Hres e. destruct (decide (n = NormalizedFilename (fName f))) as [->|Hne].
  - rewrite (uf_entries _ _ _ _ _ _ _ _ Hres), !elem_of_app. intros [He|He]; [left|right].
    + apply list_elem_of_fmap in He as (r & -> & [? _]%elem_delete_rows).
      by apply list_elem_of_fmap_2.
    + apply list_elem_of_singleton in He as ->. apply list_elem_of_fmap_2, list_elem_of_filter.
      split; [|left]. by apply bool_decide_eq_true.
  - unfold entries. rewrite (uf_other _ _ _ _ _ _ _ _ Hres) by done. rewrite elem_of_app.
    intros (r & -> & [? _]%elem_delete_rows)%list_elem_of_fmap. left. by apply list_elem_of_fmap_2.
Qed.

Lemma elem_unflagged rs r : r ∈ rs → set_flags r 0 ∈ unflagged rs.
Proof. apply (list_elem_of_fmap_2 (λ r, set_flags r 0)). Qed.

Lemma update_file_numbers st d local skip f st' r s :
  update_file_result sha256 NormalizedFilename st d local skip f st' →
  r ∈ files st' → device_idx r = d → remote_sequence r = Some s →
  (∃ r', r' ∈ files st ∧ device_idx r' = d ∧ remote_sequence r' = Some s ∧ name r' = name r) ∨
  (s = fSequence f ∧ name r = NormalizedFilename (fName f)).
Proof.
  intros Hres Hr Hd Hs. apply elem_unflagged in Hr. rewrite (uf_files _ _ _ _ _ _ _ _ Hres) in Hr.
  apply list_elem_of_fmap in Hr as (r' & E' & Hr').
  pose proof (f_equal device_idx E') as E1. pose proof (f_equal remote_sequence E') as E2.
  pose proof (f_equal name E') as E3. cbn [set_flags device_idx remote_sequence name] in E1, E2, E3.
  apply elem_of_app in Hr' as [[_ Hr']%list_elem_of_filter|Hr'].
  - left. exists r'. split_and!; congruence.
  - right. apply list_elem_of_singleton in Hr' as ->.
    cbn [with_sequence new_row file_row stored_form remote_sequence name fName] in E2, E3.
    destruct local; [congruence|]. rewrite Hs in E2. injection E2 as ->. done.
Qed.

(** *** The loop *)

Section loop.
Variables (U : string → list fileRow) (V : list (Z * string)).
Variables (d : Z) (local skip : bool).
Hypothesis functional : ∀ s n n', (s, n) ∈ V → (s, n') ∈ V → n = n'.

Definition rows_in (st : folderDB) : Prop :=
  local = true ∨
  ∀ r s, r ∈ files st → device_idx r = d → remote_sequence r = Some s → (s, name r) ∈ V.
Definition file_in (f : FileInfo) : Prop :=
  local = true ∨ (fSequence f, NormalizedFilename (fName f)) ∈ V.
Definition announced_in (fs : list FileInfo) : Prop :=
  ∀ n, entry <$> filter (λ r, named n r = true) (new_row' d local <$> fs) ⊆ U n.

Lemma announced_in_cons f fs :
  announced_in (f :: fs) → announced_in [f] ∧ announced_in fs.
Proof.
  intros H. split; intros n e (r & -> & [Hr Hf]%list_elem_of_filter)%list_elem_of_fmap; apply H;
    apply list_elem_of_fmap_2, list_elem_of_filter; (split; [done|]); rewrite fmap_cons; set_solver.
Qed.

Lemma update_loop_keeps fs st prev st' :
  Forall (λ f, vector_wf (fVersion f)) fs → Forall file_in fs → rows_in st → db_ok st →
  update_loop sha256 NormalizedFilename st d local skip prev fs = Ok st' →
  db_ok st' ∧ (marked st → marked st') ∧
  ((∀ n, consistent (U n)) → (∀ n, entries st n ⊆ U n) → announced_in fs →
   marks_right st → marks_right st').
Proof.
  intros Hw. revert st prev. induction Hw as [|f fs Hf Hw IH]; intros st prev Hin Hrows Hok; simpl.
  { by intros [= ->]. }
  apply Forall_cons in Hin as [Hfin Hin].
  destruct (_ && _); [done|].
  destruct (update_file _ _ st d local skip f) as [st1| |] eqn:Eu; [|done..]. cbn [mbind go_bind].
  intros Hloop. pose proof (update_file_spec _ _ _ _ _ _ _ _ Hok Hf Eu) as Hres.
  assert (fresh st d local f) as Hfresh.
  { destruct Hfin as [?|Hfin], Hrows as [?|Hrows]; try by left. right. intros r Hr Hd Hs.
    by eapply functional; [apply Hrows|]. }
  destruct (update_file_keeps _ _ _ _ _ _ Hres Hfresh) as [Hm Hr].
  destruct (IH st1 (Some (fSequence f)) Hin) as (IH1 & IH2 & IH3); [|by eapply uf_ok|done|].
  { destruct Hfin as [?|Hfin], Hrows as [?|Hrows]; try by left. right. intros r s Hr' Hd Hs.
    destruct (update_file_numbers _ _ _ _ _ _ _ _ Hres Hr' Hd Hs)
      as [(r' & ? & ? & ? & <-)|[-> ->]]; auto. }
  split; [done|]. split; [auto|].
  intros HUc HU [Ha Ha']%announced_in_cons Hmr.
  assert (∀ n, entries st1 n ⊆ U n) as HU1.
  { intros n e He. apply (update_file_entries _ _ _ _ _ _ n Hres) in He.
    apply elem_of_app in He as [He|He]; [by apply HU|by apply Ha]. }
  apply IH3; [done..|]. apply Hr; [done|]. eapply consistent_subset; [apply HU1|done].
Qed.
End loop.

Lemma Update_keeps st device fs skip :
  db_ok st → acceptable st (OpUpdate device fs skip) →
  db_ok (Update sha256 NormalizedFilename st device fs skip).1 ∧
  (marked st → marked (Update sha256 NormalizedFilename st device fs skip).1) ∧
  ((∀ n, consistent (entries st n ++ announced st device fs n)) →
   marks_right st → marks_right (Update sha256 NormalizedFilename st device fs skip).1).
Proof.
  intros Hok [Hw Hn]. unfold Update.
  destruct (deviceIdxLocked_spec st device Hok) as (Hok1 & Hf1 & Hl1 & _ & _ & Hd1 & _ & _).
  rewrite (surjective_pairing (deviceIdxLocked st device)).
  set (st1 := (deviceIdxLocked st device).1) in *. set (d := (deviceIdxLocked st device).2) in *.
  set (local := bool_decide (device = LocalDeviceID)).
  assert (∀ n, rows_of st1 n = rows_of st n) as Hr1.
  { intros n. unfold rows_of. by rewrite Hf1. }
  assert (marked st → marked st1) as Hm1.
  { intros Hm n. by apply (marked_same st). }
  assert (marks_right st → marks_right st1) as Hmr1.
  { intros Hm n. by apply (marks_same st). }
  destruct (update_loop _ _ st1 d local skip None fs) as [st2| |] eqn:El; cbn [fst]; [|by auto..].
  set (U := λ n, entries st n ++ announced st device fs n).
  assert (∀ n, entries st1 n ⊆ U n) as HU.
  { intros n e. unfold U, entries. rewrite Hr1, elem_of_app. auto. }
  assert (announced_in U d local fs) as Ha.
  { intros n e He. unfold U. rewrite elem_of_app. by right. }
  set (V := if local then [] else numbers st device fs).
  assert (∀ s n n', (s, n) ∈ V → (s, n') ∈ V → n = n') as HV.
  { unfold V, local. case_bool_decide; [by intros ??? ?%elem_of_nil|]. by destruct Hn. }
  assert (Forall (file_in V local) fs) as Hfin.
  { apply Forall_forall. intros f Hf. unfold file_in, V. destruct local; [by left|right].
    apply elem_of_app. right.
    by apply (list_elem_of_fmap_2 (λ f, (fSequence f, NormalizedFilename (fName f)))). }
  assert (rows_in V d local st1) as Hrows.
  { unfold rows_in, V. destruct local eqn:Elocal; [by left|right]. intros r s Hr Hd Hs.
    apply elem_of_app. left. apply list_elem_of_omap. exists r. rewrite Hf1 in Hr. split; [done|].
    cbn beta. rewrite Hd. unfold d. by rewrite Z.eqb_refl, Hs. }
  destruct (update_loop_keeps U V d local skip HV fs st1 None st2) as (H1 & H2 & H3); try done.
  split; [done|]. split; [auto|]. intros Hc Hm. apply H3; auto.
Qed.

(** *** Dropping *)

Definition keeps (st st' : folderDB) (cond : Prop) : Prop :=
  db_ok st' ∧ (marked st → marked st') ∧ (cond → marks_right st → marks_right st').

Lemma drop_keeps st p st1 :
  db_ok st → db_ok st1 → files st1 = files (delete_rows p st) →
  localDeviceIdx st1 = localDeviceIdx st →
  ∃ st', recalcGlobalForFolder st1 = Ok st' ∧
    keeps st st' ((∀ l, l ∈ files st → device_idx l = localDeviceIdx st → p l = false) ∧
                  ∀ n, consistent (entries st n)).
Proof.
  intros Hok Hok1 Hf Hl.
  destruct (recalcGlobalForFolder_spec st1 Hok1) as (st' & Hst' & Hs & Hm & Hr).
  assert (∀ n, rows_of st1 n = rows_of (delete_rows p st) n) as Hrows.
  { intros n. unfold rows_of. by rewrite Hf. }
  exists st'. split; [done|]. split; [by eapply flag_steps_ok|]. split.
  - intros Hmk. apply Hm. intros n r. rewrite Hrows. intros Hr' Hg.
    apply (marked_same (delete_rows p st)); [done..|]. by apply (delete_keeps_marked p st n r).
  - intros [Hloc Hc] Hmr. apply Hr.
    + intros n. eapply consistent_subset; [|apply (Hc n)]. intros e. unfold entries.
      rewrite Hrows, !list_elem_of_fmap. intros (r & -> & [? _]%elem_delete_rows). eauto.
    + intros n r. rewrite Hrows. intros Hr' Hg. apply (marks_same (delete_rows p st)); [done..|].
      by apply (delete_keeps_marks p st n r).
Qed.

Lemma DropDevice_keeps st device :
  db_ok st → keeps st (DropDevice st device).1 (∀ n, consistent (entries st n)).
Proof.
  intros Hok. unfold DropDevice. case_bool_decide as Hd; [done|].
  destruct (drop_keeps st
      (λ r, bool_decide (devices st !! device = Some (device_idx r))) (delete_device st device))
    as (st' & -> & H1 & H2 & H3); [done|by apply delete_device_ok| | |].
  - unfold delete_device. destruct (devices st !! device) as [idx|].
    + cbn [files delete_rows]. apply list_filter_iff. intros r.
      rewrite bool_decide_eq_false, Z.eqb_neq. naive_solver.
    + cbn [files delete_rows]. symmetry. apply filter_id, Forall_forall. intros r _.
      by rewrite bool_decide_eq_false_2.
  - unfold delete_device. by destruct (devices st !! device).
  - split; [done|]. split; [done|]. intros Hc. apply H3. split; [|done]. intros l _ Hl.
    apply bool_decide_eq_false. rewrite Hl. intros H. by destruct (remote_device st _ _ Hok H Hd).
Qed.

Lemma deviceIdxLocked_keeps st device :
  db_ok st → keeps st (deviceIdxLocked st device).1 True.
Proof.
  intros Hok. destruct (deviceIdxLocked_spec st device Hok) as (Hok1 & Hf & Hl & _).
  assert (∀ n, rows_of (deviceIdxLocked st device).1 n = rows_of st n) as Hr.
  { intros n. unfold rows_of. by rewrite Hf. }
  split; [done|]. split; [intros Hm n|intros _ Hm n].
  - by apply (marked_same st).
  - by apply (marks_same st).
Qed.

Lemma DropAllFiles_keeps st device :
  db_ok st →
  keeps st (DropAllFiles st device).1
    (device ≠ LocalDeviceID ∧ ∀ n, consistent (entries st n)).
Proof.
  intros Hok. unfold DropAllFiles.
  rewrite (surjective_pairing (deviceIdxLocked st device)).
  destruct (deviceIdxLocked_keeps st device Hok) as (Hok1 & Hm1 & Hr1).
  destruct (deviceIdxLocked_spec st device Hok) as (_ & Hf & Hl & _ & _ & Hd & _).
  set (st1 := (deviceIdxLocked st device).1) in *. set (idx := (deviceIdxLocked st device).2) in *.
  assert (∀ n, entries st1 n = entries st n) as He.
  { intros n. unfold entries, rows_of. by rewrite Hf. }
  set (p := λ r, device_idx r =? idx).
  destruct (existsb p (files st1)) eqn:Ex.
  - destruct (drop_keeps st1 p (delete_rows p st1)) as (st' & -> & H1 & H2 & H3);
      [done|by apply delete_rows_ok|done..|].
    split; [done|]. split; [auto|]. intros [Hne Hc] Hmr. apply H3; [|auto]. split.
    + intros l _ Hll. apply Z.eqb_neq. rewrite Hll. intros Hi.
      by apply (remote_device st1 device idx Hok1 Hd Hne).
    + intros n. rewrite He. apply Hc.
  - assert (∀ n, rows_of (delete_rows p st1) n = rows_of st1 n) as Hrows.
    { intros n. rewrite delete_rows_rows. apply filter_id, Forall_forall.
      intros r [_ Hr]%elem_rows_of. apply not_true_iff_false. intros Hp.
      rewrite <- not_true_iff_false, existsb_exists in Ex. apply Ex. exists r.
      by rewrite <- list_elem_of_In. }
    cbn [fst]. split; [by apply delete_rows_ok|]. split.
    + intros Hm n. apply (marked_same st1); [done|apply Hrows|]. by apply Hm1.
    + intros _ Hm n. apply (marks_same st1); [done|apply Hrows|]. by apply Hr1.
Qed.

Lemma DropFilesNamed_keeps st device names :
  db_ok st →
  keeps st (DropFilesNamed NormalizedFilename st device names).1 (∀ n, consistent (entries st n)).
Proof.
  intros Hok. unfold DropFilesNamed.
  rewrite (surjective_pairing (deviceIdxLocked st device)).
  destruct (deviceIdxLocked_keeps st device Hok) as (Hok1 & Hm1 & Hr1).
  destruct (deviceIdxLocked_spec st device Hok) as (_ & Hf & Hl & _).
  set (st1 := (deviceIdxLocked st device).1) in *. set (idx := (deviceIdxLocked st device).2) in *.
  set (ns := map NormalizedFilename names).
  set (p := λ r, (device_idx r =? idx) && bool_decide (name r ∈ ns)).
  destruct (recalc_all_spec ns (delete_rows p st1)) as (st' & -> & Hs & He & Ho & Hm & Hr);
    [by apply delete_rows_ok|].
  destruct (flag_steps_frame _ _ Hs) as [Hfr _].
  assert (∀ n, n ∉ ns → rows_of st' n = rows_of st1 n) as Hrows.
  { intros n Hn. rewrite Ho by done. rewrite delete_rows_rows. apply filter_id, Forall_forall.
    intros r [<- _]%elem_rows_of. unfold p. by rewrite (bool_decide_eq_false_2 _ Hn), andb_false_r. }
  split; [by eapply flag_steps_ok, delete_rows_ok|]. cbn [transact fst]. split.
  - intros Hmk n. destruct (decide (n ∈ ns)) as [|Hn]; [auto|].
    apply (marked_same st1); [by rewrite Hfr|by apply Hrows|]. by apply Hm1.
  - intros Hc Hmr n. destruct (decide (n ∈ ns)) as [Hn|Hn].
    + apply Hr; [done|]. eapply consistent_subset; [|apply (Hc n)]. intros e. unfold entries.
      rewrite list_elem_of_fmap. intros (r & -> & [Hr' _]%elem_delete_rows).
      apply list_elem_of_fmap_2. unfold rows_of in *. by rewrite Hf in Hr'.
    + apply (marks_same st1); [by rewrite Hfr|by apply Hrows|]. by apply Hr1.
Qed.

Lemma perform_keeps st op :
  db_ok st → acceptable st op → keeps st (perform st op).1 (comparable st op).
Proof.
  intros Hok Ha. destruct op; simpl.
  - destruct (Update_keeps st device fs skipBlockIndex Hok Ha) as (? & ? & ?). by split.
  - by apply DropDevice_keeps.
  - by apply DropAllFiles_keeps.
  - by apply DropFilesNamed_keeps.
Qed.

Lemma openFolderDB_ok : db_ok openFolderDB.
Proof.
  split; cbn [openFolderDB deviceIdxLocked files files_seq fileinfos devices devices_seq
              localDeviceIdx fst snd lookup].
  all: unfold openFolderDB, deviceIdxLocked; cbn [devices]; rewrite lookup_empty;
    cbn [files files_seq fileinfos devices devices_seq localDeviceIdx].
  - constructor.
  - constructor.
  - done.
  - constructor.
  - constructor.
  - intros s. rewrite lookup_empty. split; [by intros []|by intros ?%elem_of_nil].
  - intros d d' i [[<- _]|[_ ?]]%lookup_insert_Some [[<- _]|[_ ?]]%lookup_insert_Some; done.
  - intros d i [[_ <-]|[_ ?]]%lookup_insert_Some; done.
  - by rewrite lookup_insert_eq.
Qed.

Lemma openFolderDB_rows n : rows_of openFolderDB n = [].
Proof. done. Qed.

(** C10.  The database is always in order: a new one is, and every update and
    every removal, whether it succeeds or fails, leaves rows with distinct numbers
    and one row per device and name, and for every name with a row exactly one
    global row; only this row can be needed, and only when it is valid and was
    announced by another device. *)
Theorem one_global st op :
  (db_ok openFolderDB ∧ marked openFolderDB) ∧
  (db_ok st → marked st → acceptable st op →
   db_ok (perform st op).1 ∧ marked (perform st op).1).
Proof.
  split; [split; [exact openFolderDB_ok|by intros n Hne]|].
  intros Hok Hm Ha. destruct (perform_keeps st op Hok Ha) as (? & ? & _). auto.
Qed.

(** C8.  The marks implement their specification: when the announcements of
    every name can be ordered, one of them beats all other valid ones, and every
    operation but the removal of all local files keeps the global mark on that
    one and the needed mark on it exactly when it is valid and the local device is
    behind, although [DropDevice] and [DropAllFiles] recalculate only the names
    that lost their global row. *)
Theorem marks_maintained st op :
  marks_right openFolderDB ∧
  (db_ok st → ∀ n, consistent (entries st n) → rows_of st n ≠ [] → ∃ g, best (entries st n) g) ∧
  (db_ok st → marks_right st → acceptable st op → comparable st op →
   marks_right (perform st op).1).
Proof.
  split; [by intros n g r _ ?%elem_of_nil|]. split.
  - intros Hok n Hc Hne. destruct (best_exists st n Hok Hc Hne) as (r & _ & ?). eauto.
  - intros Hok Hm Ha Hc. destruct (perform_keeps st op Hok Ha) as (_ & _ & ?). auto.
Qed.
End properties.

(** ** Examples *)

Definition dev (b : Z) : list Z := repeatedDeviceID b.

(** A file of one announcement. *)
Definition announce (n : string) (v : Vector) (mtime seq flags : Z) : FileInfo :=
  {| fName := n; fSize := 3; fModifiedS := mtime; fModifiedBy := 1; fVersion := v;
     fSequence := seq; fBlocks := [MkBlockInfo [7] 0 3]; fSymlinkTarget := []; fBlocksHash := [];
     fPreviousBlocksHash := []; fEncrypted := []; fPlatform := fPlatform sample_file;
     fType := FileInfoTypeFile; fPermissions := 420; fModifiedNs := 0; fRawBlockSize := 131072;
     fLocalFlags := flags; fEncryptionTrailerSize := 0; fDeleted := false;
     fNoPermissions := false; ftruncated := false |}.

Definition run (st : folderDB) (ops : list operation) : folderDB :=
  fold_left (λ st op, (perform (λ bs, take 4 bs) (λ n, n) st op).1) ops st.

Definition vec (cs : list (Z * Z)) : Vector := MkVector (map (λ c, MkCounter c.1 c.2) cs).

Definition opA := OpUpdate (dev 1) [announce "f" (vec [(1, 2)]) 100 1 0] false.
Definition opB := OpUpdate (dev 2) [announce "f" (vec [(1, 1)]) 300 1 0] false.
Definition opC := OpUpdate (dev 3) [announce "f" (vec [(2, 1)]) 200 1 0] false.

Definition consistentb (es : list fileRow) : bool :=
  forallb (λ a, forallb (λ b, forallb (λ c,
    negb ((fileRow_Compare a b <? 0) && (fileRow_Compare b c <? 0)) ||
    (fileRow_Compare a c <? 0)) es) es) es.

Lemma consistentb_sound es : consistentb es = true → consistent es.
Proof.
  unfold consistentb. intros H a b c Ha Hb Hc Hab Hbc.
  rewrite forallb_forall in H. specialize (H a (proj1 (list_elem_of_In _ _) Ha)).
  rewrite forallb_forall in H. specialize (H b (proj1 (list_elem_of_In _ _) Hb)).
  rewrite forallb_forall in H. specialize (H c (proj1 (list_elem_of_In _ _) Hc)).
  rewrite (proj2 (Z.ltb_lt _ _) Hab), (proj2 (Z.ltb_lt _ _) Hbc) in H. simpl in H. by zb.
Qed.

Lemma comparable_one st op n :
  match op with
  | OpUpdate device fs _ =>
      (∀ r, r ∈ files st → name r = n) ∧ Forall (λ f, fName f = n) fs ∧
      consistentb (entries st n ++ announced (λ bs, take 4 bs) (λ n, n) st device fs n) = true
  | _ => False
  end → comparable (λ bs, take 4 bs) (λ n, n) st op.
Proof.
  destruct op as [device fs skip| | |]; try done. intros (Hr & Hf & Hc) m.
  destruct (decide (m = n)) as [->|Hne]; [by apply consistentb_sound|].
  assert (entries st m = []) as ->.
  { destruct (entries st m) eqn:E; [done|]. exfalso.
    assert (f ∈ entries st m) as (r & _ & [<- Hrr]%elem_rows_of)%list_elem_of_fmap
      by (rewrite E; left). by apply Hne, Hr. }
  assert (announced (λ bs, take 4 bs) (λ n, n) st device fs m = []) as ->.
  { destruct (announced _ _ _ _ _ m) eqn:E; [done|]. exfalso.
    assert (f ∈ announced (λ bs, take 4 bs) (λ n, n) st device fs m)
      as (r & _ & [Hm Hr']%list_elem_of_filter)%list_elem_of_fmap by (rewrite E; left).
    apply list_elem_of_fmap in Hr' as (f' & -> & Hf'). rewrite Forall_forall in Hf.
    unfold named in Hm. apply bool_decide_eq_true in Hm. apply Hne. rewrite <- Hm.
    by apply (Hf f'). }
  by intros a b c ?%elem_of_nil.
Qed.

Lemma vec_wf cs : StronglySorted (λ c d : Z * Z, c.1 < d.1) cs →
  Forall (λ c, in_u64 c.1 ∧ in_u64 c.2) cs → vector_wf (vec cs).
Proof.
  intros Hs Hr. split; unfold vec; cbn [Counters].
  - induction Hs as [|c cs Hs IH Hc]; simpl; [constructor|].
    apply Forall_cons in Hr as [_ Hr]. constructor; [auto|]. apply Forall_map. exact Hc.
  - apply Forall_map. exact Hr.
Qed.

(** An update by a device with one file and no rows yet is acceptable. *)
Lemma acceptable_first st d f skip :
  vector_wf (fVersion f) → Forall (λ r, device_idx r ≠ (deviceIdxLocked st d).2) (files st) →
  acceptable (λ n, n) st (OpUpdate d [f] skip).
Proof.
  intros Hv Hr. split; [by constructor|]. right.
  assert (numbers (λ n, n) st d [f] = [(fSequence f, fName f)]) as ->.
  { unfold numbers. replace (omap _ (files st)) with (@nil (Z * string)); [done|].
    induction Hr as [|r rs Hr _ IH]; [done|]. simpl.
    rewrite (proj2 (Z.eqb_neq _ _) Hr). exact IH. }
  intros s n n' [= -> ->]%list_elem_of_singleton [= ->]%list_elem_of_singleton. done.
Qed.

Definition stB : folderDB := run openFolderDB [opB].

Lemma opB_fine : acceptable (λ n, n) openFolderDB opB ∧
  comparable (λ bs, take 4 bs) (λ n, n) openFolderDB opB.
Proof.
  split.
  - apply acceptable_first; [|constructor]. apply vec_wf; [by repeat constructor|].
    apply Forall_cons_2; [|constructor]. by split.
  - apply (comparable_one _ _ "f"). split_and!; [by intros r ?%elem_of_nil|by repeat constructor|].
    vm_compute. reflexivity.
Qed.

Lemma opA_fine : acceptable (λ n, n) stB opA ∧ comparable (λ bs, take 4 bs) (λ n, n) stB opA.
Proof.
  split.
  - apply acceptable_first.
    + apply vec_wf; [by repeat constructor|]. apply Forall_cons_2; [|constructor]. by split.
    + apply (bool_decide_eq_true (Forall _ _)). vm_compute. reflexivity.
  - apply (comparable_one _ _ "f"). split_and!; [|by repeat constructor|vm_compute; reflexivity].
    apply Forall_forall, (bool_decide_eq_true (Forall _ _)). vm_compute. reflexivity.
Qed.

Lemma stB_fine : db_ok stB ∧ marked stB ∧ marks_right stB.
Proof.
  destruct opB_fine as [Ha Hc].
  destruct (perform_keeps (λ bs, take 4 bs) (λ n, n) openFolderDB opB openFolderDB_ok Ha)
    as (H1 & H2 & H3).
  split; [exact H1|]. split; [apply H2; by intros n Hne|].
  apply H3; [done|]. by intros n g r _ ?%elem_of_nil.
Qed.

Lemma one_global_witness :
  marked (run stB [opA]) ∧ rows_of (run stB [opA]) "f" ≠ [].
Proof.
  destruct stB_fine as (H1 & H2 & _), opA_fine as [Ha _]. split.
  - apply (one_global (λ bs, take 4 bs) (λ n, n) stB opA); assumption.
  - vm_compute. discriminate.
Defined.

Lemma marks_maintained_witness : marks_right (run stB [opA]).
Proof.
  destruct stB_fine as (H1 & _ & H3), opA_fine as [Ha Hc].
  exact (proj2 (proj2 (marks_maintained (λ bs, take 4 bs) (λ n, n) stB opA)) H1 H3 Ha Hc).
Defined.

(** [fileRow.Compare] is not an order: a device that knows three valid
    announcements of one file marks one of them as global although another has
    a strictly newer version, and the same announcements in another order give
    another global version. *)
Theorem global_can_be_outdated :
  let st := run openFolderDB [opC; opB; opA] in
  let st' := run openFolderDB [opC; opA; opB] in
  ∃ g r g',
    g ∈ rows_of st "f" ∧ r ∈ rows_of st "f" ∧ g' ∈ rows_of st' "f" ∧
    has_flag (local_flags g) FlagLocalGlobal = true ∧
    has_flag (local_flags g') FlagLocalGlobal = true ∧
    row_IsInvalid (decode r) = false ∧
    Compare (Version (decode r)) (Version (decode g)) = Greater ∧
    version g ≠ version g' ∧
    version <$> rows_of st "f" ≡ₚ version <$> rows_of st' "f".
Proof.
  cbv zeta. set (st := run _ [opC; opB; opA]). set (st' := run _ _).
  assert (∃ g, rows_of st "f" !! 1%nat = Some g) as [g Hg] by (vm_compute; eauto).
  assert (∃ r, rows_of st "f" !! 2%nat = Some r) as [r Hr] by (vm_compute; eauto).
  assert (∃ g, rows_of st' "f" !! 0%nat = Some g) as [g' Hg'] by (vm_compute; eauto).
  exists g, r, g'. split_and!; try by eapply list_elem_of_lookup_2.
  all: vm_compute in Hg, Hr, Hg'; injection Hg as <-; injection Hr as <-; injection Hg' as <-.
  - reflexivity.
  - reflexivity.
  - vm_compute. reflexivity.
  - vm_compute. reflexivity.
  - discriminate.
  - vm_compute. apply perm_skip, perm_swap.
Qed.

Definition opOld := OpUpdate (dev 1) [announce "f" (vec [(1, 1)]) 100 4 0] false.
Definition opNew := OpUpdate (dev 2) [announce "f" (vec [(1, 2)]) 200 5 0] false.
Definition opReuse := OpUpdate (dev 2) [announce "g" (vec [(2, 1)]) 300 5 0] false.

(** A device that reuses a sequence number for another name makes
    [INSERT OR REPLACE] delete the row of the first name without a recalculation:
    the name keeps the row of another device but has no global version. *)
Theorem reused_number_loses_global :
  let st := run openFolderDB [opOld; opNew] in
  let st' := run st [opReuse] in
  (perform (λ bs, take 4 bs) (λ n, n) st opReuse).2 = Ok () ∧
  (∃ r, r ∈ rows_of st "f" ∧ has_flag (local_flags r) FlagLocalGlobal = true) ∧
  rows_of st' "f" ≠ [] ∧
  Forall (λ r, has_flag (local_flags r) FlagLocalGlobal = false) (rows_of st' "f").
Proof.
  cbv zeta. split_and!.
  - vm_compute. reflexivity.
  - assert (∃ r, rows_of (run openFolderDB [opOld; opNew]) "f" !! 1%nat = Some r) as [r Hr]
      by (vm_compute; eauto).
    exists r. split; [by eapply list_elem_of_lookup_2|]. vm_compute in Hr.
    injection Hr as <-. reflexivity.
  - vm_compute. discriminate.
  - apply (bool_decide_eq_true (Forall _ _)). vm_compute. reflexivity.
Qed.

Definition opIgnored := OpUpdate LocalDeviceID [announce "f" (vec [(1, 2)]) 200 0 FlagLocalIgnored] false.

(** Why [comparable] excludes the removal of all local files: the name keeps its
    global row, and is not recalculated, but is needed now. *)
Example drop_local_files :
  let st := run openFolderDB [opNew; opIgnored] in
  let st' := run st [OpDropAllFiles LocalDeviceID] in
  map (λ r, has_flag (local_flags r) FlagLocalNeeded) (rows_of st' "f") = [false] ∧
  map (λ r, device_idx r =? localDeviceIdx st') (rows_of st' "f") = [false].
Proof. vm_compute. done. Qed.
