(* ===== verification/FolderQueries.v ===== *)
(** * Queries on a folder's database ([folderdb_counts.go], [folderdb_global.go],
      [folderdb_local.go], [folderdb_indexid.go], [util.go])

    The reading side of the tables of [FolderDB]: counts, needed files, single
    files, the index exchange and the ranges of names.  A query without
    [ORDER BY] returns its rows in the order of the table; none of the properties
    depends on it. *)
From S2P Require Import Prelude GoLib Vector Platform FileInfo DeviceID FolderDB FolderMarks.
From Stdlib Require Import Ascii.
From Stdlib Require String.

Local Open Scope Z_scope.

(** ** Counts ([folderdb_counts.go], [db.Counts]) *)

Record countsRow := MkCountsRow {
  cType : Z;
  cCount : Z;
  cSize : Z;
  cDeleted : bool;
  cLocalFlags : Z;
}.

Record Counts := MkCounts {
  Files : Z;
  Directories : Z;
  Symlinks : Z;
  DeletedCount : Z;
  Bytes : Z;
}.

Definition zero_counts : Counts := MkCounts 0 0 0 0 0.

(** One pass of the loop of [summarizeCounts]; the sequence, the device and the
    flags of the result stay at their constants. *)
Definition count_row (c : Counts) (r : countsRow) : Counts :=
  if cDeleted r then
    MkCounts (Files c) (Directories c) (Symlinks c) (DeletedCount c + cCount r) (Bytes c)
  else if cType r =? FileInfoTypeFile then
    MkCounts (Files c + cCount r) (Directories c) (Symlinks c) (DeletedCount c) (Bytes c + cSize r)
  else if cType r =? FileInfoTypeDirectory then
    MkCounts (Files c) (Directories c + cCount r) (Symlinks c) (DeletedCount c) (Bytes c + cSize r)
  else if cType r =? FileInfoTypeSymlink then
    MkCounts (Files c) (Directories c) (Symlinks c + cCount r) (DeletedCount c) (Bytes c + cSize r)
  else c.

Definition summarizeCounts (res : list countsRow) : Counts := fold_left count_row res zero_counts.

Definition TotalItems (c : Counts) : Z := Files c + Directories c + Symlinks c + DeletedCount c.

Definition counts_row (kv : countsKey * (Z * Z)) : countsRow :=
  let '((_, ty, flags, del), (c, s)) := kv in MkCountsRow ty c s del flags.

(** [SELECT ... FROM counts WHERE ...] *)
Definition select_counts (p : countsKey → bool) (st : folderDB) : list countsRow :=
  counts_row <$> filter (λ kv, p kv.1 = true) (map_to_list (counts st)).

Definition key_flags (k : countsKey) : Z := k.1.2.
Definition key_device (k : countsKey) : Z := k.1.1.1.

Definition of_device (st : folderDB) (device : list Z) (idx : Z) : bool :=
  bool_decide (devices st !! device = Some idx).

Definition CountLocal (st : folderDB) (device : list Z) : Counts :=
  summarizeCounts (select_counts (λ k,
    of_device st device (key_device k) && negb (has_flag (key_flags k) FlagLocalIgnored)) st).

Definition CountGlobal (st : folderDB) : Counts :=
  summarizeCounts (select_counts (λ k,
    has_flag (key_flags k) FlagLocalGlobal && negb (has_flag (key_flags k) LocalInvalidFlags)) st).

Definition CountReceiveOnlyChanged (st : folderDB) : Counts :=
  summarizeCounts (select_counts (λ k, has_flag (key_flags k) FlagLocalReceiveOnly) st).

Definition needSizeLocal (st : folderDB) : Counts :=
  summarizeCounts (select_counts (λ k, has_flag (key_flags k) FlagLocalNeeded) st).

(** ** Needed files ([folderdb_global.go]) *)

Definition valid_global (g : filesRow) : bool :=
  has_flag (local_flags g) FlagLocalGlobal && negb (has_flag (local_flags g) LocalInvalidFlags).

(** The two halves of the query for a remote device. *)
Definition remote_needs (st : folderDB) (device : list Z) (g : filesRow) : bool :=
  valid_global g && negb (deleted g) &&
  negb (existsb (λ f, bool_decide (name f = name g) && bool_decide (version f = version g) &&
                      of_device st device (device_idx f)) (files st)).
Definition remote_must_delete (st : folderDB) (device : list Z) (g : filesRow) : bool :=
  valid_global g && deleted g &&
  existsb (λ f, bool_decide (name f = name g) && of_device st device (device_idx f) &&
                negb (deleted f) && negb (has_flag (local_flags f) LocalInvalidFlags)) (files st).

Definition neededGlobalFilesLocal (st : folderDB) : list filesRow :=
  filter (λ g, negb (has_flag (local_flags g) FlagLocalIgnored) &&
               has_flag (local_flags g) FlagLocalNeeded = true) (files st).

Definition neededGlobalFilesRemote (st : folderDB) (device : list Z) : list filesRow :=
  filter (λ g, remote_needs st device g = true) (files st) ++
  filter (λ g, remote_must_delete st device g = true) (files st).

(** [GROUP BY type, local_flags, deleted] with [count( * )] and [sum(size)]. *)
Definition group_key (r : filesRow) : Z * Z * bool := (type r, local_flags r, deleted r).
Definition group_counts (rows : list filesRow) : list countsRow :=
  map (λ k,
    let group := filter (λ r, group_key r = k) rows in
    MkCountsRow k.1.1 (Z.of_nat (length group)) (fold_right Z.add 0 (map size group)) k.2 k.1.2)
  (remove_dups (map group_key rows)).

Definition needSizeRemote (st : folderDB) (device : list Z) : Counts :=
  summarizeCounts
    (group_counts (filter (λ g, remote_needs st device g = true) (files st)) ++
     group_counts (filter (λ g, remote_must_delete st device g = true) (files st))).

Definition CountNeed (st : folderDB) (device : list Z) : Counts :=
  if bool_decide (device = LocalDeviceID) then needSizeLocal st else needSizeRemote st device.

(** *** Order and pages *)

(** [config.PullOrder] *)
Definition PullOrderRandom : Z := 0.
Definition PullOrderAlphabetic : Z := 1.
Definition PullOrderSmallestFirst : Z := 2.
Definition PullOrderLargestFirst : Z := 3.
Definition PullOrderOldestFirst : Z := 4.
Definition PullOrderNewestFirst : Z := 5.

(** The order of the bytes, as the [BINARY] collation compares names. *)
Fixpoint bytes_ltb (a b : list ascii) : bool :=
  match a, b with
  | [], [] => false
  | [], _ :: _ => true
  | _ :: _, [] => false
  | x :: a, y :: b =>
      (byte_val x <? byte_val y) || ((byte_val x =? byte_val y) && bytes_ltb a b)
  end.

Section needed.
(** [ORDER BY RANDOM()] *)
Variable random : list filesRow → list filesRow.

Definition select_order (order : Z) (rows : list filesRow) : list filesRow :=
  if order =? PullOrderRandom then random rows
  else if order =? PullOrderAlphabetic then
    sort_by (λ a b, bytes_ltb (s2l (name a)) (s2l (name b))) rows
  else if order =? PullOrderSmallestFirst then sort_by (λ a b, size a <? size b) rows
  else if order =? PullOrderLargestFirst then sort_by (λ a b, size b <? size a) rows
  else if order =? PullOrderOldestFirst then sort_by (λ a b, modified a <? modified b) rows
  else if order =? PullOrderNewestFirst then sort_by (λ a b, modified b <? modified a) rows
  else rows.

(** [LIMIT] and [OFFSET] are added when they are positive; an [OFFSET] without a
    [LIMIT] is not a statement. *)
Definition AllNeededGlobalFiles (st : folderDB) (device : list Z) (order limit offset : Z)
  : go (list filesRow) :=
  let rows := if bool_decide (device = LocalDeviceID) then neededGlobalFilesLocal st
              else neededGlobalFilesRemote st device in
  let rows := select_order order rows in
  if 0 <? limit then Ok (take (Z.to_nat limit) (drop (Z.to_nat offset) rows))
  else if 0 <? offset then Err "syntax error"
  else Ok rows.
End needed.

(** ** Single files and the index exchange *)

(** What is stored of one file: the row of [fileinfos] and, if there is one, the
    row of [blocklists]. *)
Record indirectFI := MkIndirectFI { FiProtobuf : bepFileInfo; BlProtobuf : option (list bepBlockInfo) }.

Definition with_blocks (w : bepFileInfo) (bs : list bepBlockInfo) : bepFileInfo :=
  {| wName := wName w; wSize := wSize w; wModifiedS := wModifiedS w; wModifiedBy := wModifiedBy w;
     wVersion := wVersion w; wSequence := wSequence w; wBlocks := bs;
     wSymlinkTarget := wSymlinkTarget w; wBlocksHash := wBlocksHash w;
     wPreviousBlocksHash := wPreviousBlocksHash w; wEncrypted := wEncrypted w; wType := wType w;
     wPermissions := wPermissions w; wModifiedNs := wModifiedNs w; wBlockSize := wBlockSize w;
     wPlatform := wPlatform w; wLocalFlags := wLocalFlags w;
     wEncryptionTrailerSize := wEncryptionTrailerSize w; wDeleted := wDeleted w;
     wInvalid := wInvalid w; wNoPermissions := wNoPermissions w |}.
Definition with_name (w : bepFileInfo) (n : string) : bepFileInfo :=
  {| wName := n; wSize := wSize w; wModifiedS := wModifiedS w; wModifiedBy := wModifiedBy w;
     wVersion := wVersion w; wSequence := wSequence w; wBlocks := wBlocks w;
     wSymlinkTarget := wSymlinkTarget w; wBlocksHash := wBlocksHash w;
     wPreviousBlocksHash := wPreviousBlocksHash w; wEncrypted := wEncrypted w; wType := wType w;
     wPermissions := wPermissions w; wModifiedNs := wModifiedNs w; wBlockSize := wBlockSize w;
     wPlatform := wPlatform w; wLocalFlags := wLocalFlags w;
     wEncryptionTrailerSize := wEncryptionTrailerSize w; wDeleted := wDeleted w;
     wInvalid := wInvalid w; wNoPermissions := wNoPermissions w |}.

(** The joins of a row with [fileinfos] and [blocklists]. *)
Definition join_row (st : folderDB) (r : filesRow) : option indirectFI :=
  match fileinfos st !! sequence r with
  | None => None
  | Some w => Some (MkIndirectFI w (h ← blocklist_hash r; blocklists st !! h))
  end.

Section files.
Variables NormalizedFilename NativeFilename : string → string.

Definition indirectFI_FileInfo (i : indirectFI) : FileInfo :=
  let fi := FiProtobuf i in
  let fi := match BlProtobuf i with Some (b :: bs) => with_blocks fi (b :: bs) | _ => fi end in
  FileInfoFromDB (with_name fi (NativeFilename (wName fi))).

Definition select_files (st : folderDB) (p : filesRow → bool) : list FileInfo :=
  indirectFI_FileInfo <$> omap (join_row st) (filter (λ r, p r = true) (files st)).

Definition GetDeviceFile (st : folderDB) (device : list Z) (file : string) : option FileInfo :=
  let file := NormalizedFilename file in
  head (select_files st (λ r, of_device st device (device_idx r) && named file r)).

Definition GetGlobalFile (st : folderDB) (file : string) : option FileInfo :=
  let file := NormalizedFilename file in
  head (select_files st (λ r, named file r && has_flag (local_flags r) FlagLocalGlobal)).

Definition AllLocalFiles (st : folderDB) (device : list Z) : list FileInfo :=
  select_files st (λ r, of_device st device (device_idx r)).

(** The rows of [AllLocalFilesBySequence], before the joins. *)
Definition rows_by_sequence (st : folderDB) (device : list Z) (startSeq limit : Z) : list filesRow :=
  let rows := sort_by (λ a b, sequence a <? sequence b)
    (filter (λ r, of_device st device (device_idx r) && (startSeq <=? sequence r) = true) (files st)) in
  if 0 <? limit then take (Z.to_nat limit) rows else rows.

Definition AllLocalFilesBySequence (st : folderDB) (device : list Z) (startSeq limit : Z)
  : list FileInfo :=
  indirectFI_FileInfo <$> omap (join_row st) (rows_by_sequence st device startSeq limit).

(** [GetGlobalAvailability] joins on the version and the name; the devices come
    as their indexes. *)
Definition GetGlobalAvailability (st : folderDB) (file : string) : list Z :=
  let file := NormalizedFilename file in
  concat (map (λ f,
    map (λ _, device_idx f)
      (filter (λ g, bool_decide (version g = version f) && bool_decide (name g = name f) &&
                    has_flag (local_flags g) FlagLocalGlobal = true) (files st)))
    (filter (λ f, named file f && negb (device_idx f =? localDeviceIdx st) = true) (files st))).

(** *** Name ranges ([prefixEnd] and its users) *)

(** The loop of [prefixEnd] from the last byte on, [rbs] being the bytes up to
    the index in reverse. *)
Fixpoint prefixEnd_loop (rbs : list ascii) : list ascii :=
  match rbs with
  | [] => []
  | b :: rbs =>
      if byte_val b <? 255 then byte_chr (byte_val b + 1) :: rbs else b :: prefixEnd_loop rbs
  end.
Definition prefixEnd (s : list ascii) : go (list ascii) :=
  match s with
  | [] => Panic "bug: cannot represent end prefix for empty string"
  | _ => Ok (rev (prefixEnd_loop (rev s)))
  end.

(** [n.name >= prefix AND n.name < end] *)
Definition in_range (prefix end_ n : list ascii) : bool :=
  negb (bytes_ltb n prefix) && bytes_ltb n end_.

Definition AllLocalFilesWithPrefix (st : folderDB) (device : list Z) (prefix : string)
  : go (list FileInfo) :=
  if bool_decide (prefix = ""%string) then Ok (AllLocalFiles st device)
  else
    let prefix := s2l (NormalizedFilename prefix) in
    let! end_ := prefixEnd prefix in
    Ok (select_files st (λ r, of_device st device (device_idx r) &&
                              in_range prefix end_ (s2l (name r)))).

(** [db.FileMetadata] *)
Record FileMetadata := MkFileMetadata {
  mName : string; mSequence : Z; mModNanos : Z; mSize : Z; mLocalFlags : Z; mType : Z;
  mDeleted : bool }.
Definition metadata (r : filesRow) : FileMetadata :=
  {| mName := NativeFilename (name r); mSequence := sequence r; mModNanos := modified r;
     mSize := size r; mLocalFlags := local_flags r; mType := type r; mDeleted := deleted r |}.

Definition by_name (rows : list filesRow) : list filesRow :=
  sort_by (λ a b, bytes_ltb (s2l (name a)) (s2l (name b))) rows.

Definition AllGlobalFiles (st : folderDB) : list FileMetadata :=
  metadata <$> by_name (filter (λ r, has_flag (local_flags r) FlagLocalGlobal = true) (files st)).

Definition AllGlobalFilesPrefix (st : folderDB) (prefix : string) : go (list FileMetadata) :=
  if bool_decide (prefix = ""%string) then Ok (AllGlobalFiles st)
  else
    let prefix := s2l (NormalizedFilename prefix) in
    let! end_ := prefixEnd prefix in
    Ok (metadata <$> by_name (filter (λ r, in_range prefix end_ (s2l (name r)) &&
                                           has_flag (local_flags r) FlagLocalGlobal = true)
                                (files st))).
End files.

(** *** Index identifiers ([folderdb_indexid.go]) *)

Definition indexIDToHex (i : Z) : list ascii := hex_encode (be_encode 8 i).
Definition indexIDFromHex (s : list ascii) : go Z :=
  match hex_decode s with
  | None => Err "indexIDFromHex"
  | Some bs => if (length bs =? 8)%nat then Ok (be_decode bs) else Err "incorrect IndexID length"
  end.

Definition with_indexids (st : folderDB) (m : gmap Z (list ascii * Z)) : folderDB :=
  {| localDeviceIdx := localDeviceIdx st; devices := devices st; devices_seq := devices_seq st;
     files := files st; files_seq := files_seq st; fileinfos := fileinfos st;
     blocklists := blocklists st; blocks := blocks st; indexids := m; counts := counts st |}.

Definition stored_index_id (st : folderDB) (device : list Z) : option (list ascii) :=
  idx ← devices st !! device; fst <$> indexids st !! idx.

(** [COALESCE(MAX(sequence), 0)] over the local files. *)
Definition max_local_sequence (st : folderDB) : Z :=
  fold_right Z.max 0
    (map sequence (filter (λ r, device_idx r = localDeviceIdx st) (files st))).

(** [newID] is what [NewIndexID] draws. *)
Definition GetIndexID (st : folderDB) (device : list Z) (newID : Z) : folderDB * go Z :=
  match stored_index_id st device with
  | Some (c :: s) => (st, indexIDFromHex (c :: s))
  | _ =>
      if negb (bool_decide (device = LocalDeviceID)) then (st, Ok 0)
      else
        match fst <$> indexids st !! localDeviceIdx st with
        | Some (c :: s) => (st, indexIDFromHex (c :: s))
        | _ =>
            let row := match indexids st !! localDeviceIdx st with
                       | None => (indexIDToHex newID, max_local_sequence st)
                       | Some (_, seq) => (indexIDToHex newID, seq)
                       end in
            (with_indexids st (<[localDeviceIdx st := row]> (indexids st)), Ok newID)
        end
  end.

Definition SetIndexID (st : folderDB) (device : list Z) (id : Z) : folderDB :=
  let '(st, deviceIdx) := deviceIdxLocked st device in
  with_indexids st (<[deviceIdx := (indexIDToHex id, 0)]> (indexids st)).

Definition DropAllIndexIDs (st : folderDB) : folderDB := with_indexids st ∅.

Definition GetDeviceSequence (st : folderDB) (device : list Z) : Z :=
  default 0 (idx ← devices st !! device; snd <$> indexids st !! idx).

(** The sequence by the index of the device. *)
Definition RemoteSequences (st : folderDB) : gmap Z Z :=
  snd <$> filter (λ kv, kv.1 ≠ localDeviceIdx st) (indexids st).

(** ** The triggers keep the counts *)

(** The count and the size of the rows with a key. *)
Definition tally (k : countsKey) (rows : list filesRow) : Z * Z :=
  fold_right (λ r acc, if bool_decide (row_key r = k) then (acc.1 + 1, acc.2 + size r) else acc)
    (0, 0) rows.

Definition counts_for (m : gmap countsKey (Z * Z)) (rows : list filesRow) : Prop :=
  ∀ k, match m !! k with
       | Some c => c = tally k rows
       | None => Forall (λ r, row_key r ≠ k) rows
       end.
Definition counts_ok (st : folderDB) : Prop := counts_for (counts st) (files st).

Lemma tally_perm k rows rows' : rows ≡ₚ rows' → tally k rows = tally k rows'.
Proof.
  induction 1; simpl; [done|by rewrite IHPermutation| |congruence].
  repeat case_bool_decide; try done. simpl. f_equal; lia.
Qed.

#[export] Instance counts_for_proper : Proper ((=) ==> (≡ₚ) ==> iff) counts_for.
Proof.
  intros m _ <- rows rows' Hp. unfold counts_for. apply forall_proper. intros k.
  destruct (m !! k); [by rewrite (tally_perm k _ _ Hp)|by rewrite Hp].
Qed.

Lemma tally_none k rows : Forall (λ r, row_key r ≠ k) rows → tally k rows = (0, 0).
Proof. induction 1 as [|r rows Hr _ IH]; simpl; [done|]. by rewrite bool_decide_eq_false_2. Qed.

Lemma counts_for_insert m rows r : counts_for m rows → counts_for (counts_insert m r) (r :: rows).
Proof.
  intros H k. specialize (H k). unfold counts_insert, counts_add. simpl.
  destruct (decide (row_key r = k)) as [<-|Hne].
  - rewrite bool_decide_eq_true_2 by done. destruct (m !! row_key r) as [[c s]|] eqn:Em.
    + rewrite lookup_insert_eq. rewrite <- H. simpl. done.
    + rewrite lookup_insert_eq. by rewrite tally_none.
  - rewrite bool_decide_eq_false_2 by done.
    assert (∀ v, <[row_key r := v]> m !! k = m !! k) as E.
    { intros v. by rewrite lookup_insert_ne. }
    destruct (m !! row_key r) as [[c s]|]; rewrite E; (destruct (m !! k); [done|by constructor]).
Qed.

Lemma counts_for_delete m rows r : counts_for m (r :: rows) → counts_for (counts_delete m r) rows.
Proof.
  intros H k. pose proof (H k) as Hk. unfold counts_delete, counts_sub. simpl in Hk.
  destruct (decide (row_key r = k)) as [<-|Hne].
  - rewrite bool_decide_eq_true_2 in Hk by done. destruct (m !! row_key r) as [[c s]|] eqn:Em.
    + rewrite lookup_insert_eq. injection Hk as -> ->.
      rewrite (surjective_pairing (tally _ _)) at 3. f_equal; lia.
    + rewrite Em. by apply Forall_cons in Hk as [? _].
  - rewrite bool_decide_eq_false_2 in Hk by done.
    assert (∀ v, <[row_key r := v]> m !! k = m !! k) as E.
    { intros v. by rewrite lookup_insert_ne. }
    destruct (m !! row_key r) as [[c s]|]; rewrite ?E; (destruct (m !! k); [done|]);
      by apply Forall_cons in Hk as [_ ?].
Qed.

Lemma counts_for_deletes gone m rows :
  counts_for m (gone ++ rows) → counts_for (fold_left counts_delete gone m) rows.
Proof.
  revert m. induction gone as [|r gone IH]; intros m H; simpl; [done|].
  apply IH. by apply counts_for_delete.
Qed.

Lemma counts_for_update m rows r r' :
  row_key r' = (device_idx r, type r, local_flags r', deleted r) → size r' = size r →
  counts_for m (r :: rows) → counts_for (counts_update m r r') (r' :: rows).
Proof.
  intros Hk Hs H. unfold counts_update. destruct (Z.eqb_spec (local_flags r') (local_flags r)) as [E|].
  - intros k. specialize (H k). assert (row_key r' = row_key r) as Hkk by (rewrite Hk, E; done).
    simpl in *. rewrite Hkk, Hs. destruct (m !! k); [done|]. rewrite Forall_cons in *. by rewrite Hkk.
  - apply counts_for_delete. rewrite (Permutation_swap r' r). by apply counts_for_insert.
Qed.

Lemma counts_for_updates (f : filesRow → filesRow) todo ready m :
  only_flags f → counts_for m (todo ++ ready) →
  counts_for (fold_left (λ m r, counts_update m r (f r)) todo m) (map f todo ++ ready).
Proof.
  intros Hf. revert m ready. induction todo as [|r todo IH]; intros m ready H; simpl; [done|].
  rewrite (Permutation_middle (map f todo) ready (f r)). apply IH.
  rewrite <- (Permutation_middle todo ready (f r)). apply counts_for_update; [| |done].
  - rewrite (Hf r) at 1. done.
  - by rewrite (Hf r).
Qed.

(** ** Invariants of the statements

    A property of the tables that every statement keeps is kept by every
    operation. *)
Record statement_invariant (I : folderDB → Prop) : Prop := {
  inv_same st st' : files st' = files st → counts st' = counts st → I st → I st';
  inv_delete p st : I st → I (delete_rows p st);
  inv_insert r st : I st → I (insert_or_replace r st).1;
  inv_update f st : only_flags f → I st → I (update_rows f st);
  inv_device device st : I st → I (delete_device st device);
}.

Section invariants.
Context {E : Engine}.
Variable sha256 : list Z → list Z.
Variable NormalizedFilename : string → string.
Variable I : folderDB → Prop.
Hypothesis HI : statement_invariant I.

Lemma recalc_invariant st n st' : recalcGlobalForFile st n = Ok st' → I st → I st'.
Proof.
  unfold recalcGlobalForFile. destruct (collect _) as [es| |]; [|done..]. cbn [mbind go_bind].
  destruct (pick_global _ _) as [[g fl]|]; intros [= <-]; [|done]. intros H.
  apply (inv_update _ HI), (inv_update _ HI); [apply clear_others_flags|apply mark_global_flags|done].
Qed.

Lemma recalc_all_invariant names st st' : recalc_all st names = Ok st' → I st → I st'.
Proof.
  revert st. induction names as [|n names IH]; intros st; simpl; [by intros [= ->]|].
  destruct (recalcGlobalForFile st n) as [st1| |] eqn:Er; [|done..]. cbn [mbind go_bind].
  intros H Hi. eapply IH; [done|]. by eapply recalc_invariant.
Qed.

Lemma deviceIdxLocked_invariant st device : I st → I (deviceIdxLocked st device).1.
Proof.
  intros H. unfold deviceIdxLocked. destruct (devices st !! device); [done|].
  by apply (inv_same _ HI st).
Qed.

Lemma update_file_invariant st d local skip f st' :
  update_file sha256 NormalizedFilename st d local skip f = Ok st' → I st → I st'.
Proof.
  unfold update_file. set (r := file_row _ _ _). set (g := stored_form _ _ _).
  rewrite (surjective_pairing (insert_or_replace r st)).
  destruct (FileInfo_ToWire _ _) as [w| |]; [|done..]. cbn [mbind go_bind].
  destruct (insert_blocklist_files g local skip (insert_or_replace r st).1)
    as (E1 & _ & _ & _ & _ & _ & _ & E2).
  unfold insert_fileinfo. destruct (_ !! _); [done|]. cbn [mbind go_bind].
  intros H Hi. eapply recalc_invariant; [exact H|].
  apply (inv_same _ HI (insert_or_replace r st).1); [done..|]. by apply (inv_insert _ HI).
Qed.

Lemma update_loop_invariant fs st d local skip prev st' :
  update_loop sha256 NormalizedFilename st d local skip prev fs = Ok st' → I st → I st'.
Proof.
  revert st prev. induction fs as [|f fs IH]; intros st prev; simpl; [by intros [= ->]|].
  destruct (_ && _); [done|].
  destruct (update_file _ _ _ _ _ _ _) as [st1| |] eqn:Eu; [|done..]. cbn [mbind go_bind].
  intros H Hi. eapply IH; [done|]. by eapply update_file_invariant.
Qed.

Lemma transact_invariant st r : I st → (∀ st', r = Ok st' → I st') → I (transact st r).1.
Proof. intros H Hr. destruct r; simpl; auto. Qed.

Lemma perform_invariant st op : I st → I (perform sha256 NormalizedFilename st op).1.
Proof.
  intros H. destruct op as [device fs skip|device|device|device names]; simpl.
  - unfold Update. rewrite (surjective_pairing (deviceIdxLocked st device)).
    pose proof (deviceIdxLocked_invariant st device H) as H1.
    destruct (update_loop _ _ _ _ _ _ _ _) eqn:El; simpl; [|done..].
    by eapply update_loop_invariant.
  - unfold DropDevice. case_bool_decide; [done|]. apply transact_invariant; [done|].
    intros st' Hr. eapply recalc_all_invariant; [exact Hr|]. by apply (inv_device _ HI).
  - unfold DropAllFiles. rewrite (surjective_pairing (deviceIdxLocked st device)).
    pose proof (deviceIdxLocked_invariant st device H) as H1.
    destruct (existsb _ _); [|by apply (inv_delete _ HI)]. apply transact_invariant; [done|].
    intros st' Hr. eapply recalc_all_invariant; [exact Hr|]. by apply (inv_delete _ HI).
  - unfold DropFilesNamed. rewrite (surjective_pairing (deviceIdxLocked st device)).
    pose proof (deviceIdxLocked_invariant st device H) as H1. apply transact_invariant; [done|].
    intros st' Hr. eapply recalc_all_invariant; [exact Hr|]. by apply (inv_delete _ HI).
Qed.
End invariants.

(** ** Sums of counts *)

Definition plus_counts (a b : Counts) : Counts :=
  MkCounts (Files a + Files b) (Directories a + Directories b) (Symlinks a + Symlinks b)
           (DeletedCount a + DeletedCount b) (Bytes a + Bytes b).
Definition weight (r : countsRow) : Counts := count_row zero_counts r.
Definition sum_weights (l : list countsRow) : Counts :=
  fold_right (λ r acc, plus_counts (weight r) acc) zero_counts l.

(** The row of [counts] a single row of [files] accounts for. *)
Definition row_counts (r : filesRow) : countsRow :=
  MkCountsRow (type r) 1 (size r) (deleted r) (local_flags r).
(** Counting the rows one by one. *)
Definition count_rows (rows : list filesRow) : Counts := summarizeCounts (row_counts <$> rows).

Lemma plus_counts_comm a b : plus_counts a b = plus_counts b a.
Proof. unfold plus_counts. f_equal; lia. Qed.
Lemma plus_counts_assoc a b c : plus_counts a (plus_counts b c) = plus_counts (plus_counts a b) c.
Proof. unfold plus_counts. simpl. f_equal; lia. Qed.
Lemma plus_counts_zero a : plus_counts zero_counts a = a.
Proof. unfold plus_counts. destruct a. simpl. f_equal; lia. Qed.

Lemma count_row_weight c r : count_row c r = plus_counts c (weight r).
Proof.
  unfold weight, count_row, plus_counts, zero_counts. destruct c. simpl.
  destruct (cDeleted r), (cType r =? FileInfoTypeFile), (cType r =? FileInfoTypeDirectory),
    (cType r =? FileInfoTypeSymlink); simpl; f_equal; lia.
Qed.

Lemma summarize_weights l : summarizeCounts l = sum_weights l.
Proof.
  unfold summarizeCounts. rewrite <- (plus_counts_zero (sum_weights l)).
  generalize zero_counts. induction l as [|r l IH]; intros c; simpl.
  - rewrite plus_counts_comm. by rewrite plus_counts_zero.
  - by rewrite IH, count_row_weight, plus_counts_assoc.
Qed.

Lemma sum_weights_perm l l' : l ≡ₚ l' → sum_weights l = sum_weights l'.
Proof.
  induction 1 as [|r l l' _ IH|r r' l|]; simpl; [done|by rewrite IH| |congruence].
  by rewrite !plus_counts_assoc, (plus_counts_comm (weight r')).
Qed.

Lemma sum_weights_app l l' : sum_weights (l ++ l') = plus_counts (sum_weights l) (sum_weights l').
Proof.
  induction l as [|r l IH]; simpl; [by rewrite plus_counts_zero|].
  by rewrite IH, plus_counts_assoc.
Qed.

Lemma weight_zero ty del fl : weight (MkCountsRow ty 0 0 del fl) = zero_counts.
Proof. unfold weight, count_row. simpl. by destruct del, (ty =? FileInfoTypeFile), (ty =? FileInfoTypeDirectory),
    (ty =? FileInfoTypeSymlink). Qed.

Lemma weight_plus ty c s c' s' del fl :
  weight (MkCountsRow ty (c + c') (s + s') del fl) =
  plus_counts (weight (MkCountsRow ty c s del fl)) (weight (MkCountsRow ty c' s' del fl)).
Proof.
  unfold weight, count_row, plus_counts. simpl.
  by destruct del, (ty =? FileInfoTypeFile), (ty =? FileInfoTypeDirectory),
    (ty =? FileInfoTypeSymlink).
Qed.

(** What a selection of [counts] sums up to. *)
Definition selected (p : countsKey → bool) (m : gmap countsKey (Z * Z)) : Counts :=
  sum_weights (counts_row <$> filter (λ kv, p kv.1 = true) (map_to_list m)).

Lemma selected_insert p m k v :
  selected p (<[k := v]> m) =
  plus_counts (if p k then weight (counts_row (k, v)) else zero_counts) (selected p (delete k m)).
Proof.
  unfold selected. rewrite <- insert_delete_eq.
  rewrite (sum_weights_perm _ (counts_row <$> filter (λ kv, p kv.1 = true)
             ((k, v) :: map_to_list (delete k m)))).
  - rewrite filter_cons. simpl. destruct (p k); simpl; [done|]. by rewrite plus_counts_zero.
  - by rewrite map_to_list_insert by apply lookup_delete_eq.
Qed.

Lemma selected_zero p m : (∀ k v, m !! k = Some v → v = (0, 0)) → selected p m = zero_counts.
Proof.
  intros H. unfold selected.
  assert (Forall (λ kv : countsKey * (Z * Z), kv.2 = (0, 0)) (map_to_list m)) as Hall.
  { apply Forall_forall. intros [k v] Hkv%elem_of_map_to_list. by eapply H. }
  induction Hall as [|[[[[d ty] fl] del] v] l Hv _ IH]; [done|]. simpl in Hv. subst v.
  rewrite filter_cons. simpl. destruct (p _); simpl; [|done].
  by rewrite weight_zero, plus_counts_zero.
Qed.

Lemma selected_rows p m rows :
  counts_for m rows →
  selected p m = sum_weights (row_counts <$> filter (λ r, p (row_key r) = true) rows).
Proof.
  revert m. induction rows as [|r rows IH]; intros m H.
  { apply selected_zero. intros k v Hk. specialize (H k). by rewrite Hk in H. }
  pose proof (counts_for_delete m rows r H) as H'. specialize (IH _ H').
  pose proof (H (row_key r)) as Hk. simpl in Hk. rewrite bool_decide_eq_true_2 in Hk by done.
  unfold counts_delete, counts_sub in IH.
  destruct (m !! row_key r) as [[c s]|] eqn:Em; [|by apply Forall_cons in Hk as [? _]].
  rewrite <- (insert_id m _ _ Em), selected_insert.
  rewrite selected_insert in IH. rewrite filter_cons.
  destruct (p (row_key r)) eqn:Ep; simpl; [|done].
  change (list_fmap _ _ row_counts ?l) with (row_counts <$> l).
  rewrite <- IH, plus_counts_assoc. f_equal. unfold row_counts. simpl.
  rewrite <- weight_plus. do 2 f_equal; lia.
Qed.

Lemma select_counts_rows p st :
  counts_ok st →
  summarizeCounts (select_counts p st) = count_rows (filter (λ r, p (row_key r) = true) (files st)).
Proof.
  intros H. unfold count_rows. rewrite !summarize_weights. by apply selected_rows.
Qed.

Lemma filter_split (p : filesRow → bool) l :
  l ≡ₚ filter (λ r, p r = true) l ++ filter (λ r, p r = false) l.
Proof.
  induction l as [|r l IH]; [done|]. rewrite !filter_cons.
  destruct (p r); simpl; [by rewrite <- IH|]. by rewrite <- Permutation_middle, <- IH.
Qed.

Lemma counts_for_delete_rows p st :
  counts_ok st → counts_for (counts (delete_rows p st)) (files (delete_rows p st)).
Proof.
  unfold counts_ok. intros H. cbn [delete_rows counts files]. apply counts_for_deletes.
  by rewrite <- filter_split.
Qed.

Lemma counts_ok_invariant : statement_invariant counts_ok.
Proof.
  unfold counts_ok. split.
  - by intros st st' -> ->.
  - intros p st H. by apply counts_for_delete_rows.
  - intros r st H. cbn [insert_or_replace fst files counts].
    rewrite (Permutation_app_comm (files _)). simpl. apply counts_for_insert.
    by apply (counts_for_delete_rows (conflicts r)).
  - intros f st Hf H. cbn [update_rows with_files files counts].
    rewrite <- (app_nil_r (map f (files st))). apply counts_for_updates; [done|].
    by rewrite app_nil_r.
  - intros device st H. unfold delete_device. destruct (devices st !! device) as [idx|]; [|done].
    pose proof (counts_for_delete_rows (λ r, device_idx r =? idx) st H) as Hd. cbn [counts files].
    intros k. specialize (Hd k). destruct (decide (k.1.1.1 = idx)) as [Hk|Hk].
    + rewrite map_lookup_filter_None_2.
      * apply Forall_forall. intros r [Hr _]%list_elem_of_filter Heq. apply Z.eqb_neq in Hr.
        apply Hr. by rewrite <- Hk, <- Heq.
      * right. intros c _. simpl. auto.
    + destruct (counts (delete_rows _ st) !! k) as [c|] eqn:Ec.
      * by rewrite (map_lookup_filter_Some_2 _ _ _ c).
      * rewrite map_lookup_filter_None_2 by auto. done.
Qed.

(** ** Properties *)

(** *** Grouping *)

Lemma sum_weights_add {A} (a b : A → countsRow) (c : A → Counts) ks :
  (∀ k, weight (a k) = plus_counts (c k) (weight (b k))) →
  sum_weights (a <$> ks) =
  plus_counts (fold_right (λ k acc, plus_counts (c k) acc) zero_counts ks) (sum_weights (b <$> ks)).
Proof.
  intros H. induction ks as [|k ks IH]; simpl; [by rewrite plus_counts_zero|].
  change (list_fmap A countsRow a ks) with (a <$> ks).
  change (list_fmap A countsRow b ks) with (b <$> ks).
  rewrite IH, H. rewrite <- !plus_counts_assoc. f_equal. rewrite !plus_counts_assoc. f_equal.
  apply plus_counts_comm.
Qed.

Lemma sum_one {A} `{EqDecision A} (k0 : A) (w : Counts) ks :
  NoDup ks → k0 ∈ ks →
  fold_right (λ k acc, plus_counts (if bool_decide (k = k0) then w else zero_counts) acc)
    zero_counts ks = w.
Proof.
  assert (∀ ks, k0 ∉ ks →
    fold_right (λ k acc, plus_counts (if bool_decide (k = k0) then w else zero_counts) acc)
      zero_counts ks = zero_counts) as Hz.
  { induction ks0 as [|k l IH]; intros Hni; simpl; [done|].
    apply not_elem_of_cons in Hni as [? ?]. rewrite bool_decide_eq_false_2 by done.
    rewrite IH by done. apply plus_counts_zero. }
  induction 1 as [|k ks Hk Hnd IH]; intros Hin; [by apply elem_of_nil in Hin|]. simpl.
  case_bool_decide as He.
  - subst k. rewrite Hz by done. by rewrite plus_counts_comm, plus_counts_zero.
  - apply elem_of_cons in Hin as [?|Hin]; [done|]. rewrite IH by done. apply plus_counts_zero.
Qed.

(** One row of the grouped query. *)
Definition group_row (rows : list filesRow) (k : Z * Z * bool) : countsRow :=
  let group := filter (λ r, group_key r = k) rows in
  MkCountsRow k.1.1 (Z.of_nat (length group)) (fold_right Z.add 0 (map size group)) k.2 k.1.2.

Lemma group_rows_sum rows ks :
  NoDup ks → (∀ r, r ∈ rows → group_key r ∈ ks) →
  sum_weights (group_row rows <$> ks) = sum_weights (row_counts <$> rows).
Proof.
  intros Hnd. induction rows as [|r rows IH]; intros Hin.
  - simpl. induction ks as [|[[ty fl] del] ks IHk]; simpl; [done|].
    apply NoDup_cons in Hnd as [_ Hnd].
    unfold group_row at 1. simpl. rewrite weight_zero, plus_counts_zero. apply IHk; [done|].
    by intros r ?%elem_of_nil.
  - rewrite (sum_weights_add _ (group_row rows)
      (λ k, if bool_decide (k = group_key r) then weight (row_counts r) else zero_counts)).
    + rewrite sum_one; [|done|apply Hin; left]. rewrite IH; [done|]. intros r' Hr. apply Hin. by right.
    + intros k. case_bool_decide as Hk.
      * subst k. unfold group_row. rewrite filter_cons_True by done. simpl.
        unfold row_counts. rewrite <- weight_plus. do 2 f_equal; lia.
      * unfold group_row. rewrite filter_cons_False by done. by rewrite plus_counts_zero.
Qed.

Lemma group_counts_sum rows : sum_weights (group_counts rows) = sum_weights (row_counts <$> rows).
Proof.
  change (group_counts rows) with (group_row rows <$> remove_dups (map group_key rows)).
  apply group_rows_sum; [apply NoDup_remove_dups|]. intros r Hr. apply elem_of_remove_dups.
  by apply (list_elem_of_fmap_2 group_key).
Qed.

Lemma not_invalid_not_ignored f : FlagLocal_IsInvalid f = false → has_flag f FlagLocalIgnored = false.
Proof.
  unfold FlagLocal_IsInvalid. intros H.
  change FlagLocalIgnored with (Z.land LocalInvalidFlags FlagLocalIgnored).
  rewrite <- has_flag_land. unfold has_flag in *. apply negb_false_iff, Z.eqb_eq in H.
  by rewrite H, Z.land_0_l.
Qed.

Section counting.
Context {E : Engine}.
Variable sha256 : list Z → list Z.
Variable NormalizedFilename : string → string.

(** C21.  The triggers keep the counts exact: in a new database and after every
    update and every removal each count is that of the rows with its key, so that
    the counts of a device, of the global files, of the changes in a receive-only
    folder and of the needed files are what counting the rows gives. *)
Theorem counts_exact st op device :
  counts_ok openFolderDB ∧
  (counts_ok st →
   counts_ok (perform sha256 NormalizedFilename st op).1 ∧
   CountLocal st device =
     count_rows (filter (λ r, of_device st device (device_idx r) &&
                              negb (has_flag (local_flags r) FlagLocalIgnored) = true) (files st)) ∧
   CountGlobal st = count_rows (filter (λ r, valid_global r = true) (files st)) ∧
   CountReceiveOnlyChanged st =
     count_rows (filter (λ r, has_flag (local_flags r) FlagLocalReceiveOnly = true) (files st)) ∧
   needSizeLocal st =
     count_rows (filter (λ r, has_flag (local_flags r) FlagLocalNeeded = true) (files st))).
Proof.
  split; [intros k; by constructor|]. intros H.
  split; [by apply perform_invariant, H; apply counts_ok_invariant|].
  unfold CountLocal, CountGlobal, CountReceiveOnlyChanged, needSizeLocal.
  by rewrite !select_counts_rows.
Qed.

End counting.

(** The size of what a device needs agrees with the list of the files it
    needs, for the local device, where one comes from the counts and the other from
    the needed marks, and for every other device, where both are queries. *)
Theorem need_count_agrees st device :
  counts_ok st → marked st →
  CountNeed st device =
  count_rows (if bool_decide (device = LocalDeviceID) then neededGlobalFilesLocal st
              else neededGlobalFilesRemote st device).
Proof.
  intros Hc Hm. unfold CountNeed. case_bool_decide as Hd.
  - unfold needSizeLocal. rewrite select_counts_rows by done. f_equal.
    unfold neededGlobalFilesLocal. apply filter_ext_in. intros r Hr. unfold row_key, key_flags. simpl.
    rewrite andb_true_iff, negb_true_iff. split; [|tauto]. intros Hn. split; [|done].
    assert (r ∈ rows_of st (name r)) as Hr' by (by apply elem_rows_of).
    destruct (Hm (name r)) as (g & _ & Hg). { intros Hnil. rewrite Hnil in Hr'. by apply elem_of_nil in Hr'. }
    destruct (Hg r Hr') as [_ Hg']. destruct (Hg' Hn) as (_ & Hi & _).
    by apply not_invalid_not_ignored.
  - unfold needSizeRemote, neededGlobalFilesRemote, count_rows.
    rewrite !summarize_weights, fmap_app, !sum_weights_app. by rewrite !group_counts_sum.
Qed.


(** *** Reading back *)

Lemma filter_unique {A} (P : A → Prop) `{!∀ x, Decision (P x)} (l : list A) x :
  NoDup l → x ∈ l → P x → (∀ y, y ∈ l → P y → y = x) → filter P l = [x].
Proof.
  intros Hnd Hx HP Hu. apply Permutation_singleton_r. symmetry.
  apply NoDup_Permutation; [apply NoDup_singleton|by apply NoDup_filter|].
  intros y. rewrite list_elem_of_singleton, list_elem_of_filter. naive_solver.
Qed.

(** The one row of a device and a name. *)
Lemma device_rows st device d r :
  db_ok st → devices st !! device = Some d → r ∈ files st → device_idx r = d →
  filter (λ r', of_device st device (device_idx r') && named (name r) r' = true) (files st) = [r].
Proof.
  intros Hok Hd Hr Hdr. apply filter_unique.
  - eapply NoDup_fmap_1, ok_sequences, Hok.
  - done.
  - unfold of_device, named. rewrite Hd, Hdr. by rewrite !bool_decide_eq_true_2.
  - intros r' Hr'. unfold of_device, named. rewrite Hd, andb_true_iff, !bool_decide_eq_true.
    intros [[= Hd'] Hn]. eapply same_name; [done..|congruence|done].
Qed.

Lemma unflagged_elem rs rs' r : unflagged rs' = unflagged rs → r ∈ rs →
  ∃ fl, set_flags r fl ∈ rs'.
Proof.
  intros H Hr. apply elem_unflagged in Hr. rewrite <- H in Hr.
  apply list_elem_of_fmap in Hr as (r' & E' & Hr'). exists (local_flags r').
  replace (set_flags r (local_flags r')) with r'; [done|].
  destruct r, r'. cbn in *. by injection E' as -> -> -> -> -> -> -> -> -> ->.
Qed.

Section reading.
Context {E : Engine}.
Variable sha256 : list Z → list Z.
Variables NormalizedFilename NativeFilename : string → string.

(** A file with another name and other blocks. *)
Definition renamed (g : FileInfo) (n : string) (bs : list BlockInfo) : FileInfo :=
  {| fName := n; fSize := fSize g; fModifiedS := fModifiedS g; fModifiedBy := fModifiedBy g;
     fVersion := fVersion g; fSequence := fSequence g; fBlocks := bs;
     fSymlinkTarget := fSymlinkTarget g; fBlocksHash := fBlocksHash g;
     fPreviousBlocksHash := fPreviousBlocksHash g; fEncrypted := fEncrypted g;
     fPlatform := fPlatform g; fType := fType g; fPermissions := fPermissions g;
     fModifiedNs := fModifiedNs g; fRawBlockSize := fRawBlockSize g; fDeleted := fDeleted g;
     fNoPermissions := fNoPermissions g; fLocalFlags := fLocalFlags g;
     fEncryptionTrailerSize := fEncryptionTrailerSize g; ftruncated := ftruncated g |}.

(** What is read back: the normalised name, the synthetic size of a directory,
    the hash of the blocks and, for a local file, the number of the new row. *)
Definition read_back (st : folderDB) (device : list Z) (f : FileInfo) : FileInfo :=
  {| fName := NativeFilename (NormalizedFilename (fName f));
     fSize := if IsDirectory f then SyntheticDirectorySize else fSize f;
     fModifiedS := fModifiedS f; fModifiedBy := fModifiedBy f; fVersion := fVersion f;
     fSequence := if bool_decide (device = LocalDeviceID) then files_seq st + 1 else fSequence f;
     fBlocks := fBlocks f; fSymlinkTarget := fSymlinkTarget f;
     fBlocksHash := match fBlocks f with [] => [] | bs => BlocksHash sha256 bs end;
     fPreviousBlocksHash := fPreviousBlocksHash f; fEncrypted := fEncrypted f;
     fPlatform := fPlatform f; fType := fType f; fPermissions := fPermissions f;
     fModifiedNs := fModifiedNs f; fRawBlockSize := fRawBlockSize f; fDeleted := fDeleted f;
     fNoPermissions := fNoPermissions f; fLocalFlags := fLocalFlags f;
     fEncryptionTrailerSize := fEncryptionTrailerSize f; ftruncated := ftruncated f |}.

(** The hash of the blocks stands for no other list of blocks. *)
Definition no_collision (st : folderDB) (f : FileInfo) : Prop :=
  ∀ bl, blocklists st !! BlocksHash sha256 (fBlocks f) = Some bl → bl = map block_toWire (fBlocks f).

Lemma FromDB_with_name w n :
  FileInfoFromDB (with_name w n) = renamed (FileInfoFromDB w) n (fBlocks (FileInfoFromDB w)).
Proof. done. Qed.
Lemma FromDB_with_blocks w b bs :
  FileInfoFromDB (with_blocks w (b :: bs)) =
  renamed (FileInfoFromDB w) (fName (FileInfoFromDB w)) (map BlockInfoFromWire (b :: bs)).
Proof. done. Qed.
Lemma FromDB_name w : fName (FileInfoFromDB w) = wName w.
Proof. done. Qed.

Lemma indirect_read f seq w bl :
  file_ok f → ftruncated f = false →
  FileInfo_ToWire (strip_blocks (stored_form sha256 NormalizedFilename f) seq) true = Ok w →
  bl = (if (0 <? length (fBlocks f))%nat then Some (map block_toWire (fBlocks f)) else None) →
  indirectFI_FileInfo NativeFilename (MkIndirectFI w bl) =
  renamed (strip_blocks (stored_form sha256 NormalizedFilename f) seq)
    (NativeFilename (NormalizedFilename (fName f))) (fBlocks f).
Proof.
  intros (Hb & Ht & Hp) Htr Hw ->. set (g := strip_blocks _ _) in *.
  assert (FileInfoFromDB w = g) as Hg.
  { apply FromDB_ToWire; [|done|done]. split_and!; [constructor|done|done]. }
  assert (wName w = NormalizedFilename (fName f)) as Hn
    by (by rewrite <- FromDB_name, Hg).
  unfold indirectFI_FileInfo. cbn [FiProtobuf BlProtobuf].
  destruct (fBlocks f) as [|b bs] eqn:Ebs; cbn [length Nat.ltb Nat.leb map].
  - by rewrite FromDB_with_name, Hg, Hn.
  - rewrite FromDB_with_name, FromDB_with_blocks, Hg.
    change (wName (with_blocks _ _)) with (wName w). rewrite Hn.
    unfold renamed. cbn [fSize fModifiedS fModifiedBy fVersion fSequence fBlocks].
    f_equal. apply (blocks_roundtrip (b :: bs) Hb).
Qed.

Lemma read_back_stored st device f :
  read_back st device f =
  renamed (strip_blocks (stored_form sha256 NormalizedFilename f)
             (if bool_decide (device = LocalDeviceID) then files_seq st + 1 else fSequence f))
    (NativeFilename (NormalizedFilename (fName f))) (fBlocks f).
Proof. unfold read_back, renamed, strip_blocks, stored_form. by destruct (fBlocks f). Qed.

(** A device's file is stored with the given number. *)
Definition holds (st : folderDB) (d : Z) (f : FileInfo) (seq : Z) : Prop :=
  ∃ r w, r ∈ files st ∧ device_idx r = d ∧ name r = NormalizedFilename (fName f) ∧
    blocklist_hash r = (if (0 <? length (fBlocks f))%nat
                        then Some (BlocksHash sha256 (fBlocks f)) else None) ∧
    FileInfo_ToWire (strip_blocks (stored_form sha256 NormalizedFilename f) seq) true = Ok w ∧
    fileinfos st !! sequence r = Some w ∧
    ((0 <? length (fBlocks f))%nat = true →
     blocklists st !! BlocksHash sha256 (fBlocks f) = Some (map block_toWire (fBlocks f))).

Lemma holds_read st device d f seq :
  db_ok st → file_ok f → ftruncated f = false → devices st !! device = Some d →
  holds st d f seq →
  GetDeviceFile NormalizedFilename NativeFilename st device (fName f) =
  Some (renamed (strip_blocks (stored_form sha256 NormalizedFilename f) seq)
          (NativeFilename (NormalizedFilename (fName f))) (fBlocks f)).
Proof.
  intros Hok Hf Ht Hd (r & w & Hr & Hdr & Hn & Hb & Hw & Hwl & Hbl).
  pose proof (device_rows st device d r Hok Hd Hr Hdr) as Hrows. rewrite Hn in Hrows.
  unfold GetDeviceFile, select_files. cbv zeta. rewrite Hrows. simpl. unfold join_row.
  rewrite Hwl, Hb. simpl. f_equal. apply indirect_read; [done..|].
  destruct (0 <? length (fBlocks f))%nat; [|done]. simpl. by apply Hbl.
Qed.

Lemma update_file_holds st d local skip f st' :
  update_file_result sha256 NormalizedFilename st d local skip f st' → no_collision st f →
  holds st' d f (if local then files_seq st + 1 else fSequence f).
Proof.
  intros Hres Hnc. destruct (uf_stored _ _ _ _ _ _ _ _ Hres) as (w & Hw & Hwl).
  destruct (unflagged_elem _ (files st') (with_sequence (new_row sha256 NormalizedFilename d local f)
    (files_seq st + 1)) (uf_files _ _ _ _ _ _ _ _ Hres)) as [fl Hr]; [set_solver|].
  eexists _, w. split; [exact Hr|].
  cbn [set_flags with_sequence device_idx name sequence blocklist_hash new_row file_row stored_form
       fName fBlocks fBlocksHash].
  split_and!; try done.
  - by destruct (0 <? length (fBlocks f))%nat.
  - by rewrite Hwl, lookup_insert_eq.
  - intros El. rewrite (uf_blocklists _ _ _ _ _ _ _ _ Hres). unfold insert_blocklist.
    cbn [stored_form fBlocks fBlocksHash]. rewrite El. cbn [blocklists].
    destruct (blocklists st !! _) as [bl|] eqn:Eb; [by rewrite Eb, (Hnc bl Eb)|].
    by rewrite lookup_insert_eq.
Qed.

(** C20.  A file that was stored is read back with all its data and its blocks,
    for the local device under the new sequence number, whatever file was stored
    under the name before; the update cannot fail. *)
Theorem Update_GetDeviceFile st device f skip :
  db_ok st → vector_wf (fVersion f) → file_ok f → ftruncated f = false → no_collision st f →
  ∃ st', Update sha256 NormalizedFilename st device [f] skip = (st', Ok ()) ∧
    GetDeviceFile NormalizedFilename NativeFilename st' device (fName f) =
    Some (read_back st device f).
Proof.
  intros Hok Hv Hf Ht Hnc. unfold Update.
  rewrite (surjective_pairing (deviceIdxLocked st device)).
  destruct (deviceIdxLocked_spec st device Hok) as (Hok1 & _ & _ & _ & Hs1 & Hd1 & _).
  assert (blocklists (deviceIdxLocked st device).1 = blocklists st) as Hbl.
  { unfold deviceIdxLocked. by destruct (devices st !! device). }
  set (st1 := (deviceIdxLocked st device).1) in *. set (d := (deviceIdxLocked st device).2) in *.
  set (local := bool_decide (device = LocalDeviceID)). cbn [update_loop].
  rewrite bool_decide_eq_false_2, andb_false_r by done.
  destruct (update_file_total sha256 NormalizedFilename st1 d local skip f Hok1 Hv Ht) as [st2 Hu].
  rewrite Hu. cbn [mbind go_bind]. exists st2. split; [done|].
  pose proof (update_file_spec _ _ _ _ _ _ _ _ Hok1 Hv Hu) as Hres.
  rewrite read_back_stored. fold local. rewrite <- Hs1. apply (holds_read st2 device d); try done.
  - by eapply uf_ok.
  - by rewrite (uf_devices _ _ _ _ _ _ _ _ Hres).
  - apply (update_file_holds _ _ _ _ _ _ Hres). unfold no_collision. by rewrite Hbl.
Qed.
End reading.

(** *** The index exchange *)

Lemma StronglySorted_strict (l : list filesRow) :
  NoDup (sequence <$> l) →
  StronglySorted (λ x y, (sequence y <? sequence x) = false) l →
  StronglySorted (λ x y, sequence x < sequence y) l.
Proof.
  intros Hnd Hs. induction Hs as [|r l Hs IH Hr]; [constructor|].
  rewrite fmap_cons in Hnd. apply NoDup_cons in Hnd as [Hni Hnd]. constructor; [auto|].
  rewrite Forall_forall in *. intros r' Hr'. specialize (Hr r' Hr'). apply Z.ltb_ge in Hr.
  assert (sequence r ≠ sequence r'); [|lia]. intros He. apply Hni. rewrite He.
  by apply list_elem_of_fmap_2.
Qed.

Section delta.
Context {E : Engine}.
Variable sha256 : list Z → list Z.
Variable NormalizedFilename : string → string.

(** The rows of device [d] with a number above [s0] are those of the names in
    [done], each of which has one. *)
Definition delta (d s0 : Z) (ready : list string) (st : folderDB) : Prop :=
  (∀ r, r ∈ files st → device_idx r = d → (s0 < sequence r ↔ name r ∈ ready)) ∧
  (∀ n, n ∈ ready → ∃ r, r ∈ files st ∧ device_idx r = d ∧ name r = n).

Lemma update_file_delta st d skip f st' s0 ready :
  update_file_result sha256 NormalizedFilename st d true skip f st' → s0 ≤ files_seq st →
  delta d s0 ready st → delta d s0 (NormalizedFilename (fName f) :: ready) st'.
Proof.
  intros Hres Hs0 [H1 H2]. set (n0 := NormalizedFilename (fName f)).
  set (new := with_sequence (new_row sha256 NormalizedFilename d true f) (files_seq st + 1)).
  pose proof (uf_files _ _ _ _ _ _ _ _ Hres) as Hun. fold new in Hun. split.
  - intros r Hr Hd. apply elem_unflagged in Hr. rewrite Hun in Hr.
    apply list_elem_of_fmap in Hr as (r' & E' & Hr').
    pose proof (f_equal device_idx E') as E1. pose proof (f_equal sequence E') as E2.
    pose proof (f_equal name E') as E3. cbn [set_flags device_idx sequence name] in E1, E2, E3.
    rewrite E2, E3. rewrite E1 in Hd. clear E' E1 E2 E3 Hun.
    apply elem_of_app in Hr' as [[Hc Hr']%list_elem_of_filter|Hr'].
    + rewrite (H1 r' Hr' Hd), elem_of_cons. split; [by right|]. intros [Hn|?]; [|done]. exfalso.
      unfold conflicts in Hc. cbn [new_row file_row device_idx name stored_form fName] in Hc.
      rewrite (proj2 (Z.eqb_eq _ _) Hd) in Hc. simpl in Hc.
      by rewrite bool_decide_eq_true_2 in Hc.
    + apply list_elem_of_singleton in Hr' as ->. unfold new.
      cbn [with_sequence sequence name new_row file_row stored_form fName].
      split; [by left|lia].
  - assert (∀ r, r ∈ files (delete_rows (conflicts (new_row sha256 NormalizedFilename d true f)) st)
                   ++ [new] → ∃ r', r' ∈ files st' ∧ device_idx r' = device_idx r ∧ name r' = name r)
      as Hex.
    { intros r Hr. destruct (unflagged_elem _ (files st') r Hun Hr) as [fl ?].
      by exists (set_flags r fl). }
    intros n Hn. destruct (decide (n = n0)) as [->|Hne].
    + destruct (Hex new) as (r & ? & ? & ?); [set_solver|]. eauto.
    + apply elem_of_cons in Hn as [?|Hn]; [done|]. destruct (H2 n Hn) as (r & Hr & Hd & Hrn).
      destruct (Hex r) as (r' & ? & ? & ?); [|exists r'; split_and!; [done|congruence..]].
      apply elem_of_app. left. apply list_elem_of_filter. split; [|done].
      unfold conflicts. cbn [new_row file_row device_idx name stored_form fName remote_sequence].
      rewrite bool_decide_eq_false_2 by (rewrite Hrn; exact Hne). apply andb_false_r.
Qed.

Lemma update_loop_delta fs st d skip prev st' s0 ready :
  Forall (λ f, vector_wf (fVersion f)) fs → db_ok st → s0 ≤ files_seq st → delta d s0 ready st →
  update_loop sha256 NormalizedFilename st d true skip prev fs = Ok st' →
  db_ok st' ∧ localDeviceIdx st' = localDeviceIdx st ∧ devices st' = devices st ∧
  files_seq st' = files_seq st + Z.of_nat (length fs) ∧
  delta d s0 (rev (map (λ f, NormalizedFilename (fName f)) fs) ++ ready) st' ∧
  (fs ≠ [] → snd <$> indexids st' !! d = Some (files_seq st')).
Proof.
  intros Hw. revert st prev ready. induction Hw as [|f fs Hf Hw IH];
    intros st prev ready Hok Hs0 Hd; simpl.
  { intros [= ->]. split_and!; try done. lia. }
  destruct (update_file _ _ st d true skip f) as [st1| |] eqn:Eu; [|done..]. cbn [mbind go_bind].
  intros Hl. pose proof (update_file_spec _ _ _ _ _ _ _ _ Hok Hf Eu) as Hres.
  pose proof (uf_seq _ _ _ _ _ _ _ _ Hres) as Hseq.
  destruct (IH st1 (Some (fSequence f)) (NormalizedFilename (fName f) :: ready) (uf_ok _ _ _ _ _ _ _ _ Hres))
    as (I1 & I2 & I3 & I4 & I5 & I6); [lia|by eapply update_file_delta|exact Hl|].
  split_and!; [done| | | | |].
  - rewrite I2. by eapply uf_local.
  - rewrite I3. by eapply uf_devices.
  - lia.
  - by rewrite <- app_assoc.
  - intros _. destruct fs as [|f' fs]; [|by apply I6]. injection Hl as <-.
    rewrite (uf_indexids _ _ _ _ _ _ _ _ Hres), Hseq. unfold indexids_seq.
    cbn [with_sequence device_idx new_row file_row sequence remote_sequence default].
    destruct (indexids st !! d) as [[id ?]|]; by rewrite lookup_insert_eq.
Qed.

(** C17.  Index updates are complete: after the local files of a batch are stored,
    the entries from the next number on, in strictly increasing order, are exactly
    the current rows of the names in the batch, and the announced sequence of the
    local device is the last number in use. *)
Theorem delta_index st fs skip st' :
  db_ok st → Forall (λ f, vector_wf (fVersion f)) fs →
  Update sha256 NormalizedFilename st LocalDeviceID fs skip = (st', Ok ()) →
  let names := map (λ f, NormalizedFilename (fName f)) fs in
  let rows := rows_by_sequence st' LocalDeviceID (files_seq st + 1) 0 in
  (∀ r, r ∈ rows ↔ r ∈ files st' ∧ device_idx r = localDeviceIdx st' ∧ name r ∈ names) ∧
  (∀ n, n ∈ names → ∃ r, r ∈ rows ∧ name r = n) ∧
  StronglySorted (λ a b, sequence a < sequence b) rows ∧
  (fs ≠ [] → GetDeviceSequence st' LocalDeviceID = files_seq st') ∧
  files_seq st' = files_seq st + Z.of_nat (length fs).
Proof.
  intros Hok Hw. unfold Update, deviceIdxLocked. rewrite (ok_local _ Hok).
  rewrite bool_decide_eq_true_2 by done.
  destruct (update_loop _ _ _ _ _ _ _ _) as [st1| |] eqn:El; [|done..]. intros [= ->].
  assert (delta (localDeviceIdx st) (files_seq st) [] st) as Hd0.
  { split; [|by intros n ?%elem_of_nil]. intros r Hr _. pose proof (ok_last _ Hok) as Hl.
    rewrite Forall_forall in Hl. specialize (Hl r Hr). rewrite elem_of_nil. lia. }
  destruct (update_loop_delta fs st _ skip None st' (files_seq st) [] Hw Hok (Z.le_refl _) Hd0 El)
    as (Hok' & Hl & Hdev & Hs & [H1 H2] & Hi).
  rewrite app_nil_r in H1, H2. cbv zeta. rewrite <- Hl in H1, H2, Hi.
  assert (∀ n, n ∈ rev (map (λ f, NormalizedFilename (fName f)) fs) ↔
               n ∈ map (λ f, NormalizedFilename (fName f)) fs) as Hrev.
  { intros n. rewrite !list_elem_of_In. symmetry. apply in_rev. }
  assert (∀ r, r ∈ rows_by_sequence st' LocalDeviceID (files_seq st + 1) 0 ↔
    r ∈ files st' ∧ device_idx r = localDeviceIdx st' ∧
    name r ∈ map (λ f, NormalizedFilename (fName f)) fs) as Hrows.
  { intros r. unfold rows_by_sequence. simpl. rewrite sort_by_perm, list_elem_of_filter.
    unfold of_device. rewrite (ok_local _ Hok'), andb_true_iff, bool_decide_eq_true, Z.leb_le, <- Hrev.
    split.
    - intros [[[= Hd] Hq] Hr]. split; [done|]. split; [done|]. apply (H1 r Hr); [done|lia].
    - intros (Hr & Hd & Hn). split; [|done]. split; [by rewrite Hd|].
      apply (H1 r Hr Hd) in Hn. lia. }
  split_and!; [done| | | |done].
  - intros n Hn. apply Hrev in Hn. destruct (H2 n Hn) as (r & Hr & Hd & <-).
    exists r. split; [|done]. apply Hrows. split_and!; [done..|by apply Hrev].
  - apply StronglySorted_strict.
    + unfold rows_by_sequence. simpl. rewrite sort_by_perm.
      eapply sublist_NoDup; [exact (ok_sequences _ Hok')|]. apply fmap_sublist, sublist_filter.
    + apply sort_by_sorted; intros; zb; apply Z.ltb_ge; lia.
  - intros Hne. specialize (Hi Hne). unfold GetDeviceSequence. rewrite (ok_local _ Hok'). simpl.
    by rewrite Hi.
Qed.
End delta.

(** *** Name ranges *)


Lemma bytes_ltb_nil a : bytes_ltb a [] = false.
Proof. by destruct a. Qed.

Lemma range_prefix q b e n :
  byte_val e = byte_val b + 1 → in_range (q ++ [b]) (q ++ [e]) n = prefixb (q ++ [b]) n.
Proof.
  intros He. unfold in_range. revert n. induction q as [|x q IH]; intros [|c n]; simpl; try done.
  - rewrite !bytes_ltb_nil, !andb_false_r, !orb_false_r, He, andb_true_r.
    destruct (Ascii.eqb_spec b c) as [->|Hne].
    + destruct (Z.ltb_spec (byte_val c) (byte_val c)), (Z.ltb_spec (byte_val c) (byte_val c + 1));
        simpl; lia || done.
    + assert (byte_val c ≠ byte_val b) by (intros H; apply Hne; by apply byte_val_inj).
      destruct (Z.ltb_spec (byte_val c) (byte_val b)), (Z.ltb_spec (byte_val c) (byte_val b + 1));
        simpl; lia || done.
  - destruct (Ascii.eqb_spec x c) as [->|Hne].
    + rewrite Z.ltb_irrefl, Z.eqb_refl. simpl. apply IH.
    + assert (byte_val c ≠ byte_val x) as Hc by (intros H; apply Hne; by apply byte_val_inj).
      rewrite (proj2 (Z.eqb_neq _ _) Hc). simpl. rewrite !orb_false_r. by destruct (_ <? _).
Qed.

(** The names from a prefix up to its [prefixEnd] are exactly the names that
    start with the prefix, provided its last byte is not 255, which no UTF-8 text
    has; the end of the empty prefix panics. *)
Theorem prefixEnd_spec p :
  prefixEnd [] = Panic "bug: cannot represent end prefix for empty string" ∧
  (p ≠ [] → (∀ c, last p = Some c → byte_val c < 255) →
   ∃ e, prefixEnd p = Ok e ∧ ∀ n, in_range p e n = prefixb p n).
Proof.
  split; [done|]. intros Hne Hlast. destruct p as [|b q _] using rev_ind; [done|].
  rewrite last_snoc in Hlast. specialize (Hlast b eq_refl).
  assert (prefixEnd (q ++ [b]) = Ok (q ++ [byte_chr (byte_val b + 1)])) as ->.
  { assert (prefixEnd_loop (rev (q ++ [b])) = byte_chr (byte_val b + 1) :: rev q) as El.
    { rewrite rev_app_distr. simpl. by rewrite (proj2 (Z.ltb_lt _ _) Hlast). }
    unfold prefixEnd. destruct (q ++ [b]) eqn:Eq; [by apply app_nil in Eq as [_ ?]|].
    rewrite El. simpl. by rewrite rev_involutive. }
  eexists. split; [done|]. intros n. apply range_prefix.
  rewrite byte_val_chr; [done|]. pose proof (byte_val_range b). unfold is_byte in *. lia.
Qed.

Lemma prefixEnd_spec_witness :
  ∃ e, prefixEnd (s2l "dir/") = Ok e ∧
    in_range (s2l "dir/") e (s2l "dir/file") = true ∧ in_range (s2l "dir/") e (s2l "dirt") = false.
Proof.
  destruct (prefixEnd_spec (s2l "dir/")) as [_ H].
  destruct H as (e & He & H); [discriminate|intros c [= <-]; reflexivity|].
  exists e. split; [exact He|]. rewrite !H. split; reflexivity.
Defined.

(** *** Index identifiers *)

Lemma indexID_roundtrip i : in_u64 i → indexIDFromHex (indexIDToHex i) = Ok i.
Proof.
  intros Hi. unfold indexIDFromHex, indexIDToHex.
  rewrite hex_decode_encode by apply be_encode_bytes.
  by rewrite length_be_encode, be_decode_encode.
Qed.

Lemma indexIDToHex_cons i : ∃ c s, indexIDToHex i = c :: s.
Proof. unfold indexIDToHex. simpl. eauto. Qed.

#[local] Opaque indexIDToHex indexIDFromHex.

Lemma SetIndexID_stored st device id :
  db_ok st →
  devices (SetIndexID st device id) !! device = Some (deviceIdxLocked st device).2 ∧
  indexids (SetIndexID st device id) !! (deviceIdxLocked st device).2 = Some (indexIDToHex id, 0).
Proof.
  intros Hok. destruct (deviceIdxLocked_spec st device Hok) as (_ & _ & _ & _ & _ & Hd & _).
  unfold SetIndexID. rewrite (surjective_pairing (deviceIdxLocked st device)).
  cbn [with_indexids devices indexids]. by rewrite lookup_insert_eq.
Qed.

Lemma DropAllFiles_indexids `{Engine} st device :
  db_ok st →
  indexids (DropAllFiles st device).1 = indexids (deviceIdxLocked st device).1 ∧
  devices (DropAllFiles st device).1 = devices (deviceIdxLocked st device).1.
Proof.
  intros Hok. unfold DropAllFiles. rewrite (surjective_pairing (deviceIdxLocked st device)).
  destruct (deviceIdxLocked_spec st device Hok) as (Hok1 & _).
  destruct (existsb _ _); [|done].
  match goal with |- context [recalcGlobalForFolder ?s] =>
    destruct (recalcGlobalForFolder_spec s) as (st' & -> & Hs & _); [by apply delete_rows_ok|] end.
  destruct (flag_steps_frame _ _ Hs) as [-> _]. done.
Qed.

(** The identifier of an index that was set for a device is what is read,
    with the sequence zero; the local identifier is drawn once and then stays;
    removing all files of a device keeps its sequence, which only a new identifier
    or new files change. *)
Theorem index_id_stable `{Engine} st device id newID newID' :
  db_ok st → in_u64 id → in_u64 newID →
  (GetIndexID (SetIndexID st device id) device newID).2 = Ok id ∧
  GetDeviceSequence (SetIndexID st device id) device = 0 ∧
  (let '(st1, r) := GetIndexID st LocalDeviceID newID in
   GetIndexID st1 LocalDeviceID newID' = (st1, r)) ∧
  (is_Some (devices st !! device) →
   GetDeviceSequence (DropAllFiles st device).1 device = GetDeviceSequence st device).
Proof.
  intros Hok Hid Hnew. destruct (SetIndexID_stored st device id Hok) as [Hd Hi].
  destruct (indexIDToHex_cons id) as (c & s & Ec).
  split; [|split; [|split]].
  - unfold GetIndexID, stored_index_id. rewrite Hd. simpl. rewrite Hi. simpl. rewrite Ec. simpl.
    rewrite <- Ec. by apply indexID_roundtrip.
  - unfold GetDeviceSequence. rewrite Hd. simpl. by rewrite Hi.
  - unfold GetIndexID, stored_index_id. rewrite (ok_local _ Hok). simpl.
    destruct (indexIDToHex_cons newID) as (c' & s' & Ec').
    destruct (indexids st !! localDeviceIdx st) as [[[|c0 s0] q]|] eqn:Ei; simpl;
      rewrite ?(ok_local _ Hok); simpl; rewrite ?Ei, ?lookup_insert_eq; simpl; rewrite ?Ec'; simpl;
      rewrite <- ?Ec', ?indexID_roundtrip by done; done.
  - intros [d Hdev]. destruct (DropAllFiles_indexids st device Hok) as [H1 H2].
    unfold GetDeviceSequence. rewrite H1, H2. unfold deviceIdxLocked. rewrite Hdev. simpl. by rewrite Hdev.
Qed.

(** ** Witnesses *)

Definition stBA : folderDB := run stB [opA].

Lemma counts_stB : counts_ok stB.
Proof.
  apply (perform_invariant (λ bs, take 4 bs) (λ n, n) counts_ok counts_ok_invariant).
  intros k. by constructor.
Qed.

Lemma counts_exact_witness :
  counts_ok stBA ∧ CountGlobal stB = MkCounts 1 0 0 0 3 ∧ needSizeLocal stB = MkCounts 1 0 0 0 3.
Proof.
  destruct (counts_exact (λ bs, take 4 bs) (λ n, n) stB opA (dev 2)) as [_ H].
  destruct (H counts_stB) as (H1 & _ & H2 & _ & H3).
  split; [exact H1|]. rewrite H2, H3. split; vm_compute; reflexivity.
Defined.

Lemma need_count_agrees_witness :
  CountNeed stB LocalDeviceID = MkCounts 1 0 0 0 3 ∧ CountNeed stB (dev 1) = MkCounts 1 0 0 0 3.
Proof.
  destruct stB_fine as (_ & Hm & _).
  rewrite (need_count_agrees stB LocalDeviceID counts_stB Hm), (need_count_agrees stB (dev 1) counts_stB Hm).
  split; vm_compute; reflexivity.
Defined.

Definition fileA : FileInfo := announce "f" (vec [(1, 2)]) 100 1 0.

Lemma fileA_ok : vector_wf (fVersion fileA) ∧ file_ok fileA.
Proof.
  split.
  - apply vec_wf; [by repeat constructor|]. apply Forall_cons_2; [|constructor]. by split.
  - split; [|split].
    + apply Forall_cons_2; [|constructor]. by split.
    + by split.
    + apply sample_file_ok.
Qed.

Lemma Update_GetDeviceFile_witness :
  ∃ st', Update (λ bs, take 4 bs) (λ n, n) stB (dev 1) [fileA] false = (st', Ok ()) ∧
    GetDeviceFile (λ n, n) (λ n, n) st' (dev 1) "f" =
    Some (read_back (λ bs, take 4 bs) (λ n, n) (λ n, n) stB (dev 1) fileA).
Proof.
  destruct stB_fine as (Hok & _), fileA_ok as [Hv Hf].
  apply (Update_GetDeviceFile (λ bs, take 4 bs) (λ n, n) (λ n, n) stB (dev 1) fileA false);
    [exact Hok|exact Hv|exact Hf|reflexivity|].
  intros bl. vm_compute. intros [= <-]. reflexivity.
Defined.

Lemma delta_index_witness :
  ∃ st', Update (λ bs, take 4 bs) (λ n, n) stB LocalDeviceID [fileA] false = (st', Ok ()) ∧
    StronglySorted (λ a b, sequence a < sequence b)
      (rows_by_sequence st' LocalDeviceID (files_seq stB + 1) 0) ∧
    GetDeviceSequence st' LocalDeviceID = 2.
Proof.
  destruct stB_fine as (Hok & _), fileA_ok as [Hv _].
  assert (Update (λ bs, take 4 bs) (λ n, n) stB LocalDeviceID [fileA] false =
          ((Update (λ bs, take 4 bs) (λ n, n) stB LocalDeviceID [fileA] false).1, Ok ())) as Hu.
  { vm_compute. reflexivity. }
  assert (Forall (λ f, vector_wf (fVersion f)) [fileA]) as Hw by (by constructor).
  eexists. split; [exact Hu|].
  destruct (delta_index (λ bs, take 4 bs) (λ n, n) stB [fileA] false _ Hok Hw Hu) as (_ & _ & H1 & H2 & H3).
  split; [exact H1|]. rewrite H2 by discriminate. rewrite H3. vm_compute. reflexivity.
Defined.

Lemma index_id_stable_witness :
  (GetIndexID (SetIndexID stB (dev 2) 77) (dev 2) 5).2 = Ok 77 ∧
  GetDeviceSequence (DropAllFiles stB (dev 2)).1 (dev 2) = 1.
Proof.
  destruct stB_fine as (Hok & _).
  destruct (index_id_stable stB (dev 2) 77 5 6 Hok) as (H1 & _ & _ & H4); [by split|by split|].
  split; [exact H1|]. rewrite H4 by (vm_compute; eauto). vm_compute. reflexivity.
Defined.
