(* ===== verification/IndexHandler.v ===== *)
(** * The index exchange ([src/lib/model/indexhandler.go], [fileinfobatch.go])

    An index handler sends the files of one folder to one device in batches and
    stores what the device sends.  The sender reads the database through the
    interface [LocalIndex], which [FolderDB] implements; the file proves that the
    batches are linked, that nothing is left out or sent twice, and that sending
    catches up with the database. *)
From S2P Require Import Prelude GoLib Vector Platform FileInfo DeviceID DownloadState Messages.
From S2P Require Import FolderDB FolderMarks FolderQueries.
From Stdlib Require Import Ascii.
From Stdlib Require String.

Local Open Scope Z_scope.

(** ** Batches ([fileinfobatch.go]) *)

Definition MaxBatchSizeBytes : Z := 250 * 1024.
Definition MaxBatchSizeFiles : nat := 1000.

Record FileInfoBatch := MkBatch { infos : list FileInfo; batch_size : Z }.

Definition NewFileInfoBatch : FileInfoBatch := MkBatch [] 0.
Definition Reset (b : FileInfoBatch) : FileInfoBatch := MkBatch [] 0.

Section batch.
(** [proto.Size] of a message. *)
Variable protoSize : bepFileInfo → Z.

Definition Append (b : FileInfoBatch) (f : FileInfo) : go FileInfoBatch :=
  let! w := FileInfo_ToWire f true in
  Ok (MkBatch (infos b ++ [f]) (batch_size b + protoSize w)).

Definition Full (b : FileInfoBatch) : bool :=
  (MaxBatchSizeFiles <=? length (infos b))%nat || (MaxBatchSizeBytes <=? batch_size b).

(** [flushFn] is applied to the files of a batch that is not empty; a batch whose
    flush failed is not used again. *)
Definition Flush {A} (flushFn : list FileInfo → A + string) (b : FileInfoBatch)
  : option (A + string) :=
  match infos b with
  | [] => None
  | fs => Some (flushFn fs)
  end.

(** ** Sending *)

Record indexHandler := MkHandler {
  folderIsReceiveEncrypted : bool;
  localPrevSequence : Z;
  sentPrevSequence : Z;
}.

(** The version is emptied for local changes in a receive-only folder, the size
    loses the trailer. *)
Definition prepareFileInfoForIndex (f : FileInfo) : FileInfo :=
  {| fName := fName f; fSize := i64 (fSize f - fEncryptionTrailerSize f);
     fModifiedS := fModifiedS f; fModifiedBy := fModifiedBy f;
     fVersion := if IsReceiveOnlyChanged f then MkVector [] else fVersion f;
     fSequence := fSequence f; fBlocks := fBlocks f; fSymlinkTarget := fSymlinkTarget f;
     fBlocksHash := fBlocksHash f; fPreviousBlocksHash := fPreviousBlocksHash f;
     fEncrypted := fEncrypted f; fPlatform := fPlatform f; fType := fType f;
     fPermissions := fPermissions f; fModifiedNs := fModifiedNs f;
     fRawBlockSize := fRawBlockSize f; fLocalFlags := fLocalFlags f;
     fEncryptionTrailerSize := fEncryptionTrailerSize f; fDeleted := fDeleted f;
     fNoPermissions := fNoPermissions f; ftruncated := ftruncated f |}.

Definition set_localPrev (s : indexHandler) (seq : Z) : indexHandler :=
  MkHandler (folderIsReceiveEncrypted s) seq (sentPrevSequence s).
Definition set_sentPrev (s : indexHandler) (seq : Z) : indexHandler :=
  MkHandler (folderIsReceiveEncrypted s) (localPrevSequence s) seq.

(** The loop over the files of the database; [last] is the sequence of the file
    before, 0 at first.  [iterErr] is the error with which the iteration ends after
    these files ([itererr.Zip]); when the loop is left before, there is none. *)
Fixpoint fill_batch (iterErr : option string) (s : indexHandler) (last : Z) (previousWasDelete : bool)
    (batch : FileInfoBatch) (fs : list FileInfo) : indexHandler * go FileInfoBatch :=
  match fs with
  | [] => (s, match iterErr with Some err => Err err | None => Ok batch end)
  | fi :: fs =>
      if Full batch && (negb (IsDeleted fi) || previousWasDelete) then (s, Ok batch)
      else if fSequence fi <? localPrevSequence s + 1 then (s, Err "database misbehaved")
      else if (0 <? last) && (fSequence fi <=? last) then (s, Err "database misbehaved")
      else
        let s := set_localPrev s (fSequence fi) in
        if folderIsReceiveEncrypted s && IsReceiveOnlyChanged fi
        then fill_batch iterErr s (fSequence fi) previousWasDelete batch fs
        else
          let f := prepareFileInfoForIndex fi in
          match Append batch f with
          | Ok batch => fill_batch iterErr s (fSequence f) (IsDeleted f) batch fs
          | Err e => (s, Err e)
          | Panic p => (s, Panic p)
          end
  end.

Section sending.
(** Whether the context is cancelled, and what the connection says to a message. *)
Variable cancelled : bool.
Variable conn : message → option string.

(** The function set with [SetFlushFunc]: the message that was sent. *)
Definition flush (initial : bool) (s : indexHandler) (fs : list FileInfo) : message + string :=
  if cancelled then inr "context canceled"%string
  else
    let lastSequence := default 0 (fSequence <$> last fs) in
    let m := if initial then Index fs lastSequence
             else IndexUpdate fs (sentPrevSequence s) lastSequence in
    match conn m with
    | Some err => inr err
    | None => inl m
    end.

(** [fetch] is [AllLocalFilesBySequence] with the folder and the local device: the files
    that the iteration yields; [iterErr] is the error it then ends with, for the
    number it started from. *)
Variable iterErr : Z → option string.

Definition sendIndexTo (fetch : Z → Z → list FileInfo) (s : indexHandler)
  : indexHandler * go (option message) :=
  let initial := localPrevSequence s =? 0 in
  let fs := fetch (localPrevSequence s + 1) (Z.of_nat MaxBatchSizeFiles + 1) in
  match fill_batch (iterErr (localPrevSequence s + 1)) s 0 false NewFileInfoBatch fs with
  | (s, Ok batch) =>
      match Flush (flush initial s) batch with
      | None => (s, Ok None)
      | Some (inl m) => (set_sentPrev s (LastSequence m), Ok (Some m))
      | Some (inr err) => (s, Err err)
      end
  | (s, Err e) => (s, Err e)
  | (s, Panic p) => (s, Panic p)
  end.

Definition prepend (m : option message) (r : indexHandler * go (list message))
  : indexHandler * go (list message) :=
  match r with
  | (s, Ok ms) => (s, Ok (match m with Some m => m :: ms | None => ms end))
  | r => r
  end.

(** The loop of [Serve] without its waits, as long as [seq], the sequence of the
    database, is greater than the last one looked at. *)
Fixpoint serve_loop (fuel : nat) (fetch : Z → Z → list FileInfo) (seq : Z) (s : indexHandler)
  : indexHandler * go (list message) :=
  match fuel with
  | O => (s, Err "out of fuel")
  | S fuel =>
      if seq <=? localPrevSequence s then (s, Ok [])
      else
        match sendIndexTo fetch s with
        | (s, Ok m) => prepend m (serve_loop fuel fetch seq s)
        | (s, Err e) => (s, Err e)
        | (s, Panic p) => (s, Panic p)
        end
  end.

(** Until it waits for changes of the database. *)
Definition Serve (fuel : nat) (fetch : Z → Z → list FileInfo) (seq : Z) (s : indexHandler)
  : indexHandler * go (list message) :=
  match sendIndexTo fetch s with
  | (s, Ok m) => prepend m (serve_loop fuel fetch seq s)
  | (s, Err e) => (s, Err e)
  | (s, Panic p) => (s, Panic p)
  end.
End sending.
End batch.

(** ** Starting ([newIndexHandler]) *)

(** What the other side knows about us and about itself. *)
Record clusterConfigDeviceInfo := MkDeviceInfo {
  local_IndexID : Z;
  local_MaxSequence : Z;
  remote_IndexID : Z;
}.

Definition start_sequence (myIndexID mySequence : Z) (info : clusterConfigDeviceInfo) : Z :=
  if local_IndexID info =? myIndexID then
    if mySequence <? local_MaxSequence info then 0 else local_MaxSequence info
  else 0.

Section database.
Context {E : Engine}.

Definition newIndexHandler (st : folderDB) (device : list Z) (encrypted : bool) (newID : Z)
    (info : clusterConfigDeviceInfo) : folderDB * go indexHandler :=
  match GetIndexID st LocalDeviceID newID with
  | (st, Ok myIndexID) =>
      let mySequence := GetDeviceSequence st LocalDeviceID in
      let startSequence := start_sequence myIndexID mySequence info in
      let theirIndexID := match (GetIndexID st device newID).2 with Ok id => id | _ => 0 end in
      let handler := MkHandler encrypted startSequence startSequence in
      if remote_IndexID info =? 0 then
        match DropAllFiles st device with
        | (st, Ok _) => (st, Ok handler)
        | (st, Err e) => (st, Err e)
        | (st, Panic p) => (st, Panic p)
        end
      else if negb (remote_IndexID info =? theirIndexID) then
        match DropAllFiles st device with
        | (st, Ok _) => (SetIndexID st device (remote_IndexID info), Ok handler)
        | (st, Err e) => (st, Err e)
        | (st, Panic p) => (st, Panic p)
        end
      else (st, Ok handler)
  | (st, Err e) => (st, Err e)
  | (st, Panic p) => (st, Panic p)
  end.

(** ** Receiving *)

Definition makeForgetUpdate (fs : list FileInfo) : list FileDownloadProgressUpdate :=
  omap (λ f, if IsSymlink f || IsDirectory f || IsDeleted f then None
             else Some (MkUpdate FileDownloadProgressUpdateTypeForget (fName f) (fVersion f) [] 0)) fs.

(** The anomalies that are reported about the files, [before] being the file
    before. *)
Fixpoint file_anomalies (prevSequence lastSequence : Z) (before : option FileInfo)
    (fs : list FileInfo) : list string :=
  match fs with
  | [] => []
  | f :: fs =>
      (if fSequence f <? prevSequence then ["file with sequence before prevSequence"%string] else []) ++
      (if (0 <? lastSequence) && (lastSequence <? fSequence f)
       then ["file with sequence after lastSequence"%string] else []) ++
      match before with
      | Some b => if fSequence f <=? fSequence b
                  then ["index update with non-increasing sequence"%string] else []
      | None => []
      end ++
      file_anomalies prevSequence lastSequence (Some f) fs
  end.

Definition anomalies_before (exp prevSequence lastSequence : Z) (fs : list FileInfo) : list string :=
  (if (0 <? prevSequence) && negb (prevSequence =? exp)
   then ["index update with unexpected sequence"%string] else []) ++
  file_anomalies prevSequence lastSequence None fs ++
  match last fs with
  | Some f => if (0 <? lastSequence) && negb (lastSequence =? fSequence f)
              then ["index update with unexpected last sequence"%string] else []
  | None => []
  end.

Definition anomalies_after (seq lastSequence : Z) (fs : list FileInfo) : list string :=
  if (0 <? lastSequence) && (0 <? length fs)%nat && negb (seq =? lastSequence)
  then ["unexpected sequence after update"%string] else [].

(** What a call leaves: the database, the downloads of the device, the reported
    anomalies and the result. *)
Record received := MkReceived {
  r_db : folderDB;
  r_downloads : deviceDownloadState;
  r_anomalies : list string;
  r_result : go unit;
}.

Variable sha256 : list Z → list Z.
Variable NormalizedFilename : string → string.

Definition receive (folder : string) (paused : bool) (device : list Z) (st : folderDB)
    (downloads : deviceDownloadState) (fs : list FileInfo) (update : bool)
    (prevSequence lastSequence : Z) : received :=
  if paused then MkReceived st downloads [] (Err "folder is paused")
  else
    let downloads := device_Update downloads folder (makeForgetUpdate fs) in
    match (if negb update then DropAllFiles st device else (st, Ok ())) with
    | (st, Ok _) =>
        let exp := GetDeviceSequence st device in
        let before := anomalies_before exp prevSequence lastSequence fs in
        match Update sha256 NormalizedFilename st device fs false with
        | (st, Ok _) =>
            let seq := GetDeviceSequence st device in
            MkReceived st downloads (before ++ anomalies_after seq lastSequence fs) (Ok ())
        | (st, r) => MkReceived st downloads before r
        end
    | (st, r) => MkReceived st downloads [] r
    end.

(** [Index] and [IndexUpdate] of the model, as far as the handler. *)
Definition receive_message (folder : string) (paused : bool) (device : list Z) (st : folderDB)
    (downloads : deviceDownloadState) (m : message) : received :=
  match m with
  | Index fs l => receive folder paused device st downloads fs false 0 l
  | IndexUpdate fs p l => receive folder paused device st downloads fs true p l
  end.
End database.

(** ** The interface to the database

    [all] are the local files in the order of their sequence numbers; [fetch]
    returns the first of them from a number on. *)
Class LocalIndex (fetch : Z → Z → list FileInfo) (all : list FileInfo) : Prop := {
  li_sorted : StronglySorted (λ f g, fSequence f < fSequence g) all;
  li_positive : Forall (λ f, 0 < fSequence f) all;
  li_complete : Forall (λ f, ftruncated f = false) all;
  li_fetch start limit : 0 < limit →
    fetch start limit = take (Z.to_nat limit) (filter (λ f, start <= fSequence f) all);
}.

(** ** What is sent *)

(** The files that are announced, and the number of the last of a list. *)
Definition announceable (s : indexHandler) (fs : list FileInfo) : list FileInfo :=
  filter (λ f, folderIsReceiveEncrypted s && IsReceiveOnlyChanged f = false) fs.
Definition last_sequence (d : Z) (fs : list FileInfo) : Z := default d (fSequence <$> last fs).

Lemma last_sequence_cons d f fs : last_sequence d (f :: fs) = last_sequence (fSequence f) fs.
Proof. unfold last_sequence. destruct fs as [|g fs]; [done|]. by rewrite last_cons_cons, last_cons; destruct (last fs). Qed.

Lemma last_sequence_app d fs gs :
  last_sequence d (fs ++ gs) = last_sequence (last_sequence d fs) gs.
Proof. revert d. induction fs as [|f fs IH]; intros d; [done|]. cbn [app]. by rewrite !last_sequence_cons. Qed.

Lemma announceable_cons s f fs :
  announceable s (f :: fs) =
  if folderIsReceiveEncrypted s && IsReceiveOnlyChanged f then announceable s fs
  else f :: announceable s fs.
Proof. unfold announceable. rewrite filter_cons. by destruct (_ && _). Qed.

Lemma announceable_app s fs gs : announceable s (fs ++ gs) = announceable s fs ++ announceable s gs.
Proof. apply filter_app. Qed.

Lemma announceable_same s s' fs :
  folderIsReceiveEncrypted s = folderIsReceiveEncrypted s' → announceable s fs = announceable s' fs.
Proof. intros E. unfold announceable. by rewrite E. Qed.

Section sender.
Variable protoSize : bepFileInfo → Z.

Lemma Append_infos b f :
  ftruncated f = false → ∃ b', Append protoSize b f = Ok b' ∧ infos b' = infos b ++ [f].
Proof. intros Ht. unfold Append, FileInfo_ToWire. rewrite Ht. cbn. eauto. Qed.

Abbreviation ascending := (StronglySorted (λ f g, fSequence f < fSequence g)).

(** A batch grows past its limit by one file that is deleted, at most. *)
Record batch_ok (previousWasDelete : bool) (b : FileInfoBatch) : Prop := {
  batch_length : (length (infos b) ≤ S MaxBatchSizeFiles)%nat;
  batch_over : (MaxBatchSizeFiles < length (infos b))%nat → previousWasDelete = true;
}.

Lemma batch_ok_Append pwd b f g b1 :
  batch_ok pwd b → Full b && (negb (IsDeleted f) || pwd) = false → infos b1 = infos b ++ [g] →
  batch_ok (IsDeleted f) b1.
Proof.
  intros [H1 H2] Hf Hb. assert (length (infos b1) = S (length (infos b))) as El.
  { rewrite Hb, length_app. cbn. lia. }
  unfold Full in Hf. destruct (Nat.leb_spec MaxBatchSizeFiles (length (infos b))) as [Hge|Hlt].
  - cbn [orb andb] in Hf. apply orb_false_iff in Hf as [Hd%negb_false_iff Hp]. split; [|done].
    destruct (Nat.le_gt_cases (length (infos b)) MaxBatchSizeFiles) as [|Hgt]; [lia|].
    rewrite (H2 Hgt) in Hp. done.
  - split; [lia|]. intros. lia.
Qed.

Lemma fill_batch_spec fs : ∀ s lst pwd batch,
  0 ≤ localPrevSequence s → lst ≤ localPrevSequence s →
  ascending fs → Forall (λ f, localPrevSequence s < fSequence f) fs →
  Forall (λ f, ftruncated f = false) fs → batch_ok pwd batch →
  ∃ taken rest batch', fs = taken ++ rest ∧
    fill_batch protoSize None s lst pwd batch fs =
      (set_localPrev s (last_sequence (localPrevSequence s) taken), Ok batch') ∧
    infos batch' = infos batch ++ map prepareFileInfoForIndex (announceable s taken) ∧
    (taken = [] → batch' = batch) ∧
    batch_ok (default pwd (IsDeleted <$> last (announceable s taken))) batch' ∧
    (∀ x, head rest = Some x → Full batch' = true ∧
       (IsDeleted x = true →
        default pwd (IsDeleted <$> last (announceable s taken)) = true)).
Proof.
  induction fs as [|f fs IH]; intros s lst pwd batch H0 Hl Hs Hgt Ht Hb.
  { exists [], [], batch. split_and!; [done|by destruct s|by rewrite app_nil_r|done..]. }
  apply StronglySorted_inv in Hs as [Hs Hf]. apply Forall_cons in Hgt as [Hgt _].
  apply Forall_cons in Ht as [Htf Ht]. cbn [fill_batch].
  destruct (Full batch && (negb (IsDeleted f) || pwd)) eqn:Efull.
  { exists [], (f :: fs), batch. split_and!; [done|by destruct s|by rewrite app_nil_r|done..|].
    intros x [= <-]. apply andb_true_iff in Efull as [-> Hd]. split; [done|].
    intros Hx. rewrite Hx in Hd. done. }
  rewrite (proj2 (Z.ltb_ge _ _)) by lia.
  rewrite (proj2 (Z.leb_gt _ _)), andb_false_r by lia.
  destruct (folderIsReceiveEncrypted s && IsReceiveOnlyChanged f) eqn:Eskip.
  - change (folderIsReceiveEncrypted (set_localPrev s (fSequence f))) with (folderIsReceiveEncrypted s).
    rewrite Eskip.
    destruct (IH (set_localPrev s (fSequence f)) (fSequence f) pwd batch)
      as (taken & rest & b' & -> & Hfill & Hi & _ & Hk & Hr); [cbn; lia|cbn; lia|done..|].
    exists (f :: taken), rest, b'. rewrite announceable_cons, Eskip. split_and!; [done| |done..].
    rewrite Hfill. by rewrite last_sequence_cons.
  - change (folderIsReceiveEncrypted (set_localPrev s (fSequence f))) with (folderIsReceiveEncrypted s).
    rewrite Eskip.
    destruct (Append_infos batch (prepareFileInfoForIndex f) Htf) as (b1 & -> & Hb1).
    destruct (IH (set_localPrev s (fSequence f)) (fSequence f) (IsDeleted f) b1)
      as (taken & rest & b' & -> & Hfill & Hi & _ & Hk & Hr);
      [cbn; lia|cbn; lia|done..|by eapply batch_ok_Append|].
    change (announceable (set_localPrev s (fSequence f)) taken) with (announceable s taken) in *.
    exists (f :: taken), rest, b'.
    rewrite announceable_cons, Eskip, last_cons.
    split_and!; [done| | |done|by destruct (last (announceable s taken))|].
    + change (fSequence (prepareFileInfoForIndex f)) with (fSequence f).
      change (IsDeleted (prepareFileInfoForIndex f)) with (IsDeleted f).
      rewrite Hfill. by rewrite last_sequence_cons.
    + rewrite Hi, Hb1, <- app_assoc. done.
    + intros x Hx. destruct (Hr x Hx) as [Hfl Hd]. split; [done|]. intros Hxd.
      specialize (Hd Hxd). by destruct (last (announceable s taken)).
Qed.
Definition pending (s : indexHandler) (all : list FileInfo) : list FileInfo :=
  filter (λ f, localPrevSequence s < fSequence f) all.

(** The number the receiver is told to expect; none for a full index. *)
Definition PrevSequence (m : message) : option Z :=
  match m with Index _ _ => None | IndexUpdate _ p _ => Some p end.

(** A message announces the files after the ones sent before; there is none when
    nothing is announced. *)
Definition announces (s : indexHandler) (fs : list FileInfo) (m : option message) : Prop :=
  match m with
  | None => fs = []
  | Some m =>
      fs ≠ [] ∧ message_files m = map prepareFileInfoForIndex fs ∧
      LastSequence m = last_sequence (sentPrevSequence s) fs ∧
      PrevSequence m = if localPrevSequence s =? 0 then None else Some (sentPrevSequence s)
  end.

Definition advance (s : indexHandler) (taken : list FileInfo) : indexHandler :=
  MkHandler (folderIsReceiveEncrypted s) (last_sequence (localPrevSequence s) taken)
    (last_sequence (sentPrevSequence s) (announceable s taken)).

Lemma last_prepared d fs :
  default d (fSequence <$> last (map prepareFileInfoForIndex fs)) = last_sequence d fs.
Proof.
  unfold last_sequence. change (map prepareFileInfoForIndex fs) with (prepareFileInfoForIndex <$> fs).
  rewrite fmap_last. by destruct (last fs).
Qed.

Context (fetch : Z → Z → list FileInfo) (all : list FileInfo).

Lemma flush_announces conn s fs b :
  (∀ m, conn m = None) → infos b = map prepareFileInfoForIndex fs →
  ∀ l, ∃ m, announces s fs m ∧
  match Flush (flush false conn (localPrevSequence s =? 0) (set_localPrev s l)) b with
  | None => (set_localPrev s l, Ok None)
  | Some (inl m) => (set_sentPrev (set_localPrev s l) (LastSequence m), Ok (Some m))
  | Some (inr err) => (set_localPrev s l, Err err)
  end = (MkHandler (folderIsReceiveEncrypted s) l (last_sequence (sentPrevSequence s) fs), Ok m).
Proof.
  intros Hc Hb l. unfold Flush. rewrite Hb.
  destruct fs as [|f fs]; [by exists None|]. cbn [map]. unfold flush. rewrite Hc.
  change (prepareFileInfoForIndex f :: map prepareFileInfoForIndex fs)
    with (map prepareFileInfoForIndex (f :: fs)). rewrite last_prepared.
  assert (∀ d d', last_sequence d (f :: fs) = last_sequence d' (f :: fs)) as Hd.
  { intros d d'. by rewrite !last_sequence_cons. }
  destruct (localPrevSequence s =? 0) eqn:E0.
  - exists (Some (Index (map prepareFileInfoForIndex (f :: fs)) (last_sequence 0 (f :: fs)))).
    split; [|by rewrite (Hd 0 (sentPrevSequence s))]. unfold announces. rewrite E0. by rewrite (Hd 0 (sentPrevSequence s)).
  - exists (Some (IndexUpdate (map prepareFileInfoForIndex (f :: fs)) (sentPrevSequence s)
                    (last_sequence 0 (f :: fs)))).
    split; [|by rewrite (Hd 0 (sentPrevSequence s))]. unfold announces. rewrite E0. by rewrite (Hd 0 (sentPrevSequence s)).
Qed.

Lemma send_step `{!LocalIndex fetch all} conn s :
  (∀ m, conn m = None) → 0 ≤ localPrevSequence s →
  ∃ taken rest m, pending s all = taken ++ rest ∧ (pending s all ≠ [] → taken ≠ []) ∧
    sendIndexTo protoSize false conn (λ _, None) fetch s = (advance s taken, Ok m) ∧
    announces s (announceable s taken) m ∧
    (length (announceable s taken) ≤ S MaxBatchSizeFiles)%nat ∧
    (folderIsReceiveEncrypted s = false → ∀ x, head rest = Some x → IsDeleted x = true →
     ∃ y, last taken = Some y ∧ IsDeleted y = true).
Proof.
  intros Hc H0. unfold sendIndexTo. rewrite li_fetch by done.
  assert (filter (λ f, localPrevSequence s + 1 <= fSequence f) all = pending s all) as ->.
  { unfold pending. apply list_filter_iff. intros f. lia. }
  change (Z.to_nat (Z.of_nat MaxBatchSizeFiles + 1)) with (S MaxBatchSizeFiles).
  pose proof (take_drop (S MaxBatchSizeFiles) (pending s all)) as Htd.
  set (fs := take (S MaxBatchSizeFiles) (pending s all)) in *.
  assert (fs `sublist_of` all) as Hall.
  { unfold fs. etrans; [apply sublist_take|apply sublist_filter]. }
  destruct (fill_batch_spec fs s 0 false NewFileInfoBatch)
    as (taken & rest & b & Hfs & Hfill & Hi & Hb & [Hk1 Hk2] & Hr); [done|done| | |by eapply Forall_sublist_of, li_complete|by split; cbn; lia|].
  { eapply StronglySorted_sublist_of; [exact Hall|apply li_sorted]. }
  { apply Forall_take, Forall_forall. intros f Hf. by apply list_elem_of_filter in Hf as [? _]. }
  rewrite Hfill. cbn [infos NewFileInfoBatch app] in Hi.
  destruct (flush_announces conn s (announceable s taken) b Hc Hi (last_sequence (localPrevSequence s) taken))
    as (m & Hm & Hflush).
  exists taken, (rest ++ drop (S MaxBatchSizeFiles) (pending s all)), m.
  rewrite Hi, length_map in Hk1, Hk2. split_and!; try done.
  - by rewrite app_assoc, <- Hfs, Htd.
  - intros Hne ->. apply Hne. unfold fs in Hfs. destruct (pending s all) as [|x l]; [done|].
    change (take (S MaxBatchSizeFiles) (x :: l)) with (x :: take MaxBatchSizeFiles l) in Hfs.
    cbn [app] in Hfs. subst rest. destruct (Hr x eq_refl) as [Hfull _].
    by rewrite (Hb eq_refl) in Hfull.
  - intros He x Hx Hd. assert (announceable s taken = taken) as Ha.
    { apply filter_id, Forall_forall. intros f _. by rewrite He. }
    rewrite Ha in Hr, Hk2.
    assert (default false (IsDeleted <$> last taken) = true) as Hlast.
    { destruct rest as [|y rest]; [|injection Hx as ->; exact (proj2 (Hr x eq_refl) Hd)].
      apply Hk2. rewrite app_nil_r in Hfs. cbn [app] in Hx. rewrite <- Hfs.
      unfold fs. rewrite length_take. destruct (Nat.le_gt_cases (length (pending s all)) (S MaxBatchSizeFiles)).
      - by rewrite drop_ge in Hx.
      - lia. }
    destruct (last taken) as [y|]; [by exists y|done].
Qed.
(** *** Catching up *)

(** A sequence of messages, each continuing the one before it; [first] says
    whether it starts with a full index. *)
Fixpoint chained (first : bool) (prev : Z) (ms : list message) : Prop :=
  match ms with
  | [] => True
  | m :: ms =>
      message_files m ≠ [] ∧
      PrevSequence m = (if first then None else Some prev) ∧
      ascending (message_files m) ∧
      Forall (λ f, prev < fSequence f) (message_files m) ∧
      LastSequence m = last_sequence prev (message_files m) ∧
      (length (message_files m) ≤ S MaxBatchSizeFiles)%nat ∧
      chained false (LastSequence m) ms
  end.

Lemma last_sequence_ge d fs :
  ascending fs → Forall (λ f, d < fSequence f) fs →
  d ≤ last_sequence d fs ∧ Forall (λ f, fSequence f ≤ last_sequence d fs) fs ∧
  (fs ≠ [] → d < last_sequence d fs).
Proof.
  intros Hs. revert d. induction Hs as [|f fs Hs IH Hf]; intros d Hd; [split_and!; [done..|by constructor|done]|].
  apply Forall_cons in Hd as [Hdf _]. rewrite last_sequence_cons.
  destruct (IH (fSequence f) Hf) as (H1 & H2 & _). split_and!; [lia| |intros; lia].
  by constructor.
Qed.

Lemma ascending_filter (P : FileInfo → Prop) `{!∀ f, Decision (P f)} l : ascending l → ascending (filter P l).
Proof. apply StronglySorted_sublist_of, sublist_filter. Qed.

Lemma pending_ascending `{!LocalIndex fetch all} s : ascending (pending s all).
Proof. apply ascending_filter, li_sorted. Qed.

Lemma pending_above s : Forall (λ f, localPrevSequence s < fSequence f) (pending s all).
Proof. apply Forall_forall. intros f Hf. by apply list_elem_of_filter in Hf as [? _]. Qed.

Lemma pending_nil `{!LocalIndex fetch all} s :
  0 ≤ localPrevSequence s → pending s all = [] ↔ last_sequence 0 all ≤ localPrevSequence s.
Proof.
  intros H0. destruct (last_sequence_ge 0 all li_sorted li_positive) as (_ & Hle & _).
  rewrite Forall_forall in Hle. split.
  - intros Hp. unfold last_sequence. destruct (last all) as [f|] eqn:El; [|done]. cbn.
    apply Z.nlt_ge. intros Hlt. assert (f ∈ pending s all) as Hf.
    { apply list_elem_of_filter. split; [done|]. apply last_Some in El as [l ->]. set_solver. }
    rewrite Hp in Hf. by apply elem_of_nil in Hf.
  - intros Hl. apply filter_none. intros f Hf Hlt.
    specialize (Hle f Hf). lia.
Qed.

Lemma pending_advance `{!LocalIndex fetch all} s taken rest :
  pending s all = taken ++ rest → pending (advance s taken) all = rest.
Proof.
  intros Hp. pose proof (pending_ascending s) as Hs. pose proof (pending_above s) as Ha.
  rewrite Hp in Hs, Ha. apply StronglySorted_app in Hs as (Htr & Ht & _).
  apply Forall_app in Ha as [Hta Hra].
  destruct (last_sequence_ge (localPrevSequence s) taken Ht Hta) as (Hge & Hle & Hne).
  transitivity (filter (λ f, localPrevSequence (advance s taken) < fSequence f) (pending s all)).
  { unfold pending. rewrite list_filter_filter. apply list_filter_iff.
    intros f. cbn [advance localPrevSequence]. lia. }
  rewrite Hp, filter_app. cbn [advance localPrevSequence]. rewrite Forall_forall in Hle, Hra.
  rewrite filter_none.
  - cbn [app]. apply filter_id, Forall_forall. intros f Hf. unfold last_sequence.
    destruct (last taken) as [g|] eqn:El; cbn; [|by apply Hra]. apply Htr; [|done].
    apply last_Some in El as [l ->]. set_solver.
  - intros f Hf. specialize (Hle f Hf). lia.
Qed.
(** The number sent is never ahead of the one looked at. *)
Definition handler_ok (s : indexHandler) : Prop :=
  0 ≤ sentPrevSequence s ≤ localPrevSequence s.

Lemma announceable_last d d' s taken :
  ascending taken → Forall (λ f, d' < fSequence f) taken → d ≤ d' →
  last_sequence d (announceable s taken) ≤ last_sequence d' taken.
Proof.
  intros Hs Ha Hd. destruct (last_sequence_ge d' taken Hs Ha) as (Hge & Hle & _).
  unfold last_sequence at 1. destruct (last (announceable s taken)) as [f|] eqn:El; cbn; [|lia].
  rewrite Forall_forall in Hle. apply Hle. apply last_Some in El as [l El].
  assert (f ∈ announceable s taken) as [_ ?]%list_elem_of_filter; [|done]. rewrite El. set_solver.
Qed.

Lemma advance_ok s taken :
  handler_ok s → ascending taken → Forall (λ f, localPrevSequence s < fSequence f) taken →
  handler_ok (advance s taken).
Proof.
  intros [H0 H1] Hs Ha.
  pose proof (announceable_last (sentPrevSequence s) _ s taken Hs Ha H1).
  destruct (last_sequence_ge (sentPrevSequence s) (announceable s taken)) as (? & _).
  - by apply ascending_filter.
  - eapply Forall_sublist_of; [apply sublist_filter|]. eapply Forall_impl; [exact Ha|]. cbn. lia.
  - split; cbn [advance sentPrevSequence localPrevSequence]; lia.
Qed.

Lemma last_sequence_prepared d fs :
  last_sequence d (map prepareFileInfoForIndex fs) = last_sequence d fs.
Proof. apply last_prepared. Qed.

Lemma chained_cons s taken m ms :
  handler_ok s → ascending taken → Forall (λ f, localPrevSequence s < fSequence f) taken →
  (length (announceable s taken) ≤ S MaxBatchSizeFiles)%nat →
  announces s (announceable s taken) (Some m) →
  chained false (LastSequence m) ms →
  chained (localPrevSequence s =? 0) (sentPrevSequence s) (m :: ms).
Proof.
  intros [_ H1] Hs Ha Hl (Hne & Hf & Hm & Hp) Hms. cbn [chained]. rewrite Hf, Hm, Hp.
  rewrite last_sequence_prepared, length_map.
  split_and!; try done.
  - by destruct (announceable s taken).
  - eapply (StronglySorted_fmap prepareFileInfoForIndex), ascending_filter, Hs. done.
  - apply Forall_map. eapply Forall_sublist_of; [apply sublist_filter|].
    eapply Forall_impl; [exact Ha|]. cbn. lia.
  - by rewrite <- Hm.
Qed.

Lemma advance_app s taken rest : advance (advance s taken) rest = advance s (taken ++ rest).
Proof.
  unfold advance. cbn [folderIsReceiveEncrypted localPrevSequence sentPrevSequence].
  by rewrite last_sequence_app, announceable_app, last_sequence_app.
Qed.

Lemma advance_nil s : advance s [] = s.
Proof. by destruct s. Qed.

(** All pending files were sent, in messages that continue each other. *)
Definition caught_up (s : indexHandler) (r : indexHandler * go (list message)) : Prop :=
  ∃ first ms, r = (advance s (pending s all), Ok ms) ∧
    concat (message_files <$> ms) =
      map prepareFileInfoForIndex (announceable s (pending s all)) ∧
    chained first (sentPrevSequence s) ms ∧
    (first = true → localPrevSequence s = 0) ∧
    (folderIsReceiveEncrypted s = false → first = (localPrevSequence s =? 0)).

Lemma caught_up_nil s : pending s all = [] → caught_up s (s, Ok []).
Proof.
  intros Hn. exists (localPrevSequence s =? 0), []. rewrite Hn.
  split_and!; [by rewrite advance_nil|done..|by intros ?%Z.eqb_eq|done].
Qed.

Lemma caught_up_round `{!LocalIndex fetch all} s taken rest m r :
  handler_ok s → pending s all = taken ++ rest → announces s (announceable s taken) m →
  (length (announceable s taken) ≤ S MaxBatchSizeFiles)%nat →
  caught_up (advance s taken) r → caught_up s (prepend m r).
Proof.
  intros Hok Hpend Hm Hlen. destruct taken as [|f taken].
  { rewrite advance_nil. by destruct m as [m|]; [destruct Hm|destruct r as [s' [ms| |]]]. }
  set (tk := f :: taken) in *. intros (first & ms & -> & Hcat & Hch & Hf1 & Hf2).
  pose proof (pending_ascending s) as Hs. pose proof (pending_above s) as Ha. rewrite Hpend in Hs, Ha.
  apply StronglySorted_app in Hs as (_ & Hs & _). apply Forall_app in Ha as [Ha _].
  destruct (last_sequence_ge _ tk Hs Ha) as (_ & _ & Hprog). specialize (Hprog ltac:(done)).
  rewrite (pending_advance s tk rest Hpend), ?advance_app in *.
  assert (first = false) as ->.
  { destruct first; [|done]. specialize (Hf1 eq_refl). destruct Hok.
    cbn [advance localPrevSequence] in Hf1. lia. }
  change (announceable (advance s tk) rest) with (announceable s rest) in *.
  change (sentPrevSequence (advance s tk))
    with (last_sequence (sentPrevSequence s) (announceable s tk)) in Hch.
  unfold caught_up. rewrite Hpend, announceable_app, map_app. destruct m as [m|].
  - exists (localPrevSequence s =? 0), (m :: ms). pose proof Hm as (_ & Hfs & Hlm & _).
    split_and!; [done| | |by intros ?%Z.eqb_eq|done].
    + rewrite fmap_cons. cbn [concat]. by rewrite Hcat, Hfs.
    + eapply chained_cons; try done. by rewrite Hlm.
  - exists false, ms. cbn [announces] in Hm. rewrite Hm in *. split_and!; [done..|].
    intros He. assert (announceable s tk = tk) as Hat; [|by rewrite Hat in Hm].
    apply filter_id, Forall_forall. intros g _. by rewrite He.
Qed.

Lemma taken_ok `{!LocalIndex fetch all} s taken rest :
  handler_ok s → pending s all = taken ++ rest → handler_ok (advance s taken).
Proof.
  intros Hok Hpend. pose proof (pending_ascending s) as Hs. pose proof (pending_above s) as Ha.
  rewrite Hpend in Hs, Ha. apply StronglySorted_app in Hs as (_ & Hs & _).
  apply Forall_app in Ha as [Ha _]. by apply advance_ok.
Qed.

Lemma serve_spec `{!LocalIndex fetch all} conn fuel : ∀ s,
  (∀ m, conn m = None) → handler_ok s → (length (pending s all) < fuel)%nat →
  caught_up s (serve_loop protoSize false conn (λ _, None) fuel fetch (last_sequence 0 all) s).
Proof.
  induction fuel as [|fuel IH]; intros s Hc Hok Hfuel; [lia|]. cbn [serve_loop].
  assert (0 ≤ localPrevSequence s) as H0 by (destruct Hok; lia).
  pose proof (pending_nil s H0) as Hnil.
  destruct (Z.leb_spec (last_sequence 0 all) (localPrevSequence s)) as [Hle|Hgt].
  { by apply caught_up_nil, Hnil. }
  destruct (send_step conn s Hc H0) as (taken & rest & m & Hpend & Hne & -> & Hm & Hlen & _).
  assert (taken ≠ []) as Htn.
  { apply Hne. intros Hn%Hnil. lia. }
  eapply caught_up_round; try done. apply IH; [done|by eapply taken_ok|].
  rewrite (pending_advance s taken rest Hpend). rewrite Hpend, length_app in Hfuel.
  destruct taken; [done|]. cbn in Hfuel. lia.
Qed.

Lemma Serve_caught_up `{!LocalIndex fetch all} conn fuel s :
  (∀ m, conn m = None) → handler_ok s → (length (pending s all) < fuel)%nat →
  caught_up s (Serve protoSize false conn (λ _, None) fuel fetch (last_sequence 0 all) s).
Proof.
  intros Hc Hok Hfuel. unfold Serve.
  destruct (send_step conn s Hc) as (taken & rest & m & Hpend & _ & -> & Hm & Hlen & _);
    [destruct Hok; lia|].
  apply (caught_up_round s taken rest m); [done..|].
  apply serve_spec; [done|by eapply taken_ok|]. rewrite (pending_advance s taken rest Hpend).
  rewrite Hpend, length_app in Hfuel. lia.
Qed.

(** C12.  The index exchange catches up: until [Serve] waits for a change, it
    sends every local file after the last one the other side has, each once and
    in the order of their numbers, without those a receive-encrypted folder keeps
    to itself, in messages of at most 1001 files each of which names the last
    number of the one before; only the very first can be a full index, and it
    takes at most one round more than there are files. *)
Theorem Serve_catches_up `{!LocalIndex fetch all} conn fuel s :
  (∀ m, conn m = None) → handler_ok s → (length (pending s all) < fuel)%nat →
  ∃ first ms,
    Serve protoSize false conn (λ _, None) fuel fetch (last_sequence 0 all) s =
      (MkHandler (folderIsReceiveEncrypted s)
         (last_sequence (localPrevSequence s) (pending s all))
         (last_sequence (sentPrevSequence s) (announceable s (pending s all))), Ok ms) ∧
    concat (message_files <$> ms) =
      map prepareFileInfoForIndex (announceable s (pending s all)) ∧
    chained first (sentPrevSequence s) ms ∧
    (first = true → localPrevSequence s = 0) ∧
    (folderIsReceiveEncrypted s = false → first = (localPrevSequence s =? 0)).
Proof. intros Hc Hok Hfuel. exact (Serve_caught_up conn fuel s Hc Hok Hfuel). Qed.
Lemma fill_batch_sent err fs : ∀ s lst pwd batch,
  sentPrevSequence (fill_batch protoSize err s lst pwd batch fs).1 = sentPrevSequence s.
Proof.
  induction fs as [|f fs IH]; intros s lst pwd batch; cbn [fill_batch]; [done|].
  destruct (_ && (negb _ || _)); [done|]. destruct (_ <? _); [done|]. destruct (_ && (_ <=? _)); [done|].
  destruct (_ && IsReceiveOnlyChanged f); [by rewrite IH|].
  destruct (Append _ _ _); [by rewrite IH|done..].
Qed.

(** C18.  One message of the index exchange: it takes a prefix of the files after
    the last one looked at, which is not empty unless there are none, announces
    them after the last number sent, and remembers both numbers; it has at most
    1001 files, and outside of receive-encrypted folders a deleted file is not cut
    off from a file before it that is not deleted, as the two halves of a rename
    are.  When it cannot be sent, or the database fails while the files are read, the
    number sent last is not changed. *)
Theorem sendIndexTo_spec `{!LocalIndex fetch all} s :
  (∀ conn, (∀ m, conn m = None) → 0 ≤ localPrevSequence s →
   ∃ taken rest m, pending s all = taken ++ rest ∧ (pending s all ≠ [] → taken ≠ []) ∧
     sendIndexTo protoSize false conn (λ _, None) fetch s =
       (MkHandler (folderIsReceiveEncrypted s) (last_sequence (localPrevSequence s) taken)
          (last_sequence (sentPrevSequence s) (announceable s taken)), Ok m) ∧
     announces s (announceable s taken) m ∧
     (length (announceable s taken) ≤ 1001)%nat ∧
     (folderIsReceiveEncrypted s = false → ∀ x, head rest = Some x → IsDeleted x = true →
      ∃ y, last taken = Some y ∧ IsDeleted y = true)) ∧
  (∀ cancelled conn iterErr s' e,
   sendIndexTo protoSize cancelled conn iterErr fetch s = (s', Err e) →
   sentPrevSequence s' = sentPrevSequence s).
Proof.
  split; [intros conn; apply send_step|]. intros cancelled conn iterErr s' e. unfold sendIndexTo.
  pose proof (fill_batch_sent (iterErr (localPrevSequence s + 1)) (fetch (localPrevSequence s + 1) (Z.of_nat MaxBatchSizeFiles + 1))
    s 0 false NewFileInfoBatch) as Hsent.
  destruct (fill_batch _ _ _ _ _ _ _) as [s1 [b|e1|]]; cbn [fst] in Hsent; [|by intros [= -> _]|done].
  destruct (Flush _ b) as [[m|err]|]; [done| |done]. by intros [= -> _].
Qed.
End sender.

(** ** Examples *)

(** Files with the given numbers, those with an odd number deleted. *)
Definition numbered (n : Z) : FileInfo :=
  {| fName := "f"; fSize := 100; fModifiedS := 1; fModifiedBy := 7; fVersion := vec [(1, n)];
     fSequence := n; fBlocks := []; fSymlinkTarget := []; fBlocksHash := [];
     fPreviousBlocksHash := []; fEncrypted := []; fPlatform := platformDataFromWire None;
     fType := FileInfoTypeFile; fPermissions := 420; fModifiedNs := 0; fRawBlockSize := 131072;
     fLocalFlags := 0; fEncryptionTrailerSize := 0; fDeleted := Z.odd n; fNoPermissions := false;
     ftruncated := false |}.
Definition some_files : list FileInfo := numbered <$> [2; 3; 7].
Definition some_fetch (start limit : Z) : list FileInfo :=
  take (Z.to_nat limit) (filter (λ f, start <= fSequence f) some_files).

#[export] Instance some_index : LocalIndex some_fetch some_files.
Proof.
  split; [| | |done]; unfold some_files; cbn [fmap list_fmap].
  - repeat constructor.
  - repeat constructor.
  - repeat constructor.
Qed.

(** The other side has the first file; the size of a message is a byte count. *)
Definition some_handler : indexHandler := MkHandler false 2 2.

Lemma Serve_catches_up_witness :
  ∃ s' m, Serve (λ _, 90) false (λ _, None) (λ _, None) 3 some_fetch 7 some_handler = (s', Ok [m]) ∧
    message_files m = map numbered [3; 7] ∧ PrevSequence m = Some 2.
Proof.
  destruct (Serve_catches_up (λ _, 90) some_fetch some_files (λ _, None) 3 some_handler)
    as (first & ms & HS & Hc & Hch & _ & Hf); [done|split; cbn; lia|vm_compute; lia|].
  change (last_sequence 0 some_files) with 7 in HS. vm_compute in Hf. rewrite (Hf eq_refl) in Hch.
  destruct ms as [|m [|m' ms]].
  - vm_compute in Hc. discriminate.
  - exists (MkHandler false 7 7), m. split; [exact HS|]. destruct Hch as (_ & Hp & _).
    split; [|exact Hp]. cbn [fmap list_fmap concat] in Hc. rewrite app_nil_r in Hc. exact Hc.
  - exfalso. vm_compute in HS. discriminate.
Defined.

Lemma sendIndexTo_spec_witness :
  ∃ taken rest m, pending some_handler some_files = taken ++ rest ∧
    (sendIndexTo (λ _, 90) false (λ _, None) (λ _, None) some_fetch some_handler).2 = Ok m ∧ taken ≠ [].
Proof.
  destruct (sendIndexTo_spec (λ _, 90) some_fetch some_files some_handler) as [H _].
  destruct (H (λ _, None)) as (taken & rest & m & H1 & H2 & H3 & _); [done|cbn; lia|].
  exists taken, rest, m. split; [exact H1|]. rewrite H3. split; [reflexivity|].
  apply H2. vm_compute. discriminate.
Defined.

(** A full index is lost when a receive-encrypted folder announces none of the
    first files: the numbers have moved on, so the next message is an update. *)
Definition local_change (n : Z) : FileInfo :=
  set_local (numbered n) FlagLocalReceiveOnly 0 false.
Example full_index_lost :
  let fetch start limit :=
    filter (λ f, start <= fSequence f) [local_change 2; local_change 4] in
  let fetch' start limit :=
    filter (λ f, start <= fSequence f) [local_change 2; local_change 4; numbered 6] in
  ∃ s, sendIndexTo (λ _, 90) false (λ _, None) (λ _, None) fetch (MkHandler true 0 0) = (s, Ok None) ∧
    (sendIndexTo (λ _, 90) false (λ _, None) (λ _, None) fetch' s).2 =
      Ok (Some (IndexUpdate [numbered 6] 0 6)).
Proof. exists (MkHandler true 4 0). split; vm_compute; reflexivity. Qed.
