(* ===== verification/IndexExchange.v ===== *)
(** * The index exchange between two devices

    The messages an index handler sends ([IndexHandler]) are received by the index
    handler of the other device, which stores them in its database ([FolderDB]).
    The file proves that the two stay in step: no message is refused or reported
    as out of sequence, and when the sender has caught up the receiver knows every
    announced file as it is. *)
From S2P Require Import Prelude GoLib Vector Platform FileInfo DeviceID DownloadState Messages.
From S2P Require Import FolderDB FolderMarks FolderQueries IndexHandler.
From Stdlib Require Import Ascii.
From Stdlib Require String.

Local Open Scope Z_scope.

(** What is sent of one local file, as the other device receives it. *)
Definition announced_file (f : FileInfo) : FileInfo := over_wire (prepareFileInfoForIndex f).

Lemma prepare_fine f : file_fine f → file_fine (prepareFileInfoForIndex f).
Proof.
  intros [Hv Hf Ht]. split; [|done|done]. cbn [prepareFileInfoForIndex fVersion].
  destruct (IsReceiveOnlyChanged f); [|done]. split; constructor.
Qed.

(** ** The receiver *)

Section receiver.
Context {E : Engine}.
Variable sha256 : list Z → list Z.
Variable NormalizedFilename : string → string.
Variables (folder : string) (device : list Z).

(** One message after the other, until one fails. *)
Fixpoint receive_messages (st : folderDB) (downloads : deviceDownloadState) (ms : list message)
  : received :=
  match ms with
  | [] => MkReceived st downloads [] (Ok ())
  | m :: ms =>
      match deliver m with
      | Ok m =>
          let r := receive_message sha256 NormalizedFilename folder false device st downloads m in
          match r_result r with
          | Ok _ =>
              let r' := receive_messages (r_db r) (r_downloads r) ms in
              MkReceived (r_db r') (r_downloads r') (r_anomalies r ++ r_anomalies r') (r_result r')
          | _ => r
          end
      | Err e => MkReceived st downloads [] (Err e)
      | Panic p => MkReceived st downloads [] (Panic p)
      end
  end.

Abbreviation ascending := (StronglySorted (λ f g, fSequence f < fSequence g)).
Abbreviation normal f := (NormalizedFilename (fName f)).
Abbreviation holds' := (holds sha256 NormalizedFilename).

(** The rows of a device have numbers up to [p]. *)
Definition rows_upto (st : folderDB) (d p : Z) : Prop :=
  ∀ r, r ∈ files st → device_idx r = d → ∃ s, remote_sequence r = Some s ∧ s ≤ p.

(** The rows of a device have the names of a list. *)
Definition rows_named (st : folderDB) (d : Z) (names : list string) : Prop :=
  ∀ r, r ∈ files st → device_idx r = d → name r ∈ names.

Lemma update_file_rows st d skip f st' p names :
  update_file_result sha256 NormalizedFilename st d false skip f st' → p < fSequence f →
  (rows_upto st d p → rows_upto st' d (fSequence f)) ∧
  (rows_named st d names → normal f ∈ names → rows_named st' d names).
Proof.
  intros Hres Hp. split; [intros H r Hr Hd|intros H Hn r Hr Hd].
  all: apply elem_unflagged in Hr; rewrite (uf_files _ _ _ _ _ _ _ _ Hres) in Hr;
    apply list_elem_of_fmap in Hr as (r' & E' & Hr');
    pose proof (f_equal device_idx E') as E1; pose proof (f_equal remote_sequence E') as E2;
    pose proof (f_equal name E') as E3; cbn [set_flags device_idx remote_sequence name] in E1, E2, E3;
    rewrite ?E2, ?E3; apply elem_of_app in Hr' as [[_ Hr']%list_elem_of_filter|Hr'].
  - destruct (H r' Hr') as (s & -> & Hs); [congruence|]. exists s. split; [done|lia].
  - apply list_elem_of_singleton in Hr' as ->. exists (fSequence f). split; [done|lia].
  - apply H; [done|congruence].
  - by apply list_elem_of_singleton in Hr' as ->.
Qed.

Lemma update_file_holds_other st d skip f st' g s :
  db_ok st → update_file_result sha256 NormalizedFilename st d false skip f st' →
  fresh NormalizedFilename st d false f → normal g ≠ normal f →
  holds' st d g s → holds' st' d g s.
Proof.
  intros Hok Hres Hfresh Hne (r & w & Hr & Hd & Hn & Hb & Hw & Hwl & Hbl).
  set (new := new_row sha256 NormalizedFilename d false f).
  assert (conflicts new r = false) as Hc.
  { unfold conflicts. cbn [new new_row file_row stored_form device_idx name remote_sequence fName].
    rewrite Hd, Z.eqb_refl. cbn [andb]. apply orb_false_iff.
    split; apply bool_decide_eq_false; [congruence|]. intros Hs.
    destruct Hfresh as [?|Hfresh]; [done|]. specialize (Hfresh r Hr Hd Hs). congruence. }
  assert (r ∈ files (delete_rows (conflicts new) st)) as Hr'.
  { apply list_elem_of_filter. by split. }
  destruct (unflagged_elem _ (files st') r (uf_files _ _ _ _ _ _ _ _ Hres)) as [fl Hfl].
  { apply elem_of_app. by left. }
  destruct (uf_stored _ _ _ _ _ _ _ _ Hres) as (w' & _ & Hfi).
  exists (set_flags r fl), w. cbn [set_flags device_idx name blocklist_hash sequence].
  split_and!; try done.
  - pose proof (ok_last _ Hok) as Hlast. rewrite Forall_forall in Hlast. specialize (Hlast r Hr).
    rewrite Hfi, lookup_insert_ne by lia. unfold delete_rows. cbn [fileinfos].
    rewrite delete_fileinfos, bool_decide_eq_false_2; [done|].
    intros (r1 & Hs & [Hc1 Hr1]%list_elem_of_filter)%list_elem_of_fmap.
    rewrite (same_sequence st r r1 Hok Hr Hr1 Hs) in Hc. fold new in Hc1. congruence.
  - intros El. rewrite (uf_blocklists _ _ _ _ _ _ _ _ Hres). unfold insert_blocklist.
    destruct (0 <? length (fBlocks (stored_form sha256 NormalizedFilename f)))%nat; [|by apply Hbl].
    cbn [blocklists]. destruct (blocklists st !! fBlocksHash _) eqn:Eb; [by apply Hbl|].
    rewrite lookup_insert_ne; [by apply Hbl|]. intros Eh. rewrite Eh, (Hbl El) in Eb. done.
Qed.
(** *** Storing the files of a message *)

(** [all] are the announced files of the sender as they arrive, [names] contains
    the names of the sender's files the receiver may know. *)
Variables (all : list FileInfo) (names : list string).
Hypothesis all_fine : Forall file_fine all.
Hypothesis all_sorted : StronglySorted (λ f g, fSequence f < fSequence g) all.
Hypothesis all_distinct : ∀ f g, f ∈ all → g ∈ all → normal f = normal g → f = g.
Hypothesis all_named : ∀ f, f ∈ all → normal f ∈ names.
Hypothesis all_hashes : ∀ f g, f ∈ all → g ∈ all →
  BlocksHash sha256 (fBlocks f) = BlocksHash sha256 (fBlocks g) → fBlocks f = fBlocks g.

(** The files up to number [p] are stored for the device with index [d], and
    nothing else. *)
Record stored (st : folderDB) (d p : Z) : Prop := {
  st_ok : db_ok st;
  st_upto : rows_upto st d p;
  st_named : rows_named st d names;
  st_holds g : g ∈ all → fSequence g ≤ p → holds' st d g (fSequence g);
  st_hashes g : g ∈ all → no_collision sha256 st g;
}.

Definition todo (p : Z) : list FileInfo := filter (λ f, p < fSequence f) all.

Lemma todo_next p f rest : todo p = f :: rest → todo (fSequence f) = rest.
Proof.
  intros Ht. assert (ascending (todo p)) as Hs.
  { eapply StronglySorted_sublist_of; [apply sublist_filter|done]. }
  rewrite Ht in Hs. apply StronglySorted_inv in Hs as [Hs Hf].
  assert (p < fSequence f) as Hp.
  { assert (f ∈ todo p) as [? _]%list_elem_of_filter; [rewrite Ht; left|done]. }
  transitivity (filter (λ g, fSequence f < fSequence g) (todo p)).
  { unfold todo. rewrite list_filter_filter. apply list_filter_iff. intros g. lia. }
  rewrite Ht, filter_cons_False by lia. by apply filter_id.
Qed.

Lemma stored_file st d p f rest :
  stored st d p → todo p = f :: rest →
  ∃ st', update_file sha256 NormalizedFilename st d false false f = Ok st' ∧
    stored st' d (fSequence f) ∧ devices st' = devices st ∧
    snd <$> indexids st' !! d = Some (fSequence f).
Proof.
  intros [Hok Hup Hnm Hh Hc] Ht.
  assert (f ∈ todo p) as [Hp Hf]%list_elem_of_filter by (rewrite Ht; left).
  pose proof all_fine as Hfine. rewrite Forall_forall in Hfine. destruct (Hfine f Hf) as [Hv Hfi Htr].
  destruct (update_file_total sha256 NormalizedFilename st d false false f Hok Hv Htr) as [st' Hu].
  pose proof (update_file_spec _ _ _ _ _ _ _ _ Hok Hv Hu) as Hres.
  destruct (update_file_rows st d false f st' p names Hres Hp) as [Hup' Hnm'].
  exists st'. split_and!; [done| |by eapply uf_devices|].
  - split; [by eapply uf_ok|by apply Hup'|by apply Hnm', all_named| |].
    + intros g Hg Hle. destruct (decide (g = f)) as [->|Hne].
      { apply (update_file_holds _ _ _ _ _ _ _ _ Hres). by apply Hc. }
      assert (fSequence g ≤ p) as Hgp.
      { apply Z.nlt_ge. intros Hlt. assert (g ∈ todo p) as Hgt by (by apply list_elem_of_filter).
        rewrite Ht in Hgt. apply elem_of_cons in Hgt as [?|Hgt]; [done|].
        rewrite <- (todo_next p f rest Ht) in Hgt. apply list_elem_of_filter in Hgt as [? _]. lia. }
      apply (update_file_holds_other _ _ _ _ _ _ _ Hok Hres); [|by intros ?%all_distinct|by apply Hh].
      right. intros r Hr Hd Hs. destruct (Hup r Hr Hd) as (s & Hs' & Hle'). rewrite Hs in Hs'.
      injection Hs' as <-. lia.
    + intros g Hg bl. rewrite (uf_blocklists _ _ _ _ _ _ _ _ Hres). unfold insert_blocklist.
      destruct (0 <? _)%nat eqn:El; [|by apply Hc]. cbn [blocklists].
      destruct (blocklists st !! fBlocksHash _); [by apply Hc|].
      cbn [stored_form fBlocksHash fBlocks] in *. rewrite El.
      rewrite lookup_insert_Some. intros [[Eh <-]|[_ Hbl]]; [|by apply (Hc g Hg bl)].
      by rewrite (all_hashes f g Hf Hg Eh).
  - rewrite (uf_indexids _ _ _ _ _ _ _ _ Hres). unfold indexids_seq.
    cbn [with_sequence device_idx new_row file_row sequence remote_sequence default stored_form fSequence].
    destruct (indexids st !! d) as [[id ?]|]; by rewrite lookup_insert_eq.
Qed.

Lemma stored_files fs : ∀ st d p prev rest,
  stored st d p → todo p = fs ++ rest → (∀ s, prev = Some s → s ≤ p) →
  ∃ st', update_loop sha256 NormalizedFilename st d false false prev fs = Ok st' ∧
    stored st' d (last_sequence p fs) ∧ devices st' = devices st ∧
    (fs ≠ [] → snd <$> indexids st' !! d = Some (last_sequence p fs)) ∧
    todo (last_sequence p fs) = rest.
Proof.
  induction fs as [|f fs IH]; intros st d p prev rest Hst Ht Hprev; [by exists st|].
  destruct (stored_file st d p f (fs ++ rest) Hst Ht) as (st1 & Hu & Hst1 & Hdev & Hid).
  assert (f ∈ todo p) as [Hp _]%list_elem_of_filter by (rewrite Ht; left).
  cbn [update_loop negb andb]. rewrite bool_decide_eq_false_2 by (intros ?%Hprev; lia).
  rewrite Hu. cbn [mbind go_bind].
  destruct (IH st1 d (fSequence f) (Some (fSequence f)) rest Hst1) as (st' & Hl & H1 & H2 & H3 & H4).
  { by eapply todo_next. }
  { by intros s [= <-]. }
  rewrite last_sequence_cons. exists st'. split_and!; [done..|congruence| |done].
  intros _. destruct fs as [|g fs]; [|by apply H3]. injection Hl as <-. exact Hid.
Qed.
(** *** Receiving messages *)

(** The receiver has stored the files up to [p], and has [p] on record as the
    last number of the device. *)
Record at_number (st : folderDB) (p : Z) : Prop := {
  at_device : ∃ d, devices st !! device = Some d ∧ stored st d p;
  at_sequence : GetDeviceSequence st device = p;
}.

Lemma no_file_anomalies prev lastSeq before fs :
  ascending fs → Forall (λ f, prev <= fSequence f <= lastSeq) fs →
  (∀ b, before = Some b → Forall (λ f, fSequence b < fSequence f) fs) →
  file_anomalies prev lastSeq before fs = [].
Proof.
  revert before. induction fs as [|f fs IH]; intros before Hs Hr Hb; [done|]. cbn [file_anomalies].
  apply StronglySorted_inv in Hs as [Hs Hf]. apply Forall_cons in Hr as [[H1 H2] Hr].
  rewrite (proj2 (Z.ltb_ge (fSequence f) prev)) by lia.
  rewrite (proj2 (Z.ltb_ge lastSeq (fSequence f))), andb_false_r by lia.
  rewrite IH; [|done..|by intros b [= <-]]. destruct before as [b|]; [|done].
  specialize (Hb b eq_refl). apply Forall_cons in Hb as [Hb _]. by rewrite (proj2 (Z.leb_gt _ _)).
Qed.

Lemma no_anomalies exp prev p fs :
  (prev = 0 ∨ prev = exp) → prev ≤ p → ascending fs → Forall (λ f, p < fSequence f) fs → fs ≠ [] →
  anomalies_before exp prev (last_sequence p fs) fs = [].
Proof.
  intros Hprev Hpp Hs Hp Hne. destruct (last_sequence_ge p fs Hs Hp) as (_ & Hle & _).
  unfold anomalies_before. rewrite no_file_anomalies; [|done| |done].
  - assert ((0 <? prev) && negb (prev =? exp) = false) as ->.
    { destruct Hprev as [-> | ->]; [done|]. by rewrite Z.eqb_refl, andb_false_r. }
    unfold last_sequence. destruct (last fs) as [f|] eqn:El; [|done]. cbn.
    by rewrite Z.eqb_refl, andb_false_r.
  - rewrite Forall_forall in *. intros f Hf. specialize (Hle f Hf). specialize (Hp f Hf). lia.
Qed.

(** The update after the checks, for both kinds of messages. *)
Lemma receive_update st d p fs rest :
  device ≠ LocalDeviceID → devices st !! device = Some d → stored st d p →
  todo p = fs ++ rest → fs ≠ [] →
  ∃ st', Update sha256 NormalizedFilename st device fs false = (st', Ok ()) ∧
    at_number st' (last_sequence p fs) ∧ todo (last_sequence p fs) = rest.
Proof.
  intros Hne Hd Hst Ht Hfs.
  destruct (stored_files fs st d p None rest Hst Ht) as (st' & Hu & Hst' & Hdev & Hid & Ht'); [done|].
  exists st'. unfold Update, deviceIdxLocked. rewrite Hd, bool_decide_eq_false_2 by done.
  rewrite Hu. split_and!; [done| |done]. split; [exists d; by rewrite Hdev|].
  unfold GetDeviceSequence. rewrite Hdev, Hd. simpl. by rewrite Hid.
Qed.

(** What a full index starts from. *)
Lemma DropAllFiles_stored st p :
  device ≠ LocalDeviceID → db_ok st → (∀ g, g ∈ all → no_collision sha256 st g) →
  Forall (λ f, p < fSequence f) all →
  ∃ st' d, DropAllFiles st device = (st', Ok ()) ∧ devices st' !! device = Some d ∧ stored st' d p.
Proof.
  intros Hne Hok Hc Hp. unfold DropAllFiles. rewrite (surjective_pairing (deviceIdxLocked st device)).
  destruct (deviceIdxLocked_spec st device Hok) as (Hok1 & _ & _ & _ & _ & Hd & _).
  assert (blocklists (deviceIdxLocked st device).1 = blocklists st) as Hbl.
  { unfold deviceIdxLocked. by destruct (devices st !! device). }
  set (st1 := (deviceIdxLocked st device).1) in *. set (d := (deviceIdxLocked st device).2) in *.
  set (sd := delete_rows (λ r, device_idx r =? d) st1).
  assert (∀ st', db_ok st' → (∀ r, r ∈ files st' → device_idx r ≠ d) → blocklists st' = blocklists st →
          stored st' d p) as Hfin.
  { intros st' Hok' Hno Hbl'. split; [done| | | |].
    - intros r Hr Hdr. by destruct (Hno r Hr).
    - intros r Hr Hdr. by destruct (Hno r Hr).
    - intros g Hg Hle. rewrite Forall_forall in Hp. specialize (Hp g Hg). lia.
    - intros g Hg bl. rewrite Hbl'. by apply Hc. }
  assert (∀ r, r ∈ files sd → device_idx r ≠ d) as Hno.
  { intros r [Hr _]%list_elem_of_filter. by apply Z.eqb_neq. }
  destruct (existsb _ _).
  - destruct (recalcGlobalForFolder_spec sd) as (st' & -> & Hs & _); [by apply delete_rows_ok|].
    destruct (flag_steps_frame _ _ Hs) as [Hfr Hun].
    exists st', d. split_and!; [done|by rewrite Hfr|]. apply Hfin.
    + eapply flag_steps_ok; [done|by apply delete_rows_ok].
    + intros r Hr. apply elem_unflagged in Hr. rewrite Hun in Hr.
      apply list_elem_of_fmap in Hr as (r' & E' & Hr'). apply (f_equal device_idx) in E'.
      cbn in E'. rewrite E'. by apply Hno.
    + by rewrite Hfr.
  - exists sd, d. split_and!; [done..|]. apply Hfin; [by apply delete_rows_ok|done..].
Qed.
(** Where the receiver is before the next message: anywhere before a full index,
    else at the number sent last. *)
Definition ready_for (first : bool) (st : folderDB) (p : Z) : Prop :=
  if first then p = 0 ∧ db_ok st ∧ (∀ g, g ∈ all → no_collision sha256 st g) ∧
                Forall (λ f, 0 < fSequence f) all
  else at_number st p.

Lemma receive_step st downloads first p m rest :
  device ≠ LocalDeviceID → 0 ≤ p → ready_for first st p → message_files m ≠ [] →
  PrevSequence m = (if first then None else Some p) →
  LastSequence m = last_sequence p (message_files m) → todo p = message_files m ++ rest →
  let r := receive_message sha256 NormalizedFilename folder false device st downloads m in
  r_result r = Ok () ∧ r_anomalies r = [] ∧ at_number (r_db r) (LastSequence m) ∧
  todo (LastSequence m) = rest.
Proof.
  intros Hne Hp Hready Hfs Hprev Hlast Ht.
  assert (ascending (todo p)) as Hs.
  { eapply StronglySorted_sublist_of; [apply sublist_filter|done]. }
  assert (Forall (λ f, p < fSequence f) (todo p)) as Ha.
  { apply Forall_forall. intros f Hf. by apply list_elem_of_filter in Hf as [? _]. }
  rewrite Ht in Hs, Ha. apply StronglySorted_app in Hs as (_ & Hs & _).
  apply Forall_app in Ha as [Ha _].
  destruct m as [fs l|fs p' l]; cbn [message_files PrevSequence LastSequence] in *; subst l.
  - destruct first; [|done]. destruct Hready as (-> & Hok & Hc & Hpos).
    destruct (DropAllFiles_stored st 0 Hne Hok Hc Hpos) as (st1 & d & Hdrop & Hd & Hst).
    destruct (receive_update st1 d 0 fs rest Hne Hd Hst Ht Hfs) as (st' & Hu & Hat & Ht').
    unfold receive_message, receive. cbn [negb]. rewrite Hdrop, Hu.
    cbn [r_result r_anomalies r_db].
    rewrite no_anomalies; [|by left|lia|done..]. unfold anomalies_after.
    rewrite (at_sequence _ _ Hat), Z.eqb_refl, !andb_false_r. done.
  - destruct first; [done|]. injection Hprev as ->. destruct Hready as [(d & Hd & Hst) Hexp].
    destruct (receive_update st d p fs rest Hne Hd Hst Ht Hfs) as (st' & Hu & Hat & Ht').
    unfold receive_message, receive. cbn [negb]. rewrite Hu. cbn [r_result r_anomalies r_db].
    rewrite no_anomalies; [|right; by rewrite Hexp|lia|done..]. unfold anomalies_after.
    rewrite (at_sequence _ _ Hat), Z.eqb_refl, !andb_false_r. done.
Qed.

Lemma receive_chain ms : ∀ st downloads first p rest,
  device ≠ LocalDeviceID → 0 ≤ p → ready_for first st p → chained first p ms →
  Forall file_fine (concat (message_files <$> ms)) →
  todo p = map over_wire (concat (message_files <$> ms)) ++ rest →
  let r := receive_messages st downloads ms in
  r_result r = Ok () ∧ r_anomalies r = [] ∧
  (ms = [] → r_db r = st) ∧
  (ms ≠ [] → at_number (r_db r) (last_sequence p (concat (message_files <$> ms)))).
Proof.
  induction ms as [|m ms IH]; intros st downloads first p rest Hne Hp Hready Hch Hfine Ht; [done|].
  destruct Hch as (Hfs & Hprev & _ & Hgt & Hlast & _ & Hch).
  rewrite fmap_cons in *. cbn [concat] in *. apply Forall_app in Hfine as [Hfm Hfine].
  rewrite map_app, <- app_assoc in Ht.
  set (m' := replace_files m (map over_wire (message_files m))).
  assert (∀ fs, last_sequence p (map over_wire fs) = last_sequence p fs) as Hmap.
  { intros fs. unfold last_sequence. change (map over_wire fs) with (over_wire <$> fs).
    rewrite fmap_last. by destruct (last fs). }
  assert (message_files m' = map over_wire (message_files m) ∧ PrevSequence m' = PrevSequence m ∧
          LastSequence m' = LastSequence m) as (E1 & E2 & E3) by (by destruct m).
  destruct (receive_step st downloads first p m'
    (map over_wire (concat (message_files <$> ms)) ++ rest)) as (H1 & H2 & H3 & H4); try done.
  { rewrite E1. by destruct (message_files m). }
  { by rewrite E2. }
  { by rewrite E3, E1, Hmap. }
  { by rewrite E1. }
  rewrite E3 in H3, H4. cbn [receive_messages]. rewrite (deliver_spec m Hfm). fold m'. cbv zeta.
  rewrite H1. set (st1 := r_db _) in *. set (dl1 := r_downloads _).
  assert (0 ≤ LastSequence m) as Hpl.
  { rewrite Hlast. unfold last_sequence. destruct (last (message_files m)) as [f|] eqn:El; [|done].
    cbn. rewrite Forall_forall in Hgt. apply last_Some in El as [l El].
    specialize (Hgt f). rewrite El in Hgt. specialize (Hgt ltac:(set_solver)). lia. }
  destruct (IH st1 dl1 false (LastSequence m) rest Hne Hpl H3 Hch Hfine H4) as (I1 & I2 & I3 & I4).
  cbn [r_result r_anomalies r_db]. rewrite H2, I2. split_and!; [done..|]. intros _.
  rewrite last_sequence_app, <- Hlast. destruct ms as [|m1 ms]; [by rewrite I3|by apply I4].
Qed.
End receiver.

(** ** Sender and receiver *)

Section exchange.
Context {E : Engine}.
Variable protoSize : bepFileInfo → Z.
Variable sha256 : list Z → list Z.
Variables NormalizedFilename NativeFilename : string → string.
Variables (folder : string) (device : list Z).
Context (fetch : Z → Z → list FileInfo) (local : list FileInfo) `{!LocalIndex fetch local}.

(** What the sender announces, as it arrives. *)
Definition announced_files (s : indexHandler) : list FileInfo :=
  announced_file <$> announceable s local.
Definition announced_names (s : indexHandler) : list string :=
  (λ f, NormalizedFilename (fName f)) <$> announced_files s.

(** The sender's files can be exchanged: they are in order, their names differ
    after normalisation and the hashes of their blocks do not collide. *)
Record exchangeable : Prop := {
  ex_fine : Forall file_fine local;
  ex_names f g : f ∈ local → g ∈ local →
    NormalizedFilename (fName f) = NormalizedFilename (fName g) → f = g;
  ex_hashes f g : f ∈ local → g ∈ local →
    BlocksHash sha256 (fBlocks f) = BlocksHash sha256 (fBlocks g) → fBlocks f = fBlocks g;
}.

(** The receiver has what the sender says it sent; [names] are the names of the
    files it may have. *)
Record in_step (names : list string) (s : indexHandler) (st : folderDB) : Prop := {
  step_ok : handler_ok s;
  step_sent f : f ∈ announceable s local → fSequence f ≤ localPrevSequence s →
    fSequence f ≤ sentPrevSequence s;
  step_at : at_number sha256 NormalizedFilename device (announced_files s) names st
              (sentPrevSequence s);
}.

Lemma announced_todo s :
  handler_ok s →
  (∀ f, f ∈ announceable s local → fSequence f ≤ localPrevSequence s →
   fSequence f ≤ sentPrevSequence s) →
  todo (announced_files s) (sentPrevSequence s) =
  map over_wire (map prepareFileInfoForIndex (announceable s (pending s local))) ++ [].
Proof.
  intros [_ Hle] Hsent. rewrite app_nil_r, map_map. unfold todo, announced_files.
  rewrite filter_of_fmap. change (map _ ?l) with (announced_file <$> l). f_equal.
  unfold pending, announceable in *. rewrite !list_filter_filter. apply filter_ext_in.
  intros f Hf. specialize (Hsent f). rewrite list_elem_of_filter in Hsent.
  change (fSequence (announced_file f)) with (fSequence f).
  split; intros [H1 H2]; (split; [done|]) || (split; [lia|done]).
  apply Z.nle_gt. intros Hl. specialize (Hsent (conj H2 Hf) Hl). lia.
Qed.
Lemma announced_fine s f : exchangeable → f ∈ announced_files s →
  ∃ g, f = announced_file g ∧ g ∈ local ∧ file_fine f.
Proof.
  intros Hex (g & -> & [_ Hg]%list_elem_of_filter)%list_elem_of_fmap. exists g.
  split_and!; [done..|]. apply over_wire_fine, prepare_fine.
  pose proof (ex_fine Hex) as Hf. rewrite Forall_forall in Hf. by apply Hf.
Qed.

(** The conditions of the receiver's lemmas. *)
Lemma announced_conditions s :
  exchangeable →
  Forall file_fine (announced_files s) ∧
  StronglySorted (λ f g, fSequence f < fSequence g) (announced_files s) ∧
  (∀ f g, f ∈ announced_files s → g ∈ announced_files s →
   NormalizedFilename (fName f) = NormalizedFilename (fName g) → f = g) ∧
  (∀ f g, f ∈ announced_files s → g ∈ announced_files s →
   BlocksHash sha256 (fBlocks f) = BlocksHash sha256 (fBlocks g) → fBlocks f = fBlocks g) ∧
  Forall (λ f, 0 < fSequence f) (announced_files s).
Proof.
  intros Hex. split_and!.
  - apply Forall_forall. intros f Hf. by destruct (announced_fine s f Hex Hf) as (g & _ & _ & ?).
  - eapply (StronglySorted_fmap announced_file), ascending_filter, li_sorted. done.
  - intros f g Hf Hg Hn. destruct (announced_fine s f Hex Hf) as (f' & -> & Hf' & _).
    destruct (announced_fine s g Hex Hg) as (g' & -> & Hg' & _). f_equal.
    exact (ex_names Hex _ _ Hf' Hg' Hn).
  - intros f g Hf Hg Hh. destruct (announced_fine s f Hex Hf) as (f' & -> & Hf' & _).
    destruct (announced_fine s g Hex Hg) as (g' & -> & Hg' & _). exact (ex_hashes Hex _ _ Hf' Hg' Hh).
  - apply Forall_fmap. eapply Forall_sublist_of; [apply sublist_filter|apply li_positive].
Qed.
Lemma all_sent s f :
  handler_ok s →
  (∀ f, f ∈ announceable s local → fSequence f ≤ localPrevSequence s →
   fSequence f ≤ sentPrevSequence s) →
  f ∈ announceable s local → fSequence f ≤ sentPrevSequence (advance s (pending s local)).
Proof.
  intros [_ Hle] Hsent Hf. cbn [advance sentPrevSequence].
  destruct (last_sequence_ge (sentPrevSequence s) (announceable s (pending s local))) as (H1 & H2 & _).
  { apply ascending_filter, (pending_ascending fetch local). }
  { eapply Forall_sublist_of; [apply sublist_filter|].
    eapply Forall_impl; [apply pending_above|]. cbn. lia. }
  destruct (Z.le_gt_cases (fSequence f) (localPrevSequence s)) as [Hl|Hl].
  - specialize (Hsent f Hf Hl). lia.
  - rewrite Forall_forall in H2. apply H2. apply list_elem_of_filter in Hf as [Ha Hf].
    apply list_elem_of_filter. split; [done|]. by apply list_elem_of_filter.
Qed.

Lemma announced_read s st d names f p :
  device ≠ LocalDeviceID → exchangeable → devices st !! device = Some d →
  stored sha256 NormalizedFilename (announced_files s) names st d p →
  f ∈ announced_files s → fSequence f ≤ p →
  ∀ st0, GetDeviceFile NormalizedFilename NativeFilename st device (fName f) =
         Some (read_back sha256 NormalizedFilename NativeFilename st0 device f).
Proof.
  intros Hne Hex Hd Hst Hf Hp st0. destruct (announced_fine s f Hex Hf) as (_ & _ & _ & [_ Hfile Ht]).
  rewrite read_back_stored, bool_decide_eq_false_2 by done.
  eapply holds_read; [apply Hst|done..|]. by apply (st_holds _ _ _ _ _ _ _ Hst).
Qed.

(** The two ways to start. *)
Definition can_start (names : list string) (s : indexHandler) (st : folderDB) : Prop :=
  in_step names s st ∨
  (handler_ok s ∧ localPrevSequence s = 0 ∧ folderIsReceiveEncrypted s = false ∧ db_ok st ∧
   ∀ f, f ∈ announced_files s → no_collision sha256 st f).

Lemma can_start_sent names s st :
  can_start names s st →
  handler_ok s ∧
  ∀ f, f ∈ announceable s local → fSequence f ≤ localPrevSequence s →
       fSequence f ≤ sentPrevSequence s.
Proof.
  intros [[]|(Hok & H0 & _)]; [done|]. split; [done|]. intros f Hf Hl.
  pose proof li_positive as Hpos. rewrite Forall_forall in Hpos.
  apply list_elem_of_filter in Hf as [_ Hf]. specialize (Hpos f Hf). lia.
Qed.

Lemma start_ready names s st (first : bool) :
  exchangeable → can_start names s st → (first = true → localPrevSequence s = 0) →
  (folderIsReceiveEncrypted s = false → first = (localPrevSequence s =? 0)) →
  ready_for sha256 NormalizedFilename device (announced_files s) names first st
    (sentPrevSequence s).
Proof.
  intros Hex Hstart Hf0 Hf1. destruct (announced_conditions s Hex) as (_ & _ & _ & _ & A5).
  destruct (can_start_sent _ _ _ Hstart) as [[Hok1 Hok2] _].
  destruct first; cbn [ready_for].
  - specialize (Hf0 eq_refl). split; [lia|].
    destruct Hstart as [[_ _ [(d & _ & Hst) _]]|(_ & _ & _ & ? & ?)]; [|done].
    split_and!; [apply Hst| |done]. apply (st_hashes _ _ _ _ _ _ _ Hst).
  - destruct Hstart as [[_ _ Hat]|(_ & H0 & He & _)]; [done|].
    specialize (Hf1 He). rewrite H0 in Hf1. done.
Qed.

Lemma still_in_step names s st' :
  handler_ok s →
  (∀ f, f ∈ announceable s local → fSequence f ≤ localPrevSequence s →
   fSequence f ≤ sentPrevSequence s) →
  at_number sha256 NormalizedFilename device (announced_files s) names st'
    (last_sequence (sentPrevSequence s)
       (map prepareFileInfoForIndex (announceable s (pending s local)))) →
  in_step names (advance s (pending s local)) st'.
Proof.
  intros Hok Hsent Hat. split.
  - apply (taken_ok fetch local s (pending s local) []); [done|by rewrite app_nil_r].
  - intros f Hf _. by apply all_sent.
  - rewrite last_sequence_prepared in Hat. exact Hat.
Qed.

(** C9.  Two devices converge: when the index handler of one has sent what there
    is to send, the other has received every message without an error or a report
    of numbers out of sequence, knows every announced file as it is, and is in
    step for the next change.  This holds for a receiver that is in step, and,
    unless the folder is receive-encrypted, for any receiver when the sender starts
    from zero and has a file to send; when there is no file, nothing is sent and
    the receiver keeps what it had. *)
Theorem index_exchange conn fuel s st downloads names :
  exchangeable → device ≠ LocalDeviceID → (∀ m, conn m = None) →
  (length (pending s local) < fuel)%nat → announced_names s ⊆ names →
  can_start names s st →
  ∃ s' ms,
    Serve protoSize false conn (λ _, None) fuel fetch (last_sequence 0 local) s = (s', Ok ms) ∧
    let r := receive_messages sha256 NormalizedFilename folder device st downloads ms in
    r_result r = Ok () ∧ r_anomalies r = [] ∧ (ms = [] → r_db r = st) ∧
    (in_step names s st ∨ ms ≠ [] →
     in_step names s' (r_db r) ∧
     ∀ f, f ∈ announced_files s →
       GetDeviceFile NormalizedFilename NativeFilename (r_db r) device (fName f) =
       Some (read_back sha256 NormalizedFilename NativeFilename st device f)).
Proof.
  intros Hex Hne Hc Hfuel Hnames Hready.
  destruct (can_start_sent _ _ _ Hready) as [Hok Hsent].
  assert (caught_up local s (Serve protoSize false conn (λ _, None) fuel fetch (last_sequence 0 local) s))
    as (first & ms & HS & Hcat & Hch & Hf0 & Hf1).
  { by apply Serve_caught_up. }
  destruct (announced_conditions s Hex) as (A1 & A2 & A3 & A4 & A5).
  assert (∀ f, f ∈ announced_files s → NormalizedFilename (fName f) ∈ names) as A6.
  { intros f Hf. apply Hnames. by apply (list_elem_of_fmap_2 (λ f, NormalizedFilename (fName f))). }
  pose proof (announced_todo s Hok Hsent) as Htodo. rewrite <- Hcat in Htodo.
  exists (advance s (pending s local)), ms. split; [done|].
  destruct (receive_chain sha256 NormalizedFilename folder device (announced_files s) names
    A1 A2 A3 A6 A4 ms st downloads first (sentPrevSequence s) []) as (R1 & R2 & R3 & R4);
    [done|by destruct Hok| |done| |done|].
  { by apply start_ready. }
  { rewrite Hcat. apply Forall_map, Forall_forall. intros f Hf. apply prepare_fine.
    pose proof (ex_fine Hex) as Hfine. rewrite Forall_forall in Hfine. apply Hfine.
    by apply list_elem_of_filter in Hf as [_ [_ Hf]%list_elem_of_filter]. }
  split_and!; [done..|]. intros Hor.
  assert (in_step names (advance s (pending s local))
    (r_db (receive_messages sha256 NormalizedFilename folder device st downloads ms))) as Hstep.
  { apply still_in_step; [done..|]. rewrite Hcat in R4. destruct ms as [|m ms]; [|by apply R4].
    destruct Hor as [[_ _ Hat]|?]; [|done]. rewrite R3, <- Hcat by done. exact Hat. }
  split; [done|]. destruct (step_at _ _ _ Hstep) as [(d & Hd & Hst) _]. intros f Hf.
  apply (announced_read s _ d names f (sentPrevSequence (advance s (pending s local)))); try done.
  apply list_elem_of_fmap in Hf as (g & -> & Hg). exact (all_sent s g Hok Hsent Hg).
Qed.
End exchange.

(** ** The database keeps the promise of [LocalIndex] *)

Section numbering.
Context {E : Engine}.
Variable sha256 : list Z → list Z.
Variables NormalizedFilename NativeFilename : string → string.

(** The record of a local row has the number of the row. *)
Definition numbered_rows (st : folderDB) : Prop :=
  ∀ r w, r ∈ files st → device_idx r = localDeviceIdx st → fileinfos st !! sequence r = Some w →
  wSequence w = sequence r.

Lemma numbered_fewer st st' :
  localDeviceIdx st' = localDeviceIdx st →
  (∀ r, r ∈ files st' → ∃ r', r' ∈ files st ∧ device_idx r' = device_idx r ∧
     sequence r' = sequence r ∧ fileinfos st' !! sequence r = fileinfos st !! sequence r) →
  numbered_rows st → numbered_rows st'.
Proof.
  intros Hl Hr Hn r w Hin Hd Hw. destruct (Hr r Hin) as (r' & Hr' & E1 & E2 & E3).
  rewrite <- E2. apply (Hn r' w Hr'); congruence.
Qed.

Lemma unflagged_from rs rs' r : unflagged rs' = unflagged rs → r ∈ rs' →
  ∃ r', r' ∈ rs ∧ device_idx r' = device_idx r ∧ sequence r' = sequence r ∧ name r' = name r.
Proof.
  intros Hun Hr. apply elem_unflagged in Hr. rewrite Hun in Hr.
  apply list_elem_of_fmap in Hr as (r' & E' & Hr'). exists r'. split; [done|].
  pose proof (f_equal device_idx E'). pose proof (f_equal sequence E'). pose proof (f_equal name E').
  by cbn in *.
Qed.

Lemma numbered_flags st st' : flag_steps st st' → numbered_rows st → numbered_rows st'.
Proof.
  intros Hs. destruct (flag_steps_frame _ _ Hs) as [Hfr Hun]. apply numbered_fewer; [by rewrite Hfr|].
  intros r Hr. destruct (unflagged_from _ _ r Hun Hr) as (r' & ? & ? & ? & _). exists r'.
  split_and!; [done..|]. by rewrite Hfr.
Qed.

Lemma numbered_delete p st : db_ok st → numbered_rows st → numbered_rows (delete_rows p st).
Proof.
  intros Hok. apply numbered_fewer; [done|]. intros r [Hp Hr]%list_elem_of_filter. exists r.
  split_and!; [done..|]. unfold delete_rows. cbn [fileinfos].
  rewrite delete_fileinfos, bool_decide_eq_false_2; [done|].
  intros (r1 & Hs & [Hp1 Hr1]%list_elem_of_filter)%list_elem_of_fmap.
  rewrite (same_sequence st r r1 Hok Hr Hr1 Hs) in Hp. congruence.
Qed.

Lemma numbered_file st d local skip f st' :
  db_ok st → update_file_result sha256 NormalizedFilename st d local skip f st' →
  (d = localDeviceIdx st → local = true) → numbered_rows st → numbered_rows st'.
Proof.
  intros Hok Hres Hl Hn. set (new := new_row sha256 NormalizedFilename d local f).
  destruct (uf_stored _ _ _ _ _ _ _ _ Hres) as (w0 & Hw0 & Hfi).
  intros r w Hr Hd Hw.
  destruct (unflagged_from _ _ r (uf_files _ _ _ _ _ _ _ _ Hres) Hr) as (r' & Hr' & E1 & E2 & _).
  rewrite (uf_local _ _ _ _ _ _ _ _ Hres), <- E1 in Hd. rewrite <- E2 in *. rewrite Hfi in Hw.
  apply elem_of_app in Hr' as [Hr'|Hr'].
  - pose proof (ok_last _ (delete_rows_ok (conflicts new) st Hok)) as Hlast.
    rewrite Forall_forall in Hlast. specialize (Hlast r' Hr').
    change (files_seq (delete_rows (conflicts new) st)) with (files_seq st) in Hlast.
    rewrite lookup_insert_ne in Hw by lia.
    exact (numbered_delete (conflicts new) st Hok Hn r' w Hr' Hd Hw).
  - apply list_elem_of_singleton in Hr' as ->.
    cbn [with_sequence device_idx sequence new_row file_row] in *.
    rewrite lookup_insert_eq in Hw. injection Hw as ->. rewrite (Hl Hd) in Hw0.
    unfold FileInfo_ToWire in Hw0. destruct (_ && _); [done|]. by injection Hw0 as <-.
Qed.

Lemma numbered_loop fs d local skip : ∀ st prev st',
  Forall (λ f, vector_wf (fVersion f)) fs → db_ok st → (d = localDeviceIdx st → local = true) →
  numbered_rows st → update_loop sha256 NormalizedFilename st d local skip prev fs = Ok st' →
  numbered_rows st'.
Proof.
  induction fs as [|f fs IH]; intros st prev st' Hw Hok Hl Hn; simpl; [by intros [= ->]|].
  apply Forall_cons in Hw as [Hf Hw]. destruct (_ && _); [done|].
  destruct (update_file _ _ st d local skip f) as [st1| |] eqn:Eu; [|done..]. cbn [mbind go_bind].
  pose proof (update_file_spec _ _ _ _ _ _ _ _ Hok Hf Eu) as Hres.
  apply IH; [done|by eapply uf_ok| |by eapply numbered_file].
  by rewrite (uf_local _ _ _ _ _ _ _ _ Hres).
Qed.

Lemma numbered_device st device :
  numbered_rows st → numbered_rows (deviceIdxLocked st device).1.
Proof. unfold deviceIdxLocked. by destruct (devices st !! device). Qed.

Lemma perform_numbered st op :
  db_ok st → acceptable NormalizedFilename st op → numbered_rows st →
  numbered_rows (perform sha256 NormalizedFilename st op).1.
Proof.
  intros Hok Ha Hn. destruct op as [device fs skip|device|device|device names]; cbn [perform].
  - destruct Ha as [Hw _]. unfold Update. rewrite (surjective_pairing (deviceIdxLocked st device)).
    pose proof (numbered_device st device Hn) as Hn1.
    destruct (deviceIdxLocked_spec st device Hok) as (Hok1 & _ & _ & _ & _ & Hd & _).
    destruct (update_loop _ _ _ _ _ _ _ _) as [st'| |] eqn:El; cbn [fst]; [|done..].
    eapply numbered_loop; [exact Hw|exact Hok1| |exact Hn1|exact El]. intros Hdl.
    apply bool_decide_eq_true. eapply ok_devices; [exact Hok1|exact Hd|]. rewrite Hdl.
    apply ok_local, Hok1.
  - unfold DropDevice. case_bool_decide as Hd; [done|].
    assert (numbered_rows (delete_device st device)) as Hn1.
    { unfold delete_device. destruct (devices st !! device); [|done].
      exact (numbered_delete (λ r, device_idx r =? z) st Hok Hn). }
    destruct (recalcGlobalForFolder_spec (delete_device st device)) as (st' & -> & Hs & _);
      [by apply delete_device_ok|]. by eapply numbered_flags.
  - unfold DropAllFiles. rewrite (surjective_pairing (deviceIdxLocked st device)).
    destruct (deviceIdxLocked_spec st device Hok) as (Hok1 & _).
    pose proof (numbered_delete (λ r, device_idx r =? (deviceIdxLocked st device).2) _ Hok1
      (numbered_device st device Hn)) as Hn1.
    destruct (existsb _ _); [|exact Hn1].
    match goal with |- context [recalcGlobalForFolder ?s] =>
      destruct (recalcGlobalForFolder_spec s) as (st' & -> & Hs & _); [by apply delete_rows_ok|] end.
    by eapply numbered_flags.
  - unfold DropFilesNamed. rewrite (surjective_pairing (deviceIdxLocked st device)).
    destruct (deviceIdxLocked_spec st device Hok) as (Hok1 & _).
    match goal with |- context [recalc_all ?s ?ns] =>
      destruct (recalc_all_spec ns s) as (st' & -> & Hs & _); [by apply delete_rows_ok|] end.
    eapply numbered_flags; [exact Hs|]. apply numbered_delete; [done|]. by apply numbered_device.
Qed.
(** The local files as the database returns them. *)
Definition database_fetch (st : folderDB) : Z → Z → list FileInfo :=
  AllLocalFilesBySequence NativeFilename st LocalDeviceID.
Definition database_files (st : folderDB) : list FileInfo := database_fetch st 0 0.

Definition joined (st : folderDB) (r : filesRow) : option FileInfo :=
  indirectFI_FileInfo NativeFilename <$> join_row st r.

Lemma read_sequence i : fSequence (indirectFI_FileInfo NativeFilename i) = wSequence (FiProtobuf i).
Proof. unfold indirectFI_FileInfo. by destruct (BlProtobuf i) as [[|b bs]|]. Qed.

Lemma joined_some st r :
  db_ok st → numbered_rows st → r ∈ files st → device_idx r = localDeviceIdx st →
  ∃ f, joined st r = Some f ∧ fSequence f = sequence r ∧ ftruncated f = false.
Proof.
  intros Hok Hn Hr Hd. destruct (proj2 (ok_fileinfos _ Hok (sequence r))) as [w Hw].
  { by apply list_elem_of_fmap_2. }
  unfold joined, join_row. rewrite Hw. eexists. split; [reflexivity|].
  rewrite read_sequence. split; [by apply (Hn r w)|done].
Qed.

(** The rows and the files they stand for. *)
Lemma joined_rows st rows :
  db_ok st → numbered_rows st →
  Forall (λ r, r ∈ files st ∧ device_idx r = localDeviceIdx st) rows →
  Forall2 (λ r f, joined st r = Some f ∧ fSequence f = sequence r ∧ ftruncated f = false) rows
    (indirectFI_FileInfo NativeFilename <$> omap (join_row st) rows).
Proof.
  intros Hok Hn. induction 1 as [|r rows [Hr Hd] Hrows IH]; [constructor|].
  destruct (joined_some st r Hok Hn Hr Hd) as (f & Hj & Hs & Ht). pose proof Hj as Hj'.
  unfold joined in Hj. simpl. destruct (join_row st r) as [i|] eqn:Ei; [|done].
  injection Hj as <-. constructor; [done|exact IH].
Qed.

Lemma rows_by_sequence_spec st start limit :
  db_ok st → 0 < limit →
  rows_by_sequence st LocalDeviceID start limit =
  take (Z.to_nat limit) (filter (λ r, start <= sequence r) (rows_by_sequence st LocalDeviceID 0 0)).
Proof.
  intros Hok Hl. unfold rows_by_sequence at 1. rewrite (proj2 (Z.ltb_lt _ _) Hl). f_equal.
  set (lt := λ a b, sequence a <? sequence b).
  assert (∀ l, NoDup (sequence <$> l) → StronglySorted (λ x y, sequence x < sequence y) (sort_by lt l)) as Hsort.
  { intros l Hnd. apply StronglySorted_strict; [by rewrite sort_by_perm|].
    apply sort_by_sorted; unfold lt; intros; zb; apply Z.ltb_ge; lia. }
  assert (∀ (P : filesRow → Prop) `{!∀ r, Decision (P r)}, NoDup (sequence <$> filter P (files st))) as Hnd.
  { intros P ?. eapply sublist_NoDup; [exact (ok_sequences _ Hok)|]. apply fmap_sublist, sublist_filter. }
  apply (StronglySorted_unique_strong (λ x y, sequence x < sequence y)); [|by apply Hsort| |].
  - intros x y _ _ ? ?. lia.
  - eapply StronglySorted_sublist_of; [apply sublist_filter|]. by apply Hsort.
  - unfold rows_by_sequence. rewrite (proj2 (Z.ltb_ge 0 0)) by lia. rewrite !sort_by_perm.
    rewrite list_filter_filter. apply reflexive_eq, filter_ext_in. intros r Hr.
    rewrite !andb_true_iff, !Z.leb_le. pose proof (ok_last _ Hok) as Hlast.
    rewrite Forall_forall in Hlast. specialize (Hlast r Hr). naive_solver lia.
Qed.
Lemma filter_joined st start rows fs :
  Forall2 (λ r f, joined st r = Some f ∧ fSequence f = sequence r ∧ ftruncated f = false) rows fs →
  Forall2 (λ r f, joined st r = Some f ∧ fSequence f = sequence r ∧ ftruncated f = false)
    (filter (λ r, start <= sequence r) rows) (filter (λ f, start <= fSequence f) fs).
Proof.
  induction 1 as [|r f rows fs (Hj & Hs & Ht) H IH]; [constructor|].
  destruct (decide (start <= sequence r)) as [Hle|Hle].
  - rewrite !filter_cons_True by lia. by constructor.
  - rewrite !filter_cons_False by lia. done.
Qed.

Lemma joined_inj st rows fs gs :
  Forall2 (λ r f, joined st r = Some f ∧ fSequence f = sequence r ∧ ftruncated f = false) rows fs →
  Forall2 (λ r f, joined st r = Some f ∧ fSequence f = sequence r ∧ ftruncated f = false) rows gs →
  fs = gs.
Proof.
  intros H. revert gs. induction H as [|r f rows fs [Hj _] H IH]; intros gs Hg;
    inversion Hg as [|? ? ? ? [Hj' _] Hg']; [done|]; subst. f_equal; [congruence|auto].
Qed.

Lemma local_rows st start limit :
  db_ok st →
  Forall (λ r, r ∈ files st ∧ device_idx r = localDeviceIdx st)
    (rows_by_sequence st LocalDeviceID start limit).
Proof.
  intros Hok.
  assert (∀ r, r ∈ sort_by (λ a b, sequence a <? sequence b)
      (filter (λ r, of_device st LocalDeviceID (device_idx r) && (start <=? sequence r) = true) (files st)) →
      r ∈ files st ∧ device_idx r = localDeviceIdx st) as H.
  { intros r. rewrite sort_by_perm, list_elem_of_filter. unfold of_device.
    rewrite (ok_local _ Hok), andb_true_iff, bool_decide_eq_true. intros [[[= ->] _] ?]. done. }
  apply Forall_forall. intros r Hr. apply H. unfold rows_by_sequence in Hr.
  destruct (0 <? limit); [|done]. eapply elem_of_sublist; [exact Hr|apply sublist_take].
Qed.

Lemma database_local_index st :
  db_ok st → numbered_rows st → LocalIndex (database_fetch st) (database_files st).
Proof.
  intros Hok Hn. pose proof (joined_rows st _ Hok Hn (local_rows st 0 0 Hok)) as HJ.
  change (_ <$> _) with (database_files st) in HJ.
  set (rows := rows_by_sequence st LocalDeviceID 0 0) in *. split.
  - assert (StronglySorted (λ x y, sequence x < sequence y) rows) as Hs.
    { apply StronglySorted_strict.
      - unfold rows, rows_by_sequence. simpl. rewrite sort_by_perm.
        eapply sublist_NoDup; [exact (ok_sequences _ Hok)|]. apply fmap_sublist, sublist_filter.
      - apply sort_by_sorted; intros; zb; apply Z.ltb_ge; lia. }
    clear -HJ Hs. induction HJ as [|r f rows fs (_ & Hf & _) HJ IH]; [constructor|].
    apply StronglySorted_inv in Hs as [Hs Hr]. constructor; [auto|]. clear IH Hs.
    induction HJ as [|r' f' rows fs (_ & Hf' & _) HJ IH]; [constructor|].
    apply Forall_cons in Hr as [Hr1 Hr]. constructor; [lia|auto].
  - apply Forall_forall. intros f [i Hi]%list_elem_of_lookup_1.
    destruct (Forall2_lookup_r _ _ _ _ _ HJ Hi) as (r & Hr & _ & Hs & _).
    pose proof (local_rows st 0 0 Hok) as Hl. rewrite Forall_forall in Hl.
    destruct (Hl r) as [Hr' _]; [by eapply list_elem_of_lookup_2|].
    pose proof (ok_last _ Hok) as Hlast. rewrite Forall_forall in Hlast. specialize (Hlast r Hr'). lia.
  - apply Forall_forall. intros f [i Hi]%list_elem_of_lookup_1.
    by destruct (Forall2_lookup_r _ _ _ _ _ HJ Hi) as (r & _ & _ & _ & ?).
  - intros start limit Hlim. apply (joined_inj st (rows_by_sequence st LocalDeviceID start limit)).
    + apply joined_rows; [done..|by apply local_rows].
    + rewrite (rows_by_sequence_spec st start limit Hok Hlim). apply Forall2_take, filter_joined, HJ.
Qed.

(** C19.  The database implements the interface of the index exchange: from a new
    database on, every operation keeps the number in the record of a local file
    equal to the number of its row, and so the files it returns from a number on
    are the local files in strictly increasing order, complete, up to the limit. *)
Theorem database_implements_LocalIndex st op :
  numbered_rows openFolderDB ∧
  (db_ok st → acceptable NormalizedFilename st op → numbered_rows st →
   numbered_rows (perform sha256 NormalizedFilename st op).1) ∧
  (db_ok st → numbered_rows st → LocalIndex (database_fetch st) (database_files st)).
Proof.
  split; [by intros r w Hr%elem_of_nil|]. split; [apply perform_numbered|apply database_local_index].
Qed.
End numbering.

(** ** Examples *)

Definition hash4 (bs : list Z) : list Z := take 4 bs.
Definition plain (n : string) : string := n.

(** A sender with two files and a receiver that knows an old file of it. *)
Definition opLocal : operation :=
  OpUpdate LocalDeviceID [announce "f" (vec [(1, 2)]) 100 0 0; announce "g" (vec [(1, 1)]) 100 0 0] false.
Definition sender : folderDB := (perform hash4 plain openFolderDB opLocal).1.
Definition receiver : folderDB := (perform hash4 plain openFolderDB opOld).1.
Definition sent_file (n : string) (v seq : Z) : FileInfo :=
  strip_blocks (stored_form hash4 plain (announce n (vec [(1, v)]) 100 0 0)) seq.
Definition sent_files : list FileInfo :=
  [renamed (sent_file "f" 2 1) "f" [MkBlockInfo [7] 0 3];
   renamed (sent_file "g" 1 2) "g" [MkBlockInfo [7] 0 3]].

Lemma sender_files : database_files plain sender = sent_files.
Proof. vm_compute. reflexivity. Qed.

Lemma opLocal_fine : acceptable plain openFolderDB opLocal.
Proof.
  split; [|by left]. repeat (apply Forall_cons_2; [apply vec_wf|]); [..|constructor].
  all: try (by repeat constructor); by (apply Forall_cons_2; [by split|constructor]).
Qed.

Lemma sender_ok : db_ok sender ∧ numbered_rows sender.
Proof.
  split.
  - by apply (perform_keeps hash4 plain openFolderDB opLocal openFolderDB_ok opLocal_fine).
  - apply perform_numbered; [exact openFolderDB_ok|exact opLocal_fine|by intros r w Hr%elem_of_nil].
Qed.

Lemma sent_files_fine : exchangeable hash4 plain sent_files.
Proof.
  split.
  - assert (∀ n v seq, in_u64 v → v ≠ 0 → file_fine (renamed (sent_file n v seq) n [MkBlockInfo [7] 0 3])) as H.
    { intros n v seq H1 H2. split; [|split; [|split]|done].
      - apply vec_wf; [by repeat constructor|]. apply Forall_cons_2; [|constructor]. by split.
      - apply Forall_cons_2; [|constructor]. by split.
      - by split.
      - apply sample_file_ok. }
    repeat (apply Forall_cons_2; [apply H; [by split|done]|]). constructor.
  - intros f g [->|[->|[]%elem_of_nil]%elem_of_cons]%elem_of_cons
      [->|[->|[]%elem_of_nil]%elem_of_cons]%elem_of_cons; done.
  - intros f g [->|[->|[]%elem_of_nil]%elem_of_cons]%elem_of_cons
      [->|[->|[]%elem_of_nil]%elem_of_cons]%elem_of_cons; done.
Qed.

Lemma receiver_ok : db_ok receiver.
Proof.
  apply (perform_keeps hash4 plain openFolderDB opOld openFolderDB_ok).
  apply acceptable_first; [|constructor]. apply vec_wf; [by repeat constructor|].
  apply Forall_cons_2; [|constructor]. by split.
Qed.

Lemma database_implements_LocalIndex_witness :
  LocalIndex (database_fetch plain sender) (database_files plain sender).
Proof.
  destruct (database_implements_LocalIndex hash4 plain plain openFolderDB opLocal) as (H0 & H1 & _).
  destruct (database_implements_LocalIndex hash4 plain plain sender opLocal) as (_ & _ & H).
  apply H; [exact (proj1 sender_ok)|]. apply H1; [exact openFolderDB_ok|exact opLocal_fine|exact H0].
Defined.

Lemma index_exchange_witness :
  ∃ s' ms,
    Serve (λ _, 90) false (λ _, None) (λ _, None) 3 (database_fetch plain sender) 2 (MkHandler false 0 0) =
      (s', Ok ms) ∧
    let r := receive_messages hash4 plain "folder" (dev 1) receiver newDeviceDownloadState ms in
    r_result r = Ok () ∧ r_anomalies r = [] ∧
    GetDeviceFile plain plain (r_db r) (dev 1) "g" =
      Some (read_back hash4 plain plain receiver (dev 1) (announced_file (renamed (sent_file "g" 1 2) "g" [MkBlockInfo [7] 0 3]))).
Proof.
  assert (LocalIndex (database_fetch plain sender) sent_files) as HL.
  { rewrite <- sender_files. apply database_local_index; apply sender_ok. }
  destruct (index_exchange (λ _, 90) hash4 plain plain "folder" (dev 1) (database_fetch plain sender)
    sent_files (λ _, None) 3 (MkHandler false 0 0) receiver newDeviceDownloadState ["f"; "g"]%string
    sent_files_fine) as (s' & ms & HS & H1 & H2 & H3 & H4).
  - vm_compute. discriminate.
  - reflexivity.
  - vm_compute. lia.
  - vm_compute. done.
  - right. split_and!; [by split|done|done| |].
    + exact receiver_ok.
    + intros f Hf bl. apply elem_of_cons in Hf as [->|Hf]; [vm_compute; intros [= <-]; reflexivity|].
      apply list_elem_of_singleton in Hf as ->. vm_compute. intros [= <-]. reflexivity.
  - exists s', ms. split; [exact HS|]. split; [exact H1|]. split; [exact H2|].
    destruct H4 as [_ H4]; [right; intros ->; vm_compute in HS; discriminate|].
    refine (H4 (announced_file (renamed (sent_file "g" 1 2) "g" [MkBlockInfo [7] 0 3])) _).
    right. left.
Defined.
