(* ===== verification/IndexRegistry.v ===== *)
(** * The index handlers of a connection ([src/lib/model/indexhandler.go],
      [service_map.go])

    One registry per connection starts, pauses and stops the index handlers of the
    folders, as the other device announces folders and the folders of this device
    start, pause and are removed.  The file proves that the three maps it keeps
    stay consistent, and that they implement a simple specification: a handler is
    active exactly for folders that are announced and running. *)
From stdpp Require Import functions.
From S2P Require Import Prelude GoLib Vector Platform FileInfo DeviceID DownloadState Messages.
From S2P Require Import FolderDB FolderMarks FolderQueries IndexHandler.
From Stdlib Require String.

Local Open Scope Z_scope.

(** ** Service maps ([service_map.go])

    The supervisor ([suture]) runs services under tokens it hands out; removing an
    unknown token is an error. *)
Record supervisor := MkSupervisor { running : gset Z; nextToken : Z }.

Definition supervisor_Add (s : supervisor) : supervisor * Z :=
  (MkSupervisor ({[nextToken s]} ∪ running s) (nextToken s + 1), nextToken s).
Definition supervisor_Remove (s : supervisor) (tok : Z) : supervisor * option string :=
  if bool_decide (tok ∈ running s)
  then (MkSupervisor (running s ∖ {[tok]}) (nextToken s), None)
  else (s, Some "service not found"%string).

Section service_map.
Context {S : Type}.

Record serviceMap := MkServiceMap {
  services : gmap string S;
  tokens : gmap string Z;
  sv : supervisor;
}.

Definition newServiceMap : serviceMap := MkServiceMap ∅ ∅ (MkSupervisor ∅ 0).

Definition Add (m : serviceMap) (k : string) (v : S) : serviceMap :=
  let sup := match tokens m !! k with
             | Some tok => (supervisor_Remove (sv m) tok).1
             | None => sv m
             end in
  let '(sup, tok) := supervisor_Add sup in
  MkServiceMap (<[k := v]> (services m)) (<[k := tok]> (tokens m)) sup.

Definition Get (m : serviceMap) (k : string) : option S := services m !! k.

Definition Stop (m : serviceMap) (k : string) : serviceMap :=
  match tokens m !! k with
  | Some tok => MkServiceMap (services m) (tokens m) (supervisor_Remove (sv m) tok).1
  | None => m
  end.

(** With the error the returned channel produces. *)
Definition StopAndWait (m : serviceMap) (k : string) : serviceMap * option string :=
  match tokens m !! k with
  | Some tok =>
      let '(sup, err) := supervisor_Remove (sv m) tok in
      (MkServiceMap (services m) (tokens m) sup, err)
  | None => (m, Some "service not found"%string)
  end.

Definition Remove (m : serviceMap) (k : string) : serviceMap * bool :=
  let found := match tokens m !! k with
               | Some _ => true
               | None => match services m !! k with Some _ => true | None => false end
               end in
  let m := Stop m k in
  (MkServiceMap (delete k (services m)) (delete k (tokens m)) (sv m), found).

(** The token of the service is kept. *)
Definition RemoveAndWait (m : serviceMap) (k : string) : serviceMap * option string :=
  let '(m, err) := StopAndWait m k in
  (MkServiceMap (delete k (services m)) (tokens m) (sv m), err).

(** A change of the service behind the pointer in the map. *)
Definition change (m : serviceMap) (k : string) (f : S → S) : serviceMap :=
  MkServiceMap (alter f k (services m)) (tokens m) (sv m).

(** The services that run are those in the map, each under its own token. *)
Record service_map_ok (m : serviceMap) : Prop := {
  tokens_fresh k t : tokens m !! k = Some t → t < nextToken (sv m);
  running_fresh t : t ∈ running (sv m) → t < nextToken (sv m);
  services_running t : t ∈ running (sv m) ↔ ∃ k, is_Some (services m !! k) ∧ tokens m !! k = Some t;
  services_tokens k : is_Some (services m !! k) → is_Some (tokens m !! k);
  tokens_inj k k' t : tokens m !! k = Some t → tokens m !! k' = Some t → k = k';
}.

Lemma newServiceMap_ok : service_map_ok newServiceMap.
Proof.
  split; cbn.
  - intros k t. by rewrite lookup_empty.
  - set_solver.
  - intros t. split; [set_solver|]. intros (k & _ & Hk). by rewrite lookup_empty in Hk.
  - intros k [? Hk]. by rewrite lookup_empty in Hk.
  - intros k k' t Hk. by rewrite lookup_empty in Hk.
Qed.

Lemma RemoveAndWait_ok m k :
  service_map_ok m → service_map_ok (RemoveAndWait m k).1 ∧
  services (RemoveAndWait m k).1 = delete k (services m) ∧
  (is_Some (services m !! k) → (RemoveAndWait m k).2 = None).
Proof.
  intros [H1 H2 H3 H4 H5]. unfold RemoveAndWait, StopAndWait, supervisor_Remove.
  destruct (tokens m !! k) as [tok|] eqn:Et.
  - case_bool_decide as Hr; (split; [|split; [done|]]).
    + split; cbn; [done|set_solver| | |done].
      * intros t. rewrite elem_of_difference, elem_of_singleton, H3. split.
        -- intros [(k' & Hs & Ht) Hne]. exists k'. rewrite lookup_delete_ne; [done|]. naive_solver.
        -- intros (k' & Hs & Ht). destruct (decide (k = k')) as [->|Hk].
           { rewrite lookup_delete_eq in Hs. by destruct Hs. }
           rewrite lookup_delete_ne in Hs by done. split; [by exists k'|]. intros ->. by apply Hk, (H5 k k' tok).
      * intros k' Hs. destruct (decide (k = k')) as [->|Hk]; [by rewrite lookup_delete_eq in Hs; destruct Hs|].
        rewrite lookup_delete_ne in Hs by done. auto.
    + done.
    + assert (services m !! k = None) as Hk.
      { destruct (services m !! k) eqn:E; [|done]. exfalso. apply Hr, H3. exists k. by rewrite E. }
      rewrite delete_id by done. by split.
    + intros Hs. exfalso. apply Hr, H3. by exists k.
  - split; [|split; [done|]].
    + assert (services m !! k = None) as Hk.
      { destruct (services m !! k) eqn:E; [|done]. destruct (H4 k); [by rewrite E|congruence]. }
      cbn. rewrite delete_id by done. by split.
    + intros Hs. destruct (H4 k Hs). congruence.
Qed.

Lemma Add_ok m k v :
  service_map_ok m → service_map_ok (Add m k v) ∧ services (Add m k v) = <[k := v]> (services m).
Proof.
  intros [H1 H2 H3 H4 H5]. unfold Add. set (sup := match tokens m !! k with Some _ => _ | None => _ end).
  assert (nextToken sup = nextToken (sv m) ∧
    ∀ t, t ∈ running sup ↔ t ∈ running (sv m) ∧ tokens m !! k ≠ Some t) as [En Er].
  { unfold sup, supervisor_Remove. destruct (tokens m !! k) as [tok|]; [case_bool_decide|]; cbn;
      (split; [done|]); set_solver. }
  clearbody sup. unfold supervisor_Add. split; [|done]. split; cbn; rewrite En.
  - intros k' t. rewrite lookup_insert_Some. intros [[_ <-]|[_ Ht]]; [lia|]. apply H1 in Ht. lia.
  - intros t. rewrite elem_of_union, elem_of_singleton, Er. intros [->|[Ht _]]; [lia|]. apply H2 in Ht. lia.
  - intros t. rewrite elem_of_union, elem_of_singleton, Er. split.
    + intros [->|[Ht Hne]]; [exists k; by rewrite !lookup_insert_eq|].
      apply H3 in Ht as (k' & Hs & Ht). exists k'. rewrite !lookup_insert_ne by congruence. done.
    + intros (k' & Hs & Ht). rewrite lookup_insert_Some in Ht. destruct Ht as [[_ <-]|[Hk Ht]]; [by left|].
      right. rewrite lookup_insert_ne in Hs by done. split; [by apply H3; exists k'|].
      intros Ht'. by apply Hk, (H5 k k' t).
  - intros k'. rewrite !lookup_insert_is_Some. intros [->|[Hk Hs]]; [by left|]. right. auto.
  - intros k1 k2 t. rewrite !lookup_insert_Some. intros [[<- <-]|[Hk1 Ht1]] [[<- E]|[Hk2 Ht2]]; try done.
    + apply H1 in Ht2. lia.
    + apply H1 in Ht1. lia.
    + by apply (H5 k1 k2 t).
Qed.

Lemma Remove_ok m k :
  service_map_ok m → service_map_ok (Remove m k).1 ∧ services (Remove m k).1 = delete k (services m).
Proof.
  intros [H1 H2 H3 H4 H5]. unfold Remove. cbn [fst].
  assert (services (Stop m k) = services m ∧ tokens (Stop m k) = tokens m ∧
    nextToken (sv (Stop m k)) = nextToken (sv m) ∧
    ∀ t, t ∈ running (sv (Stop m k)) ↔ t ∈ running (sv m) ∧ tokens m !! k ≠ Some t) as (-> & -> & En & Er).
  { unfold Stop, supervisor_Remove. destruct (tokens m !! k) as [tok|]; [case_bool_decide|]; cbn;
      (split_and!; [done|done|done|]); set_solver. }
  split; [|done]. split; cbn; rewrite ?En.
  - intros k' t [_ Ht]%lookup_delete_Some. eauto.
  - intros t [Ht _]%Er. auto.
  - intros t. rewrite Er, H3. split.
    + intros [(k' & Hs & Ht) Hne]. exists k'. by rewrite !lookup_delete_ne by congruence.
    + intros (k' & Hs & [Hk Ht]%lookup_delete_Some). rewrite lookup_delete_ne in Hs by done.
      split; [by exists k'|]. intros Ht'. by apply Hk, (H5 k k' t).
  - intros k'. destruct (decide (k = k')) as [->|Hk]; [by rewrite lookup_delete_eq; intros []|].
    rewrite !lookup_delete_ne by done. auto.
  - intros k1 k2 t [_ Ht1]%lookup_delete_Some [_ Ht2]%lookup_delete_Some. eauto.
Qed.

Lemma change_ok m k f : service_map_ok m → service_map_ok (change m k f).
Proof.
  assert (∀ k', is_Some (alter f k (services m) !! k') ↔ is_Some (services m !! k')) as Ha.
  { intros k'. destruct (decide (k = k')) as [->|Hk];
      [rewrite lookup_alter_eq; apply fmap_is_Some|by rewrite lookup_alter_ne]. }
  intros [H1 H2 H3 H4 H5]. split; cbn; [done|done| |intros k' Hk%Ha; auto|done].
  intros t. rewrite H3. by setoid_rewrite Ha.
Qed.
End service_map.
Arguments serviceMap : clear implicits.

(** ** The registry *)

(** The part of [config.FolderConfiguration] in use, and a running folder, known by
    a number. *)
Record FolderCfg := MkFolderCfg {
  cfgID : string;
  cfgPaused : bool;
  cfgDevices : list (list Z);
  cfgReceiveEncrypted : bool;
}.
Definition SharedWith (cfg : FolderCfg) (device : list Z) : bool := bool_decide (device ∈ cfgDevices cfg).

Definition runner : Type := Z.

(** A handler with the state that [pause] and [resume] change. *)
Record handlerService := MkService {
  hsHandler : indexHandler;
  hsPaused : bool;
  hsRunner : option runner;
}.

Definition pause (h : handlerService) : handlerService := MkService (hsHandler h) true None.
Definition resume (r : runner) (h : handlerService) : handlerService :=
  MkService (hsHandler h) false (Some r).

Record registry := MkRegistry {
  indexHandlers : serviceMap handlerService;
  startInfos : gmap string clusterConfigDeviceInfo;
  folderStates : gmap string (FolderCfg * runner);
  sdb : string → folderDB;
}.

Section registry.
Context {E : Engine}.
(** The other device, and the index ID that a new folder draws. *)
Variable device : list Z.
Variable newID : Z.

Definition newRegistry (db : string → folderDB) : registry := MkRegistry newServiceMap ∅ ∅ db.

(** [startLocked]; the error is ignored by all callers.  The pull that is scheduled
    is not part of the state. *)
Definition startLocked (r : registry) (folder : FolderCfg) (run : runner)
    (info : clusterConfigDeviceInfo) : registry * bool :=
  let f := cfgID folder in
  let handlers := (RemoveAndWait (indexHandlers r) f).1 in
  let infos := delete f (startInfos r) in
  let '(db, res) := newIndexHandler (sdb r f) device (cfgReceiveEncrypted folder) newID info in
  match res with
  | Ok h =>
      (MkRegistry (Add handlers f (MkService h false (Some run))) infos (folderStates r) (<[f := db]> (sdb r)), true)
  | _ => (MkRegistry handlers infos (folderStates r) (<[f := db]> (sdb r)), false)
  end.

(** The operations, with the outcomes of the handlers they start. *)
Definition AddIndexInfo (r : registry) (folder : string) (info : clusterConfigDeviceInfo)
    : registry * list bool :=
  let r := MkRegistry (RemoveAndWait (indexHandlers r) folder).1 (startInfos r) (folderStates r) (sdb r) in
  match folderStates r !! folder with
  | None => (MkRegistry (indexHandlers r) (<[folder := info]> (startInfos r)) (folderStates r) (sdb r), [])
  | Some (cfg, run) => let '(r, ok) := startLocked r cfg run info in (r, [ok])
  end.

Definition RemoveFolder (r : registry) (folder : string) : registry :=
  MkRegistry (RemoveAndWait (indexHandlers r) folder).1 (delete folder (startInfos r))
    (folderStates r) (sdb r).

Definition RemoveAllExcept (r : registry) (except : gset string) : registry :=
  let gone := filter (λ f, f ∉ except) (map_to_list (services (indexHandlers r))).*1 in
  MkRegistry (fold_left (λ m f, (RemoveAndWait m f).1) gone (indexHandlers r))
    (filter (λ kv, kv.1 ∈ except) (startInfos r)) (folderStates r) (sdb r).

Definition folderPausedLocked (r : registry) (folder : string) : registry :=
  let states := delete folder (folderStates r) in
  match Get (indexHandlers r) folder with
  | Some _ => MkRegistry (change (indexHandlers r) folder pause) (startInfos r) states (sdb r)
  | None => MkRegistry (indexHandlers r) (startInfos r) states (sdb r)
  end.

Definition folderRunningLocked (r : registry) (folder : FolderCfg) (run : runner)
    : registry * list bool :=
  let f := cfgID folder in
  let r := MkRegistry (indexHandlers r) (startInfos r) (<[f := (folder, run)]> (folderStates r)) (sdb r) in
  let cur := Get (indexHandlers r) f in
  match startInfos r !! f with
  | Some info =>
      let r := match cur with
               | Some _ => MkRegistry (RemoveAndWait (indexHandlers r) f).1 (startInfos r) (folderStates r) (sdb r)
               | None => r
               end in
      let '(r, ok) := startLocked r folder run info in
      (MkRegistry (indexHandlers r) (delete f (startInfos r)) (folderStates r) (sdb r), [ok])
  | None =>
      match cur with
      | Some _ =>
          (MkRegistry (change (indexHandlers r) f (resume run)) (startInfos r) (folderStates r) (sdb r), [])
      | None => (r, [])
      end
  end.

Definition RegisterFolderState (r : registry) (folder : FolderCfg) (run : runner)
    : registry * list bool :=
  if negb (SharedWith folder device) then (RemoveFolder r (cfgID folder), [])
  else if cfgPaused folder then (folderPausedLocked r (cfgID folder), [])
  else folderRunningLocked r folder run.

(** [ReceiveIndex], up to the handler. *)
Definition ReceiveIndex (r : registry) (folder : string) : go handlerService :=
  match Get (indexHandlers r) folder with
  | None => Err (folder +:+ ": no such folder")
  | Some h => Ok h
  end.

(** ** The specification

    A folder is announced by the other device and runs here, or not. *)
Inductive regEvent :=
  | EvAddIndexInfo (folder : string) (info : clusterConfigDeviceInfo)
  | EvRemove (folder : string)
  | EvRemoveAllExcept (except : gset string)
  | EvRegister (folder : FolderCfg) (run : runner).

Definition reg_step (r : registry) (e : regEvent) : registry * list bool :=
  match e with
  | EvAddIndexInfo f info => AddIndexInfo r f info
  | EvRemove f => (RemoveFolder r f, [])
  | EvRemoveAllExcept except => (RemoveAllExcept r except, [])
  | EvRegister cfg run => RegisterFolderState r cfg run
  end.

Fixpoint reg_run (r : registry) (es : list regEvent) : registry * list bool :=
  match es with
  | [] => (r, [])
  | e :: es =>
      let '(r, starts) := reg_step r e in
      let '(r, starts') := reg_run r es in
      (r, starts ++ starts')
  end.

Record link := MkLink { announced : bool; runs : bool }.

Definition link_step (f : string) (l : link) (e : regEvent) : link :=
  match e with
  | EvAddIndexInfo g _ => if bool_decide (g = f) then MkLink true (runs l) else l
  | EvRemove g => if bool_decide (g = f) then MkLink false (runs l) else l
  | EvRemoveAllExcept except => if bool_decide (f ∈ except) then l else MkLink false (runs l)
  | EvRegister cfg _ =>
      if negb (bool_decide (cfgID cfg = f)) then l
      else if negb (SharedWith cfg device) then MkLink false (runs l)
      else MkLink (announced l) (negb (cfgPaused cfg))
  end.

(** What the registry knows of a folder. *)
Definition handler_of (r : registry) (f : string) : option handlerService := Get (indexHandlers r) f.
Definition pending (r : registry) (f : string) : bool := bool_decide (is_Some (startInfos r !! f)).

(** The handler of an announced folder exists and is paused while the folder does not
    run; before its first run there is the start information instead. *)
Record folder_ok (r : registry) (f : string) (l : link) : Prop := {
  states_run : is_Some (folderStates r !! f) ↔ runs l = true;
  handler_link h : handler_of r f = Some h → announced l = true ∧ hsPaused h = negb (runs l);
  pending_link : pending r f = true → announced l = true ∧ runs l = false ∧ handler_of r f = None;
}.

(** Nothing announced is lost. *)
Definition kept (r : registry) (f : string) (l : link) : Prop :=
  announced l = true → is_Some (handler_of r f) ∨ pending r f = true.

(** What an operation leaves alone, seen from one folder. *)
Definition same_folder (r r' : registry) (f : string) : Prop :=
  handler_of r' f = handler_of r f ∧ startInfos r' !! f = startInfos r !! f ∧
  folderStates r' !! f = folderStates r !! f.

Lemma same_folder_ok r r' f l :
  same_folder r r' f → folder_ok r f l → kept r f l → folder_ok r' f l ∧ kept r' f l.
Proof.
  intros (E1 & E2 & E3) [H1 H2 H3] Hk. unfold pending in *. split.
  - split; unfold pending; rewrite ?E1, ?E2, ?E3; auto.
  - unfold kept, pending. by rewrite E1, E2.
Qed.

(** The handlers are those of the supervisor, and states are kept under the name of
    their folder. *)
Definition maps_ok (r : registry) : Prop :=
  service_map_ok (indexHandlers r) ∧
  ∀ f cfg run, folderStates r !! f = Some (cfg, run) → cfgID cfg = f.

(** Starting a handler. *)
Lemma startLocked_spec r cfg run info :
  maps_ok r →
  let f := cfgID cfg in
  let '(r', ok) := startLocked r cfg run info in
  maps_ok r' ∧ (∀ g, g ≠ f → same_folder r r' g) ∧ folderStates r' = folderStates r ∧
  startInfos r' !! f = None ∧
  if ok then ∃ h, handler_of r' f = Some (MkService h false (Some run)) else handler_of r' f = None.
Proof.
  intros [Hm Hid] f. destruct (RemoveAndWait_ok (indexHandlers r) f Hm) as (Hm' & Es & _).
  unfold startLocked. fold f. destruct (newIndexHandler _ _ _ _ _) as [db res].
  destruct res as [h|e|p]; unfold maps_ok, same_folder, handler_of, Get; cbn [indexHandlers startInfos folderStates].
  1: destruct (Add_ok _ f (MkService h false (Some run)) Hm') as [Ha Eas]; rewrite Eas; split_and!;
    [done|done| |done|apply lookup_delete_eq|exists h; apply lookup_insert_eq];
    intros g Hne; rewrite lookup_insert_ne, Es, !lookup_delete_ne by done; auto.
  all: split_and!; [done|done| |done|apply lookup_delete_eq|rewrite Es; apply lookup_delete_eq];
    intros g Hne; rewrite Es, !lookup_delete_ne by done; auto.
Qed.

(** A folder that was started. *)
Lemma started_ok r f l (ok : bool) run :
  is_Some (folderStates r !! f) → runs l = true → announced l = true → startInfos r !! f = None →
  (if ok then ∃ h, handler_of r f = Some (MkService h false (Some run)) else handler_of r f = None) →
  folder_ok r f l ∧ (ok = true → kept r f l).
Proof.
  intros Hst Hrun Hann Hinf Hh. split.
  - split.
    + by rewrite Hrun.
    + intros h. destruct ok; [destruct Hh as [h0 Hh]|]; rewrite Hh; [|done].
      intros [= <-]. by rewrite Hann, Hrun.
    + unfold pending. by rewrite Hinf.
  - intros -> _. destruct Hh as [h0 ->]. left. by eexists.
Qed.

Definition all_started (starts : list bool) : Prop := Forall (λ ok, ok = true) starts.

Lemma all_started_one ok : all_started [ok] → ok = true.
Proof. by inversion 1. Qed.

Lemma AddIndexInfo_ok r f info :
  maps_ok r →
  let '(r', starts) := AddIndexInfo r f info in
  maps_ok r' ∧ (∀ g, g ≠ f → same_folder r r' g) ∧
  ∀ l, folder_ok r f l → folder_ok r' f (MkLink true (runs l)) ∧
    (all_started starts → kept r' f (MkLink true (runs l))).
Proof.
  intros [Hm Hid]. destruct (RemoveAndWait_ok (indexHandlers r) f Hm) as (Hm1 & Es & _). unfold AddIndexInfo.
  cbn [folderStates indexHandlers startInfos sdb].
  set (r1 := MkRegistry (RemoveAndWait (indexHandlers r) f).1 (startInfos r) (folderStates r) (sdb r)).
  assert (∀ g, g ≠ f → same_folder r r1 g) as Hr1.
  { intros g Hg. unfold same_folder, handler_of, Get, r1. cbn. rewrite Es. by rewrite lookup_delete_ne by done. }
  destruct (folderStates r !! f) as [[cfg run]|] eqn:Ef.
  - pose proof (startLocked_spec r1 cfg run info (conj Hm1 Hid)) as Hs. rewrite (Hid f cfg run Ef) in Hs.
    cbn zeta in Hs. destruct (startLocked r1 cfg run info) as [r' ok].
    destruct Hs as (Hm' & Hsame & Est & Einf & Hh). split; [exact Hm'|split].
    + intros g Hg. destruct (Hsame g Hg) as (E1 & E2 & E3), (Hr1 g Hg) as (E1' & E2' & E3').
      unfold same_folder. by rewrite E1, E2, E3.
    + intros l [H1 H2 H3]. assert (runs l = true) as Hrun by (apply H1; by rewrite Ef).
      destruct (started_ok r' f (MkLink true (runs l)) ok run) as [Hf Hk]; try done.
      { rewrite Est. cbn. by rewrite Ef. }
      split; [done|]. intros Hok. by apply Hk, all_started_one.
  - split; [by split|split].
    + intros g Hg. destruct (Hr1 g Hg) as (E1 & E2 & E3). unfold same_folder. cbn.
      rewrite lookup_insert_ne by done. by split_and!.
    + intros l [H1 H2 H3]. assert (runs l = false) as Hrun.
      { destruct (runs l); [|done]. destruct (proj2 H1 eq_refl). congruence. }
      assert (∀ m : serviceMap handlerService, services m = delete f (services (indexHandlers r)) → Get m f = None) as Hnone.
      { intros m Em. unfold Get. rewrite Em. apply lookup_delete_eq. }
      unfold kept, pending, handler_of. rewrite Hrun. split; [split|]; unfold handler_of, pending;
        cbn [indexHandlers startInfos folderStates announced runs].
      * rewrite Ef. split; [by intros []|done].
      * intros h. by rewrite Hnone.
      * by rewrite Hnone.
      * intros _ _. right. apply bool_decide_eq_true_2. rewrite lookup_insert_eq. by eexists.
Qed.

Lemma RemoveFolder_ok r f :
  maps_ok r →
  maps_ok (RemoveFolder r f) ∧ (∀ g, g ≠ f → same_folder r (RemoveFolder r f) g) ∧
  ∀ l, folder_ok r f l → folder_ok (RemoveFolder r f) f (MkLink false (runs l)).
Proof.
  intros [Hm Hid]. destruct (RemoveAndWait_ok (indexHandlers r) f Hm) as (Hm1 & Es & _). split; [by split|split].
  - intros g Hg. unfold same_folder, handler_of, Get. cbn. rewrite Es. by rewrite !lookup_delete_ne by done.
  - intros l [H1 H2 H3]. split; unfold handler_of, Get, pending; cbn.
    + done.
    + intros h. by rewrite Es, lookup_delete_eq.
    + by rewrite lookup_delete_eq.
Qed.

Lemma remove_all_ok gone : ∀ m : serviceMap handlerService,
  service_map_ok m →
  service_map_ok (fold_left (λ m f, (RemoveAndWait m f).1) gone m) ∧
  ∀ f, services (fold_left (λ m f, (RemoveAndWait m f).1) gone m) !! f =
       if bool_decide (f ∈ gone) then None else services m !! f.
Proof.
  induction gone as [|g gone IH]; intros m Hm; cbn [fold_left]; [by split|].
  destruct (RemoveAndWait_ok m g Hm) as (Hm1 & Es & _). destruct (IH _ Hm1) as [H1 H2]. split; [done|].
  intros f. rewrite H2, Es. destruct (decide (f = g)) as [->|Hne].
  - rewrite lookup_delete_eq, (bool_decide_eq_true_2 (g ∈ g :: gone)) by left. by case_bool_decide.
  - rewrite lookup_delete_ne by done. by rewrite (bool_decide_ext (f ∈ gone) (f ∈ g :: gone)) by set_solver.
Qed.

Lemma RemoveAllExcept_ok r except :
  maps_ok r →
  maps_ok (RemoveAllExcept r except) ∧
  (∀ g, g ∈ except → same_folder r (RemoveAllExcept r except) g) ∧
  ∀ f l, (f ∉ except) → folder_ok r f l → folder_ok (RemoveAllExcept r except) f (MkLink false (runs l)).
Proof.
  intros [Hm Hid]. unfold RemoveAllExcept.
  set (gone := filter (λ f, f ∉ except) (map_to_list (services (indexHandlers r))).*1).
  destruct (remove_all_ok gone _ Hm) as [Hm1 Es].
  assert (∀ f, f ∈ gone ↔ (f ∉ except) ∧ is_Some (services (indexHandlers r) !! f)) as Hgone.
  { intros f. unfold gone. rewrite list_elem_of_filter, list_elem_of_fmap. f_equiv. split.
    - intros ([f' h] & -> & Hin%elem_of_map_to_list). by eexists.
    - intros [h Hh]. exists (f, h). by rewrite elem_of_map_to_list. }
  split; [by split|split].
  - intros g Hg. unfold same_folder, handler_of, Get. cbn. rewrite Es, bool_decide_eq_false_2 by naive_solver.
    split_and!; [done| |done]. destruct (startInfos r !! g) as [i|] eqn:Ei.
    + apply map_lookup_filter_Some. done.
    + apply map_lookup_filter_None. by left.
  - intros f l Hf [H1 H2 H3].
    assert (services (fold_left (λ m f, (RemoveAndWait m f).1) gone (indexHandlers r)) !! f = None) as Hn.
    { rewrite Es. case_bool_decide as Hb; [done|]. apply eq_None_not_Some. naive_solver. }
    split; unfold handler_of, Get, pending; cbn; rewrite ?Hn; [done|done|].
    rewrite bool_decide_eq_true. intros [i Hi%map_lookup_filter_Some]. naive_solver.
Qed.

Lemma folderPausedLocked_ok r f :
  maps_ok r →
  let r' := folderPausedLocked r f in
  maps_ok r' ∧ (∀ g, g ≠ f → same_folder r r' g) ∧
  ∀ l, folder_ok r f l → folder_ok r' f (MkLink (announced l) false) ∧
    (kept r f l → kept r' f (MkLink (announced l) false)).
Proof.
  intros [Hm Hid]. cbn zeta. unfold folderPausedLocked.
  assert (∀ g cfg run, delete f (folderStates r) !! g = Some (cfg, run) → cfgID cfg = g) as Hid'.
  { intros g cfg run [_ Hg]%lookup_delete_Some. eauto. }
  destruct (Get (indexHandlers r) f) as [h|] eqn:Eh.
  - split; [split; [by apply change_ok|done]|split].
    + intros g Hg. unfold same_folder, handler_of, Get. cbn. by rewrite lookup_alter_ne, lookup_delete_ne by done.
    + intros l [H1 H2 H3]. destruct (H2 h Eh) as [Hann Hp]. unfold Get in Eh.
      split; [split|]; unfold kept, handler_of, Get, pending; cbn; rewrite ?lookup_alter_eq, ?lookup_delete_eq, ?Eh; cbn.
      * split; [by intros []|done].
      * by intros ? [= <-].
      * intros Hpd. destruct (H3 Hpd) as (_ & _ & Hn). unfold handler_of, Get in Hn. congruence.
      * intros _ _. left. by eexists.
  - split; [by split|split].
    + intros g Hg. unfold same_folder, handler_of, Get. cbn. by rewrite lookup_delete_ne by done.
    + intros l [H1 H2 H3]. unfold kept, handler_of, pending in *.
      split; [split|]; unfold handler_of, pending; cbn; rewrite ?lookup_delete_eq, ?Eh.
      * split; [by intros []|done].
      * done.
      * intros Hpd. by destruct (H3 Hpd) as (? & _).
      * done.
Qed.

Lemma folderRunningLocked_ok r cfg run :
  maps_ok r → pending r (cfgID cfg) = true ∧ handler_of r (cfgID cfg) = None ∨ pending r (cfgID cfg) = false →
  let f := cfgID cfg in
  let '(r', starts) := folderRunningLocked r cfg run in
  maps_ok r' ∧ (∀ g, g ≠ f → same_folder r r' g) ∧
  ∀ l, folder_ok r f l → folder_ok r' f (MkLink (announced l) true) ∧
    (all_started starts → kept r f l → kept r' f (MkLink (announced l) true)).
Proof.
  intros [Hm Hid] Hcase f. unfold folderRunningLocked. fold f.
  set (r1 := MkRegistry (indexHandlers r) (startInfos r) (<[f := (cfg, run)]> (folderStates r)) (sdb r)).
  assert (maps_ok r1) as Hm1.
  { split; [done|]. intros g cfg' run'. cbn. rewrite lookup_insert_Some. intros [[<- [= <- <-]]|[_ Hg]]; [done|eauto]. }
  assert (∀ g, g ≠ f → same_folder r r1 g) as Hr1.
  { intros g Hg. unfold same_folder. cbn. by rewrite lookup_insert_ne by done. }
  change (startInfos r1 !! f) with (startInfos r !! f).
  destruct (startInfos r !! f) as [info|] eqn:Ei.
  - destruct Hcase as [[_ Hn]|Hn]; [|unfold pending in Hn; fold f in Hn; by rewrite Ei in Hn].
    unfold handler_of in Hn. fold f in Hn. change (Get (indexHandlers r1) f) with (Get (indexHandlers r) f). rewrite Hn.
    pose proof (startLocked_spec r1 cfg run info Hm1) as Hs. cbn zeta in Hs. fold f in Hs.
    destruct (startLocked r1 cfg run info) as [r' ok]. destruct Hs as (Hm' & Hsame & Est & Einf & Hh).
    split; [exact Hm'|split].
    + intros g Hg. destruct (Hsame g Hg) as (E1 & E2 & E3), (Hr1 g Hg) as (E1' & E2' & E3').
      unfold same_folder, handler_of in *. cbn. by rewrite lookup_delete_ne, E1, E2, E3 by done.
    + intros l [H1 H2 H3]. assert (announced l = true) as Hann.
      { apply H3. unfold pending. rewrite Ei. by apply bool_decide_eq_true_2. }
      set (r'' := MkRegistry _ _ _ _).
      destruct (started_ok r'' f (MkLink (announced l) true) ok run) as [Hf Hk]; try done.
      { unfold r''. cbn. rewrite Est. cbn. by rewrite lookup_insert_eq. }
      { unfold r''. cbn. apply lookup_delete_eq. }
      split; [done|]. intros Hok _. by apply Hk, all_started_one.
  - change (Get (indexHandlers r1) f) with (Get (indexHandlers r) f).
    destruct (Get (indexHandlers r) f) as [h|] eqn:Eh.
    + split; [split; [by apply change_ok|exact (proj2 Hm1)]|split].
      * intros g Hg. unfold same_folder, handler_of, Get. cbn. by rewrite lookup_alter_ne, lookup_insert_ne by done.
      * intros l [H1 H2 H3]. destruct (H2 h Eh) as [Hann Hp]. unfold Get in Eh.
        split; [split|]; unfold kept, handler_of, Get, pending; cbn; rewrite ?lookup_alter_eq, ?lookup_insert_eq, ?Eh, ?Ei; cbn.
        -- split; [done|by eexists].
        -- by intros ? [= <-].
        -- done.
        -- intros _ _ _. left. by eexists.
    + split; [exact Hm1|split; [done|]]. intros l [H1 H2 H3].
      split; [split|]; unfold kept, handler_of, pending; cbn; rewrite ?lookup_insert_eq, ?Eh, ?Ei; cbn.
      * split; [done|by eexists].
      * done.
      * done.
      * done.
Qed.

(** The registry agrees with the specification for every folder. *)
Definition reg_ok (r : registry) (links : string → link) (good : Prop) : Prop :=
  maps_ok r ∧ (∀ f, folder_ok r f (links f)) ∧ (good → ∀ f, kept r f (links f)).

(** An operation on one folder. *)
Lemma one_folder_ok r r' f links l (good good' : Prop) :
  reg_ok r links good → maps_ok r' → (∀ g, g ≠ f → same_folder r r' g) → folder_ok r' f l →
  (good' → good) → (good' → kept r f (links f) → kept r' f l) →
  reg_ok r' (λ g, if decide (g = f) then l else links g) good'.
Proof.
  intros (Hm & Hf & Hk) Hm' Hsame Hf' Hg Hk'. split; [done|split].
  - intros g. destruct (decide (g = f)) as [->|Hne]; [done|].
    destruct (Hsame g Hne) as (E1 & E2 & E3). destruct (Hf g) as [H1 H2 H3]. unfold pending in H3.
    split; unfold pending; rewrite ?E1, ?E2, ?E3; auto.
  - intros Hgood g. destruct (decide (g = f)) as [->|Hne]; [by apply Hk', Hk, Hg|].
    destruct (Hsame g Hne) as (E1 & E2 & E3). pose proof (Hk (Hg Hgood) g) as H. unfold kept, pending in *.
    by rewrite E1, E2.
Qed.

Lemma reg_ok_ext r links links' (good : Prop) :
  (∀ f, links f = links' f) → reg_ok r links good → reg_ok r links' good.
Proof.
  intros Hlinks (Hm & Hf & Hk). split; [done|split].
  - intros f. rewrite <- Hlinks. apply Hf.
  - intros Hg f. rewrite <- Hlinks. by apply Hk.
Qed.

Lemma reg_step_ok r links good e :
  reg_ok r links good →
  let '(r', starts) := reg_step r e in
  reg_ok r' (λ f, link_step f (links f) e) (good ∧ all_started starts).
Proof.
  intros Hok. pose proof Hok as (Hm & Hf & Hk). destruct e as [f info|f|except|cfg run]; cbn [reg_step].
  - pose proof (AddIndexInfo_ok r f info Hm) as Ha. destruct (AddIndexInfo r f info) as [r' starts].
    destruct Ha as (Hm' & Hsame & Hl). destruct (Hl (links f) (Hf f)) as [Hf' Hk'].
    eapply reg_ok_ext; [|apply (one_folder_ok r r' f links _ good _ Hok Hm' Hsame Hf'); naive_solver].
    intros g. cbn. by destruct (decide (g = f)) as [->|]; case_bool_decide.
  - destruct (RemoveFolder_ok r f Hm) as (Hm' & Hsame & Hl).
    eapply reg_ok_ext; [|apply (one_folder_ok r _ f links _ good _ Hok Hm' Hsame (Hl _ (Hf f))); [naive_solver|done]].
    intros g. cbn. by destruct (decide (g = f)) as [->|]; case_bool_decide.
  - destruct (RemoveAllExcept_ok r except Hm) as (Hm' & Hsame & Hl). split; [done|split].
    + intros f. cbn. case_bool_decide as Hin; [|by apply Hl].
      destruct (Hsame f Hin) as (E1 & E2 & E3). destruct (Hf f) as [H1 H2 H3]. unfold pending in H3.
      split; unfold pending; rewrite ?E1, ?E2, ?E3; auto.
    + intros [Hg _] f. cbn. case_bool_decide as Hin; [|done].
      destruct (Hsame f Hin) as (E1 & E2 & E3). pose proof (Hk Hg f) as H. unfold kept, pending in *.
      by rewrite E1, E2.
  - unfold RegisterFolderState. destruct (SharedWith cfg device) eqn:Es; cbn [negb].
    2: { destruct (RemoveFolder_ok r (cfgID cfg) Hm) as (Hm' & Hsame & Hl).
         eapply reg_ok_ext; [|apply (one_folder_ok r _ (cfgID cfg) links _ good _ Hok Hm' Hsame (Hl _ (Hf _))); [naive_solver|done]].
         intros g. cbn. rewrite Es. by destruct (decide (g = cfgID cfg)) as [->|]; case_bool_decide. }
    destruct (cfgPaused cfg) eqn:Ep.
    + destruct (folderPausedLocked_ok r (cfgID cfg) Hm) as (Hm' & Hsame & Hl).
      destruct (Hl _ (Hf (cfgID cfg))) as [Hf' Hk'].
      eapply reg_ok_ext; [|apply (one_folder_ok r _ (cfgID cfg) links _ good _ Hok Hm' Hsame Hf'); naive_solver].
      intros g. cbn. rewrite Es, Ep. by destruct (decide (g = cfgID cfg)) as [->|]; case_bool_decide.
    + assert (pending r (cfgID cfg) = true ∧ handler_of r (cfgID cfg) = None ∨ pending r (cfgID cfg) = false) as Hcase.
      { destruct (pending r (cfgID cfg)) eqn:Epd; [|by right]. left. split; [done|].
        by destruct (pending_link _ _ _ (Hf (cfgID cfg)) Epd) as (_ & _ & ?). }
      pose proof (folderRunningLocked_ok r cfg run Hm Hcase) as Hr. cbn zeta in Hr.
      destruct (folderRunningLocked r cfg run) as [r' starts]. destruct Hr as (Hm' & Hsame & Hl).
      destruct (Hl _ (Hf (cfgID cfg))) as [Hf' Hk'].
      eapply reg_ok_ext; [|apply (one_folder_ok r r' (cfgID cfg) links _ good _ Hok Hm' Hsame Hf'); naive_solver].
      intros g. cbn. rewrite Es, Ep. by destruct (decide (g = cfgID cfg)) as [->|]; case_bool_decide.
Qed.

Lemma all_started_app s s' : all_started (s ++ s') → all_started s ∧ all_started s'.
Proof. apply Forall_app. Qed.

Lemma reg_run_ok es : ∀ r links (good : Prop),
  reg_ok r links good →
  let '(r', starts) := reg_run r es in
  reg_ok r' (λ f, fold_left (link_step f) es (links f)) (good ∧ all_started starts).
Proof.
  induction es as [|e es IH]; intros r links good Hok; cbn [reg_run fold_left].
  { destruct Hok as (? & ? & ?). split; [done|split; [done|naive_solver]]. }
  pose proof (reg_step_ok r links good e Hok) as Hs. destruct (reg_step r e) as [r1 starts].
  pose proof (IH r1 _ _ Hs) as Hr. destruct (reg_run r1 es) as [r2 starts2].
  destruct Hr as (H1 & H2 & H3). split; [done|split; [done|]]. intros [Hg Ha]. apply H3.
  by apply all_started_app in Ha as [? ?].
Qed.

Definition no_link : link := MkLink false false.

Lemma newRegistry_ok db : reg_ok (newRegistry db) (λ _, no_link) True.
Proof.
  split; [split; [apply newServiceMap_ok|]|split].
  - intros f cfg run. cbn. by rewrite lookup_empty.
  - intros f. split; unfold handler_of, Get, pending; cbn; rewrite ?lookup_empty.
    + split; [by intros []|done].
    + done.
    + by rewrite bool_decide_eq_true; intros [].
  - by intros _ f.
Qed.

(** C22.  Whatever the other device announces and whatever happens to the folders here, in
    any order: exactly the handlers in the map run; a handler exists only for a
    folder that is announced, and is paused exactly while the folder does not run
    here; start information waits only for an announced folder that does not run
    and has no handler; and unless a handler failed to start, every announced folder
    that runs here is served by an active handler. *)
Theorem registry_refines db es :
  let '(r, starts) := reg_run (newRegistry db) es in
  service_map_ok (indexHandlers r) ∧
  ∀ f, let l := fold_left (link_step f) es no_link in
    (∀ h, handler_of r f = Some h → announced l = true ∧ hsPaused h = negb (runs l)) ∧
    (pending r f = true → announced l = true ∧ runs l = false ∧ handler_of r f = None) ∧
    (all_started starts → announced l = true → runs l = true →
     ∃ h, handler_of r f = Some h ∧ hsPaused h = false).
Proof.
  pose proof (reg_run_ok es _ _ _ (newRegistry_ok db)) as Hr.
  destruct (reg_run (newRegistry db) es) as [r starts]. destruct Hr as ([Hm _] & Hf & Hk).
  split; [done|]. intros f. cbn zeta in *. destruct (Hf f) as [H1 H2 H3]. split; [done|split; [done|]].
  intros Hgood Hann Hrun. destruct (Hk (conj I Hgood) f Hann) as [[h Hh]|Hp].
  - exists h. split; [done|]. destruct (H2 h Hh) as [_ ->]. by rewrite Hrun.
  - destruct (H3 Hp) as (_ & Hr & _). congruence.
Qed.
End registry.
