(* ===== verification/FolderConfig.v ===== *)
(** * The configuration of a folder and of a device
      ([src/lib/config/folderconfiguration.go], [deviceconfiguration.go],
      [size.go] and the helpers of [config.go])

    Every change of the configuration passes through [prepare]: device lists are
    freed from duplicates and unknown devices and sorted, the local device is
    added, devices that are not trusted lose folders shared in the open, and
    numbers are brought into range.  The file translates both [prepare] methods
    with their in-place loops and proves what they establish. *)
From stdpp Require Import functions.
From S2P Require Import Prelude GoLib Vector Base32 DeviceID Paths.
From Stdlib Require String.
From Stdlib Require Import Floats.SpecFloat.

Local Open Scope Z_scope.

(** ** Numbers ([float64]) *)

Definition f64_zero : spec_float := S754_zero false.
Definition f64_of_Z (z : Z) : spec_float := binary_normalize 53 1024 z 0 false.
Definition f64_mul : spec_float → spec_float → spec_float := SFmul 53 1024.
Definition f64_div : spec_float → spec_float → spec_float := SFdiv 53 1024.
(** The constant [0.01], rounded to the nearest. *)
Definition f64_hundredth : spec_float := S754_finite false 5764607523034235 (-59).

(** ** Data *)

Record Size := MkSize { szValue : spec_float; szUnit : string }.

Record VersioningConfiguration := MkVersioningConfiguration {
  vcType : string;
  vcParams : gmap string string;
  vcCleanupIntervalS : Z;
  vcFSPath : string;
  vcFSType : string;
}.
#[export] Instance eta_VersioningConfiguration : Eta VersioningConfiguration := λ r,
  MkVersioningConfiguration (vcType r) (vcParams r) (vcCleanupIntervalS r) (vcFSPath r) (vcFSType r).

Record XattrFilterEntry := MkXattrFilterEntry { xeMatch : string; xePermit : bool }.
Record XattrFilter := MkXattrFilter {
  xfEntries : list XattrFilterEntry;
  xfMaxSingleEntrySize : Z;
  xfMaxTotalSize : Z;
}.

Record FolderDeviceConfiguration := MkFolderDeviceConfiguration {
  fdDeviceID : list Z;
  fdIntroducedBy : list Z;
  fdEncryptionPassword : string;
}.
#[export] Instance eta_FolderDeviceConfiguration : Eta FolderDeviceConfiguration := λ r,
  MkFolderDeviceConfiguration (fdDeviceID r) (fdIntroducedBy r) (fdEncryptionPassword r).

Record FolderConfiguration := MkFolderConfiguration {
  fcID : string;
  fcLabel : string;
  fcFilesystemType : string;
  fcPath : string;
  fcType : Z;
  fcDevices : list FolderDeviceConfiguration;
  fcGroup : string;
  fcRescanIntervalS : Z;
  fcFSWatcherEnabled : bool;
  fcFSWatcherDelayS : spec_float;
  fcFSWatcherTimeoutS : spec_float;
  fcIgnorePerms : bool;
  fcAutoNormalize : bool;
  fcMinDiskFree : Size;
  fcVersioning : VersioningConfiguration;
  fcCopiers : Z;
  fcPullerMaxPendingKiB : Z;
  fcHashers : Z;
  fcOrder : Z;
  fcIgnoreDelete : bool;
  fcScanProgressIntervalS : Z;
  fcPullerPauseS : Z;
  fcPullerDelayS : spec_float;
  fcMaxConflicts : Z;
  fcDisableSparseFiles : bool;
  fcPaused : bool;
  fcMarkerName : string;
  fcCopyOwnershipFromParent : bool;
  fcRawModTimeWindowS : Z;
  fcMaxConcurrentWrites : Z;
  fcDisableFsync : bool;
  fcBlockPullOrder : Z;
  fcCopyRangeMethod : Z;
  fcCaseSensitiveFS : bool;
  fcJunctionsAsDirs : bool;
  fcSyncOwnership : bool;
  fcSendOwnership : bool;
  fcSyncXattrs : bool;
  fcSendXattrs : bool;
  fcBlockIndexing : bool;
  fcXattrFilter : XattrFilter;
  fcDeprecatedReadOnly : bool;
  fcDeprecatedMinDiskFreePct : spec_float;
  fcDeprecatedPullers : Z;
  fcDeprecatedScanOwnership : bool;
}.
#[export] Instance eta_FolderConfiguration : Eta FolderConfiguration := λ r,
  MkFolderConfiguration (fcID r) (fcLabel r) (fcFilesystemType r) (fcPath r) (fcType r)
    (fcDevices r) (fcGroup r) (fcRescanIntervalS r) (fcFSWatcherEnabled r) (fcFSWatcherDelayS r)
    (fcFSWatcherTimeoutS r) (fcIgnorePerms r) (fcAutoNormalize r) (fcMinDiskFree r)
    (fcVersioning r) (fcCopiers r) (fcPullerMaxPendingKiB r) (fcHashers r) (fcOrder r)
    (fcIgnoreDelete r) (fcScanProgressIntervalS r) (fcPullerPauseS r) (fcPullerDelayS r)
    (fcMaxConflicts r) (fcDisableSparseFiles r) (fcPaused r) (fcMarkerName r)
    (fcCopyOwnershipFromParent r) (fcRawModTimeWindowS r) (fcMaxConcurrentWrites r)
    (fcDisableFsync r) (fcBlockPullOrder r) (fcCopyRangeMethod r) (fcCaseSensitiveFS r)
    (fcJunctionsAsDirs r) (fcSyncOwnership r) (fcSendOwnership r) (fcSyncXattrs r)
    (fcSendXattrs r) (fcBlockIndexing r) (fcXattrFilter r) (fcDeprecatedReadOnly r)
    (fcDeprecatedMinDiskFreePct r) (fcDeprecatedPullers r) (fcDeprecatedScanOwnership r).

Record ObservedFolder := MkObservedFolder { ofTime : Z; ofID : string; ofLabel : string }.

Record DeviceConfiguration := MkDeviceConfiguration {
  dcDeviceID : list Z;
  dcName : string;
  dcAddresses : list string;
  dcCompression : Z;
  dcCertName : string;
  dcIntroducer : bool;
  dcSkipIntroductionRemovals : bool;
  dcIntroducedBy : list Z;
  dcPaused : bool;
  dcAllowedNetworks : list string;
  dcAutoAcceptFolders : bool;
  dcMaxSendKbps : Z;
  dcMaxRecvKbps : Z;
  dcIgnoredFolders : list ObservedFolder;
  dcDeprecatedPendingFolders : list ObservedFolder;
  dcMaxRequestKiB : Z;
  dcUntrusted : bool;
  dcRemoteGUIPort : Z;
  dcRawNumConnections : Z;
  dcGroup : string;
}.
#[export] Instance eta_DeviceConfiguration : Eta DeviceConfiguration := λ r,
  MkDeviceConfiguration (dcDeviceID r) (dcName r) (dcAddresses r) (dcCompression r)
    (dcCertName r) (dcIntroducer r) (dcSkipIntroductionRemovals r) (dcIntroducedBy r)
    (dcPaused r) (dcAllowedNetworks r) (dcAutoAcceptFolders r) (dcMaxSendKbps r)
    (dcMaxRecvKbps r) (dcIgnoredFolders r) (dcDeprecatedPendingFolders r) (dcMaxRequestKiB r)
    (dcUntrusted r) (dcRemoteGUIPort r) (dcRawNumConnections r) (dcGroup r).

(** *** Folder types ([foldertype.go]) *)
Definition FolderTypeSendReceive : Z := 0.
Definition FolderTypeSendOnly : Z := 1.
Definition FolderTypeReceiveOnly : Z := 2.
Definition FolderTypeReceiveEncrypted : Z := 3.

Definition FolderType_String (t : Z) : string :=
  if t =? FolderTypeSendReceive then "sendreceive"
  else if t =? FolderTypeSendOnly then "sendonly"
  else if t =? FolderTypeReceiveOnly then "receiveonly"
  else if t =? FolderTypeReceiveEncrypted then "receiveencrypted"
  else "unknown".

Definition FolderType_UnmarshalText (bs : string) : Z :=
  if bool_decide (bs = "readwrite" ∨ bs = "sendreceive") then FolderTypeSendReceive
  else if bool_decide (bs = "readonly" ∨ bs = "sendonly") then FolderTypeSendOnly
  else if bool_decide (bs = "receiveonly") then FolderTypeReceiveOnly
  else if bool_decide (bs = "receiveencrypted") then FolderTypeReceiveEncrypted
  else FolderTypeSendReceive.

Definition FilesystemTypeBasic : string := "basic".
Definition FilesystemType_UnmarshalText (bs : string) : string :=
  if bool_decide (bs = "") then FilesystemTypeBasic else bs.

Definition MaxRescanIntervalS : Z := 365 * 24 * 60 * 60.
Definition DefaultMarkerName : string := ".vidsync".
Definition LegacyMarkerName : string := ".stfolder".
Definition maxConcurrentWritesDefault : Z := 16.
Definition maxConcurrentWritesLimit : Z := 256.
Definition defaultNumConnections : Z := 3.

(** ** Lists of devices ([config.go])

    The three cleaning loops work in place: an entry to drop is overwritten with
    the last one that is left, which is looked at next.  [i] is the position, [n]
    the number of entries that are left to look at, so that [count] is [i + n]. *)
Section compact.
Context {A : Type} (id : A → list Z) (bad : gset (list Z) → list Z → bool).

Fixpoint compact_loop (devices : list A) (i n : nat) (seen : gset (list Z)) : list A :=
  match n with
  | O => take i devices
  | S n' =>
      match devices !! i, devices !! (i + n')%nat with
      | Some d, Some last =>
          if bad seen (id d)
          then compact_loop (<[i := last]> devices) i n' seen
          else compact_loop devices (S i) n' ({[id d]} ∪ seen)
      | _, _ => take i devices
      end
  end.
End compact.

Section prepare.
Context (existingDevices : gmap (list Z) DeviceConfiguration).

Definition absent (id : list Z) : bool := match existingDevices !! id with Some _ => false | None => true end.

Definition ensureExistingDevices (devices : list FolderDeviceConfiguration) :=
  compact_loop fdDeviceID (λ _ id, absent id) devices 0 (length devices) ∅.

Definition ensureNoDuplicateFolderDevices (devices : list FolderDeviceConfiguration) :=
  compact_loop fdDeviceID (λ seen id, bool_decide (id ∈ seen)) devices 0 (length devices) ∅.

Definition ensureNoDuplicateOrEmptyIDDevices (devices : list DeviceConfiguration) :=
  compact_loop dcDeviceID (λ seen id, bool_decide (id ∈ seen) || bool_decide (id = EmptyDeviceID))
    devices 0 (length devices) ∅.

Definition ensureDevicePresent (devices : list FolderDeviceConfiguration) (myID : list Z) :=
  if bool_decide (myID = EmptyDeviceID) then devices
  else if existsb (λ device, DeviceID_Equals (fdDeviceID device) myID) devices then devices
  else devices ++ [MkFolderDeviceConfiguration myID EmptyDeviceID ""].

(** A device that is not known would be a nil pointer. *)
Fixpoint ensureNoUntrustedTrustingSharing (f : FolderConfiguration) (devices : list FolderDeviceConfiguration)
    : go (list FolderDeviceConfiguration) :=
  match devices with
  | [] => Ok []
  | dev :: devices =>
      if bool_decide (fdEncryptionPassword dev ≠ "") || (fcType f =? FolderTypeReceiveEncrypted)
      then let! devices := ensureNoUntrustedTrustingSharing f devices in Ok (dev :: devices)
      else match existingDevices !! fdDeviceID dev with
           | None => Panic "invalid memory address or nil pointer dereference"
           | Some devCfg =>
               let! devices := ensureNoUntrustedTrustingSharing f devices in
               Ok (if dcUntrusted devCfg then devices else dev :: devices)
           end
  end.

(** ** [FolderConfiguration.prepare] *)

(** The numbers, names and flags ... (a conditional assignment is an assignment of
    the value the field has afterwards) *)
Definition prepare_limits (f : FolderConfiguration) : FolderConfiguration :=
  let f := f <| fcRescanIntervalS :=
             if fcRescanIntervalS f >? MaxRescanIntervalS then MaxRescanIntervalS
             else if fcRescanIntervalS f <? 0 then 0 else fcRescanIntervalS f |> in
  let delay := fcFSWatcherDelayS f in
  let f := f <| fcFSWatcherEnabled := if SFleb delay f64_zero then false else fcFSWatcherEnabled f |>
             <| fcFSWatcherDelayS :=
               if SFleb delay f64_zero then f64_of_Z 10
               else if SFltb delay f64_hundredth then f64_hundredth else delay |> in
  let v := fcVersioning f in
  let f := f <| fcVersioning := v <| vcCleanupIntervalS :=
               if vcCleanupIntervalS v >? MaxRescanIntervalS then MaxRescanIntervalS
               else if vcCleanupIntervalS v <? 0 then 0 else vcCleanupIntervalS v |> |> in
  let f := f <| fcMarkerName := if bool_decide (fcMarkerName f = "") then DefaultMarkerName else fcMarkerName f |> in
  let f := f <| fcMaxConcurrentWrites :=
             if fcMaxConcurrentWrites f <=? 0 then maxConcurrentWritesDefault
             else if fcMaxConcurrentWrites f >? maxConcurrentWritesLimit then maxConcurrentWritesLimit
             else fcMaxConcurrentWrites f |> in
  f <| fcIgnorePerms := if fcType f =? FolderTypeReceiveEncrypted then true else fcIgnorePerms f |>.

(** ... after the list of devices. *)
Definition FolderConfiguration_prepare (f : FolderConfiguration) (myID : list Z) : go FolderConfiguration :=
  let f := f <| fcDevices := ensureExistingDevices (fcDevices f) |> in
  let f := f <| fcDevices := ensureNoDuplicateFolderDevices (fcDevices f) |> in
  let f := f <| fcDevices := ensureDevicePresent (fcDevices f) myID |> in
  let! devices := ensureNoUntrustedTrustingSharing f (fcDevices f) in
  let f := f <| fcDevices := devices |> in
  let f := f <| fcDevices := sort_by (by_key fdDeviceID) (fcDevices f) |> in
  Ok (prepare_limits f).
End prepare.

(** ** [DeviceConfiguration.prepare] *)

Fixpoint deduplicate_loop (output : gmap string ObservedFolder) (input : list ObservedFolder)
    : gmap string ObservedFolder :=
  match input with
  | [] => output
  | folder :: input =>
      let take := match output !! ofID folder with
                  | None => true
                  | Some existing => ofTime existing <? ofTime folder
                  end in
      deduplicate_loop (if take then <[ofID folder := folder]> output else output) input
  end.
Definition deduplicateObservedFoldersToMap (input : list ObservedFolder) := deduplicate_loop ∅ input.

(** [order] is the order in which [range] visits the map; the sort is not stable,
    and every order it may leave equal times in is the stable sort of some order
    of the map. *)
Definition sortedObservedFolderSlice (order : list (string * ObservedFolder) → list (string * ObservedFolder))
    (input : gmap string ObservedFolder) : list ObservedFolder :=
  sort_by (λ a b, ofTime a <? ofTime b) (order (map_to_list input)).*2.

Section device.
Context (order : list (string * ObservedFolder) → list (string * ObservedFolder)).

Definition DeviceConfiguration_prepare (cfg : DeviceConfiguration) (sharedFolders : list string)
    : DeviceConfiguration :=
  let cfg := if bool_decide (dcAddresses cfg = [] ∨ dcAddresses cfg = [""])
             then cfg <| dcAddresses := ["dynamic"] |> else cfg in
  let ignoredFolders := deduplicateObservedFoldersToMap (dcIgnoredFolders cfg) in
  let ignoredFolders := fold_left (λ m f, delete f m) sharedFolders ignoredFolders in
  let cfg := cfg <| dcIgnoredFolders := sortedObservedFolderSlice order ignoredFolders |> in
  if dcUntrusted cfg then
    let cfg := if dcIntroducer cfg then cfg <| dcIntroducer := false |> else cfg in
    if dcAutoAcceptFolders cfg then cfg <| dcAutoAcceptFolders := false |> else cfg
  else cfg.
End device.

Definition NumConnections (cfg : DeviceConfiguration) : Z :=
  if dcRawNumConnections cfg =? 0 then defaultNumConnections
  else if dcRawNumConnections cfg <? 0 then 1
  else dcRawNumConnections cfg.

Definition DeviceConfiguration_IgnoredFolder (cfg : DeviceConfiguration) (folder : string) : bool :=
  existsb (λ f, bool_decide (ofID f = folder)) (dcIgnoredFolders cfg).

(** ** Queries of a folder *)

Definition FolderConfiguration_Device (f : FolderConfiguration) (device : list Z)
    : option FolderDeviceConfiguration :=
  find (λ dev, bool_decide (fdDeviceID dev = device)) (fcDevices f).
Definition SharedWith (f : FolderConfiguration) (device : list Z) : bool :=
  bool_decide (is_Some (FolderConfiguration_Device f device)).
Definition DeviceIDs (f : FolderConfiguration) : list (list Z) := fdDeviceID <$> fcDevices f.

Definition FolderConfiguration_Description (f : FolderConfiguration) (quote : string → string) : string :=
  if bool_decide (fcLabel f = "") then fcID f else quote (fcLabel f) +:+ " (" +:+ fcID f +:+ ")".

(** [path.Match] reports whether the pattern matches, or that it is malformed. *)
Fixpoint Permit_loop (Match : string → string → option bool) (entries : list XattrFilterEntry) (s : string) : bool :=
  match entries with
  | [] => false
  | entry :: entries =>
      if default false (Match (xeMatch entry) s) then xePermit entry else Permit_loop Match entries s
  end.
Definition Permit (Match : string → string → option bool) (f : XattrFilter) (s : string) : bool :=
  match xfEntries f with [] => true | entries => Permit_loop Match entries s end.

(** ** Free space ([size.go]) *)
Record Usage := MkUsage { usFree : Z; usTotal : Z }.

Definition BaseValue (s : Size) : spec_float :=
  let unitPrefix := String.substring 0 1 (szUnit s) in
  let mult :=
    if bool_decide (unitPrefix = "k" ∨ unitPrefix = "K") then 1000
    else if bool_decide (unitPrefix = "m" ∨ unitPrefix = "M") then 1000 * 1000
    else if bool_decide (unitPrefix = "g" ∨ unitPrefix = "G") then 1000 * 1000 * 1000
    else if bool_decide (unitPrefix = "t" ∨ unitPrefix = "T") then 1000 * 1000 * 1000 * 1000
    else 1 in
  f64_mul (szValue s) (f64_of_Z mult).
Definition Percentage (s : Size) : bool := Contains (szUnit s) "%".

(** [None] is [nil]; the numbers in the messages are left out. *)
Definition CheckFreeSpace (minFree : Size) (usage : Usage) : option string :=
  let val := BaseValue minFree in
  if SFleb val f64_zero then None
  else if Percentage minFree then
    let freePct := f64_mul (f64_div (f64_of_Z (usFree usage)) (f64_of_Z (usTotal usage))) (f64_of_Z 100) in
    if SFltb freePct val then Some "current % < required" else None
  else if SFltb (f64_of_Z (usFree usage)) val then Some "current B < required" else None.

Definition checkAvailableSpace (req : Z) (minFree : Size) (usage : Usage) : option string :=
  if usFree usage <? req then Some "current B < required B"
  else CheckFreeSpace minFree (MkUsage (u64 (usFree usage - req)) (usTotal usage)).

(** ** The marker of a folder *)
Inductive stat_result :=
  | StatInfo (IsDir IsSymlink : bool)
  | StatNotExist
  | StatError (e : string).

Definition ErrPathNotDirectory : string := "folder path not a directory".
Definition ErrPathMissing : string := "folder path missing".
Definition ErrMarkerMissing : string :=
  "folder marker missing (this indicates potential data loss, search docs/forum to get information about how to proceed)".

Definition checkFilesystemPath (Stat : path → stat_result) (f : FolderConfiguration) (p : path) : option string :=
  match Stat p with
  | StatError err => Some err
  | StatNotExist => Some ErrPathMissing
  | StatInfo IsDir IsSymlink =>
      if negb IsDir && negb IsSymlink then Some ErrPathNotDirectory
      else match Stat (Join [p; s2l (fcMarkerName f)]) with
           | StatInfo _ _ => None
           | StatError err => Some err
           | StatNotExist =>
               if bool_decide (fcMarkerName f = DefaultMarkerName) then
                 match Stat (Join [p; s2l LegacyMarkerName]) with
                 | StatInfo _ _ => None
                 | _ => Some ErrMarkerMissing
                 end
               else Some ErrMarkerMissing
           end
  end.

(** ** The cleaning loops

    What such a loop leaves: the entries are looked at in some order, those that
    are bad given the identifiers kept so far are dropped. *)
Section compacted.
Context {A : Type} (id : A → list Z) (bad : gset (list Z) → list Z → bool).

Inductive compacted : gset (list Z) → list A → list A → Prop :=
  | compacted_nil seen : compacted seen [] []
  | compacted_drop seen d todo todo' kept :
      bad seen (id d) = true → todo' ≡ₚ todo →
      compacted seen todo' kept → compacted seen (d :: todo) kept
  | compacted_keep seen d todo kept :
      bad seen (id d) = false →
      compacted ({[id d]} ∪ seen) todo kept → compacted seen (d :: todo) (d :: kept).

Lemma compact_loop_compacted pre todo post seen :
  ∃ kept, compact_loop id bad (pre ++ todo ++ post) (length pre) (length todo) seen = pre ++ kept ∧
    compacted seen todo kept.
Proof.
  remember (length todo) as n eqn:Hn. revert pre todo post seen Hn.
  induction n as [|n IH]; intros pre todo post seen Hn; cbn [compact_loop].
  { destruct todo; [|done]. exists []. rewrite take_app_length, app_nil_r. split; [done|constructor]. }
  destruct todo as [|d t]; [done|]. injection Hn as Hn.
  cbn [app]. rewrite list_lookup_middle by done.
  destruct t as [|z t _] using rev_ind.
  - cbn in Hn. subst n. cbn [app]. rewrite Nat.add_0_r, list_lookup_middle by done.
    destruct (bad seen (id d)) eqn:Hb; cbn [compact_loop].
    + exists []. rewrite take_insert_ge, take_app_length, app_nil_r by lia. split; [done|].
      eapply compacted_drop; [done..|constructor].
    + exists [d]. rewrite (cons_middle d pre), (assoc (++)), take_app_length'; [|rewrite length_app; cbn; lia].
      split; [done|]. apply compacted_keep; [done|constructor].
  - rewrite length_app in Hn. cbn in Hn.
    replace ((pre ++ d :: (t ++ [z]) ++ post) !! (length pre + n)%nat) with (Some z).
    2: { symmetry. rewrite lookup_app_r by lia. replace (length pre + n - length pre)%nat with (S (length t)) by lia.
         cbn. rewrite <-(assoc (++)). by apply list_lookup_middle. }
    destruct (bad seen (id d)) eqn:Hb.
    + rewrite insert_app_r_alt by lia. rewrite Nat.sub_diag. cbn [app insert list_insert].
      destruct (IH pre (z :: t) ([z] ++ post) seen ltac:(cbn; lia)) as (kept & E & Hk).
      exists kept. split.
      { rewrite <-E. f_equal. f_equal. cbn. by rewrite <-(assoc (++)). }
      eapply compacted_drop; [done| |exact Hk]. apply Permutation_cons_append.
    + destruct (IH (pre ++ [d]) (t ++ [z]) post ({[id d]} ∪ seen)) as (kept & E & Hk).
      { rewrite length_app. cbn. lia. }
      exists (d :: kept). rewrite length_app, Nat.add_1_r, <-!(assoc (++)) in E. cbn in E.
      split; [|by apply compacted_keep]. cbn. rewrite <-!(assoc (++)). exact E.
Qed.

Lemma compact_all devices :
  compacted ∅ devices (compact_loop id bad devices 0 (length devices) ∅).
Proof.
  destruct (compact_loop_compacted [] devices [] ∅) as (kept & E & Hk).
  cbn in E. rewrite app_nil_r in E. by rewrite E.
Qed.

Lemma compacted_incl seen todo kept d : compacted seen todo kept → d ∈ kept → d ∈ todo.
Proof.
  induction 1 as [|seen d' todo todo' kept Hb Hp Hk IH|seen d' todo kept Hb Hk IH]; [done| |].
  - intros Hd. apply list_elem_of_further. rewrite <-Hp. auto.
  - rewrite !elem_of_cons. tauto.
Qed.

(** Entries that are bad by themselves are dropped, the others are kept. *)
Lemma compacted_filter (p : list Z → bool) seen todo kept :
  (∀ s i, bad s i = p i) → compacted seen todo kept → kept ≡ₚ filter (λ d, p (id d) = false) todo.
Proof.
  intros Hp. induction 1 as [|seen d todo todo' kept Hb Hperm Hk IH|seen d todo kept Hb Hk IH]; [done| |].
  - rewrite filter_cons_False by (rewrite <-(Hp seen); congruence). by rewrite IH, Hperm.
  - rewrite filter_cons_True by (rewrite <-(Hp seen); congruence). by rewrite IH.
Qed.

(** Of several entries for one device a single one is kept. *)
Lemma compacted_unique (p : list Z → bool) seen todo kept :
  (∀ s i, bad s i = bool_decide (i ∈ s) || p i) → compacted seen todo kept →
  NoDup (id <$> kept) ∧
  (∀ i, i ∈ id <$> kept → (i ∉ seen) ∧ p i = false) ∧
  (∀ i, i ∈ id <$> todo → p i = false → i ∈ seen ∨ i ∈ id <$> kept).
Proof.
  intros Hp. induction 1 as [|seen d todo todo' kept Hb Hperm Hk IH|seen d todo kept Hb Hk IH].
  - split_and!; [constructor|set_solver..].
  - destruct IH as (IH1 & IH2 & IH3). split_and!; [done..|].
    rewrite Hp in Hb. intros i [->|Hi]%elem_of_cons Hpi.
    + rewrite Hpi, orb_false_r in Hb. zb. by left.
    + apply IH3; [|done]. by rewrite Hperm.
  - destruct IH as (IH1 & IH2 & IH3). rewrite Hp in Hb. zb. rewrite fmap_cons. split_and!.
    + constructor; [|done]. intros Hd. apply IH2 in Hd. set_solver.
    + intros i [->|Hi]%elem_of_cons; [done|]. apply IH2 in Hi. set_solver.
    + intros i [->|Hi]%elem_of_cons Hpi; [right; left|].
      destruct (IH3 i Hi Hpi) as [H'|H']; [|set_solver].
      apply elem_of_union in H' as [->%elem_of_singleton|H']; [right; left|by left].
Qed.
End compacted.

Lemma compacted_id {A} (id : A → list Z) bad seen todo kept :
  compacted id bad seen todo kept →
  (∀ s d, d ∈ todo → s ⊆ seen ∪ list_to_set (id <$> todo) → id d ∉ s → bad s (id d) = false) →
  NoDup (id <$> todo) → (∀ i, i ∈ id <$> todo → i ∉ seen) → kept = todo.
Proof.
  induction 1 as [|seen d todo todo' kept Hb Hperm Hk IH|seen d todo kept Hb Hk IH]; intros Hgood Hnd Hs; [done| |].
  - rewrite Hgood in Hb; [done|left|set_solver|apply Hs; left].
  - f_equal. rewrite fmap_cons in Hnd. apply NoDup_cons in Hnd as [Hd Hnd]. apply IH; [|done|].
    + intros s d' Hd' Hss. apply Hgood; [by right|]. rewrite fmap_cons. set_solver.
    + intros i Hi. apply not_elem_of_union. split; [|apply Hs; rewrite fmap_cons; by right].
      intros ->%elem_of_singleton. done.
Qed.

Section folder_prepare.
Context (existingDevices : gmap (list Z) DeviceConfiguration) (myID : list Z).

(** The device may hold the folder: it holds it encrypted, or is trusted. *)
Definition open_ok (f : FolderConfiguration) (dev : FolderDeviceConfiguration) : Prop :=
  fdEncryptionPassword dev ≠ "" ∨ fcType f = FolderTypeReceiveEncrypted ∨
  ∃ devCfg, existingDevices !! fdDeviceID dev = Some devCfg ∧ dcUntrusted devCfg = false.

Definition shared_ids (f : FolderConfiguration) : list (list Z) := fdDeviceID <$> fcDevices f.

Definition not_open (f : FolderConfiguration) (i : list Z) : Prop :=
  fcType f ≠ FolderTypeReceiveEncrypted ∧ ∃ c, existingDevices !! i = Some c ∧ dcUntrusted c = true.

Record folder_ok (f : FolderConfiguration) : Prop := MkFolderOk {
  fo_sorted : key_sorted fdDeviceID (fcDevices f);
  fo_known : ∀ dev, dev ∈ fcDevices f → is_Some (existingDevices !! fdDeviceID dev);
  fo_open : ∀ dev, dev ∈ fcDevices f → open_ok f dev;
  fo_me : myID ≠ EmptyDeviceID → myID ∈ shared_ids f ∨ not_open f myID;
  fo_rescan : 0 ≤ fcRescanIntervalS f ≤ MaxRescanIntervalS;
  fo_delay : SFleb (fcFSWatcherDelayS f) f64_zero = false ∧ SFltb (fcFSWatcherDelayS f) f64_hundredth = false;
  fo_cleanup : 0 ≤ vcCleanupIntervalS (fcVersioning f) ≤ MaxRescanIntervalS;
  fo_marker : fcMarkerName f ≠ "";
  fo_writes : 1 ≤ fcMaxConcurrentWrites f ≤ maxConcurrentWritesLimit;
  fo_perms : fcType f = FolderTypeReceiveEncrypted → fcIgnorePerms f = true;
}.

Lemma ensureExistingDevices_spec devices :
  ensureExistingDevices existingDevices devices ≡ₚ
    filter (λ d, absent existingDevices (fdDeviceID d) = false) devices.
Proof.
  apply (compacted_filter fdDeviceID (λ _, absent existingDevices) (absent existingDevices) ∅); [done|].
  apply compact_all.
Qed.

Lemma absent_false i : absent existingDevices i = false ↔ is_Some (existingDevices !! i).
Proof.
  unfold absent. destruct (existingDevices !! i); [by split; eauto|]. split; [done|]. by intros [].
Qed.

Lemma ensureNoDuplicateFolderDevices_spec devices :
  let kept := ensureNoDuplicateFolderDevices devices in
  NoDup (fdDeviceID <$> kept) ∧ (∀ d, d ∈ kept → d ∈ devices) ∧
  (∀ i, i ∈ fdDeviceID <$> devices → i ∈ fdDeviceID <$> kept).
Proof.
  pose proof (compact_all fdDeviceID (λ seen id, bool_decide (id ∈ seen)) devices) as Hc.
  pose proof Hc as (H1 & _ & H3)%(compacted_unique _ _ (λ _, false)); [|intros; by rewrite orb_false_r].
  split_and!; [done| |].
  - intros d. by eapply compacted_incl.
  - intros i Hi. destruct (H3 i Hi eq_refl); [set_solver|done].
Qed.

Lemma ensureDevicePresent_spec devices :
  NoDup (fdDeviceID <$> devices) →
  let present := ensureDevicePresent devices myID in
  NoDup (fdDeviceID <$> present) ∧
  (∀ d, d ∈ present → d ∈ devices ∨ (d = MkFolderDeviceConfiguration myID EmptyDeviceID "" ∧ myID ≠ EmptyDeviceID)) ∧
  (∀ d, d ∈ devices → d ∈ present) ∧
  (myID ≠ EmptyDeviceID → myID ∈ fdDeviceID <$> present).
Proof.
  intros Hnd. unfold ensureDevicePresent. case_bool_decide as He; [by split_and!; auto|].
  destruct (existsb _ devices) eqn:Hx; split_and!; auto.
  - intros _. apply existsb_exists in Hx as (d & Hd & Hi). apply bool_decide_eq_true in Hi.
    rewrite <-Hi. apply list_elem_of_fmap_2. by apply list_elem_of_In.
  - rewrite fmap_app. apply NoDup_app. split_and!; [done| |apply NoDup_singleton].
    intros i (d & Hi & Hd)%list_elem_of_fmap ->%list_elem_of_singleton.
    apply not_true_iff_false in Hx. destruct Hx. apply existsb_exists.
    exists d. split; [by apply list_elem_of_In|]. by apply bool_decide_eq_true, eq_sym.
  - intros d [Hd| ->%list_elem_of_singleton]%elem_of_app; auto.
  - intros d Hd. apply elem_of_app. by left.
  - intros _. rewrite fmap_app. apply elem_of_app. right. cbn. left.
Qed.

Lemma ensureNoUntrustedTrustingSharing_spec f devices :
  (∀ d, d ∈ devices → is_Some (existingDevices !! fdDeviceID d)) →
  ∃ kept, ensureNoUntrustedTrustingSharing existingDevices f devices = Ok kept ∧
    kept `sublist_of` devices ∧ (∀ d, d ∈ kept ↔ d ∈ devices ∧ open_ok f d).
Proof.
  intros Hk. induction devices as [|d devices IH]; cbn [ensureNoUntrustedTrustingSharing].
  { exists []. split_and!; [done..|set_solver]. }
  destruct IH as (kept & E & Hsub & Hin); [intros; apply Hk; by right|]. rewrite E. cbn [mbind go_bind].
  assert (Hkeep : open_ok f d → d :: kept `sublist_of` d :: devices ∧
                    ∀ d', d' ∈ d :: kept ↔ d' ∈ d :: devices ∧ open_ok f d').
  { intros Ho. split; [by apply sublist_skip|]. intros d'. rewrite !elem_of_cons, Hin.
    split; [intros [->|[]]; auto|intros [[->|] ?]; auto]. }
  destruct (bool_decide _ || _) eqn:Hb.
  { exists (d :: kept). split; [done|]. apply Hkeep. apply orb_true_iff in Hb as [Hb|Hb]; zb; unfold open_ok; auto. }
  zb. destruct (Hk d) as [devCfg Hd]; [left|]. rewrite Hd. exists (if dcUntrusted devCfg then kept else d :: kept).
  split; [done|]. destruct (dcUntrusted devCfg) eqn:Hu.
  - split; [by apply sublist_cons|]. intros d'. rewrite elem_of_cons, Hin. split; [tauto|].
    intros [[->|Hd'] Ho]; [|done]. destruct Ho as [Ho|[Ho|(c & Hc & Hcu)]]; [done..|]. congruence.
  - apply Hkeep. right. right. eauto.
Qed.

(** What [prepare_limits] leaves alone, and the ranges it establishes. *)
Definition same_folder (f g : FolderConfiguration) : Prop :=
  fcID f = fcID g ∧ fcPath f = fcPath g ∧ fcType f = fcType g ∧ fcLabel f = fcLabel g ∧
  fcPaused f = fcPaused g ∧ fcGroup f = fcGroup g ∧ fcXattrFilter f = fcXattrFilter g.

Lemma prepare_limits_spec f :
  let f' := prepare_limits f in
  same_folder f' f ∧ fcDevices f' = fcDevices f ∧
  0 ≤ fcRescanIntervalS f' ≤ MaxRescanIntervalS ∧
  (SFleb (fcFSWatcherDelayS f') f64_zero = false ∧ SFltb (fcFSWatcherDelayS f') f64_hundredth = false) ∧
  0 ≤ vcCleanupIntervalS (fcVersioning f') ≤ MaxRescanIntervalS ∧ fcMarkerName f' ≠ "" ∧
  1 ≤ fcMaxConcurrentWrites f' ≤ maxConcurrentWritesLimit ∧
  (fcType f' = FolderTypeReceiveEncrypted → fcIgnorePerms f' = true).
Proof.
  split; [done|]. split; [done|].
  change (fcRescanIntervalS (prepare_limits f)) with
    (if fcRescanIntervalS f >? MaxRescanIntervalS then MaxRescanIntervalS
     else if fcRescanIntervalS f <? 0 then 0 else fcRescanIntervalS f).
  change (fcFSWatcherDelayS (prepare_limits f)) with
    (if SFleb (fcFSWatcherDelayS f) f64_zero then f64_of_Z 10
     else if SFltb (fcFSWatcherDelayS f) f64_hundredth then f64_hundredth else fcFSWatcherDelayS f).
  change (vcCleanupIntervalS (fcVersioning (prepare_limits f))) with
    (let v := fcVersioning f in
     if vcCleanupIntervalS v >? MaxRescanIntervalS then MaxRescanIntervalS
     else if vcCleanupIntervalS v <? 0 then 0 else vcCleanupIntervalS v).
  change (fcMarkerName (prepare_limits f)) with
    (if bool_decide (fcMarkerName f = "") then DefaultMarkerName else fcMarkerName f).
  change (fcMaxConcurrentWrites (prepare_limits f)) with
    (if fcMaxConcurrentWrites f <=? 0 then maxConcurrentWritesDefault
     else if fcMaxConcurrentWrites f >? maxConcurrentWritesLimit then maxConcurrentWritesLimit
     else fcMaxConcurrentWrites f).
  change (fcIgnorePerms (prepare_limits f)) with
    (if fcType f =? FolderTypeReceiveEncrypted then true else fcIgnorePerms f).
  change (fcType (prepare_limits f)) with (fcType f). cbv zeta.
  rewrite !Z.gtb_ltb. unfold MaxRescanIntervalS, maxConcurrentWritesLimit, maxConcurrentWritesDefault.
  split_and!.
  all: try (repeat case_match; zb; lia).
  1,2: destruct (SFleb (fcFSWatcherDelayS f) f64_zero) eqn:E1; [done|];
    by destruct (SFltb (fcFSWatcherDelayS f) f64_hundredth) eqn:E2.
  by case_bool_decide.
Qed.

Lemma prepare_limits_id f :
  folder_ok f → prepare_limits f = f.
Proof.
  intros [_ _ _ _ Hr [Hd1 Hd2] Hc Hm Hw Hp]. destruct f, fcVersioning0. cbn in Hr, Hd1, Hd2, Hc, Hm, Hw, Hp.
  unfold prepare_limits. cbv zeta. unfold MaxRescanIntervalS, maxConcurrentWritesLimit in *. cbn -[SFleb SFltb Z.mul Z.gtb].
  rewrite Hd1, Hd2, bool_decide_false by done.
  rewrite !Z.gtb_ltb. repeat match goal with |- context [?a <? ?b] => rewrite (proj2 (Z.ltb_ge a b)) by lia end.
  rewrite (proj2 (Z.leb_gt _ _)) by lia.
  f_equal. destruct (Z.eqb_spec fcType0 FolderTypeReceiveEncrypted); [by rewrite Hp|done].
Qed.

Lemma ensureNoUntrusted_type f g devices :
  fcType f = fcType g →
  ensureNoUntrustedTrustingSharing existingDevices f devices =
    ensureNoUntrustedTrustingSharing existingDevices g devices.
Proof. intros E. induction devices as [|d ds IH]; cbn; [done|]. by rewrite E, IH. Qed.

Definition present_devices (f : FolderConfiguration) : list FolderDeviceConfiguration :=
  ensureDevicePresent (ensureNoDuplicateFolderDevices (ensureExistingDevices existingDevices (fcDevices f))) myID.

Lemma prepare_eq f :
  FolderConfiguration_prepare existingDevices f myID =
    let! devices := ensureNoUntrustedTrustingSharing existingDevices f (present_devices f) in
    Ok (prepare_limits (f <| fcDevices := sort_by (by_key fdDeviceID) devices |>)).
Proof.
  unfold FolderConfiguration_prepare. cbv zeta.
  by rewrite (ensureNoUntrusted_type _ f) by done.
Qed.

Lemma present_devices_spec f :
  (myID = EmptyDeviceID ∨ is_Some (existingDevices !! myID)) →
  let present := present_devices f in
  NoDup (fdDeviceID <$> present) ∧
  (∀ dev, dev ∈ present → is_Some (existingDevices !! fdDeviceID dev) ∧
     (dev ∈ fcDevices f ∨ (dev = MkFolderDeviceConfiguration myID EmptyDeviceID "" ∧ myID ≠ EmptyDeviceID))) ∧
  (∀ i, i ∈ shared_ids f → is_Some (existingDevices !! i) → i ∈ fdDeviceID <$> present) ∧
  (myID ≠ EmptyDeviceID → myID ∈ fdDeviceID <$> present).
Proof.
  intros Hme present. subst present. unfold present_devices.
  set (known := ensureExistingDevices _ _).
  assert (Hknown : ∀ d, d ∈ known ↔ d ∈ fcDevices f ∧ is_Some (existingDevices !! fdDeviceID d)).
  { intros d. unfold known. rewrite ensureExistingDevices_spec, list_elem_of_filter, absent_false. tauto. }
  destruct (ensureNoDuplicateFolderDevices_spec known) as (Hnd & Hin & Hall).
  destruct (ensureDevicePresent_spec _ Hnd) as (Hnd' & Hin' & Hall' & Hme').
  split_and!; [done| | |done].
  - intros dev [Hd|[-> Hne]]%Hin'; [apply Hin, Hknown in Hd as []; auto|].
    destruct Hme; [done|]. auto.
  - intros i (d & -> & Hd)%list_elem_of_fmap Hk.
    destruct (proj1 (list_elem_of_fmap _ _ _) (Hall (fdDeviceID d) ltac:(apply list_elem_of_fmap_2, Hknown; auto))) as (d' & -> & Hd').
    apply list_elem_of_fmap_2. auto.
Qed.

Lemma open_or_not f dev :
  is_Some (existingDevices !! fdDeviceID dev) → open_ok f dev ∨ not_open f (fdDeviceID dev).
Proof.
  intros [c Hc]. destruct (decide (fcType f = FolderTypeReceiveEncrypted)); [by left; right; left|].
  destruct (dcUntrusted c) eqn:Hu; [right; split; eauto|]. left. right. right. eauto.
Qed.

Lemma prepare_devices f :
  (myID = EmptyDeviceID ∨ is_Some (existingDevices !! myID)) →
  ∃ devices, FolderConfiguration_prepare existingDevices f myID = Ok (prepare_limits (f <| fcDevices := devices |>)) ∧
    key_sorted fdDeviceID devices ∧
    (∀ dev, dev ∈ devices → is_Some (existingDevices !! fdDeviceID dev) ∧ open_ok f dev ∧
       (dev ∈ fcDevices f ∨ (dev = MkFolderDeviceConfiguration myID EmptyDeviceID "" ∧ myID ≠ EmptyDeviceID))) ∧
    (∀ i, i ∈ shared_ids f → is_Some (existingDevices !! i) → i ∈ fdDeviceID <$> devices ∨ not_open f i) ∧
    (myID ≠ EmptyDeviceID → myID ∈ fdDeviceID <$> devices ∨ not_open f myID).
Proof.
  intros Hme. destruct (present_devices_spec f Hme) as (Hnd & Hin & Hall & Hmine).
  destruct (ensureNoUntrustedTrustingSharing_spec f (present_devices f)) as (kept & E & Hsub & Hkept).
  { intros d Hd. by apply Hin. }
  assert (Hids : ∀ i, i ∈ fdDeviceID <$> present_devices f → i ∈ fdDeviceID <$> kept ∨ not_open f i).
  { intros i (d & -> & Hd)%list_elem_of_fmap. destruct (open_or_not f d) as [Ho|Ho]; [by apply Hin| |by right].
    left. apply list_elem_of_fmap_2. by apply Hkept. }
  exists (sort_by (by_key fdDeviceID) kept). rewrite prepare_eq, E. split; [done|].
  split_and!.
  - apply sort_by_key_sorted. eapply sublist_NoDup; [exact Hnd|]. by apply fmap_sublist.
  - intros dev Hd. rewrite sort_by_perm in Hd. apply Hkept in Hd as [Hd Ho]. destruct (Hin dev Hd). auto.
  - intros i Hi Hk. rewrite sort_by_perm. auto.
  - intros Hne. rewrite sort_by_perm. auto.
Qed.

(** Preparing a folder never fails when the local device is configured, whatever
    its configuration says.  Afterwards its devices are sorted without duplicates,
    are all configured, include the local device and hold the folder openly only
    if they are trusted; intervals and numbers are in range; name, path and type
    are unchanged.  Only entries the folder had (or the local device) remain, and
    a device is dropped only when it is unknown or not trusted. *)
Lemma folder_prepare_ok f :
  (myID = EmptyDeviceID ∨ is_Some (existingDevices !! myID)) →
  ∃ f', FolderConfiguration_prepare existingDevices f myID = Ok f' ∧ folder_ok f' ∧ same_folder f' f ∧
    (∀ dev, dev ∈ fcDevices f' → dev ∈ fcDevices f ∨ dev = MkFolderDeviceConfiguration myID EmptyDeviceID "") ∧
    (∀ i, i ∈ shared_ids f → is_Some (existingDevices !! i) → i ∈ shared_ids f' ∨ not_open f i).
Proof.
  intros Hme. destruct (prepare_devices f Hme) as (devices & E & Hs & Hin & Hall & Hmine).
  set (g := f <| fcDevices := devices |>) in *.
  destruct (prepare_limits_spec g) as (Hsame & Hdev & Hr & Hd & Hc & Hm & Hw & Hp).
  change (fcDevices g) with devices in Hdev. change (same_folder (prepare_limits g) f) in Hsame.
  exists (prepare_limits g). split; [done|]. unfold shared_ids. rewrite Hdev. split_and!; [|done| |done].
  - constructor; rewrite ?Hdev; try done.
    + intros dev Hdv. by apply Hin.
    + intros dev Hdv. by destruct (Hin dev Hdv) as (_ & Ho & _).
  - intros dev Hdv. destruct (Hin dev Hdv) as (_ & _ & [|[]]); auto.
Qed.

Lemma present_devices_id f :
  folder_ok f → present_devices f = ensureDevicePresent (fcDevices f) myID.
Proof.
  intros [Hs Hk _ _ _ _ _ _ _ _]. unfold present_devices. apply key_sorted_NoDup in Hs as Hnd.
  replace (ensureExistingDevices existingDevices (fcDevices f)) with (fcDevices f).
  - f_equal. eapply compacted_id; [apply compact_all| |done|set_solver].
    intros s d _ _ Hds. by apply bool_decide_eq_false.
  - symmetry. eapply compacted_id; [apply compact_all| |done|set_solver].
    intros s d Hd _ _. by apply absent_false, Hk.
Qed.

Lemma ensureNoUntrusted_id f devices more :
  (∀ d, d ∈ devices → is_Some (existingDevices !! fdDeviceID d) ∧ open_ok f d) →
  ensureNoUntrustedTrustingSharing existingDevices f (devices ++ more) =
    let! more := ensureNoUntrustedTrustingSharing existingDevices f more in Ok (devices ++ more).
Proof.
  induction devices as [|d devices IH]; intros Hk; cbn [app ensureNoUntrustedTrustingSharing].
  { by destruct (ensureNoUntrustedTrustingSharing _ _ _). }
  rewrite IH by (intros; apply Hk; by right).
  destruct (Hk d ltac:(left)) as [[c Hc] Ho]. rewrite Hc.
  assert (E : (bool_decide (fdEncryptionPassword d ≠ "") || (fcType f =? FolderTypeReceiveEncrypted))
              = true ∨ dcUntrusted c = false).
  { destruct Ho as [Ho|[->|(c' & Hc' & Hu)]]; [left|left|right].
    - by rewrite bool_decide_true.
    - by rewrite orb_comm.
    - congruence. }
  destruct E as [-> | ->]; destruct (ensureNoUntrustedTrustingSharing _ _ more); [done..| | |]; by case_match.
Qed.

(** Preparing a prepared folder changes nothing. *)
Theorem folder_prepare_idempotent f :
  folder_ok f → (myID = EmptyDeviceID ∨ is_Some (existingDevices !! myID)) →
  FolderConfiguration_prepare existingDevices f myID = Ok f.
Proof.
  intros Hf Hmine. pose proof Hf as [Hs Hk Ho Hme _ _ _ _ _ _].
  assert (E : ensureNoUntrustedTrustingSharing existingDevices f (present_devices f) = Ok (fcDevices f)).
  { rewrite present_devices_id by done. unfold ensureDevicePresent.
    pose proof (ensureNoUntrusted_id f (fcDevices f) []) as Hid.
    cbn [ensureNoUntrustedTrustingSharing mbind go_bind] in Hid. rewrite !app_nil_r in Hid.
    case_bool_decide as He; [apply Hid; auto|].
    destruct (existsb _ _) eqn:Hx; [apply Hid; auto|].
    rewrite ensureNoUntrusted_id by auto. cbn [ensureNoUntrustedTrustingSharing].
    destruct Hme as [Hin|[Ht (c & Hc & Hu)]]; [done| |].
    - exfalso. apply list_elem_of_fmap in Hin as (d & Hd & Hin). apply not_true_iff_false in Hx.
      destruct Hx. apply existsb_exists. exists d. split; [by apply list_elem_of_In|].
      by apply bool_decide_eq_true.
    - cbn [fdEncryptionPassword fdDeviceID]. rewrite bool_decide_false by tauto.
      rewrite (proj2 (Z.eqb_neq _ _)) by done. cbn [orb]. rewrite Hc, Hu. cbn. by rewrite app_nil_r. }
  rewrite prepare_eq, E. cbn [mbind go_bind]. rewrite sort_by_key_id by done.
  replace (f <| fcDevices := fcDevices f |>) with f by by destruct f.
  by rewrite prepare_limits_id.
Qed.
End folder_prepare.

(** ** Preparing a device *)

(** The latest observation for each folder. *)
Definition latest (input : list ObservedFolder) (f : ObservedFolder) : Prop :=
  f ∈ input ∧ ∀ g, g ∈ input → ofID g = ofID f → ofTime g ≤ ofTime f.

Lemma deduplicate_loop_spec before input output :
  (∀ i f, output !! i = Some f → ofID f = i ∧ latest before f) →
  (∀ f, f ∈ before → is_Some (output !! ofID f)) →
  (∀ i f, deduplicate_loop output input !! i = Some f → ofID f = i ∧ latest (before ++ input) f) ∧
  (∀ f, f ∈ before ++ input → is_Some (deduplicate_loop output input !! ofID f)).
Proof.
  revert before output. induction input as [|g input IH]; intros before output Ho Hall.
  { by rewrite app_nil_r. }
  cbn [deduplicate_loop].
  replace (before ++ g :: input) with ((before ++ [g]) ++ input) by by rewrite <-(assoc_L (++)).
  apply IH.
  - intros i f. case_match eqn:Ht.
    + intros [[<- <-]|[Hne Hi]]%lookup_insert_Some.
      * split; [done|]. split; [apply elem_of_app; right; left|]. intros h [Hh| ->%list_elem_of_singleton]%elem_of_app E; [|lia].
        destruct (Hall h Hh) as [e He]. rewrite E in He. rewrite He in Ht.
        destruct (Ho _ _ He) as [Hid [_ Hle]]. zb. specialize (Hle h Hh). rewrite Hid in Hle. specialize (Hle E). lia.
      * destruct (Ho i f Hi) as [<- [Hin Hle]]. split; [done|]. split; [apply elem_of_app; by left|].
        intros h [Hh| ->%list_elem_of_singleton]%elem_of_app E; [auto|by destruct Hne].
    + intros Hi. destruct (Ho i f Hi) as [<- [Hin Hle]]. split; [done|]. split; [apply elem_of_app; by left|].
      intros h [Hh| ->%list_elem_of_singleton]%elem_of_app E; [auto|]. rewrite E, Hi in Ht. by zb.
  - intros f [Hf| ->%list_elem_of_singleton]%elem_of_app.
    + destruct (Hall f Hf) as [e He]. case_match; [|by exists e].
      destruct (decide (ofID g = ofID f)) as [->|]; [rewrite lookup_insert_eq; eauto|rewrite lookup_insert_ne by done; eauto].
    + destruct (output !! ofID g) as [e|] eqn:He; [|rewrite lookup_insert_eq; eauto].
      case_match; [rewrite lookup_insert_eq; eauto|eauto].
Qed.

Lemma deduplicate_spec input :
  (∀ i f, deduplicateObservedFoldersToMap input !! i = Some f → ofID f = i ∧ latest input f) ∧
  (∀ f, f ∈ input → is_Some (deduplicateObservedFoldersToMap input !! ofID f)).
Proof. apply (deduplicate_loop_spec []); [intros i f; by rewrite lookup_empty|intros f Hf; set_solver]. Qed.

Lemma delete_all_lookup {V} (m : gmap string V) ks i v :
  fold_left (λ m f, delete f m) ks m !! i = Some v ↔ (i ∉ ks) ∧ m !! i = Some v.
Proof.
  revert m. induction ks as [|k ks IH]; intros m; cbn; [set_solver|].
  rewrite IH, lookup_delete_Some, not_elem_of_cons. naive_solver.
Qed.

Section device_prepare.
Context (order : list (string * ObservedFolder) → list (string * ObservedFolder)).

Record device_ok_config (shared : list string) (cfg : DeviceConfiguration) : Prop := {
  do_addresses : dcAddresses cfg ≠ [] ∧ dcAddresses cfg ≠ [""];
  do_trust : dcUntrusted cfg = true → dcIntroducer cfg = false ∧ dcAutoAcceptFolders cfg = false;
  do_ignored : NoDup (ofID <$> dcIgnoredFolders cfg);
  do_shared : ∀ f, f ∈ dcIgnoredFolders cfg → ofID f ∉ shared;
  do_time : StronglySorted (λ a b, ofTime a ≤ ofTime b) (dcIgnoredFolders cfg);
}.

Lemma sortedObservedFolderSlice_spec m :
  (∀ l, order l ≡ₚ l) → (∀ i f, m !! i = Some f → ofID f = i) →
  let l := sortedObservedFolderSlice order m in
  NoDup (ofID <$> l) ∧ (∀ f, f ∈ l ↔ m !! ofID f = Some f) ∧
  StronglySorted (λ a b, ofTime a ≤ ofTime b) l.
Proof.
  intros Hord Hid. unfold sortedObservedFolderSlice.
  set (lt := λ a b, ofTime a <? ofTime b).
  assert (Hp : sort_by lt (order (map_to_list m)).*2 ≡ₚ (map_to_list m).*2).
  { by rewrite sort_by_perm, Hord. }
  assert (Hkeys : ofID <$> (map_to_list m).*2 = (map_to_list m).*1).
  { rewrite <-list_fmap_compose. apply list_fmap_ext. intros ? [i f] Hi. cbn. apply Hid.
    apply elem_of_map_to_list. by eapply list_elem_of_lookup_2. }
  split_and!.
  - rewrite Hp, Hkeys. apply NoDup_fst_map_to_list.
  - intros f. rewrite Hp, list_elem_of_fmap. split.
    + intros ([i g] & -> & Hi%elem_of_map_to_list). cbn. by rewrite (Hid i g).
    + intros Hf. exists (ofID f, f). split; [done|]. by apply elem_of_map_to_list.
  - eapply StronglySorted_impl; [|apply sort_by_sorted]; unfold lt.
    + intros x y. cbn. intros H. zb. lia.
    + intros x y H. zb. apply Z.ltb_ge. lia.
    + intros x y z H1 H2. zb. apply Z.ltb_ge. lia.
Qed.

Lemma DeviceConfiguration_prepare_fields cfg shared :
  let cfg' := DeviceConfiguration_prepare order cfg shared in
  dcAddresses cfg' = (if bool_decide (dcAddresses cfg = [] ∨ dcAddresses cfg = [""]) then ["dynamic"] else dcAddresses cfg) ∧
  dcIgnoredFolders cfg' = sortedObservedFolderSlice order
    (fold_left (λ m f, delete f m) shared (deduplicateObservedFoldersToMap (dcIgnoredFolders cfg))) ∧
  dcUntrusted cfg' = dcUntrusted cfg ∧
  dcIntroducer cfg' = dcIntroducer cfg && negb (dcUntrusted cfg) ∧
  dcAutoAcceptFolders cfg' = dcAutoAcceptFolders cfg && negb (dcUntrusted cfg) ∧
  dcDeviceID cfg' = dcDeviceID cfg ∧ dcPaused cfg' = dcPaused cfg ∧ dcIntroducedBy cfg' = dcIntroducedBy cfg.
Proof.
  destruct cfg as [id name addr c cn intr sk ib p an aa ms mr ig dp mk u rg rn gr].
  cbn zeta. unfold DeviceConfiguration_prepare.
  case_bool_decide as Ha; destruct u, intr, aa; cbn -[sortedObservedFolderSlice deduplicateObservedFoldersToMap fold_left];
    rewrite ?bool_decide_true, ?bool_decide_false by done; done.
Qed.

(** A prepared device has an address to dial, is neither introducer nor
    auto-accepting when it is not trusted, and ignores no folder that is shared
    with it; of every other ignored folder exactly the latest observation is
    kept, in the order of time. *)
Lemma device_prepare_ok cfg shared :
  (∀ l, order l ≡ₚ l) →
  let cfg' := DeviceConfiguration_prepare order cfg shared in
  device_ok_config shared cfg' ∧ dcDeviceID cfg' = dcDeviceID cfg ∧ dcUntrusted cfg' = dcUntrusted cfg ∧
  (∀ f, f ∈ dcIgnoredFolders cfg' → latest (dcIgnoredFolders cfg) f) ∧
  (∀ i, DeviceConfiguration_IgnoredFolder cfg' i = true ↔
        DeviceConfiguration_IgnoredFolder cfg i = true ∧ (i ∉ shared)).
Proof.
  intros Hord cfg'. subst cfg'.
  destruct (DeviceConfiguration_prepare_fields cfg shared) as (Ea & Ei & Eu & Et & Ec & Ed & _ & _).
  destruct (deduplicate_spec (dcIgnoredFolders cfg)) as [Hd1 Hd2].
  set (m := deduplicateObservedFoldersToMap (dcIgnoredFolders cfg)) in *.
  destruct (sortedObservedFolderSlice_spec (fold_left (λ m f, delete f m) shared m) Hord) as (Hnd & Hin & Hs).
  { intros i f [_ Hf]%delete_all_lookup. by apply Hd1. }
  rewrite <-Ei in *. setoid_rewrite delete_all_lookup in Hin.
  split_and!; [|done..| |].
  - constructor; [| | |intros f [? _]%Hin; done|done].
    + rewrite Ea. case_bool_decide; [done|tauto].
    + rewrite Eu, Et, Ec. intros ->. by rewrite !andb_false_r.
    + done.
  - intros f [_ Hf]%Hin. by apply Hd1 in Hf as [].
  - intros i. unfold DeviceConfiguration_IgnoredFolder. rewrite !existsb_exists. setoid_rewrite <-list_elem_of_In. split.
    + intros (f & [Hns Hf]%Hin & <-%bool_decide_eq_true). split; [|done].
      exists f. rewrite bool_decide_eq_true. split; [|done]. by apply Hd1 in Hf as [_ []].
    + intros [(f & Hf & <-%bool_decide_eq_true) Hns]. destruct (Hd2 f Hf) as [g Hg].
      destruct (Hd1 _ _ Hg) as [E _]. exists g. rewrite bool_decide_eq_true, Hin, E. auto.
Qed.
End device_prepare.
