(* ===== verification/Config.v ===== *)
(** * The configuration ([src/lib/config/config.go], [optionsconfiguration.go],
      [guiconfiguration.go], [migrations.go])

    [prepare] brings every configuration that is loaded or that a caller submits
    into the form the rest of the program relies on, and migrates old versions.
    The file translates it with everything it calls, and proves that it establishes
    that form, when it fails, which migrations run in what order, and what they do. *)
From stdpp Require Import functions.
From S2P Require Import Prelude GoLib Vector Base32 DeviceID Paths FolderConfig.
From Stdlib Require String.
From Stdlib Require Import Ascii.
From Stdlib Require Import Floats.SpecFloat.

Local Open Scope Z_scope.

(** ** Data

    A string slice with a default value is [None] when it is [nil]. *)
Record OptionsConfiguration := MkOptionsConfiguration {
  opRawListenAddresses : option (list string);
  opRawGlobalAnnServers : option (list string);
  opGlobalAnnEnabled : bool;
  opLocalAnnEnabled : bool;
  opLocalAnnPort : Z;
  opLocalAnnMCAddr : string;
  opMaxSendKbps : Z;
  opMaxRecvKbps : Z;
  opReconnectIntervalS : Z;
  opRelaysEnabled : bool;
  opRelayReconnectIntervalM : Z;
  opStartBrowser : bool;
  opNATEnabled : bool;
  opNATLeaseM : Z;
  opNATRenewalM : Z;
  opNATTimeoutS : Z;
  opURAccepted : Z;
  opURSeen : Z;
  opURUniqueID : string;
  opURURL : string;
  opURPostInsecurely : bool;
  opURInitialDelayS : Z;
  opAutoUpgradeIntervalH : Z;
  opUpgradeToPreReleases : bool;
  opKeepTemporariesH : Z;
  opCacheIgnoredFiles : bool;
  opProgressUpdateIntervalS : Z;
  opLimitBandwidthInLan : bool;
  opMinHomeDiskFree : Size;
  opReleasesURL : string;
  opAlwaysLocalNets : list string;
  opOverwriteRemoteDevNames : bool;
  opTempIndexMinBlocks : Z;
  opUnackedNotificationIDs : list string;
  opTrafficClass : Z;
  opDeprecatedDefaultFolderPath : string;
  opSetLowPriority : bool;
  opRawMaxFolderConcurrency : Z;
  opCRURL : string;
  opCREnabled : bool;
  opStunKeepaliveStartS : Z;
  opStunKeepaliveMinS : Z;
  opRawStunServers : option (list string);
  opRawMaxCIRequestKiB : Z;
  opAnnounceLANAddresses : bool;
  opSendFullIndexOnUpgrade : bool;
  opFeatureFlags : list string;
  opAuditEnabled : bool;
  opAuditFile : string;
  opConnectionLimitEnough : Z;
  opConnectionLimitMax : Z;
  opConnectionPriorityTCPLAN : Z;
  opConnectionPriorityQUICLAN : Z;
  opConnectionPriorityTCPWAN : Z;
  opConnectionPriorityQUICWAN : Z;
  opConnectionPriorityRelay : Z;
  opConnectionPriorityUpgradeThreshold : Z;
  opDeprecatedUPnPEnabled : bool;
  opDeprecatedUPnPLeaseM : Z;
  opDeprecatedUPnPRenewalM : Z;
  opDeprecatedUPnPTimeoutS : Z;
  opDeprecatedRelayServers : list string;
  opDeprecatedMinHomeDiskFreePct : spec_float;
  opDeprecatedMaxConcurrentScans : Z;
}.
#[export] Instance eta_OptionsConfiguration : Eta OptionsConfiguration := λ r,
  MkOptionsConfiguration (opRawListenAddresses r) (opRawGlobalAnnServers r)
    (opGlobalAnnEnabled r) (opLocalAnnEnabled r) (opLocalAnnPort r) (opLocalAnnMCAddr r)
    (opMaxSendKbps r) (opMaxRecvKbps r) (opReconnectIntervalS r) (opRelaysEnabled r)
    (opRelayReconnectIntervalM r) (opStartBrowser r) (opNATEnabled r) (opNATLeaseM r)
    (opNATRenewalM r) (opNATTimeoutS r) (opURAccepted r) (opURSeen r) (opURUniqueID r)
    (opURURL r) (opURPostInsecurely r) (opURInitialDelayS r) (opAutoUpgradeIntervalH r)
    (opUpgradeToPreReleases r) (opKeepTemporariesH r) (opCacheIgnoredFiles r)
    (opProgressUpdateIntervalS r) (opLimitBandwidthInLan r) (opMinHomeDiskFree r)
    (opReleasesURL r) (opAlwaysLocalNets r) (opOverwriteRemoteDevNames r)
    (opTempIndexMinBlocks r) (opUnackedNotificationIDs r) (opTrafficClass r)
    (opDeprecatedDefaultFolderPath r) (opSetLowPriority r) (opRawMaxFolderConcurrency r)
    (opCRURL r) (opCREnabled r) (opStunKeepaliveStartS r) (opStunKeepaliveMinS r)
    (opRawStunServers r) (opRawMaxCIRequestKiB r) (opAnnounceLANAddresses r)
    (opSendFullIndexOnUpgrade r) (opFeatureFlags r) (opAuditEnabled r) (opAuditFile r)
    (opConnectionLimitEnough r) (opConnectionLimitMax r) (opConnectionPriorityTCPLAN r)
    (opConnectionPriorityQUICLAN r) (opConnectionPriorityTCPWAN r)
    (opConnectionPriorityQUICWAN r) (opConnectionPriorityRelay r)
    (opConnectionPriorityUpgradeThreshold r) (opDeprecatedUPnPEnabled r)
    (opDeprecatedUPnPLeaseM r) (opDeprecatedUPnPRenewalM r) (opDeprecatedUPnPTimeoutS r)
    (opDeprecatedRelayServers r) (opDeprecatedMinHomeDiskFreePct r)
    (opDeprecatedMaxConcurrentScans r).

Record GUIConfiguration := MkGUIConfiguration {
  guEnabled : bool;
  guRawAddress : string;
  guRawUnixSocketPermissions : string;
  guUser : string;
  guPassword : string;
  guAuthMode : Z;
  guMetricsWithoutAuth : bool;
  guRawUseTLS : bool;
  guAPIKey : string;
  guInsecureAdminAccess : bool;
  guTheme : string;
  guInsecureSkipHostCheck : bool;
  guInsecureAllowFrameLoading : bool;
  guSendBasicAuthPrompt : bool;
  guSessionCookieDurationS : Z;
  guSessionCookiePath : string;
}.
#[export] Instance eta_GUIConfiguration : Eta GUIConfiguration := λ r,
  MkGUIConfiguration (guEnabled r) (guRawAddress r) (guRawUnixSocketPermissions r) (guUser r)
    (guPassword r) (guAuthMode r) (guMetricsWithoutAuth r) (guRawUseTLS r) (guAPIKey r)
    (guInsecureAdminAccess r) (guTheme r) (guInsecureSkipHostCheck r)
    (guInsecureAllowFrameLoading r) (guSendBasicAuthPrompt r) (guSessionCookieDurationS r)
    (guSessionCookiePath r).

Record LDAPConfiguration := MkLDAPConfiguration {
  laAddress : string;
  laBindDN : string;
  laTransport : Z;
  laInsecureSkipVerify : bool;
  laSearchBaseDN : string;
  laSearchFilter : string;
}.

Record ObservedDevice := MkObservedDevice {
  odTime : Z;
  odID : list Z;
  odName : string;
  odAddress : string;
}.

Record Defaults := MkDefaults {
  dfFolder : FolderConfiguration;
  dfDevice : DeviceConfiguration;
  dfIgnores : list string;
}.
#[export] Instance eta_Defaults : Eta Defaults := λ r, MkDefaults (dfFolder r) (dfDevice r) (dfIgnores r).

Record Configuration := MkConfiguration {
  cfVersion : Z;
  cfFolders : list FolderConfiguration;
  cfDevices : list DeviceConfiguration;
  cfGUI : GUIConfiguration;
  cfLDAP : LDAPConfiguration;
  cfOptions : OptionsConfiguration;
  cfIgnoredDevices : list ObservedDevice;
  cfDeprecatedPendingDevices : list ObservedDevice;
  cfDefaults : Defaults;
}.
#[export] Instance eta_Configuration : Eta Configuration := λ r,
  MkConfiguration (cfVersion r) (cfFolders r) (cfDevices r) (cfGUI r) (cfLDAP r) (cfOptions r)
    (cfIgnoredDevices r) (cfDeprecatedPendingDevices r) (cfDefaults r).

Definition OldestHandledVersion : Z := 10.
Definition CurrentVersion : Z := 52.

(** What the functions read from their surroundings: the name of the computer,
    random strings, the order of map iteration, and the functions of [net/url] and
    [strings] that depend on more than the bytes at hand. *)
Record Environment := MkEnvironment {
  Hostname : string;
  rand_String : Z → string;
  map_order : list (string * ObservedFolder) → list (string * ObservedFolder);
  url_Scheme : string → option string;      (* [None]: the address does not parse *)
  url_join_v2 : string → string;            (* the address with [v2/] joined to its path *)
  url_escape_host : string → string;
  TrimSpace : string → string;
  upgradesPossible : bool;                  (* neither compiled out nor [STNOUPGRADE] *)
}.

(** ** Lists of strings ([stringutil], [slices]) *)
Fixpoint unique_loop (m : gset string) (ss : list string) : list string :=
  match ss with
  | [] => []
  | v :: ss =>
      let v := l2s (trim_both " "%char (s2l v)) in
      if bool_decide (v ∈ m) then unique_loop m ss else v :: unique_loop ({[v]} ∪ m) ss
  end.
Definition UniqueTrimmedStrings (ss : list string) : list string := unique_loop ∅ ss.

Definition string_key (s : string) : list Z := map byte_val (s2l s).
Definition strings_Compare (a b : string) : Z := bytes_compare (string_key a) (string_key b).

(** ** Options and user interface *)

(** [FillNilSlices] *)
Definition fill_nil (s : option (list string)) : option (list string) :=
  match s with None => Some ["default"] | _ => s end.

Fixpoint remove_first (key : string) (l : list string) : list string :=
  match l with
  | [] => []
  | x :: l => if bool_decide (x = key) then l else x :: remove_first key l
  end.

Section environment.
Context (env : Environment).

Definition OptionsConfiguration_prepare (opts : OptionsConfiguration) (guiPWIsSet : bool) : OptionsConfiguration :=
  let opts := opts <| opRawListenAddresses := fill_nil (opRawListenAddresses opts) |>
                   <| opRawGlobalAnnServers := fill_nil (opRawGlobalAnnServers opts) |>
                   <| opRawStunServers := fill_nil (opRawStunServers opts) |> in
  let opts := opts <| opRawListenAddresses := UniqueTrimmedStrings <$> opRawListenAddresses opts |>
                   <| opRawGlobalAnnServers := UniqueTrimmedStrings <$> opRawGlobalAnnServers opts |> in
  let opts := opts <| opReconnectIntervalS := if opReconnectIntervalS opts <? 5 then 5 else opReconnectIntervalS opts |> in
  let opts := opts <| opUnackedNotificationIDs :=
                if guiPWIsSet then remove_first "authenticationUserAndPassword" (opUnackedNotificationIDs opts)
                else opUnackedNotificationIDs opts |> in
  let opts := opts <| opConnectionLimitEnough := if opConnectionLimitEnough opts <? 0 then 0 else opConnectionLimitEnough opts |> in
  let opts := opts <| opConnectionLimitMax := if opConnectionLimitMax opts <? 0 then 0 else opConnectionLimitMax opts |> in
  let opts := opts <| opConnectionPriorityQUICWAN :=
                if opConnectionPriorityQUICWAN opts <=? opConnectionPriorityQUICLAN opts
                then i64 (opConnectionPriorityQUICLAN opts + 1) else opConnectionPriorityQUICWAN opts |> in
  let opts := opts <| opConnectionPriorityTCPWAN :=
                if opConnectionPriorityTCPWAN opts <=? opConnectionPriorityTCPLAN opts
                then i64 (opConnectionPriorityTCPLAN opts + 1) else opConnectionPriorityTCPWAN opts |> in
  opts <| opURUniqueID := if (opURAccepted opts >? 0) && bool_decide (opURUniqueID opts = "")
                          then rand_String env 8 else opURUniqueID opts |>.

Definition GUIConfiguration_prepare (c : GUIConfiguration) : GUIConfiguration :=
  let c := c <| guAPIKey := if bool_decide (guAPIKey c = "") then rand_String env 32 else guAPIKey c |> in
  let path := TrimSpace env (guSessionCookiePath c) in
  c <| guSessionCookiePath :=
    if bool_decide (path = "") then guSessionCookiePath c
    else if HasPrefix path "/" then path else "/" +:+ path |>.

(** ** Devices and folders *)

Definition zeroDevice : DeviceConfiguration :=
  MkDeviceConfiguration EmptyDeviceID "" [] 0 "" false false EmptyDeviceID false [] false 0 0 [] [] 0 false 0 0 "".

Definition ensureMyDevice (cfg : Configuration) (myID : list Z) : Configuration :=
  if bool_decide (myID = EmptyDeviceID) then cfg
  else if existsb (λ device, bool_decide (dcDeviceID device = myID)) (cfDevices cfg) then cfg
  else cfg <| cfDevices := cfDevices cfg ++ [zeroDevice <| dcDeviceID := myID |> <| dcName := Hostname env |>] |>.

(** The map of pointers into the list: only [Untrusted] is read through it, which
    nothing changes. *)
Definition DeviceMap (devices : list DeviceConfiguration) : gmap (list Z) DeviceConfiguration :=
  fold_left (λ m device, <[dcDeviceID device := device]> m) devices ∅.

Definition prepareDeviceList (cfg : Configuration) : Configuration * gmap (list Z) DeviceConfiguration :=
  let devices := sort_by (by_key dcDeviceID) (ensureNoDuplicateOrEmptyIDDevices (cfDevices cfg)) in
  (cfg <| cfDevices := devices |>, DeviceMap devices).

Definition errFolderIDEmpty : string := "folder has empty ID".
Definition errFolderIDDuplicate : string := "folder has duplicate ID".
Definition errFolderPathEmpty : string := "folder has empty path".

(** The errors without the identifier they are wrapped with. *)
Fixpoint prepareFolders_loop (existingDevices : gmap (list Z) DeviceConfiguration) (myID : list Z)
    (existingFolders : gset string) (folders : list FolderConfiguration) : go (list FolderConfiguration) :=
  match folders with
  | [] => Ok []
  | folder :: folders =>
      if bool_decide (fcID folder = "") then Err errFolderIDEmpty
      else if bool_decide (fcPath folder = "") then Err errFolderPathEmpty
      else if bool_decide (fcID folder ∈ existingFolders) then Err errFolderIDDuplicate
      else
        let! folder := FolderConfiguration_prepare existingDevices folder myID in
        let! folders := prepareFolders_loop existingDevices myID ({[fcID folder]} ∪ existingFolders) folders in
        Ok (folder :: folders)
  end.

(** [sharedFolders[id]] *)
Definition sharedFolders (folders : list FolderConfiguration) (id : list Z) : list string :=
  fcID <$> filter (λ f, id ∈ DeviceIDs f) folders.

Definition prepareFolders (cfg : Configuration) (myID : list Z) (existingDevices : gmap (list Z) DeviceConfiguration)
    : go (Configuration * (list Z → list string)) :=
  let! folders := prepareFolders_loop existingDevices myID ∅ (cfFolders cfg) in
  Ok (cfg <| cfFolders := sort_by (by_key (string_key ∘ fcID)) folders |>, sharedFolders folders).

Definition prepareDevices (cfg : Configuration) (shared : list Z → list string) : Configuration :=
  cfg <| cfDevices := (λ d, DeviceConfiguration_prepare (map_order env) d (shared (dcDeviceID d))) <$> cfDevices cfg |>.

Definition prepareFoldersAndDevices (cfg : Configuration) (myID : list Z)
    : go (Configuration * gmap (list Z) DeviceConfiguration) :=
  let '(cfg, existingDevices) := prepareDeviceList cfg in
  let! r := prepareFolders cfg myID existingDevices in
  let '(cfg, shared) := r in
  Ok (prepareDevices cfg shared, existingDevices).

Definition prepareIgnoredDevices (cfg : Configuration) (existingDevices : gmap (list Z) DeviceConfiguration)
    : Configuration :=
  cfg <| cfIgnoredDevices := filter (λ dev, absent existingDevices (odID dev) = true) (cfIgnoredDevices cfg) |>.

(** [ensureZeroForNodefault] clears the fields that have no default. *)
Definition Defaults_prepare (d : Defaults) (myID : list Z) (existingDevices : gmap (list Z) DeviceConfiguration)
    : go Defaults :=
  let folder := (dfFolder d) <| fcID := "" |> in
  let device := (dfDevice d) <| dcDeviceID := EmptyDeviceID |> <| dcIntroducedBy := EmptyDeviceID |> in
  let! folder := FolderConfiguration_prepare existingDevices folder myID in
  Ok (d <| dfFolder := folder |> <| dfDevice := DeviceConfiguration_prepare (map_order env) device [] |>).

Definition filterURLSchemePrefix (addrs : list string) (prefix : string) : list string :=
  filter (λ addr, match url_Scheme env addr with
                  | None => true
                  | Some scheme => negb (HasPrefix scheme prefix)
                  end = true) addrs.

Definition removeDeprecatedProtocols (cfg : Configuration) : Configuration :=
  let opts := cfOptions cfg in
  cfg <| cfOptions := opts <| opRawListenAddresses := (λ l, filterURLSchemePrefix l "kcp") <$> opRawListenAddresses opts |> |>
      <| cfDevices := (λ d, d <| dcAddresses := filterURLSchemePrefix (dcAddresses d) "kcp" |>) <$> cfDevices cfg |>.

(** [structutil.FillNilExceptDeprecated]: of the slices and maps of a configuration only
    these are told apart from empty ones when they are nil. *)
Definition FillNilExceptDeprecated (cfg : Configuration) : Configuration :=
  let opts := cfOptions cfg in
  let fill s := Some (default [] s) in
  cfg <| cfOptions := opts <| opRawListenAddresses := fill (opRawListenAddresses opts) |>
                           <| opRawGlobalAnnServers := fill (opRawGlobalAnnServers opts) |>
                           <| opRawStunServers := fill (opRawStunServers opts) |> |>.

(** ** Migrations ([migrations.go])

    Two migrations change the disk and not the configuration; what they do there is
    recorded as an action. *)
Inductive disk_action :=
  | CleanSymlinks (fstype folder dir : string)
  | UpgradeMarker (fstype folder : string).

Definition map_folders (g : FolderConfiguration → FolderConfiguration) (cfg : Configuration) : Configuration :=
  cfg <| cfFolders := g <$> cfFolders cfg |>.
Definition map_options (g : OptionsConfiguration → OptionsConfiguration) (cfg : Configuration) : Configuration :=
  cfg <| cfOptions := g (cfOptions cfg) |>.

Definition migrateToConfigV52 : Configuration → Configuration := map_options (λ o,
  let oldQuicInterval := Z.max (go_div (opReconnectIntervalS o) 3) 10 in
  o <| opReconnectIntervalS := Z.min (opReconnectIntervalS o) oldQuicInterval |>).

Definition migrateToConfigV51 (cfg : Configuration) : Configuration :=
  let writes f := f <| fcMaxConcurrentWrites :=
                    if fcMaxConcurrentWrites f =? 2 then maxConcurrentWritesDefault else fcMaxConcurrentWrites f |> in
  let cfg := map_folders writes cfg in
  let d := cfDefaults cfg in
  cfg <| cfDefaults := d <| dfFolder := writes (dfFolder d) |> |>.

Definition migrateToConfigV50 (cfg : Configuration) : Configuration := cfg.

Definition migrateToConfigV37 : Configuration → Configuration := map_folders (λ f,
  f <| fcSendOwnership := fcDeprecatedScanOwnership f |> <| fcDeprecatedScanOwnership := false |>).

Definition set_params (f : FolderConfiguration) (params : gmap string string) : FolderConfiguration :=
  let v := fcVersioning f in f <| fcVersioning := v <| vcParams := params |> |>.

Definition migrateToConfigV36 : Configuration → Configuration := map_folders (λ f,
  set_params f (delete "cleanInterval" (vcParams (fcVersioning f)))).

Definition param (params : gmap string string) (k : string) : string := default "" (params !! k).

Definition migrateToConfigV35 : Configuration → Configuration := map_folders (λ f,
  let v := fcVersioning f in
  let params := vcParams v in
  let v := v <| vcFSType := if bool_decide (param params "fsType" = "") then vcFSType v
                            else FilesystemType_UnmarshalText (param params "fsType") |> in
  let params := if bool_decide (param params "versionsPath" ≠ "") && bool_decide (param params "fsPath" = "")
                then <["fsPath" := param params "versionsPath"]> params else params in
  let v := v <| vcFSPath := param params "fsPath" |>
             <| vcParams := delete "versionsPath" (delete "fsPath" (delete "fsType" params)) |> in
  f <| fcVersioning := v |>).

Definition migrateToConfigV34 (cfg : Configuration) : Configuration :=
  let d := cfDefaults cfg in let o := cfOptions cfg in
  cfg <| cfDefaults := d <| dfFolder := (dfFolder d) <| fcPath := opDeprecatedDefaultFolderPath o |> |> |>
      <| cfOptions := o <| opDeprecatedDefaultFolderPath := "" |> |>.

Definition migrateToConfigV33 (cfg : Configuration) : Configuration :=
  cfg <| cfDevices := (λ d, d <| dcDeprecatedPendingFolders := [] |>) <$> cfDevices cfg |>
      <| cfDeprecatedPendingDevices := [] |>.

Definition migrateToConfigV32 : Configuration → Configuration := map_folders (λ f, f <| fcJunctionsAsDirs := true |>).

Definition notify (key : string) (o : OptionsConfiguration) : OptionsConfiguration :=
  o <| opUnackedNotificationIDs := opUnackedNotificationIDs o ++ [key] |>.

Definition migrateToConfigV31 : Configuration → Configuration := map_options (notify "authenticationUserAndPassword").

Definition migrateToConfigV30 : Configuration → Configuration := map_options (λ o,
  o <| opRawMaxFolderConcurrency := opDeprecatedMaxConcurrentScans o |> <| opDeprecatedMaxConcurrentScans := 0 |>).

Definition migrateToConfigV29 : Configuration → Configuration := map_options (λ o,
  if opGlobalAnnEnabled o || (opURAccepted o >? 0)
  then notify "crAutoEnabled" (o <| opCREnabled := true |>)
  else notify "crAutoDisabled" (o <| opCREnabled := false |>)).

Definition migrateToConfigV28 : Configuration → Configuration := map_options (notify "fsWatcherNotification").

Definition migrateToConfigV27 : Configuration → Configuration := map_folders (λ f,
  if fcDeprecatedPullers f =? 0 then f
  else f <| fcPullerMaxPendingKiB := i64 (128 * fcDeprecatedPullers f) |> <| fcDeprecatedPullers := 0 |>).

Definition migrateToConfigV25 : Configuration → Configuration := map_folders (λ f, f <| fcFSWatcherDelayS := f64_of_Z 10 |>).

Definition migrateToConfigV24 : Configuration → Configuration := map_options (λ o, o <| opURSeen := 2 |>).

Definition migrateToConfigV23 (cfg : Configuration) : list disk_action :=
  (λ f, UpgradeMarker (fcFilesystemType f) (fcPath f)) <$> cfFolders cfg.

Definition migrateToConfigV22 : Configuration → Configuration := map_folders (λ f,
  let f := f <| fcFilesystemType := FilesystemTypeBasic |> in
  let params := vcParams (fcVersioning f) in
  if bool_decide (vcType (fcVersioning f) = "external")
  then set_params f (<["command" := param params "command" +:+ " %FOLDER_PATH% %FILE_PATH%"]> params)
  else f).

Definition clean_versions (folder : FolderConfiguration) : list disk_action :=
  let v := fcVersioning folder in
  if negb (bool_decide (fcFilesystemType folder = FilesystemTypeBasic)) then []
  else if bool_decide (vcType v = "simple" ∨ vcType v = "trashcan")
  then [CleanSymlinks (fcFilesystemType folder) (fcPath folder) ".stversions"]
  else if bool_decide (vcType v = "staggered") then
    let versionDir := param (vcParams v) "versionsPath" in
    if bool_decide (versionDir = "") then [CleanSymlinks (fcFilesystemType folder) (fcPath folder) ".stversions"]
    else if IsAbs (s2l versionDir) then [CleanSymlinks FilesystemTypeBasic versionDir "."]
    else [CleanSymlinks (fcFilesystemType folder) (fcPath folder) versionDir]
  else [].
Definition migrateToConfigV21 (cfg : Configuration) : list disk_action :=
  mjoin (clean_versions <$> cfFolders cfg).

Definition percent (v : spec_float) : Size := MkSize v "%".
Definition migrateToConfigV20 (cfg : Configuration) : Configuration :=
  let cfg := map_options (λ o, o <| opMinHomeDiskFree := percent (opDeprecatedMinHomeDiskFreePct o) |>
                                 <| opDeprecatedMinHomeDiskFreePct := f64_zero |>) cfg in
  map_folders (λ f, f <| fcMinDiskFree := percent (fcDeprecatedMinDiskFreePct f) |>
                      <| fcDeprecatedMinDiskFreePct := f64_zero |>) cfg.

Definition AutoUpgradeEnabled (o : OptionsConfiguration) : bool := opAutoUpgradeIntervalH o >? 0.
Definition migrateToConfigV18 : Configuration → Configuration := map_options (λ o,
  let o := o <| opUpgradeToPreReleases :=
             if (opURAccepted o >? 0) && AutoUpgradeEnabled o then true else opUpgradeToPreReleases o |> in
  if upgradesPossible env then notify "channelNotification" o else o).

Definition migrateToConfigV15 : Configuration → Configuration := map_options (λ o,
  o <| opRawGlobalAnnServers :=
    map (λ addr, if bool_decide (addr = "default-v4v2/") then "default-v4"
                 else if bool_decide (addr = "default-v6v2/") then "default-v6" else addr)
      <$> opRawGlobalAnnServers o |>).

Definition default_relay : string := "dynamic+https://relays.syncthing.net/endpoint".
Definition old_listen : string := "tcp://0.0.0.0:22000".
Definition old_releases : string := "https://api.github.com/repos/syncthing/syncthing/releases?per_page=30".

Fixpoint replace_first (a b : string) (l : list string) : list string :=
  match l with
  | [] => []
  | x :: l => if bool_decide (x = a) then b :: l else x :: replace_first a b l
  end.

(** A slice that elements are appended to, from nil on. *)
Definition append_to (s : option (list string)) (l : list string) : option (list string) :=
  match s, l with None, [] => None | _, _ => Some (default [] s ++ l) end.

(** The listen addresses: the default address together with the default relay
    becomes the word [default], the other relays are appended. *)
Definition migrate_listen (relays : list string) (addrs : option (list string)) : option (list string) :=
  let hasDefault := bool_decide (default_relay ∈ relays) && bool_decide (old_listen ∈ default [] addrs) in
  let addrs := if hasDefault then replace_first old_listen "default" <$> addrs else addrs in
  let relays := filter (λ addr, ¬ (hasDefault = true ∧ addr = default_relay) ∧ addr ≠ "") relays in
  sort_by (by_key string_key) <$> append_to addrs relays.

Definition migrate_announce (addrs : list string) : list string :=
  omap (λ addr, match url_Scheme env addr with
                | None => None
                | Some scheme => Some (if bool_decide (scheme = "https") then url_join_v2 env addr else addr)
                end) addrs.

Definition clear_releases (o : OptionsConfiguration) : OptionsConfiguration :=
  o <| opReleasesURL := if bool_decide (opReleasesURL o = old_releases) then "" else opReleasesURL o |>.

Definition migrateToConfigV14 (cfg : Configuration) : Configuration :=
  let cfg := map_options (λ o,
    let o := o <| opCacheIgnoredFiles := false |>
               <| opNATEnabled := opDeprecatedUPnPEnabled o |> <| opDeprecatedUPnPEnabled := false |>
               <| opNATLeaseM := opDeprecatedUPnPLeaseM o |> <| opDeprecatedUPnPLeaseM := 0 |>
               <| opNATRenewalM := opDeprecatedUPnPRenewalM o |> <| opDeprecatedUPnPRenewalM := 0 |>
               <| opNATTimeoutS := opDeprecatedUPnPTimeoutS o |> <| opDeprecatedUPnPTimeoutS := 0 |> in
    o <| opRawListenAddresses :=
        migrate_listen (opDeprecatedRelayServers o) (opRawListenAddresses o) |>
      <| opDeprecatedRelayServers := [] |>
      <| opRawGlobalAnnServers := append_to None (migrate_announce (default [] (opRawGlobalAnnServers o))) |>) cfg in
  let cfg := map_folders (λ f,
    f <| fcType := if fcDeprecatedReadOnly f then FolderTypeSendOnly else FolderTypeSendReceive |>
      <| fcDeprecatedReadOnly := false |>) cfg in
  map_options clear_releases cfg.

Definition migrateToConfigV13 : Configuration → Configuration := map_options clear_releases.

(** [netutil.AddressURL] *)
Definition AddressURL (network host : string) : string :=
  network +:+ ":" +:+ (if bool_decide (host = "") then "" else "//" +:+ url_escape_host env host).

Definition migrateToConfigV12 (cfg : Configuration) : Configuration :=
  let old addr := bool_decide (addr = "udp4://announce.syncthing.net:22026" ∨
                               addr = "udp6://announce-v6.syncthing.net:22026") in
  let cfg := map_options (λ o,
    o <| opRawListenAddresses :=
        map (λ addr, if negb (bool_decide (addr = "")) && negb (HasPrefix addr "tcp://")
                     then AddressURL "tcp" addr else addr) <$> opRawListenAddresses o |>) cfg in
  let cfg := cfg <| cfDevices := (λ d,
    d <| dcAddresses := map (λ addr, if bool_decide (addr ≠ "dynamic" ∧ addr ≠ "")
                                     then AddressURL "tcp" addr else addr) (dcAddresses d) |>) <$> cfDevices cfg |> in
  let cfg := map_options (λ o,
    let addrs := default [] (opRawGlobalAnnServers o) in
    o <| opRawGlobalAnnServers :=
        append_to None (filter (λ addr, old addr = false) addrs ++ if existsb old addrs then ["default"] else []) |>
      <| opLocalAnnMCAddr := if bool_decide (opLocalAnnMCAddr o = "[ff32::5222]:21026")
                             then "[ff12::8384]:21027" else opLocalAnnMCAddr o |>
      <| opLocalAnnPort := if opLocalAnnPort o =? 21025 then 21027 else opLocalAnnPort o |>) cfg in
  map_folders (λ f, f <| fcMaxConflicts := -1 |>) cfg.

Definition migrateToConfigV11 : Configuration → Configuration :=
  map_folders (λ f, f <| fcDeprecatedMinDiskFreePct := f64_of_Z 1 |>).

(** A migration converts the configuration ([nil]: only the version changes) or
    acts on the disk. *)
Inductive conversion :=
  | ConvertNil
  | Convert (g : Configuration → Configuration)
  | ConvertDisk (g : Configuration → list disk_action).

Definition migrations : list (Z * conversion) :=
  [(52, Convert migrateToConfigV52); (51, Convert migrateToConfigV51); (50, Convert migrateToConfigV50);
   (37, Convert migrateToConfigV37); (36, Convert migrateToConfigV36); (35, Convert migrateToConfigV35);
   (34, Convert migrateToConfigV34); (33, Convert migrateToConfigV33); (32, Convert migrateToConfigV32);
   (31, Convert migrateToConfigV31); (30, Convert migrateToConfigV30); (29, Convert migrateToConfigV29);
   (28, Convert migrateToConfigV28); (27, Convert migrateToConfigV27); (26, ConvertNil);
   (25, Convert migrateToConfigV25); (24, Convert migrateToConfigV24); (23, ConvertDisk migrateToConfigV23);
   (22, Convert migrateToConfigV22); (21, ConvertDisk migrateToConfigV21); (20, Convert migrateToConfigV20);
   (19, ConvertNil); (18, Convert migrateToConfigV18); (17, ConvertNil); (16, ConvertNil);
   (15, Convert migrateToConfigV15); (14, Convert migrateToConfigV14); (13, Convert migrateToConfigV13);
   (12, Convert migrateToConfigV12); (11, Convert migrateToConfigV11)].

Definition convert_with (convert : conversion) (st : Configuration * list disk_action) : Configuration * list disk_action :=
  match convert with
  | ConvertNil => st
  | Convert g => (g st.1, st.2)
  | ConvertDisk g => (st.1, st.2 ++ g st.1)
  end.
Definition migration_apply (st : Configuration * list disk_action) (m : Z * conversion)
    : Configuration * list disk_action :=
  let '(cfg, log) := st in let '(targetVersion, convert) := m in
  if cfVersion cfg >=? targetVersion then st
  else
    let '(cfg, log) := convert_with convert st in
    (cfg <| cfVersion := targetVersion |>, log).

Definition migrationSet_apply (ms : list (Z * conversion)) (cfg : Configuration)
    : Configuration * list disk_action :=
  fold_left migration_apply (sort_by (λ a b, a.1 <? b.1) ms) (cfg, []).

Definition applyMigrations (cfg : Configuration) : Configuration * list disk_action :=
  migrationSet_apply migrations cfg.

(** ** [Configuration.prepare] *)
Definition Configuration_prepare (cfg : Configuration) (myID : list Z) : go (Configuration * list disk_action) :=
  let cfg := ensureMyDevice cfg myID in
  let! r := prepareFoldersAndDevices cfg myID in
  let '(cfg, existingDevices) := r in
  let cfg := cfg <| cfGUI := GUIConfiguration_prepare (cfGUI cfg) |> in
  let guiPWIsSet := bool_decide (guUser (cfGUI cfg) ≠ "") && bool_decide (guPassword (cfGUI cfg) ≠ "") in
  let cfg := cfg <| cfOptions := OptionsConfiguration_prepare (cfOptions cfg) guiPWIsSet |> in
  let cfg := prepareIgnoredDevices cfg existingDevices in
  let! defaults := Defaults_prepare (cfDefaults cfg) myID existingDevices in
  let cfg := cfg <| cfDefaults := defaults |> in
  let cfg := removeDeprecatedProtocols cfg in
  let cfg := FillNilExceptDeprecated cfg in
  Ok (applyMigrations cfg).
End environment.

(** ** Reading the configuration *)

Definition Configuration_Device (cfg : Configuration) (id : list Z) : option DeviceConfiguration :=
  find (λ d, bool_decide (dcDeviceID d = id)) (cfDevices cfg).
Definition Configuration_Folder (cfg : Configuration) (id : string) : option FolderConfiguration :=
  find (λ f, bool_decide (fcID f = id)) (cfFolders cfg).

Definition FolderPasswords (cfg : Configuration) (device : list Z) : gmap string string :=
  fold_left (λ res folder,
    match FolderConfiguration_Device folder device with
    | Some dev => if bool_decide (fdEncryptionPassword dev ≠ "")
                  then <[fcID folder := fdEncryptionPassword dev]> res else res
    | None => res
    end) (cfFolders cfg) ∅.

(** ** Changing the configuration

    [SetDevices] and [SetFolders]: an entry with a known identifier replaces the
    one the configuration has, the others are appended. *)
Section set_entries.
Context {A K : Type} `{Countable K} (key : A → K).

Fixpoint indices (i : nat) (l : list A) (inds : gmap K nat) : gmap K nat :=
  match l with
  | [] => inds
  | a :: l => indices (S i) l (<[key a := i]> inds)
  end.

Fixpoint set_loop (inds : gmap K nat) (entries filtered new : list A) : list A * list A :=
  match new with
  | [] => (entries, filtered)
  | a :: new =>
      match inds !! key a with
      | Some i => set_loop inds (<[i := a]> entries) filtered new
      | None => set_loop inds entries (filtered ++ [a]) new
      end
  end.

Definition set_entries (entries new : list A) : list A :=
  let '(entries, filtered) := set_loop (indices 0 entries ∅) entries [] new in entries ++ filtered.
End set_entries.

Definition SetDevices (cfg : Configuration) (devices : list DeviceConfiguration) : Configuration :=
  cfg <| cfDevices := set_entries dcDeviceID (cfDevices cfg) devices |>.
Definition SetDevice (cfg : Configuration) (device : DeviceConfiguration) : Configuration := SetDevices cfg [device].
Definition SetFolders (cfg : Configuration) (folders : list FolderConfiguration) : Configuration :=
  cfg <| cfFolders := set_entries fcID (cfFolders cfg) folders |>.
Definition SetFolder (cfg : Configuration) (folder : FolderConfiguration) : Configuration := SetFolders cfg [folder].

(** [RemoveDevice] and [RemoveFolder] of the wrapper hand these to [Modify]. *)
Fixpoint remove_entry {A} (p : A → bool) (l : list A) : list A :=
  match l with
  | [] => []
  | a :: l => if p a then l else a :: remove_entry p l
  end.
Definition RemoveDevice (id : list Z) (cfg : Configuration) : Configuration :=
  cfg <| cfDevices := remove_entry (λ d, bool_decide (dcDeviceID d = id)) (cfDevices cfg) |>.
Definition RemoveFolder (id : string) (cfg : Configuration) : Configuration :=
  cfg <| cfFolders := remove_entry (λ f, bool_decide (fcID f = id)) (cfFolders cfg) |>.

(** ** Lemmas on the device map and the device list *)

Lemma DeviceMap_snoc l d : DeviceMap (l ++ [d]) = <[dcDeviceID d := d]> (DeviceMap l).
Proof. unfold DeviceMap. by rewrite fold_left_app. Qed.

Lemma DeviceMap_Some l i d : DeviceMap l !! i = Some d → d ∈ l ∧ dcDeviceID d = i.
Proof.
  induction l as [|e l IH] using rev_ind; [done|]. rewrite DeviceMap_snoc.
  intros [[<- <-]|[_ []%IH]]%lookup_insert_Some; set_solver.
Qed.

Lemma DeviceMap_is_Some l i : is_Some (DeviceMap l !! i) ↔ i ∈ dcDeviceID <$> l.
Proof.
  split.
  - intros [d [Hd <-]%DeviceMap_Some]. by apply list_elem_of_fmap_2.
  - induction l as [|e l IH] using rev_ind; [set_solver|]. rewrite DeviceMap_snoc, fmap_app.
    intros [Hi| ->%list_elem_of_singleton]%elem_of_app; [|rewrite lookup_insert_eq; eauto].
    destruct (decide (dcDeviceID e = i)) as [->|]; [rewrite lookup_insert_eq; eauto|].
    rewrite lookup_insert_ne by done. auto.
Qed.

Lemma DeviceMap_fmap g l i :
  (∀ d, dcDeviceID (g d) = dcDeviceID d) → DeviceMap (g <$> l) !! i = g <$> DeviceMap l !! i.
Proof.
  intros Hg. induction l as [|e l IH] using rev_ind; [done|].
  rewrite fmap_app, DeviceMap_snoc, (DeviceMap_snoc (g <$> l) (g e)), Hg.
  destruct (decide (dcDeviceID e = i)) as [->|]; [by rewrite !lookup_insert_eq|].
  by rewrite !lookup_insert_ne by done.
Qed.

Lemma string_key_inj a b : string_key a = string_key b → a = b.
Proof.
  unfold string_key. intros H. apply s2l_inj. revert H. generalize (s2l a) (s2l b).
  induction l as [|x l IH]; intros [|y k]; cbn; [done..|]. intros [= Hx Hl]. f_equal; [|by apply IH].
  by rewrite <-(byte_chr_val x), Hx, byte_chr_val.
Qed.

Lemma UniqueTrimmed_loop m ss : NoDup (unique_loop m ss) ∧ ∀ s, s ∈ unique_loop m ss → s ∉ m.
Proof.
  revert m. induction ss as [|v ss IH]; intros m; cbn [unique_loop]; [split; [constructor|set_solver]|].
  case_bool_decide as Hv; [apply IH|]. destruct (IH ({[l2s (trim_both " "%char (s2l v))]} ∪ m)) as [H1 H2].
  split; [constructor; [|done]|].
  - intros H. apply H2 in H. set_solver.
  - intros s [->|Hs]%elem_of_cons; [done|]. apply H2 in Hs. set_solver.
Qed.

(** ** The folders are valid *)
Definition valid_folders (seen : gset string) (folders : list FolderConfiguration) : Prop :=
  (∀ f, f ∈ folders → fcID f ≠ "" ∧ fcPath f ≠ "" ∧ (fcID f ∉ seen)) ∧ NoDup (fcID <$> folders).

Lemma prepareFolders_loop_spec existing myID seen folders :
  (myID = EmptyDeviceID ∨ is_Some (existing !! myID)) →
  (valid_folders seen folders ∧
   ∃ r, prepareFolders_loop existing myID seen folders = Ok r ∧ (fcID <$> r) = (fcID <$> folders) ∧
     ∀ f', f' ∈ r → folder_ok existing myID f' ∧ ∃ f, f ∈ folders ∧ same_folder f' f) ∨
  (¬ valid_folders seen folders ∧ ∃ e, prepareFolders_loop existing myID seen folders = Err e).
Proof.
  intros Hme. revert seen. induction folders as [|f folders IH]; intros seen; cbn [prepareFolders_loop].
  { left. split; [split; [set_solver|constructor]|]. exists []. split_and!; [done|done|set_solver]. }
  case_bool_decide as H1; [right; split; [|eauto]|].
  { intros [Hv _]. by destruct (Hv f ltac:(left)). }
  case_bool_decide as H2; [right; split; [|eauto]|].
  { intros [Hv _]. by destruct (Hv f ltac:(left)) as (_ & ? & _). }
  case_bool_decide as H3; [right; split; [|eauto]|].
  { intros [Hv _]. by destruct (Hv f ltac:(left)) as (_ & _ & ?). }
  destruct (folder_prepare_ok existing myID f Hme) as (f' & -> & Hok & Hsame & _). cbn [mbind go_bind].
  pose proof Hsame as (Hid & _). rewrite Hid.
  destruct (IH ({[fcID f]} ∪ seen)) as [[Hv (r & -> & Hids & Hr)]|[Hv [e ->]]]; cbn [mbind go_bind].
  - left. split.
    + destruct Hv as [Hv Hnd]. split.
      * intros g [->|Hg]%elem_of_cons; [done|]. destruct (Hv g Hg) as (? & ? & ?). set_solver.
      * rewrite fmap_cons. constructor; [|done]. intros (g & E & Hg)%list_elem_of_fmap.
        destruct (Hv g Hg) as (_ & _ & Hn). rewrite E in Hn. set_solver.
    + exists (f' :: r). split; [done|]. rewrite !fmap_cons, Hids, Hid. split; [done|].
      intros g [->|Hg]%elem_of_cons.
      * split; [done|]. exists f. split; [left|done].
      * destruct (Hr g Hg) as [Ho (f0 & Hf0 & Hs)]. split; [done|]. exists f0. split; [by right|done].
  - right. split; [|eauto]. intros [Hv' Hnd]. rewrite fmap_cons in Hnd. apply NoDup_cons in Hnd as [Hf Hnd].
    apply Hv. split; [|done]. intros g Hg. destruct (Hv' g ltac:(by right)) as (? & ? & ?).
    split_and!; [done..|]. apply not_elem_of_union. split; [|done]. intros E%elem_of_singleton.
    apply Hf. rewrite <-E. by apply list_elem_of_fmap_2.
Qed.

(** ** The form [prepare] establishes *)

Record options_ok (o : OptionsConfiguration) : Prop := {
  oo_reconnect : 5 ≤ opReconnectIntervalS o;
  oo_enough : 0 ≤ opConnectionLimitEnough o;
  oo_max : 0 ≤ opConnectionLimitMax o;
  oo_listen : ∃ l, opRawListenAddresses o = Some l ∧ NoDup l;
}.

Record prepared (myID : list Z) (cfg : Configuration) : Prop := {
  pr_devices : key_sorted dcDeviceID (cfDevices cfg);
  pr_ids : ∀ d, d ∈ cfDevices cfg → dcDeviceID d ≠ EmptyDeviceID;
  pr_me : myID ≠ EmptyDeviceID → myID ∈ dcDeviceID <$> cfDevices cfg;
  pr_trust : ∀ d, d ∈ cfDevices cfg → dcUntrusted d = true → dcIntroducer d = false ∧ dcAutoAcceptFolders d = false;
  pr_ignored : ∀ d, d ∈ cfDevices cfg → NoDup (ofID <$> dcIgnoredFolders d);
  pr_shared : ∀ d f, d ∈ cfDevices cfg → f ∈ cfFolders cfg → dcDeviceID d ∈ DeviceIDs f →
    DeviceConfiguration_IgnoredFolder d (fcID f) = false;
  pr_folders : key_sorted (string_key ∘ fcID) (cfFolders cfg);
  pr_named : ∀ f, f ∈ cfFolders cfg → fcID f ≠ "" ∧ fcPath f ≠ "";
  pr_folder : ∀ f, f ∈ cfFolders cfg → folder_ok (DeviceMap (cfDevices cfg)) myID f;
  pr_unknown : ∀ d, d ∈ cfIgnoredDevices cfg → odID d ∉ dcDeviceID <$> cfDevices cfg;
  pr_options : options_ok (cfOptions cfg);
}.

(** A folder depends on the devices only through who is known and trusted. *)
Lemma folder_ok_ext e1 e2 myID f :
  (∀ i, dcUntrusted <$> e1 !! i = dcUntrusted <$> e2 !! i) → folder_ok e1 myID f → folder_ok e2 myID f.
Proof.
  intros He.
  assert (Hk : ∀ i c, e1 !! i = Some c → ∃ c', e2 !! i = Some c' ∧ dcUntrusted c' = dcUntrusted c).
  { intros i c Hc. specialize (He i). rewrite Hc in He. destruct (e2 !! i); [|done]. injection He as He. eauto. }
  intros [H1 H2 H3 H4 H5 H6 H7 H8 H9 H10]. constructor; try done.
  - intros dev Hd. destruct (H2 dev Hd) as [c (c' & Hc & _)%Hk]. eauto.
  - intros dev Hd. destruct (H3 dev Hd) as [H|[H|(c & (c' & Hc & E)%Hk & Hu)]]; [by left|by right; left|].
    right. right. exists c'. by rewrite E.
  - intros Hne. destruct (H4 Hne) as [H|[H (c & (c' & Hc & E)%Hk & Hu)]]; [by left|].
    right. split; [done|]. exists c'. by rewrite E.
Qed.

(** Conversions of single folders and of the options. *)
Definition keeps_folder (g : FolderConfiguration → FolderConfiguration) : Prop :=
  ∀ f, fcID (g f) = fcID f ∧ fcPath (g f) = fcPath f ∧ fcDevices (g f) = fcDevices f ∧
    ∀ e myID, folder_ok e myID f → folder_ok e myID (g f).

Lemma map_folders_prepared g myID cfg :
  keeps_folder g → prepared myID cfg → prepared myID (map_folders g cfg).
Proof.
  intros Hg [H1 H2 H3 H4 H5 H6 H7 H8 H9 H10 H11].
  constructor; try done; change (cfFolders (map_folders g cfg)) with (g <$> cfFolders cfg).
  - intros d ? Hd (f & -> & Hf)%list_elem_of_fmap. destruct (Hg f) as (E1 & _ & E3 & _).
    unfold DeviceIDs. rewrite E1, E3. by apply H6.
  - apply key_sorted_fmap; [|done]. intros f. cbn. by destruct (Hg f) as [-> _].
  - intros ? (f & -> & Hf)%list_elem_of_fmap. destruct (Hg f) as (-> & -> & _). by apply H8.
  - intros ? (f & -> & Hf)%list_elem_of_fmap. apply Hg. by apply H9.
Qed.

Lemma map_options_prepared g myID cfg :
  (∀ o, options_ok o → options_ok (g o)) → prepared myID cfg → prepared myID (map_options g cfg).
Proof. intros Hg [H1 H2 H3 H4 H5 H6 H7 H8 H9 H10 H11]. constructor; try done. by apply Hg. Qed.

Lemma prepared_same myID cfg cfg' :
  cfFolders cfg' = cfFolders cfg → cfDevices cfg' = cfDevices cfg → cfIgnoredDevices cfg' = cfIgnoredDevices cfg →
  options_ok (cfOptions cfg') → prepared myID cfg → prepared myID cfg'.
Proof.
  intros E1 E2 E3 Ho [H1 H2 H3 H4 H5 H6 H7 H8 H9 H10 H11]. constructor; rewrite ?E1, ?E2, ?E3; done.
Qed.

Ltac keep_folder :=
  intros f; split_and!; [reflexivity..|];
  intros e me [H1 H2 H3 H4 H5 H6 H7 H8 H9 H10]; constructor; done.

Lemma notify_ok key o : options_ok o → options_ok (notify key o).
Proof. intros [H1 H2 H3 H4]. by constructor. Qed.

(** Changes of devices that touch neither identity nor trust. *)
Definition keeps_device (g : DeviceConfiguration → DeviceConfiguration) : Prop :=
  ∀ d, dcDeviceID (g d) = dcDeviceID d ∧ dcUntrusted (g d) = dcUntrusted d ∧ dcIntroducer (g d) = dcIntroducer d ∧
    dcAutoAcceptFolders (g d) = dcAutoAcceptFolders d ∧ dcIgnoredFolders (g d) = dcIgnoredFolders d.

Lemma ids_fmap g (l : list DeviceConfiguration) :
  (∀ d, dcDeviceID (g d) = dcDeviceID d) → dcDeviceID <$> (g <$> l) = dcDeviceID <$> l.
Proof. intros Hg. rewrite <-list_fmap_compose. apply list_fmap_ext. intros ? d _. apply Hg. Qed.

Lemma map_devices_prepared g myID cfg :
  keeps_device g → prepared myID cfg → prepared myID (cfg <| cfDevices := g <$> cfDevices cfg |>).
Proof.
  intros Hg [H1 H2 H3 H4 H5 H6 H7 H8 H9 H10 H11].
  assert (Hid : ∀ d, dcDeviceID (g d) = dcDeviceID d) by (intros d; apply Hg).
  constructor; try done; cbn [set_field cfDevices cfFolders cfIgnoredDevices].
  - by apply key_sorted_fmap.
  - intros ? (d & -> & Hd)%list_elem_of_fmap. rewrite Hid. auto.
  - rewrite ids_fmap by done. done.
  - intros ? (d & -> & Hd)%list_elem_of_fmap. destruct (Hg d) as (_ & -> & -> & -> & _). auto.
  - intros ? (d & -> & Hd)%list_elem_of_fmap. destruct (Hg d) as (_ & _ & _ & _ & ->). auto.
  - intros ? f (d & -> & Hd)%list_elem_of_fmap Hf. rewrite Hid. unfold DeviceConfiguration_IgnoredFolder.
    destruct (Hg d) as (_ & _ & _ & _ & ->). by apply H6.
  - intros f Hf. eapply folder_ok_ext; [|by apply H9]. intros i. rewrite DeviceMap_fmap by done.
    destruct (DeviceMap _ !! i) as [d|]; [|done]. cbn. by destruct (Hg d) as (_ & -> & _).
  - intros d Hd. rewrite ids_fmap by done. auto.
Qed.

Ltac keep_options := apply map_options_prepared; [intros o [H1 H2 H3 H4]; constructor; try done|done].

Section preserve.
Context (env : Environment) (myID : list Z).

Lemma writes_folder :
  keeps_folder (λ f, f <| fcMaxConcurrentWrites :=
    if fcMaxConcurrentWrites f =? 2 then maxConcurrentWritesDefault else fcMaxConcurrentWrites f |>).
Proof.
  intros f. split_and!; [reflexivity..|]. intros e me [H1 H2 H3 H4 H5 H6 H7 H8 H9 H10].
  constructor; try done. cbn [fcMaxConcurrentWrites set_field].
  unfold maxConcurrentWritesDefault, maxConcurrentWritesLimit in *. destruct (_ =? 2); lia.
Qed.

Lemma delay_folder : keeps_folder (λ f, f <| fcFSWatcherDelayS := f64_of_Z 10 |>).
Proof.
  intros f. split_and!; [reflexivity..|]. intros e me [H1 H2 H3 H4 H5 H6 H7 H8 H9 H10]. constructor; done.
Qed.

Lemma migration_prepared t conv cfg :
  (t, conv) ∈ migrations env → 14 < t → prepared myID cfg →
  match conv with Convert g => prepared myID (g cfg) | _ => True end.
Proof.
  intros Hin Ht Hp. unfold migrations in Hin.
  repeat (apply elem_of_cons in Hin as [[= -> ->]|Hin]); try done; try lia.
  all: try (apply map_folders_prepared; [keep_folder|done]).
  all: try (apply map_options_prepared; [apply notify_ok|done]).
  all: try (by keep_options).
  - keep_options. cbn [set_field opReconnectIntervalS]. lia.
  - eapply prepared_same; [..|apply (map_folders_prepared _ _ _ writes_folder Hp)]; try done; apply Hp.
  - eapply prepared_same; [..|exact Hp]; try done. destruct Hp as [_ _ _ _ _ _ _ _ _ _ [H1 H2 H3 H4]]. by constructor.
  - eapply prepared_same; [..|eapply (map_devices_prepared (λ d, d <| dcDeprecatedPendingFolders := [] |>)); [done|exact Hp]];
      try done. apply Hp.
  - keep_options. all: by destruct (_ || _).
  - apply map_folders_prepared; [|done]. intros f. destruct (_ =? 0); [done|]. revert f. keep_folder.
  - apply map_folders_prepared; [|done]. intros f. cbv zeta. destruct (bool_decide _); revert f; keep_folder.
  - apply map_folders_prepared; [keep_folder|]. keep_options.
  - keep_options. all: by destruct (upgradesPossible env).
  - by apply elem_of_nil in Hin.
Qed.

Lemma version_prepared v cfg : prepared myID cfg → prepared myID (cfg <| cfVersion := v |>).
Proof. intros Hp. eapply prepared_same; [..|exact Hp]; try done. apply Hp. Qed.

Lemma migration_apply_prepared ms cfg log :
  (∀ m, m ∈ ms → m ∈ migrations env) → prepared myID cfg → 14 ≤ cfVersion cfg →
  let '(cfg', _) := fold_left migration_apply ms (cfg, log) in
  prepared myID cfg' ∧ cfVersion cfg ≤ cfVersion cfg' ∧ (∀ m, m ∈ ms → m.1 ≤ cfVersion cfg').
Proof.
  revert cfg log. induction ms as [|[t conv] ms IH]; intros cfg log Hms Hp Hv.
  { cbn. split_and!; [done|lia|set_solver]. }
  cbn [fold_left]. destruct (migration_apply (cfg, log) (t, conv)) as [cfg1 log1] eqn:E.
  assert (H1 : prepared myID cfg1 ∧ cfVersion cfg ≤ cfVersion cfg1 ∧ t ≤ cfVersion cfg1).
  { unfold migration_apply in E. rewrite Z.geb_leb in E. destruct (Z.leb_spec t (cfVersion cfg)).
    { injection E as <- _. split_and!; [done|lia|lia]. }
    pose proof (migration_prepared t conv cfg (Hms _ ltac:(left)) ltac:(lia) Hp) as Hc.
    destruct conv; injection E as <- _; (split_and!; [apply version_prepared; done|cbn; lia..]). }
  destruct H1 as (Hp1 & Hle & Ht). specialize (IH cfg1 log1 ltac:(intros; apply Hms; by right) Hp1 ltac:(lia)).
  destruct (fold_left _ _ _) as [cfg2 log2]. destruct IH as (Hp2 & Hle2 & Hall). split_and!; [done|lia|].
  intros m [->|Hm]%elem_of_cons; [cbn; lia|auto].
Qed.

Lemma applyMigrations_prepared cfg :
  prepared myID cfg → 14 ≤ cfVersion cfg →
  prepared myID (applyMigrations env cfg).1 ∧ CurrentVersion ≤ cfVersion (applyMigrations env cfg).1.
Proof.
  intros Hp Hv. unfold applyMigrations, migrationSet_apply.
  set (ms := sort_by _ (migrations env)).
  assert (Hms : ∀ m, m ∈ ms ↔ m ∈ migrations env) by (intros m; unfold ms; by rewrite sort_by_perm).
  pose proof (migration_apply_prepared ms cfg [] ltac:(intros; by apply Hms) Hp Hv) as H.
  destruct (fold_left _ _ _) as [cfg' log]. destruct H as (Hp' & _ & Hall). split; [done|].
  apply (Hall (CurrentVersion, Convert migrateToConfigV52)). apply Hms. left.
Qed.
End preserve.

(** ** [prepare] establishes it *)
Section prepare_spec.
Context (env : Environment) (Horder : ∀ l, map_order env l ≡ₚ l) (myID : list Z).

Lemma prepareDeviceList_spec cfg :
  let cfg1 := ensureMyDevice env cfg myID in
  let devices := sort_by (by_key dcDeviceID) (ensureNoDuplicateOrEmptyIDDevices (cfDevices cfg1)) in
  key_sorted dcDeviceID devices ∧ (∀ d, d ∈ devices → dcDeviceID d ≠ EmptyDeviceID) ∧
  (myID ≠ EmptyDeviceID → myID ∈ dcDeviceID <$> devices) ∧
  (∀ i, i ∈ dcDeviceID <$> cfDevices cfg → i ≠ EmptyDeviceID → i ∈ dcDeviceID <$> devices).
Proof.
  intros cfg1 devices.
  pose proof (compact_all dcDeviceID (λ seen id, bool_decide (id ∈ seen) || bool_decide (id = EmptyDeviceID))
    (cfDevices cfg1)) as Hc.
  pose proof Hc as (H1 & H2 & H3)%(compacted_unique _ _ (λ i, bool_decide (i = EmptyDeviceID))); [|done].
  fold (ensureNoDuplicateOrEmptyIDDevices (cfDevices cfg1)) in *.
  assert (Hids : ∀ i, i ∈ dcDeviceID <$> cfDevices cfg1 → i ≠ EmptyDeviceID → i ∈ dcDeviceID <$> devices).
  { intros i Hi Hne. unfold devices. rewrite sort_by_perm. destruct (H3 i Hi); [by apply bool_decide_eq_false|set_solver|done]. }
  split_and!.
  - by apply sort_by_key_sorted.
  - intros d Hd. unfold devices in Hd. rewrite sort_by_perm in Hd. destruct (H2 (dcDeviceID d)) as [_ He].
    { by apply list_elem_of_fmap_2. } by apply bool_decide_eq_false in He.
  - intros Hne. apply Hids; [|done]. unfold cfg1, ensureMyDevice. rewrite bool_decide_false by done.
    destruct (existsb _ _) eqn:Hx.
    + apply existsb_exists in Hx as (d & Hd & <-%bool_decide_eq_true). apply list_elem_of_fmap_2. by apply list_elem_of_In.
    + cbn [set_field cfDevices]. rewrite fmap_app. apply elem_of_app. right. cbn. left.
  - intros i Hi Hne. apply Hids; [|done]. unfold cfg1, ensureMyDevice.
    destruct (bool_decide _); [done|]. destruct (existsb _ _); [done|].
    cbn [set_field cfDevices]. rewrite fmap_app. apply elem_of_app. by left.
Qed.

Lemma OptionsConfiguration_prepare_ok o b : options_ok (OptionsConfiguration_prepare env o b).
Proof.
  constructor.
  - change (5 ≤ if opReconnectIntervalS o <? 5 then 5 else opReconnectIntervalS o). case_match; zb; lia.
  - change (0 ≤ if opConnectionLimitEnough o <? 0 then 0 else opConnectionLimitEnough o). case_match; zb; lia.
  - change (0 ≤ if opConnectionLimitMax o <? 0 then 0 else opConnectionLimitMax o). case_match; zb; lia.
  - change (opRawListenAddresses _) with (UniqueTrimmedStrings <$> fill_nil (opRawListenAddresses o)).
    destruct (opRawListenAddresses o) as [l|]; eexists; (split; [reflexivity|]); apply UniqueTrimmed_loop.
Qed.

Lemma filter_listen_ok o prefix :
  options_ok o →
  options_ok (o <| opRawListenAddresses := (λ l, filterURLSchemePrefix env l prefix) <$> opRawListenAddresses o |>).
Proof.
  intros [H1 H2 H3 (l & E & Hl)]. constructor; [exact H1|exact H2|exact H3|].
  exists (filterURLSchemePrefix env l prefix). split; [cbn [opRawListenAddresses set_field]; by rewrite E|].
  by apply NoDup_filter.
Qed.

Lemma fill_listen_ok o a s :
  options_ok o → options_ok (o <| opRawListenAddresses := Some (default [] (opRawListenAddresses o)) |>
    <| opRawGlobalAnnServers := a |> <| opRawStunServers := s |>).
Proof. intros [H1 H2 H3 (l & E & Hl)]. constructor; [exact H1|exact H2|exact H3|]. exists l. by cbn; rewrite E. Qed.

Lemma not_ignored d i :
  DeviceConfiguration_IgnoredFolder d i = false ↔ ∀ f, f ∈ dcIgnoredFolders d → ofID f ≠ i.
Proof.
  unfold DeviceConfiguration_IgnoredFolder. rewrite <-not_true_iff_false, existsb_exists.
  setoid_rewrite bool_decide_eq_true. setoid_rewrite <-list_elem_of_In. naive_solver.
Qed.

(** The state before the migrations. *)
Definition core (cfg : Configuration) (devices : list DeviceConfiguration) (folders : list FolderConfiguration)
    (defaults : Defaults) : Configuration :=
  let gui := GUIConfiguration_prepare env (cfGUI cfg) in
  let set := bool_decide (guUser gui ≠ "") && bool_decide (guPassword gui ≠ "") in
  FillNilExceptDeprecated (removeDeprecatedProtocols env (MkConfiguration (cfVersion cfg) (sort_by (by_key (string_key ∘ fcID)) folders)
    ((λ d, DeviceConfiguration_prepare (map_order env) d (sharedFolders folders (dcDeviceID d))) <$> devices)
    gui (cfLDAP cfg) (OptionsConfiguration_prepare env (cfOptions cfg) set)
    (filter (λ dev, absent (DeviceMap devices) (odID dev) = true) (cfIgnoredDevices cfg))
    (cfDeprecatedPendingDevices cfg) defaults)).

Lemma prepare_core cfg :
  let devices := sort_by (by_key dcDeviceID) (ensureNoDuplicateOrEmptyIDDevices (cfDevices (ensureMyDevice env cfg myID))) in
  (valid_folders ∅ (cfFolders cfg) ∧ ∃ folders defaults,
     Configuration_prepare env cfg myID = Ok (applyMigrations env (core cfg devices folders defaults)) ∧
     fcID <$> folders = fcID <$> cfFolders cfg ∧
     ∀ f', f' ∈ folders → folder_ok (DeviceMap devices) myID f' ∧ ∃ f, f ∈ cfFolders cfg ∧ same_folder f' f) ∨
  (¬ valid_folders ∅ (cfFolders cfg) ∧ ∃ e, Configuration_prepare env cfg myID = Err e).
Proof.
  intros devices. destruct (prepareDeviceList_spec cfg) as (Hs & Hne & Hme & _). fold devices in Hs, Hne, Hme.
  assert (Hknown : myID = EmptyDeviceID ∨ is_Some (DeviceMap devices !! myID)).
  { destruct (decide (myID = EmptyDeviceID)); [by left|right]. apply DeviceMap_is_Some. auto. }
  assert (Ec : ensureMyDevice env cfg myID = cfg <| cfDevices := cfDevices (ensureMyDevice env cfg myID) |>).
  { unfold ensureMyDevice. destruct cfg. destruct (bool_decide _); [done|]. by destruct (existsb _ _). }
  unfold Configuration_prepare, prepareFoldersAndDevices, prepareDeviceList, prepareFolders. fold devices.
  cbv zeta beta iota. rewrite Ec. change (cfFolders (_ <| cfDevices := devices |>)) with (cfFolders cfg).
  destruct (prepareFolders_loop_spec (DeviceMap devices) myID ∅ (cfFolders cfg) Hknown) as
    [[Hv (folders & -> & Hids & Hall)]|[Hv [e ->]]]; [left|right; split; [done|by exists e]].
  split; [done|]. exists folders. cbn [mbind go_bind]. unfold Defaults_prepare.
  match goal with |- context [FolderConfiguration_prepare ?e ?f ?m] =>
    destruct (folder_prepare_ok e m f Hknown) as (f' & -> & _) end.
  cbn [mbind go_bind]. eexists. split; [reflexivity|done].
Qed.

Lemma core_prepared cfg folders defaults :
  let devices := sort_by (by_key dcDeviceID) (ensureNoDuplicateOrEmptyIDDevices (cfDevices (ensureMyDevice env cfg myID))) in
  valid_folders ∅ (cfFolders cfg) → fcID <$> folders = fcID <$> cfFolders cfg →
  (∀ f', f' ∈ folders → folder_ok (DeviceMap devices) myID f' ∧ ∃ f, f ∈ cfFolders cfg ∧ same_folder f' f) →
  prepared myID (core cfg devices folders defaults).
Proof.
  intros devices [Hv Hnd] Hids Hall. destruct (prepareDeviceList_spec cfg) as (Hs & Hne & Hme & _).
  fold devices in Hs, Hne, Hme. set (dev := λ d, DeviceConfiguration_prepare (map_order env) d (sharedFolders folders (dcDeviceID d))).
  assert (Hdev : ∀ d, device_ok_config (sharedFolders folders (dcDeviceID d)) (dev d) ∧ dcDeviceID (dev d) = dcDeviceID d ∧
            dcUntrusted (dev d) = dcUntrusted d).
  { intros d. destruct (device_prepare_ok (map_order env) d (sharedFolders folders (dcDeviceID d)) Horder) as (? & ? & ? & _). done. }
  set (opts := cfOptions (core cfg devices folders defaults)).
  assert (Ho : options_ok opts) by apply fill_listen_ok, filter_listen_ok, OptionsConfiguration_prepare_ok.
  set (X := MkConfiguration (cfVersion cfg) (sort_by (by_key (string_key ∘ fcID)) folders)
    (dev <$> devices) (cfGUI cfg) (cfLDAP cfg) opts
    (filter (λ dev, absent (DeviceMap devices) (odID dev) = true) (cfIgnoredDevices cfg)) [] defaults).
  set (kcp := λ d, d <| dcAddresses := filterURLSchemePrefix env (dcAddresses d) "kcp" |>).
  apply (prepared_same _ (X <| cfDevices := kcp <$> cfDevices X |>)); [done..|].
  apply map_devices_prepared; [done|].
  assert (Hid : ∀ d, dcDeviceID (dev d) = dcDeviceID d) by (intros d; apply Hdev).
  assert (Hf : ∀ f, f ∈ cfFolders X ↔ f ∈ folders) by (intros f; cbn; by rewrite sort_by_perm).
  constructor; cbn [X cfDevices cfIgnoredDevices cfOptions cfFolders]; try done.
  - by apply key_sorted_fmap.
  - intros ? (d & -> & Hd)%list_elem_of_fmap. rewrite Hid. auto.
  - by rewrite ids_fmap.
  - intros ? (d & -> & Hd)%list_elem_of_fmap. apply Hdev.
  - intros ? (d & -> & Hd)%list_elem_of_fmap. apply (Hdev d).
  - intros ? f (d & -> & Hd)%list_elem_of_fmap Hff Hin. apply Hf in Hff. rewrite Hid in Hin.
    apply not_ignored. intros g Hg E. destruct (Hdev d) as [[_ _ _ Hns _] _]. apply (Hns g Hg).
    rewrite E. unfold sharedFolders. apply list_elem_of_fmap_2. by apply list_elem_of_filter.
  - apply sort_by_key_sorted. rewrite (list_fmap_compose fcID string_key), Hids.
    apply NoDup_fmap; [intros x y; apply string_key_inj|done].
  - intros f Hff%Hf. destruct (Hall f Hff) as [_ (g & Hg & -> & -> & _)]. by destruct (Hv g Hg) as (? & ? & _).
  - intros f Hff%Hf. eapply folder_ok_ext; [|apply (Hall f Hff)]. intros i. rewrite DeviceMap_fmap by done.
    destruct (DeviceMap devices !! i) as [d|]; [|done]. cbn. by destruct (Hdev d) as (_ & _ & ->).
  - intros d [Hd _]%list_elem_of_filter. rewrite ids_fmap by done. intros Hin%DeviceMap_is_Some%absent_false. congruence.
Qed.

Lemma prepare_form cfg cfg' log :
  Configuration_prepare env cfg myID = Ok (cfg', log) → 14 ≤ cfVersion cfg →
  prepared myID cfg' ∧ CurrentVersion ≤ cfVersion cfg'.
Proof.
  intros E Hver. destruct (prepare_core cfg) as [(Hv & folders & defaults & E' & Hids & Hall)|[_ [e E']]]; [|congruence].
  rewrite E in E'. injection E' as E'.
  replace cfg' with (cfg', log).1 by done. rewrite E'. apply applyMigrations_prepared; [|done]. by apply core_prepared.
Qed.

Lemma prepare_no_panic cfg p : Configuration_prepare env cfg myID ≠ Panic p.
Proof. destruct (prepare_core cfg) as [(_ & ? & ? & -> & _)|[_ [? ->]]]; done. Qed.

(** C25. [prepare] fails exactly when a folder has no name or no path or two folders
    share a name, never panics, and establishes the form the program relies on for
    every configuration from version 14 on, at the current version: devices and
    folders are sorted without duplicates, the local device is among them, folders
    are shared with known devices only and openly with trusted ones only, numbers
    are in range, and nothing that is configured is ignored. *)
Theorem prepare_prepared cfg :
  (valid_folders ∅ (cfFolders cfg) ∧ ∃ cfg' log, Configuration_prepare env cfg myID = Ok (cfg', log) ∧
     (14 ≤ cfVersion cfg → prepared myID cfg' ∧ CurrentVersion ≤ cfVersion cfg')) ∨
  (¬ valid_folders ∅ (cfFolders cfg) ∧ ∃ e, Configuration_prepare env cfg myID = Err e).
Proof.
  destruct (prepare_core cfg) as [(Hv & folders & defaults & E & _)|]; [left|by right].
  split; [done|]. destruct (applyMigrations env _) as [cfg' log] in E. exists cfg', log.
  split; [exact E|]. by eapply prepare_form.
Qed.
End prepare_spec.

(** ** Migrations *)
Section migrations_spec.
Context (env : Environment).

Lemma migrations_distinct : NoDup (migrations env).*1.
Proof. change (NoDup [52; 51; 50; 37; 36; 35; 34; 33; 32; 31; 30; 29; 28; 27; 26; 25; 24; 23; 22; 21; 20; 19; 18; 17;
  16; 15; 14; 13; 12; 11]). by apply (bool_decide_unpack _). Qed.

Lemma sort_by_unique {A} (l k : list (Z * A)) :
  NoDup l.*1 → l ≡ₚ k → sort_by (λ a b, a.1 <? b.1) l = sort_by (λ a b, a.1 <? b.1) k.
Proof.
  intros Hnd Hp. set (lt := λ a b : Z * A, a.1 <? b.1).
  assert (Hs : ∀ l, StronglySorted (λ x y, lt y x = false) (sort_by lt l)).
  { intros l'. apply sort_by_sorted; unfold lt.
    - intros x y H. zb. apply Z.ltb_ge. lia.
    - intros x y z H1 H2. zb. apply Z.ltb_ge. lia. }
  eapply StronglySorted_unique_strong; [|apply Hs|apply Hs|by rewrite !sort_by_perm].
  intros [x a] [y b] Hx Hy H1 H2. unfold lt in *. cbn in *. zb. rewrite sort_by_perm in Hx, Hy. rewrite <-Hp in Hy.
  assert (x = y) as -> by lia. f_equal.
  apply list_elem_of_lookup in Hx as [i Hi], Hy as [j Hj].
  assert (i = j) as ->; [|congruence].
  apply (NoDup_lookup l.*1 i j y); [done|..]; rewrite list_lookup_fmap; [by rewrite Hi|by rewrite Hj].
Qed.

(** The version only grows, up to the last target. *)
Lemma migration_fold_version ms cfg log :
  cfVersion (fold_left migration_apply ms (cfg, log)).1 = foldl Z.max (cfVersion cfg) ms.*1.
Proof.
  revert cfg log. induction ms as [|[t conv] ms IH]; intros cfg log; [done|]. cbn [fold_left fmap list_fmap foldl fst].
  replace (Z.max (cfVersion cfg) t) with (cfVersion (migration_apply (cfg, log) (t, conv)).1).
  - destruct (migration_apply _ _). apply IH.
  - unfold migration_apply. rewrite Z.geb_leb. destruct (Z.leb_spec t (cfVersion cfg)); [cbn; lia|].
    destruct conv; cbn; lia.
Qed.

Lemma migration_fold_done ms cfg log :
  (∀ m, m ∈ ms → m.1 ≤ cfVersion cfg) → fold_left migration_apply ms (cfg, log) = (cfg, log).
Proof.
  induction ms as [|[t conv] ms IH]; intros Hle; [done|]. cbn [fold_left]. unfold migration_apply at 2.
  rewrite Z.geb_leb, (proj2 (Z.leb_le _ _)); [|apply (Hle (t, conv)); left]. apply IH. intros m Hm. apply Hle. by right.
Qed.

(** Running a conversion and setting the version, whatever the version was. *)
Definition migrated (st : Configuration * list disk_action) (m : Z * conversion) : Configuration * list disk_action :=
  let '(cfg, log) := convert_with m.2 st in (cfg <| cfVersion := m.1 |>, log).
Definition due (v : Z) : list (Z * conversion) → list (Z * conversion) := filter (λ m, v < m.1).

Lemma StronglySorted_filter {A} (R : A → A → Prop) (P : A → Prop) `{∀ x, Decision (P x)} l :
  StronglySorted R l → StronglySorted R (filter P l).
Proof.
  induction 1 as [|x l Hl IH Hx]; [constructor|]. rewrite filter_cons. destruct (decide (P x)); [|done].
  constructor; [done|]. apply Forall_forall. intros y [_ Hy]%list_elem_of_filter. rewrite Forall_forall in Hx. by apply Hx.
Qed.
Lemma due_all v ms : Forall (λ m, v < m.1) ms → due v ms = ms.
Proof. induction 1 as [|m ms Hm _ IH]; [done|]. unfold due in *. rewrite filter_cons_True by done. by f_equal. Qed.
(** In ascending order just the later ones run, each once. *)
Lemma migration_fold_due ms cfg log :
  StronglySorted (λ a b, a.1 < b.1) ms → fold_left migration_apply ms (cfg, log) = fold_left migrated (due (cfVersion cfg) ms) (cfg, log).
Proof.
  intros Hs. revert cfg log. induction Hs as [|[t conv] ms Hs IH Hlt]; intros cfg log; [done|].
  cbn [fold_left]. unfold migration_apply at 2. rewrite Z.geb_leb. destruct (Z.leb_spec t (cfVersion cfg)).
  - rewrite IH. unfold due. rewrite filter_cons_False by (cbn; lia). done.
  - unfold due at 1. rewrite filter_cons_True by (cbn; lia). cbn [fold_left]. fold (due (cfVersion cfg) ms).
    rewrite (due_all (cfVersion cfg)) by (eapply Forall_impl; [exact Hlt|]; intros m Hm; cbn in Hm; lia).
    change (migrated (cfg, log) (t, conv)) with (let '(cfg, log) := convert_with conv (cfg, log) in (cfg <| cfVersion := t |>, log)).
    destruct (convert_with conv (cfg, log)) as [cfg1 log1]. rewrite IH. by rewrite due_all.
Qed.
Lemma sort_by_ascending ms : NoDup ms.*1 → StronglySorted (λ a b : Z * conversion, a.1 < b.1) (sort_by (λ a b, a.1 <? b.1) ms).
Proof.
  intros Hnd. assert (Hs : StronglySorted (λ x y : Z * conversion, (y.1 <? x.1) = false) (sort_by (λ a b, a.1 <? b.1) ms)).
  { apply (sort_by_sorted (λ a b : Z * conversion, a.1 <? b.1)); intros; zb; apply Z.ltb_ge; lia. }
  rewrite <-(sort_by_perm (λ a b : Z * conversion, a.1 <? b.1) ms) in Hnd. revert Hnd.
  induction Hs as [|m l Hs IH Hm]; intros Hnd; constructor; rewrite fmap_cons in Hnd; apply NoDup_cons in Hnd as [Hin Hnd]; [by apply IH|].
  rewrite Forall_forall in Hm |- *. intros m' Hm'. specialize (Hm m' Hm'). zb.
  assert (m.1 ≠ m'.1); [|lia]. intros E. apply Hin. rewrite E. by apply list_elem_of_fmap_2.
Qed.

Lemma migrationSet_run ms cfg : NoDup ms.*1 →
  ∃ run, run ≡ₚ due (cfVersion cfg) ms ∧ StronglySorted (λ a b, a.1 < b.1) run ∧
    migrationSet_apply ms cfg = fold_left migrated run (cfg, []).
Proof.
  intros Hs%sort_by_ascending. exists (due (cfVersion cfg) (sort_by (λ a b, a.1 <? b.1) ms)). split_and!.
  - unfold due. by rewrite sort_by_perm.
  - by apply StronglySorted_filter.
  - rewrite <-migration_fold_due by done. reflexivity.
Qed.
Lemma applyMigrations_run cfg : ∃ run, run ≡ₚ due (cfVersion cfg) (migrations env) ∧ StronglySorted (λ a b, a.1 < b.1) run ∧
  applyMigrations env cfg = fold_left migrated run (cfg, []).
Proof. apply migrationSet_run, migrations_distinct. Qed.

(** C31. The migrations that run are those whose target is above the version of the
    configuration, each of them once, in ascending order of the targets however they are
    listed; they bring any version to the current one (a newer one stays), and a second
    run does nothing. *)
Theorem applyMigrations_spec cfg :
  let '(cfg', log) := applyMigrations env cfg in
  (∃ run, run ≡ₚ due (cfVersion cfg) (migrations env) ∧ StronglySorted (λ a b, a.1 < b.1) run ∧
    (cfg', log) = fold_left migrated run (cfg, [])) ∧
  cfVersion cfg' = Z.max (cfVersion cfg) CurrentVersion ∧
  applyMigrations env cfg' = (cfg', []) ∧
  (CurrentVersion ≤ cfVersion cfg → cfg' = cfg ∧ log = []) ∧
  (∀ ms, ms ≡ₚ migrations env → migrationSet_apply ms cfg = (cfg', log)).
Proof.
  assert (Hmax : ∀ m, m ∈ migrations env → m.1 ≤ CurrentVersion).
  { intros m Hm. assert (Hin : m.1 ∈ (migrations env).*1) by by apply list_elem_of_fmap_2.
    revert Hin. generalize m.1. apply Forall_forall. unfold CurrentVersion. repeat constructor; cbn; lia. }
  assert (Hdone : ∀ c, CurrentVersion ≤ cfVersion c → applyMigrations env c = (c, [])).
  { intros c Hc. apply migration_fold_done. intros m Hm. rewrite sort_by_perm in Hm. specialize (Hmax m Hm). lia. }
  destruct (applyMigrations env cfg) as [cfg' log] eqn:E.
  assert (Hv : cfVersion cfg' = Z.max (cfVersion cfg) CurrentVersion).
  { replace cfg' with (applyMigrations env cfg).1 by by rewrite E. unfold applyMigrations, migrationSet_apply.
    rewrite migration_fold_version. change ((sort_by (λ a b : Z * conversion, a.1 <? b.1) (migrations env)).*1) with
      [11; 12; 13; 14; 15; 16; 17; 18; 19; 20; 21; 22; 23; 24; 25; 26; 27; 28; 29; 30; 31; 32; 33; 34; 35; 36; 37; 50; 51; 52].
    cbn [foldl]. unfold CurrentVersion. lia. }
  split_and!; [|done| | |].
  - destruct (applyMigrations_run cfg) as (run & H1 & H2 & H3). exists run. split_and!; [done..|]. by rewrite <-E, <-H3.
  - apply Hdone. lia.
  - intros Hc. rewrite Hdone in E by done. by injection E as <- <-.
  - intros ms Hms. rewrite <-E. unfold applyMigrations, migrationSet_apply. f_equal. symmetry.
    apply sort_by_unique; [apply migrations_distinct|by rewrite Hms].
Qed.
End migrations_spec.

(** ** Who remains in the configuration *)
Section identities.
Context (env : Environment).

Definition device_ids (cfg : Configuration) : list (list Z) := dcDeviceID <$> cfDevices cfg.

Lemma migration_ids t conv cfg :
  (t, conv) ∈ migrations env → match conv with Convert g => device_ids (g cfg) = device_ids cfg | _ => True end.
Proof.
  intros Hin. unfold migrations in Hin.
  repeat (apply elem_of_cons in Hin as [[= -> ->]|Hin]; [try reflexivity|]).
  - unfold device_ids, migrateToConfigV33. cbn [cfDevices set_field]. by rewrite ids_fmap.
  - unfold device_ids, migrateToConfigV12, map_folders, map_options. cbn [cfDevices set_field]. by rewrite ids_fmap.
  - by apply elem_of_nil in Hin.
Qed.

Lemma applyMigrations_ids cfg : device_ids (applyMigrations env cfg).1 = device_ids cfg.
Proof.
  unfold applyMigrations, migrationSet_apply. set (ms := sort_by _ (migrations env)).
  assert (Hms : ∀ m, m ∈ ms → m ∈ migrations env) by (intros m; unfold ms; by rewrite sort_by_perm).
  generalize (@nil disk_action) as log. revert cfg Hms. generalize ms. clear ms.
  induction ms as [|[t conv] ms IH]; intros cfg Hms log; [done|]. cbn [fold_left].
  destruct (migration_apply (cfg, log) (t, conv)) as [cfg1 log1] eqn:E.
  rewrite IH by (intros; apply Hms; by right). unfold migration_apply in E.
  pose proof (migration_ids t conv cfg (Hms _ ltac:(left))) as Hc.
  destruct (_ >=? _); [by injection E as <- _|]. by destruct conv; injection E as <- _.
Qed.

Lemma remove_entry_keys {A K} (key : A → K) `{EqDecision K} i l :
  NoDup (key <$> l) → i ∉ key <$> remove_entry (λ a, bool_decide (key a = i)) l.
Proof.
  induction l as [|a l IH]; intros Hnd; [set_solver|]. rewrite fmap_cons in Hnd. apply NoDup_cons in Hnd as [Ha Hnd].
  cbn [remove_entry]. case_bool_decide as E; [by rewrite <-E|]. rewrite fmap_cons. set_solver.
Qed.

Lemma remove_entry_incl {A} p (l : list A) a : a ∈ remove_entry p l → a ∈ l.
Proof.
  induction l as [|b l IH]; cbn [remove_entry]; [done|]. destruct (p b); [by right|]. rewrite !elem_of_cons. tauto.
Qed.

(** The devices after [prepare] are those before, and the local one. *)
Lemma prepare_ids myID cfg cfg' log i :
  Configuration_prepare env cfg myID = Ok (cfg', log) →
  i ∈ device_ids cfg' ↔ i ≠ EmptyDeviceID ∧ (i ∈ device_ids cfg ∨ i = myID).
Proof.
  intros E. destruct (prepare_core env myID cfg) as [(Hv & folders & defaults & E' & _)|[_ [e E']]]; [|congruence].
  rewrite E in E'. injection E' as E'.
  set (devices := sort_by _ _) in E'.
  destruct (prepareDeviceList_spec env myID cfg) as (Hs & Hne & Hme & Hall). fold devices in Hs, Hne, Hme, Hall.
  assert (Hids : device_ids cfg' = dcDeviceID <$> devices).
  { replace cfg' with (applyMigrations env (core env cfg devices folders defaults)).1 by by rewrite <-E'.
    rewrite applyMigrations_ids. unfold device_ids, core, removeDeprecatedProtocols, FillNilExceptDeprecated. cbn [cfDevices set_field].
    rewrite ids_fmap by done. rewrite ids_fmap; [done|]. intros d.
    by destruct (DeviceConfiguration_prepare_fields (map_order env) d (sharedFolders folders (dcDeviceID d))) as (_ & _ & _ & _ & _ & -> & _). }
  rewrite Hids. split.
  - intros Hi. split; [apply list_elem_of_fmap in Hi as (d & -> & Hd); auto|].
    unfold devices in Hi. rewrite sort_by_perm in Hi. apply list_elem_of_fmap in Hi as (d & -> & Hd).
    eapply (compacted_incl dcDeviceID) in Hd; [|apply compact_all]. unfold ensureMyDevice in Hd.
    destruct (bool_decide _); [left; by apply list_elem_of_fmap_2|].
    destruct (existsb _ _); [left; by apply list_elem_of_fmap_2|].
    cbn [set_field cfDevices] in Hd. apply elem_of_app in Hd as [Hd| ->%list_elem_of_singleton]; [left; by apply list_elem_of_fmap_2|by right].
  - intros [Hi [Hin| ->]]; auto.
Qed.

(** Removing a device removes every trace of it: after the change is prepared no
    folder is shared with it, whatever the folders said before. *)
Theorem removed_device_gone myID id cfg cfg' log :
  (∀ l, map_order env l ≡ₚ l) → 14 ≤ cfVersion cfg → NoDup (device_ids cfg) → id ≠ myID →
  Configuration_prepare env (RemoveDevice id cfg) myID = Ok (cfg', log) →
  (id ∉ device_ids cfg') ∧ (∀ f, f ∈ cfFolders cfg' → SharedWith f id = false) ∧
  (∀ i, i ∈ device_ids cfg → i ≠ id → i ≠ EmptyDeviceID → i ∈ device_ids cfg').
Proof.
  intros Horder Hver Hnd Hme E.
  assert (Hgone : id ∉ device_ids cfg').
  { rewrite (prepare_ids _ _ _ _ _ E). intros [_ [Hin|]]; [|done].
    exact (remove_entry_keys dcDeviceID id (cfDevices cfg) Hnd Hin). }
  split_and!; [done| |].
  - intros f Hf. apply bool_decide_eq_false. intros [dev Hdev].
    apply find_some in Hdev as [Hin%list_elem_of_In Hid%bool_decide_eq_true].
    destruct (prepare_form env Horder myID _ _ _ E Hver) as [Hp _]. destruct (fo_known _ _ _ (pr_folder _ _ Hp f Hf) dev Hin) as [d Hd].
    apply Hgone. rewrite <-Hid. apply DeviceMap_is_Some. eauto.
  - intros i Hi Hne He. apply (prepare_ids _ _ _ _ _ E). split; [done|]. left.
    clear E. revert Hi. unfold device_ids, RemoveDevice. cbn [set_field cfDevices].
    induction (cfDevices cfg) as [|d l IH]; [done|]. cbn [remove_entry]. rewrite fmap_cons, elem_of_cons.
    case_bool_decide as Ed; [by intros [->|]|]. rewrite fmap_cons, elem_of_cons. intros [->|Hi]; [by left|].
    right. by apply IH.
Qed.
End identities.

(** ** Replacing entries *)
Section set_entries_spec.
Context {A K : Type} `{Countable K} (key : A → K).

Definition entry (new : list A) (k : K) : option A := find (λ a, bool_decide (key a = k)) new.
Definition updated (new : list A) (e : A) : A := default e (entry new (key e)).

Lemma entry_key new k a : entry new k = Some a → a ∈ new ∧ key a = k.
Proof. intros [Ha%list_elem_of_In E%bool_decide_eq_true]%find_some. done. Qed.

Lemma entry_None new k : k ∉ key <$> new → entry new k = None.
Proof.
  intros Hk. destruct (entry new k) as [a|] eqn:E; [|done]. apply entry_key in E as [Ha <-].
  destruct Hk. by apply list_elem_of_fmap_2.
Qed.

Lemma indices_spec i l inds :
  NoDup (key <$> l) → (∀ k, k ∈ key <$> l → inds !! k = None) →
  ∀ k j, indices key i l inds !! k = Some j ↔
         inds !! k = Some j ∨ ∃ n, (key <$> l) !! n = Some k ∧ j = (i + n)%nat.
Proof.
  revert i inds. induction l as [|a l IH]; intros i inds Hnd Hfree k j; cbn [indices].
  { split; [by left|]. by intros [|(n & ? & _)]. }
  rewrite fmap_cons in Hnd. apply NoDup_cons in Hnd as [Ha Hnd]. rewrite IH; [|done|].
  - rewrite lookup_insert_Some. split.
    + intros [[[<- <-]|[Hne Hk]]|(n & Hn & ->)]; [right; exists 0%nat; split; [done|lia]|by left|].
      right. exists (S n). split; [done|lia].
    + intros [Hk|([|n] & Hn & ->)].
      * left. right. split; [|done]. intros E. rewrite Hfree in Hk; [done|]. rewrite <-E. left.
      * left. left. cbn in Hn. injection Hn as <-. split; [done|lia].
      * right. exists n. split; [done|lia].
  - intros k' Hk'. rewrite lookup_insert_ne by (intros <-; done). apply Hfree. by right.
Qed.

Lemma set_loop_spec inds entries filtered new :
  NoDup (key <$> entries) → NoDup (key <$> new) →
  (∀ k j, inds !! k = Some j ↔ (key <$> entries) !! j = Some k) →
  set_loop key inds entries filtered new =
    (updated new <$> entries, filtered ++ filter (λ a, key a ∉ key <$> entries) new).
Proof.
  revert entries filtered. induction new as [|a new IH]; intros entries filtered Hnd Hnew Hinds; cbn [set_loop].
  { rewrite app_nil_r. f_equal. symmetry. apply list_fmap_id. }
  rewrite fmap_cons in Hnew. apply NoDup_cons in Hnew as [Ha Hnew].
  destruct (inds !! key a) as [i|] eqn:Hi.
  - apply Hinds in Hi. assert (Hkeys : key <$> <[i := a]> entries = key <$> entries).
    { rewrite list_fmap_insert. by apply list_insert_id. }
    rewrite IH by (rewrite ?Hkeys; done). rewrite Hkeys, filter_cons_False.
    2: { intros Hn. apply Hn. by eapply list_elem_of_lookup_2. }
    f_equal. apply list_eq. intros j. rewrite !list_lookup_fmap.
    rewrite list_lookup_fmap in Hi. destruct (entries !! i) as [e|] eqn:He; [|done]. injection Hi as Hi.
    destruct (decide (i = j)) as [->|Hij].
    + rewrite list_lookup_insert_eq, He by (by eapply lookup_lt_Some). cbn. f_equal. unfold updated.
      rewrite entry_None by done. cbn. unfold entry. cbn. by rewrite bool_decide_true.
    + rewrite list_lookup_insert_ne by done. destruct (entries !! j) as [e'|] eqn:He'; [|done]. cbn. f_equal.
      unfold updated, entry. cbn. rewrite bool_decide_false; [done|]. intros E. apply Hij.
      eapply (NoDup_lookup (key <$> entries)); [done|by rewrite list_lookup_fmap, He|].
      rewrite list_lookup_fmap, He'. cbn. congruence.
  - assert (Hna : key a ∉ key <$> entries).
    { intros [j Hj]%list_elem_of_lookup. apply Hinds in Hj. congruence. }
    rewrite IH, filter_cons_True, <-(assoc_L (++)) by done. f_equal. apply list_fmap_ext. intros j e He.
    unfold updated, entry. cbn. rewrite bool_decide_false; [done|]. intros E. apply Hna. rewrite E.
    apply list_elem_of_fmap_2. by eapply list_elem_of_lookup_2.
Qed.

(** [SetDevices] and [SetFolders]: with one entry per identifier on both sides the
    loop over positions is the simultaneous replacement of the known entries, in
    their places, followed by the unknown ones in their order. *)
Theorem set_entries_spec entries new :
  NoDup (key <$> entries) → NoDup (key <$> new) →
  set_entries key entries new = (updated new <$> entries) ++ filter (λ a, key a ∉ key <$> entries) new ∧
  (∀ k, entry (set_entries key entries new) k = match entry new k with Some a => Some a | None => entry entries k end).
Proof.
  intros Hnd Hnew. assert (E : set_entries key entries new =
    (updated new <$> entries) ++ filter (λ a, key a ∉ key <$> entries) new).
  { unfold set_entries. rewrite set_loop_spec; [done..|]. intros k j.
    rewrite indices_spec by done. rewrite lookup_empty. split; [|by right; eauto].
    intros [?|(n & Hn & ->)]; done. }
  split; [done|]. rewrite E. intros k.
  assert (Happ : ∀ l1 l2, entry (l1 ++ l2) k = match entry l1 k with Some a => Some a | None => entry l2 k end).
  { intros l1 l2. unfold entry. induction l1 as [|x l1 IH]; cbn; [done|]. by destruct (bool_decide _). }
  assert (Hupd : entry (updated new <$> entries) k =
    match entry entries k with Some e => Some (updated new e) | None => None end).
  { clear E Hnd. unfold entry at 1 2. induction entries as [|e entries IH]; cbn [fmap list_fmap find]; [done|].
    replace (key (updated new e)) with (key e); [by destruct (bool_decide _)|].
    unfold updated. destruct (entry new (key e)) eqn:Ek; [|done]. apply entry_key in Ek as [_ Ek]. cbn. by rewrite Ek. }
  rewrite Happ, Hupd. destruct (entry entries k) as [e|] eqn:He.
  - apply entry_key in He as [_ He]. unfold updated. rewrite He. by destruct (entry new k).
  - assert (Hk : k ∉ key <$> entries).
    { intros (e & -> & Hin)%list_elem_of_fmap. unfold entry in He. eapply find_none in He; [|by apply list_elem_of_In].
      by apply bool_decide_eq_false in He. }
    clear E Hupd Happ Hnew. unfold entry. induction new as [|a new IH]; [done|]. cbn [find].
    rewrite filter_cons. case_decide as Hd; cbn [find]; case_bool_decide as Ea; try done.
    destruct Hk. by rewrite <-Ea.
Qed.
End set_entries_spec.

(** ** Examples *)

Definition sample_env : Environment := MkEnvironment "host" (λ n, "random") (λ l, l)
  (λ addr, Some (if HasPrefix addr "kcp" then "kcp" else "tcp")) (λ addr, addr) (λ h, h) (λ s, s) true.

Definition dev_id (n : Z) : list Z := replicate 31 0 ++ [n].

Definition sample_device_config (n : Z) : DeviceConfiguration := zeroDevice <| dcDeviceID := dev_id n |>.

Definition zero_size : Size := MkSize f64_zero "".
Definition sample_folder (id : string) (devices : list FolderDeviceConfiguration) : FolderConfiguration :=
  MkFolderConfiguration id "" "basic" "/data" FolderTypeSendReceive devices "" 3600 true (f64_of_Z 1) f64_zero
    false true zero_size (MkVersioningConfiguration "" ∅ 3600 "" "basic") 0 0 0 0 false 0 0 f64_zero 10 false false ""
    false 0 0 false 0 0 false false false false false false true (MkXattrFilter [] 1024 4096) false f64_zero 0 false.

Definition sample_options : OptionsConfiguration :=
  MkOptionsConfiguration None None true true 21027 "" 0 0 20 true 10 true true 60 30 10 0 0 "" "" false 1800 12 false
    24 false 5 false zero_size "" [] false 10 [] 0 "" true 0 "" true 180 20 None 0 true false [] false "" 0 0 10 20 30
    40 50 0 false 0 0 0 [] f64_zero 0.

Definition sample_gui : GUIConfiguration :=
  MkGUIConfiguration true "127.0.0.1:8384" "" "" "" 0 false false "" false "default" false false false 604800 "/".

Definition sample_share (n : Z) : FolderDeviceConfiguration := MkFolderDeviceConfiguration (dev_id n) EmptyDeviceID "".

(** Devices 2 (twice) and 3, of which 3 is not trusted, and two folders shared with
    them, with unknown device 9. *)
Definition sample_config (version : Z) : Configuration :=
  MkConfiguration version
    [sample_folder "b" [sample_share 2; sample_share 2; sample_share 9]; sample_folder "a" [sample_share 3]]
    [sample_device_config 2; (sample_device_config 3) <| dcUntrusted := true |>; sample_device_config 2]
    sample_gui (MkLDAPConfiguration "" "" 0 false "" "") sample_options [] []
    (MkDefaults (sample_folder "" []) zeroDevice []).

Lemma sample_valid version : valid_folders ∅ (cfFolders (sample_config version)).
Proof.
  split.
  - intros f Hf. repeat (apply elem_of_cons in Hf as [->|Hf]; [by split_and!|]). by apply elem_of_nil in Hf.
  - by apply (bool_decide_unpack _).
Qed.

Example sample_prepared :
  match Configuration_prepare sample_env (sample_config 37) (dev_id 1) with
  | Ok (cfg, _) => (cfVersion cfg, last <$> device_ids cfg, (λ f, (fcID f, last <$> shared_ids f)) <$> cfFolders cfg)
  | _ => (0, [], [])
  end = (52, [Some 1; Some 2; Some 3], [("a", [Some 1]); ("b", [Some 1; Some 2])]).
Proof. vm_compute. reflexivity. Qed.

Lemma prepare_prepared_witness :
  ∃ cfg' log, Configuration_prepare sample_env (sample_config 37) (dev_id 1) = Ok (cfg', log) ∧ prepared (dev_id 1) cfg'.
Proof.
  destruct (prepare_prepared sample_env ltac:(done) (dev_id 1) (sample_config 37)) as
    [(_ & cfg' & log & E & Hp)|[Hv _]].
  - exists cfg', log. split; [exact E|]. apply Hp. cbn. lia.
  - destruct (Hv (sample_valid 37)).
Defined.

Lemma folder_prepare_idempotent_witness :
  let existing := DeviceMap [sample_device_config 1; sample_device_config 2] in
  ∃ f, FolderConfiguration_prepare existing (sample_folder "b" [sample_share 2; sample_share 9]) (dev_id 1) = Ok f ∧
    fcDevices f = [sample_share 1; sample_share 2] ∧
    FolderConfiguration_prepare existing f (dev_id 1) = Ok f.
Proof.
  intros existing.
  assert (Hme : dev_id 1 = EmptyDeviceID ∨ is_Some (existing !! dev_id 1)).
  { right. eexists. vm_compute. reflexivity. }
  destruct (folder_prepare_ok existing (dev_id 1) (sample_folder "b" [sample_share 2; sample_share 9]) Hme)
    as (f & E & Hok & _).
  exists f. split; [exact E|]. split.
  - revert E. vm_compute. intros [= <-]. reflexivity.
  - apply (folder_prepare_idempotent existing (dev_id 1) f Hok Hme).
Defined.

Lemma removed_device_gone_witness :
  ∃ cfg' log,
    let cfg := (sample_config 37) <| cfDevices := [sample_device_config 2; sample_device_config 3] |> in
    Configuration_prepare sample_env (RemoveDevice (dev_id 2) cfg) (dev_id 1) = Ok (cfg', log) ∧
    (∀ f, f ∈ cfFolders cfg' → SharedWith f (dev_id 2) = false) ∧ dev_id 3 ∈ device_ids cfg'.
Proof.
  set (cfg := (sample_config 37) <| cfDevices := _ |>).
  destruct (Configuration_prepare sample_env (RemoveDevice (dev_id 2) cfg) (dev_id 1)) as [[cfg' log]| |] eqn:E;
    [|revert E; vm_compute; discriminate..].
  exists cfg', log. cbv zeta. split; [exact E|].
  destruct (removed_device_gone sample_env (dev_id 1) (dev_id 2) cfg cfg' log) as (_ & H1 & H2).
  - done.
  - cbn. lia.
  - by apply (bool_decide_unpack _).
  - done.
  - exact E.
  - split; [exact H1|]. apply H2; [|done..]. vm_compute. right. left.
Defined.

Lemma set_entries_spec_witness :
  set_entries fst [(1, "a"); (2, "b")] [(3, "c"); (2, "d"); (4, "e")] =
    [(1, "a"); (2, "d"); (3, "c"); (4, "e")].
Proof.
  destruct (set_entries_spec fst [(1, "a"); (2, "b")] [(3, "c"); (2, "d"); (4, "e")]) as [E _].
  - by apply (bool_decide_unpack _).
  - by apply (bool_decide_unpack _).
  - rewrite E. vm_compute. reflexivity.
Defined.

(** Addresses of removed protocols are dropped after empty lists of addresses were
    replaced: the device cannot be dialled until the configuration is prepared again. *)
Definition kcp_config : Configuration :=
  (sample_config 52) <| cfDevices := [(sample_device_config 2) <| dcAddresses := ["kcp://192.0.2.1:22020"] |>] |>.
Definition addresses_of (r : go (Configuration * list disk_action)) (id : list Z) : option (list string) :=
  match r with
  | Ok (cfg, _) => dcAddresses <$> Configuration_Device cfg id
  | _ => None
  end.

Example kcp_address_lost :
  addresses_of (Configuration_prepare sample_env kcp_config (dev_id 1)) (dev_id 2) = Some [] ∧
  addresses_of (let! r := Configuration_prepare sample_env kcp_config (dev_id 1) in
                Configuration_prepare sample_env r.1 (dev_id 1)) (dev_id 2) = Some ["dynamic"].
Proof. by vm_compute. Qed.

(** The migration to version 14 sets the type of every folder after the check that a
    device that is not trusted holds folders encrypted only. *)
Definition encrypted_config (version : Z) : Configuration :=
  (sample_config version) <| cfFolders := [(sample_folder "a" [sample_share 3]) <| fcType := FolderTypeReceiveEncrypted |>] |>.

Example migration_reopens :
  match Configuration_prepare sample_env (encrypted_config 13) (dev_id 1) with
  | Ok (cfg, _) =>
      option_map (λ f, (fcType f, SharedWith f (dev_id 3))) (Configuration_Folder cfg "a") = Some (FolderTypeSendReceive, true) ∧
      option_map dcUntrusted (Configuration_Device cfg (dev_id 3)) = Some true
  | _ => False
  end.
Proof. by vm_compute. Qed.
