(* ===== verification/ConfigWrapper.v ===== *)
(** * Changing the configuration while running ([src/lib/config/wrapper.go])

    All changes go through one goroutine: a caller submits a function to a bounded
    queue, the goroutine applies it to a copy, prepares the result, asks the
    verifiers, installs it and tells the subscribers; a timer writes the file, and so
    does the end of the goroutine, which may be started again.  The file gives the
    goroutine as steps and proves what holds after any sequence of them. *)
From stdpp Require Import functions.
From S2P Require Import Prelude GoLib Vector Base32 DeviceID Paths FolderConfig Config.
From Stdlib Require String.

Local Open Scope Z_scope.

(** ** Data *)

(** A subscriber is a [Committer] and may be a [Verifier]. *)
Record Committer := MkCommitter {
  sbName : Z;
  CommitConfiguration : Configuration → Configuration → bool;
  VerifyConfiguration : option (Configuration → Configuration → option string);
}.

Abbreviation ModifyFunction := (Configuration → Configuration).

Definition maxModifications : nat := 1000.
Definition errTooManyModifications : string := "too many concurrent config modifications".

(** [disk] is what the file holds, [saveTimerRunning] whether a write is due, [serving]
    whether the goroutine runs. *)
Record wrapper := MkWrapper {
  wcfg : Configuration;
  queue : list (Z * ModifyFunction);
  subs : list Committer;
  requiresRestart : bool;
  saveTimerRunning : bool;
  disk : option Configuration;
  serving : bool;
}.
#[export] Instance eta_wrapper : Eta wrapper := λ r,
  MkWrapper (wcfg r) (queue r) (subs r) (requiresRestart r) (saveTimerRunning r) (disk r) (serving r).

Section wrapper.
Context (env : Environment) (myID : list Z) (path : string).
(** [reflect.DeepEqual] *)
Context (DeepEqual : Configuration → Configuration → bool).

(** ** Operations *)

Definition Wrap (cfg : Configuration) : wrapper := MkWrapper cfg [] [] false false None false.

Definition Subscribe (w : wrapper) (c : Committer) : wrapper * Configuration :=
  (w <| subs := subs w ++ [c] |>, wcfg w).
Definition Unsubscribe (w : wrapper) (name : Z) : wrapper :=
  w <| subs := remove_entry (λ c, sbName c =? name) (subs w) |>.

(** The non-blocking send of [modifyQueued]; [Some] is the error it returns at once. *)
Definition modifyQueued (w : wrapper) (caller : Z) (fn : ModifyFunction) : wrapper * option string :=
  if (length (queue w) <? maxModifications)%nat
  then (w <| queue := queue w ++ [(caller, fn)] |>, None)
  else (w, Some errTooManyModifications).

Fixpoint verify_all (subs : list Committer) (from to : Configuration) : option string :=
  match subs with
  | [] => None
  | sub :: subs =>
      match VerifyConfiguration sub with
      | None => verify_all subs from to
      | Some verify =>
          match verify from to with
          | Some err => Some err
          | None => verify_all subs from to
          end
      end
  end.

Definition notifyListeners (subs : list Committer) (from to : Configuration) : bool :=
  existsb (λ sub, negb (CommitConfiguration sub from to)) subs.

Definition replaceLocked (w : wrapper) (to : Configuration) : go (wrapper * option string) :=
  match Configuration_prepare env to myID with
  | Err err => Ok (w, Some err)
  | Panic p => Panic p
  | Ok (to, _) =>
      match verify_all (subs w) (wcfg w) to with
      | Some err => Ok (w, Some err)
      | None =>
          Ok (w <| wcfg := to |>
                <| requiresRestart := requiresRestart w || notifyListeners (subs w) (wcfg w) to |>, None)
      end
  end.

(** One round of [Serve] that takes a modification. *)
Definition Serve_modify (w : wrapper) : go (wrapper * option (Z * option string)) :=
  match queue w with
  | [] => Ok (w, None)
  | (caller, modifyFunc) :: rest =>
      let w := w <| queue := rest |> in
      let to := modifyFunc (wcfg w) in
      if DeepEqual (wcfg w) to then Ok (w, Some (caller, None))
      else
        let! r := replaceLocked w to in
        let '(w, err) := r in
        Ok (w <| saveTimerRunning := true |>, Some (caller, err))
  end.

(** [serveSave]: [ok] is whether writing the file succeeds. *)
Definition serveSave (w : wrapper) (ok : bool) : wrapper :=
  if bool_decide (path = "") then w
  else if ok then w <| disk := Some (wcfg w) |> else w.

Definition Serve_timer (w : wrapper) (ok : bool) : wrapper :=
  if saveTimerRunning w then (serveSave w ok) <| saveTimerRunning := false |> else w.

(** [Serve] begins without a timer, and writes the file when its context is done, between
    two rounds or while the subscribers still handle a change. *)
Definition Serve_start (w : wrapper) : wrapper :=
  if serving w then w else w <| serving := true |> <| saveTimerRunning := false |>.
Definition Serve_stop (w : wrapper) (ok : bool) : wrapper :=
  (serveSave w ok) <| serving := false |> <| saveTimerRunning := false |>.

(** Reads. *)
Definition IgnoredDevice (w : wrapper) (id : list Z) : bool :=
  existsb (λ d, bool_decide (odID d = id)) (cfIgnoredDevices (wcfg w)).
Definition IgnoredFolder (w : wrapper) (device : list Z) (folder : string) : bool :=
  match Configuration_Device (wcfg w) device with
  | None => false
  | Some dev => DeviceConfiguration_IgnoredFolder dev folder
  end.
Definition Wrapper_FolderPasswords (w : wrapper) (device : list Z) : gmap string string :=
  FolderPasswords (wcfg w) device.

(** ** Steps *)
Inductive event :=
  | EvSubscribe (c : Committer)
  | EvUnsubscribe (name : Z)
  | EvModify (caller : Z) (fn : ModifyFunction)
  | EvStart
  | EvServe
  | EvTimer (ok : bool)
  | EvStop (ok : bool).

(** What callers are told: the result of a change, or that the queue is full. *)
Definition step (w : wrapper) (e : event) : go (wrapper * list (Z * option string)) :=
  match e with
  | EvSubscribe c => Ok ((Subscribe w c).1, [])
  | EvUnsubscribe name => Ok (Unsubscribe w name, [])
  | EvModify caller fn =>
      let '(w, err) := modifyQueued w caller fn in
      Ok (w, match err with None => [] | Some _ => [(caller, err)] end)
  | EvStart => Ok (Serve_start w, [])
  | EvServe => if serving w then let! r := Serve_modify w in Ok (r.1, option_list r.2) else Ok (w, [])
  | EvTimer ok => Ok (if serving w then Serve_timer w ok else w, [])
  | EvStop ok => Ok (if serving w then Serve_stop w ok else w, [])
  end.

Fixpoint run (w : wrapper) (es : list event) : go (wrapper * list (Z * option string)) :=
  match es with
  | [] => Ok (w, [])
  | e :: es =>
      let! r := step w e in
      let! r' := run r.1 es in
      Ok (r'.1, r.2 ++ r'.2)
  end.

(** ** What holds after any sequence of steps *)

Lemma remove_entry_keep {A} (p : A → bool) (l : list A) a : a ∈ l → p a = false → a ∈ remove_entry p l.
Proof.
  induction l as [|b l IH]; [set_solver|]. cbn [remove_entry]. intros [->|Hin]%elem_of_cons Hp.
  - rewrite Hp. left.
  - destruct (p b); [done|]. right. auto.
Qed.

Definition fair_change (fn : ModifyFunction) : Prop := ∀ c, 14 ≤ cfVersion c → 14 ≤ cfVersion (fn c).
Definition fair_event (e : event) : Prop := match e with EvModify _ fn => fair_change fn | _ => True end.

Record wrapper_ok (w : wrapper) : Prop := {
  wo_prepared : prepared myID (wcfg w);
  wo_version : CurrentVersion ≤ cfVersion (wcfg w);
  wo_queue : (length (queue w) ≤ maxModifications)%nat;
  wo_fair : Forall (λ m, fair_change m.2) (queue w);
}.

Lemma replaceLocked_cases w to :
  (∃ err, replaceLocked w to = Ok (w, Some err)) ∨
  (∃ to' log, Configuration_prepare env to myID = Ok (to', log) ∧ verify_all (subs w) (wcfg w) to' = None ∧
     replaceLocked w to = Ok (w <| wcfg := to' |>
       <| requiresRestart := requiresRestart w || notifyListeners (subs w) (wcfg w) to' |>, None)).
Proof.
  unfold replaceLocked. destruct (Configuration_prepare env to myID) as [[to' log]|e|p] eqn:E.
  - destruct (verify_all (subs w) (wcfg w) to') eqn:Ev; [left|right]; eauto.
  - left. eauto.
  - by apply prepare_no_panic in E.
Qed.

(** A round of [Serve] keeps the configuration or installs a prepared, verified one. *)
Lemma Serve_modify_cases w :
  ∃ w' answer, Serve_modify w = Ok (w', answer) ∧ subs w' = subs w ∧ disk w' = disk w ∧ serving w' = serving w ∧ queue w' = tail (queue w) ∧
    (requiresRestart w = true → requiresRestart w' = true) ∧
    (saveTimerRunning w = true → saveTimerRunning w' = true) ∧
    (wcfg w' = wcfg w ∨
     saveTimerRunning w' = true ∧ ∃ caller fn log, head (queue w) = Some (caller, fn) ∧
       Configuration_prepare env (fn (wcfg w)) myID = Ok (wcfg w', log) ∧ verify_all (subs w) (wcfg w) (wcfg w') = None).
Proof.
  unfold Serve_modify. destruct (queue w) as [|[caller fn] rest] eqn:Hq.
  { eexists _, _. split; [done|]. rewrite Hq. split_and!; auto. }
  cbv zeta. change (wcfg (w <| queue := rest |>)) with (wcfg w).
  destruct (DeepEqual _ _); [eexists _, _; split; [done|];
    cbn [set_field wcfg queue subs requiresRestart saveTimerRunning disk serving tail head]; split_and!; auto|].
  destruct (replaceLocked_cases (w <| queue := rest |>) (fn (wcfg w))) as [[err ->]|(to' & log & E & Hv & ->)];
    cbn [mbind go_bind]; eexists _, _; (split; [reflexivity|]);
    cbn [set_field wcfg queue subs requiresRestart saveTimerRunning disk serving tail head]; split_and!; auto.
  - by intros ->.
  - right. split; [done|]. exists caller, fn, log. split; [reflexivity|]. split; [exact E|exact Hv].
Qed.

Lemma wrapper_step_ok (Horder : ∀ l, map_order env l ≡ₚ l) w e :
  wrapper_ok w → fair_event e → ∃ w' log, step w e = Ok (w', log) ∧ wrapper_ok w'.
Proof.
  intros [H1 H2 H3 H4] He. destruct e as [c|name|caller fn| | |ok|ok]; cbn [step].
  - eexists _, _. split; [done|]. by constructor.
  - eexists _, _. split; [done|]. by constructor.
  - unfold modifyQueued. destruct (Nat.ltb_spec (length (queue w)) maxModifications); eexists _, _; (split; [done|]); [|done].
    constructor; cbn [set_field wcfg queue]; [done|done| |].
    + rewrite length_app. cbn. lia.
    + apply Forall_app. split; [done|]. by constructor.
  - eexists _, _. split; [done|]. unfold Serve_start. destruct (serving w); by constructor.
  - destruct (serving w); [|by eexists _, _].
    destruct (Serve_modify_cases w) as (w' & answer & -> & _ & _ & _ & Hq & _ & _ & Hc). cbn [mbind go_bind].
    eexists _, _. split; [done|]. cbn [fst].
    assert (Hcfg : prepared myID (wcfg w') ∧ CurrentVersion ≤ cfVersion (wcfg w')).
    { destruct Hc as [->|(_ & c & fn & log & Hh & E & _)]; [done|].
      eapply prepare_form; [done|exact E|]. destruct (queue w) as [|m q]; [done|]. injection Hh as ->.
      apply Forall_cons in H4 as [Hf _]. apply Hf. unfold CurrentVersion in H2. lia. }
    constructor; [apply Hcfg|apply Hcfg|..]; rewrite Hq; destruct (queue w); cbn in *; try done; try lia.
    by apply Forall_cons in H4 as [].
  - eexists _, _. split; [done|]. unfold Serve_timer, serveSave.
    destruct (serving w), (saveTimerRunning w), (bool_decide (path = "")), ok; by constructor.
  - eexists _, _. split; [done|]. unfold Serve_stop, serveSave.
    destruct (serving w), (bool_decide (path = "")), ok; by constructor.
Qed.

(** Whatever callers submit (as long as nobody sets an ancient version), the
    goroutine never panics and never blocks on its queue, and the configuration in
    force always has the prepared form at the current version. *)
Theorem run_ok (Horder : ∀ l, map_order env l ≡ₚ l) w es :
  wrapper_ok w → Forall fair_event es → ∃ w' log, run w es = Ok (w', log) ∧ wrapper_ok w'.
Proof.
  revert w. induction es as [|e es IH]; intros w Hw Hes; [by eexists _, _|].
  apply Forall_cons in Hes as [He Hes]. destruct (wrapper_step_ok Horder w e Hw He) as (w1 & log1 & E1 & Hw1).
  destruct (IH w1 Hw1 Hes) as (w2 & log2 & E2 & Hw2). cbn [run]. rewrite E1. cbn. rewrite E2. cbn. eauto.
Qed.

Lemma run_inv (P : wrapper → Prop) (Q : event → Prop) :
  (∀ w e w' log, P w → Q e → step w e = Ok (w', log) → P w') →
  ∀ es w w' log, P w → Forall Q es → run w es = Ok (w', log) → P w'.
Proof.
  intros Hstep es. induction es as [|e es IH]; intros w w' log Hw Hes E; cbn [run] in E; [by injection E as <- _|].
  apply Forall_cons in Hes as [He Hes].
  destruct (step w e) as [[w1 log1]| |] eqn:E1; [|done..]. cbn [mbind go_bind fst] in E.
  destruct (run w1 es) as [[w2 log2]| |] eqn:E2; [|done..]. injection E as <- _. eauto.
Qed.

Lemma verify_all_None sub verify subs from to :
  verify_all subs from to = None → sub ∈ subs → VerifyConfiguration sub = Some verify → verify from to = None.
Proof.
  induction subs as [|s subs IH]; cbn [verify_all]; [set_solver|]. intros Hv Hin Hs.
  apply elem_of_cons in Hin as [->|Hin].
  - rewrite Hs in Hv. by destruct (verify from to).
  - apply IH; [|done..]. destruct (VerifyConfiguration s) as [v|]; [|done]. by destruct (v from to).
Qed.

(** C30. What a verifier insists on holds of every configuration that is ever in force
    while it is subscribed. *)
Theorem verified_always sub verify (P : Configuration → Prop) w es w' log :
  VerifyConfiguration sub = Some verify → (∀ from to, verify from to = None → P to) →
  sub ∈ subs w → P (wcfg w) →
  Forall (λ e, e ≠ EvUnsubscribe (sbName sub)) es → run w es = Ok (w', log) → P (wcfg w').
Proof.
  intros Hs HP Hin HPw Hes E. cut (sub ∈ subs w' ∧ P (wcfg w')); [tauto|].
  revert E. apply (run_inv (λ w, sub ∈ subs w ∧ P (wcfg w)) (λ e, e ≠ EvUnsubscribe (sbName sub))); [|done..].
  clear -Hs HP. intros w [c|name|caller fn| | |ok|ok] w' log [Hin HPw] Hne E; cbn [step] in E.
  - injection E as <- _. cbn. split; [|done]. apply elem_of_app. by left.
  - injection E as <- _. cbn. split; [|done]. apply remove_entry_keep; [done|]. apply Z.eqb_neq. congruence.
  - unfold modifyQueued in E. by destruct (_ <? _)%nat; injection E as <- _.
  - injection E as <- _. unfold Serve_start. by destruct (serving w).
  - destruct (serving w); [|by injection E as <- _].
    destruct (Serve_modify_cases w) as (w1 & answer & E1 & Hsub & _ & _ & _ & _ & _ & Hc). rewrite E1 in E.
    injection E as <- _. cbn [fst]. rewrite Hsub. split; [done|].
    destruct Hc as [->|(_ & c & fn & lg & _ & _ & Hv)]; [done|]. eapply HP, verify_all_None; eauto.
  - injection E as <- _. unfold Serve_timer, serveSave.
    by destruct (serving w), (saveTimerRunning w), (bool_decide (path = "")), ok.
  - injection E as <- _. unfold Serve_stop, serveSave. by destruct (serving w), (bool_decide (path = "")), ok.
Qed.

Lemma run_snoc w es e w' log : run w (es ++ [e]) = Ok (w', log) →
  ∃ w1 log1 log2, run w es = Ok (w1, log1) ∧ step w1 e = Ok (w', log2).
Proof.
  revert w log. induction es as [|e0 es IH]; intros w log E; cbn [run app] in *.
  - destruct (step w e) as [[w1 log1]| |] eqn:Es; [|done..]. injection E as <- _. exists w, [], log1. by split.
  - destruct (step w e0) as [[w1 log1]| |] eqn:Es; [|done..]. cbn [mbind go_bind fst] in *.
    destruct (run w1 (es ++ [e])) as [[w2 log2]| |] eqn:E2; [|done..]. injection E as <- _.
    destruct (IH w1 log2 E2) as (w3 & log3 & log4 & -> & Hs). exists w3, (log1 ++ log3), log4. split; [|done]. done.
Qed.

(** This configuration was in force from the end of [es1] to that of [es2]. *)
Definition held (w : wrapper) (es1 es2 : list event) (cfg : Configuration) : Prop :=
  ∀ es3 es4 w1 log1, es2 = es3 ++ es4 → run w (es1 ++ es3) = Ok (w1, log1) → wcfg w1 = cfg.
(** The step tries to write the file, and fails. *)
Definition fails_to_write (w : wrapper) (e : event) : Prop :=
  serving w = true ∧ (e = EvStop false ∨ e = EvTimer false ∧ saveTimerRunning w = true).
(** Writing this very configuration failed, and there was no change since. *)
Definition write_failed (w : wrapper) (es : list event) (cfg : Configuration) : Prop :=
  ∃ es1 e es2 w1 log1, es = es1 ++ e :: es2 ∧ run w es1 = Ok (w1, log1) ∧ fails_to_write w1 e ∧ held w es1 (e :: es2) cfg.
(** Where the configuration in force is. *)
Definition accounted_for (w : wrapper) (es : list event) (w' : wrapper) : Prop :=
  held w [] es (wcfg w') ∨ saveTimerRunning w' = true ∨ disk w' = Some (wcfg w') ∨ write_failed w es (wcfg w').

Lemma held_snoc w es1 es2 e cfg w2 log2 :
  held w es1 es2 cfg → run w (es1 ++ es2 ++ [e]) = Ok (w2, log2) → wcfg w2 = cfg → held w es1 (es2 ++ [e]) cfg.
Proof.
  intros H E Hc es3 es4 w1 log1 Hes E1. destruct es4 as [|x es4 _] using rev_ind.
  - rewrite app_nil_r in Hes. subst es3. rewrite E in E1. by injection E1 as <- _.
  - rewrite (assoc_L (++)) in Hes. apply app_inj_tail in Hes as [-> _]. by eapply H.
Qed.
Lemma accounted_same w es e w1 w2 log2 :
  run w (es ++ [e]) = Ok (w2, log2) →
  accounted_for w es w1 → wcfg w2 = wcfg w1 → disk w2 = disk w1 → (saveTimerRunning w1 = true → saveTimerRunning w2 = true) →
  accounted_for w (es ++ [e]) w2.
Proof.
  intros E H Hc Hd Ht. unfold accounted_for. rewrite Hc, Hd.
  destruct H as [H|[?|[?|(es1 & e1 & es2 & w3 & log3 & -> & Hr & Hf & Hh)]]];
    [left; by eapply held_snoc|by right; left; auto|by right; right; left|right; right; right].
  rewrite <-(assoc_L (++)) in E |- *. exists es1, e1, (es2 ++ [e]), w3, log3. split_and!; [done..|].
  by apply (held_snoc w es1 (e1 :: es2) e _ w2 log2).
Qed.
Lemma accounted_save w es e w1 log1 w2 log2 ok :
  path ≠ "" → run w es = Ok (w1, log1) → run w (es ++ [e]) = Ok (w2, log2) →
  serving w1 = true → e = EvTimer ok ∧ saveTimerRunning w1 = true ∨ e = EvStop ok →
  wcfg w2 = wcfg w1 → disk w2 = disk (serveSave w1 ok) → accounted_for w (es ++ [e]) w2.
Proof.
  intros Hp Hr E Hs He Hc Hd. right. right. unfold serveSave in Hd. rewrite bool_decide_false in Hd by done. destruct ok.
  - left. by rewrite Hd, Hc.
  - right. exists es, e, [], w1, log1. split_and!; [done..|split; [done|tauto]|].
    apply (held_snoc w es [] e _ w2 log2); [|done..]. intros es3 es4 w3 log3 Hes E3. destruct es3; [|done].
    rewrite app_nil_r, Hr in E3. by injection E3 as <- _.
Qed.
(** A timer runs in a goroutine only. *)
Lemma timer_serving w es w' log : (saveTimerRunning w = true → serving w = true) → run w es = Ok (w', log) →
  saveTimerRunning w' = true → serving w' = true.
Proof.
  intros Hw E. revert E. apply (run_inv (λ w, saveTimerRunning w = true → serving w = true) (λ _, True)); [|done|by apply Forall_forall].
  clear. intros w [c|name|caller fn| | |ok|ok] w' log Hw _ E; cbn [step] in E.
  - by injection E as <- _.
  - by injection E as <- _.
  - unfold modifyQueued in E. by destruct (_ <? _)%nat; injection E as <- _.
  - injection E as <- _. unfold Serve_start. destruct (serving w) eqn:Hs; [by rewrite Hs|done].
  - destruct (serving w) eqn:Hs; [|injection E as <- _; by rewrite Hs].
    destruct (Serve_modify_cases w) as (w1 & answer & E1 & _ & _ & H & _). rewrite E1 in E. injection E as <- _. cbn. congruence.
  - injection E as <- _. destruct (serving w) eqn:Hs; [|by rewrite Hs]. unfold Serve_timer.
    destruct (saveTimerRunning w) eqn:Ht; [done|by rewrite Ht].
  - injection E as <- _. destruct (serving w) eqn:Hs; [done|by rewrite Hs].
Qed.

(** C11. No change is lost unnoticed: since the start no configuration but the one in force
    has been in force, or it is in the file, or the timer for writing it runs, or the
    attempt to write just this one failed and it has been in force since (the failure is
    logged, and not tried again before the next change or the end).  And when the
    goroutine ends and can write, the file holds the configuration in force. *)
Theorem saved_or_due w es w' log :
  path ≠ "" → (saveTimerRunning w = true → serving w = true) → run w es = Ok (w', log) →
  accounted_for w es w' ∧
  ∀ es1, es = es1 ++ [EvStop true] → ∃ w1 log1, run w es1 = Ok (w1, log1) ∧ (serving w1 = true → disk w' = Some (wcfg w')).
Proof.
  intros Hp Hw E. split.
  2:{ intros es1 ->. apply run_snoc in E as (w1 & log1 & log2 & Hr & Hs). exists w1, log1. split; [done|]. intros Hser.
      cbn [step] in Hs. rewrite Hser in Hs. injection Hs as <- _. unfold Serve_stop, serveSave. by rewrite bool_decide_false. }
  revert w' log E. induction es as [|e es IH] using rev_ind; intros w' log E.
  { injection E as <- _. left. intros es3 es4 w1 log1 Hes E1. destruct es3; [|done]. by injection E1 as <- _. }
  pose proof E as Hall. apply run_snoc in E as (w1 & log1 & log2 & Hr & E). specialize (IH w1 log1 Hr).
  pose proof (timer_serving _ _ _ _ Hw Hr) as Hts. destruct e as [c|name|caller fn| | |ok|ok]; cbn [step] in E.
  - injection E as <- _. by eapply accounted_same.
  - injection E as <- _. by eapply accounted_same.
  - unfold modifyQueued in E. destruct (_ <? _)%nat; injection E as <- _; by eapply accounted_same.
  - injection E as <- _. revert Hall. unfold Serve_start. destruct (serving w1) eqn:Hs; intros Hall; eapply accounted_same; done.
  - destruct (serving w1); [|injection E as <- _; by eapply accounted_same].
    destruct (Serve_modify_cases w1) as (w2 & answer & E1 & _ & Hd & _ & _ & _ & Ht & Hc). rewrite E1 in E.
    injection E as <- _. cbn [fst]. destruct Hc as [Hc|[Hc _]]; [by eapply accounted_same|by right; left].
  - injection E as <- _. revert Hall. destruct (serving w1) eqn:Hser; [|intros; by eapply accounted_same]. unfold Serve_timer.
    destruct (saveTimerRunning w1) eqn:Ht; intros Hall; [|by eapply accounted_same].
    eapply (accounted_save _ _ _ w1 log1 _ log ok); [done..|by left| |done]. unfold serveSave. by destruct (bool_decide _), ok.
  - injection E as <- _. revert Hall. destruct (serving w1) eqn:Hs; intros Hall; [|by eapply accounted_same].
    eapply (accounted_save _ _ _ w1 log1 _ log ok); [done..|by right| |done]. unfold Serve_stop, serveSave. by destruct (bool_decide _), ok.
Qed.
End wrapper.

(** ** Examples *)

(** A caller removes a device; a verifier insists that a folder is configured. *)
Definition sample_verifier : Committer :=
  MkCommitter 7 (λ from to, true)
    (Some (λ from to, match cfFolders to with [] => Some "no folders" | _ => None end)).

Definition sample_cfg : Configuration :=
  match Configuration_prepare sample_env (sample_config 37) (dev_id 1) with
  | Ok (cfg, _) => cfg
  | _ => sample_config 37
  end.
Definition sample_wrapper : wrapper := (Subscribe (Wrap sample_cfg) sample_verifier).1.
Definition sample_events : list event :=
  [EvStart; EvModify 1 (RemoveDevice (dev_id 2)); EvModify 2 (λ c, c <| cfFolders := [] |>); EvServe; EvServe; EvTimer true].
Abbreviation sample_run := (run sample_env (dev_id 1) "config.xml" (λ _ _, false) sample_wrapper sample_events).

Example sample_answers :
  match sample_run with
  | Ok (w, log) => (log, last <$> device_ids (wcfg w), length (cfFolders (wcfg w)), saveTimerRunning w)
  | _ => ([], [], 0%nat, true)
  end = ([(1, None); (2, Some "no folders")], [Some 1; Some 3], 2%nat, false).
Proof. vm_compute. reflexivity. Qed.

Lemma sample_run_Ok : ∃ w log, sample_run = Ok (w, log).
Proof. destruct sample_run as [[w log]| |] eqn:E; [eauto|revert E; vm_compute; discriminate..]. Qed.

Lemma sample_wrapper_ok : wrapper_ok (dev_id 1) sample_wrapper.
Proof.
  destruct (Configuration_prepare sample_env (sample_config 37) (dev_id 1)) as [[cfg log]| |] eqn:E;
    [|revert E; vm_compute; discriminate..].
  destruct (prepare_form sample_env ltac:(done) (dev_id 1) (sample_config 37) cfg log E) as [Hp Hv]; [cbn; lia|].
  replace sample_wrapper with ((Subscribe (Wrap cfg) sample_verifier).1) by (unfold sample_wrapper, sample_cfg; by rewrite E).
  clear E. constructor; [exact Hp|exact Hv|apply Nat.le_0_l|constructor].
Qed.

Lemma run_ok_witness : ∃ w log, sample_run = Ok (w, log) ∧ wrapper_ok (dev_id 1) w.
Proof.
  apply (run_ok sample_env (dev_id 1) "config.xml" (λ _ _, false) ltac:(done) sample_wrapper sample_events).
  - apply sample_wrapper_ok.
  - repeat constructor; intros c Hc; exact Hc.
Defined.

Lemma verified_always_witness :
  ∃ w log, sample_run = Ok (w, log) ∧ cfFolders (wcfg w) ≠ [].
Proof.
  destruct sample_run_Ok as (w & log & E). exists w, log. split; [exact E|].
  apply (verified_always sample_env (dev_id 1) "config.xml" (λ _ _, false) sample_verifier
    (λ from to, match cfFolders to with [] => Some "no folders" | _ => None end) (λ c, cfFolders c ≠ [])
    sample_wrapper sample_events w log).
  - reflexivity.
  - intros from to. destruct (cfFolders to); discriminate.
  - left.
  - vm_compute. discriminate.
  - repeat constructor; discriminate.
  - exact E.
Defined.

Lemma saved_or_due_witness :
  ∃ w log, sample_run = Ok (w, log) ∧ accounted_for sample_env (dev_id 1) "config.xml" (λ _ _, false) sample_wrapper sample_events w.
Proof.
  destruct sample_run_Ok as (w & log & E). exists w, log. split; [exact E|].
  apply (saved_or_due sample_env (dev_id 1) "config.xml" (λ _ _, false) sample_wrapper sample_events w log).
  - discriminate.
  - vm_compute. discriminate.
  - exact E.
Defined.

(** When the write that was due fails, no other is due: the change is in force, and not
    in the file. *)
Example failed_write_is_forgotten :
  match run sample_env (dev_id 1) "config.xml" (λ _ _, false) sample_wrapper
    [EvStart; EvModify 1 (RemoveDevice (dev_id 2)); EvServe; EvTimer false] with
  | Ok (w, log) => (log, last <$> device_ids (wcfg w), saveTimerRunning w, bool_decide (is_Some (disk w)))
  | _ => ([], [], true, true)
  end = ([(1, None)], [Some 1; Some 3], false, false).
Proof. vm_compute. reflexivity. Qed.
