(* ===== verification/FolderPaths.v ===== *)
(** * Overlapping folders ([CheckFolderPathOverlap] of [src/lib/config/config.go])

    Two folders that share a directory tree destroy each other's data, so a folder
    is refused when its path is inside another's or contains it.  Paths are compared
    after resolving the home directory and symbolic links.  The file proves that
    the check is exact for every folder but one at the root of the file system. *)
From S2P Require Import Prelude GoLib Vector Base32 DeviceID Paths FolderConfig Config.
From Stdlib Require String.
From Stdlib Require Import Ascii.

Local Open Scope Z_scope.

(** ** Definitions *)
Section canonical.
(** The home directory, the working directory, [filepath.EvalSymlinks] ([None]: an
    error), and whether names are compared without case. *)
Context (getHomeDir : option path) (Getwd : option path) (EvalSymlinks : path → option path)
  (foldCase : bool) (ToLower : path → path).

Definition ExpandTilde (p : path) : option path :=
  if bool_decide (p = s2l "~") then getHomeDir
  else if negb (has_prefix p (s2l "~/")) then Some p
  else match getHomeDir with
       | None => None
       | Some home => Some (Join [home; drop 2 p])
       end.

(** [filepath.Abs] *)
Definition Abs (p : path) : option path :=
  if IsAbs p then Some (Clean p)
  else match Getwd with None => None | Some wd => Some (Join [wd; p]) end.

Fixpoint resolve_loop (fuel : nat) (p dir : path) (tail : list path) : path :=
  match fuel with
  | O => p
  | S fuel =>
      let parent := Dir dir in
      if bool_decide (parent = dir) then p
      else
        let tail := Base dir :: tail in
        match EvalSymlinks parent with
        | Some resolved => Join (resolved :: tail)
        | None => resolve_loop fuel p parent tail
        end
  end.

Definition resolveSymlinks (p : path) : path :=
  match EvalSymlinks p with
  | Some resolved => resolved
  | None => resolve_loop (S (length p)) p p []
  end.

Definition canonicalFolderPath (p : path) : path :=
  if bool_decide (p = []) then []
  else
    let p := default p (ExpandTilde p) in
    let p := match Abs p with Some abs => abs | None => Clean p end in
    let p := resolveSymlinks p in
    if foldCase then ToLower p else p.

Definition folder_path (f : FolderConfiguration) : path := canonicalFolderPath (s2l (fcPath f)).

Inductive overlap := SamePath | Inside | Contained.

(** The kind of overlap with the first folder in the way; the texts of the errors are
    left out. *)
Fixpoint check_loop (candidate : FolderConfiguration) (cand : path) (folders : list FolderConfiguration)
    : option (overlap * string) :=
  match folders with
  | [] => None
  | other :: folders =>
      if bool_decide (fcID other = fcID candidate) then check_loop candidate cand folders
      else
        let op := folder_path other in
        if bool_decide (op = []) then check_loop candidate cand folders
        else if bool_decide (cand = op) then Some (SamePath, fcID other)
        else if has_prefix cand (op ++ [sep]) then Some (Inside, fcID other)
        else if has_prefix op (cand ++ [sep]) then Some (Contained, fcID other)
        else check_loop candidate cand folders
  end.

Definition CheckFolderPathOverlap (cfg : Configuration) (candidate : FolderConfiguration) : option (overlap * string) :=
  let cand := folder_path candidate in
  if bool_decide (cand = []) then None else check_loop candidate cand (cfFolders cfg).

(** ** Paths and their elements *)

Lemma has_prefix_spec p q : has_prefix p q = true ↔ ∃ k, p = q ++ k.
Proof. apply prefixb_spec. Qed.

Lemma build_true_inj a b : nf true a → nf true b → build true a = build true b → a = b.
Proof.
  intros Ha Hb E. pose proof (split_build true a Ha) as E1. rewrite E, split_build in E1 by done.
  assert (Hnil : ∀ l, nf true ([] :: l) → False).
  { intros l Hl. apply nf_true_normal, Forall_cons in Hl as [[Hn _] _]. done. }
  unfold raw in E1. destruct a as [|x a], b as [|y b]; cbn in E1; try done; injection E1.
  - intros -> ->. by apply Hnil in Hb.
  - intros <- <-. by apply Hnil in Ha.
  - by intros -> ->.
Qed.

Lemma join_byte_app c a b :
  a ≠ [] → b ≠ [] → join_byte c (a ++ b) = join_byte c a ++ c :: join_byte c b.
Proof.
  intros Ha Hb. induction a as [|x a IH]; [done|]. destruct a as [|y a].
  - by destruct b.
  - cbn [app join_byte] in *. rewrite IH by done. by rewrite <-(assoc_L (++)).
Qed.

(** With a separator after it, a path that is not the root is a prefix exactly of the
    paths strictly below it. *)
Lemma below_spec a b :
  nf true a → nf true b → b ≠ [] →
  has_prefix (build true a) (build true b ++ [sep]) = true ↔ ∃ c, c ≠ [] ∧ a = b ++ c.
Proof.
  intros Ha Hb Hne. rewrite has_prefix_spec. split.
  - intros [k E]. rewrite <-(assoc_L (++)) in E. cbn [app] in E.
    pose proof (split_build true a Ha) as E1. rewrite E, split_byte_app_sep, split_build in E1 by done.
    destruct (split_byte sep k) as [|c cs] eqn:Ek; [by apply split_byte_nonempty in Ek|].
    exists (c :: cs). split; [done|]. destruct b as [|y b]; [done|]. cbn in E1.
    destruct a as [|x a]; cbn in E1; injection E1; intros; subst; [|done]. exfalso. apply nf_true_normal, Forall_cons in Hb as [[Hy _] _]. done.
  - intros (c & Hc & ->). exists (join_byte sep c). unfold build. rewrite join_byte_app by done.
    rewrite <-(assoc_L (++)). done.
Qed.

(** [f] lies at the directory with these elements, which is not the root. *)
Definition located (comps : FolderConfiguration → list path) (f : FolderConfiguration) : Prop :=
  folder_path f = build true (comps f) ∧ nf true (comps f) ∧ comps f ≠ [].

(** The check accepts a folder exactly when its directory is neither an ancestor nor
    a descendant of, nor the same as, that of a folder with another identifier
    (folders at the root of the file system aside). *)
Theorem CheckFolderPathOverlap_spec comps cfg candidate :
  located comps candidate → (∀ f, f ∈ cfFolders cfg → located comps f) →
  CheckFolderPathOverlap cfg candidate = None ↔
  ∀ f, f ∈ cfFolders cfg → fcID f ≠ fcID candidate →
    ¬ (comps f `prefix_of` comps candidate) ∧ ¬ (comps candidate `prefix_of` comps f).
Proof.
  intros (Ec & Hc & Hcne) Hall. unfold CheckFolderPathOverlap. rewrite Ec.
  rewrite bool_decide_false by by apply build_nonempty.
  revert Hall. generalize (cfFolders cfg) as folders. induction folders as [|f folders IH]; intros Hall.
  { split; [set_solver|done]. }
  specialize (IH ltac:(intros; apply Hall; by right)). destruct (Hall f ltac:(left)) as (Ef & Hf & Hfne).
  cbn [check_loop]. rewrite Ef, (bool_decide_false (build true (comps f) = [])) by by apply build_nonempty.
  assert (Hsplit : (∀ g, g ∈ f :: folders → fcID g ≠ fcID candidate →
      ¬ (comps g `prefix_of` comps candidate) ∧ ¬ (comps candidate `prefix_of` comps g)) ↔
    (fcID f ≠ fcID candidate → ¬ (comps f `prefix_of` comps candidate) ∧ ¬ (comps candidate `prefix_of` comps f)) ∧
    (∀ g, g ∈ folders → fcID g ≠ fcID candidate →
      ¬ (comps g `prefix_of` comps candidate) ∧ ¬ (comps candidate `prefix_of` comps g))).
  { setoid_rewrite elem_of_cons. split; [intros H; split; auto|]. intros [H1 H2] g [->|Hg]; auto. }
  rewrite Hsplit. clear Hsplit. case_bool_decide as Hid; [rewrite IH; tauto|].
  case_bool_decide as Heq.
  { apply build_true_inj in Heq; [|done..]. split; [done|]. intros [H _]. destruct (H Hid) as [H1 _].
    destruct H1. by rewrite Heq. }
  pose proof (below_spec _ _ Hc Hf Hfne) as H1. pose proof (below_spec _ _ Hf Hc Hcne) as H2.
  destruct (has_prefix (build true (comps candidate)) _).
  { split; [done|]. intros [H _]. destruct (H Hid) as [Hn _]. destruct Hn.
    destruct (proj1 H1 eq_refl) as (c & _ & ->). by eexists. }
  destruct (has_prefix (build true (comps f)) _).
  { split; [done|]. intros [H _]. destruct (H Hid) as [_ Hn]. destruct Hn.
    destruct (proj1 H2 eq_refl) as (c & _ & ->). by eexists. }
  rewrite IH. split; [|tauto]. intros Hrest. split; [|done]. intros _. split; intros [c E].
  - destruct (decide (c = [])) as [->|Hne]; [rewrite app_nil_r in E; by rewrite E in Heq|].
    discriminate (proj2 H1 (ex_intro _ c (conj Hne E))).
  - destruct (decide (c = [])) as [->|Hne]; [rewrite app_nil_r in E; by rewrite E in Heq|].
    discriminate (proj2 H2 (ex_intro _ c (conj Hne E))).
Qed.

(** ** Canonical paths

    The loop of [resolveSymlinks] reaches the root: the fuel is the length of the
    path, and every round removes an element. *)
Lemma Dir_root : Dir (build true []) = build true [].
Proof. by vm_compute. Qed.

Lemma resolve_loop_fuel fuel p es tail :
  nf true es → (length es < fuel)%nat →
  resolve_loop fuel p (build true es) tail = resolve_loop (S (length es)) p (build true es) tail.
Proof.
  revert fuel tail. induction es as [|t es IH] using rev_ind; intros fuel tail Hnf Hfuel.
  { destruct fuel as [|fuel]; [lia|]. cbn [length resolve_loop]. by rewrite Dir_root, bool_decide_true. }
  apply nf_true_normal in Hnf as Hn. apply Forall_app in Hn as [Hes Ht]. apply Forall_cons in Ht as [Ht _].
  apply (Forall_normal_nf true) in Hes. rewrite length_app in Hfuel. cbn in Hfuel.
  destruct fuel as [|fuel]; [lia|]. rewrite length_app, Nat.add_1_r.
  remember (S (length es)) as n eqn:En. cbn [resolve_loop]. rewrite Dir_build by done.
  case_bool_decide; [done|]. destruct (EvalSymlinks _); [done|]. subst n. apply IH; [done|lia].
Qed.

Lemma length_build es : nf true es → (length es ≤ length (build true es))%nat.
Proof.
  intros Hnf. apply nf_true_normal in Hnf. cbn. apply le_S. induction Hnf as [|e es He Hes IH]; [done|].
  destruct He as [He _]. destruct e as [|c e]; [done|]. destruct es as [|e' es]; cbn in *; [lia|].
  rewrite length_app. cbn. lia.
Qed.

Lemma Join_tail es tail :
  nf true es → Forall normal tail → Join (build true es :: tail) = build true (es ++ tail).
Proof.
  intros Hes Ht. destruct tail as [|t tail].
  { cbn [Join join_byte]. rewrite bool_decide_false by by apply build_nonempty.
    by rewrite Clean_build, app_nil_r. }
  cbn [Join]. rewrite bool_decide_false by by apply build_nonempty.
  change (join_byte sep (build true es :: t :: tail)) with (build true es ++ sep :: join_byte sep (t :: tail)).
  rewrite Clean_build_app by done. f_equal. rewrite split_join; [|done|].
  - rewrite push_all_normal by done. by rewrite rev_app_distr, !rev_involutive.
  - eapply Forall_impl; [exact Ht|]. by intros x (_ & _ & _ & ?).
Qed.

(** [EvalSymlinks] returns cleaned absolute paths for absolute paths. *)
Context (Heval : ∀ es q, nf true es → EvalSymlinks (build true es) = Some q → ∃ ds, nf true ds ∧ q = build true ds).

Lemma resolve_loop_shape fuel p es tail :
  (∃ ps, nf true ps ∧ p = build true ps) → nf true es → Forall normal tail →
  ∃ ds, nf true ds ∧ resolve_loop fuel p (build true es) tail = build true ds.
Proof.
  intros (ps & Hps & ->). revert es tail. induction fuel as [|fuel IH]; intros es tail Hes Ht; [by exists ps|].
  cbn [resolve_loop]. destruct es as [|t es _] using rev_ind.
  { rewrite Dir_root, bool_decide_true by done. by exists ps. }
  apply nf_true_normal in Hes. apply Forall_app in Hes as [Hes Hn]. apply Forall_cons in Hn as [Hn _].
  apply (Forall_normal_nf true) in Hes. rewrite Dir_build, Base_build by done.
  case_bool_decide; [by exists ps|].
  assert (Htail : Forall normal (t :: tail)) by by constructor.
  destruct (EvalSymlinks _) as [q|] eqn:E; [|by apply IH].
  destruct (Heval _ _ Hes E) as (ds & Hds & ->). exists (ds ++ t :: tail). rewrite Join_tail by done.
  split; [|done]. apply Forall_normal_nf, Forall_app. split; [|done]. by apply nf_true_normal.
Qed.

(** On a system that distinguishes case every path a folder can have resolves to an
    absolute path without dots, steps upwards or empty elements, whatever does not
    exist yet; the loop has reached the root when its fuel is used up. *)
Theorem canonicalFolderPath_shape p home wd :
  foldCase = false → p ≠ [] → getHomeDir = Some (build true home) → nf true home →
  Getwd = Some (build true wd) → nf true wd →
  (∃ es, nf true es ∧ canonicalFolderPath p = build true es) ∧
  (∀ es fuel, nf true es → (length (build true es) < fuel)%nat →
     resolve_loop fuel (build true es) (build true es) [] = resolve_loop (S (length (build true es))) (build true es) (build true es) []).
Proof.
  intros Hcase Hp Hhome Hh Hwd Hw. split.
  - unfold canonicalFolderPath. rewrite bool_decide_false, Hcase by done.
    assert (Habs : ∀ q, ∃ es, nf true es ∧ Abs q = Some (build true es)).
    { intros q. unfold Abs. destruct (IsAbs q) eqn:Ea.
      - destruct (Clean_shape q) as (es & Hes & E). rewrite Ea in *. exists es. by rewrite E.
      - rewrite Hwd. destruct (Clean_shape (build true wd ++ sep :: q)) as (es & Hes & E).
        rewrite IsAbs_build in * by done. exists es. split; [done|]. f_equal. rewrite <-E. cbn [Join].
        by rewrite bool_decide_false by by apply build_nonempty. }
    destruct (Habs (default p (ExpandTilde p))) as (es & Hes & ->). unfold resolveSymlinks.
    destruct (EvalSymlinks (build true es)) as [q|] eqn:E.
    + destruct (Heval _ _ Hes E) as (ds & Hds & ->). by exists ds.
    + destruct (resolve_loop_shape (S (length (build true es))) (build true es) es []) as (ds & Hds & Eds);
        [by exists es|done|constructor|]. by exists ds.
  - intros es fuel Hes Hf. pose proof (length_build es Hes). rewrite (resolve_loop_fuel fuel) by (done || lia).
    symmetry. apply resolve_loop_fuel; [done|lia].
Qed.
End canonical.

(** ** Examples *)

Definition no_links (p : path) : option path := Some p.
Definition at_path (id p : string) : FolderConfiguration := (sample_folder id []) <| fcPath := p |>.
Definition with_folder (f : FolderConfiguration) : Configuration := (sample_config 52) <| cfFolders := [f] |>.
Abbreviation sample_check := (CheckFolderPathOverlap (Some (s2l "/home/u")) (Some (s2l "/")) no_links false (λ p, p)).

Example overlap_examples :
  sample_check (with_folder (at_path "a" "/home/u/data")) (at_path "b" "~/data/sub/../x") = Some (Inside, "a") ∧
  sample_check (with_folder (at_path "a" "/home/u/data")) (at_path "b" "home/u") = Some (Contained, "a") ∧
  sample_check (with_folder (at_path "a" "/home/u/data")) (at_path "b" "/home/u/data2") = None ∧
  sample_check (with_folder (at_path "a" "/home/u/data")) (at_path "a" "/home/u") = None.
Proof. by vm_compute. Qed.

(** A folder at the root of the file system contains every other folder, which the
    comparison with [//] misses in both directions. *)
Example root_not_checked :
  sample_check (with_folder (at_path "a" "/home/u/data")) (at_path "b" "/") = None ∧
  sample_check (with_folder (at_path "a" "/")) (at_path "b" "/home/u/data") = None.
Proof. by vm_compute. Qed.

Definition sample_comps (f : FolderConfiguration) : list path :=
  if bool_decide (fcID f = "a") then [s2l "data"] else [s2l "data"; s2l "sub"].

Lemma sample_located f p :
  fcID f ∈ ["a"; "b"] → fcPath f = p → (fcID f, p) ∈ [("a", "/data"); ("b", "/data/sub")] →
  located (Some (s2l "/home/u")) (Some (s2l "/")) no_links false (λ p, p) sample_comps f.
Proof.
  intros Hid Hp Hin. unfold located, folder_path, sample_comps. rewrite Hp.
  repeat (apply elem_of_cons in Hin as [Hin|Hin]; [injection Hin as -> ->|]); [..|by apply elem_of_nil in Hin];
    (split_and!; [by vm_compute| |done]); apply Forall_normal_nf; repeat constructor; try done;
    by (intros Hs; apply (bool_decide_pack (_ ∈ _)) in Hs).
Qed.

Lemma CheckFolderPathOverlap_spec_witness :
  sample_check (with_folder (at_path "a" "/data")) (at_path "b" "/data/sub") ≠ None.
Proof.
  intros E. pose proof (CheckFolderPathOverlap_spec (Some (s2l "/home/u")) (Some (s2l "/")) no_links false (λ p, p)
    sample_comps (with_folder (at_path "a" "/data")) (at_path "b" "/data/sub")) as H.
  destruct H as [H _].
  - apply (sample_located _ "/data/sub"); [right; left|done|right; left].
  - intros f Hf. apply list_elem_of_singleton in Hf as ->. apply (sample_located _ "/data"); [left|done|left].
  - destruct (H E (at_path "a" "/data")) as [H1 _]; [left|done|]. apply H1. by exists [s2l "sub"].
Defined.

Lemma canonicalFolderPath_shape_witness :
  ∃ es, nf true es ∧
    canonicalFolderPath (Some (s2l "/home/u")) (Some (s2l "/")) no_links false (λ p, p) (s2l "~/a/../b") = build true es.
Proof.
  assert (Hhome : nf true [s2l "home"; s2l "u"]).
  { apply Forall_normal_nf. repeat constructor; try done; by (intros Hs; apply (bool_decide_pack (_ ∈ _)) in Hs). }
  destruct (canonicalFolderPath_shape (Some (s2l "/home/u")) (Some (s2l "/")) no_links false (λ p, p)
    ltac:(intros es q Hes [= <-]; by exists es) (s2l "~/a/../b") [s2l "home"; s2l "u"] []) as [H _]; try done.
  - apply Forall_normal_nf. constructor.
Defined.
