(* ===== verification/Introductions.v ===== *)
(** * Introduced devices ([handleIntroductions] and [handleDeintroductions] of
      [src/lib/model/model.go])

    A device that is an introducer vouches for others: its cluster configuration
    adds them and shares folders with them, and takes both back.  The file
    translates the two passes over the configuration and proves exactly which shares
    and devices there are afterwards, and that repeating an announcement changes
    nothing. *)
From stdpp Require Import functions.
From S2P Require Import Prelude GoLib Vector Platform FileInfo DeviceID DownloadState Messages Paths.
From S2P Require Import FolderConfig Config.
From Stdlib Require String.

Local Open Scope Z_scope.

(** ** Sets of pairs of folder and device ([folderDeviceSet]) *)

Abbreviation folderDeviceSet := (gmap string (gset (list Z))).

Definition fds_set (s : folderDeviceSet) (dev : list Z) (folder : string) : folderDeviceSet :=
  <[folder := {[dev]} ∪ default ∅ (s !! folder)]> s.
Definition fds_has (s : folderDeviceSet) (dev : list Z) (folder : string) : bool :=
  bool_decide (dev ∈ default ∅ (s !! folder)).
Definition fds_hasDevice (s : folderDeviceSet) (dev : list Z) : bool :=
  existsb (λ kv : string * gset (list Z), bool_decide (dev ∈ kv.2)) (map_to_list s).

(** ** Introductions *)
Section introductions.
(** The local device, the device template, and the introducer. *)
Context (myID : list Z) (DefaultDevice introducerCfg : DeviceConfiguration).

Definition introduceDevice (device : Device) : DeviceConfiguration :=
  let addresses := "dynamic" :: filter (λ addr, addr ≠ "dynamic") (dAddresses device) in
  let newDeviceCfg := DefaultDevice <| dcDeviceID := dID device |> <| dcName := dName device |>
    <| dcCompression := dcCompression introducerCfg |> <| dcAddresses := addresses |>
    <| dcCertName := dCertName device |> <| dcIntroducedBy := dcDeviceID introducerCfg |> in
  if dIntroducer device
  then newDeviceCfg <| dcIntroducer := true |> <| dcSkipIntroductionRemovals := dSkipIntroductionRemovals device |>
  else newDeviceCfg.

Definition introduced_share (device : Device) : FolderDeviceConfiguration :=
  MkFolderDeviceConfiguration (dID device) (dcDeviceID introducerCfg) "".

(** The state of the inner loop, over the devices of one folder.  The loop asks whether
    a token is [nil]; an empty token of a message is [nil], as the decoder of the wire
    format leaves an empty field of bytes unset. *)
Record istate := MkIState {
  iFolder : FolderConfiguration;
  iChanged : bool;
  iDevices : gmap (list Z) DeviceConfiguration;
  iPairs : folderDeviceSet;
}.

Definition introduce_device (folderID : string) (st : istate) (device : Device) : istate :=
  if bool_decide (dID device = myID) then st
  else
    let fcfg := iFolder st in
    let fds := fds_set (iPairs st) (dID device) folderID in
    let known := match iDevices st !! dID device with Some _ => true | None => false end in
    let devices := if known then iDevices st else <[dID device := introduceDevice device]> (iDevices st) in
    if known && SharedWith fcfg (dID device) then MkIState fcfg (iChanged st) devices fds
    else if negb (fcType fcfg =? FolderTypeReceiveEncrypted) && bool_decide (dEncryptionPasswordToken device ≠ [])
    then MkIState fcfg (iChanged st) devices fds
    else MkIState (fcfg <| fcDevices := fcDevices fcfg ++ [introduced_share device] |>) true devices fds.

(** The state of the outer loop, over the folders of the message. *)
Record hstate := MkHState {
  hFolders : gmap string FolderConfiguration;
  hDevices : gmap (list Z) DeviceConfiguration;
  hPairs : folderDeviceSet;
  hChanged : bool;
}.

Definition introduce_folder (st : hstate) (folder : Folder) : hstate :=
  match hFolders st !! foID folder with
  | None => st
  | Some fcfg =>
      let i := fold_left (introduce_device (foID folder)) (foDevices folder)
                 (MkIState fcfg false (hDevices st) (hPairs st)) in
      if iChanged i
      then MkHState (<[fcID (iFolder i) := iFolder i]> (hFolders st)) (iDevices i) (iPairs i) true
      else MkHState (hFolders st) (iDevices i) (iPairs i) (hChanged st)
  end.

Definition handleIntroductions (cm : list Folder) (folders : gmap string FolderConfiguration)
    (devices : gmap (list Z) DeviceConfiguration) : hstate :=
  fold_left introduce_folder cm (MkHState folders devices ∅ false).

(** ** Removals

    The rounds of both loops over maps do not depend on each other, so that each
    is a map over the map, in any order. *)
Definition stays (fds : folderDeviceSet) (folder : FolderConfiguration) (dev : FolderDeviceConfiguration) : Prop :=
  fdIntroducedBy dev ≠ dcDeviceID introducerCfg ∨ fds_has fds (fdDeviceID dev) (fcID folder) = true.
#[export] Instance stays_dec fds folder dev : Decision (stays fds folder dev) := _.

Definition unshare (fds : folderDeviceSet) (folder : FolderConfiguration) : FolderConfiguration :=
  folder <| fcDevices := filter (stays fds folder) (fcDevices folder) |>.
Definition unshares (fds : folderDeviceSet) (folder : FolderConfiguration) : bool :=
  existsb (λ dev, negb (bool_decide (stays fds folder dev))) (fcDevices folder).

(** [devicesNotIntroduced] *)
Definition notIntroduced (folders : gmap string FolderConfiguration) (device : list Z) : Prop :=
  map_Exists (λ _ folder, Exists (λ dev, fdIntroducedBy dev ≠ dcDeviceID introducerCfg ∧ fdDeviceID dev = device)
                            (fcDevices folder)) folders.
#[export] Instance notIntroduced_dec folders device : Decision (notIntroduced folders device) := _.

Definition removes (fds : folderDeviceSet) (folders : gmap string FolderConfiguration)
    (deviceID : list Z) (device : DeviceConfiguration) : Prop :=
  dcIntroducedBy device = dcDeviceID introducerCfg ∧ fds_hasDevice fds deviceID = false ∧
  ¬ notIntroduced folders deviceID.
#[export] Instance removes_dec fds folders deviceID device : Decision (removes fds folders deviceID device) := _.

Definition handleDeintroductions (fds : folderDeviceSet) (folders : gmap string FolderConfiguration)
    (devices : gmap (list Z) DeviceConfiguration)
    : gmap string FolderConfiguration * gmap (list Z) DeviceConfiguration * bool :=
  if dcSkipIntroductionRemovals introducerCfg then (folders, devices, false)
  else
    (unshare fds <$> folders,
     filter (λ kv : list Z * DeviceConfiguration, ¬ removes fds folders kv.1 kv.2) devices,
     existsb (λ kv : string * FolderConfiguration, unshares fds kv.2) (map_to_list folders) ||
     existsb (λ kv : list Z * DeviceConfiguration, bool_decide (removes fds folders kv.1 kv.2)) (map_to_list devices)).

(** The change that [ClusterConfig] submits; [forder] and [dorder] are the orders
    in which the maps are visited. *)
Definition FolderMap (folders : list FolderConfiguration) : gmap string FolderConfiguration :=
  fold_left (λ m f, <[fcID f := f]> m) folders ∅.

Definition introduce_change (forder : list (string * FolderConfiguration) → list (string * FolderConfiguration))
    (dorder : list (list Z * DeviceConfiguration) → list (list Z * DeviceConfiguration))
    (cm : list Folder) (cfg : Configuration) : Configuration :=
  let h := handleIntroductions cm (FolderMap (cfFolders cfg)) (DeviceMap (cfDevices cfg)) in
  let '(folders, devices, deintroduced) := handleDeintroductions (hPairs h) (hFolders h) (hDevices h) in
  let introduced := hChanged h in
  if negb introduced && negb deintroduced then cfg
  else cfg <| cfFolders := (forder (map_to_list folders)).*2 |> <| cfDevices := (dorder (map_to_list devices)).*2 |>.
End introductions.

(** ** Lemmas *)

Lemma SharedWith_spec f d : SharedWith f d = true ↔ d ∈ shared_ids f.
Proof.
  unfold SharedWith, FolderConfiguration_Device, shared_ids. rewrite bool_decide_eq_true. split.
  - intros [e [He%list_elem_of_In <-%bool_decide_eq_true]%find_some]. by apply list_elem_of_fmap_2.
  - intros (e & -> & He)%list_elem_of_fmap. destruct (find _ _) as [e'|] eqn:Hf; [eauto|].
    eapply find_none in Hf; [|by apply list_elem_of_In]. by rewrite bool_decide_true in Hf.
Qed.

Lemma fds_has_set s d f d' f' :
  fds_has (fds_set s d f) d' f' = true ↔ (d' = d ∧ f' = f) ∨ fds_has s d' f' = true.
Proof.
  unfold fds_has, fds_set. rewrite !bool_decide_eq_true. destruct (decide (f = f')) as [->|Hne].
  - rewrite lookup_insert_eq. cbn. set_solver.
  - rewrite lookup_insert_ne by done. naive_solver.
Qed.

Lemma fds_hasDevice_spec s d : fds_hasDevice s d = true ↔ ∃ f, fds_has s d f = true.
Proof.
  unfold fds_hasDevice, fds_has. rewrite existsb_exists. setoid_rewrite bool_decide_eq_true. split.
  - intros ([f ds] & Hin%list_elem_of_In%elem_of_map_to_list & Hd). exists f. by rewrite Hin.
  - intros [f Hf]. destruct (s !! f) as [ds|] eqn:E; [|set_solver]. exists (f, ds). split; [|done].
    by apply list_elem_of_In, elem_of_map_to_list.
Qed.

Section introductions_spec.
Context (myID : list Z) (DefaultDevice introducerCfg : DeviceConfiguration).
Abbreviation intro_device := (introduce_device myID DefaultDevice introducerCfg).
Abbreviation intro_folder := (introduce_folder myID DefaultDevice introducerCfg).
Abbreviation introduced := (introduced_share introducerCfg).

(** A device that may be shared with: it needs no password, or the folder is encrypted here. *)
Definition no_password (f : FolderConfiguration) (device : Device) : Prop :=
  fcType f = FolderTypeReceiveEncrypted ∨ dEncryptionPasswordToken device = [].

Lemma no_password_spec f device :
  negb (fcType f =? FolderTypeReceiveEncrypted) && bool_decide (dEncryptionPasswordToken device ≠ []) = false ↔
  no_password f device.
Proof.
  unfold no_password. destruct (Z.eqb_spec (fcType f) FolderTypeReceiveEncrypted); cbn.
  - split; [by left|done].
  - rewrite bool_decide_eq_false. split; [|intros [|]; tauto]. intros H. right. by apply dec_stable.
Qed.

(** Devices that are not the local one. *)
Definition others (ds : list Device) (device : Device) : Prop := device ∈ ds ∧ dID device ≠ myID.

(** The first mention of a device, other than the local one. *)
Definition first_named (ds : list Device) (d : list Z) : option Device :=
  find (λ device, bool_decide (dID device = d ∧ dID device ≠ myID)) ds.

Lemma first_named_app ds1 ds2 d :
  first_named (ds1 ++ ds2) d = match first_named ds1 d with Some device => Some device | None => first_named ds2 d end.
Proof. unfold first_named. induction ds1 as [|x ds1 IH]; cbn [app find]; [done|]. by case_bool_decide. Qed.

Lemma first_named_Some ds d device : first_named ds d = Some device → others ds device ∧ dID device = d.
Proof. intros [Hin%list_elem_of_In [<- Hne]%bool_decide_eq_true]%find_some. by split. Qed.

Lemma first_named_None ds d : first_named ds d = None → ∀ device, others ds device → dID device ≠ d.
Proof.
  intros Hf device [Hin%list_elem_of_In Hne] Hd. pose proof (find_none _ _ Hf _ Hin) as Hb. cbn in Hb.
  by rewrite bool_decide_true in Hb.
Qed.

(** The configured devices, and the new ones as the template, the message and the
    introducer give them. *)
Definition with_introduced (devices : gmap (list Z) DeviceConfiguration) (ds : list Device) (d : list Z) : option DeviceConfiguration :=
  match devices !! d with
  | Some c => Some c
  | None => introduceDevice DefaultDevice introducerCfg <$> first_named ds d
  end.

(** What the inner loop has done when it has seen some devices. *)
Record inner (folderID : string) (st0 st : istate) (seen : list Device) : Prop := {
  in_folder : ∃ new, iFolder st = (iFolder st0) <| fcDevices := fcDevices (iFolder st0) ++ new |> ∧
    (∀ e, e ∈ new → ∃ device, others seen device ∧ no_password (iFolder st0) device ∧ e = introduced device) ∧
    (iChanged st = false → iChanged st0 = false ∧ new = []) ∧ (iChanged st0 = true → iChanged st = true) ∧
    ((∀ d, d ∈ shared_ids (iFolder st0) → is_Some (iDevices st0 !! d)) → NoDup (fdDeviceID <$> new) ∧
       ∀ e, e ∈ new → fdDeviceID e ∉ shared_ids (iFolder st0));
  in_shared device : others seen device → no_password (iFolder st0) device → dID device ∈ shared_ids (iFolder st);
  in_devices d : iDevices st !! d = with_introduced (iDevices st0) seen d;
  in_known d : is_Some (iDevices st !! d) ↔ is_Some (iDevices st0 !! d) ∨ ∃ device, others seen device ∧ dID device = d;
  in_kept d c : iDevices st0 !! d = Some c → iDevices st !! d = Some c;
  in_pairs d f : fds_has (iPairs st) d f = true ↔
    fds_has (iPairs st0) d f = true ∨ (f = folderID ∧ ∃ device, others seen device ∧ dID device = d);
}.

Lemma others_snoc ds x device : others (ds ++ [x]) device ↔ others ds device ∨ (device = x ∧ dID x ≠ myID).
Proof. unfold others. rewrite elem_of_app, list_elem_of_singleton. naive_solver. Qed.

Lemma inner_nil folderID st : inner folderID st st [].
Proof.
  assert (Hno : ∀ device, ¬ others [] device) by (intros device [H _]; by apply elem_of_nil in H).
  constructor; try naive_solver.
  - exists []. rewrite app_nil_r. split_and!; [by destruct st as [[]]|set_solver|done|done|]. split; [constructor|set_solver].
  - intros d. unfold with_introduced. by destruct (iDevices st !! d).
Qed.

Lemma inner_step folderID st0 st seen device :
  inner folderID st0 st seen → inner folderID st0 (intro_device folderID st device) (seen ++ [device]).
Proof.
  intros [(new & E & Hnew & Hf & Ht & Hfr) H2 H3 H4 H5 H6]. unfold introduce_device.
  case_bool_decide as Hme.
  { assert (Hsame : ∀ d, others (seen ++ [device]) d ↔ others seen d) by (intros d; rewrite others_snoc; naive_solver).
    constructor; try (setoid_rewrite Hsame; assumption); [| |assumption].
    - exists new. setoid_rewrite Hsame. done.
    - intros d. rewrite H3. unfold with_introduced. rewrite first_named_app. cbn [first_named find].
      rewrite (bool_decide_false (dID device = d ∧ _)) by naive_solver. by destruct (first_named seen d). }
  assert (Hsn : ∀ d, others (seen ++ [device]) d ↔ others seen d ∨ d = device).
  { intros d. rewrite others_snoc. naive_solver. }
  cbv zeta. set (devices := if match iDevices st !! dID device with Some _ => true | None => false end then _ else _).
  assert (Hdev : (∀ d, devices !! d = with_introduced (iDevices st0) (seen ++ [device]) d) ∧
                 (∀ d, is_Some (devices !! d) ↔ is_Some (iDevices st0 !! d) ∨
                    ∃ device', others (seen ++ [device]) device' ∧ dID device' = d) ∧
                 (∀ d c, iDevices st0 !! d = Some c → devices !! d = Some c)).
  { setoid_rewrite Hsn. unfold devices. clear devices. destruct (iDevices st !! dID device) as [c0|] eqn:Hk.
    - split_and!; [| |done].
      { intros d. rewrite H3. unfold with_introduced. rewrite first_named_app. destruct (iDevices st0 !! d) eqn:H0; [done|].
        destruct (first_named seen d) eqn:Hfn; [done|]. unfold first_named. cbn [find]. case_bool_decide as Hd; [|done].
        destruct Hd as [<- _]. rewrite H3 in Hk. unfold with_introduced in Hk. rewrite H0, Hfn in Hk. done. }
      intros d. rewrite H4. split.
      + intros [Hd|(d' & Hd & <-)]; eauto.
      + intros [Hd|(d' & [Hd| ->] & <-)]; [eauto..|]. apply H4. eauto.
    - split_and!.
      + intros d. unfold with_introduced. rewrite first_named_app. destruct (decide (dID device = d)) as [<-|Hne].
        * rewrite lookup_insert_eq. rewrite H3 in Hk. unfold with_introduced in Hk.
          destruct (iDevices st0 !! dID device); [done|]. destruct (first_named seen (dID device)); [done|].
          unfold first_named. cbn [find]. by rewrite bool_decide_true.
        * rewrite lookup_insert_ne, H3 by done. unfold with_introduced. destruct (iDevices st0 !! d); [done|].
          destruct (first_named seen d); [done|]. unfold first_named. cbn [find]. rewrite bool_decide_false; [done|]. by intros [].
      + intros d. rewrite lookup_insert_is_Some, H4. split.
        * intros [<-|[_ [Hd|(d' & Hd & <-)]]]; [|by left|]; right; [exists device|exists d']; auto.
        * intros Hd. destruct (decide (dID device = d)) as [|Hne]; [by left|]. right. split; [done|].
          destruct Hd as [Hd|(d' & [Hd| ->] & <-)]; [by left| |done]. right. eauto.
      + intros d c Hd. rewrite lookup_insert_ne; [auto|]. intros E'. rewrite <-E' in Hd. apply H5 in Hd. congruence. }
  clearbody devices. destruct Hdev as (D1 & D2 & D3).
  assert (Hp : ∀ d f, fds_has (fds_set (iPairs st) (dID device) folderID) d f = true ↔ fds_has (iPairs st0) d f = true ∨
            (f = folderID ∧ ∃ device', others (seen ++ [device]) device' ∧ dID device' = d)).
  { intros d f. rewrite fds_has_set, H6. setoid_rewrite Hsn. split.
    - intros [[-> ->]|[Hd|(-> & d' & Hd & <-)]]; [|by left|]; right; (split; [done|]); [exists device|exists d']; auto.
    - intros [Hd|(-> & d' & [Hd| ->] & <-)]; [auto| |by left]. right. right. eauto. }
  assert (Hold : ∀ e, e ∈ new → ∃ device', others (seen ++ [device]) device' ∧ no_password (iFolder st0) device' ∧ e = introduced device').
  { intros e He. destruct (Hnew e He) as (d & Hd & Hp' & ->). exists d. rewrite Hsn. auto. }
  assert (Hmono : ∀ l, shared_ids (iFolder st) ⊆ shared_ids ((iFolder st) <| fcDevices := fcDevices (iFolder st) ++ l |>)).
  { intros l d. unfold shared_ids. cbn. rewrite fmap_app, elem_of_app. auto. }
  destruct (match iDevices st !! dID device with Some _ => true | None => false end && SharedWith (iFolder st) (dID device)) eqn:Hs;
    [|destruct (negb _ && _) eqn:Hpw]; constructor; cbn [iFolder iChanged iDevices iPairs]; try assumption.
  - exists new. done.
  - intros d [Hd| ->]%Hsn; [auto|]. intros _. apply andb_true_iff in Hs as [_ Hs]. by apply SharedWith_spec.
  - exists new. done.
  - intros d [Hd| ->]%Hsn; [auto|]. rewrite <-no_password_spec. rewrite E in Hpw. cbn in Hpw. congruence.
  - apply no_password_spec in Hpw. exists (new ++ [introduced device]). split_and!; [|..|done|done|].
    + rewrite E. cbn. by rewrite (assoc_L (++)).
    + intros e [He| ->%list_elem_of_singleton]%elem_of_app; [auto|]. exists device. rewrite Hsn.
      rewrite E in Hpw. auto.
    + intros Hkn. destruct (Hfr Hkn) as [Hnd Hdis].
      assert (Hnot : dID device ∉ shared_ids (iFolder st)).
      { intros Hin. assert (is_Some (iDevices st !! dID device)) as [c Hc].
        { apply H4. rewrite E in Hin. unfold shared_ids in Hin. cbn in Hin. rewrite fmap_app in Hin.
          apply elem_of_app in Hin as [Hin|(e & He & Hin)%list_elem_of_fmap]; [left; by apply Hkn|right].
          destruct (Hnew e Hin) as (d & Hd & _ & ->). by exists d. }
        rewrite Hc in Hs. cbn [andb] in Hs. apply SharedWith_spec in Hin. congruence. }
      rewrite E in Hnot. unfold shared_ids in Hnot. cbn in Hnot. rewrite fmap_app in Hnot. apply not_elem_of_app in Hnot as [Hn1 Hn2].
      split.
      * rewrite fmap_app. apply NoDup_app. split; [done|]. split; [|apply NoDup_singleton].
        intros d Hd ->%list_elem_of_singleton. done.
      * intros e [He| ->%list_elem_of_singleton]%elem_of_app; [auto|done].
  - intros d [Hd| ->]%Hsn Hn; [by apply Hmono, H2|]. unfold shared_ids. cbn. rewrite fmap_app, elem_of_app.
    right. cbn. left.
Qed.

Lemma inner_all folderID st0 ds : inner folderID st0 (fold_left (intro_device folderID) ds st0) ds.
Proof.
  induction ds as [|device ds IH] using rev_ind; [apply inner_nil|]. rewrite fold_left_app. by apply inner_step.
Qed.

Definition keyed (folders : gmap string FolderConfiguration) : Prop := ∀ k f, folders !! k = Some f → fcID f = k.

(** The message names a device, not the local one, for a folder. *)
Definition names (cm : list Folder) (k : string) (device : Device) : Prop :=
  ∃ folder, folder ∈ cm ∧ foID folder = k ∧ others (foDevices folder) device.

(** ... that is configured here. *)
Definition announced (cm : list Folder) (folders : gmap string FolderConfiguration) (d : list Z) (k : string) : Prop :=
  is_Some (folders !! k) ∧ ∃ device, names cm k device ∧ dID device = d.

(** The devices of the folders that are configured here, in the order of the message. *)
Definition mentioned (cm : list Folder) (folders : gmap string FolderConfiguration) : list Device :=
  mjoin (foDevices <$> filter (λ folder, is_Some (folders !! foID folder)) cm).

(** Every device a folder is shared with is configured. *)
Definition closed (folders : gmap string FolderConfiguration) (devices : gmap (list Z) DeviceConfiguration) : Prop :=
  ∀ k f d, folders !! k = Some f → d ∈ shared_ids f → is_Some (devices !! d).

(** The new entries of a folder: for named devices without a password, no device twice
    and none that had one. *)
Definition new_shares (cm : list Folder) (k : string) (f0 : FolderConfiguration) (new : list FolderDeviceConfiguration) : Prop :=
  (∀ e, e ∈ new → ∃ device, names cm k device ∧ no_password f0 device ∧ e = introduced device) ∧
  NoDup (fdDeviceID <$> new) ∧ ∀ e, e ∈ new → fdDeviceID e ∉ shared_ids f0.

Record outer (folders0 : gmap string FolderConfiguration) (devices0 : gmap (list Z) DeviceConfiguration)
    (st : hstate) (seen : list Folder) : Prop := {
  ou_none k : folders0 !! k = None → hFolders st !! k = None;
  ou_folder k f0 : folders0 !! k = Some f0 →
    ∃ new, hFolders st !! k = Some (f0 <| fcDevices := fcDevices f0 ++ new |>) ∧
      new_shares seen k f0 new ∧
      (∀ device, names seen k device → no_password f0 device →
         dID device ∈ shared_ids (f0 <| fcDevices := fcDevices f0 ++ new |>));
  ou_same : hChanged st = false → hFolders st = folders0;
  ou_devices d : hDevices st !! d = with_introduced devices0 (mentioned seen folders0) d;
  ou_known d : is_Some (hDevices st !! d) ↔ is_Some (devices0 !! d) ∨ ∃ k, announced seen folders0 d k;
  ou_kept d c : devices0 !! d = Some c → hDevices st !! d = Some c;
  ou_pairs d k : fds_has (hPairs st) d k = true ↔ announced seen folders0 d k;
}.

Lemma names_snoc cm folder k device :
  names (cm ++ [folder]) k device ↔ names cm k device ∨ (foID folder = k ∧ others (foDevices folder) device).
Proof.
  unfold names. split.
  - intros (g & [Hg| ->%list_elem_of_singleton]%elem_of_app & Hk & Ho); [left; eauto|by right].
  - intros [(g & Hg & Hk & Ho)|[Hk Ho]].
    + exists g. split; [apply elem_of_app; by left|done].
    + exists folder. split; [apply elem_of_app; right; left|done].
Qed.

Lemma announced_snoc cm folder folders d k :
  announced (cm ++ [folder]) folders d k ↔
  announced cm folders d k ∨ (is_Some (folders !! k) ∧ foID folder = k ∧ ∃ device, others (foDevices folder) device ∧ dID device = d).
Proof.
  unfold announced. setoid_rewrite names_snoc. split.
  - intros [Hk (device & [Hn|[Hf Ho]] & <-)]; [left|right]; eauto.
  - intros [[Hk (device & Hn & <-)]|(Hk & Hf & device & Ho & <-)]; (split; [done|]); exists device; auto.
Qed.

Lemma outer_nil folders devices : outer folders devices (MkHState folders devices ∅ false) [].
Proof.
  assert (Hno : ∀ k device, ¬ names [] k device).
  { intros k device (g & Hg & _). by apply elem_of_nil in Hg. }
  assert (Hna : ∀ d k, ¬ announced [] folders d k) by (intros d k (_ & device & Hn & _); by apply Hno in Hn).
  constructor; cbn [hFolders hDevices hPairs hChanged]; try done.
  - intros k f0 Hk. exists []. rewrite app_nil_r. split; [by destruct f0|]. split; [split_and!; [set_solver|constructor|set_solver]|].
    intros device Hn. by apply Hno in Hn.
  - intros d. unfold with_introduced. by destruct (devices !! d).
  - intros d. split; [by left|]. intros [|[k Hk]]; [done|]. by apply Hna in Hk.
  - intros d k. unfold fds_has. rewrite lookup_empty. split; [done|]. intros Hk. by apply Hna in Hk.
Qed.

Lemma new_shares_snoc cm folder k f0 new : new_shares cm k f0 new → new_shares (cm ++ [folder]) k f0 new.
Proof.
  intros (Hnew & H). split; [|done]. intros e He. destruct (Hnew e He) as (d & Hd & ?). exists d.
  split; [|done]. apply names_snoc. by left.
Qed.

Lemma mentioned_snoc cm folder folders :
  mentioned (cm ++ [folder]) folders = mentioned cm folders ++ (if decide (is_Some (folders !! foID folder)) then foDevices folder else []).
Proof.
  unfold mentioned. rewrite filter_app, fmap_app, join_app. f_equal. rewrite filter_cons, filter_nil.
  case_decide; [|done]. cbn. by rewrite app_nil_r.
Qed.

Lemma outer_step folders0 devices0 st seen folder :
  keyed folders0 → closed folders0 devices0 → outer folders0 devices0 st seen → outer folders0 devices0 (intro_folder st folder) (seen ++ [folder]).
Proof.
  intros Hkeyed Hclosed [H1 H2 H3 Hdv H4 H5 H6]. unfold introduce_folder.
  destruct (folders0 !! foID folder) as [f0|] eqn:Hf0.
  2: { rewrite H1 by done.
       assert (Hna : ∀ d k, announced (seen ++ [folder]) folders0 d k ↔ announced seen folders0 d k).
       { intros d k. rewrite announced_snoc. split; [|by left]. intros [|([f Hf] & <- & _)]; congruence. }
       constructor; try done; [| |by setoid_rewrite Hna..].
       - intros k f0 Hk. destruct (H2 k f0 Hk) as (new & E & Hnew & Hsh). exists new. split; [done|].
         split; [by apply new_shares_snoc|]. setoid_rewrite names_snoc. intros d [Hd|[<- _]]; [auto|congruence].
       - intros d. rewrite mentioned_snoc, decide_False by (rewrite Hf0; apply is_Some_None). by rewrite app_nil_r. }
  destruct (H2 _ _ Hf0) as (new & E & Hnew & Hsh). rewrite E.
  set (f1 := f0 <| fcDevices := fcDevices f0 ++ new |>) in *.
  destruct (inner_all (foID folder) (MkIState f1 false (hDevices st) (hPairs st)) (foDevices folder))
    as [(new' & I1 & Inew & If & _ & Ifr) I2 I3 I4 I5 I6].
  cbn [iFolder iChanged iDevices iPairs] in *. set (i := fold_left _ _ _) in *.
  assert (Eid : fcID (iFolder i) = foID folder).
  { rewrite I1. change (fcID f0 = foID folder). by apply Hkeyed. }
  assert (Hann : ∀ d k, announced (seen ++ [folder]) folders0 d k ↔ announced seen folders0 d k ∨
            (k = foID folder ∧ ∃ device, others (foDevices folder) device ∧ dID device = d)).
  { intros d k. rewrite announced_snoc. split.
    - intros [|(_ & <- & H)]; auto.
    - intros [|[-> H]]; [by left|right]. rewrite Hf0. eauto. }
  set (folders1 := if iChanged i then <[fcID (iFolder i) := iFolder i]> (hFolders st) else hFolders st).
  assert (Hf1 : folders1 !! foID folder = Some (iFolder i) ∧ ∀ k, k ≠ foID folder → folders1 !! k = hFolders st !! k).
  { unfold folders1. destruct (iChanged i) eqn:Ec.
    - rewrite Eid, lookup_insert_eq. split; [done|]. intros k Hk. by rewrite lookup_insert_ne.
    - split; [|done]. rewrite I1, E. destruct (If eq_refl) as [_ ->]. rewrite app_nil_r. by destruct f0. }
  destruct Hf1 as [Hfa Hfb].
  replace (if iChanged i then _ else _) with
    (MkHState folders1 (iDevices i) (iPairs i) (if iChanged i then true else hChanged st))
    by (unfold folders1; by destruct (iChanged i)).
  constructor; cbn [hFolders hDevices hPairs hChanged].
  - intros k Hk. rewrite Hfb; [auto|]. congruence.
  - intros k g0 Hk. destruct (decide (k = foID folder)) as [->|Hne].
    + rewrite Hf0 in Hk. injection Hk as <-. exists (new ++ new'). rewrite Hfa, I1. split; [|split].
      * unfold f1. cbn. by rewrite (assoc_L (++)).
      * destruct Hnew as (Hnew & Hnd & Hdis). destruct Ifr as [Ind Idis].
        { intros d Hd. apply H4. unfold shared_ids, f1 in Hd. cbn in Hd. rewrite fmap_app in Hd.
          apply elem_of_app in Hd as [Hd|(e & -> & He)%list_elem_of_fmap]; [left; by apply (Hclosed (foID folder) f0)|right].
          destruct (Hnew e He) as (device & Hd & _ & ->). exists (foID folder). split; [by rewrite Hf0|eauto]. }
        assert (Hdis' : ∀ e, e ∈ new' → (fdDeviceID e ∉ shared_ids f0) ∧ fdDeviceID e ∉ (fdDeviceID <$> new)).
        { intros e He. specialize (Idis e He). unfold shared_ids, f1 in Idis. cbn in Idis. rewrite fmap_app in Idis.
          by apply not_elem_of_app. }
        split; [|split].
        -- setoid_rewrite names_snoc. intros e [He|He]%elem_of_app.
           ++ destruct (Hnew e He) as (d & Hd & ? & ->). eauto.
           ++ destruct (Inew e He) as (d & Hd & ? & ->). eauto 6.
        -- rewrite fmap_app. apply NoDup_app. split; [done|]. split; [|done].
           intros d Hd (e & -> & He)%list_elem_of_fmap. by apply (Hdis' e He).
        -- intros e [He|He]%elem_of_app; [auto|by apply Hdis'].
      * intros device Hd Hp.
        replace (f0 <| fcDevices := fcDevices f0 ++ new ++ new' |>) with (iFolder i)
          by (rewrite I1; unfold f1; cbn; by rewrite (assoc_L (++))).
        apply names_snoc in Hd as [Hd|[_ Hd]]; [|by apply I2].
        rewrite I1. specialize (Hsh device Hd Hp). unfold shared_ids in *. cbn in *. rewrite fmap_app, elem_of_app. by left.
    + rewrite Hfb by done. destruct (H2 k g0 Hk) as (newk & Ek & Hnewk & Hshk). exists newk. split; [done|].
      split; [by apply new_shares_snoc|]. setoid_rewrite names_snoc. intros device [Hd|[Hd _]]; [auto|congruence].
  - unfold folders1. destruct (iChanged i); [done|exact H3].
  - intros d. rewrite I3, mentioned_snoc, decide_True by (by rewrite Hf0). unfold with_introduced. rewrite Hdv. unfold with_introduced.
    rewrite first_named_app. destruct (devices0 !! d); [done|]. by destruct (first_named (mentioned seen folders0) d).
  - intros d. rewrite I4, H4. setoid_rewrite Hann. split.
    + intros [[Hd|[k Hk]]|Hd]; eauto.
    + intros [Hd|[k [Hk|[-> Hd]]]]; eauto.
  - intros d c Hd. auto.
  - intros d k. rewrite I6, H6, Hann. done.
Qed.

Lemma handleIntroductions_outer cm folders devices :
  keyed folders → closed folders devices → outer folders devices (handleIntroductions myID DefaultDevice introducerCfg cm folders devices) cm.
Proof.
  intros Hk Hcl. unfold handleIntroductions.
  induction cm as [|folder cm IH] using rev_ind; [apply outer_nil|]. rewrite fold_left_app. by apply outer_step.
Qed.

(** Both passes. *)
Definition introduction (cm : list Folder) (folders : gmap string FolderConfiguration)
    (devices : gmap (list Z) DeviceConfiguration) :=
  let h := handleIntroductions myID DefaultDevice introducerCfg cm folders devices in
  (hChanged h, handleDeintroductions introducerCfg (hPairs h) (hFolders h) (hDevices h)).

Abbreviation skip := (dcSkipIntroductionRemovals introducerCfg = true).
Abbreviation by_introducer e := (fdIntroducedBy e = dcDeviceID introducerCfg).

(** The folders after both passes: the old entries that stay and the new ones. *)
Definition result (cm : list Folder) (folders : gmap string FolderConfiguration) (k : string) (f0 f : FolderConfiguration) : Prop :=
  ∃ old new, f = f0 <| fcDevices := old ++ new |> ∧ old `sublist_of` fcDevices f0 ∧
    (∀ e, e ∈ old ↔ e ∈ fcDevices f0 ∧ (skip ∨ ¬ by_introducer e ∨ announced cm folders (fdDeviceID e) k)) ∧
    new_shares cm k f0 new ∧
    (∀ device, names cm k device → no_password f0 device → dID device ∈ shared_ids f).

Lemma introduction_folder cm folders devices folders' devices' ch ch' k f0 :
  keyed folders → closed folders devices → introduction cm folders devices = (ch, (folders', devices', ch')) → folders !! k = Some f0 →
  ∃ f, folders' !! k = Some f ∧ result cm folders k f0 f.
Proof.
  intros Hkeyed Hclosed E Hk. pose proof (handleIntroductions_outer cm folders devices Hkeyed Hclosed) as [_ H2 _ _ _ _ H6].
  destruct (H2 k f0 Hk) as (new & Eh & Hnew & Hsh). unfold introduction in E. injection E as _ E.
  set (h := handleIntroductions _ _ _ _ _ _) in *. unfold handleDeintroductions in E.
  destruct (dcSkipIntroductionRemovals introducerCfg) eqn:Hskip; injection E as <- _ _.
  { exists (f0 <| fcDevices := fcDevices f0 ++ new |>). split; [done|]. exists (fcDevices f0), new.
    split_and!; [done|done|intros e; split; [auto|tauto]|done|done]. }
  rewrite lookup_fmap, Eh. eexists. split; [reflexivity|].
  assert (Hstay : ∀ e, stays introducerCfg (hPairs h) (f0 <| fcDevices := fcDevices f0 ++ new |>) e ↔
            ¬ by_introducer e ∨ announced cm folders (fdDeviceID e) k).
  { intros e. unfold stays. rewrite H6. change (fcID (f0 <| fcDevices := fcDevices f0 ++ new |>)) with (fcID f0).
    by rewrite (Hkeyed k f0 Hk). }
  assert (Hann : ∀ device, names cm k device → announced cm folders (dID device) k).
  { intros device Hn. split; [by rewrite Hk|eauto]. }
  exists (filter (stays introducerCfg (hPairs h) (f0 <| fcDevices := fcDevices f0 ++ new |>)) (fcDevices f0)), new.
  assert (Hfn : filter (stays introducerCfg (hPairs h) (f0 <| fcDevices := fcDevices f0 ++ new |>)) new = new).
  { apply filter_id, Forall_forall. intros e He. apply Hstay. destruct (proj1 Hnew e He) as (device & Hd & _ & ->). right. by apply Hann. }
  split_and!.
  - unfold unshare. change (fcDevices (f0 <| fcDevices := ?l |>)) with l. by rewrite filter_app, Hfn.
  - apply sublist_filter.
  - intros e. rewrite list_elem_of_filter, Hstay. split; [tauto|]. intros [He [Hs|Hs]]; [congruence|tauto].
  - done.
  - intros device Hn Hp. specialize (Hsh device Hn Hp). unfold shared_ids, unshare in *.
    change (fcDevices (f0 <| fcDevices := ?l |>)) with l in *.
    change (fcDevices ((f0 <| fcDevices := ?l |>) <| fcDevices := ?m |>)) with m.
    apply list_elem_of_fmap in Hsh as (e & He & Hin). rewrite He. apply list_elem_of_fmap_2, list_elem_of_filter.
    split; [|done]. apply Hstay. right. rewrite <-He. by apply Hann.
Qed.

Lemma introduction_dom cm folders devices folders' devices' ch ch' :
  keyed folders → closed folders devices → introduction cm folders devices = (ch, (folders', devices', ch')) →
  dom folders' = dom folders.
Proof.
  intros Hkeyed Hclosed E. pose proof (handleIntroductions_outer cm folders devices Hkeyed Hclosed) as [H1 H2 _ _ _ _ _].
  unfold introduction in E. injection E as _ E. set (h := handleIntroductions _ _ _ _ _ _) in *.
  assert (Hd : dom (hFolders h) = dom folders).
  { apply set_eq. intros k. rewrite !elem_of_dom. destruct (folders !! k) as [f0|] eqn:H0; [|by rewrite H1].
    destruct (H2 k f0 H0) as (new & -> & _). split; eauto. }
  rewrite <-Hd. unfold handleDeintroductions in E.
  destruct (dcSkipIntroductionRemovals introducerCfg); injection E as <- _ _; [done|]. apply dom_fmap_L.
Qed.

(** A device that is removed: this introducer introduced it, names it for no folder that
    is configured here, and no share is left that someone else gave it. *)
Definition gone (cm : list Folder) (folders : gmap string FolderConfiguration) (d : list Z) (c : DeviceConfiguration) : Prop :=
  ¬ skip ∧ dcIntroducedBy c = dcDeviceID introducerCfg ∧ (∀ k, ¬ announced cm folders d k) ∧
  ¬ notIntroduced introducerCfg folders d.

(** New shares are those of the introducer. *)
Lemma notIntroduced_same cm folders devices d : keyed folders → closed folders devices →
  notIntroduced introducerCfg (hFolders (handleIntroductions myID DefaultDevice introducerCfg cm folders devices)) d ↔
  notIntroduced introducerCfg folders d.
Proof.
  intros Hkeyed Hclosed. pose proof (handleIntroductions_outer cm folders devices Hkeyed Hclosed) as [H1 H2 _ _ _ _ _].
  set (h := handleIntroductions _ _ _ _ _ _) in *. split; intros (k & f & Hk & (e & He & Hne & Hd)%Exists_exists).
  - destruct (folders !! k) as [f0|] eqn:H0; [|by rewrite H1 in Hk]. exists k, f0. split; [done|]. apply Exists_exists. exists e.
    split; [|done]. destruct (H2 k f0 H0) as (new & E & Hnew & _). rewrite E in Hk. injection Hk as <-.
    cbn in He. apply elem_of_app in He as [He|He]; [done|]. by destruct (proj1 Hnew e He) as (device & _ & _ & ->).
  - destruct (H2 k f Hk) as (new & E & _). exists k, (f <| fcDevices := fcDevices f ++ new |>). split; [done|].
    apply Exists_exists. exists e. split; [|done]. cbn. apply elem_of_app. by left.
Qed.

(** The devices after both passes, exactly. *)
Lemma introduction_device cm folders devices folders' devices' ch ch' d c :
  keyed folders → closed folders devices → introduction cm folders devices = (ch, (folders', devices', ch')) →
  devices' !! d = Some c ↔ with_introduced devices (mentioned cm folders) d = Some c ∧ ¬ gone cm folders d c.
Proof.
  intros Hkeyed Hclosed E. pose proof (notIntroduced_same cm folders devices d Hkeyed Hclosed) as Hni.
  pose proof (handleIntroductions_outer cm folders devices Hkeyed Hclosed) as [_ _ _ Hdv _ _ H6].
  unfold introduction in E. injection E as _ E. set (h := handleIntroductions _ _ _ _ _ _) in *. rewrite <-Hdv.
  unfold handleDeintroductions in E. unfold gone. destruct (dcSkipIntroductionRemovals introducerCfg) eqn:Hskip; injection E as _ <- _.
  { naive_solver. }
  rewrite map_lookup_filter_Some. cbn. unfold removes. rewrite Hni, <-not_true_iff_false, fds_hasDevice_spec.
  setoid_rewrite H6. naive_solver.
Qed.

Lemma introduction_devices cm folders devices folders' devices' ch ch' :
  keyed folders → closed folders devices → introduction cm folders devices = (ch, (folders', devices', ch')) →
  closed folders' devices' ∧
  (∀ d k, announced cm folders d k → is_Some (devices' !! d)) ∧
  (∀ d c, devices !! d = Some c → devices' !! d = Some c ∨
     (devices' !! d = None ∧ ¬ skip ∧ dcIntroducedBy c = dcDeviceID introducerCfg ∧ ∀ k, ¬ announced cm folders d k)).
Proof.
  intros Hkeyed Hclosed E.
  assert (Hres : ∀ k f, folders' !! k = Some f → ∃ f0, folders !! k = Some f0 ∧ result cm folders k f0 f).
  { intros k f Hk. destruct (folders !! k) as [f0|] eqn:H0.
    - destruct (introduction_folder _ _ _ _ _ _ _ k f0 Hkeyed Hclosed E H0) as (f' & Hf' & Hr). exists f0. split; [done|]. congruence.
    - exfalso. pose proof (handleIntroductions_outer cm folders devices Hkeyed Hclosed) as [H1 _ _ _ _ _ _].
      specialize (H1 k H0). unfold introduction, handleDeintroductions in E. injection E as _ E.
      destruct (dcSkipIntroductionRemovals introducerCfg); injection E as <- _ _; [congruence|].
      rewrite lookup_fmap, H1 in Hk. done. }
  pose proof (handleIntroductions_outer cm folders devices Hkeyed Hclosed) as [_ H2 _ Hdv H4 H5 H6].
  unfold introduction in E. injection E as _ E. set (h := handleIntroductions _ _ _ _ _ _) in *.
  assert (Hin : ∀ k f e, folders' !! k = Some f → e ∈ fcDevices f →
            is_Some (hDevices h !! fdDeviceID e) ∧
            (skip ∨ announced cm folders (fdDeviceID e) k ∨ notIntroduced introducerCfg (hFolders h) (fdDeviceID e))).
  { intros k f e Hk He. destruct (Hres k f Hk) as (f0 & H0 & old & new & -> & _ & Hold & Hnew & _).
    change (fcDevices (f0 <| fcDevices := ?l |>)) with l in He. apply elem_of_app in He as [He|He].
    - apply Hold in He as [He Hs]. split.
      + apply H4. left. apply (Hclosed k f0); [done|]. by apply list_elem_of_fmap_2.
      + destruct Hs as [|[Hs|]]; [by left| |by right; left]. right. right.
        destruct (H2 k f0 H0) as (more & Eh & _). exists k, (f0 <| fcDevices := fcDevices f0 ++ more |>).
        split; [done|]. apply Exists_exists. exists e. split; [|done].
        change (fcDevices (f0 <| fcDevices := ?l |>)) with l. apply elem_of_app. by left.
    - destruct (proj1 Hnew e He) as (device & Hn & _ & ->).
      assert (announced cm folders (dID device) k) by (split; [by rewrite H0|eauto]).
      split; [|by right; left]. apply H4. right. eauto. }
  unfold handleDeintroductions in E. destruct (dcSkipIntroductionRemovals introducerCfg) eqn:Hskip; injection E as Ef <- _.
  { split_and!.
    - intros k f d Hk (e & -> & He)%list_elem_of_fmap. by destruct (Hin k f e Hk He).
    - intros d k Hk. apply H4. eauto.
    - intros d c Hd. left. auto. }
  assert (Hkeep : ∀ d c, hDevices h !! d = Some c →
            (∃ k, announced cm folders d k) ∨ notIntroduced introducerCfg (hFolders h) d →
            filter (λ kv : list Z * DeviceConfiguration, ¬ removes introducerCfg (hPairs h) (hFolders h) kv.1 kv.2) (hDevices h) !! d = Some c).
  { intros d c Hd Hk. apply map_lookup_filter_Some. split; [done|]. cbn. intros (_ & Hno & Hni).
    destruct Hk as [[k Hk]|]; [|done]. apply not_true_iff_false in Hno. destruct Hno.
    apply fds_hasDevice_spec. exists k. by apply H6. }
  split_and!.
  - intros k f d Hk (e & -> & He)%list_elem_of_fmap. destruct (Hin k f e Hk He) as [[c Hc] [|Hs]]; [congruence|].
    exists c. apply Hkeep; [done|]. destruct Hs; eauto.
  - intros d k Hk. destruct (proj2 (H4 d) (or_intror (ex_intro _ k Hk))) as [c Hc]. exists c. eauto.
  - intros d c Hd. apply H5 in Hd.
    destruct (decide (removes introducerCfg (hPairs h) (hFolders h) d c)) as [(Hi & Hno & Hni)|Hr].
    + right. split_and!; [|congruence|done|].
      * apply map_lookup_filter_None. right. intros c' Hc'. cbn. rewrite Hd in Hc'. injection Hc' as <-.
        intros Hn. apply Hn. done.
      * intros k Hk%H6. apply not_true_iff_false in Hno. apply Hno, fds_hasDevice_spec. eauto.
    + left. by apply map_lookup_filter_Some.
Qed.

Lemma unshare_id fds f : Forall (stays introducerCfg fds f) (fcDevices f) →
  unshare introducerCfg fds f = f ∧ unshares introducerCfg fds f = false.
Proof.
  intros H. unfold unshare, unshares. split.
  - rewrite filter_id by done. by destruct f.
  - apply not_true_iff_false. rewrite existsb_exists. intros (e & He%list_elem_of_In & Hn).
    rewrite Forall_forall in H. by rewrite bool_decide_true in Hn by auto.
Qed.

(** When both passes report that nothing has changed, no share has. *)
Lemma introduction_unchanged cm folders devices folders' devices' :
  keyed folders → closed folders devices → introduction cm folders devices = (false, (folders', devices', false)) →
  folders' = folders ∧ devices ⊆ devices'.
Proof.
  intros Hkeyed Hclosed E. pose proof (handleIntroductions_outer cm folders devices Hkeyed Hclosed) as [_ _ H3 _ _ H5 _].
  unfold introduction in E. injection E as Ech E. set (h := handleIntroductions _ _ _ _ _ _) in *. specialize (H3 Ech).
  assert (Hsub : devices ⊆ hDevices h) by (apply map_subseteq_spec; exact H5).
  unfold handleDeintroductions in E. destruct (dcSkipIntroductionRemovals introducerCfg); [injection E as <- <-; by split|].
  injection E as <- <- [Ef Ed]%orb_false_iff. split.
  - rewrite <-H3. apply map_eq. intros k. rewrite lookup_fmap. destruct (hFolders h !! k) as [f|] eqn:Hk; [|done]. cbn. f_equal.
    apply unshare_id, Forall_forall. intros e He. apply dec_stable. intros Hns.
    apply not_true_iff_false in Ef. apply Ef, existsb_exists. exists (k, f).
    split; [by apply list_elem_of_In, elem_of_map_to_list|]. cbn. apply existsb_exists. exists e. split; [by apply list_elem_of_In|].
    by rewrite bool_decide_false.
  - transitivity (hDevices h); [done|]. rewrite map_filter_id; [done|]. intros d c Hd Hr. cbn in Hr.
    apply not_true_iff_false in Ed. apply Ed, existsb_exists. exists (d, c). split; [by apply list_elem_of_In, elem_of_map_to_list|].
    by apply bool_decide_eq_true.
Qed.

(** C29.  What an introducer's announcement does.  The folders stay the same ones; each keeps
    its settings and the entries that this introducer has not introduced; of the
    introducer's own entries exactly those it still announces stay (all, when removals
    are off); every device it names for a folder that is configured here has a share
    then, unless it needs a password; an entry that is added is for such a device that
    had none, once.  No folder is then shared with an unknown device.  The devices are
    then exactly the configured ones, and the ones named for a folder that is configured
    here, each as the template with what the first mention says of it, less those
    that this introducer introduced, names for no such folder, and that have no
    share someone else gave them (unless removals are off).  When both passes report no
    change, no share and no old device has changed. *)
Theorem introduction_spec cm folders devices folders' devices' ch ch' :
  keyed folders → closed folders devices → introduction cm folders devices = (ch, (folders', devices', ch')) →
  dom folders' = dom folders ∧
  (∀ k f0, folders !! k = Some f0 → ∃ f, folders' !! k = Some f ∧ result cm folders k f0 f) ∧
  closed folders' devices' ∧
  (∀ d c, devices' !! d = Some c ↔ with_introduced devices (mentioned cm folders) d = Some c ∧ ¬ gone cm folders d c) ∧
  (ch = false → ch' = false → folders' = folders ∧ devices ⊆ devices').
Proof.
  intros Hk Hc E. split; [|split; [|split; [|split]]].
  - by eapply introduction_dom.
  - intros k f0 H0. by eapply introduction_folder.
  - by eapply introduction_devices.
  - intros d c. by apply (introduction_device cm folders devices folders' devices' ch ch').
  - intros -> ->. by eapply introduction_unchanged.
Qed.

(** ** Repeating an announcement *)

(** Nothing is left to introduce. *)
Definition settled (cm : list Folder) (folders : gmap string FolderConfiguration)
    (devices : gmap (list Z) DeviceConfiguration) : Prop :=
  ∀ k f device, folders !! k = Some f → names cm k device →
    is_Some (devices !! dID device) ∧ (no_password f device → dID device ∈ shared_ids f).

Lemma inner_settled folderID f devices ds pairs :
  (∀ device, others ds device →
     is_Some (devices !! dID device) ∧ (no_password f device → dID device ∈ shared_ids f)) →
  ∃ pairs', fold_left (intro_device folderID) ds (MkIState f false devices pairs) = MkIState f false devices pairs'.
Proof.
  induction ds as [|device ds IH] in pairs |- *; intros H; [by exists pairs|]. cbn [fold_left].
  assert (Hds : ∀ d, others ds d → others (device :: ds) d) by (intros d [Hin Hme]; split; [by right|done]).
  enough (E : ∃ pairs', intro_device folderID (MkIState f false devices pairs) device = MkIState f false devices pairs').
  { destruct E as [pairs' ->]. apply IH. auto. }
  unfold introduce_device. case_bool_decide as Hme; [by exists pairs|]. cbn [iDevices iFolder iChanged iPairs].
  destruct (H device) as [[c Hc] Hs]; [by split; [left|]|]. rewrite Hc. cbn [andb].
  destruct (SharedWith f (dID device)) eqn:Hsh; [by eexists|]. destruct (negb _ && _) eqn:Hp; [by eexists|].
  apply no_password_spec, Hs, SharedWith_spec in Hp. congruence.
Qed.

Lemma handleIntroductions_settled cm folders devices :
  settled cm folders devices →
  let h := handleIntroductions myID DefaultDevice introducerCfg cm folders devices in
  hFolders h = folders ∧ hDevices h = devices ∧ hChanged h = false.
Proof.
  intros Hs. unfold handleIntroductions. generalize (∅ : folderDeviceSet) as pairs.
  induction cm as [|folder cm IH]; intros pairs; [done|]. cbn [fold_left].
  assert (Hcm : settled cm folders devices).
  { intros k f device Hk (g & Hg & Hf & Ho). apply (Hs k f device Hk). exists g. split; [by right|done]. }
  enough (E : ∃ pairs', intro_folder (MkHState folders devices pairs false) folder = MkHState folders devices pairs' false).
  { destruct E as [pairs' ->]. by apply IH. }
  unfold introduce_folder. cbn [hFolders hDevices hPairs hChanged].
  destruct (folders !! foID folder) as [f|] eqn:Hf; [|by eexists].
  destruct (inner_settled (foID folder) f devices (foDevices folder) pairs) as [pairs' ->].
  { intros device Ho. apply (Hs _ f device Hf). exists folder. split; [left|done]. }
  by eexists.
Qed.

Lemma handleDeintroductions_id fds folders devices :
  (skip ∨ (∀ k f e, folders !! k = Some f → e ∈ fcDevices f → stays introducerCfg fds f e) ∧
          (∀ d c, devices !! d = Some c → ¬ removes introducerCfg fds folders d c)) →
  handleDeintroductions introducerCfg fds folders devices = (folders, devices, false).
Proof.
  unfold handleDeintroductions. destruct (dcSkipIntroductionRemovals introducerCfg); [done|].
  intros [|[Hf Hd]]; [done|]. f_equal; [f_equal|].
  - apply map_eq. intros k. rewrite lookup_fmap. destruct (folders !! k) as [f|] eqn:Hk; [|done]. cbn. f_equal.
    apply unshare_id, Forall_forall. eauto.
  - apply map_filter_id. intros d c Hc. cbn. eauto.
  - apply orb_false_iff. split; apply not_true_iff_false; rewrite existsb_exists.
    + intros ([k f] & Hk%list_elem_of_In%elem_of_map_to_list & Hu). cbn in Hu.
      rewrite (proj2 (unshare_id fds f ltac:(apply Forall_forall; eauto))) in Hu. done.
    + intros ([d c] & Hc%list_elem_of_In%elem_of_map_to_list & Hu). apply bool_decide_eq_true in Hu. cbn in Hu. by eapply Hd.
Qed.

(** What is left of a folder and of a device after both passes. *)
Lemma introduction_leaves cm folders devices folders' devices' ch ch' :
  keyed folders → closed folders devices → introduction cm folders devices = (ch, (folders', devices', ch')) →
  keyed folders' ∧ (∀ k, is_Some (folders' !! k) ↔ is_Some (folders !! k)) ∧
  (skip ∨
   (∀ k f e, folders' !! k = Some f → e ∈ fcDevices f → by_introducer e → announced cm folders (fdDeviceID e) k) ∧
   (∀ d c, devices' !! d = Some c → dcIntroducedBy c = dcDeviceID introducerCfg →
      (∃ k, announced cm folders d k) ∨ notIntroduced introducerCfg folders' d)).
Proof.
  intros Hkeyed Hclosed E. pose proof (handleIntroductions_outer cm folders devices Hkeyed Hclosed) as [H1 H2 _ _ _ _ H6].
  assert (Hf : ∀ k f0, folders !! k = Some f0 → ∃ f, folders' !! k = Some f ∧ result cm folders k f0 f)
    by (intros k f0; by apply (introduction_folder cm folders devices folders' devices' ch ch')).
  assert (Hn : ∀ k, folders !! k = None → folders' !! k = None).
  { intros k Hk%H1. unfold introduction, handleDeintroductions in E. injection E as _ E.
    destruct (dcSkipIntroductionRemovals introducerCfg); injection E as <- _ _; [done|]. by rewrite lookup_fmap, Hk. }
  assert (Hb : ∀ k f, folders' !! k = Some f → ∃ f0, folders !! k = Some f0 ∧ result cm folders k f0 f).
  { intros k f Hk. destruct (folders !! k) as [f0|] eqn:H0; [|rewrite Hn in Hk; done].
    destruct (Hf k f0 H0) as (f' & Hf' & Hr). exists f0. split; [done|]. congruence. }
  split_and!.
  - intros k f Hk. destruct (Hb k f Hk) as (f0 & H0 & old & new & -> & _). by apply Hkeyed in H0.
  - intros k. split; intros [f Hk]; [destruct (Hb k f Hk) as (f0 & -> & _)|destruct (Hf k f Hk) as (f' & -> & _)]; eauto.
  - destruct (dcSkipIntroductionRemovals introducerCfg) eqn:Hskip; [by left|right]. split.
    + intros k f e Hk He Hby. destruct (Hb k f Hk) as (f0 & H0 & old & new & -> & _ & Hold & Hnew & _).
      change (fcDevices (f0 <| fcDevices := ?l |>)) with l in He. apply elem_of_app in He as [He|He].
      * apply Hold in He as [_ [Hs|[Hs|Hs]]]; [congruence|done|done].
      * destruct (proj1 Hnew e He) as (device & Hd & _ & ->). split; [by rewrite H0|eauto].
    + intros d c Hd Hby. unfold introduction, handleDeintroductions in E. rewrite Hskip in E.
      injection E as _ Ef Ed _. rewrite <-Ed in Hd. apply map_lookup_filter_Some in Hd as [_ Hr]. cbn in Hr. unfold removes in Hr.
      destruct (fds_hasDevice _ d) eqn:Hfd in Hr.
      { apply fds_hasDevice_spec in Hfd as [k Hk%H6]. left. eauto. }
      destruct (decide (notIntroduced introducerCfg (hFolders (handleIntroductions myID DefaultDevice introducerCfg cm folders devices)) d)) as [Hni|Hni].
      2: { destruct Hr. by split_and!. }
      right. destruct Hni as (k & f & Hk & He). apply Exists_exists in He as (e & He & Hne & Hed).
      rewrite <-Ef. exists k, (unshare introducerCfg (hPairs (handleIntroductions myID DefaultDevice introducerCfg cm folders devices)) f).
      split; [by rewrite lookup_fmap, Hk|]. apply Exists_exists. exists e. split; [|done]. unfold unshare.
      change (fcDevices (f <| fcDevices := ?l |>)) with l. apply list_elem_of_filter. split; [by left|done].
Qed.

(** An announcement settles: when the same one arrives again, neither pass finds
    anything to do, so that the configuration is not written again. *)
Theorem introduction_stable cm folders devices folders' devices' ch ch' :
  keyed folders → closed folders devices → introduction cm folders devices = (ch, (folders', devices', ch')) →
  introduction cm folders' devices' = (false, (folders', devices', false)).
Proof.
  intros Hk Hc E. destruct (introduction_leaves _ _ _ _ _ _ _ Hk Hc E) as (Hk' & Hdom & Hleft).
  destruct (introduction_devices _ _ _ _ _ _ _ Hk Hc E) as (Hc' & Hann & _).
  assert (Hset : settled cm folders' devices').
  { intros k f device Hf Hn. destruct (proj1 (Hdom k)) as [f0 H0]; [by eexists|]. split.
    - apply (Hann _ k). split; [by eexists|eauto].
    - destruct (introduction_folder _ _ _ _ _ _ _ k f0 Hk Hc E H0) as (f' & Hf' & old & new & Ef & _ & _ & _ & Hsh).
      rewrite Hf in Hf'. injection Hf' as <-. intros Hp. apply Hsh; [done|]. by rewrite Ef in Hp. }
  assert (Ha : ∀ d k, announced cm folders' d k ↔ announced cm folders d k).
  { intros d k. unfold announced. by rewrite Hdom. }
  destruct (handleIntroductions_settled cm folders' devices' Hset) as (E1 & E2 & E3).
  pose proof (ou_pairs _ _ _ _ (handleIntroductions_outer cm folders' devices' Hk' Hc')) as Hp. setoid_rewrite Ha in Hp.
  unfold introduction. rewrite E1, E2, E3. f_equal. apply handleDeintroductions_id.
  destruct Hleft as [|[Hl1 Hl2]]; [by left|right]. split.
  - intros k f e Hf He. unfold stays. destruct (decide (by_introducer e)) as [Hby|]; [right|by left].
    rewrite (Hk' k f Hf). apply Hp. eauto.
  - intros d c Hd (Hby & Hno & Hni). destruct (Hl2 d c Hd Hby) as [[k Hka]|]; [|done].
    apply not_true_iff_false in Hno. apply Hno, fds_hasDevice_spec. exists k. by apply Hp.
Qed.
End introductions_spec.

(** ** A concrete run

    Device 2 introduces: it names device 3 for a folder and no longer names device
    4, which it introduced before. *)
Definition introducer : DeviceConfiguration :=
  (sample_device_config 2) <| dcIntroducer := true |>.
Definition once_introduced : DeviceConfiguration :=
  (sample_device_config 4) <| dcIntroducedBy := dev_id 2 |>.
Definition sample_folders : gmap string FolderConfiguration :=
  {[ "photos" := sample_folder "photos"
       [sample_share 1; sample_share 2;
        MkFolderDeviceConfiguration (dev_id 4) (dev_id 2) ""] ]}.
Definition sample_devices : gmap (list Z) DeviceConfiguration :=
  DeviceMap [sample_device_config 1; introducer; once_introduced].
Definition named (d : list Z) : Device := MkDevice d "new" [] 0 "" 0 false 0 false [].
Definition sample_cm : list Folder := [MkFolder "photos" "" 0 0 [named (dev_id 1); named (dev_id 3)]].
Abbreviation sample_introduction :=
  (introduction (dev_id 1) zeroDevice introducer sample_cm sample_folders sample_devices).

Example introduction_run :
  fcDevices <$> sample_introduction.2.1.1 !! "photos" =
    Some [sample_share 1; sample_share 2; MkFolderDeviceConfiguration (dev_id 3) (dev_id 2) ""] ∧
  map (λ d, bool_decide (is_Some (sample_introduction.2.1.2 !! dev_id d))) [1; 2; 3; 4] = [true; true; true; false] ∧
  (sample_introduction.1, sample_introduction.2.2) = (true, true).
Proof. vm_compute. auto. Qed.

(** A new device that needs a password for every folder is added to the devices, but no
    change is reported, so that the configuration is left without it. *)
Example password_device_dropped :
  let cm := [MkFolder "photos" "" 0 0 [MkDevice (dev_id 3) "new" [] 0 "" 0 false 0 false [9]]] in
  let cfg := (sample_config 52) <| cfFolders := [sample_folder "photos" [sample_share 1; sample_share 2]] |>
                                <| cfDevices := [sample_device_config 1; introducer] |> in
  let r := introduction (dev_id 1) zeroDevice introducer cm (FolderMap (cfFolders cfg)) (DeviceMap (cfDevices cfg)) in
  (dcName <$> r.2.1.2 !! dev_id 3, r.1, r.2.2) = (Some "new"%string, false, false) ∧
  introduce_change (dev_id 1) zeroDevice introducer id id cm cfg = cfg.
Proof. split; vm_compute; reflexivity. Qed.

Lemma sample_keyed : keyed sample_folders.
Proof.
  intros k f Hf. unfold sample_folders in Hf. apply lookup_singleton_Some in Hf as [<- <-]. reflexivity.
Qed.

Lemma sample_closed : closed sample_folders sample_devices.
Proof.
  intros k f d Hf Hd. unfold sample_folders in Hf. apply lookup_singleton_Some in Hf as [<- <-].
  repeat (apply elem_of_cons in Hd as [->|Hd]; [vm_compute; eexists; reflexivity|]). by apply elem_of_nil in Hd.
Qed.

Lemma introduction_spec_witness :
  keyed sample_folders ∧ closed sample_folders sample_devices ∧
  ∃ f, sample_introduction.2.1.1 !! "photos" = Some f ∧
    (∀ f0, sample_folders !! "photos" = Some f0 → result (dev_id 1) introducer sample_cm sample_folders "photos" f0 f).
Proof.
  split; [exact sample_keyed|]. split; [exact sample_closed|].
  destruct sample_introduction as [ch [[folders' devices'] ch']] eqn:E.
  destruct (introduction_spec (dev_id 1) zeroDevice introducer _ _ _ _ _ _ _ sample_keyed sample_closed E) as (_ & H & _).
  destruct (sample_folders !! "photos") as [f0|] eqn:E0; [|discriminate E0].
  destruct (H _ _ E0) as (f & Hf & Hr). exists f. split; [exact Hf|]. intros f1 [= <-]. exact Hr.
Defined.

Lemma introduction_stable_witness :
  introduction (dev_id 1) zeroDevice introducer sample_cm sample_introduction.2.1.1 sample_introduction.2.1.2 =
  (false, (sample_introduction.2.1.1, sample_introduction.2.1.2, false)).
Proof.
  destruct sample_introduction as [ch [[folders' devices'] ch']] eqn:E.
  exact (introduction_stable (dev_id 1) zeroDevice introducer sample_cm sample_folders sample_devices folders' devices' ch ch'
    sample_keyed sample_closed E).
Defined.
