(* ===== verification/ClusterCheck.v ===== *)
(** * Cluster configurations ([src/lib/model/model.go])

    Devices tell each other which folders they share, with whom, and how far their
    indexes have come.  The file translates how the message is made
    ([generateClusterConfig]), how its devices are looked up, how the encryption of
    a folder is checked ([ccCheckEncryption]) and what is done with every folder
    of a message ([ccHandleFolders]).  The check of the encryption is given in steps,
    between which the checks of other messages may run; a message is then handled with
    checks that are not interrupted.  The file proves that no folder is accepted whose
    encryption does not fit, also when checks overlap, and that devices with fitting
    configurations accept each other. *)
From stdpp Require Import functions.
From S2P Require Import Prelude GoLib Base32 Vector Platform FileInfo DeviceID DownloadState Messages Paths.
From S2P Require Import Wire Dispatch EncNames Encryption FolderConfig Config.
From S2P Require FolderDB FolderQueries IndexHandler IndexRegistry.
From Stdlib Require String.

Local Open Scope Z_scope.

(** ** Compression ([compression.go]) *)
Definition CompressionMetadata : Z := 0.
Definition CompressionNever : Z := 1.
Definition CompressionAlways : Z := 2.
Definition Compression_ToProtocol (c : Z) : Z :=
  if c =? CompressionNever then CompressionNever
  else if c =? CompressionAlways then CompressionAlways
  else CompressionMetadata.

(** ** What a message says about both sides *)
Record clusterConfigDeviceInfo := MkInfo { local : Device; remote : Device }.

Definition zeroMessageDevice : Device := MkDevice EmptyDeviceID "" [] 0 "" 0 false 0 false [].
Definition zeroInfo : clusterConfigDeviceInfo := MkInfo zeroMessageDevice zeroMessageDevice.

Definition errDeviceUnknown : string := "unknown device".
Definition errMissingRemoteInClusterConfig : string := "remote device missing in cluster config".
Definition errMissingLocalInClusterConfig : string := "local device missing in cluster config".

Section assemble.
Context (myID deviceID : list Z).

Definition info_device (info : clusterConfigDeviceInfo) (dev : Device) : clusterConfigDeviceInfo :=
  if bool_decide (dID dev = myID) then MkInfo dev (remote info)
  else if bool_decide (dID dev = deviceID) then MkInfo (local info) dev
  else info.

Fixpoint info_loop (info : clusterConfigDeviceInfo) (devices : list Device) : clusterConfigDeviceInfo :=
  match devices with
  | [] => info
  | dev :: devices =>
      let info := info_device info dev in
      if bool_decide (dID (local info) ≠ EmptyDeviceID) && bool_decide (dID (remote info) ≠ EmptyDeviceID)
      then info else info_loop info devices
  end.

Fixpoint ccDeviceInfos (folders : list Folder) (infos : gmap string clusterConfigDeviceInfo)
    : go (gmap string clusterConfigDeviceInfo) :=
  match folders with
  | [] => Ok infos
  | folder :: folders =>
      let info := info_loop zeroInfo (foDevices folder) in
      if bool_decide (dID (remote info) = EmptyDeviceID) then Err errMissingRemoteInClusterConfig
      else if bool_decide (dID (local info) = EmptyDeviceID) then Err errMissingLocalInClusterConfig
      else ccDeviceInfos folders (<[foID folder := info]> infos)
  end.
End assemble.

(** ** The encryption of a folder *)
Definition errEncryptionInvConfigLocal : string :=
  "can't encrypt outgoing data because local data is encrypted (folder-type receive-encrypted)".
Definition errEncryptionInvConfigRemote : string :=
  "remote has encrypted data and encrypts that data for us - this is impossible".
Definition errEncryptionNotEncryptedLocal : string :=
  "remote expects to exchange encrypted data, but is configured for plain data".
Definition errEncryptionPlainForReceiveEncrypted : string :=
  "remote expects to exchange plain data, but is configured to be encrypted".
Definition errEncryptionPlainForRemoteEncrypted : string :=
  "remote expects to exchange plain data, but local data is encrypted (folder-type receive-encrypted)".
Definition errEncryptionNotEncryptedUntrusted : string := "device is untrusted, but configured to receive plain data".
Definition errEncryptionPassword : string := "different encryption passwords used".

(** The tokens in memory, and those in the marker directories of the folders. *)
Record token_store := MkTokens { memory : gmap string (list Z); files : gmap string (list Z) }.

Section encryption_check.
Context {C : Crypto}.
(** Reading or writing the token of a folder may fail (a missing file is no failure). *)
Context (read_error write_error : string → option string).

(** The token of the message: that said of this device, or else of the other one. *)
Definition shown_token (infos : clusterConfigDeviceInfo) : list Z :=
  if bool_decide (dEncryptionPasswordToken (local infos) ≠ []) then dEncryptionPasswordToken (local infos)
  else dEncryptionPasswordToken (remote infos).

(** What is decided before the tokens are compared: [inl] is the result, [inr] the
    token of the message that is to be the one of this folder. *)
Definition check_configured (fcfg : FolderConfiguration) (folderDevice : FolderDeviceConfiguration)
    (infos : clusterConfigDeviceInfo) (deviceUntrusted : bool) : option string + list Z :=
  let hasTokenRemote := bool_decide (dEncryptionPasswordToken (remote infos) ≠ []) in
  let hasTokenLocal := bool_decide (dEncryptionPasswordToken (local infos) ≠ []) in
  let isEncryptedRemote := bool_decide (fdEncryptionPassword folderDevice ≠ "") in
  let isEncryptedLocal := fcType fcfg =? FolderTypeReceiveEncrypted in
  let ccToken := shown_token infos in
  if negb isEncryptedRemote && negb isEncryptedLocal && deviceUntrusted then inl (Some errEncryptionNotEncryptedUntrusted)
  else if negb (hasTokenRemote || hasTokenLocal || isEncryptedRemote || isEncryptedLocal) then inl None
  else if isEncryptedRemote && isEncryptedLocal then inl (Some errEncryptionInvConfigLocal)
  else if hasTokenRemote && hasTokenLocal then inl (Some errEncryptionInvConfigRemote)
  else if negb (hasTokenRemote || hasTokenLocal)
  then inl (Some (if isEncryptedRemote then errEncryptionPlainForRemoteEncrypted else errEncryptionPlainForReceiveEncrypted))
  else if negb (isEncryptedRemote || isEncryptedLocal) then inl (Some errEncryptionNotEncryptedLocal)
  else if isEncryptedRemote then
    let passwordToken := PasswordToken (fcID fcfg) (fdEncryptionPassword folderDevice) in
    inl (if bool_decide (passwordToken = ccToken) then None else Some errEncryptionPassword)
  else inr ccToken.

(** The rest of a check, which other checks may interrupt: the lock is held only while
    a token is looked up or stored, and not over the file.  A check of folder [fcfg]
    looks for its token in memory; reads it from the file; is about to store the token
    it has read; is about to write the one of the message; or is about to store that one.
    At the end there is the error, and the devices that were sent a new cluster
    configuration. *)
Inductive token_check :=
  | Looking | Reading | Keeping (token : list Z) | Writing | Storing
  | CheckDone (res : option string) (resend : option (list (list Z))).

Definition compare_token (token ccToken : list Z) : token_check :=
  CheckDone (if bool_decide (token = ccToken) then None else Some errEncryptionPassword) None.

(** One step; [failure] is the error of the file, if it is read or written (that it
    does not exist is none). *)
Definition check_step (failure : option string) (fcfg : FolderConfiguration) (ccToken : list Z)
    (t : token_store) (c : token_check) : token_store * token_check :=
  match c with
  | Looking =>
      match memory t !! fcID fcfg with
      | Some token => (t, compare_token token ccToken)
      | None => (t, Reading)
      end
  | Reading =>
      match failure, files t !! fcID fcfg with
      | Some err, _ => (t, CheckDone (Some err) None)
      | None, Some token => (t, Keeping token)
      | None, None => (t, Writing)
      end
  | Keeping token => (MkTokens (<[fcID fcfg := token]> (memory t)) (files t), compare_token token ccToken)
  | Writing =>
      match failure with
      | Some err => (t, CheckDone (Some err) None)
      | None => (MkTokens (memory t) (<[fcID fcfg := ccToken]> (files t)), Storing)
      end
  | Storing => (MkTokens (<[fcID fcfg := ccToken]> (memory t)) (files t), CheckDone None (Some (DeviceIDs fcfg)))
  | CheckDone _ _ => (t, c)
  end.

Definition check_start (fcfg : FolderConfiguration) (folderDevice : FolderDeviceConfiguration)
    (infos : clusterConfigDeviceInfo) (deviceUntrusted : bool) : token_check :=
  match check_configured fcfg folderDevice infos deviceUntrusted with
  | inl res => CheckDone res None
  | inr _ => Looking
  end.

(** The error a check meets where it stands. *)
Definition check_failure (c : token_check) (folderID : string) : option string :=
  match c with Reading => read_error folderID | Writing => write_error folderID | _ => None end.

(** A check that is not interrupted: at most four steps end it. *)
Definition check_alone (fcfg : FolderConfiguration) (ccToken : list Z) (s : token_store * token_check)
    : token_store * token_check :=
  check_step (check_failure s.2 (fcID fcfg)) fcfg ccToken s.1 s.2.

Definition ccCheckEncryption (t : token_store) (fcfg : FolderConfiguration) (folderDevice : FolderDeviceConfiguration)
    (infos : clusterConfigDeviceInfo) (deviceUntrusted : bool)
    : token_store * option string * option (list (list Z)) :=
  match Nat.iter 4 (check_alone fcfg (shown_token infos)) (t, check_start fcfg folderDevice infos deviceUntrusted) with
  | (t, CheckDone res resend) => (t, res, resend)
  | (t, _) => (t, None, None)
  end.
End encryption_check.

(** Several messages are handled at the same time, each by its connection: the checks
    of their folders start and proceed in any order. *)
Section checks.
Context {C : Crypto}.

Record running_check := MkCheck {
  ckFolder : FolderConfiguration; ckDevice : FolderDeviceConfiguration;
  ckInfos : clusterConfigDeviceInfo; ckUntrusted : bool; ckAt : token_check;
}.

Inductive check_event :=
  | StartCheck (fcfg : FolderConfiguration) (folderDevice : FolderDeviceConfiguration)
      (infos : clusterConfigDeviceInfo) (deviceUntrusted : bool)
  | StepCheck (i : nat) (failure : option string).

Definition check_run_step (s : token_store * list running_check) (e : check_event) : token_store * list running_check :=
  let '(t, cs) := s in
  match e with
  | StartCheck f fd infos untrusted => (t, cs ++ [MkCheck f fd infos untrusted (check_start f fd infos untrusted)])
  | StepCheck i failure =>
      match cs !! i with
      | Some c =>
          let '(t, at') := check_step failure (ckFolder c) (shown_token (ckInfos c)) t (ckAt c) in
          (t, <[i := MkCheck (ckFolder c) (ckDevice c) (ckInfos c) (ckUntrusted c) at']> cs)
      | None => (t, cs)
      end
  end.
Definition check_run (t : token_store) (es : list check_event) : token_store * list running_check :=
  fold_left check_run_step es (t, []).
End checks.

(** ** Making a cluster configuration *)
Section generate.
Context {C : Crypto} {E : FolderDB.Engine}.
(** The local device, its configuration, the tokens in memory, and the index ID that
    a folder without one draws. *)
Context (myID : list Z) (cfg : Configuration) (tokens : gmap string (list Z)) (newID : Z).

Abbreviation databases := (string → FolderDB.folderDB).

(** Asking for the index ID may store a new one; errors leave zero. *)
Definition index_state (sdb : databases) (folder : string) (id : list Z) : databases * (Z * Z) :=
  let '(db, indexID) := FolderQueries.GetIndexID (sdb folder) id newID in
  let sdb := <[folder := db]> sdb in
  (sdb, (match indexID with Ok i => i | _ => 0 end, FolderQueries.GetDeviceSequence (sdb folder) id)).

Record building := MkBuilding { bdDevices : list Device; bdPasswords : gmap string string; bdDB : databases }.

(** The token sent with a device, and its password; [None] is [continue nextDevice]. *)
Definition device_secret (device : list Z) (folderCfg : FolderConfiguration)
    (deviceCfg : DeviceConfiguration) (folderDevice : FolderDeviceConfiguration) : option (list Z * option string) :=
  let own := match tokens !! fcID folderCfg with
             | Some token => if bool_decide (dcDeviceID deviceCfg = myID) then Some token else None
             | None => None
             end in
  match own with
  | Some token => Some (token, None)
  | None =>
      if bool_decide (fdEncryptionPassword folderDevice = "") then Some ([], None)
      else if bool_decide (fdDeviceID folderDevice = device)
      then Some (PasswordToken (fcID folderCfg) (fdEncryptionPassword folderDevice), Some (fdEncryptionPassword folderDevice))
      else None
  end.

Definition message_device (device : list Z) (folderCfg : FolderConfiguration) (b : building)
    (folderDevice : FolderDeviceConfiguration) : building :=
  let deviceCfg := default zeroDevice (Configuration_Device cfg (fdDeviceID folderDevice)) in
  match device_secret device folderCfg deviceCfg folderDevice with
  | None => b
  | Some (token, password) =>
      let id := if bool_decide (dcDeviceID deviceCfg = myID) then LocalDeviceID else dcDeviceID deviceCfg in
      let '(sdb, (indexID, maxSequence)) := index_state (bdDB b) (fcID folderCfg) id in
      MkBuilding
        (bdDevices b ++
         [MkDevice (dcDeviceID deviceCfg) (dcName deviceCfg) (dcAddresses deviceCfg)
            (Compression_ToProtocol (dcCompression deviceCfg)) (dcCertName deviceCfg) maxSequence
            (dcIntroducer deviceCfg) indexID false token])
        (match password with Some p => <[fcID folderCfg := p]> (bdPasswords b) | None => bdPasswords b end) sdb
  end.

(** The folder is left out when it is not shared, or encrypted here without a token. *)
Definition announces (device : list Z) (folderCfg : FolderConfiguration) : bool :=
  SharedWith folderCfg device &&
  negb ((fcType folderCfg =? FolderTypeReceiveEncrypted) && negb (bool_decide (is_Some (tokens !! fcID folderCfg)))).

Record message := MkMessage { mgFolders : list Folder; mgPasswords : gmap string string; mgDB : databases }.

Definition message_folder (device : list Z) (m : message) (folderCfg : FolderConfiguration) : message :=
  if announces device folderCfg then
    let b := fold_left (message_device device folderCfg) (fcDevices folderCfg)
               (MkBuilding [] (mgPasswords m) (mgDB m)) in
    MkMessage
      (mgFolders m ++
       [MkFolder (fcID folderCfg) (fcLabel folderCfg) 0
          (if fcPaused folderCfg then FolderStopReasonPaused else FolderStopReasonRunning) (bdDevices b)])
      (bdPasswords b) (bdDB b)
  else m.

Definition generate_folders (device : list Z) (sdb : databases) : message :=
  fold_left (message_folder device) (cfFolders cfg) (MkMessage [] ∅ sdb).

Definition generateClusterConfig (device : list Z) (sdb : databases)
    : ClusterConfig * gmap string string * databases :=
  let m := generate_folders device sdb in (MkClusterConfig (mgFolders m) false, mgPasswords m, mgDB m).
End generate.

(** ** The folders of a message ([ccHandleFolders]) *)
Inductive remoteFolderState := remoteFolderUnknown | remoteFolderNotSharing | remoteFolderPaused | remoteFolderValid.
#[export] Instance remoteFolderState_eq_dec : EqDecision remoteFolderState.
Proof. solve_decision. Defined.

(** A folder another device offers, in the database. *)
Record PendingFolder := MkPending { pfTime : Z; pfLabel : string; pfReceiveEncrypted : bool; pfRemoteEncrypted : bool }.

Section handle.
Context {C : Crypto} {E : FolderDB.Engine}.
Context (read_error write_error : string → option string).
(** The configuration, the other device, the time, the index ID of new folders, and
    the changes of pending folders that the database refuses. *)
Context (cfg : Configuration) (deviceCfg : DeviceConfiguration) (now newID : Z)
  (add_fails remove_fails : string → bool) (infos : gmap string clusterConfigDeviceInfo).

Abbreviation deviceID := (dcDeviceID deviceCfg).

(** What the handler changes: the tokens, the errors of earlier messages by folder
    and device, the folders this device offers, the index handlers of the
    connection; and the devices that get a new cluster configuration. *)
Record ccState := MkCcState {
  csTokens : token_store;
  csFailures : gmap string (gmap (list Z) string);
  csPending : gmap string PendingFolder;
  csHandlers : IndexRegistry.registry;
  csResent : list (list Z);
}.
#[export] Instance eta_ccState : Eta ccState := λ r,
  MkCcState (csTokens r) (csFailures r) (csPending r) (csHandlers r) (csResent r).

Record ccLoop := MkCcLoop {
  clState : ccState;
  clTempIndex : list string;
  clSeen : gmap string remoteFolderState;
  clExpired : gset string;
  clUpdated : list string;
}.
#[export] Instance eta_ccLoop : Eta ccLoop := λ r,
  MkCcLoop (clState r) (clTempIndex r) (clSeen r) (clExpired r) (clUpdated r).

Definition folder_info (folder : string) : clusterConfigDeviceInfo := default zeroInfo (infos !! folder).
Definition index_info (folder : string) : IndexHandler.clusterConfigDeviceInfo :=
  let i := folder_info folder in
  IndexHandler.MkDeviceInfo (dIndexID (local i)) (dMaxSequence (local i)) (dIndexID (remote i)).

Definition AddIndexInfo (st : ccState) (folder : string) : ccState :=
  st <| csHandlers := (IndexRegistry.AddIndexInfo deviceID newID (csHandlers st) folder (index_info folder)).1 |>.
Definition RemoveHandler (st : ccState) (folder : string) : ccState :=
  st <| csHandlers := IndexRegistry.RemoveFolder (csHandlers st) folder |>.

(** A folder that is not shared with the device here. *)
Definition unexpected_folder (s : ccLoop) (folder : Folder) : ccLoop :=
  let s := s <| clState := RemoveHandler (clState s) (foID folder) |> in
  if DeviceConfiguration_IgnoredFolder deviceCfg (foID folder) then s
  else
    let i := folder_info (foID folder) in
    let entry := MkPending now (foLabel folder) (bool_decide (dEncryptionPasswordToken (local i) ≠ []))
                   (bool_decide (dEncryptionPasswordToken (remote i) ≠ [])) in
    let st := clState s in
    let st := if add_fails (foID folder) then st
              else st <| csPending := <[foID folder := entry]> (csPending st) |> in
    let st := if IsRunning folder then AddIndexInfo st (foID folder) else st in
    s <| clState := st |> <| clExpired := clExpired s ∖ {[foID folder]} |>
      <| clUpdated := clUpdated s ++ [foID folder] |>.

Definition note_failure (st : ccState) (folder err : string) : ccState :=
  st <| csFailures := <[folder := <[deviceID := err]> (default ∅ (csFailures st !! folder))]> (csFailures st) |>.
Definition forget_failure (st : ccState) (folder : string) : ccState :=
  st <| csFailures :=
    match csFailures st !! folder with
    | Some devErrs => if bool_decide (size devErrs = 1%nat) then delete folder (csFailures st)
                      else <[folder := delete deviceID devErrs]> (csFailures st)
    | None => csFailures st
    end |>.

(** One round, with the error that ends the loop. *)
Definition handle_folder (s : ccLoop) (folder : Folder) : ccLoop * option string :=
  let s := s <| clSeen := <[foID folder := remoteFolderValid]> (clSeen s) |> in
  match (f ← Configuration_Folder cfg (foID folder); fd ← FolderConfiguration_Device f deviceID; Some (f, fd)) with
  | None => (unexpected_folder s folder, None)
  | Some (fcfg, folderDevice) =>
      if negb (IsRunning folder)
      then (s <| clState := RemoveHandler (clState s) (foID folder) |>
              <| clSeen := <[fcID fcfg := remoteFolderPaused]> (clSeen s) |>, None)
      else if fcPaused fcfg then (s <| clState := AddIndexInfo (clState s) (foID folder) |>, None)
      else
        let '(tokens, err, resend) :=
          ccCheckEncryption read_error write_error (csTokens (clState s)) fcfg folderDevice
            (folder_info (foID folder)) (dcUntrusted deviceCfg) in
        let st := (clState s) <| csTokens := tokens |>
                    <| csResent := csResent (clState s) ++ default [] resend |> in
        match err with
        | Some err => (s <| clState := note_failure st (foID folder) err |>, Some err)
        | None =>
            let temp := if foType folder =? FolderTypeReceiveEncrypted then clTempIndex s
                        else clTempIndex s ++ [foID folder] in
            (s <| clState := AddIndexInfo (forget_failure st (foID folder)) (foID folder) |>
               <| clTempIndex := temp |>, None)
        end
  end.

Fixpoint handle_loop (s : ccLoop) (folders : list Folder) : ccLoop * option string :=
  match folders with
  | [] => (s, None)
  | folder :: folders =>
      match handle_folder s folder with
      | (s, Some err) => (s, Some err)
      | (s, None) => handle_loop s folders
      end
  end.

(** Folders offered to the device that it does not mention. *)
Definition mark_not_sharing (seen : gmap string remoteFolderState) : gmap string remoteFolderState :=
  fold_left (λ seen f, match seen !! fcID f with
                       | Some _ => seen
                       | None => if SharedWith f deviceID then <[fcID f := remoteFolderNotSharing]> seen else seen
                       end) (cfFolders cfg) seen.

(** [expired] are the pending folders the database lists for the device. *)
Definition ccHandleFolders (st : ccState) (expired : gset string) (folders : list Folder)
    : ccState * go (list string * gmap string remoteFolderState) :=
  let '(s, err) := handle_loop (MkCcLoop st [] ∅ expired []) folders in
  match err with
  | Some err => (clState s, Err err)
  | None =>
      let st := clState s in
      let st := st <| csHandlers := IndexRegistry.RemoveAllExcept (csHandlers st) (dom (clSeen s)) |> in
      let gone := filter (λ kv : string * PendingFolder, ¬ (kv.1 ∈ clExpired s ∧ remove_fails kv.1 = false)) (csPending st) in
      (st <| csPending := gone |>, Ok (clTempIndex s, mark_not_sharing (clSeen s)))
  end.
End handle.

(** ** What a successful check means *)

(** Exactly one side announces a token. *)
Definition one_token (infos : clusterConfigDeviceInfo) (token : list Z) : Prop :=
  token ≠ [] ∧
  ((dEncryptionPasswordToken (local infos) = token ∧ dEncryptionPasswordToken (remote infos) = []) ∨
   (dEncryptionPasswordToken (local infos) = [] ∧ dEncryptionPasswordToken (remote infos) = token)).

Definition no_token (infos : clusterConfigDeviceInfo) : Prop :=
  dEncryptionPasswordToken (local infos) = [] ∧ dEncryptionPasswordToken (remote infos) = [].

Section check_spec.
Context {C : Crypto}.
Implicit Types (t : token_store) (f : FolderConfiguration) (fd : FolderDeviceConfiguration).

(** The three ways in which a folder may be shared. *)
Definition plain_share f fd (infos : clusterConfigDeviceInfo) (untrusted : bool) : Prop :=
  fdEncryptionPassword fd = "" ∧ fcType f ≠ FolderTypeReceiveEncrypted ∧ untrusted = false ∧ no_token infos.
Definition encrypting_share f fd (infos : clusterConfigDeviceInfo) : Prop :=
  fdEncryptionPassword fd ≠ "" ∧ fcType f ≠ FolderTypeReceiveEncrypted ∧
  one_token infos (PasswordToken (fcID f) (fdEncryptionPassword fd)).
Definition receiving_share f fd (infos : clusterConfigDeviceInfo) (token : list Z) : Prop :=
  fdEncryptionPassword fd = "" ∧ fcType f = FolderTypeReceiveEncrypted ∧ one_token infos token.

Lemma one_token_inj infos x y : one_token infos x → one_token infos y → x = y.
Proof. intros [Hx H1] [Hy H2]. naive_solver. Qed.
Lemma one_token_no infos x : one_token infos x → ¬ no_token infos.
Proof. intros [Hx H1] [H2 H3]. naive_solver. Qed.

Lemma check_configured_spec f fd infos untrusted :
  match check_configured f fd infos untrusted with
  | inl None => plain_share f fd infos untrusted ∨ encrypting_share f fd infos
  | inl (Some _) => ¬ plain_share f fd infos untrusted ∧ ¬ encrypting_share f fd infos ∧ ∀ tok, ¬ receiving_share f fd infos tok
  | inr tok => tok = shown_token infos ∧ receiving_share f fd infos tok
  end.
Proof.
  unfold check_configured, shown_token, plain_share, encrypting_share, receiving_share, one_token, no_token.
  set (l := dEncryptionPasswordToken (local infos)). set (r := dEncryptionPasswordToken (remote infos)).
  set (p := fdEncryptionPassword fd). clearbody l r p.
  destruct (Z.eqb_spec (fcType f) FolderTypeReceiveEncrypted) as [Ht|Ht], untrusted; repeat case_bool_decide; cbn;
    try case_bool_decide; try (destruct (decide (l = [])); [|tauto]).
  all: naive_solver.
Qed.
Lemma receiving_configured f fd infos untrusted tok :
  receiving_share f fd infos tok → check_configured f fd infos untrusted = inr tok.
Proof.
  intros Hr. pose proof (check_configured_spec f fd infos untrusted) as Hc.
  destruct (check_configured f fd infos untrusted) as [[err|]|tok'].
  - by destruct (proj2 (proj2 Hc) tok).
  - unfold plain_share, encrypting_share, receiving_share in *. naive_solver.
  - f_equal. eapply one_token_inj; [apply (proj2 Hc)|apply Hr].
Qed.

Lemma encrypting_configured f fd infos untrusted :
  encrypting_share f fd infos → check_configured f fd infos untrusted = inl None.
Proof.
  intros Hr. pose proof (check_configured_spec f fd infos untrusted) as Hc.
  destruct (check_configured f fd infos untrusted) as [[err|]|tok']; [by destruct (proj1 (proj2 Hc))|done|].
  unfold encrypting_share, receiving_share in *. naive_solver.
Qed.

Lemma receiving_shown f fd infos tok : receiving_share f fd infos tok → tok = shown_token infos.
Proof.
  intros Hr. pose proof (check_configured_spec f fd infos false) as Hc. rewrite (receiving_configured _ _ _ _ _ Hr) in Hc. apply Hc.
Qed.

Context (read_error write_error : string → option string).

(** Tokens in memory are those of the files. *)
Definition tokens_ok t : Prop := memory t ⊆ files t.

(** Nothing that was known is forgotten or replaced. *)
Definition tokens_grow t t' : Prop := memory t ⊆ memory t' ∧ files t ⊆ files t'.

(** The steps of a check that is not interrupted. *)
Lemma alone_looking f tok t : let s := Nat.iter 4 (check_alone read_error write_error f tok) (t, Looking) in
  match memory t !! fcID f, read_error (fcID f), files t !! fcID f, write_error (fcID f) with
  | Some token, _, _, _ => s = (t, compare_token token tok)
  | None, Some err, _, _ => s = (t, CheckDone (Some err) None)
  | None, None, Some token, _ => s = (MkTokens (<[fcID f := token]> (memory t)) (files t), compare_token token tok)
  | None, None, None, Some err => s = (t, CheckDone (Some err) None)
  | None, None, None, None =>
      s = (MkTokens (<[fcID f := tok]> (memory t)) (<[fcID f := tok]> (files t)), CheckDone None (Some (DeviceIDs f)))
  end.
Proof.
  cbv zeta. unfold Nat.iter, nat_rect, check_alone, compare_token. cbn [fst snd check_failure check_step].
  destruct (memory t !! fcID f); [done|]. cbn [fst snd check_failure check_step].
  destruct (read_error (fcID f)); [done|]. destruct (files t !! fcID f); [done|]. cbn [fst snd check_failure check_step].
  by destruct (write_error (fcID f)).
Qed.

(** A check that the configuration decides. *)
Lemma alone_checked f tok t res resend :
  Nat.iter 4 (check_alone read_error write_error f tok) (t, CheckDone res resend) = (t, CheckDone res resend).
Proof. reflexivity. Qed.

Lemma configured_check t f fd infos untrusted res : check_configured f fd infos untrusted = inl res →
  ccCheckEncryption read_error write_error t f fd infos untrusted = (t, res, None).
Proof. intros E. unfold ccCheckEncryption, check_start. by rewrite E, alone_checked. Qed.

Lemma receiving_check t f fd infos untrusted tok :
  check_configured f fd infos untrusted = inr tok → tokens_ok t →
  let '(t', err, resend) := ccCheckEncryption read_error write_error t f fd infos untrusted in
  tokens_ok t' ∧ tokens_grow t t' ∧
  (err = None ↔ memory t' !! fcID f = Some tok) ∧
  (resend = if decide (files t !! fcID f = None ∧ err = None) then Some (DeviceIDs f) else None) ∧
  (read_error (fcID f) = None → write_error (fcID f) = None →
   err = None ↔ files t !! fcID f = None ∨ files t !! fcID f = Some tok).
Proof.
  intros E Hok. pose proof (check_configured_spec f fd infos untrusted) as Hc. rewrite E in Hc. destruct Hc as [-> _].
  unfold ccCheckEncryption, check_start. rewrite E. pose proof (alone_looking f (shown_token infos) t) as Hs. cbv zeta in Hs.
  set (tok := shown_token infos) in *. unfold tokens_grow, tokens_ok in *. unfold compare_token in Hs.
  destruct (memory t !! fcID f) as [token|] eqn:Em.
  { pose proof (lookup_weaken _ _ _ _ Em Hok) as Hf. rewrite Hs, Hf, Em, (decide_False (P := _ ∧ _)) by naive_solver.
    split_and!; try done; case_bool_decide; naive_solver. }
  destruct (read_error (fcID f)) as [err|].
  { rewrite Hs, Em, decide_False by naive_solver. split_and!; try done; congruence. }
  destruct (files t !! fcID f) as [token|] eqn:Ef.
  { rewrite Hs, (decide_False (P := _ ∧ _)) by naive_solver. cbn [memory files]. rewrite lookup_insert_eq.
    split_and!; [by apply insert_subseteq_l|by apply insert_subseteq|done|case_bool_decide; naive_solver|done|case_bool_decide; naive_solver]. }
  destruct (write_error (fcID f)) as [err|].
  { rewrite Hs, Em, decide_False by naive_solver. split_and!; try done; naive_solver. }
  rewrite Hs, decide_True by done. cbn [memory files]. rewrite lookup_insert_eq.
  split_and!; [by apply insert_mono|by apply insert_subseteq|by apply insert_subseteq|done|done|naive_solver].
Qed.

Lemma check_success t f fd infos untrusted t' resend :
  tokens_ok t → ccCheckEncryption read_error write_error t f fd infos untrusted = (t', None, resend) →
  tokens_ok t' ∧ tokens_grow t t' ∧
  (plain_share f fd infos untrusted ∨ encrypting_share f fd infos ∨
   ∃ tok, receiving_share f fd infos tok ∧ memory t' !! fcID f = Some tok).
Proof.
  intros Hok E. pose proof (check_configured_spec f fd infos untrusted) as Hc.
  destruct (check_configured f fd infos untrusted) as [res|tok] eqn:Ec.
  - rewrite (configured_check _ _ _ _ _ _ Ec) in E. injection E as <- -> _. split_and!; [done|by split..|tauto].
  - pose proof (receiving_check t f fd infos untrusted tok Ec Hok) as Hr. rewrite E in Hr.
    destruct Hr as (H1 & H2 & H3 & _). split_and!; [done|apply H2..|]. right. right. exists tok. split; [apply Hc|]. by apply H3.
Qed.

(** What an uninterrupted check decides. *)
Definition decides t f fd infos untrusted t' (err : option string) (resend : option (list (list Z))) : Prop :=
  tokens_ok t' ∧ tokens_grow t t' ∧
  (err = None ↔ plain_share f fd infos untrusted ∨ encrypting_share f fd infos ∨
     ∃ tok, receiving_share f fd infos tok ∧ memory t' !! fcID f = Some tok) ∧
  (∀ tok, receiving_share f fd infos tok → read_error (fcID f) = None → write_error (fcID f) = None →
     err = None ↔ files t !! fcID f = None ∨ files t !! fcID f = Some tok) ∧
  (∀ ids, resend = Some ids ↔
     ids = DeviceIDs f ∧ err = None ∧ files t !! fcID f = None ∧ ∃ tok, receiving_share f fd infos tok ∧ files t' !! fcID f = Some tok).

Lemma check_decides t f fd infos untrusted t' err resend :
  tokens_ok t → ccCheckEncryption read_error write_error t f fd infos untrusted = (t', err, resend) →
  decides t f fd infos untrusted t' err resend.
Proof.
  intros Hok E. pose proof (check_configured_spec f fd infos untrusted) as Hc.
  destruct (check_configured f fd infos untrusted) as [res|tok] eqn:Ec.
  - rewrite (configured_check _ _ _ _ _ _ Ec) in E. injection E as <- <- <-.
    split_and!; [done|by split|..].
    + destruct res; [naive_solver|]. split; [|done]. tauto.
    + intros tok Hr. destruct res; [by destruct (proj2 (proj2 Hc) tok)|].
      unfold plain_share, encrypting_share, receiving_share in *. naive_solver.
    + intros ids. split; [done|]. intros (_ & -> & _ & tok & Hr & _).
      unfold plain_share, encrypting_share, receiving_share in *. naive_solver.
  - pose proof (receiving_check t f fd infos untrusted tok Ec Hok) as Hr. rewrite E in Hr.
    destruct Hr as (H1 & H2 & H3 & H4 & H5). destruct Hc as [Hs Hc].
    assert (Hinj : ∀ tok', receiving_share f fd infos tok' → tok' = tok).
    { intros tok' Ht. rewrite Hs. by eapply receiving_shown. }
    split_and!; [done|done| | |].
    + rewrite H3. split; [eauto|]. intros [Hp|[Hp|(tok' & Ht & Hm)]]; [| |by rewrite <-(Hinj tok')];
        exfalso; unfold plain_share, encrypting_share, receiving_share in *; naive_solver.
    + intros tok' Ht. rewrite (Hinj tok' Ht). done.
    + intros ids. rewrite H4. split.
      * destruct (decide _) as [[Hf He]|]; [|done]. intros [= <-].
        split_and!; [done..|]. apply H3 in He. exists tok. split; [done|]. by apply (lookup_weaken _ _ _ _ He).
      * intros (-> & He & Hf & _). by rewrite decide_True.
Qed.
End check_spec.

(** ** Checks that overlap *)
Section overlap.
Context {C : Crypto}.

(** A message of the run shows a token for a folder; a file fails in it. *)
Definition shown_in (es : list check_event) (id : string) (tok : list Z) : Prop :=
  ∃ f fd infos untrusted, StartCheck f fd infos untrusted ∈ es ∧ fcID f = id ∧ receiving_share f fd infos tok.
Definition failed_in (es : list check_event) (err : string) : Prop := ∃ i, StepCheck i (Some err) ∈ es.

Context (t0 : token_store) (es : list check_event) (Hok0 : tokens_ok t0).
Implicit Types (t : token_store) (c : running_check).

Abbreviation id_of c := (fcID (ckFolder c)).
Definition receives c (tok : list Z) : Prop := receiving_share (ckFolder c) (ckDevice c) (ckInfos c) tok.
Definition known (id : string) (tok : list Z) : Prop := files t0 !! id = Some tok ∨ shown_in es id tok.

(** A check that is over, with its result, in a run that began with the tokens [t0]
    and has come to [t]: what it accepts is in the open, encrypted here for the other
    device, or encrypted there with the token the folder had, if it had one; what it
    refuses is neither of the first two, and has met an error or another token. *)
Definition judged t c (res : option string) (resend : option (list (list Z))) : Prop :=
  match res with
  | None =>
      plain_share (ckFolder c) (ckDevice c) (ckInfos c) (ckUntrusted c) ∨
      encrypting_share (ckFolder c) (ckDevice c) (ckInfos c) ∨
      ∃ tok, receives c tok ∧ is_Some (memory t !! id_of c) ∧ ∀ tok0, files t0 !! id_of c = Some tok0 → tok = tok0
  | Some err =>
      ¬ plain_share (ckFolder c) (ckDevice c) (ckInfos c) (ckUntrusted c) ∧
      ¬ encrypting_share (ckFolder c) (ckDevice c) (ckInfos c) ∧
      ∀ tok, receives c tok → failed_in es err ∨ err = errEncryptionPassword ∧ ∃ tok0, tok0 ≠ tok ∧ known (id_of c) tok0
  end ∧
  ∀ ids, resend = Some ids → ids = DeviceIDs (ckFolder c) ∧ files t0 !! id_of c = None ∧ is_Some (files t !! id_of c).

(** Where a check may stand. *)
Definition check_ok t c : Prop :=
  match ckAt c with
  | CheckDone res resend => judged t c res resend
  | at' =>
      receives c (shown_token (ckInfos c)) ∧ shown_in es (id_of c) (shown_token (ckInfos c)) ∧
      match at' with
      | Keeping token => known (id_of c) token ∧ is_Some (files t !! id_of c) ∧ ∀ tok0, files t0 !! id_of c = Some tok0 → token = tok0
      | Writing => files t0 !! id_of c = None
      | Storing => files t0 !! id_of c = None ∧ is_Some (files t !! id_of c)
      | _ => True
      end
  end.

Definition store_ok t : Prop :=
  tokens_grow t0 t ∧
  (∀ id tok tok0, memory t !! id = Some tok → files t0 !! id = Some tok0 → tok = tok0) ∧
  (∀ id tok, memory t !! id = Some tok ∨ files t !! id = Some tok → known id tok).

Definition more t t' : Prop := dom (memory t) ⊆ dom (memory t') ∧ dom (files t) ⊆ dom (files t').
Lemma more_files t t' id : more t t' → is_Some (files t !! id) → is_Some (files t' !! id).
Proof. rewrite <-!elem_of_dom. intros [_ H]. apply H. Qed.
Lemma more_memory t t' id : more t t' → is_Some (memory t !! id) → is_Some (memory t' !! id).
Proof. rewrite <-!elem_of_dom. intros [H _]. apply H. Qed.

Lemma check_ok_more t t' c : more t t' → check_ok t c → check_ok t' c.
Proof.
  intros Hm. unfold check_ok, judged. pose proof (more_files t t' (id_of c) Hm). pose proof (more_memory t t' (id_of c) Hm).
  destruct (ckAt c) as [| | | | |[]]; naive_solver.
Qed.

(** The token of the folder is compared with that of the message. *)
Lemma compare_ok t c token : known (id_of c) token → is_Some (memory t !! id_of c) →
  (∀ tok0, files t0 !! id_of c = Some tok0 → token = tok0) → receives c (shown_token (ckInfos c)) →
  ∃ res, compare_token token (shown_token (ckInfos c)) = CheckDone res None ∧ judged t c res None.
Proof.
  intros Hk Hm H0 Hr. unfold compare_token. case_bool_decide as Ht; eexists; (split; [reflexivity|]); (split; [|done]).
  - right. right. exists (shown_token (ckInfos c)). subst token. done.
  - pose proof Hr as (Hp & Hf & Ho). split; [by intros (_ & ? & _)|]. split; [by intros (? & _)|].
    intros tok Hr'. right. split; [done|]. exists token. split; [|done]. by rewrite (receiving_shown _ _ _ _ Hr').
Qed.

Lemma judged_none t c : judged t c None None ↔
  plain_share (ckFolder c) (ckDevice c) (ckInfos c) (ckUntrusted c) ∨
  encrypting_share (ckFolder c) (ckDevice c) (ckInfos c) ∨
  ∃ tok, receives c tok ∧ is_Some (memory t !! id_of c) ∧ ∀ tok0, files t0 !! id_of c = Some tok0 → tok = tok0.
Proof. unfold judged. naive_solver. Qed.

(** A failure of the file ends the check. *)
Lemma failure_ok t c err : failed_in es err → receives c (shown_token (ckInfos c)) → judged t c (Some err) None.
Proof.
  intros Hf (Hp & Ht & Ho). split; [|done]. split; [by intros (_ & ? & _)|]. split; [by intros (? & _)|]. by intros; left.
Qed.

Definition at_step c (at' : token_check) : running_check :=
  MkCheck (ckFolder c) (ckDevice c) (ckInfos c) (ckUntrusted c) at'.

(** A token that agrees with the one known at the start may be stored. *)
Lemma store_ok_insert t id tok (f : bool) :
  store_ok t → known id tok → (∀ tok0, files t0 !! id = Some tok0 → tok = tok0) →
  (f = true → files t0 !! id = None) →
  let t' := if f then MkTokens (memory t) (<[id := tok]> (files t)) else MkTokens (<[id := tok]> (memory t)) (files t) in
  store_ok t' ∧ more t t'.
Proof.
  intros ([Hm Hf] & H1 & H2) Hk Ht Hn. cbv zeta. split.
  - split; [|split].
    + destruct f; split; cbn; try done.
      * apply map_subseteq_spec. intros i x Hi. rewrite lookup_insert_ne; [by eapply lookup_weaken|]. intros ->.
        by rewrite Hn in Hi.
      * apply map_subseteq_spec. intros i x Hi. destruct (decide (id = i)) as [->|Hd].
        -- rewrite lookup_insert_eq. f_equal. apply Ht. by eapply lookup_weaken.
        -- rewrite lookup_insert_ne by done. by eapply lookup_weaken.
    + intros i x x0 Hi Hx. destruct f; cbn in Hi; [by eapply H1|].
      destruct (decide (id = i)) as [->|Hd]; [|by rewrite lookup_insert_ne in Hi by done; eapply H1].
      rewrite lookup_insert_eq in Hi. injection Hi as <-. by apply Ht.
    + intros i x Hi. destruct (decide (id = i)) as [->|Hd].
      * destruct f; cbn in Hi; rewrite lookup_insert_eq in Hi; destruct Hi as [Hi|Hi]; first [injection Hi as <-; done|apply H2; auto].
      * destruct f; cbn in Hi; rewrite lookup_insert_ne in Hi by done; by apply H2.
  - destruct f; split; cbn; rewrite ?dom_insert; set_solver.
Qed.

Lemma check_step_ok t c failure t' at' :
  store_ok t → check_ok t c → (∀ err, failure = Some err → failed_in es err) →
  check_step failure (ckFolder c) (shown_token (ckInfos c)) t (ckAt c) = (t', at') →
  store_ok t' ∧ more t t' ∧ check_ok t' (at_step c at').
Proof.
  intros Hs Hc Hf. assert (Hrefl : more t t) by done. pose proof Hs as ([Hsm Hsf] & Hs1 & Hs2).
  unfold check_ok in Hc. destruct (ckAt c) as [| |token| | |res resend] eqn:Ea; cbn [check_step].
  - destruct Hc as (Hr & Hsh & _). destruct (memory t !! id_of c) as [token|] eqn:Em; intros [= <- <-].
    + split; [done|]. split; [done|]. destruct (compare_ok t c token) as (res & -> & Hj); [by apply Hs2; left|by exists token|intros tok0; by apply Hs1|done|].
      exact Hj.
    + split; [done|]. split; [done|]. split_and!; done.
  - destruct Hc as (Hr & Hsh & _). destruct failure as [err|]; [intros [= <- <-]|destruct (files t !! id_of c) as [token|] eqn:Ef; intros [= <- <-]].
    + split; [done|]. split; [done|]. by apply (failure_ok t c); [apply Hf|].
    + split; [done|]. split; [done|]. split_and!; try done; cbn; [by apply Hs2; right|].
      intros tok0 H0. pose proof (lookup_weaken _ _ _ _ H0 Hsf). congruence.
    + split; [done|]. split; [done|]. split_and!; try done. cbn. destruct (files t0 !! id_of c) as [tok0|] eqn:H0; [|done].
      pose proof (lookup_weaken _ _ _ _ H0 Hsf). congruence.
  - destruct Hc as (Hr & Hsh & Hk & Hm & H0). intros [= <- <-].
    destruct (store_ok_insert t (id_of c) token false Hs Hk H0) as [Hst Hmore]; [done|]. split; [done|]. split; [done|].
    destruct (compare_ok (MkTokens (<[id_of c := token]> (memory t)) (files t)) c token) as (res & -> & Hj); try done.
    cbn. rewrite lookup_insert_eq. by eexists.
  - destruct Hc as (Hr & Hsh & H0). destruct failure as [err|]; intros [= <- <-].
    + split; [done|]. split; [done|]. by apply (failure_ok t c); [apply Hf|].
    + destruct (store_ok_insert t (id_of c) (shown_token (ckInfos c)) true Hs) as [Hst Hmore]; [by right|by rewrite H0|done|].
      split; [done|]. split; [done|]. split_and!; try done. cbn. by rewrite lookup_insert_eq.
  - destruct Hc as (Hr & Hsh & H0 & Hm). intros [= <- <-].
    destruct (store_ok_insert t (id_of c) (shown_token (ckInfos c)) false Hs) as [Hst Hmore]; [by right|by rewrite H0|done|].
    split; [done|]. split; [done|]. split.
    + right. right. exists (shown_token (ckInfos c)). split; [done|]. cbn. rewrite lookup_insert_eq, H0. by split.
    + cbn. by intros ids [= <-].
  - intros [= <- <-]. split; [done|]. split; [done|]. exact Hc.
Qed.

Lemma check_start_ok t f fd infos untrusted : StartCheck f fd infos untrusted ∈ es →
  check_ok t (MkCheck f fd infos untrusted (check_start f fd infos untrusted)).
Proof.
  intros He. unfold check_ok, check_start. cbn [ckAt]. pose proof (check_configured_spec f fd infos untrusted) as Hc.
  destruct (check_configured f fd infos untrusted) as [[err|]|tok].
  - destruct Hc as (H1 & H2 & H3). split; [|done]. split_and!; [done..|]. intros tok Hr. by destruct (H3 tok).
  - split; [|done]. cbn. naive_solver.
  - destruct Hc as [-> Hr]. split_and!; [done| |done]. by exists f, fd, infos, untrusted.
Qed.

Lemma check_run_ok es' t cs t' cs' : (∀ e, e ∈ es' → e ∈ es) → store_ok t → Forall (check_ok t) cs →
  fold_left check_run_step es' (t, cs) = (t', cs') → store_ok t' ∧ Forall (check_ok t') cs'.
Proof.
  revert t cs. induction es' as [|e es' IH]; intros t cs He Hs Hc; [by intros [= <- <-]|].
  cbn [fold_left]. destruct e as [f fd infos untrusted|i failure]; cbn [check_run_step].
  - apply IH; [set_solver|done|]. apply Forall_app. split; [done|]. apply Forall_singleton, check_start_ok. set_solver.
  - destruct (cs !! i) as [c|] eqn:Ei; [|apply IH; set_solver].
    destruct (check_step _ _ _ _ _) as [t1 at1] eqn:E. apply check_step_ok in E as (H1 & H2 & H3).
    + apply IH; [set_solver|done|]. apply Forall_insert; [|exact H3]. eapply Forall_impl; [exact Hc|].
      intros c'. by apply check_ok_more.
    + done.
    + by eapply Forall_lookup_1.
    + intros err ->. exists i. set_solver.
Qed.
End overlap.

(** C23.  A folder is accepted exactly when both sides mean the same: neither encrypts and
    the device is trusted; this side encrypts and the one token announced is that of
    its password; or this side holds encrypted data and the one token announced is
    the one it keeps, the first it was shown.  So nothing is exchanged in the open
    with an untrusted device.  The messages of several devices are handled at the same
    time, and their checks interrupt each other wherever the lock is released: if none
    is under way at the beginning and memory agrees with the files, then in whatever
    order the checks that follow proceed, and whatever reads and writes fail, a token
    that a folder has by then is never replaced, and every check of the folder that
    shows another one is refused; every token kept is one that a message showed, and an
    accepted folder of this kind has one.  (Checks that overlap for a folder that has
    none yet may accept different tokens.)  A check that is not interrupted decides
    which of the cases it is, also for the first token, and a new cluster configuration
    is sent exactly to the devices of a folder whose first token it has just kept. *)
Theorem ccCheckEncryption_spec {C : Crypto} t es t' cs :
  tokens_ok t → check_run t es = (t', cs) →
  tokens_grow t t' ∧
  (∀ id tok, memory t' !! id = Some tok ∨ files t' !! id = Some tok → known t es id tok) ∧
  Forall (λ c, match ckAt c with CheckDone res resend => judged t es t' c res resend | _ => True end) cs ∧
  ∀ read_error write_error f fd infos untrusted t1 err resend,
    ccCheckEncryption read_error write_error t f fd infos untrusted = (t1, err, resend) →
    decides read_error write_error t f fd infos untrusted t1 err resend.
Proof.
  intros Hok Hrun. destruct (check_run_ok t es Hok es t [] t' cs) as ((Hg & _ & Hk) & Hc); [done| |done|done|].
  { split; [by split|]. split; [|intros id tok [Hm|Hf]; left; [by apply (lookup_weaken _ _ _ _ Hm)|done]].
    intros id tok tok0 Hm Hf. pose proof (lookup_weaken _ _ _ _ Hm Hok). congruence. }
  split_and!; [apply Hg..|done| |].
  - eapply Forall_impl; [exact Hc|]. intros c. unfold check_ok. by destruct (ckAt c).
  - intros *. by apply check_decides.
Qed.

(** ** Looking up both sides *)
Section lookup.
Context (me other : list Z) (Hne : me ≠ other) (Hme : me ≠ EmptyDeviceID) (Hother : other ≠ EmptyDeviceID).

(** A side has been found, or lies ahead. *)
Definition side (id : list Z) (x found : Device) (ds : list Device) : Prop :=
  (found = x ∧ id ∉ dID <$> ds) ∨ (dID found = EmptyDeviceID ∧ x ∈ ds).

Lemma side_skip id x found d ds : dID d ≠ id → dID x = id → side id x found (d :: ds) → side id x found ds.
Proof.
  intros Hd Hx [[-> Hn]|[He [->|Hin]%elem_of_cons]]; [left|done|by right].
  split; [done|]. intros Hin. apply Hn. by right.
Qed.

Lemma side_found id x found d ds :
  NoDup (dID <$> d :: ds) → dID d = id → dID x = id → side id x found (d :: ds) → side id x d ds.
Proof.
  intros [Hnd _]%NoDup_cons Hd Hx [[-> Hn]|[He [->|Hin]%elem_of_cons]].
  - destruct Hn. rewrite <-Hd. left.
  - left. by rewrite <-Hd.
  - destruct Hnd. rewrite Hd, <-Hx. by apply list_elem_of_fmap_2.
Qed.

Lemma info_loop_found ds info x y :
  NoDup (dID <$> ds) → dID x = me → dID y = other →
  side me x (local info) ds → side other y (remote info) ds → info_loop me other info ds = MkInfo x y.
Proof.
  revert info. induction ds as [|d ds IH]; intros info Hnd Hx Hy Hl Hr; cbn [info_loop].
  { destruct info as [l r]. destruct Hl as [[<- _]|[_ Hl]], Hr as [[<- _]|[_ Hr]]; [done|set_solver..]. }
  set (info' := info_device me other info d).
  assert (H : side me x (local info') ds ∧ side other y (remote info') ds).
  { unfold info', info_device. case_bool_decide as H1; [|case_bool_decide as H2]; cbn [local remote]; split.
    - by eapply side_found.
    - eapply side_skip; [|done..]. congruence.
    - by eapply side_skip.
    - by eapply side_found.
    - by eapply side_skip.
    - by eapply side_skip. }
  destruct H as [H1 H2]. clearbody info'. destruct (bool_decide _ && bool_decide _) eqn:Hb.
  - zb. destruct info' as [l r]. cbn in *. destruct H1 as [[-> _]|[]], H2 as [[-> _]|[]]; done.
  - apply IH; try done. by apply NoDup_cons in Hnd as [_ Hnd].
Qed.

(** Every folder names both sides. *)
Definition both_sides (folder : Folder) (i : clusterConfigDeviceInfo) : Prop :=
  NoDup (dID <$> foDevices folder) ∧ local i ∈ foDevices folder ∧ remote i ∈ foDevices folder ∧
  dID (local i) = me ∧ dID (remote i) = other.

Lemma ccDeviceInfos_found folders infos0 :
  NoDup (foID <$> folders) → (∀ folder, folder ∈ folders → ∃ i, both_sides folder i) →
  ∃ infos, ccDeviceInfos me other folders infos0 = Ok infos ∧
    (∀ folder i, folder ∈ folders → both_sides folder i → infos !! foID folder = Some i) ∧
    (∀ k, k ∉ foID <$> folders → infos !! k = infos0 !! k).
Proof.
  revert infos0. induction folders as [|folder folders IH]; intros infos0 Hnd Hs; [by exists infos0; split_and!; set_solver|].
  apply NoDup_cons in Hnd as [Hn Hnd]. cbn [ccDeviceInfos].
  assert (Hi : ∀ i, both_sides folder i → info_loop me other zeroInfo (foDevices folder) = i).
  { intros [x y] (Hd & Hl & Hr & Hx & Hy). cbn in *. apply info_loop_found; try done; by right. }
  destruct (Hs folder) as [i Hb]; [left|]. rewrite (Hi i Hb). pose proof Hb as (_ & _ & _ & E1 & E2).
  rewrite !bool_decide_false by congruence.
  destruct (IH (<[foID folder := i]> infos0) Hnd) as (infos & E & H1 & H2); [intros; apply Hs; by right|].
  exists infos. split; [done|]. split.
  - intros g j [->|Hg]%elem_of_cons Hj; [|by apply H1].
    rewrite H2, lookup_insert_eq by done. f_equal. by rewrite <-(Hi i Hb), <-(Hi j Hj).
  - intros k Hk. rewrite H2; [|set_solver]. rewrite lookup_insert_ne; [done|]. set_solver.
Qed.
End lookup.

(** ** What a generated message holds *)
Section generate_spec.
Context {C : Crypto} {E : FolderDB.Engine}.
Context (myID : list Z) (cfg : Configuration) (tokens : gmap string (list Z)) (newID : Z).

Abbreviation messages := (message_device myID cfg tokens newID).
Abbreviation secret := (device_secret myID tokens).
Abbreviation device_cfg fd := (default zeroDevice (Configuration_Device cfg (fdDeviceID fd))).

(** What is said of a device apart from its index. *)
Definition said (d : Device) : list Z * bool * list Z := (dID d, dIntroducer d, dEncryptionPasswordToken d).

Definition share_said (device : list Z) (f : FolderConfiguration) (fd : FolderDeviceConfiguration)
    : option (list Z * bool * list Z) :=
  (λ tp : list Z * option string, (dcDeviceID (device_cfg fd), dcIntroducer (device_cfg fd), tp.1)) <$>
    secret device f (device_cfg fd) fd.

(** The password that goes with a folder. *)
Definition share_password (device : list Z) (f : FolderConfiguration) (fd : FolderDeviceConfiguration) : option string :=
  secret device f (device_cfg fd) fd ≫= snd.

Lemma message_devices device f fds b :
  let b' := fold_left (messages device f) fds b in
  said <$> bdDevices b' = (said <$> bdDevices b) ++ omap (share_said device f) fds ∧
  bdPasswords b' = fold_left (λ m p, <[fcID f := p]> m) (omap (share_password device f) fds) (bdPasswords b).
Proof.
  revert b. induction fds as [|fd fds IH]; intros b; cbn zeta; [by rewrite app_nil_r|].
  cbn [fold_left]. destruct (IH (messages device f b fd)) as [-> ->]. clear IH.
  unfold message_device. cbn [omap list_omap]. unfold share_said at 2, share_password at 2.
  destruct (secret device f (device_cfg fd) fd) as [[token password]|] eqn:Es; [|done]. cbn.
  destruct (index_state _ _ _ _) as [sdb [indexID maxSequence]]. cbn [bdDevices bdPasswords].
  rewrite fmap_app, <-(assoc_L (++)). by destruct password.
Qed.

Lemma message_folders device fs m :
  let m' := fold_left (message_folder myID cfg tokens newID device) fs m in
  (λ f, (foID f, foType f, IsRunning f, said <$> foDevices f)) <$> mgFolders m' =
    ((λ f, (foID f, foType f, IsRunning f, said <$> foDevices f)) <$> mgFolders m) ++
    ((λ f, (fcID f, 0, negb (fcPaused f), omap (share_said device f) (fcDevices f))) <$>
       filter (λ f, announces tokens device f = true) fs).
Proof.
  revert m. induction fs as [|f fs IH]; intros m; cbn zeta; [by rewrite app_nil_r|].
  cbn [fold_left]. rewrite IH. clear IH. unfold message_folder at 1. rewrite filter_cons.
  destruct (announces tokens device f) eqn:Ha; [rewrite decide_True by done|by rewrite decide_False].
  cbn [mgFolders]. rewrite fmap_app, <-(assoc_L (++)), fmap_cons. f_equal. cbn [fmap list_fmap app]. f_equal.
  cbn [foID foType foDevices IsRunning foStopReason].
  rewrite (proj1 (message_devices device f (fcDevices f) _)). cbn [bdDevices]. f_equal. f_equal.
  unfold IsRunning. cbn. by destruct (fcPaused f).
Qed.
(** The configuration is prepared; [device] is another device. *)
Context (device : list Z) (Hprep : prepared myID cfg) (Hme : myID ≠ EmptyDeviceID) (Hdev : device ≠ myID).

Lemma share_known f fd :
  f ∈ cfFolders cfg → fd ∈ fcDevices f → dcDeviceID (device_cfg fd) = fdDeviceID fd ∧ fdDeviceID fd ≠ EmptyDeviceID.
Proof.
  intros Hf Hfd. destruct (fo_known _ _ _ (pr_folder _ _ Hprep f Hf) fd Hfd) as [c [Hc Hi]%DeviceMap_Some].
  unfold Configuration_Device. destruct (find _ _) as [c'|] eqn:Hfind.
  - apply find_some in Hfind as [Hin%list_elem_of_In Hid%bool_decide_eq_true]. split; [done|].
    rewrite <-Hid. by apply (pr_ids _ _ Hprep).
  - eapply find_none in Hfind; [|by apply list_elem_of_In]. by rewrite bool_decide_true in Hfind.
Qed.

(** The token that goes with a share; [None] when the device is left out. *)
Definition share_token (f : FolderConfiguration) (fd : FolderDeviceConfiguration) : option (list Z) :=
  if decide (fdDeviceID fd = myID ∧ is_Some (tokens !! fcID f)) then tokens !! fcID f
  else if decide (fdEncryptionPassword fd = "") then Some []
  else if decide (fdDeviceID fd = device) then Some (PasswordToken (fcID f) (fdEncryptionPassword fd))
  else None.

Lemma share_said_spec f fd :
  f ∈ cfFolders cfg → fd ∈ fcDevices f →
  share_said device f fd = (λ tok, (fdDeviceID fd, dcIntroducer (device_cfg fd), tok)) <$> share_token f fd.
Proof.
  intros Hf Hfd. destruct (share_known f fd Hf Hfd) as [Eid _].
  unfold share_said, share_token, device_secret. rewrite Eid.
  destruct (tokens !! fcID f) as [tok|] eqn:Et; repeat case_bool_decide; repeat case_decide; try done.
  all: try (by destruct (proj2 H1)); naive_solver.
Qed.

(** A folder of the message and the folder of the configuration it announces. *)
Definition announced_by (folder : Folder) (f : FolderConfiguration) : Prop :=
  f ∈ cfFolders cfg ∧ announces tokens device f = true ∧ foID folder = fcID f ∧ foType folder = 0 ∧
  IsRunning folder = negb (fcPaused f) ∧
  said <$> foDevices folder = omap (share_said device f) (fcDevices f).

Abbreviation folders_of sdb := (mgFolders (generate_folders myID cfg tokens newID device sdb)).

Lemma generate_folders_spec sdb :
  foID <$> folders_of sdb = fcID <$> filter (λ f, announces tokens device f = true) (cfFolders cfg) ∧
  (∀ folder, folder ∈ folders_of sdb → ∃ f, announced_by folder f) ∧
  (∀ f, f ∈ cfFolders cfg → announces tokens device f = true → ∃ folder, folder ∈ folders_of sdb ∧ announced_by folder f).
Proof.
  pose proof (message_folders device (cfFolders cfg) (MkMessage [] ∅ sdb)) as Hm.
  cbn zeta in Hm. fold (generate_folders myID cfg tokens newID device sdb) in Hm. cbn [mgFolders fmap list_fmap app] in Hm.
  assert (Hone : ∀ folder f, (foID folder, foType folder, IsRunning folder, said <$> foDevices folder) =
                   (fcID f, 0, negb (fcPaused f), omap (share_said device f) (fcDevices f)) →
                 f ∈ filter (λ f, announces tokens device f = true) (cfFolders cfg) → announced_by folder f).
  { intros folder f [= E1 E2 E3 E4] [Ha Hf]%list_elem_of_filter. done. }
  split_and!.
  - apply (f_equal (fmap (λ x, x.1.1.1))) in Hm. rewrite <-!list_fmap_compose in Hm. exact Hm.
  - intros folder Hin. assert (Hx := list_elem_of_fmap_2 (λ f, (foID f, foType f, IsRunning f, said <$> foDevices f)) _ _ Hin).
    rewrite Hm in Hx. apply list_elem_of_fmap in Hx as (f & Ef & Hf). exists f. by apply Hone.
  - intros f Hf Ha. assert (Hx : f ∈ filter (λ f, announces tokens device f = true) (cfFolders cfg)) by by apply list_elem_of_filter.
    pose proof (list_elem_of_fmap_2 (λ f, (fcID f, 0, negb (fcPaused f), omap (share_said device f) (fcDevices f))) _ _ Hx) as Hy.
    rewrite <-Hm in Hy. apply list_elem_of_fmap in Hy as (folder & Ef & Hin). exists folder. split; [done|]. by apply Hone.
Qed.

(** A device in a folder of the message, from its share, and back. *)
Lemma announced_device folder f d :
  announced_by folder f → d ∈ foDevices folder →
  ∃ fd, fd ∈ fcDevices f ∧ dID d = fdDeviceID fd ∧ share_token f fd = Some (dEncryptionPasswordToken d).
Proof.
  intros (Hf & _ & _ & _ & _ & Hs) Hd. assert (Hx := list_elem_of_fmap_2 said _ _ Hd). rewrite Hs in Hx.
  apply list_elem_of_omap in Hx as (fd & Hfd & Es). rewrite share_said_spec in Es by done.
  destruct (share_token f fd) as [tok|] eqn:Et; [|done]. injection Es as E1 E2 E3. exists fd.
  split_and!; [done|done|]. by rewrite <-E3.
Qed.

Lemma share_announced folder f fd tok :
  announced_by folder f → fd ∈ fcDevices f → share_token f fd = Some tok →
  ∃ d, d ∈ foDevices folder ∧ dID d = fdDeviceID fd ∧ dEncryptionPasswordToken d = tok.
Proof.
  intros (Hf & _ & _ & _ & _ & Hs) Hfd Ht.
  assert (Hx : (fdDeviceID fd, dcIntroducer (device_cfg fd), tok) ∈ said <$> foDevices folder).
  { rewrite Hs. apply list_elem_of_omap. exists fd. split; [done|]. by rewrite share_said_spec, Ht. }
  apply list_elem_of_fmap in Hx as (d & E' & Hd). unfold said in E'. injection E' as E1 E2 E3. exists d. by rewrite E1, E3.
Qed.

Lemma announced_NoDup folder f : announced_by folder f → NoDup (dID <$> foDevices folder).
Proof.
  intros (Hf & _ & _ & _ & _ & Hs).
  replace (dID <$> foDevices folder) with ((λ x, x.1.1) <$> (said <$> foDevices folder)) by (by rewrite <-list_fmap_compose).
  rewrite Hs. clear Hs. pose proof (key_sorted_NoDup fdDeviceID _ (fo_sorted _ _ _ (pr_folder _ _ Hprep f Hf))) as Hnd.
  assert (Hall : ∀ fd, fd ∈ fcDevices f → ∀ x, share_said device f fd = Some x → x.1.1 = fdDeviceID fd).
  { intros fd Hfd x. rewrite share_said_spec by done. intros (tok & _ & ->)%fmap_Some. done. }
  revert Hnd Hall. generalize (fcDevices f) as fds. induction fds as [|fd fds IH]; [constructor|].
  rewrite fmap_cons. intros [Hn Hnd]%NoDup_cons Hall. cbn [omap list_omap].
  destruct (share_said device f fd) as [x|] eqn:Ex; [|apply IH; [done|intros; apply Hall; [by right|done]]].
  rewrite fmap_cons. constructor; [|apply IH; [done|intros; apply Hall; [by right|done]]].
  rewrite (Hall fd ltac:(left) x Ex). intros (y & Ey & (fd' & Hin & Ey')%list_elem_of_omap)%list_elem_of_fmap.
  apply Hn. rewrite Ey, (Hall fd' ltac:(by right) y Ey'). by apply list_elem_of_fmap_2.
Qed.
(** The own entry of the folder is not left out. *)
Definition own_share (f : FolderConfiguration) : Prop :=
  ∃ e, e ∈ fcDevices f ∧ fdDeviceID e = myID ∧ (fdEncryptionPassword e = "" ∨ is_Some (tokens !! fcID f)).

(** What the receiver finds about itself and the sender. *)
Definition receiver_info (f : FolderConfiguration) (e : FolderDeviceConfiguration) (i : clusterConfigDeviceInfo) : Prop :=
  dID (local i) = device ∧ dID (remote i) = myID ∧
  dEncryptionPasswordToken (local i) =
    (if decide (fdEncryptionPassword e = "") then [] else PasswordToken (fcID f) (fdEncryptionPassword e)) ∧
  dEncryptionPasswordToken (remote i) = default [] (tokens !! fcID f).

Lemma receiver_sides folder f e :
  announced_by folder f → own_share f → e ∈ fcDevices f → fdDeviceID e = device →
  ∃ i, both_sides device myID folder i ∧ receiver_info f e i.
Proof.
  intros Ha (o & Ho & Eo & Hown) He Ee.
  destruct (share_announced folder f e (if decide (fdEncryptionPassword e = "") then [] else PasswordToken (fcID f) (fdEncryptionPassword e)))
    as (x & Hx & Ex & Tx); [done..| |].
  { unfold share_token. rewrite decide_False by (intros [? _]; congruence).
    destruct (decide (fdEncryptionPassword e = "")); [done|]. by rewrite decide_True. }
  destruct (share_announced folder f o (default [] (tokens !! fcID f))) as (y & Hy & Ey & Ty); [done..| |].
  { unfold share_token. destruct (tokens !! fcID f) as [tok|]; [by rewrite decide_True by eauto|].
    rewrite decide_False by (by intros [_ []]). rewrite decide_True; [done|]. by destruct Hown as [|[]]. }
  exists (MkInfo x y). split; [|split_and!; cbn; congruence].
  split_and!; cbn; [by eapply announced_NoDup|done|done|congruence|congruence].
Qed.

Lemma announces_share f : announces tokens device f = true → ∃ e, e ∈ fcDevices f ∧ fdDeviceID e = device.
Proof.
  unfold announces, SharedWith, FolderConfiguration_Device. intros [Hs _]%andb_true_iff.
  apply bool_decide_eq_true in Hs as [e He]. apply find_some in He as [He%list_elem_of_In Hi%bool_decide_eq_true]. eauto.
Qed.

Lemma receiver_finds sdb :
  device ≠ EmptyDeviceID → (∀ f, f ∈ cfFolders cfg → announces tokens device f = true → own_share f) →
  ∃ infos, ccDeviceInfos device myID (folders_of sdb) ∅ = Ok infos ∧
    ∀ f e, f ∈ cfFolders cfg → announces tokens device f = true → e ∈ fcDevices f → fdDeviceID e = device →
      ∃ i, infos !! fcID f = Some i ∧ receiver_info f e i.
Proof.
  intros Hd Hown. destruct (generate_folders_spec sdb) as (H1 & H2 & H3). set (folders := folders_of sdb) in *.
  assert (Hnd : NoDup (foID <$> folders)).
  { rewrite H1. eapply sublist_NoDup; [|apply fmap_sublist, sublist_filter].
    pose proof (key_sorted_NoDup _ _ (pr_folders _ _ Hprep)) as Hn.
    rewrite (list_fmap_compose fcID string_key) in Hn.
    by apply NoDup_fmap_1 in Hn. }
  assert (Hsides : ∀ folder f, folder ∈ folders → announced_by folder f →
            ∃ e i, e ∈ fcDevices f ∧ fdDeviceID e = device ∧ both_sides device myID folder i ∧ receiver_info f e i).
  { intros folder f Hin Ha. pose proof Ha as (Hf & Ha' & _). destruct (announces_share f Ha') as (e & He & Ee).
    destruct (receiver_sides folder f e Ha (Hown f Hf Ha') He Ee) as (i & Hb & Hr).
    exists e, i. exact (conj He (conj Ee (conj Hb Hr))). }
  destruct (ccDeviceInfos_found device myID ltac:(done) ltac:(done) ltac:(done) folders ∅ Hnd) as (infos & E1 & E2 & _).
  { intros folder Hin. destruct (H2 folder Hin) as (f & Ha). destruct (Hsides folder f Hin Ha) as (_ & i & _ & _ & Hb & _). eauto. }
  exists infos. split; [exact E1|]. intros f e Hf Ha He Ee. destruct (H3 f Hf Ha) as (folder & Hin & Hab).
  destruct (receiver_sides folder f e Hab (Hown f Hf Ha) He Ee) as (i & Hb & Hr). exists i. split; [|done].
  destruct Hab as (_ & _ & <- & _). by apply E2.
Qed.

(** C27. The message a device generates: it announces exactly the folders that are
    shared with the receiver and, when encrypted here, have their token; tokens are
    said only of the receiver and of the sender, and a device that other devices
    must not see (one with a password) appears only in messages to itself; and the
    receiver finds itself and the sender in every folder, with the tokens that their
    shares call for. *)
Theorem generateClusterConfig_spec sdb cc passwords sdb' :
  device ≠ EmptyDeviceID →
  generateClusterConfig myID cfg tokens newID device sdb = (cc, passwords, sdb') →
  foID <$> ccFolders cc = fcID <$> filter (λ f, announces tokens device f = true) (cfFolders cfg) ∧
  (∀ folder, folder ∈ ccFolders cc → ∃ f, announced_by folder f ∧
     ∀ d, d ∈ foDevices folder → ∃ fd, fd ∈ fcDevices f ∧ fdDeviceID fd = dID d ∧
       (dID d ≠ device → dID d ≠ myID → fdEncryptionPassword fd = "" ∧ dEncryptionPasswordToken d = [])) ∧
  ((∀ f, f ∈ cfFolders cfg → announces tokens device f = true → own_share f) →
   ∃ infos, ccDeviceInfos device myID (ccFolders cc) ∅ = Ok infos ∧
     ∀ f e, f ∈ cfFolders cfg → announces tokens device f = true → e ∈ fcDevices f → fdDeviceID e = device →
       ∃ i, infos !! fcID f = Some i ∧ receiver_info f e i).
Proof.
  intros Hd [= <- _ _]. cbn [ccFolders]. destruct (generate_folders_spec sdb) as (H1 & H2 & H3).
  split_and!; [done| |].
  - intros folder Hin. destruct (H2 folder Hin) as (f & Hf). exists f. split; [done|]. intros d Hdf.
    destruct (announced_device folder f d Hf Hdf) as (fd & Hfd & Eid & Ht). exists fd. split_and!; [done|done|].
    unfold share_token in Ht. rewrite <-Eid in Ht. intros H4 H5. rewrite decide_False in Ht by tauto.
    case_decide; [by injection Ht as <-|]. by rewrite decide_False in Ht.
  - by apply receiver_finds.
Qed.
End generate_spec.

(** ** Two devices *)
Section agreement.
Context {C : Crypto} {laws : CryptoLaws C} {E : FolderDB.Engine}.

Lemma PasswordToken_nonempty id p : PasswordToken id p ≠ [].
Proof.
  unfold PasswordToken, encryptDeterministic. intros H%(f_equal length). rewrite length_siv_seal in H. cbn in H. lia.
Qed.

Context (read_error write_error : string → option string).

(** The own entries of all folders are plain. *)
Definition own_plain (myID : list Z) (cfg : Configuration) : Prop :=
  ∀ f, f ∈ cfFolders cfg → ∃ e, e ∈ fcDevices f ∧ fdDeviceID e = myID ∧ fdEncryptionPassword e = "".

(** A device receives the message of another one and checks the encryption of a
    folder. *)
Definition receive (myID sender : list Z) (t : token_store) (f : FolderConfiguration) (e : FolderDeviceConfiguration)
    (untrusted : bool) (cc : ClusterConfig) : go (token_store * option string * option (list (list Z))) :=
  let! infos := ccDeviceInfos myID sender (ccFolders cc) ∅ in
  Ok (ccCheckEncryption read_error write_error t f e (default zeroInfo (infos !! fcID f)) untrusted).

Record shares (myID other : list Z) (cfg : Configuration) (f : FolderConfiguration) (e : FolderDeviceConfiguration) : Prop := {
  sh_prepared : prepared myID cfg;
  sh_me : myID ≠ EmptyDeviceID;
  sh_own : own_plain myID cfg;
  sh_folder : f ∈ cfFolders cfg;
  sh_entry : e ∈ fcDevices f;
  sh_other : fdDeviceID e = other;
}.

(** What the receiver of a message about the folder finds. *)
Lemma receive_spec me other cfg f e tokens newID sdb t f' e' untrusted :
  shares me other cfg f e → other ≠ me → other ≠ EmptyDeviceID → fcID f' = fcID f →
  announces tokens other f = true →
  ∃ i, receiver_info me tokens other f e i ∧
    receive other me t f' e' untrusted (generateClusterConfig me cfg tokens newID other sdb).1.1 =
      Ok (ccCheckEncryption read_error write_error t f' e' i untrusted).
Proof.
  intros [Hp Hme Hown Hf He Ho] Hne Hoth Hid Ha. unfold receive, generateClusterConfig. cbn [fst ccFolders].
  destruct (receiver_finds me cfg tokens newID other Hp Hme Hne sdb Hoth) as (infos & -> & Hi).
  { intros g Hg _. destruct (Hown g Hg) as (o & H1 & H2 & H3). exists o. auto. }
  destruct (Hi f e Hf Ha He Ho) as (i & E1 & Hr). exists i. split; [done|]. cbn. by rewrite Hid, E1.
Qed.

Lemma shares_announces me other cfg f e tokens :
  shares me other cfg f e → fcType f ≠ FolderTypeReceiveEncrypted ∨ is_Some (tokens !! fcID f) → announces tokens other f = true.
Proof.
  intros [_ _ _ _ He Ho] Ht. unfold announces. apply andb_true_iff. split.
  - unfold SharedWith, FolderConfiguration_Device. apply bool_decide_eq_true.
    destruct (find _ _) as [c|] eqn:Hf; [eauto|]. eapply find_none in Hf; [|by apply list_elem_of_In].
    by rewrite bool_decide_true in Hf.
  - apply negb_true_iff, andb_false_iff. destruct Ht as [Ht|Ht]; [left; by apply Z.eqb_neq|right].
    by rewrite bool_decide_true.
Qed.

Abbreviation accepted r := (∃ (t' : token_store) resend, r = Ok (t', None, resend)).

(** Devices that mean the same accept each other: when one has a password for the
    other and the other holds the folder encrypted, with no token yet or that of the
    password, then it accepts the first message, keeps the token, announces the
    folder from then on, and is accepted in turn. *)
Theorem encrypted_agreement idA idB cfgA cfgB fA fB eA eB tokensA newID sdbA sdbB storeA storeB untrustedA untrustedB :
  shares idA idB cfgA fA eA → shares idB idA cfgB fB eB → idA ≠ idB → fcID fA = fcID fB →
  read_error (fcID fB) = None → write_error (fcID fB) = None →
  fdEncryptionPassword eA ≠ "" → fcType fA ≠ FolderTypeReceiveEncrypted → tokensA !! fcID fA = None →
  fdEncryptionPassword eB = "" → fcType fB = FolderTypeReceiveEncrypted →
  tokens_ok storeB →
  (files storeB !! fcID fB = None ∨ files storeB !! fcID fB = Some (PasswordToken (fcID fA) (fdEncryptionPassword eA))) →
  ∃ storeB' resend,
    receive idB idA storeB fB eB untrustedB (generateClusterConfig idA cfgA tokensA newID idB sdbA).1.1 =
      Ok (storeB', None, resend) ∧
    memory storeB' !! fcID fB = Some (PasswordToken (fcID fA) (fdEncryptionPassword eA)) ∧
    accepted (receive idA idB storeA fA eA untrustedA
                (generateClusterConfig idB cfgB (memory storeB') newID idA sdbB).1.1).
Proof.
  intros HA HB Hne Hid Hr Hw Hpw HtA Hnone HpB HtB HokB Hfile.
  destruct (receive_spec idA idB cfgA fA eA tokensA newID sdbA storeB fB eB untrustedB HA) as (i & (L1 & L2 & L3 & L4) & ->);
    [done|by apply HB|done|by eapply shares_announces; eauto|].
  rewrite decide_False in L3 by done. rewrite Hnone in L4. cbn in L4.
  set (T := PasswordToken (fcID fA) (fdEncryptionPassword eA)) in *. pose proof (PasswordToken_nonempty (fcID fA) (fdEncryptionPassword eA)) as HT.
  fold T in HT. assert (Hrecv : receiving_share fB eB i T) by (split; [done|split; [done|split; [exact HT|by left]]]).
  pose proof (receiving_check read_error write_error storeB fB eB i untrustedB T
    (receiving_configured _ _ _ _ _ Hrecv) HokB) as Hc.
  destruct (ccCheckEncryption read_error write_error storeB fB eB i untrustedB) as [[storeB' err] resend].
  destruct Hc as (_ & _ & Hmem & _ & Hgood). assert (err = None) as -> by by apply Hgood. apply proj1 in Hmem. specialize (Hmem eq_refl).
  exists storeB', resend. split_and!; [done|done|].
  destruct (receive_spec idB idA cfgB fB eB (memory storeB') newID sdbB storeA fA eA untrustedA HB) as (j & (M1 & M2 & M3 & M4) & ->);
    [done|by apply HA|done|by eapply shares_announces; eauto|].
  rewrite decide_True in M3 by done. rewrite Hmem in M4.
  exists storeA, None. f_equal. apply configured_check, encrypting_configured.
  split; [done|split; [done|split; [apply PasswordToken_nonempty|right; split; [exact M3|exact M4]]]].
Qed.
End agreement.

(** ** What is done with the folders of a message *)
Section handle_spec.
Context {C : Crypto} {E : FolderDB.Engine}.
Context (read_error write_error : string → option string).
Context (cfg : Configuration) (deviceCfg : DeviceConfiguration) (now newID : Z)
  (add_fails remove_fails : string → bool) (infos : gmap string clusterConfigDeviceInfo).

Abbreviation deviceID := (dcDeviceID deviceCfg).
Abbreviation handle := (handle_folder read_error write_error cfg deviceCfg now newID add_fails infos).

(** The ways of a folder through the loop. *)
Inductive way :=
  | Ignored
  | Offered
  | Stopped
  | PausedHere
  | Checked (fcfg : FolderConfiguration) (folderDevice : FolderDeviceConfiguration).

Definition way_of (folder : Folder) : way :=
  match (f ← Configuration_Folder cfg (foID folder); fd ← FolderConfiguration_Device f deviceID; Some (f, fd)) with
  | None => if DeviceConfiguration_IgnoredFolder deviceCfg (foID folder) then Ignored else Offered
  | Some (f, fd) => if negb (IsRunning folder) then Stopped else if fcPaused f then PausedHere else Checked f fd
  end.

Definition events (folder : Folder) : list IndexRegistry.regEvent :=
  let id := foID folder in
  let add := IndexRegistry.EvAddIndexInfo id (index_info infos id) in
  match way_of folder with
  | Ignored | Stopped => [IndexRegistry.EvRemove id]
  | Offered => IndexRegistry.EvRemove id :: if IsRunning folder then [add] else []
  | PausedHere | Checked _ _ => [add]
  end.

Definition seen_state (folder : Folder) : remoteFolderState :=
  match way_of folder with Stopped => remoteFolderPaused | _ => remoteFolderValid end.

Definition is_offered (folder : Folder) : bool := match way_of folder with Offered => true | _ => false end.
Definition entry_of (folder : Folder) : PendingFolder :=
  let i := folder_info infos (foID folder) in
  MkPending now (foLabel folder) (bool_decide (dEncryptionPasswordToken (local i) ≠ []))
    (bool_decide (dEncryptionPasswordToken (remote i) ≠ [])).

(** The encryption of the folder fits, given the tokens in memory. *)
Definition fits (memory : gmap string (list Z)) (folder : Folder) : Prop :=
  match way_of folder with
  | Checked f fd =>
      let i := folder_info infos (foID folder) in
      plain_share f fd i (dcUntrusted deviceCfg) ∨ encrypting_share f fd i ∨
      ∃ tok, receiving_share f fd i tok ∧ memory !! fcID f = Some tok
  | _ => True
  end.

Abbreviation registry_after r es := ((IndexRegistry.reg_run deviceID newID r es).1).

(** One round. *)
Record round (s s' : ccLoop) (folder : Folder) : Prop := {
  rd_handlers : csHandlers (clState s') = registry_after (csHandlers (clState s)) (events folder);
  rd_seen : clSeen s' = <[foID folder := seen_state folder]> (clSeen s);
  rd_pending : csPending (clState s') =
    if is_offered folder && negb (add_fails (foID folder))
    then <[foID folder := entry_of folder]> (csPending (clState s)) else csPending (clState s);
  rd_expired : clExpired s' = if is_offered folder then clExpired s ∖ {[foID folder]} else clExpired s;
  rd_tokens : tokens_ok (csTokens (clState s)) →
    tokens_ok (csTokens (clState s')) ∧ tokens_grow (csTokens (clState s)) (csTokens (clState s')) ∧
    fits (memory (csTokens (clState s'))) folder;
}.

Lemma Configuration_Folder_id c id f : Configuration_Folder c id = Some f → fcID f = id.
Proof. intros [_ H%bool_decide_eq_true]%find_some. done. Qed.

Lemma handle_folder_round s s' folder : handle s folder = (s', None) → round s s' folder.
Proof.
  unfold handle_folder.
  destruct (f ← Configuration_Folder cfg (foID folder); fd ← FolderConfiguration_Device f deviceID; Some (f, fd))
    as [[f fd]|] eqn:Ef.
  - assert (Hid : fcID f = foID folder).
    { destruct (Configuration_Folder cfg (foID folder)) as [f'|] eqn:Hf; [|done]. apply Configuration_Folder_id in Hf.
      cbn in Ef. destruct (FolderConfiguration_Device f' deviceID); [|done]. by injection Ef as <- _. }
    destruct (negb (IsRunning folder)) eqn:Hrun.
    { intros [= <-]. constructor; unfold events, seen_state, is_offered, fits, way_of; rewrite Ef, Hrun; try done.
      cbn. by rewrite Hid, insert_insert_eq. }
    destruct (fcPaused f) eqn:Hp.
    { intros [= <-]. constructor; unfold events, seen_state, is_offered, fits, way_of; rewrite Ef, Hrun, Hp; try done.
      cbn. unfold AddIndexInfo. by destruct (IndexRegistry.AddIndexInfo _ _ _ _ _). }
    cbv zeta. destruct (ccCheckEncryption _ _ _ _ _ _ _) as [[tokens err] resend] eqn:Ec.
    destruct err as [err|]; [done|]. intros [= <-].
    constructor; unfold events, seen_state, is_offered, fits, way_of; rewrite Ef, Hrun, Hp; try done.
    + cbn. by destruct (IndexRegistry.AddIndexInfo _ _ _ _ _).
    + intros Hok. cbn [clState csTokens set_field] in *. by apply (check_success _ _ _ _ _ _ _ _ _ Hok) in Ec.
  - intros [= <-]. unfold unexpected_folder.
    destruct (DeviceConfiguration_IgnoredFolder deviceCfg (foID folder)) eqn:Hi.
    { constructor; unfold events, seen_state, is_offered, fits, way_of; rewrite Ef, Hi; done. }
    constructor; unfold events, seen_state, is_offered, fits, way_of; rewrite Ef, Hi; cbn;
      destruct (add_fails (foID folder)), (IsRunning folder); cbn; try done.
    all: by destruct (IndexRegistry.AddIndexInfo _ _ _ _ _).
Qed.
(** *** The loop *)
Lemma reg_run_app r es es' :
  registry_after r (es ++ es') = registry_after (registry_after r es) es'.
Proof.
  revert r. induction es as [|e es IH]; intros r; [done|]. cbn [app IndexRegistry.reg_run].
  destruct (IndexRegistry.reg_step deviceID newID r e) as [r1 starts]. specialize (IH r1).
  destruct (IndexRegistry.reg_run deviceID newID r1 (es ++ es')), (IndexRegistry.reg_run deviceID newID r1 es).
  exact IH.
Qed.

Definition offers (folder : Folder) : bool := is_offered folder && negb (add_fails (foID folder)).

Record loop_done (s s' : ccLoop) (folders : list Folder) : Prop := {
  ld_handlers : csHandlers (clState s') = registry_after (csHandlers (clState s)) (mjoin (events <$> folders));
  ld_seen : clSeen s' = fold_left (λ m f, <[foID f := seen_state f]> m) folders (clSeen s);
  ld_pending : csPending (clState s') =
    fold_left (λ m f, if offers f then <[foID f := entry_of f]> m else m) folders (csPending (clState s));
  ld_expired : clExpired s' = fold_left (λ x f, if is_offered f then x ∖ {[foID f]} else x) folders (clExpired s);
  ld_tokens : tokens_ok (csTokens (clState s)) →
    tokens_ok (csTokens (clState s')) ∧ tokens_grow (csTokens (clState s)) (csTokens (clState s')) ∧
    Forall (fits (memory (csTokens (clState s')))) folders;
}.

Lemma fits_mono m m' folder : m ⊆ m' → fits m folder → fits m' folder.
Proof.
  intros Hm. unfold fits. destruct (way_of folder); [done..|].
  intros [H|[H|(tok & H & Ht)]]; [by left|by right; left|]. right. right. exists tok. split; [done|].
  by apply (lookup_weaken _ _ _ _ Ht).
Qed.

Lemma fits_checked m folder f fd :
  way_of folder = Checked f fd → fits m folder →
  let i := folder_info infos (foID folder) in
  plain_share f fd i (dcUntrusted deviceCfg) ∨ encrypting_share f fd i ∨
  ∃ tok, receiving_share f fd i tok ∧ m !! fcID f = Some tok.
Proof. intros Hw. unfold fits. by rewrite Hw. Qed.

Lemma handle_loop_done folders s s' :
  handle_loop read_error write_error cfg deviceCfg now newID add_fails infos s folders = (s', None) →
  loop_done s s' folders.
Proof.
  revert s. induction folders as [|folder folders IH]; intros s; cbn [handle_loop].
  { intros [= <-]. by constructor. }
  destruct (handle s folder) as [s1 [err|]] eqn:Eh; [done|]. intros Hl.
  apply handle_folder_round in Eh as [R1 R2 R3 R4 R5]. destruct (IH s1 Hl) as [L1 L2 L3 L4 L5]. constructor.
  - rewrite fmap_cons. cbn [mjoin list_join]. by rewrite L1, R1, reg_run_app.
  - by rewrite L2, R2.
  - by rewrite L3, R3.
  - by rewrite L4, R4.
  - intros Hok. destruct (R5 Hok) as (H1 & [H2 H3] & H4). destruct (L5 H1) as (H5 & [H6 H7] & H8).
    split; [done|]. split; [split; by etrans|]. constructor; [|done]. by eapply fits_mono.
Qed.

(** *** Each folder by itself *)
Definition ignored (folder : Folder) : bool := match way_of folder with Ignored => true | _ => false end.

(** Whether the other device announces the folder, so that its index is wanted. *)
Definition wanted (folders : list Folder) (k : string) : bool :=
  existsb (λ folder, bool_decide (foID folder = k) && IsRunning folder && negb (ignored folder)) folders.

Abbreviation link_after k es l := (fold_left (IndexRegistry.link_step deviceID k) es l).

Lemma link_events k folder l :
  link_after k (events folder) l =
  if bool_decide (foID folder = k) then IndexRegistry.MkLink (IsRunning folder && negb (ignored folder)) (IndexRegistry.runs l) else l.
Proof.
  unfold events, ignored.
  assert (Hrun : match way_of folder with PausedHere | Checked _ _ => IsRunning folder = true | Stopped => IsRunning folder = false | _ => True end).
  { unfold way_of. destruct (Configuration_Folder cfg (foID folder)) as [f|]; cbn;
      [destruct (FolderConfiguration_Device f deviceID) as [fd|]; cbn|]; try (by destruct (DeviceConfiguration_IgnoredFolder _ _)).
    destruct (IsRunning folder); [|done]. cbn. by destruct (fcPaused f). }
  destruct (way_of folder); try rewrite Hrun; destruct (IsRunning folder); cbn; case_bool_decide; cbn; try done;
    by destruct l.
Qed.

Lemma wanted_out folders k : k ∉ foID <$> folders → wanted folders k = false.
Proof.
  intros Hn. apply not_true_iff_false. unfold wanted. rewrite existsb_exists.
  intros (g & Hg%list_elem_of_In & Hb). apply andb_true_iff in Hb as [[Hb _]%andb_true_iff _].
  apply bool_decide_eq_true in Hb. apply Hn. rewrite <-Hb. by apply list_elem_of_fmap_2.
Qed.

Lemma link_folders k folders l :
  NoDup (foID <$> folders) →
  link_after k (mjoin (events <$> folders)) l =
  if bool_decide (k ∈ foID <$> folders) then IndexRegistry.MkLink (wanted folders k) (IndexRegistry.runs l) else l.
Proof.
  revert l. induction folders as [|folder folders IH]; intros l.
  { intros _. by rewrite bool_decide_false by (by intros ?%elem_of_nil). }
  rewrite fmap_cons. intros [Hn Hnd]%NoDup_cons. rewrite fmap_cons. cbn [mjoin list_join].
  rewrite fold_left_app, link_events, IH by done. unfold wanted. cbn [existsb]. fold (wanted folders k).
  destruct (decide (foID folder = k)) as [<-|Hne].
  - rewrite (bool_decide_false (foID folder ∈ foID <$> folders)) by done. rewrite bool_decide_true by done.
    rewrite bool_decide_true by left. cbn. f_equal.
    by rewrite wanted_out, orb_false_r.
  - rewrite !(bool_decide_false (foID folder = k)) by done. cbn [andb orb].
    case_bool_decide as Hk; case_bool_decide as Hk'; [done|set_solver|set_solver|done].
Qed.
(** *** The maps after the loop *)
Lemma fold_lookup {A B} (key : A → string) (f : gmap string B → A → gmap string B) (upd : A → option B → option B)
    (Hf : ∀ m a k, f m a !! k = if bool_decide (key a = k) then upd a (m !! k) else m !! k) l m k :
  NoDup (key <$> l) →
  fold_left f l m !! k = match find (λ a, bool_decide (key a = k)) l with Some a => upd a (m !! k) | None => m !! k end.
Proof.
  revert m. induction l as [|a l IH]; intros m; [done|]. rewrite fmap_cons. intros [Hn Hnd]%NoDup_cons.
  cbn [fold_left find]. rewrite IH, Hf by done. case_bool_decide as Hk; [|done].
  destruct (find _ l) as [b|] eqn:Hb; [|done]. exfalso. apply find_some in Hb as [Hb%list_elem_of_In Hkb%bool_decide_eq_true].
  apply Hn. rewrite Hk, <-Hkb. by apply list_elem_of_fmap_2.
Qed.

Definition announced_as (folders : list Folder) (k : string) : option Folder :=
  find (λ f, bool_decide (foID f = k)) folders.

Lemma announced_as_Some folders k f : announced_as folders k = Some f → f ∈ folders ∧ foID f = k.
Proof. intros [H1%list_elem_of_In H2%bool_decide_eq_true]%find_some. done. Qed.

Lemma announced_as_is_Some folders k : is_Some (announced_as folders k) ↔ k ∈ foID <$> folders.
Proof.
  split; [intros [f [Hf <-]%announced_as_Some]; by apply list_elem_of_fmap_2|].
  intros (f & -> & Hf)%list_elem_of_fmap. destruct (announced_as _ _) as [g|] eqn:Hg; [eauto|].
  eapply find_none in Hg; [|by apply list_elem_of_In]. by rewrite bool_decide_true in Hg.
Qed.

Lemma expired_fold folders (x : gset string) k :
  NoDup (foID <$> folders) →
  k ∈ fold_left (λ x f, if is_offered f then x ∖ {[foID f]} else x) folders x ↔
  k ∈ x ∧ match announced_as folders k with Some f => is_offered f = false | None => True end.
Proof.
  revert x. induction folders as [|f folders IH]; intros x; [by cbn; tauto|].
  rewrite fmap_cons. intros [Hn Hnd]%NoDup_cons. cbn [fold_left]. rewrite IH by done.
  unfold announced_as. cbn [find]. fold (announced_as folders k). case_bool_decide as Hk.
  - destruct (announced_as folders k) as [g|] eqn:Hg.
    { destruct Hn. rewrite Hk. apply announced_as_is_Some. by rewrite Hg. }
    destruct (is_offered f); set_solver.
  - destruct (is_offered f); set_solver.
Qed.

Definition shared_here (k : string) : bool := existsb (λ f, bool_decide (fcID f = k) && SharedWith f deviceID) (cfFolders cfg).

Lemma mark_not_sharing_lookup seen k :
  mark_not_sharing cfg deviceCfg seen !! k =
  match seen !! k with Some x => Some x | None => if shared_here k then Some remoteFolderNotSharing else None end.
Proof.
  unfold mark_not_sharing, shared_here. revert seen. induction (cfFolders cfg) as [|f fs IH]; intros seen; cbn [fold_left existsb].
  { by destruct (seen !! k). }
  rewrite IH. clear IH. destruct (seen !! fcID f) as [x|] eqn:Hx.
  - case_bool_decide as Hk; [|done]. by rewrite <-Hk, Hx.
  - destruct (SharedWith f deviceID); rewrite ?andb_false_r, ?andb_true_r; [|done].
    case_bool_decide as Hk; cbn; [rewrite <-Hk, lookup_insert_eq, Hx; done|by rewrite lookup_insert_ne].
Qed.

Lemma cc_reg_ok_ext r links links' good :
  (∀ k, links k = links' k) → IndexRegistry.reg_ok r links good → IndexRegistry.reg_ok r links' good.
Proof.
  intros Hl (H1 & H2 & H3). split_and!; [done..| |]; intros; rewrite <-Hl; auto.
Qed.

Abbreviation handle_all st expired folders :=
  (ccHandleFolders read_error write_error cfg deviceCfg now newID add_fails remove_fails infos st expired folders).

(** C26. After a message that was accepted, with no check of another one in between: the encryption of every folder that runs on
    both sides fits; indexes are exchanged exactly for the announced folders that
    run there and are not ignored, whether or not they run here; the other device's
    state of every folder is known; and the folders it offers are those it announces
    that are not shared with it here, others it offered before are dropped. *)
Theorem ccHandleFolders_spec st expired folders st' temp seen :
  NoDup (foID <$> folders) → tokens_ok (csTokens st) →
  handle_all st expired folders = (st', Ok (temp, seen)) →
  tokens_grow (csTokens st) (csTokens st') ∧ Forall (fits (memory (csTokens st'))) folders ∧
  (∀ links good, IndexRegistry.reg_ok (csHandlers st) links good →
     ∃ starts, IndexRegistry.reg_ok (csHandlers st')
       (λ k, IndexRegistry.MkLink (wanted folders k) (IndexRegistry.runs (links k))) (good ∧ IndexRegistry.all_started starts)) ∧
  (∀ k, seen !! k = match announced_as folders k with
                    | Some f => Some (seen_state f)
                    | None => if shared_here k then Some remoteFolderNotSharing else None
                    end) ∧
  (∀ k, csPending st' !! k =
     match announced_as folders k with
     | Some f => if offers f then Some (entry_of f)
                 else if decide (is_offered f = false ∧ k ∈ expired ∧ remove_fails k = false) then None else csPending st !! k
     | None => if decide (k ∈ expired ∧ remove_fails k = false) then None else csPending st !! k
     end).
Proof.
  intros Hnd Hok. unfold ccHandleFolders.
  destruct (handle_loop _ _ _ _ _ _ _ _ _ folders) as [s [err|]] eqn:Hl; [done|].
  apply handle_loop_done in Hl as [L1 L2 L3 L4 L5]. cbn [clState clSeen clExpired csHandlers csPending csTokens] in *.
  intros [= <- _ <-]. destruct (L5 Hok) as (_ & H2 & H3). cbn [csTokens csHandlers csPending set_field].
  assert (Hseen : ∀ k, clSeen s !! k = seen_state <$> announced_as folders k).
  { intros k. rewrite L2, (fold_lookup foID _ (λ f _, Some (seen_state f))); [|intros; case_bool_decide as Hk|done].
    - rewrite lookup_empty. unfold announced_as. by destruct (find _ folders).
    - by rewrite Hk, lookup_insert_eq.
    - by rewrite lookup_insert_ne. }
  split; [done|]. split; [done|]. split; [|split].
  - intros links good Hr. pose proof (IndexRegistry.reg_run_ok deviceID newID
      (mjoin (events <$> folders) ++ [IndexRegistry.EvRemoveAllExcept (dom (clSeen s))]) _ _ _ Hr) as Hrun.
    destruct (IndexRegistry.reg_run _ _ _ (_ ++ _)) as [r' starts] eqn:Er. exists starts.
    apply (f_equal fst) in Er. rewrite reg_run_app, <-L1 in Er. cbn in Er. rewrite Er.
    eapply cc_reg_ok_ext; [|exact Hrun]. intros k. cbn beta. rewrite fold_left_app, link_folders by done. cbn.
    assert (Hdom : k ∈ dom (clSeen s) ↔ k ∈ foID <$> folders).
    { by rewrite elem_of_dom, Hseen, fmap_is_Some, announced_as_is_Some. }
    destruct (decide (k ∈ foID <$> folders)) as [Hk|Hk].
    + rewrite !bool_decide_true by tauto. done.
    + rewrite !bool_decide_false by tauto. by rewrite wanted_out.
  - intros k. rewrite mark_not_sharing_lookup, Hseen. by destruct (announced_as folders k).
  - intros k. set (kept := λ o : option PendingFolder, if decide (k ∈ clExpired s ∧ remove_fails k = false) then None else o).
    transitivity (kept (csPending (clState s) !! k)).
    { unfold kept. rewrite map_lookup_filter. destruct (csPending (clState s) !! k); [|by case_decide]. cbn.
      case_decide; case_guard; first [reflexivity|done|exfalso; tauto]. }
    unfold kept. rewrite L3, L4, (fold_lookup foID _ (λ f o, if offers f then Some (entry_of f) else o)); [| |done].
    2: { intros m f k'. destruct (offers f); [|by case_bool_decide].
         case_bool_decide as Hk; [by rewrite Hk, lookup_insert_eq|by rewrite lookup_insert_ne]. }
    fold (announced_as folders k). pose proof (expired_fold folders expired k Hnd) as Hx.
    destruct (announced_as folders k) as [f|]; unfold offers; repeat case_decide; try tauto.
    all: destruct (is_offered f); cbn; first [done|exfalso; tauto|exfalso; intuition discriminate].
Qed.
End handle_spec.

(** ** Two concrete devices

    Device 1 holds the folder in the open and has a password for device 2, which
    holds it encrypted. *)
Definition pair_share (n : Z) (password : string) : FolderDeviceConfiguration :=
  MkFolderDeviceConfiguration (dev_id n) EmptyDeviceID password.
Definition pair_folder (type : Z) (password : string) : FolderConfiguration :=
  prepare_limits ((sample_folder "photos" [pair_share 1 ""; pair_share 2 password]) <| fcType := type |>).
Definition pair_config (type : Z) (password : string) : Configuration :=
  MkConfiguration 52 [pair_folder type password] [sample_device_config 1; sample_device_config 2]
    sample_gui (MkLDAPConfiguration "" "" 0 false "" "")
    (OptionsConfiguration_prepare sample_env sample_options false) [] []
    (MkDefaults (sample_folder "" []) zeroDevice []).

Lemma pair_prepared me type password :
  me = dev_id 1 ∨ me = dev_id 2 → prepared me (pair_config type password).
Proof.
  intros Hme.
  assert (Hdev : ∀ d, d ∈ cfDevices (pair_config type password) → d = sample_device_config 1 ∨ d = sample_device_config 2).
  { intros d [->|[->|Hd%elem_of_nil]%elem_of_cons]%elem_of_cons; auto. done. }
  assert (Hfol : ∀ f, f ∈ cfFolders (pair_config type password) → f = pair_folder type password).
  { intros f [->|Hf%elem_of_nil]%elem_of_cons; [done|done]. }
  assert (Hmap : ∀ id, id = dev_id 1 ∨ id = dev_id 2 →
            ∃ c, DeviceMap (cfDevices (pair_config type password)) !! id = Some c ∧ dcUntrusted c = false).
  { intros id [->| ->]; eexists; split; vm_compute; reflexivity. }
  assert (Hshare : ∀ e, e ∈ fcDevices (pair_folder type password) → fdDeviceID e = dev_id 1 ∨ fdDeviceID e = dev_id 2).
  { intros e [->|[->|He%elem_of_nil]%elem_of_cons]%elem_of_cons; [by left|by right|done]. }
  constructor.
  - repeat constructor.
  - intros d [->| ->]%Hdev; vm_compute; discriminate.
  - intros _. destruct Hme as [->| ->]; [left|right; left].
  - intros d [->| ->]%Hdev; vm_compute; discriminate.
  - intros d [->| ->]%Hdev; constructor.
  - intros d f [->| ->]%Hdev _ _; reflexivity.
  - repeat constructor.
  - intros f ->%Hfol. split; vm_compute; discriminate.
  - intros f ->%Hfol. constructor; try (vm_compute; (done || split; done)).
    + repeat constructor.
    + intros e He. destruct (Hmap _ (Hshare e He)) as (c & -> & _). eauto.
    + intros e He. right. right. apply Hmap. by apply Hshare.
    + intros _. left. destruct Hme as [->| ->]; [left|right; left].
    + intros Ht. change (fcType (pair_folder type password)) with type in Ht. rewrite Ht. reflexivity.
  - intros d Hd%elem_of_nil. done.
  - constructor; try (vm_compute; done). eexists. split; [vm_compute; reflexivity|]. by apply (bool_decide_unpack _).
Qed.

Section samples.
Local Existing Instance sample_crypto.
Local Existing Instance FolderDB.table_engine.

Abbreviation no_error := (λ _ : string, None : option string).
Abbreviation no_tokens := (MkTokens ∅ ∅).
Abbreviation empty_dbs := (λ _ : string, FolderDB.openFolderDB).
Abbreviation config_A := (pair_config FolderTypeSendReceive "secret").
Abbreviation config_B := (pair_config FolderTypeReceiveEncrypted "").
Abbreviation folder_A := (pair_folder FolderTypeSendReceive "secret").
Abbreviation folder_B := (pair_folder FolderTypeReceiveEncrypted "").

Lemma pair_shares me other type password e :
  (me = dev_id 1 ∧ other = dev_id 2 ∧ e = pair_share 2 password ∨
   me = dev_id 2 ∧ other = dev_id 1 ∧ e = pair_share 1 "" ∧ password = "") →
  shares me other (pair_config type password) (pair_folder type password) e.
Proof.
  intros H. constructor.
  - apply pair_prepared. naive_solver.
  - destruct H as [(-> & _)|(-> & _)]; vm_compute; discriminate.
  - intros f [->|Hf%elem_of_nil]%elem_of_cons; [|done].
    destruct H as [(-> & _)|(-> & _ & _ & ->)]; [exists (pair_share 1 "")|exists (pair_share 2 "")];
      split_and!; [left|done|done|right; left|done|done].
  - left.
  - destruct H as [(_ & _ & ->)|(_ & _ & -> & _)]; [right; left|left].
  - destruct H as [(_ & -> & ->)|(_ & -> & -> & _)]; reflexivity.
Qed.

Lemma encrypted_agreement_witness :
  ∃ storeB' resend,
    receive no_error no_error (dev_id 2) (dev_id 1) no_tokens folder_B (pair_share 1 "") true
      (generateClusterConfig (dev_id 1) config_A ∅ 5 (dev_id 2) empty_dbs).1.1 = Ok (storeB', None, resend) ∧
    memory storeB' !! "photos" = Some (PasswordToken "photos" "secret") ∧
    ∃ storeA' resend',
      receive no_error no_error (dev_id 1) (dev_id 2) no_tokens folder_A (pair_share 2 "secret") true
        (generateClusterConfig (dev_id 2) config_B (memory storeB') 5 (dev_id 1) empty_dbs).1.1 = Ok (storeA', None, resend').
Proof.
  apply (encrypted_agreement no_error no_error (dev_id 1) (dev_id 2) config_A config_B folder_A folder_B
    (pair_share 2 "secret") (pair_share 1 "")).
  - apply pair_shares. left. auto.
  - apply pair_shares. right. auto.
  - vm_compute. discriminate.
  - reflexivity.
  - reflexivity.
  - reflexivity.
  - vm_compute. discriminate.
  - vm_compute. discriminate.
  - reflexivity.
  - reflexivity.
  - reflexivity.
  - reflexivity.
  - left. reflexivity.
Defined.

Lemma generateClusterConfig_spec_witness :
  ∃ cc passwords sdb', generateClusterConfig (dev_id 1) config_A ∅ 5 (dev_id 2) empty_dbs = (cc, passwords, sdb') ∧
    foID <$> ccFolders cc = ["photos"] ∧
    ∃ infos, ccDeviceInfos (dev_id 2) (dev_id 1) (ccFolders cc) ∅ = Ok infos.
Proof.
  destruct (generateClusterConfig (dev_id 1) config_A ∅ 5 (dev_id 2) empty_dbs) as [[cc passwords] sdb'] eqn:Eg.
  exists cc, passwords, sdb'. split; [reflexivity|].
  destruct (generateClusterConfig_spec (dev_id 1) config_A ∅ 5 (dev_id 2) (pair_prepared _ _ _ (or_introl eq_refl))
    ltac:(vm_compute; discriminate) ltac:(vm_compute; discriminate) empty_dbs cc passwords sdb'
    ltac:(vm_compute; discriminate) Eg) as (H1 & _ & H3).
  split; [rewrite H1; reflexivity|]. destruct H3 as (infos & E & _).
  - intros f [->|Hf%elem_of_nil]%elem_of_cons _; [|done]. exists (pair_share 1 ""). split; [left|]. split; [reflexivity|by left].
  - exists infos. exact E.
Defined.

Abbreviation token_device token := (MkDevice (dev_id 1) "" [] 0 "" 0 false 0 false token).
Abbreviation with_token token := (MkInfo (token_device token) zeroMessageDevice).
Abbreviation check t token := (ccCheckEncryption no_error no_error t folder_B (pair_share 1 "") (with_token token) true).

Abbreviation file_store := (MkTokens ∅ {[ "photos" := [7] ]}).
Abbreviation one_token_store := (MkTokens {[ "photos" := [7] ]} {[ "photos" := [7] ]}).
Abbreviation start token := (StartCheck folder_B (pair_share 1 "") (with_token token) true).
Abbreviation step i := (StepCheck i None).

(** The token of the file is found while a message shows another one: it stays, and
    that message is refused. *)
Lemma ccCheckEncryption_spec_witness :
  let es := [start [7]; start [8]; step 0%nat; step 1%nat; step 1%nat; step 0%nat; step 0%nat; step 1%nat] in
  ∃ cs, check_run file_store es = (one_token_store, cs) ∧
    (ckAt <$> cs = [CheckDone None None; CheckDone (Some errEncryptionPassword) None]) ∧
    tokens_ok file_store ∧ tokens_grow file_store one_token_store.
Proof.
  intros es. assert (Hok : tokens_ok file_store) by (unfold tokens_ok; apply map_empty_subseteq).
  eexists. split; [vm_compute; reflexivity|]. split; [reflexivity|]. split; [exact Hok|].
  refine (proj1 (ccCheckEncryption_spec file_store es one_token_store _ Hok _)). vm_compute. reflexivity.
Defined.

(** Two devices show different tokens at the same time: both see that there is none
    yet, so both are accepted, the second token replaces the first in the file, and
    what is in memory is another one than what is in the file. *)
Example first_tokens_race :
  let '(t, cs) := check_run no_tokens
    [start [7]; start [8]; step 0%nat; step 1%nat; step 0%nat; step 1%nat; step 0%nat; step 1%nat; step 1%nat; step 0%nat] in
  (memory t !! "photos", files t !! "photos", (λ c, match ckAt c with CheckDone res _ => res | _ => Some "" end) <$> cs) =
  (Some [7], Some [8], [None; None]).
Proof. vm_compute. reflexivity. Qed.

Lemma token_shown : one_token (with_token [7]) [7].
Proof. split; [discriminate|left; split; reflexivity]. Qed.

(** Device 1 announces its encrypted folder and a folder that is not known here; it
    no longer offers one it offered before. *)
Abbreviation message_1 :=
  [MkFolder "photos" "" 0 0 [token_device [7]]; MkFolder "music" "Music" 0 0 [token_device []]].
Abbreviation infos_1 := ({[ "photos" := with_token [7]; "music" := with_token [] ]} : gmap string clusterConfigDeviceInfo).
Abbreviation state_1 :=
  (MkCcState no_tokens ∅ {[ "old" := MkPending 0 "" false false ]} (IndexRegistry.newRegistry empty_dbs) []).
Abbreviation handled :=
  (ccHandleFolders no_error no_error config_B (sample_device_config 1) 100 5 (λ _, false) (λ _, false) infos_1
     state_1 {[ "old" ]} message_1).

Lemma message_1_way :
  way_of config_B (sample_device_config 1) (MkFolder "photos" "" 0 0 [token_device [7]]) =
  Checked folder_B (pair_share 1 "").
Proof. vm_compute. reflexivity. Qed.

Lemma folder_B_id : fcID folder_B = "photos".
Proof. reflexivity. Qed.

Lemma message_1_info : folder_info infos_1 "photos" = with_token [7].
Proof. vm_compute. reflexivity. Qed.

Lemma ccHandleFolders_spec_witness :
  ∃ st' temp seen, handled = (st', Ok (temp, seen)) ∧
    memory (csTokens st') !! "photos" = Some [7] ∧
    seen !! "photos" = Some remoteFolderValid ∧
    csPending st' !! "music" = Some (MkPending 100 "Music" false false) ∧ csPending st' !! "old" = None.
Proof.
  destruct handled as [st' r] eqn:E.
  assert (Hr : is_ok r = true) by (replace r with handled.2 by (by rewrite E); vm_compute; reflexivity).
  destruct r as [[temp seen]| |]; [|discriminate Hr..]. exists st', temp, seen.
  assert (Hnd : NoDup (foID <$> message_1)) by (apply (bool_decide_unpack _); vm_compute; exact I).
  assert (Hok : tokens_ok (csTokens state_1)) by (unfold tokens_ok; reflexivity).
  destruct (ccHandleFolders_spec no_error no_error config_B (sample_device_config 1) 100 5 (λ _, false) (λ _, false)
    infos_1 state_1 {[ "old" ]} message_1 st' temp seen Hnd Hok E) as (_ & Hfits & _ & Hseen & Hpending).
  split; [reflexivity|split; [|split; [|split]]].
  - apply Forall_cons in Hfits as [Hfits _].
    apply (fits_checked _ _ _ _ _ _ _ message_1_way) in Hfits. cbn [foID] in Hfits. cbv zeta in Hfits.
    rewrite message_1_info in Hfits.
    destruct Hfits as [(_ & Hp & _)|[(Hp & _)|(tok & Hr' & Hm)]].
    + exfalso. apply Hp. reflexivity.
    + exfalso. apply Hp. reflexivity.
    + rewrite (one_token_inj _ tok [7] (proj2 (proj2 Hr')) token_shown) in Hm.
      rewrite folder_B_id in Hm. exact Hm.
  - rewrite Hseen. vm_compute. reflexivity.
  - rewrite Hpending. vm_compute. reflexivity.
  - rewrite Hpending. vm_compute. reflexivity.
Defined.

(** The success of one device makes the last failure of another one forgotten. *)
Example failure_forgotten :
  let st := state_1 <| csFailures := {[ "photos" := {[ dev_id 2 := "different encryption passwords used" ]} ]} |> in
  csFailures (forget_failure (sample_device_config 1) st "photos") !! "photos" = None.
Proof. vm_compute. reflexivity. Qed.
End samples.
