(* ===== verification/Glob.v ===== *)
(** * Globs

    Patterns are compiled by a third-party package ([gobwas/glob]), which is an
    interface here.  What the documentation of the package says about patterns of
    letters, [*] (any text without a slash) and [**] (any text) is stated with a
    matcher of its own, on which the proofs about ignore patterns reason. *)
From S2P Require Import Prelude GoLib Paths.
From Stdlib Require Import Ascii.
From Stdlib Require String.

(** [glob.Compile(pattern, '/')]; [None] is an error. *)
Class Glob := glob_compile : path → option (path → bool).

(** ** The matcher *)
Inductive token := Lit (c : ascii) | Any | Super.
#[export] Instance token_eq_dec : EqDecision token.
Proof. solve_decision. Defined.

Definition star : ascii := "*"%char.

Fixpoint tokens (p : path) : list token :=
  match p with
  | [] => []
  | c :: p' =>
      if Ascii.eqb c star then
        match p' with
        | d :: p'' => if Ascii.eqb d star then Super :: tokens p'' else Any :: tokens p'
        | [] => [Any]
        end
      else Lit c :: tokens p'
  end.

Fixpoint gmatch (ts : list token) (s : path) : bool :=
  match ts with
  | [] => match s with [] => true | _ => false end
  | Lit c :: ts => match s with d :: s => Ascii.eqb c d && gmatch ts s | [] => false end
  | Any :: ts =>
      (fix any s := gmatch ts s || match s with d :: s => negb (Ascii.eqb d sep) && any s | [] => false end) s
  | Super :: ts =>
      (fix super s := gmatch ts s || match s with _ :: s => super s | [] => false end) s
  end.

(** Patterns without the other special characters. *)
Definition simple (p : path) : Prop := Forall (λ c, c ∉ s2l "?[]{}\"%string) p.
#[export] Instance simple_dec p : Decision (simple p) := _.

(** The documented behaviour. *)
Class GlobLaws (G : Glob) : Prop :=
  glob_simple p : simple p → ∃ g, glob_compile p = Some g ∧ ∀ s, g s = gmatch (tokens p) s.

(** A package that is the matcher satisfies it. *)
Definition reference_glob : Glob := λ p, if decide (simple p) then Some (gmatch (tokens p)) else None.
#[export] Instance reference_glob_laws : GlobLaws reference_glob.
Proof.
  intros p Hp. exists (gmatch (tokens p)). unfold glob_compile, reference_glob. by rewrite decide_True.
Qed.

(** ** What a token matches *)
Definition no_sep (s : path) : Prop := sep ∉ s.

Definition matches1 (t : token) (s : path) : Prop :=
  match t with Lit c => s = [c] | Any => no_sep s | Super => True end.

Inductive matches : list token → path → Prop :=
  | matches_nil : matches [] []
  | matches_cons t ts s1 s2 : matches1 t s1 → matches ts s2 → matches (t :: ts) (s1 ++ s2).

Lemma matches_cons_inv t ts s : matches (t :: ts) s → ∃ s1 s2, s = s1 ++ s2 ∧ matches1 t s1 ∧ matches ts s2.
Proof. inversion 1; subst. eauto. Qed.

Lemma gmatch_matches ts s : gmatch ts s = true ↔ matches ts s.
Proof.
  revert s. induction ts as [|t ts IH]; intros s.
  { split; [destruct s; [constructor|done]|by inversion 1]. }
  destruct t as [c| |]; cbn [gmatch].
  - destruct s as [|d s].
    + split; [done|]. by intros (s1 & s2 & E & -> & _)%matches_cons_inv.
    + rewrite andb_true_iff, IH, Ascii.eqb_eq. split.
      * intros [-> H]. by apply (matches_cons (Lit d) ts [d]).
      * intros (s1 & s2 & E & -> & H)%matches_cons_inv. by injection E as -> ->.
  - induction s as [|d s IHs].
    + rewrite orb_false_r, IH. split.
      * intros H. apply (matches_cons Any ts []); [by intros ?%elem_of_nil|done].
      * intros ([|x s1] & s2 & E & _ & H)%matches_cons_inv; [by rewrite E|done].
    + rewrite orb_true_iff, andb_true_iff, IH, IHs, negb_true_iff, Ascii.eqb_neq. split.
      * intros [H|[Hd (s1 & s2 & -> & Hs & H)%matches_cons_inv]].
        -- apply (matches_cons Any ts []); [by intros ?%elem_of_nil|done].
        -- apply (matches_cons Any ts (d :: s1)); [|done]. apply not_elem_of_cons. split; [congruence|done].
      * intros ([|x s1] & s2 & E & Hs & H)%matches_cons_inv; [left; by rewrite E|right].
        injection E as -> ->. apply not_elem_of_cons in Hs as [Hx Hs]. split; [congruence|]. by apply matches_cons.
  - induction s as [|d s IHs].
    + rewrite orb_false_r, IH. split.
      * intros H. by apply (matches_cons Super ts []).
      * intros ([|x s1] & s2 & E & _ & H)%matches_cons_inv; [by rewrite E|done].
    + rewrite orb_true_iff, IH, IHs. split.
      * intros [H|(s1 & s2 & -> & Hs & H)%matches_cons_inv]; [by apply (matches_cons Super ts [])|].
        by apply (matches_cons Super ts (d :: s1)).
      * intros ([|x s1] & s2 & E & Hs & H)%matches_cons_inv; [left; by rewrite E|right].
        injection E as -> ->. by apply matches_cons.
Qed.

Lemma matches_app ts1 ts2 s : matches (ts1 ++ ts2) s ↔ ∃ s1 s2, s = s1 ++ s2 ∧ matches ts1 s1 ∧ matches ts2 s2.
Proof.
  revert s. induction ts1 as [|t ts1 IH]; intros s; cbn [app].
  - split; [|by intros (s1 & s2 & -> & H1 & H2); inversion H1].
    intros H. exists [], s. split_and!; [done|constructor|done].
  - split.
    + intros (a & s' & -> & Ha & (s1 & s2 & -> & H1 & H2)%IH)%matches_cons_inv.
      exists (a ++ s1), s2. split; [by rewrite (assoc_L (++))|]. split; [by constructor|done].
    + intros (s1 & s2 & -> & (a & b & -> & Ha & Hb)%matches_cons_inv & H2). rewrite <-(assoc_L (++)).
      constructor; [done|]. apply IH. eauto.
Qed.

Lemma matches_super s : matches [Super] s.
Proof. rewrite <-(app_nil_r s). by constructor; [|constructor]. Qed.
Lemma matches_lit c s : matches [Lit c] s ↔ s = [c].
Proof.
  split.
  - intros (s1 & s2 & -> & -> & H)%matches_cons_inv. by inversion H.
  - intros ->. rewrite <-(app_nil_r [c]). by constructor; [|constructor].
Qed.

(** ** Tokens of patterns *)
Lemma tokens_letter c p : c ≠ star → tokens (c :: p) = Lit c :: tokens p.
Proof. intros Hc%Ascii.eqb_neq. cbn [tokens]. by rewrite Hc. Qed.
Lemma tokens_stars p : tokens (star :: star :: p) = Super :: tokens p.
Proof. done. Qed.
Lemma tokens_star c p : c ≠ star → tokens (star :: c :: p) = Any :: tokens (c :: p).
Proof. intros Hc%Ascii.eqb_neq. cbn [tokens]. by rewrite Hc. Qed.

Lemma tokens_ind (P : path → Prop) :
  P [] → P [star] → (∀ c p, c ≠ star → P p → P (c :: p)) → (∀ p, P p → P (star :: star :: p)) →
  (∀ c p, c ≠ star → P (c :: p) → P (star :: c :: p)) → ∀ p, P p.
Proof.
  intros H0 H1 Hl Hs Ha.
  assert (H : ∀ n p, (length p < n)%nat → P p).
  { induction n as [|n IH]; intros p Hp; [lia|]. destruct p as [|a p]; [done|]. cbn [length] in Hp.
    destruct (decide (a = star)) as [->|Hne]; [|by apply Hl, IH; [|lia]].
    destruct p as [|b p]; [done|]. destruct (decide (b = star)) as [->|Hne].
    - apply Hs, IH. cbn in Hp. lia.
    - apply Ha, IH; [done|]. cbn in *. lia. }
  intros p. by apply (H (S (length p))); lia.
Qed.

Lemma tokens_app_lit p c q : c ≠ star → tokens (p ++ c :: q) = tokens p ++ Lit c :: tokens q.
Proof.
  intros Hc. induction p as [| |a p Ha IH|p IH|a p Ha IH] using tokens_ind; cbn [app].
  - by rewrite tokens_letter.
  - by rewrite tokens_star, tokens_letter.
  - by rewrite !tokens_letter, IH.
  - by rewrite !tokens_stars, IH.
  - cbn [app] in IH. by rewrite !tokens_star, IH.
Qed.

Definition below : path := s2l "/**".
Definition everywhere : path := s2l "**/".

Lemma tokens_below p : tokens (p ++ below) = tokens p ++ [Lit sep; Super].
Proof. unfold below. change (s2l "/**") with (sep :: s2l "**"). by rewrite tokens_app_lit. Qed.
Lemma tokens_everywhere p : tokens (everywhere ++ p) = Super :: Lit sep :: tokens p.
Proof. done. Qed.

(** What a pattern followed by [/**] matches. *)
Lemma matches_below p s : matches (tokens (p ++ below)) s ↔ ∃ a x, s = a ++ sep :: x ∧ matches (tokens p) a.
Proof.
  rewrite tokens_below, matches_app. split.
  - intros (s1 & s2 & -> & H1 & (a & b & -> & -> & _)%matches_cons_inv). eauto.
  - intros (a & x & -> & H). exists a, (sep :: x). split; [done|]. split; [done|].
    apply (matches_cons (Lit sep) [Super] [sep]); [done|apply matches_super].
Qed.

(** A pattern that ends with [**] matches what lies below what it matches. *)
Lemma matches_super_below ts s x : matches (ts ++ [Super]) s → matches (ts ++ [Super]) (s ++ x).
Proof.
  rewrite !matches_app. intros (s1 & s2 & -> & H1 & _). exists s1, (s2 ++ x).
  split; [by rewrite (assoc_L (++))|]. split; [done|apply matches_super].
Qed.

(** ** Patterns of one path element *)
Definition TrimSuffix (p q : path) : path := if has_suffix p q then take (length p - length q) p else p.

Lemma TrimSuffix_spec p q : (TrimSuffix p q = p ∧ has_suffix p q = false) ∨ p = TrimSuffix p q ++ q.
Proof.
  unfold TrimSuffix. destruct (has_suffix p q) eqn:Hs; [|by left]. right. unfold has_suffix in Hs.
  apply prefixb_spec in Hs as [k Hk]. apply (f_equal (@rev ascii)) in Hk. rewrite rev_app_distr, !rev_involutive in Hk.
  rewrite Hk, length_app, Nat.add_sub. by rewrite take_app_length.
Qed.

Definition stars : path := s2l "**".

Definition plain (t : token) : Prop := t ≠ Super ∧ t ≠ Lit sep.

Lemma plain_no_sep ts s : Forall plain ts → matches ts s → no_sep s.
Proof.
  intros Hp. induction 1 as [|t ts s1 s2 H1 H2 IH]; [by intros ?%elem_of_nil|].
  apply Forall_cons in Hp as [[Hs Hl] Hp]. unfold no_sep. rewrite elem_of_app. intros [Hin|Hin]; [|by apply IH].
  destruct t as [c| |]; cbn in H1; [|done|done]. subst s1. apply list_elem_of_singleton in Hin. by subst c.
Qed.

Lemma no_stars p : containsb stars p = false → sep ∉ p →
  Forall plain (tokens p) ∧ ∃ t0 t1, tokens (p ++ stars) = t0 ++ t1 ∧ Forall plain t0 ∧ (t1 = [Super] ∨ t1 = [Super; Any]).
Proof.
  induction p as [| |c p Hc IH|p IH|c p Hc IH] using tokens_ind; intros Hn Hs.
  - split; [constructor|]. exists [], [Super]. split_and!; [done|constructor|by left].
  - split; [by repeat constructor|]. exists [], [Super; Any]. split_and!; [done|constructor|by right].
  - apply not_elem_of_cons in Hs as [Hcs Hs]. cbn [containsb] in Hn. apply orb_false_iff in Hn as [_ Hn].
    destruct (IH Hn Hs) as (H1 & t0 & t1 & E & H2 & H3). cbn [app]. rewrite !tokens_letter by done. split.
    + constructor; [|done]. split; [done|]. intros [= ->]. done.
    + exists (Lit c :: t0), t1. rewrite E. split_and!; [done| |done]. constructor; [|done]. split; [done|]. by intros [= ->].
  - done.
  - apply not_elem_of_cons in Hs as [_ Hs]. cbn [containsb] in Hn. apply orb_false_iff in Hn as [_ Hn].
    destruct (IH Hn Hs) as (H1 & t0 & t1 & E & H2 & H3). cbn [app] in *. rewrite !tokens_star by done. split.
    + by constructor.
    + exists (Any :: t0), t1. rewrite E. split_and!; [done|by constructor|done].
Qed.

(** What matches below a directory matches the directory. *)
Lemma one_element b d x :
  sep ∉ b → containsb stars (TrimSuffix b stars) = false →
  matches (tokens b) (d ++ sep :: x) → matches (tokens b) d.
Proof.
  intros Hs Hn Hm.
  assert (Hs' : sep ∉ TrimSuffix b stars).
  { destruct (TrimSuffix_spec b stars) as [[-> _]|E]; [done|]. intros Hin. apply Hs. rewrite E. apply elem_of_app. by left. }
  destruct (no_stars _ Hn Hs') as (Hp & t0 & t1 & E & Hp0 & H1).
  destruct (TrimSuffix_spec b stars) as [[Eb _]|Eb].
  { rewrite Eb in Hp. apply (plain_no_sep _ _ Hp) in Hm. destruct Hm. apply elem_of_app. right. left. }
  rewrite Eb, E in Hm |- *. apply matches_app in Hm as (s1 & s2 & Es & Hm1 & _).
  pose proof (plain_no_sep _ _ Hp0 Hm1) as Hns.
  assert (Hpre : ∃ s3, d = s1 ++ s3).
  { clear -Es Hns. revert d Es. induction s1 as [|c s1 IH]; intros d Es; [by exists d|].
    apply not_elem_of_cons in Hns as [Hc Hns]. destruct d as [|e d]; injection Es as <- Es; [done|].
    destruct (IH Hns d Es) as [s3 ->]. by exists s3. }
  destruct Hpre as [s3 ->]. apply matches_app. exists s1, s3. split_and!; [done|done|].
  destruct H1 as [->| ->]; [apply matches_super|]. rewrite <-(app_nil_r s3). constructor; [done|].
  apply (matches_cons Any [] []); [by intros ?%elem_of_nil|constructor].
Qed.
