(* ===== verification/Ignore.v ===== *)
(** * Ignore patterns ([src/lib/ignore/ignore.go], [cache.go],
      [ignoreresult/ignoreresult.go])

    The file [.stignore] names what is not synchronised.  Every line becomes one or
    more patterns, the first pattern that matches a name decides, and directories
    that are ignored are skipped when nothing below them can be included again.
    The file translates the parser with its includes, the matcher with its cache,
    and loading.  It proves that skipping loses nothing unless the file has an
    exception that names only what is below a directory, that the cache does not
    change results, and that parsing ends. *)
From stdpp Require Import functions.
From S2P Require Import Prelude GoLib Paths Glob.
From Stdlib Require Import Ascii.
From Stdlib Require String.

Local Open Scope Z_scope.

(** ** Results ([ignoreresult.go]) *)
Definition ignoreBit : Z := 1.
Definition deletableBit : Z := 2.
Definition foldCaseBit : Z := 4.
Definition canSkipDirBit : Z := 8.

Definition IsIgnored (r : Z) : bool := negb (Z.land r ignoreBit =? 0).
Definition IsDeletable (r : Z) : bool := IsIgnored r && negb (Z.land r deletableBit =? 0).
Definition IsCaseFolded (r : Z) : bool := negb (Z.land r foldCaseBit =? 0).
Definition CanSkipDir (r : Z) : bool := IsIgnored r && negb (Z.land r canSkipDirBit =? 0).
Definition ToggleIgnored (r : Z) : Z := Z.lxor r ignoreBit.
Definition WithDeletable (r : Z) : Z := Z.lor r deletableBit.
Definition WithFoldCase (r : Z) : Z := Z.lor r foldCaseBit.
Definition WithSkipDir (r : Z) : Z := Z.lor r canSkipDirBit.

Definition NotIgnored : Z := 0.
(** Names are compared without case on some systems. *)
Definition Ignored (folds : bool) : Z := if folds then Z.lor ignoreBit foldCaseBit else ignoreBit.
Definition IgnoreAndSkip (folds : bool) : Z := Z.lor (Ignored folds) canSkipDirBit.

Definition R_String (r : Z) : path :=
  let flag b c := if negb (Z.land r b =? 0) then c else "-"%char in
  [flag ignoreBit "i"%char; flag deletableBit "d"%char; flag foldCaseBit "f"%char; flag canSkipDirBit "s"%char].

(** ** Text ([strings], [unicode/utf8]) *)

(** The encodings of the characters that [unicode.IsSpace] knows. *)
Definition spaces : list path :=
  let b := map byte_chr in
  map (λ c, b [c]) [9; 10; 11; 12; 13; 32] ++
  [b [194; 133]; b [194; 160]; b [225; 154; 128]; b [226; 128; 168]; b [226; 128; 169]; b [226; 128; 175];
   b [226; 129; 159]; b [227; 128; 128]] ++
  map (λ c, b [226; 128; c]) [128; 129; 130; 131; 132; 133; 134; 135; 136; 137; 138].

(** Spaces at the front; [n] rounds are enough for a text of [n] bytes. *)
Fixpoint trim_front (encodings : list path) (n : nat) (s : path) : path :=
  match n with
  | O => s
  | S n =>
      match find (λ e, prefixb e s) encodings with
      | Some e => trim_front encodings n (drop (length e) s)
      | None => s
      end
  end.
Definition TrimSpace (s : path) : path :=
  let s := trim_front spaces (length s) s in
  rev (trim_front (map (@rev ascii) spaces) (length s) (rev s)).

(** The bytes of the first character; one for what is no character. *)
Definition rune_len (s : path) : nat :=
  let tail n (first : Z → Z → bool) :=
    match s with
    | c0 :: c1 :: rest =>
        if first (byte_val c0) (byte_val c1) &&
           forallb (λ c, (128 <=? byte_val c) && (byte_val c <=? 191)) (take (n - 2) rest) && (n - 2 <=? length rest)%nat
        then n else 1%nat
    | _ => 1%nat
    end in
  match s with
  | [] => O
  | c :: _ =>
      let v := byte_val c in
      if v <? 194 then 1%nat
      else if v <? 224 then tail 2%nat (λ _ b, (128 <=? b) && (b <=? 191))
      else if v <? 240 then
        tail 3%nat (λ a b, ((if a =? 224 then 160 else 128) <=? b) && (b <=? (if a =? 237 then 159 else 191)))
      else if v <? 245 then
        tail 4%nat (λ a b, ((if a =? 240 then 144 else 128) <=? b) && (b <=? (if a =? 244 then 143 else 191)))
      else 1%nat
  end.
(** A single character, as [string(r)] gives it back. *)
Definition single_rune (s : path) : option path :=
  if bool_decide (s = []) || negb (rune_len s =? length s)%nat then None
  else match s with
       | [c] => if 128 <=? byte_val c then Some (map byte_chr [239; 191; 189]) else Some [c]
       | _ => Some s
       end.

(** [strings.ReplaceAll]; [skip] bytes of a replaced text are left to pass over. *)
Fixpoint replace_loop (old new : path) (skip : nat) (s : path) : path :=
  match s with
  | [] => []
  | c :: s' =>
      match skip with
      | S skip => replace_loop old new skip s'
      | O => if prefixb old s then new ++ replace_loop old new (length old - 1) s' else c :: replace_loop old new O s'
      end
  end.
Definition ReplaceAll (s old new : path) : path := replace_loop old new O s.

Definition TrimPrefix (s p : path) : path := if has_prefix s p then drop (length p) s else s.

(** ** Patterns *)
Record Pattern := MkPattern { pattern : path; match_ : path → bool; result : Z }.

Definition Pattern_String (p : Pattern) : path :=
  let ret := pattern p in
  let ret := if negb (IsIgnored (result p)) then s2l "!" ++ ret else ret in
  let ret := if IsCaseFolded (result p) then s2l "(?i)" ++ ret else ret in
  if IsDeletable (result p) then s2l "(?d)" ++ ret else ret.

Definition allowsSkippingIgnoredDirs (p : Pattern) : bool :=
  if IsIgnored (result p) then true
  else if negb (has_prefix (pattern p) [sep]) then false
  else
    let pattern := TrimSuffix (pattern p) below in
    if bool_decide (pattern = []) then true
    else if bool_decide (sep ∈ drop 1 pattern) then false
    else negb (containsb stars (TrimSuffix pattern stars)).

Section ignore.
Context {G : Glob}.
(** Whether names are compared without case, lower case, and the normal form of the
    system. *)
Context (folds : bool) (ToLower nativeUnicodeNorm : path → path).

(** *** Lines *)
Definition errMissingPattern : string := "parse error: missing pattern".
Definition errGlob : string := "parse error: glob".

(** The prefixes, in any order, each at most once. *)
Fixpoint prefixes (n : nat) (seenNot seenFold seenDel : bool) (line : path) (res : Z) : path * Z :=
  match n with
  | O => (line, res)
  | S n =>
      if has_prefix line (s2l "!") && negb seenNot then prefixes n true seenFold seenDel (drop 1 line) (ToggleIgnored res)
      else if has_prefix line (s2l "(?i)") && negb seenFold then prefixes n seenNot true seenDel (drop 4 line) (WithFoldCase res)
      else if has_prefix line (s2l "(?d)") && negb seenDel then prefixes n seenNot seenFold true (drop 4 line) (WithDeletable res)
      else (line, res)
  end.

Definition compile (line : path) : go (path → bool) :=
  match glob_compile line with Some g => Ok g | None => Err errGlob end.

Definition parseLine (line : path) : go (list Pattern) :=
  let line := nativeUnicodeNorm line in
  let '(line, res) := prefixes 4 false false false line (Ignored folds) in
  if bool_decide (line = []) then Err errMissingPattern
  else
    let line := if IsCaseFolded res then ToLower line else line in
    if has_prefix line [sep] then
      let! g := compile (drop 1 line) in Ok [MkPattern line g res]
    else if has_prefix line everywhere then
      let! g := compile line in
      let line' := drop 3 line in
      let! g' := compile line' in
      Ok [MkPattern line g res; MkPattern line' g' res]
    else
      let! g := compile line in
      let line' := everywhere ++ line in
      let! g' := compile line' in
      Ok [MkPattern line g res; MkPattern line' g' res].

(** What is added for a line that is no comment and no command. *)
Definition add_line (line : path) : go (list Pattern) :=
  if has_suffix line below then parseLine line
  else if has_suffix line [sep] then parseLine (line ++ stars)
  else
    let! ps := parseLine line in
    let! ps' := parseLine (line ++ below) in
    Ok (ps ++ ps').
(** *** Files

    A filesystem is known by a number (the pointer in the program) and its root; the
    disk returns the lines of a file (split by the scanner) with the time of its last
    change. *)
Record filesystem := MkFilesystem { fs_key : Z; fs_root : path; fs_basic : bool }.

Inductive open_result :=
  | Opened (lines : list path) (scan_error : option string) (modtime : Z)
  | OpenNotExist
  | OpenError (e : string).

(** What parsing changes: the change detector with the files it remembers, the
    number of the next filesystem, and the lines seen so far. *)
Record pstate := MkPState {
  modtimes : gmap (Z * path) (path * Z);
  nextKey : Z;
  linesSeen : gset path;
}.
#[export] Instance eta_pstate : Eta pstate := λ r, MkPState (modtimes r) (nextKey r) (linesSeen r).

Definition Remember (st : pstate) (fs : filesystem) (name : path) (modtime : Z) : pstate :=
  st <| modtimes := <[(fs_key fs, name) := (fs_root fs, modtime)]> (modtimes st) |>.
Definition Seen (st : pstate) (fs : filesystem) (name : path) : bool :=
  bool_decide (is_Some (modtimes st !! (fs_key fs, name))).
Definition Reset (st : pstate) : pstate := st <| modtimes := ∅ |>.

Definition escapePrefix : path := s2l "#escape".
Definition backslash : path := ["092"%char].
Definition errInclude : string := "parse error: failed to parse #include line: no file?".
Definition errMultipleEscape : string := "mutiple #escape= lines found in ignore file".
Definition errLateEscape : string := "#escape= line found after patterns in ignore file".
Definition errBadEscape : string := "failed to parse #escape= line in ignore file".
Definition errMultipleInclude : string := "multiple include".
Definition errFileNotFound : string := "file not found".
Definition out_of_fuel : string := "out of fuel".

(** The state of the loop over the lines of a file. *)
Record floop := MkFLoop {
  flPatterns : list Pattern;
  flEscape : path;
  flEscapeSeen : bool;
  flIncluded : nat;
  flState : pstate;
}.

Definition parse_escape (line : path) : option path :=
  match cut_byte "="%char (TrimSpace (TrimPrefix line escapePrefix)) with
  | Some ([], esc) => single_rune (TrimSpace esc)
  | _ => None
  end.

Definition unescape (esc line : path) : path :=
  if bool_decide (esc = backslash) then line
  else ReplaceAll (ReplaceAll line esc backslash) (backslash ++ backslash) (backslash ++ esc).

Section loop.
(** Loading an included file. *)
Context (include : path → pstate → pstate * go (list Pattern)) (currentFile : path).

Definition add_patterns (s : floop) (ps : list Pattern) (included : nat) (st : pstate) : floop :=
  MkFLoop (flPatterns s ++ ps) (flEscape s) (flEscapeSeen s) (flIncluded s + included)%nat st.

(** The rest of a round, for a line that is new and no comment. *)
Definition parse_content (s : floop) (line : path) : floop * go unit :=
  let line := unescape (flEscape s) line in
  if has_prefix line (s2l "#include") then
    match cut_byte " "%char line with
    | None => (s, Err errInclude)
    | Some (_, field) =>
        let includeRel := TrimSpace field in
        if bool_decide (includeRel = []) then (s, Err errInclude)
        else
          let '(st, r) := include (Join [Dir currentFile; includeRel]) (flState s) in
          match r with
          | Ok ps => (add_patterns s ps (length ps) st, Ok tt)
          | Err e => (add_patterns s [] O st, Err ("parse error: failed to load include file: " +:+ e))
          | Panic p => (add_patterns s [] O st, Panic p)
          end
    end
  else
    match add_line line with
    | Ok ps => (add_patterns s ps O (flState s), Ok tt)
    | Err e => (s, Err e)
    | Panic p => (s, Panic p)
    end.

Definition parse_round (s : floop) (line : path) : floop * go unit :=
  if has_prefix line escapePrefix then
    if flEscapeSeen s then (s, Err errMultipleEscape)
    else if (0 <? length (flPatterns s) - flIncluded s)%nat then (s, Err errLateEscape)
    else match parse_escape line with
         | Some esc => (MkFLoop (flPatterns s) esc true (flIncluded s) (flState s), Ok tt)
         | None => (s, Err errBadEscape)
         end
  else if bool_decide (line ∈ linesSeen (flState s)) then (s, Ok tt)
  else
    let st := flState s in
    let s := add_patterns s [] O (st <| linesSeen := {[line]} ∪ linesSeen st |>) in
    if bool_decide (line = []) || has_prefix line (s2l "//") then (s, Ok tt)
    else parse_content s line.

Fixpoint parse_loop (s : floop) (lines : list path) : floop * go unit :=
  match lines with
  | [] => (s, Ok tt)
  | line :: lines =>
      match parse_round s line with
      | (s, Ok _) => parse_loop s lines
      | (s, r) => (s, r)
      end
  end.

(** [parseIgnoreFile], after the lines have been read. *)
Definition parse_lines (lines : list path) (st : pstate) : pstate * go (list Pattern) :=
  let '(s, r) := parse_loop (MkFLoop [] backslash false O st) lines in
  (flState s, match r with Ok _ => Ok (flPatterns s) | Err e => Err e | Panic p => Panic p end).
End loop.

Context (Open : path → path → open_result).

Definition escape_filesystem (fs : filesystem) (file : path) (st : pstate) : pstate * filesystem * path :=
  let joined := Join [fs_root fs; file] in
  if fs_basic fs && negb (IsParent joined (fs_root fs))
  then (st <| nextKey := nextKey st + 1 |>, MkFilesystem (nextKey st) (Dir joined) true, Base joined)
  else (st, fs, file).

(** [loadParseIncludeFile]; the nesting of includes takes fuel. *)
Fixpoint loadParseIncludeFile (fuel : nat) (fs : filesystem) (file : path) (st : pstate)
    : pstate * go (list Pattern) :=
  match fuel with
  | O => (st, Panic out_of_fuel)
  | S fuel =>
      let '(st, fs, file) := escape_filesystem fs file st in
      if Seen st fs file then (st, Err errMultipleInclude)
      else match Open (fs_root fs) file with
           | OpenNotExist => (st, Err errFileNotFound)
           | OpenError e => (st, Err e)
           | Opened lines scan_error modtime =>
               let st := Remember st fs file modtime in
               match scan_error with
               | Some e => (st, Err e)
               | None => parse_lines (loadParseIncludeFile fuel fs) file (TrimSpace <$> lines) st
               end
           end
  end.

(** The errors after which no lines are returned. *)
Definition escape_error (e : string) : bool :=
  bool_decide (e = errMultipleEscape ∨ e = errLateEscape ∨ e = errBadEscape).

(** [parseIgnoreFile] with the lines it returns. *)
Definition parseIgnoreFile (fuel : nat) (fs : filesystem) (lines : list path) (scan_error : option string)
    (currentFile : path) (st : pstate) : pstate * list path * go (list Pattern) :=
  match scan_error with
  | Some e => (st, [], Err e)
  | None =>
      let lines := TrimSpace <$> lines in
      let '(st, r) := parse_lines (loadParseIncludeFile fuel fs) currentFile lines st in
      (st, match r with Err e => if escape_error e then [] else lines | _ => lines end, r)
  end.
(** *** Matching *)
Fixpoint match_loop (patterns : list Pattern) (canSkipDir : bool) (file : path) : Z :=
  match patterns with
  | [] => NotIgnored
  | p :: patterns =>
      let canSkipDir := canSkipDir && allowsSkippingIgnoredDirs p in
      let res := if canSkipDir then WithSkipDir (result p) else result p in
      if match_ p (if IsCaseFolded (result p) then ToLower file else file) then res
      else match_loop patterns canSkipDir file
  end.

Record Matcher := MkMatcher {
  mt_fs : filesystem;
  mt_lines : list path;
  mt_patterns : list Pattern;
  mt_withCache : bool;
  mt_matches : option (gmap path (Z * Z));
  mt_curHash : path;
  mt_detector : pstate;
}.
#[export] Instance eta_Matcher : Eta Matcher := λ r,
  MkMatcher (mt_fs r) (mt_lines r) (mt_patterns r) (mt_withCache r) (mt_matches r) (mt_curHash r) (mt_detector r).

Definition New (fs : filesystem) (withCache : bool) : Matcher :=
  MkMatcher fs [] [] withCache None [] (MkPState ∅ (fs_key fs + 1) ∅).

(** [sha256] is the digest in hexadecimal; [Stat] the time of the last change. *)
Context (sha256 : path → path) (Stat : path → path → option Z) (fuel : nat).

Definition hashPatterns (patterns : list Pattern) : path :=
  sha256 (mjoin ((λ p, Pattern_String p ++ ["010"%char]) <$> patterns)).

Definition parseLocked (m : Matcher) (lines : list path) (scan_error : option string) (file : path)
    : Matcher * go unit :=
  let '(st, lines, r) := parseIgnoreFile fuel (mt_fs m) lines scan_error file ((mt_detector m) <| linesSeen := ∅ |>) in
  let patterns := match r with Ok ps => ps | _ => [] end in
  let m := m <| mt_detector := st |> <| mt_lines := lines |> in
  let r := match r with Ok _ => Ok tt | Err e => Err e | Panic p => Panic p end in
  if bool_decide (hashPatterns patterns = mt_curHash m) then (m, r)
  else
    (m <| mt_curHash := hashPatterns patterns |> <| mt_patterns := patterns |>
       <| mt_matches := if mt_withCache m then Some ∅ else mt_matches m |>, r).

Definition Changed (st : pstate) : bool :=
  existsb (λ kv : (Z * path) * (path * Z), negb (bool_decide (Stat kv.2.1 kv.1.2 = Some kv.2.2))) (map_to_list (modtimes st)).

Definition Load (m : Matcher) (file : path) : Matcher * go unit :=
  if Seen (mt_detector m) (mt_fs m) file && negb (Changed (mt_detector m)) then (m, Ok tt)
  else match Open (fs_root (mt_fs m)) file with
       | OpenNotExist => ((parseLocked m [] None file).1, Err "file does not exist")
       | OpenError e => ((parseLocked m [] None file).1, Err e)
       | Opened lines scan_error modtime =>
           let m := m <| mt_detector := Reset (mt_detector m) |> in
           let '(m, r) := parseLocked m lines scan_error file in
           match r with
           | Ok _ => (m <| mt_detector := Remember (mt_detector m) (mt_fs m) file modtime |>, r)
           | _ => (m, r)
           end
       end.

Definition cache_get (c : gmap path (Z * Z)) (now : Z) (key : path) : gmap path (Z * Z) * option Z :=
  match c !! key with
  | Some (res, _) => (<[key := (res, now)]> c, Some res)
  | None => (c, None)
  end.
Definition cache_clean (c : gmap path (Z * Z)) (now d : Z) : gmap path (Z * Z) :=
  filter (λ kv, now - kv.2.2 ≤ d) c.

Definition Match (m : Matcher) (now : Z) (file : path) : Matcher * Z :=
  if IsTemporary file then (m, IgnoreAndSkip folds)
  else if IsInternal file then (m, IgnoreAndSkip folds)
  else if bool_decide (file = dot) then (m, NotIgnored)
  else match mt_patterns m with
       | [] => (m, NotIgnored)
       | ps =>
           match mt_matches m with
           | None => (m, match_loop ps true file)
           | Some c =>
               match cache_get c now file with
               | (c, Some res) => (m <| mt_matches := Some c |>, res)
               | (c, None) =>
                   let res := match_loop ps true file in
                   (m <| mt_matches := Some (<[file := (res, now)]> c) |>, res)
               end
           end
       end.

Definition clean (m : Matcher) (now d : Z) : Matcher :=
  m <| mt_matches := (λ c, cache_clean c now d) <$> mt_matches m |>.
End ignore.

(** ** The first match decides *)

(** The bits of a pattern: a number below 8. *)
Definition small (r : Z) : Prop := 0 ≤ r < 8.

Lemma small_cases r : small r → r ∈ [0; 1; 2; 3; 4; 5; 6; 7].
Proof.
  intros H. unfold small in H.
  assert (r = 0 ∨ r = 1 ∨ r = 2 ∨ r = 3 ∨ r = 4 ∨ r = 5 ∨ r = 6 ∨ r = 7) as Hr by lia. set_solver.
Qed.

Ltac small_cases H :=
  apply small_cases in H; repeat (apply elem_of_cons in H as [->|H]); [..|by apply elem_of_nil in H].

Lemma small_bits r : small r →
  IsIgnored (WithSkipDir r) = IsIgnored r ∧ CanSkipDir r = false ∧ CanSkipDir (WithSkipDir r) = IsIgnored r ∧
  small (ToggleIgnored r) ∧ small (WithFoldCase r) ∧ small (WithDeletable r) ∧
  IsIgnored (WithFoldCase r) = IsIgnored r ∧ IsIgnored (WithDeletable r) = IsIgnored r.
Proof. intros H. small_cases H; vm_compute; split_and!; first [done|discriminate]. Qed.

Lemma prefixes_small n a b c line res : small res → small (prefixes n a b c line res).2.
Proof.
  revert a b c line res. induction n as [|n IH]; intros a b c line res Hr; cbn [prefixes]; [done|].
  destruct (small_bits res Hr) as (_ & _ & _ & H1 & H2 & H3 & _).
  destruct (has_prefix line (s2l "!") && _); [by apply IH|].
  destruct (has_prefix line (s2l "(?i)") && _); [by apply IH|].
  destruct (has_prefix line (s2l "(?d)") && _); [by apply IH|done].
Qed.

Section first_match.
Context (ToLower : path → path).
Abbreviation loop := (match_loop ToLower).

Definition pmatch (p : Pattern) (file : path) : bool :=
  match_ p (if IsCaseFolded (result p) then ToLower file else file).

Lemma match_loop_cons p ps b file :
  loop (p :: ps) b file =
  let b := b && allowsSkippingIgnoredDirs p in
  if pmatch p file then (if b then WithSkipDir (result p) else result p) else loop ps b file.
Proof. done. Qed.

(** The pattern that decides, with those before it. *)
Lemma match_loop_inv ps b file :
  (loop ps b file = NotIgnored ∧ ∀ p, p ∈ ps → pmatch p file = false) ∨
  ∃ pre p post, ps = pre ++ p :: post ∧ (∀ q, q ∈ pre → pmatch q file = false) ∧ pmatch p file = true ∧
    loop ps b file =
      if b && forallb allowsSkippingIgnoredDirs (pre ++ [p]) then WithSkipDir (result p) else result p.
Proof.
  revert b. induction ps as [|p ps IH]; intros b; [left; split; [done|by intros p ?%elem_of_nil]|].
  rewrite match_loop_cons. cbv zeta. destruct (pmatch p file) eqn:Hp.
  - right. exists [], p, ps. split; [done|]. split; [by intros q ?%elem_of_nil|]. split; [done|].
    cbn [app forallb]. by rewrite andb_true_r.
  - destruct (IH (b && allowsSkippingIgnoredDirs p)) as [[E H]|(pre & q & post & -> & Hpre & Hq & E)].
    + left. split; [done|]. by intros q [->|Hq]%elem_of_cons; [|apply H].
    + right. exists (p :: pre), q, post. split; [done|]. split; [by intros r [->|Hr]%elem_of_cons; [|apply Hpre]|].
      split; [done|]. rewrite E. cbn [app forallb]. by rewrite <-andb_assoc.
Qed.

(** Ignored, when the patterns that match include none that is an exception before
    one that is not. *)
Lemma match_loop_ignored ps mid b file :
  (∀ p, p ∈ ps → small (result p)) →
  mid `prefix_of` ps → (∀ p, p ∈ mid → pmatch p file = true → IsIgnored (result p) = true) →
  (∃ p, p ∈ mid ∧ pmatch p file = true) → IsIgnored (loop ps b file) = true.
Proof.
  intros Hsm [rest ->]. revert b. induction mid as [|p mid IH]; intros b Hall (q & Hq & Hm); [by apply elem_of_nil in Hq|].
  cbn [app] in *. rewrite match_loop_cons. cbv zeta. destruct (pmatch p file) eqn:Hp.
  - assert (Hi : IsIgnored (result p) = true) by (apply Hall; [left|done]).
    destruct (b && _); [|done]. rewrite (proj1 (small_bits _ (Hsm p ltac:(left)))). done.
  - apply IH; [intros; apply Hsm; by right|intros; apply Hall; [by right|done]|].
    exists q. split; [|done]. apply elem_of_cons in Hq as [->|Hq]; [congruence|done].
Qed.
End first_match.

(** ** What parsing yields *)

(** What a pattern is compiled from. *)
Definition pbody (p : Pattern) : path := if has_prefix (pattern p) [sep] then drop 1 (pattern p) else pattern p.

(** Patterns of letters, slashes and stars. *)
Definition plain_pattern (p : Pattern) : bool := bool_decide (simple (pattern p)) && negb (containsb (s2l "//") (pattern p)).

Definition pat_ok (p : Pattern) : Prop :=
  small (result p) ∧ ∀ f, match_ p f = true ↔ matches (tokens (pbody p)) f.

(** The pattern [q] matches what is below that which [p] matches. *)
Definition covers (p q : Pattern) : Prop :=
  result q = result p ∧
  (tokens (pbody q) = tokens (pbody p) ++ [Lit sep; Super] ∨ (q = p ∧ ∃ ts, tokens (pbody p) = ts ++ [Super])).

Definition covered_head (p : Pattern) (post : list Pattern) : Prop :=
  ∃ mid q post', p :: post = mid ++ q :: post' ∧ Forall (λ p', result p' = result p) (mid ++ [q]) ∧ covers p q.
Fixpoint covered (ps : list Pattern) : Prop :=
  match ps with [] => True | p :: post => covered_head p post ∧ covered post end.

Definition well_parsed (ps : list Pattern) : Prop :=
  Forall plain_pattern ps → Forall pat_ok ps ∧ covered ps.

Lemma covered_app ps ps' : covered ps → covered ps' → covered (ps ++ ps').
Proof.
  intros H H'. induction ps as [|p ps IH]; [done|]. destruct H as [(mid & q & post & E & Hr & Hc) H]. cbn [app covered].
  split; [|by apply IH]. exists mid, q, (post ++ ps'). split_and!; [|done..].
  by rewrite app_comm_cons, E, <-(assoc_L (++)), <-app_comm_cons.
Qed.
Lemma well_parsed_app ps ps' : well_parsed ps → well_parsed ps' → well_parsed (ps ++ ps').
Proof.
  intros H H' [[H1 H2]%H [H3 H4]%H']%Forall_app. split; [by apply Forall_app|by apply covered_app].
Qed.
Lemma well_parsed_nil : well_parsed [].
Proof. intros _. by split. Qed.

Lemma covers_self p ts : tokens (pbody p) = ts ++ [Super] → covers p p.
Proof. intros H. split; [done|]. right. eauto. Qed.

(** A group in which every pattern is covered by one that does not come before it. *)
Lemma covered_group r ps :
  Forall (λ p, result p = r) ps →
  (∀ pre p post, ps = pre ++ p :: post → ∃ q, q ∈ p :: post ∧ covers p q) → covered ps.
Proof.
  induction 1 as [|p ps Hp Hps IH]; intros H; [done|]. split.
  - destruct (H [] p ps eq_refl) as (q & [mid [post E]]%list_elem_of_split & Hc). exists mid, q, post.
    split; [done|]. split; [|done]. rewrite Hp.
    assert (Hall : Forall (λ p, result p = r) (mid ++ q :: post)) by (rewrite <-E; by constructor).
    apply Forall_app in Hall as [? [? _]%Forall_cons]. apply Forall_app. split; [done|]. by repeat constructor.
  - apply IH. intros pre q post ->. by apply (H (p :: pre)).
Qed.

Lemma covered_self r ps :
  Forall (λ p, result p = r ∧ ∃ ts, tokens (pbody p) = ts ++ [Super]) ps → covered ps.
Proof.
  intros H. apply (covered_group r); [by eapply Forall_impl; [exact H|intros p []]|].
  intros pre p post ->. apply Forall_app in H as [_ [[_ [ts Hts]] _]%Forall_cons]. exists p. split; [left|].
  by apply (covers_self p ts).
Qed.

Lemma prefixb_app_sep p l k : sep ∉ p → prefixb p (l ++ sep :: k) = prefixb p l.
Proof.
  revert l. induction p as [|c p IH]; intros l Hs; [done|]. apply not_elem_of_cons in Hs as [Hc Hs].
  destruct l as [|d l]; cbn [app prefixb]; [by apply not_eq_sym, Ascii.eqb_neq in Hc as ->|]. by rewrite IH.
Qed.
Lemma has_prefix_below l p : sep ∉ p → has_prefix (l ++ below) p = has_prefix l p.
Proof. apply prefixb_app_sep. Qed.

Lemma prefixes_below n a b c line res :
  prefixes n a b c (line ++ below) res = ((prefixes n a b c line res).1 ++ below, (prefixes n a b c line res).2).
Proof.
  assert (Hp : ∀ p l, prefixb p l = true → drop (length p) (l ++ below) = drop (length p) l ++ below).
  { intros p l [k ->]%prefixb_spec. by rewrite drop_app_length, <-(assoc_L (++)), drop_app_length. }
  assert (Hs : ∀ s, s ∈ [s2l "!"; s2l "(?i)"; s2l "(?d)"] → sep ∉ s).
  { intros s H. by repeat (apply elem_of_cons in H as [->|H]; [by apply (bool_decide_unpack _)|]); apply elem_of_nil in H. }
  revert a b c line res. induction n as [|n IH]; intros a b c line res; cbn [prefixes]; [done|].
  rewrite !has_prefix_below by (apply Hs; set_solver).
  destruct (has_prefix line (s2l "!") && negb a) eqn:H1.
  { apply andb_true_iff in H1 as [H1%Hp _]. by rewrite (H1 : drop 1 _ = drop 1 _ ++ _), IH. }
  destruct (has_prefix line (s2l "(?i)") && negb b) eqn:H2.
  { apply andb_true_iff in H2 as [H2%Hp _]. by rewrite (H2 : drop 4 _ = drop 4 _ ++ _), IH. }
  destruct (has_prefix line (s2l "(?d)") && negb c) eqn:H3; [|done].
  apply andb_true_iff in H3 as [H3%Hp _]. by rewrite (H3 : drop 4 _ = drop 4 _ ++ _), IH.
Qed.

Definition super_end (b : path) : Prop := ∃ ts, tokens b = ts ++ [Super].

Lemma super_end_below b : super_end (b ++ below).
Proof. exists (tokens b ++ [Lit sep]). by rewrite tokens_below, <-(assoc_L (++)). Qed.

Lemma after_sep x p k : x ++ below = p ++ sep :: k → k = stars ∨ ∃ y, k = y ++ below.
Proof.
  revert x. induction p as [|c p IH]; intros [|d x] E.
  - injection E as <-. by left.
  - injection E as _ <-. right. by exists x.
  - injection E as _ E. exfalso. assert (Hin : sep ∈ p ++ sep :: k) by set_solver.
    rewrite <-E in Hin. by repeat (apply elem_of_cons in Hin as [Hin|Hin]; [done|]); apply elem_of_nil in Hin.
  - injection E as _ E. by apply (IH x).
Qed.
Lemma super_end_after x p k : x ++ below = p ++ sep :: k → super_end k.
Proof. intros [->|[y ->]]%after_sep; [by exists []|apply super_end_below]. Qed.

(** A group with the same patterns followed by [/**]. *)
Lemma covered_below r ps ps' :
  Forall (λ p, result p = r) ps → Forall (λ p, result p = r) ps' →
  map pbody ps' = map (λ b, b ++ below) (map pbody ps) → covered (ps ++ ps').
Proof.
  intros Hr Hr' E. apply (covered_group r); [by apply Forall_app|]. intros pre p post Eps.
  assert (Hself : p ∈ ps' → ∃ q, q ∈ p :: post ∧ covers p q).
  { intros Hin. apply (list_elem_of_fmap_2 pbody) in Hin. change (pbody <$> ps') with (map pbody ps') in Hin.
    rewrite E, map_map in Hin. apply list_elem_of_fmap_1 in Hin as (q & Eq & _). exists p. split; [left|].
    destruct (super_end_below (pbody q)) as [ts Hts]. apply (covers_self p ts). by rewrite Eq. }
  destruct (decide (length pre < length ps)%nat) as [Hlt|Hge].
  - assert (Hp : ps !! length pre = Some p).
    { rewrite <-(lookup_app_l _ ps') by done. rewrite Eps. by apply list_lookup_middle. }
    assert (Hq : ∃ q, ps' !! length pre = Some q ∧ pbody q = pbody p ++ below).
    { assert (map pbody ps' !! length pre = Some (pbody p ++ below)) as Hl.
      { rewrite E. change (((λ b, b ++ below) <$> (pbody <$> ps)) !! length pre = Some (pbody p ++ below)).
        by rewrite !list_lookup_fmap, Hp. }
      change ((pbody <$> ps') !! length pre = Some (pbody p ++ below)) in Hl. rewrite list_lookup_fmap in Hl.
      destruct (ps' !! length pre) as [q|]; [|done]. injection Hl as Hl. by exists q. }
    destruct Hq as (q & Hq & Eq). exists q. split.
    + apply list_elem_of_lookup_2 in Hq. assert (Hd : drop (length pre) (ps ++ ps') = p :: post) by (by rewrite Eps, drop_app_length).
      rewrite <-Hd, drop_app_le by lia. apply elem_of_app. by right.
    + split; [|left; by rewrite Eq, tokens_below].
      rewrite Forall_lookup in Hr, Hr'. by rewrite (Hr _ _ Hp), (Hr' _ _ Hq).
  - apply Hself. assert (Hd : (ps ++ ps') !! length pre = Some p) by (rewrite Eps; by apply list_lookup_middle).
    rewrite lookup_app_r in Hd by lia. by apply list_elem_of_lookup_2 in Hd.
Qed.

Lemma has_suffix_split p q : has_suffix p q = true → ∃ a, p = a ++ q.
Proof.
  intros [k E]%prefixb_spec. exists (rev k). apply (f_equal (@rev ascii)) in E.
  by rewrite rev_involutive, rev_app_distr, rev_involutive in E.
Qed.

Section parsed.
Context {G : Glob} {GL : GlobLaws G}.
Context (folds : bool) (ToLower nativeUnicodeNorm : path → path).
(** Lower case and normal forms are computed character by character around slashes. *)
Context (lower_sep : ∀ a b, ToLower (a ++ sep :: b) = ToLower a ++ sep :: ToLower b).
Context (lower_stars : ToLower stars = stars) (lower_nil : ∀ a, ToLower a = [] → a = []).
Context (norm_below : ∀ a, nativeUnicodeNorm (a ++ below) = nativeUnicodeNorm a ++ below).

Abbreviation parse := (parseLine folds ToLower nativeUnicodeNorm).

Lemma lower_below a : ToLower (a ++ below) = ToLower a ++ below.
Proof. change below with (sep :: stars). by rewrite lower_sep, lower_stars. Qed.

(** The bodies of the patterns of a line without its prefixes. *)
Definition bodies (l : path) : list path :=
  if has_prefix l [sep] then [drop 1 l]
  else if has_prefix l everywhere then [l; drop 3 l] else [l; everywhere ++ l].

Definition stripped (line : path) : path * Z := prefixes 4 false false false (nativeUnicodeNorm line) (Ignored folds).
Definition lowered (lr : path * Z) : path := if IsCaseFolded lr.2 then ToLower lr.1 else lr.1.

Lemma compile_ok body g p :
  compile body = Ok g → plain_pattern p = true → match_ p = g → body = pbody p → small (result p) → pat_ok p.
Proof.
  intros Hg [Hs _]%andb_true_iff Em -> Hr. split; [done|]. intros f. apply bool_decide_eq_true in Hs.
  assert (Hsb : simple (pbody p)).
  { unfold pbody. destruct (has_prefix (pattern p) [sep]); [by apply Forall_drop|done]. }
  destruct (glob_simple _ Hsb) as (g' & E & Hg'). unfold compile in Hg. rewrite E in Hg. injection Hg as <-.
  by rewrite Em, Hg', gmatch_matches.
Qed.

Lemma slash_slash l : has_prefix l everywhere = true → containsb (s2l "//") l = false → has_prefix (drop 3 l) [sep] = false.
Proof.
  intros [k ->]%prefixb_spec H. change (drop 3 (everywhere ++ k)) with k. destruct k as [|c k]; [done|].
  destruct (has_prefix (c :: k) [sep]) eqn:E; [|done]. apply prefixb_spec in E as [k' [= -> ->]]. done.
Qed.

Lemma compile_unrooted l res g :
  small res → has_prefix l [sep] = false → compile l = Ok g → plain_pattern (MkPattern l g res) →
  pat_ok (MkPattern l g res) ∧ pbody (MkPattern l g res) = l.
Proof.
  intros Hr Hl Hg Hp%Is_true_eq_true. assert (E : pbody (MkPattern l g res) = l) by (unfold pbody; cbn [pattern]; by rewrite Hl).
  split; [|done]. by eapply (compile_ok l g).
Qed.

Lemma parseLine_inv line ps : parse line = Ok ps →
  (stripped line).1 ≠ [] ∧ Forall (λ p, result p = (stripped line).2) ps ∧
  (Forall plain_pattern ps → Forall pat_ok ps ∧ map pbody ps = bodies (lowered (stripped line))).
Proof.
  assert (Hsm : small (stripped line).2) by (apply prefixes_small; by destruct folds).
  unfold parseLine. fold (stripped line). destruct (stripped line) as [l res] eqn:Es. cbn [fst snd] in *.
  case_bool_decide as Hl; [done|]. intros H. split; [done|]. revert H. change (if IsCaseFolded res then ToLower l else l) with (lowered (l, res)).
  generalize (lowered (l, res)). clear Es Hl l. intros l. cbv zeta. unfold bodies.
  destruct (has_prefix l [sep]) eqn:Hroot; [|destruct (has_prefix l everywhere) eqn:Hev].
  - destruct (compile (drop 1 l)) as [g| |] eqn:Hg; intros [= <-]. split; [by repeat constructor|].
    intros [Hp _]%Forall_cons. assert (E : drop 1 l = pbody (MkPattern l g res)) by (unfold pbody; cbn [pattern]; by rewrite Hroot).
    split; [|cbn [map]; by rewrite <-E]. apply Forall_singleton. apply Is_true_eq_true in Hp. by eapply (compile_ok _ g).
  - destruct (compile l) as [g| |] eqn:Hg; [|done..]. cbn -[drop].
    destruct (compile (drop 3 l)) as [g'| |] eqn:Hg'; intros [= <-]. split; [by repeat constructor|].
    intros [Hp [Hp' _]%Forall_cons]%Forall_cons.
    assert (Hl' : has_prefix (drop 3 l) [sep] = false).
    { apply slash_slash; [done|]. by apply Is_true_eq_true, andb_true_iff in Hp as [_ Hp%negb_true_iff]. }
    destruct (compile_unrooted _ _ _ Hsm Hroot Hg Hp) as [H1 E1], (compile_unrooted _ _ _ Hsm Hl' Hg' Hp') as [H2 E2].
    split; [apply Forall_cons; split; [done|by apply Forall_singleton]|]. cbn [map]. by rewrite E1, E2.
  - destruct (compile l) as [g| |] eqn:Hg; [|done..]. cbn -[everywhere].
    destruct (compile (everywhere ++ l)) as [g'| |] eqn:Hg'; intros [= <-]. split; [by repeat constructor|].
    intros [Hp [Hp' _]%Forall_cons]%Forall_cons.
    destruct (compile_unrooted _ _ _ Hsm Hroot Hg Hp) as [H1 E1], (compile_unrooted (everywhere ++ l) _ _ Hsm eq_refl Hg' Hp') as [H2 E2].
    split; [apply Forall_cons; split; [done|by apply Forall_singleton]|]. exact (f_equal2 (λ a b, [a; b]) E1 E2).
Qed.

Lemma bodies_below x b : b ∈ bodies (x ++ below) → super_end b.
Proof.
  unfold bodies. destruct (has_prefix (x ++ below) [sep]) eqn:H1; [|destruct (has_prefix (x ++ below) everywhere) eqn:H2].
  - intros ->%list_elem_of_singleton. apply prefixb_spec in H1 as [k E]. rewrite E. by apply (super_end_after x []).
  - intros [-> | ->%list_elem_of_singleton]%elem_of_cons; [apply super_end_below|].
    apply prefixb_spec in H2 as [k E]. rewrite E. by apply (super_end_after x (s2l "**")).
  - intros [-> | ->%list_elem_of_singleton]%elem_of_cons; [apply super_end_below|].
    rewrite (assoc_L (++)). apply super_end_below.
Qed.

Lemma everywhere_below l : has_prefix (l ++ below) everywhere = has_prefix l everywhere || bool_decide (l = stars).
Proof.
  destruct (has_prefix l everywhere) eqn:H.
  - apply prefixb_spec in H as [k ->]. unfold has_prefix. apply prefixb_spec. exists (k ++ below). by rewrite <-(assoc_L (++)).
  - destruct (has_prefix (l ++ below) everywhere) eqn:H'; cbn [orb]; symmetry.
    + apply bool_decide_eq_true. apply prefixb_spec in H' as [k E].
      destruct l as [|a [|b [|c l]]]; [by injection E..| |].
      * by injection E as -> ->.
      * injection E as -> -> -> _. assert (Ht : has_prefix (everywhere ++ l) everywhere = true) by (apply prefixb_spec; by exists l).
        exact (False_ind _ (eq_true_false_abs _ Ht H)).
    + apply bool_decide_eq_false. by intros ->.
Qed.

(** A line and the line followed by [/**]. *)
Lemma bodies_twice l : l ≠ [] →
  bodies (l ++ below) = map (λ b, b ++ below) (bodies l) ∨ ∀ b, b ∈ bodies l ++ bodies (l ++ below) → super_end b.
Proof.
  intros Hl. unfold bodies at 1. assert (Hr : has_prefix (l ++ below) [sep] = has_prefix l [sep]) by (by destruct l).
  rewrite Hr, everywhere_below. destruct (has_prefix l [sep]) eqn:H1.
  { left. unfold bodies. rewrite H1. by destruct l. }
  destruct (has_prefix l everywhere) eqn:H2; cbn [orb].
  { left. unfold bodies. rewrite H1, H2. cbn [map]. by apply prefixb_spec in H2 as [k ->]. }
  case_bool_decide as Hs; [|left; unfold bodies; by rewrite H1, H2].
  right. subst l. intros b [Hb|Hb]%elem_of_app; [|by apply (bodies_below stars)].
  apply elem_of_cons in Hb as [->|Hb]; [by exists []|]. apply list_elem_of_singleton in Hb as ->.
  by exists [Super; Lit sep].
Qed.

Lemma stripped_below line : stripped (line ++ below) = ((stripped line).1 ++ below, (stripped line).2).
Proof. unfold stripped. by rewrite norm_below, prefixes_below. Qed.
Lemma lowered_below l r : lowered (l ++ below, r) = lowered (l, r) ++ below.
Proof. unfold lowered. cbn [fst snd]. destruct (IsCaseFolded r); [apply lower_below|done]. Qed.

Lemma covered_super ps r : Forall (λ p, result p = r) ps → (∀ b, b ∈ map pbody ps → super_end b) → covered ps.
Proof.
  intros Hr H. apply (covered_self r). apply Forall_forall. intros p Hp. split; [by rewrite Forall_forall in Hr; apply Hr|].
  apply H. by apply (list_elem_of_fmap_2 pbody).
Qed.

Lemma parseLine_below_parsed line ps : parse (line ++ below) = Ok ps → well_parsed ps.
Proof.
  intros (_ & Hr & H)%parseLine_inv Hp. destruct (H Hp) as [Hok E]. split; [done|]. apply (covered_super _ _ Hr).
  intros b. rewrite E, stripped_below, lowered_below. apply bodies_below.
Qed.

Lemma add_line_parsed line ps : add_line folds ToLower nativeUnicodeNorm line = Ok ps → well_parsed ps.
Proof.
  unfold add_line. destruct (has_suffix line below) eqn:H1.
  { destruct (has_suffix_split _ _ H1) as [a ->]. apply parseLine_below_parsed. }
  destruct (has_suffix line [sep]) eqn:H2.
  { destruct (has_suffix_split _ _ H2) as [a ->]. rewrite <-(assoc_L (++)). apply parseLine_below_parsed. }
  destruct (parse line) as [ps1| |] eqn:E1, (parse (line ++ below)) as [ps2| |] eqn:E2; [|done..]. intros [= <-].
  apply parseLine_inv in E1 as (Hne & Hr1 & H1'), E2 as (_ & Hr2 & H2'). rewrite stripped_below in Hr2, H2'.
  rewrite lowered_below in H2'. rewrite <-surjective_pairing in H2'. cbn [snd] in Hr2.
  intros [[Hok1 B1]%H1' [Hok2 B2]%H2']%Forall_app. split; [by apply Forall_app|].
  destruct (bodies_twice (lowered (stripped line))) as [E|E].
  - unfold lowered. case_match; [|done]. intros ?%lower_nil. done.
  - apply (covered_below _ _ _ Hr1 Hr2). by rewrite B1, B2.
  - apply (covered_super _ (stripped line).2); [by apply Forall_app|]. by rewrite map_app, B1, B2.
Qed.

Section files.
Context (Open : path → path → open_result).
Abbreviation load := (loadParseIncludeFile folds ToLower nativeUnicodeNorm Open).

Lemma parse_loop_parsed include currentFile lines s s' :
  (∀ file st st' ps, include file st = (st', Ok ps) → well_parsed ps) →
  parse_loop folds ToLower nativeUnicodeNorm include currentFile s lines = (s', Ok tt) →
  well_parsed (flPatterns s) → well_parsed (flPatterns s').
Proof.
  intros Hinc. revert s. induction lines as [|line lines IH]; intros s; cbn [parse_loop]; [by intros [= <-]|].
  destruct (parse_round _ _ _ _ _ s line) as [s1 [[]| |]] eqn:E; [|done..]. intros Hloop Hs. apply (IH _ Hloop). clear Hloop IH.
  unfold parse_round in E. destruct (has_prefix line escapePrefix).
  { destruct (flEscapeSeen s); [done|]. case_match; [done|]. case_match; [|done]. by injection E as <-. }
  case_bool_decide; [by injection E as <-|]. cbv zeta in E.
  assert (Ha : ∀ n st, well_parsed (flPatterns (add_patterns s [] n st))) by (intros; cbn; by rewrite app_nil_r).
  destruct (_ || _); [injection E as <-; apply Ha|]. unfold parse_content in E. cbv zeta in E.
  set (line' := unescape _ line) in E. clearbody line'. destruct (has_prefix line' (s2l "#include")).
  - destruct (cut_byte _ line') as [[k field]|]; [|done]. case_bool_decide; [done|].
    destruct (include _ _) as [st [ps'| |]] eqn:Ei; [|done..]. injection E as <-. cbn.
    rewrite app_nil_r. apply well_parsed_app; [done|by eapply Hinc].
  - destruct (add_line folds ToLower nativeUnicodeNorm line') as [ps'| |] eqn:Eadd; [|done..]. injection E as <-. cbn.
    rewrite app_nil_r. apply well_parsed_app; [done|by apply (add_line_parsed line')].
Qed.

Lemma parse_lines_parsed include currentFile lines st st' ps :
  (∀ file st st' ps, include file st = (st', Ok ps) → well_parsed ps) →
  parse_lines folds ToLower nativeUnicodeNorm include currentFile lines st = (st', Ok ps) → well_parsed ps.
Proof.
  intros Hinc. unfold parse_lines. destruct (parse_loop _ _ _ _ _ _ _) as [s [[]| |]] eqn:E; [|done..]. intros [= _ <-].
  apply (parse_loop_parsed _ _ _ _ _ Hinc E), well_parsed_nil.
Qed.

Lemma load_parsed fuel fs file st st' ps : load fuel fs file st = (st', Ok ps) → well_parsed ps.
Proof.
  revert fs file st st' ps. induction fuel as [|fuel IH]; intros fs file st st' ps; cbn [loadParseIncludeFile]; [done|].
  destruct (escape_filesystem fs file st) as [[st1 fs1] file1]. destruct (Seen st1 fs1 file1); [done|].
  destruct (Open (fs_root fs1) file1) as [lines [e|] modtime| |]; [done| |done..].
  apply parse_lines_parsed, IH.
Qed.

Lemma parseIgnoreFile_parsed fuel fs lines e file st st' ls ps :
  parseIgnoreFile folds ToLower nativeUnicodeNorm Open fuel fs lines e file st = (st', ls, Ok ps) → well_parsed ps.
Proof.
  unfold parseIgnoreFile. destruct e as [e|]; [done|]. destruct (parse_lines _ _ _ _ _ _ _) as [st1 r] eqn:E.
  destruct r; intros [= _ _ <-]; [|done..]. by apply (parse_lines_parsed _ _ _ _ _ _ (load_parsed fuel fs) E).
Qed.
End files.
End parsed.

(** ** Skipping directories *)

(** Exceptions for what lies below a directory of the root, without an exception for
    the directory before them. *)
Definition lone_exception (seen : list Pattern) (p : Pattern) : bool :=
  negb (IsIgnored (result p)) && has_prefix (pattern p) [sep] && has_suffix (pattern p) below &&
  negb (bool_decide (pattern p = below)) &&
  negb (existsb (λ q, bool_decide (pattern q = TrimSuffix (pattern p) below ∧ IsCaseFolded (result q) = IsCaseFolded (result p))) seen).
Fixpoint lone (seen ps : list Pattern) : bool :=
  match ps with
  | [] => false
  | p :: ps => lone_exception seen p || lone (seen ++ [p]) ps
  end.

Lemma lone_app seen ps1 p ps2 : lone seen (ps1 ++ p :: ps2) = false → lone_exception (seen ++ ps1) p = false.
Proof.
  revert seen. induction ps1 as [|q ps1 IH]; intros seen; cbn [app lone]; intros [H1 H2]%orb_false_iff.
  - by rewrite app_nil_r.
  - rewrite cons_middle, (assoc_L (++)). by apply IH.
Qed.

Lemma has_suffix_cons_sep b : has_suffix (sep :: b) stars = has_suffix b stars.
Proof. unfold has_suffix. cbn [rev]. apply prefixb_app_sep. by apply (bool_decide_unpack _). Qed.

Lemma stars_inside b : containsb stars (TrimSuffix (sep :: b) stars) = false → containsb stars (TrimSuffix b stars) = false.
Proof.
  unfold TrimSuffix. rewrite has_suffix_cons_sep. destruct (has_suffix b stars) eqn:Hb; [|by intros [_ H]%orb_false_iff].
  apply has_suffix_split in Hb as [a ->]. rewrite length_cons, length_app.
  change (length stars) with 2%nat. replace (S (length a + 2) - 2)%nat with (S (length a + 2 - 2)) by lia.
  cbn [take]. by intros [_ H]%orb_false_iff.
Qed.

Section skip.
Context (ToLower : path → path).
Context (lower_sep : ∀ a b, ToLower (a ++ sep :: b) = ToLower a ++ sep :: ToLower b).
Abbreviation pm := (pmatch ToLower).

(** The name that is matched. *)
Definition folded (p : Pattern) (f : path) : path := if IsCaseFolded (result p) then ToLower f else f.
Lemma folded_sep p d x : folded p (d ++ sep :: x) = folded p d ++ sep :: folded p x.
Proof. unfold folded. by case_match. Qed.
Lemma pmatch_ok p f : pat_ok p → pm p f = true ↔ matches (tokens (pbody p)) (folded p f).
Proof. intros [_ H]. apply H. Qed.

Lemma covers_below p q d x : pat_ok p → pat_ok q → covers p q → pm p d = true → pm q (d ++ sep :: x) = true.
Proof.
  intros Hp Hq [Hr Hc]. rewrite !pmatch_ok by done. rewrite folded_sep. unfold folded. rewrite Hr.
  destruct Hc as [->|[-> [ts ->]]].
  - intros H. apply matches_app. eexists _, _. split; [done|]. split; [done|].
    apply (matches_cons (Lit sep) [Super] [sep]); [done|apply matches_super].
  - intros H. by apply matches_super_below.
Qed.

(** Names in which one prefix ends with a slash where another one does. *)
Lemma two_prefixes (a d y x : path) : a ++ sep :: y = d ++ sep :: x → a = d ∨ (∃ z, d = a ++ sep :: z) ∨ (∃ z, a = d ++ sep :: z).
Proof.
  revert d. induction a as [|c a IH]; intros [|e d] E.
  - by left.
  - injection E as <- _. right. left. by exists d.
  - injection E as -> _. right. right. by exists a.
  - injection E as -> E. destruct (IH d E) as [->|[[z ->]|[z ->]]]; eauto.
Qed.

Lemma exception_root pre q d x :
  Forall pat_ok pre → pat_ok q → IsIgnored (result q) = false → allowsSkippingIgnoredDirs q = true →
  lone_exception pre q = false → (∀ r, r ∈ pre → pm r d = false) → pm q d = false → pm q (d ++ sep :: x) = false.
Proof.
  intros Hpre Hq Hi Ha Hl Hd Hqd. unfold allowsSkippingIgnoredDirs in Ha. unfold lone_exception in Hl. rewrite Hi in Ha, Hl.
  destruct (has_prefix (pattern q) [sep]) eqn:Hroot; [|done]. cbn [negb andb] in Ha, Hl.
  assert (Hb : pbody q = drop 1 (pattern q)) by (unfold pbody; by rewrite Hroot).
  apply not_true_iff_false. rewrite pmatch_ok by done. rewrite folded_sep, Hb.
  apply not_true_iff_false in Hqd. rewrite pmatch_ok, Hb in Hqd by done.
  assert (Hrs : ∀ r, r ∈ pre → IsCaseFolded (result r) = IsCaseFolded (result q) → ¬ matches (tokens (pbody r)) (folded q d)).
  { intros r Hr E. specialize (Hd r Hr). apply not_true_iff_false in Hd. rewrite Forall_forall in Hpre.
    rewrite pmatch_ok in Hd by (by apply Hpre). unfold folded in *. by rewrite <-E. }
  apply prefixb_spec in Hroot as [b0 Eb0]. revert Ha. case_bool_decide as Ht.
  { destruct Hqd. rewrite Ht. apply matches_super. }
  destruct (TrimSuffix_spec (pattern q) below) as [[-> _]|Et].
  - rewrite Eb0. cbn [app drop]. case_bool_decide; [done|]. case_bool_decide as Hs; [done|]. intros Hn%negb_true_iff%stars_inside.
    rewrite drop_0 in Hs |- *. intros Hm. destruct Hqd. rewrite Eb0. by apply (one_element _ _ (folded q x)).
  - case_bool_decide as Hne; [by rewrite Hne in Et|]. destruct (TrimSuffix (pattern q) below) as [|c b] eqn:Et'; [done|].
    rewrite Et in Eb0. injection Eb0 as -> _. case_bool_decide as Hs; [done|]. intros Hn%negb_true_iff%stars_inside.
    assert (Hsuf : has_suffix (pattern q) below = true).
    { rewrite Et. unfold has_suffix. rewrite rev_app_distr. apply prefixb_spec. by eexists. }
    rewrite Hsuf in Hl. apply negb_false_iff, existsb_exists in Hl as (r & Hr & [Er Ef]%bool_decide_eq_true).
    apply list_elem_of_In, Hrs in Hr; [|done]. assert (Ebr : pbody r = b) by (unfold pbody; by rewrite Er). rewrite Ebr in Hr.
    rewrite Et in Hqd |- *. change (drop 1 ((sep :: b) ++ below)) with (b ++ below) in Hqd |- *.
    change (drop 1 (sep :: b)) with b in Hs. rewrite matches_below in Hqd |- *. intros (a & y & E & Ha).
    symmetry in E. apply two_prefixes in E as [->|[[z Ez]|[z ->]]]; [done|by eauto|].
    by apply (one_element _ _ z) in Ha.
Qed.

Lemma covered_at pre p post : covered (pre ++ p :: post) → covered_head p post.
Proof. induction pre as [|q pre IH]; [by intros []|]. intros [_ H]. by apply IH. Qed.

Lemma skip_loop ps d x :
  Forall pat_ok ps → covered ps → lone [] ps = false → CanSkipDir (match_loop ToLower ps true d) = true →
  IsIgnored (match_loop ToLower ps true (d ++ sep :: x)) = true.
Proof.
  intros Hok Hcov Hlone Hskip.
  destruct (match_loop_inv ToLower ps true d) as [[E _]|(pre & p & post & Eps & Hpre & Hp & E)]; [by rewrite E in Hskip|].
  rewrite E in Hskip. clear E. rewrite Eps in Hok, Hcov, Hlone. pose proof Hok as [Hokpre [Hokp Hokpost]%Forall_cons]%Forall_app.
  destruct (small_bits _ (proj1 Hokp)) as (_ & Hs0 & Hs1 & _). cbn [andb] in Hskip.
  destruct (forallb allowsSkippingIgnoredDirs (pre ++ [p])) eqn:Hall; [|congruence]. rewrite Hs1 in Hskip.
  apply covered_at in Hcov as (mid & q & post' & Epost & Hmid & Hc).
  assert (Hokq : Forall pat_ok (mid ++ q :: post')) by (rewrite <-Epost; by constructor).
  apply (match_loop_ignored ToLower _ (pre ++ mid ++ [q])).
  - intros r Hr. rewrite Forall_forall in Hok. rewrite Eps in Hr. by apply Hok.
  - exists post'. by rewrite Eps, Epost, <-!(assoc_L (++)).
  - intros r [Hr|Hr]%elem_of_app Hm.
    + destruct (IsIgnored (result r)) eqn:Hi; [done|]. apply list_elem_of_split in Hr as (pre1 & pre2 & ->).
      rewrite <-(assoc_L (++)) in Hlone, Hall. cbn [app] in Hlone. apply lone_app in Hlone. rewrite forallb_app in Hall.
      apply andb_true_iff in Hall as [_ [Ha _]%andb_true_iff]. apply Forall_app in Hokpre as [Hok1 [Hokr _]%Forall_cons].
      rewrite (exception_root pre1 r d x Hok1 Hokr Hi Ha Hlone) in Hm; [done| |]; intros; apply Hpre; set_solver.
    + rewrite Forall_forall in Hmid. by rewrite (Hmid r Hr).
  - exists q. split; [set_solver|]. apply Forall_app in Hokq as [_ [Hokq _]%Forall_cons]. by apply (covers_below p).
Qed.
End skip.

(** ** Includes end *)
Section termination.
Context {G : Glob} (folds : bool) (ToLower nativeUnicodeNorm : path → path).
(** The lines of the files on the disk. *)
Context (disk : gset path).
Definition unseen (st : pstate) : nat := size (disk ∖ linesSeen st).
Definition no_panic {A} (r : go A) : Prop := match r with Panic _ => False | _ => True end.
Definition grows (st st' : pstate) : Prop := linesSeen st ⊆ linesSeen st'.
#[local] Hint Extern 0 (grows _ _) => (unfold grows; reflexivity) : core.

Lemma unseen_grows st st' : grows st st' → (unseen st' ≤ unseen st)%nat.
Proof. unfold unseen, grows. intros H. apply subseteq_size. set_solver. Qed.
Lemma unseen_new st line : line ∈ disk → line ∉ linesSeen st → (S (size (disk ∖ ({[line]} ∪ linesSeen st))) ≤ unseen st)%nat.
Proof.
  intros Hd Hn. unfold unseen. assert (size (disk ∖ ({[line]} ∪ linesSeen st)) < size (disk ∖ linesSeen st))%nat; [|lia].
  apply subset_size. split; [set_solver|]. intros H. assert (line ∈ disk ∖ ({[line]} ∪ linesSeen st)) by set_solver. set_solver.
Qed.

Lemma no_panic_bind {A B} (m : go A) (k : A → go B) :
  no_panic m → (∀ x, no_panic (k x)) → no_panic (let! x := m in k x).
Proof. intros Hm Hk. destruct m; [apply Hk|done..]. Qed.
Lemma compile_no_panic l : no_panic (compile l).
Proof. unfold compile. by case_match. Qed.

Lemma parseLine_no_panic line : no_panic (parseLine folds ToLower nativeUnicodeNorm line).
Proof.
  unfold parseLine. destruct (prefixes _ _ _ _ _ _) as [l res]. case_bool_decide; [done|]. cbv zeta.
  repeat case_match; repeat (apply no_panic_bind; [apply compile_no_panic|intros ?]); done.
Qed.
Lemma add_line_no_panic line : no_panic (add_line folds ToLower nativeUnicodeNorm line).
Proof.
  unfold add_line. repeat case_match; try apply parseLine_no_panic.
  repeat (apply no_panic_bind; [apply parseLine_no_panic|intros ?]). done.
Qed.

(** One file, when a file is included from it only after a line more has been seen. *)
Lemma parse_loop_ends n include file lines s :
  (∀ f st, (unseen st < n)%nat → no_panic (include f st).2 ∧ grows st (include f st).1) →
  Forall (.∈ disk) lines → (unseen (flState s) ≤ n)%nat →
  no_panic (parse_loop folds ToLower nativeUnicodeNorm include file s lines).2 ∧
  grows (flState s) (flState (parse_loop folds ToLower nativeUnicodeNorm include file s lines).1).
Proof.
  intros Hinc Hlines. revert s. induction Hlines as [|line lines Hline _ IH]; intros s Hn; cbn [parse_loop]; [done|].
  enough (Hround : no_panic (parse_round folds ToLower nativeUnicodeNorm include file s line).2 ∧
    grows (flState s) (flState (parse_round folds ToLower nativeUnicodeNorm include file s line).1)).
  { destruct (parse_round _ _ _ _ _ s line) as [s1 r]. cbn [fst snd] in Hround. destruct Hround as [Hr Hg].
    destruct r; [|done..]. pose proof (unseen_grows _ _ Hg). destruct (IH s1) as [H1 H2]; [lia|]. split; [done|].
    unfold grows in *. set_solver. }
  unfold parse_round. destruct (has_prefix line escapePrefix); [by repeat case_match|].
  case_bool_decide as Hseen; [done|]. cbv zeta. set (s1 := add_patterns s [] O _).
  assert (Hg : grows (flState s) (flState s1)) by (unfold grows; cbn; set_solver).
  assert (Hn1 : (unseen (flState s1) < n)%nat) by (pose proof (unseen_new _ _ Hline Hseen); unfold s1, unseen; cbn; lia).
  clearbody s1. destruct (_ || _); [done|]. unfold parse_content. cbv zeta. destruct (has_prefix _ (s2l "#include")).
  - destruct (cut_byte _ _) as [[k field]|]; [|done]. case_bool_decide; [done|].
    destruct (Hinc (Join [Dir file; TrimSpace field]) (flState s1) Hn1) as [H1 H2].
    destruct (include _ _) as [st r]. cbn [fst snd] in H1, H2. unfold grows in *.
    destruct r; (split; [done|]); cbn; set_solver.
  - pose proof (add_line_no_panic (unescape (flEscape s1) line)) as Ha. by destruct (add_line _ _ _ _).
Qed.

Context (Open : path → path → open_result).
Context (on_disk : ∀ root name lines e t line, Open root name = Opened lines e t → line ∈ lines → TrimSpace line ∈ disk).

Abbreviation load := (loadParseIncludeFile folds ToLower nativeUnicodeNorm Open).

Lemma load_ends fuel fs file st : (unseen st < fuel)%nat → no_panic (load fuel fs file st).2 ∧ grows st (load fuel fs file st).1.
Proof.
  revert fs file st. induction fuel as [|fuel IH]; intros fs file st Hfuel; [lia|]. cbn [loadParseIncludeFile].
  assert (He : linesSeen (escape_filesystem fs file st).1.1 = linesSeen st) by (unfold escape_filesystem; by case_match).
  destruct (escape_filesystem fs file st) as [[st1 fs1] file1]. cbn [fst] in He.
  destruct (Seen st1 fs1 file1); [split; [done|]; unfold grows; by rewrite <-He|].
  destruct (Open (fs_root fs1) file1) as [lines [e|] modtime| |e] eqn:Eo; try (split; [done|]; unfold grows; cbn; by rewrite <-He).
  unfold parse_lines. set (s := MkFLoop [] backslash false O (Remember st1 fs1 file1 modtime)).
  destruct (parse_loop_ends fuel (load fuel fs1) file1 (TrimSpace <$> lines) s) as [H1 H2].
  - intros f st' Hn. by apply IH.
  - apply Forall_forall. intros l (l' & -> & Hl)%list_elem_of_fmap_1. by apply (on_disk _ _ _ _ _ _ Eo).
  - unfold unseen in *. cbn. rewrite He. lia.
  - destruct (parse_loop _ _ _ _ _ s _) as [s' r]. cbn [fst snd] in *. split; [by destruct r|].
    unfold grows in *. cbn in H2 |- *. by rewrite <-He.
Qed.
End termination.

(** ** The cache *)
Inductive matcher_op :=
  | OpLoad (Open : path → path → open_result) (Stat : path → path → option Z) (file : path)
  | OpParse (Open : path → path → open_result) (lines : list path) (scan_error : option string) (file : path)
  | OpMatch (now : Z) (file : path)
  | OpClean (now d : Z).

Section cached.
Context {G : Glob} (folds : bool) (ToLower nativeUnicodeNorm sha256 : path → path) (fuel : nat).

Definition matcher_step (m : Matcher) (o : matcher_op) : Matcher * (go unit + Z) :=
  match o with
  | OpLoad Open Stat file =>
      let '(m, r) := Load folds ToLower nativeUnicodeNorm Open sha256 Stat fuel m file in (m, inl r)
  | OpParse Open lines scan_error file =>
      let '(m, r) := parseLocked folds ToLower nativeUnicodeNorm Open sha256 fuel m lines scan_error file in (m, inl r)
  | OpMatch now file => let '(m, r) := Match folds ToLower m now file in (m, inr r)
  | OpClean now d => (clean m now d, inl (Ok tt))
  end.
Fixpoint matcher_run (m : Matcher) (os : list matcher_op) : Matcher * list (go unit + Z) :=
  match os with
  | [] => (m, [])
  | o :: os =>
      let '(m, r) := matcher_step m o in
      let '(m, rs) := matcher_run m os in (m, r :: rs)
  end.

(** The matcher with its cache [m] and the matcher without [m']. *)
Record same_but_cache (m m' : Matcher) : Prop := MkSame {
  same_no_cache : mt_withCache m = false → mt_matches m = None;
  same_uncached : m' = (m <| mt_withCache := false |> <| mt_matches := None |>);
  same_results : ∀ c file res t, mt_matches m = Some c → c !! file = Some (res, t) →
    res = match_loop ToLower (mt_patterns m) true file;
}.

Lemma same_parse Open m m' lines e file : same_but_cache m m' →
  let r := parseLocked folds ToLower nativeUnicodeNorm Open sha256 fuel m lines e file in
  let r' := parseLocked folds ToLower nativeUnicodeNorm Open sha256 fuel m' lines e file in
  same_but_cache r.1 r'.1 ∧ r.2 = r'.2.
Proof.
  intros [Hno -> Hc]. unfold parseLocked. cbn -[parseIgnoreFile]. destruct (parseIgnoreFile _ _ _ _ _ _ _ _ _ _) as [[st ls] r].
  set (ps := match r with Ok ps => ps | _ => [] end). cbn. case_bool_decide; (split; [|done]); (split; [|done|]); cbn; [done..| |].
  - intros Hw. rewrite Hw. by apply Hno.
  - intros c f res t. destruct (mt_withCache m) eqn:Hw; [by intros [= <-]|]. by rewrite Hno.
Qed.

Lemma same_load Open Stat m m' file : same_but_cache m m' →
  let r := Load folds ToLower nativeUnicodeNorm Open sha256 Stat fuel m file in
  let r' := Load folds ToLower nativeUnicodeNorm Open sha256 Stat fuel m' file in
  same_but_cache r.1 r'.1 ∧ r.2 = r'.2.
Proof.
  intros Hm. pose proof Hm as [_ Em' _]. unfold Load.
  assert (Ed : mt_detector m' = mt_detector m) by (by rewrite Em'). assert (Ef : mt_fs m' = mt_fs m) by (by rewrite Em').
  rewrite Ed, Ef.
  destruct (_ && _); [done|]. destruct (Open _ file) as [lines e t| |e].
  - assert (Hr : same_but_cache (m <| mt_detector := Reset (mt_detector m) |>) (m' <| mt_detector := Reset (mt_detector m) |>)).
    { destruct Hm as [H1 -> H3]. by split. }
    destruct (same_parse Open _ _ lines e file Hr) as [H1 H2].
    destruct (parseLocked _ _ _ _ _ _ (m <| _ := _ |>) _ _ _) as [m1 r], (parseLocked _ _ _ _ _ _ (m' <| _ := _ |>) _ _ _) as [m1' r'].
    cbn [fst snd] in *. subst r'. destruct r; [|done..]. split; [|done]. destruct H1 as [H1 -> H3]. by split.
  - split; [|done]. by apply (same_parse Open m m' [] None file).
  - split; [|done]. by apply (same_parse Open m m' [] None file).
Qed.

Lemma same_match m m' now file : same_but_cache m m' →
  let r := Match folds ToLower m now file in let r' := Match folds ToLower m' now file in
  same_but_cache r.1 r'.1 ∧ r.2 = r'.2.
Proof.
  intros Hm. pose proof Hm as [Hno Em' Hc]. unfold Match. destruct (IsTemporary file); [done|]. destruct (IsInternal file); [done|].
  case_bool_decide; [done|]. assert (Ep : mt_patterns m' = mt_patterns m) by (by rewrite Em').
  assert (En : mt_matches m' = None) by (by rewrite Em'). rewrite Ep, En.
  destruct (mt_patterns m) as [|p ps] eqn:Eps; [done|]. rewrite <-Eps in *.
  destruct (mt_matches m) as [c|] eqn:Ec; [|done]. assert (Hw : mt_withCache m = false → False) by (by intros ?%Hno).
  unfold cache_get. destruct (c !! file) as [[res t]|] eqn:Ef; cbn.
  - split; [|by apply (Hc c file res t)]. split; cbn; [by intros ?%Hw|done|].
    intros c' f r' t' [= <-]. destruct (decide (f = file)) as [->|Hne].
    + rewrite lookup_insert_eq. intros [= <- _]. by apply (Hc c file res t).
    + rewrite lookup_insert_ne by done. by apply Hc.
  - split; [|done]. split; cbn; [by intros ?%Hw|done|].
    intros c' f r' t' [= <-]. destruct (decide (f = file)) as [->|Hne].
    + rewrite lookup_insert_eq. by intros [= <- _].
    + rewrite lookup_insert_ne by done. by apply Hc.
Qed.

Lemma same_clean m m' now d : same_but_cache m m' → same_but_cache (clean m now d) (clean m' now d).
Proof.
  intros [Hno -> Hc]. split; cbn; [by intros ->%Hno|done|].
  intros c f res t. destruct (mt_matches m) as [c0|]; [|done]. intros [= <-]. unfold cache_clean.
  intros [H _]%map_lookup_filter_Some. by apply (Hc c0 f res t).
Qed.

Lemma same_step m m' o : same_but_cache m m' →
  same_but_cache (matcher_step m o).1 (matcher_step m' o).1 ∧ (matcher_step m o).2 = (matcher_step m' o).2.
Proof.
  intros Hm. destruct o as [Open Stat file|Open lines e file|now file|now d]; cbn [matcher_step].
  - pose proof (same_load Open Stat m m' file Hm) as H. destruct (Load _ _ _ _ _ _ _ m _), (Load _ _ _ _ _ _ _ m' _).
    destruct H as [H1 H2]. cbn in *. by subst.
  - pose proof (same_parse Open m m' lines e file Hm) as H.
    destruct (parseLocked _ _ _ _ _ _ m _ _ _), (parseLocked _ _ _ _ _ _ m' _ _ _). destruct H as [H1 H2]. cbn in *. by subst.
  - pose proof (same_match m m' now file Hm) as H. destruct (Match _ _ m _ _), (Match _ _ m' _ _).
    destruct H as [H1 H2]. cbn in *. by subst.
  - split; [|done]. by apply same_clean.
Qed.

Lemma same_run m m' os : same_but_cache m m' →
  same_but_cache (matcher_run m os).1 (matcher_run m' os).1 ∧ (matcher_run m os).2 = (matcher_run m' os).2.
Proof.
  revert m m'. induction os as [|o os IH]; intros m m' Hm; cbn [matcher_run]; [done|].
  destruct (same_step m m' o Hm) as [H1 H2]. destruct (matcher_step m o) as [m1 r], (matcher_step m' o) as [m1' r']. cbn in *.
  subst r'. destruct (IH _ _ H1) as [H3 H4]. destruct (matcher_run m1 os), (matcher_run m1' os). cbn in *. by subst.
Qed.

(** C28.  Looking results up in the cache changes nothing: whatever is loaded, parsed,
    matched and cleaned in whatever order, with files that change in between, every
    call returns what it returns to a matcher without cache, and the lines, patterns
    and hash are the same after it. *)
Theorem cache_transparent fs os :
  let r := matcher_run (New fs true) os in let r' := matcher_run (New fs false) os in
  r.2 = r'.2 ∧ mt_lines r.1 = mt_lines r'.1 ∧ mt_patterns r.1 = mt_patterns r'.1 ∧ mt_curHash r.1 = mt_curHash r'.1.
Proof.
  destruct (same_run (New fs true) (New fs false) os) as [[_ E _] H]; [by split|]. cbv zeta. rewrite E. by split_and!.
Qed.
End cached.

(** ** Names *)

(** A name without special characters; it is matched anywhere, after a slash only at
    the root. *)
Definition literal (n : path) : Prop := n ≠ [] ∧ Forall (λ c, c ∉ s2l "?[]{}\*/!(#") n.
Inductive name_line : path → Prop :=
  | anywhere n : literal n → name_line n
  | at_root n : literal n → name_line (sep :: n).
#[export] Instance literal_dec n : Decision (literal n) := _.

(** The name [f], or a directory it is in, has the name of the line. *)
Definition named (line f : path) : Prop :=
  match line with
  | c :: n => if Ascii.eqb c sep then head (PathComponents f) = Some n else line ∈ PathComponents f
  | [] => False
  end.

Lemma component_spec n f : sep ∉ n →
  n ∈ PathComponents f ↔ f = n ∨ (∃ a, f = a ++ sep :: n) ∨ (∃ x, f = n ++ sep :: x) ∨ (∃ a x, f = a ++ sep :: n ++ sep :: x).
Proof.
  intros Hn. unfold PathComponents. split.
  - remember (length f) as k eqn:Hk. assert (Hlt : (length f ≤ k)%nat) by lia. clear Hk. revert f Hlt.
    induction k as [|k IH]; intros f Hlt Hin.
    { destruct f; [|cbn in Hlt; lia]. apply list_elem_of_singleton in Hin. by left. }
    destruct (decide (sep ∈ f)) as [Hs|Hs]; [|rewrite split_byte_part in Hin by done; apply list_elem_of_singleton in Hin; by left].
    apply list_elem_of_split_l in Hs as (p & q & -> & Hp). rewrite split_byte_app in Hin by done.
    rewrite length_app, length_cons in Hlt. apply elem_of_cons in Hin as [->|Hin]; [eauto 10|].
    destruct (IH q ltac:(lia) Hin) as [->|[[a ->]|[[x ->]|(a & x & ->)]]]; [by eauto 10|right; left|by eauto 10|right; right; right].
    + exists (p ++ sep :: a). by rewrite <-(assoc_L (++)).
    + exists (p ++ sep :: a), x. by rewrite <-(assoc_L (++)).
  - intros [->|[[a ->]|[[x ->]|(a & x & ->)]]]; rewrite ?split_byte_app_sep, ?(split_byte_part _ n) by done; set_solver.
Qed.

Lemma root_spec n f : sep ∉ n → head (PathComponents f) = Some n ↔ f = n ∨ ∃ x, f = n ++ sep :: x.
Proof.
  intros Hn. unfold PathComponents. split.
  - destruct (decide (sep ∈ f)) as [Hs|Hs]; [|rewrite split_byte_part by done; intros [= ->]; by left].
    apply list_elem_of_split_l in Hs as (p & q & -> & Hp). rewrite split_byte_app by done. intros [= ->]. eauto.
  - by intros [->|[x ->]]; rewrite ?split_byte_app_sep, split_byte_part.
Qed.

Lemma literal_not n c : literal n → c ∈ s2l "?[]{}\*/!(#" → c ∉ n.
Proof. intros [_ H] Hc Hin. rewrite Forall_forall in H. by apply (H c). Qed.
Lemma literal_simple n : literal n → simple n.
Proof. intros [_ H]. eapply Forall_impl; [exact H|]. cbv beta. intros c Hc Hin. apply Hc. set_solver. Qed.
Lemma simple_app a b : simple a → simple b → simple (a ++ b).
Proof. intros. by apply Forall_app. Qed.

Lemma matches_literal n f : literal n → matches (tokens n) f ↔ f = n.
Proof.
  intros Hn. assert (Hs : star ∉ n) by (apply (literal_not _ _ Hn); by apply (bool_decide_unpack _)). clear Hn.
  revert f. induction n as [|c n IH]; intros f.
  - split; [by inversion 1|intros ->; constructor].
  - apply not_elem_of_cons in Hs as [Hc Hs]. rewrite tokens_letter by done. split.
    + by intros (s1 & s2 & -> & -> & ->%IH)%matches_cons_inv.
    + intros ->. apply (matches_cons (Lit c) (tokens n) [c]); [done|]. by apply IH.
Qed.

Lemma matches_everywhere b f : matches (tokens (everywhere ++ b)) f ↔ ∃ a x, f = a ++ sep :: x ∧ matches (tokens b) x.
Proof.
  rewrite tokens_everywhere. split.
  - intros (a & s & -> & _ & (s1 & x & -> & -> & H)%matches_cons_inv)%matches_cons_inv. by exists a, x.
  - intros (a & x & -> & H). constructor; [done|]. by apply (matches_cons (Lit sep) _ [sep]).
Qed.

Section names.
Context {G : Glob} {GL : GlobLaws G} (ToLower nativeUnicodeNorm : path → path).
Context (norm_below : ∀ a, nativeUnicodeNorm (a ++ below) = nativeUnicodeNorm a ++ below).

Definition matching (f : path) (ps : list Pattern) : Prop := ∃ p, p ∈ ps ∧ match_ p f = true.
(** Patterns of the bodies [bs] that ignore. *)
Definition compiled (bs : list path) (ps : list Pattern) : Prop :=
  Forall (λ p, result p = Ignored false) ps ∧
  ∀ f, matching f ps ↔ ∃ b, b ∈ bs ∧ matches (tokens b) f.

Lemma compiled_nil : compiled [] [].
Proof. split; [done|]. intros f. split; [intros (p & []%elem_of_nil & _)|intros (b & []%elem_of_nil & _)]. Qed.
Lemma compiled_app bs bs' ps ps' : compiled bs ps → compiled bs' ps' → compiled (bs ++ bs') (ps ++ ps').
Proof.
  intros [H1 H2] [H3 H4]. split; [by apply Forall_app|]. intros f. specialize (H2 f). specialize (H4 f). unfold matching in *.
  setoid_rewrite elem_of_app. destruct H2 as [H2 H2'], H4 as [H4 H4']. split.
  - intros (p & [Hp|Hp] & Hm); [destruct H2 as (b & ? & ?)|destruct H4 as (b & ? & ?)]; eauto.
  - intros (b & [Hb|Hb] & Hm); [destruct H2' as (p & ? & ?)|destruct H4' as (p & ? & ?)]; eauto.
Qed.
Lemma compiled_one l b g : (∀ f, g f = gmatch (tokens b) f) → compiled [b] [MkPattern l g (Ignored false)].
Proof.
  intros Hg. split; [by apply Forall_singleton|]. intros f. unfold matching. split.
  - intros (p & ->%list_elem_of_singleton & Hm). cbn in Hm. rewrite Hg, gmatch_matches in Hm. exists b. split; [left|done].
  - intros (b' & ->%list_elem_of_singleton & Hm). eexists. split; [left|]. cbn. by rewrite Hg, gmatch_matches.
Qed.

Lemma compile_simple b : simple b → ∃ g, compile b = Ok g ∧ ∀ f, g f = gmatch (tokens b) f.
Proof. intros (g & E & Hg)%glob_simple. exists g. unfold compile. by rewrite E. Qed.

Lemma no_prefixes l : has_prefix l (s2l "!") = false → has_prefix l (s2l "(") = false →
  prefixes 4 false false false l (Ignored false) = (l, Ignored false).
Proof.
  intros H1 H2. cbn [prefixes]. rewrite H1. cbn [andb].
  assert (H : ∀ s, has_prefix l ("("%char :: s) = false).
  { intros s. destruct l as [|c l]; [done|]. unfold has_prefix in *. cbn in H2 |- *.
    rewrite andb_true_r in H2. by rewrite H2. }
  change (s2l "(?i)") with ("("%char :: s2l "?i)"). change (s2l "(?d)") with ("("%char :: s2l "?d)"). by rewrite !H.
Qed.

Lemma parse_unrooted l :
  nativeUnicodeNorm l = l → simple l → l ≠ [] → has_prefix l (s2l "!") = false → has_prefix l (s2l "(") = false →
  has_prefix l [sep] = false → has_prefix l everywhere = false →
  ∃ ps, parseLine false ToLower nativeUnicodeNorm l = Ok ps ∧ compiled [l; everywhere ++ l] ps.
Proof.
  intros Hn Hs Hne H1 H2 H3 H4. unfold parseLine. rewrite Hn, no_prefixes by done. rewrite bool_decide_false by done.
  cbv zeta. change (IsCaseFolded (Ignored false)) with false. cbv iota. rewrite H3, H4.
  destruct (compile_simple l Hs) as (g & E & Hg). rewrite E.
  destruct (compile_simple (everywhere ++ l)) as (g' & E' & Hg'); [by apply simple_app; [apply (bool_decide_unpack _)|]|].
  eexists. split; [unfold mbind, go_bind; by rewrite E'|].
  by apply (compiled_app [l] [everywhere ++ l] [_] [_]); apply compiled_one.
Qed.
Lemma parse_rooted l :
  nativeUnicodeNorm (sep :: l) = sep :: l → simple l →
  ∃ ps, parseLine false ToLower nativeUnicodeNorm (sep :: l) = Ok ps ∧ compiled [l] ps.
Proof.
  intros Hn Hs. unfold parseLine. rewrite Hn, no_prefixes by done. rewrite bool_decide_false by done.
  cbv zeta. change (IsCaseFolded (Ignored false)) with false. cbv iota. change (has_prefix (sep :: l) [sep]) with true. cbv iota.
  change (drop 1 (sep :: l)) with l. destruct (compile_simple l Hs) as (g & E & Hg). rewrite E. eexists. split; [done|]. by apply compiled_one.
Qed.

Lemma add_name n : literal n → nativeUnicodeNorm n = n →
  ∃ ps, add_line false ToLower nativeUnicodeNorm n = Ok ps ∧ compiled [n; everywhere ++ n; n ++ below; everywhere ++ n ++ below] ps.
Proof.
  intros Hn Hnorm. pose proof (literal_simple n Hn) as Hs.
  assert (Hno : ∀ c k, c ∈ s2l "?[]{}\*/!(#" → has_prefix n (c :: k) = false).
  { intros c k Hc. apply (literal_not n c Hn) in Hc. destruct n as [|d n]; [done|]. unfold has_prefix. cbn [prefixb].
    apply not_elem_of_cons in Hc as [Hc _]. by apply Ascii.eqb_neq in Hc as ->. }
  assert (Hne : n ≠ []) by apply Hn.
  assert (Hnosuf : ∀ k, has_suffix n (sep :: k) = false).
  { intros k. destruct (has_suffix n (sep :: k)) eqn:E; [|done]. apply has_suffix_split in E as [a E].
    exfalso. apply (literal_not n sep Hn); [by apply (bool_decide_unpack _)|]. rewrite E. set_solver. }
  unfold add_line. change below with (sep :: stars) at 1. rewrite !Hnosuf.
  assert (H1 : has_prefix n (s2l "!") = false) by (apply Hno; by apply (bool_decide_unpack _)).
  assert (H2 : has_prefix n (s2l "(") = false) by (apply Hno; by apply (bool_decide_unpack _)).
  assert (H3 : has_prefix n [sep] = false) by (apply Hno; by apply (bool_decide_unpack _)).
  assert (H4 : has_prefix n everywhere = false) by (apply Hno; by apply (bool_decide_unpack _)).
  destruct (parse_unrooted n) as (ps & E & H); [done..|].
  destruct (parse_unrooted (n ++ below)) as (ps' & E' & H').
  - by rewrite norm_below, Hnorm.
  - apply simple_app; [done|]. by apply (bool_decide_unpack _).
  - by destruct n.
  - rewrite has_prefix_below; [done|by apply (bool_decide_unpack _)].
  - rewrite has_prefix_below; [done|by apply (bool_decide_unpack _)].
  - by destruct n.
  - rewrite everywhere_below, H4. cbn [orb].
    apply bool_decide_eq_false. intros ->. apply (literal_not _ star Hn); [by apply (bool_decide_unpack _)|left].
  - exists (ps ++ ps'). rewrite E. split; [unfold mbind, go_bind; by rewrite E'|].
    by apply (compiled_app [n; everywhere ++ n] [n ++ below; everywhere ++ n ++ below]).
Qed.

Lemma add_root n : literal n → nativeUnicodeNorm (sep :: n) = sep :: n →
  ∃ ps, add_line false ToLower nativeUnicodeNorm (sep :: n) = Ok ps ∧ compiled [n; n ++ below] ps.
Proof.
  intros Hn Hnorm. pose proof (literal_simple n Hn) as Hs.
  assert (Hnosuf : ∀ k, sep ∉ k → has_suffix (sep :: n) (sep :: k) = true → k = n).
  { intros k Hk [[|c a] E]%has_suffix_split; [by injection E|]. injection E as _ E. exfalso.
    apply (literal_not n sep Hn); [by apply (bool_decide_unpack _)|]. rewrite E. set_solver. }
  unfold add_line. destruct (has_suffix (sep :: n) below) eqn:Hb.
  { apply (Hnosuf stars) in Hb; [|by apply (bool_decide_unpack _)]. subst n.
    by destruct (literal_not _ star Hn); [apply (bool_decide_unpack _)|left]. }
  destruct (has_suffix (sep :: n) [sep]) eqn:Hb'.
  { apply (Hnosuf []) in Hb'; [|set_solver]. by destruct Hn. }
  destruct (parse_rooted n) as (ps & E & H); [done..|].
  destruct (parse_rooted (n ++ below)) as (ps' & E' & H').
  - rewrite app_comm_cons, norm_below. by rewrite Hnorm.
  - apply simple_app; [done|]. by apply (bool_decide_unpack _).
  - exists (ps ++ ps'). rewrite E. split; [unfold mbind, go_bind; by rewrite <-app_comm_cons, E'|].
    by apply (compiled_app [n] [n ++ below]).
Qed.

(** A line of a name adds patterns for what has the name and what is below that. *)
Lemma add_name_line l : name_line l → nativeUnicodeNorm l = l →
  ∃ ps, add_line false ToLower nativeUnicodeNorm l = Ok ps ∧ Forall (λ p, result p = Ignored false) ps ∧
    ∀ f, matching f ps ↔ named l f.
Proof.
  intros Hl Hnorm. destruct Hl as [n Hn|n Hn].
  - destruct (add_name n Hn Hnorm) as (ps & E & Hr & H). exists ps. split_and!; [done..|]. intros f. rewrite H.
    assert (Hsep : sep ∉ n) by (apply (literal_not n _ Hn); by apply (bool_decide_unpack _)).
    assert (En : named n f ↔ n ∈ PathComponents f).
    { destruct n as [|c n]; [by destruct Hn|]. cbn [named]. apply not_elem_of_cons in Hsep as [Hc _].
      by apply not_eq_sym, Ascii.eqb_neq in Hc as ->. }
    rewrite En, component_spec by done. set_unfold. split.
    + intros (b & [->|[->|[->|[->|[]]]]] & Hm).
      * apply matches_literal in Hm; [by left|done].
      * apply matches_everywhere in Hm as (a & x & -> & ->%matches_literal); [eauto|done].
      * apply matches_below in Hm as (a & x & -> & ->%matches_literal); [eauto|done].
      * apply matches_everywhere in Hm as (a & x & -> & (b & y & -> & ->%matches_literal)%matches_below); [eauto 10|done].
    + intros [->|[[a ->]|[[x ->]|(a & x & ->)]]].
      * exists n. split; [by left|]. by apply matches_literal.
      * exists (everywhere ++ n). split; [tauto|]. apply matches_everywhere. exists a, n. split; [done|]. by apply matches_literal.
      * exists (n ++ below). split; [tauto|]. apply matches_below. exists n, x. split; [done|]. by apply matches_literal.
      * exists (everywhere ++ n ++ below). split; [tauto|]. apply matches_everywhere. exists a, (n ++ sep :: x). split; [done|].
        apply matches_below. exists n, x. split; [done|]. by apply matches_literal.
  - destruct (add_root n Hn Hnorm) as (ps & E & Hr & H). exists ps. split_and!; [done..|]. intros f. rewrite H.
    assert (Hsep : sep ∉ n) by (apply (literal_not n _ Hn); by apply (bool_decide_unpack _)).
    change (named (sep :: n) f) with (head (PathComponents f) = Some n). rewrite root_spec by done. set_unfold. split.
    + intros (b & [->|[->|[]]] & Hm); [apply matches_literal in Hm; [by left|done]|].
      apply matches_below in Hm as (a & x & -> & ->%matches_literal); [eauto|done].
    + intros [->|[x ->]]; [exists n; split; [by left|by apply matches_literal]|].
      exists (n ++ below). split; [tauto|]. apply matches_below. exists n, x. split; [done|]. by apply matches_literal.
Qed.
End names.

Section ignored_names.
Context {G : Glob} {GL : GlobLaws G} (ToLower nativeUnicodeNorm : path → path).
Context (norm_below : ∀ a, nativeUnicodeNorm (a ++ below) = nativeUnicodeNorm a ++ below).
Abbreviation parse_loop' := (parse_loop false ToLower nativeUnicodeNorm).

(** After the lines [seen]. *)
Definition ignoring (seen : list path) (s : floop) : Prop :=
  flEscape s = backslash ∧ (∀ l, l ∈ linesSeen (flState s) ↔ l ∈ seen) ∧
  Forall (λ p, result p = Ignored false) (flPatterns s) ∧
  ∀ f, matching f (flPatterns s) ↔ ∃ l, l ∈ seen ∧ named l f.

Lemma name_line_start l : name_line l →
  has_prefix l escapePrefix = false ∧ has_prefix l (s2l "//") = false ∧ has_prefix l (s2l "#include") = false ∧ l ≠ [].
Proof.
  intros [n Hn|n Hn].
  - assert (Hno : ∀ c k, c ∈ s2l "?[]{}\*/!(#" → has_prefix n (c :: k) = false).
    { intros c k Hc. apply (literal_not n c Hn) in Hc. destruct n as [|d n]; [done|]. unfold has_prefix. cbn [prefixb].
      apply not_elem_of_cons in Hc as [Hc _]. by apply Ascii.eqb_neq in Hc as ->. }
    split_and!; [by apply Hno; apply (bool_decide_unpack _)..|apply Hn].
  - split_and!; try done. assert (Hs : sep ∉ n) by (apply (literal_not n _ Hn); by apply (bool_decide_unpack _)).
    destruct n as [|c n]; [done|]. apply not_elem_of_cons in Hs as [Hc _]. unfold has_prefix.
    change (s2l "//") with [sep; sep]. cbn [prefixb]. apply Ascii.eqb_neq in Hc as ->. by rewrite andb_false_r.
Qed.

Lemma ignoring_round include file seen s l :
  name_line l → nativeUnicodeNorm l = l → ignoring seen s →
  ∃ s', parse_round false ToLower nativeUnicodeNorm include file s l = (s', Ok tt) ∧ ignoring (seen ++ [l]) s'.
Proof.
  intros Hl Hnorm (He & Hs & Hr & Hm). destruct (name_line_start l Hl) as (H1 & H2 & H3 & H4).
  unfold parse_round. rewrite H1. case_bool_decide as Hin.
  { exists s. split; [done|]. apply Hs in Hin. split_and!; [done| |done|].
    - intros k. rewrite Hs, elem_of_app, list_elem_of_singleton. split; [tauto|by intros [H| ->]].
    - intros f. rewrite Hm. setoid_rewrite elem_of_app. setoid_rewrite list_elem_of_singleton.
      split; [intros (k & Hk & Hf); eauto|by intros (k & [Hk| ->] & Hf); eauto]. }
  cbv zeta. rewrite bool_decide_false by done. rewrite H2. cbn [orb]. unfold parse_content. cbv zeta.
  assert (Eu : unescape (flEscape s) l = l) by (unfold unescape; by rewrite He, bool_decide_true).
  change (flEscape (add_patterns s [] O _)) with (flEscape s). rewrite Eu, H3.
  destruct (add_name_line ToLower _ norm_below l Hl Hnorm) as (ps & E & Hps & Hf). rewrite E. eexists. split; [done|].
  unfold ignoring. cbn [add_patterns flEscape flState flPatterns linesSeen]. rewrite app_nil_r. split_and!; [done| | |].
  - intros k. cbn. rewrite elem_of_union, elem_of_singleton, Hs, elem_of_app, list_elem_of_singleton. tauto.
  - by apply Forall_app.
  - intros f. specialize (Hm f). specialize (Hf f). unfold matching in *. setoid_rewrite elem_of_app.
    setoid_rewrite list_elem_of_singleton. destruct Hm as [Hm Hm'], Hf as [Hf Hf']. split.
    + intros (p & [Hp|Hp] & Hpf); [|exists l; split; [by right|apply Hf; eauto]]. destruct (Hm (ex_intro _ p (conj Hp Hpf))) as (k & ? & ?). eauto.
    + intros (k & [Hk| ->] & Hkf); [|destruct (Hf' Hkf) as (p & ? & ?); eauto].
      destruct (Hm' (ex_intro _ k (conj Hk Hkf))) as (p & ? & ?). eauto.
Qed.

Lemma ignoring_loop include file lines seen s :
  Forall name_line lines → Forall (λ l, nativeUnicodeNorm l = l) lines → ignoring seen s →
  ∃ s', parse_loop' include file s lines = (s', Ok tt) ∧ ignoring (seen ++ lines) s'.
Proof.
  intros Hl. revert seen s. induction Hl as [|l lines Hl _ IH]; intros seen s Hn Hs; cbn [parse_loop].
  - exists s. by rewrite app_nil_r.
  - apply Forall_cons in Hn as [Hn Hns]. destruct (ignoring_round include file seen s l Hl Hn Hs) as (s1 & -> & H1).
    destruct (IH _ _ Hns H1) as (s2 & E & H2). exists s2. by rewrite <-(assoc_L (++)) in H2.
Qed.

Lemma match_loop_all ps b f :
  Forall (λ p, result p = Ignored false) ps → IsIgnored (match_loop ToLower ps b f) = true ↔ matching f ps.
Proof.
  intros Hr. unfold matching. destruct (match_loop_inv ToLower ps b f) as [[-> H]|(pre & p & post & -> & _ & Hp & ->)].
  - split; [done|]. intros (p & Hp & Hm). rewrite Forall_forall in Hr. specialize (H p Hp). unfold pmatch in H.
    rewrite (Hr p Hp) in H. change (IsCaseFolded (Ignored false)) with false in H. cbv iota in H. congruence.
  - assert (Hres : result p = Ignored false) by (rewrite Forall_forall in Hr; apply Hr; set_solver). unfold pmatch in Hp.
    rewrite Hres in *. split; [|by destruct (_ && _)]. intros _. exists p. split; [set_solver|done].
Qed.

(** A file of names ignores what it names: after parsing lines that are names
    without special characters, or such names after a slash, exactly those files are
    ignored one of whose path components is such a name, at the root for the names
    after a slash. *)
Theorem names_ignored Open fuel fs lines file st :
  Forall name_line lines → Forall (λ l, nativeUnicodeNorm l = l) lines → Forall (λ l, TrimSpace l = l) lines →
  linesSeen st = ∅ →
  ∃ st' ps, parseIgnoreFile false ToLower nativeUnicodeNorm Open fuel fs lines None file st = (st', lines, Ok ps) ∧
    ∀ m now f, mt_patterns m = ps → mt_matches m = None → IsTemporary f = false → IsInternal f = false → f ≠ dot →
      IsIgnored (Match false ToLower m now f).2 = true ↔ ∃ l, l ∈ lines ∧ named l f.
Proof.
  intros Hl Hn Ht Hst. unfold parseIgnoreFile, parse_lines.
  assert (El : TrimSpace <$> lines = lines).
  { clear -Ht. induction Ht as [|l ls H _ IH]; [done|]. cbn. by rewrite H, IH. }
  rewrite El. set (s := MkFLoop [] backslash false O st).
  destruct (ignoring_loop (loadParseIncludeFile false ToLower nativeUnicodeNorm Open fuel fs) file lines [] s Hl Hn)
    as (s' & -> & _ & _ & Hr & Hm).
  { split_and!; [done| |done|]; [intros k; cbn; rewrite Hst; set_solver|]. intros f'. split; [by intros (p & []%elem_of_nil & _)|].
    by intros (k & []%elem_of_nil & _). }
  exists (flState s'), (flPatterns s'). split; [done|]. intros m now f Ep H4 H1 H2 H3. unfold Match.
  rewrite H1, H2, bool_decide_false, Ep, H4 by done.
  cbn [app] in Hm. rewrite <-Hm. destruct (flPatterns s') as [|p ps] eqn:Eps; [|by apply match_loop_all].
  cbn. split; [done|]. by intros (p & []%elem_of_nil & _).
Qed.
End ignored_names.

Section theorems.
Context {G : Glob} (folds : bool) (ToLower nativeUnicodeNorm : path → path) (Open : path → path → open_result).

(** Parsing ends: when the lines of all files on the disk are among [disk],
    includes nest less deep than [disk] has elements, whichever files include which
    (also themselves), because a line that was seen is not looked at again. *)
Theorem parse_ends (disk : gset path) fuel fs lines scan_error file st :
  (∀ root name lines e t line, Open root name = Opened lines e t → line ∈ lines → TrimSpace line ∈ disk) →
  (∀ line, line ∈ lines → TrimSpace line ∈ disk) → (size disk < fuel)%nat →
  no_panic (parseIgnoreFile folds ToLower nativeUnicodeNorm Open fuel fs lines scan_error file st).2.
Proof.
  intros Hdisk Hlines Hfuel. unfold parseIgnoreFile. destruct scan_error as [e|]; [done|]. unfold parse_lines.
  set (s := MkFLoop [] backslash false O st).
  destruct (parse_loop_ends folds ToLower nativeUnicodeNorm disk (S (size disk))
    (loadParseIncludeFile folds ToLower nativeUnicodeNorm Open fuel fs) file (TrimSpace <$> lines) s) as [H _].
  - intros f st' Hn. apply (load_ends _ _ _ disk _ Hdisk). unfold unseen in *. lia.
  - apply Forall_forall. intros l (l' & -> & Hl)%list_elem_of_fmap_1. by apply Hlines.
  - unfold unseen. assert (size (disk ∖ linesSeen (flState s)) ≤ size disk)%nat by (apply subseteq_size; set_solver). lia.
  - destruct (parse_loop _ _ _ _ _ s _) as [s' r]. by destruct r.
Qed.

Context {GL : GlobLaws G}.
Context (lower_sep : ∀ a b, ToLower (a ++ sep :: b) = ToLower a ++ sep :: ToLower b).
Context (lower_stars : ToLower stars = stars) (lower_nil : ∀ a, ToLower a = [] → a = []).
Context (norm_below : ∀ a, nativeUnicodeNorm (a ++ below) = nativeUnicodeNorm a ++ below).

(** C24.  When directories are skipped without losing anything.  For an ignore file whose
    patterns are made of literal characters, single slashes and stars (none of the
    signs [?], brackets, braces and backslash, and no empty path element), and none of
    whose exceptions names only what is below a directory of the root, as ["!/foo/"]
    without ["!/foo"] does: whatever is below a directory that the matcher says may be
    skipped is ignored.  The second restriction is needed: with ["!/foo/"] and ["*"] the
    directory [foo] may be skipped although what is below it is not ignored
    ([exception_skipped]); the code takes the closing ["/**"] away before it looks for
    further slashes. *)
Theorem skip_sound fuel fs lines e file st st' ls ps m now d x :
  parseIgnoreFile folds ToLower nativeUnicodeNorm Open fuel fs lines e file st = (st', ls, Ok ps) →
  Forall plain_pattern ps → lone [] ps = false → mt_patterns m = ps → mt_matches m = None →
  IsTemporary d = false → IsInternal d = false → CanSkipDir (Match folds ToLower m now d).2 = true →
  IsIgnored (Match folds ToLower m now (d ++ sep :: x)).2 = true.
Proof.
  intros Hparse Hplain Hlone Ep Ec Ht Hi Hskip.
  destruct (parseIgnoreFile_parsed _ _ _ lower_sep lower_stars lower_nil norm_below _ _ _ _ _ _ _ _ _ _ Hparse Hplain) as [Hok Hcov].
  unfold Match in *. rewrite Ht, Hi, Ep, Ec in Hskip. rewrite Ep, Ec. case_bool_decide; [done|].
  destruct (IsTemporary (d ++ sep :: x)); [by destruct folds|]. destruct (IsInternal (d ++ sep :: x)); [by destruct folds|].
  rewrite bool_decide_false; [destruct ps as [|p ps]; [done|by apply skip_loop]|].
  intros E. assert (Hin : sep ∈ d ++ sep :: x) by set_solver. rewrite E in Hin. by apply list_elem_of_singleton in Hin.
Qed.
End theorems.

(** ** Samples *)

(** Letters of ASCII. *)
Definition lower_ascii (s : path) : path :=
  map (λ c, let v := byte_val c in if (65 <=? v) && (v <=? 90) then byte_chr (v + 32) else c) s.
Definition sample_disk (root name : path) : open_result :=
  if bool_decide (name = s2l "more") then Opened [s2l "#include ignore"; s2l "cache"] None 7
  else if bool_decide (name = s2l "ignore") then Opened [s2l "#include more"; s2l "#include ./more"] None 8
  else OpenNotExist.
Definition sample_fs : filesystem := MkFilesystem 0 (s2l "/folder") true.
Definition sample_detector : pstate := MkPState ∅ 1 ∅.
Abbreviation sample_parse lines :=
  (@parseIgnoreFile reference_glob false lower_ascii id sample_disk 9 sample_fs lines None (s2l ".stignore") sample_detector).
Definition sample_matcher (ps : list Pattern) : Matcher := (New sample_fs false) <| mt_patterns := ps |>.
Definition sample_match (lines : list string) (f : string) : option path :=
  match (sample_parse (s2l <$> lines)).2 with
  | Ok ps => Some (R_String (Match false lower_ascii (sample_matcher ps) 0 (s2l f)).2)
  | _ => None
  end.

Example matching_lines :
  sample_match ["!/keep"; "(?i)Build/"; "*.o"; "(?d).DS_Store"; "*"]%string "keep/a" = Some (s2l "---s") ∧
  sample_match ["!/keep"; "(?i)Build/"; "*.o"; "(?d).DS_Store"]%string "x/BUILD/y" = Some (s2l "i-fs") ∧
  sample_match ["!/keep"; "(?i)Build/"; "*.o"; "(?d).DS_Store"]%string "a/b.o" = Some (s2l "i--s") ∧
  sample_match ["!/keep"; "(?i)Build/"; "*.o"; "(?d).DS_Store"]%string "a/.DS_Store" = Some (s2l "id-s") ∧
  sample_match ["!keep"; "*"]%string "a" = Some (s2l "i---").
Proof. by vm_compute. Qed.

(** An exception for what is below a directory does not keep the directory from being
    skipped, and nothing below it is found. *)
Example exception_skipped :
  sample_match ["!/foo/"; "*"]%string "foo" = Some (s2l "i--s") ∧
  sample_match ["!/foo/"; "*"]%string "foo/x" = Some (s2l "---s").
Proof. by vm_compute. Qed.

(** Files that include one another: a line that was seen is skipped, a file that was
    seen is an error. *)
Example include_cycle :
  (sample_parse [s2l "#include more"]).2 =
    Err "parse error: failed to load include file: parse error: failed to load include file: parse error: failed to load include file: multiple include".
Proof. by vm_compute. Qed.

(** The file is removed and restored as it was: the patterns stay empty, as the time
    of the last change is still the one that was remembered. *)
Abbreviation sample_load disk stat m := (@Load reference_glob false lower_ascii id disk id stat 9 m (s2l ".stignore")).
Definition stignore (root name : path) : open_result :=
  if bool_decide (name = s2l ".stignore") then Opened [s2l "secret"] None 5 else OpenNotExist.
Example restored_unread :
  let m1 := (sample_load stignore (λ _ _, Some 5) (New sample_fs true)).1 in
  let m2 := (sample_load (λ _ _, OpenNotExist) (λ _ _, None) m1).1 in
  let m3 := (sample_load stignore (λ _ _, Some 5) m2).1 in
  length (mt_patterns m1) = 4%nat ∧ mt_patterns m2 = [] ∧ mt_patterns m3 = [].
Proof. by vm_compute. Qed.

Lemma lower_ascii_sep a b : lower_ascii (a ++ sep :: b) = lower_ascii a ++ sep :: lower_ascii b.
Proof. unfold lower_ascii. by rewrite map_app. Qed.
Lemma lower_ascii_nil a : lower_ascii a = [] → a = [].
Proof. by destruct a. Qed.

Lemma sample_names : Forall name_line [s2l "cache"; s2l "/tmp"].
Proof.
  constructor; [apply anywhere; by apply (bool_decide_unpack _)|]. constructor; [|constructor].
  apply (at_root (s2l "tmp")). by apply (bool_decide_unpack _).
Qed.

Lemma names_ignored_witness :
  Forall name_line [s2l "cache"; s2l "/tmp"] ∧
  ∃ st' ps, sample_parse [s2l "cache"; s2l "/tmp"] = (st', [s2l "cache"; s2l "/tmp"], Ok ps) ∧
    IsIgnored (Match false lower_ascii (sample_matcher ps) 0 (s2l "a/cache/b")).2 = true.
Proof.
  split; [apply sample_names|].
  destruct (names_ignored (G := reference_glob) lower_ascii id (λ _, eq_refl) sample_disk 9 sample_fs [s2l "cache"; s2l "/tmp"] (s2l ".stignore")
    sample_detector sample_names) as (st' & ps & E & H); [by repeat constructor|by repeat constructor|done|].
  exists st', ps. split; [exact E|]. apply (H (sample_matcher ps) 0 (s2l "a/cache/b")).
  - reflexivity.
  - reflexivity.
  - vm_compute. reflexivity.
  - vm_compute. reflexivity.
  - apply (bool_decide_unpack _). by vm_compute.
  - exists (s2l "cache"). split; [left|]. change (s2l "cache" ∈ PathComponents (s2l "a/cache/b")). apply (bool_decide_unpack _). by vm_compute.
Defined.

Lemma sample_disk_lines root name lines e t line :
  sample_disk root name = Opened lines e t → line ∈ lines →
  TrimSpace line ∈ ({[s2l "#include ignore"; s2l "cache"; s2l "#include more"; s2l "#include ./more"]} : gset path).
Proof.
  unfold sample_disk. repeat case_bool_decide; intros [= <- <- <-] Hin; set_unfold in Hin;
    destruct Hin as [->|[->|[]]]; by apply (bool_decide_unpack _); vm_compute.
Qed.

Lemma parse_ends_witness : no_panic (sample_parse [s2l "#include more"]).2.
Proof.
  apply (parse_ends (G := reference_glob) false lower_ascii id sample_disk
    {[s2l "#include ignore"; s2l "cache"; s2l "#include more"; s2l "#include ./more"]}).
  - apply sample_disk_lines.
  - intros line ->%list_elem_of_singleton. by apply (bool_decide_unpack _); vm_compute.
  - vm_compute. lia.
Defined.

Definition skip_hypotheses (r : go (list Pattern)) (d : path) : bool :=
  match r with
  | Ok ps => forallb plain_pattern ps && negb (lone [] ps) && CanSkipDir (Match false lower_ascii (sample_matcher ps) 0 d).2
  | _ => false
  end.
Lemma sample_skip : skip_hypotheses (sample_parse [s2l "!/foo"; s2l "b*/"; s2l "*"]).2 (s2l "bar") = true.
Proof. by vm_compute. Qed.

Lemma skip_sound_witness :
  ∃ ps, (sample_parse [s2l "!/foo"; s2l "b*/"; s2l "*"]).2 = Ok ps ∧
    CanSkipDir (Match false lower_ascii (sample_matcher ps) 0 (s2l "bar")).2 = true ∧
    IsIgnored (Match false lower_ascii (sample_matcher ps) 0 (s2l "bar" ++ sep :: s2l "foo")).2 = true.
Proof.
  pose proof sample_skip as Hs. destruct (sample_parse [s2l "!/foo"; s2l "b*/"; s2l "*"]) as [[st' ls] r] eqn:E.
  cbn [snd] in *. destruct r as [ps| |]; [|done..]. exists ps. split; [done|].
  apply andb_true_iff in Hs as [[Hp Hl]%andb_true_iff Hd]. split; [exact Hd|].
  apply (skip_sound (G := reference_glob) false lower_ascii id sample_disk lower_ascii_sep eq_refl lower_ascii_nil (λ _, eq_refl)
    9 sample_fs [s2l "!/foo"; s2l "b*/"; s2l "*"] None (s2l ".stignore") sample_detector st' ls ps (sample_matcher ps) 0 (s2l "bar") (s2l "foo") E).
  - apply Forall_forall. intros p Hin. apply list_elem_of_In in Hin. apply Is_true_eq_left. by apply (proj1 (forallb_forall _ _) Hp).
  - by apply negb_true_iff.
  - reflexivity.
  - reflexivity.
  - vm_compute. reflexivity.
  - vm_compute. reflexivity.
  - exact Hd.
Defined.
