(* ===== verification/Disk.v ===== *)
(** * The file system of a folder ([src/lib/fs/filesystem.go], [walkfs.go],
      [src/lib/osutil/osutil.go], [traversessymlink.go], [src/lib/model/util.go],
      [src/lib/scanner/walk.go])

    Operations on files go through the interface [Filesystem] of the program, whose
    implementations end in system calls.  The class [Filesystem] has the operations
    the folders use, over an abstract state in which there is a view: the items at
    their paths.  [FilesystemLaws] states what the calls are documented to do; any
    call may fail.  On top of it the file translates what the program builds itself:
    walking a tree, the test for symbolic links on the way, making a directory
    writable for a while, renaming with a copy as a fallback, and the record of an
    item.  MapDisk implements the interface on a finite map, where the laws hold. *)
From S2P Require Import Prelude GoLib Vector Platform FileInfo Paths.
From S2P Require Ignore.
From Stdlib Require Import Ascii.
From Stdlib Require String.

Local Open Scope Z_scope.

(** ** Errors *)
Inductive ferr :=
  | ErrNotExist
  | ErrExist
  | ErrPermission
  | ErrXattrsNotSupported
  | CaseConflictError (real : path)
  | TraversesSymlinkError (at_ : path)
  | NotADirectoryError (at_ : path)
  | ErrText (text : string)
  | Wrapped (context : string) (e : ferr).
#[export] Instance ferr_eq_dec : EqDecision ferr.
Proof. solve_decision. Defined.

(** [errors.Is] and [errors.As] look through what wraps an error. *)
Fixpoint root (e : ferr) : ferr := match e with Wrapped _ e => root e | _ => e end.
Definition IsNotExist (e : ferr) : bool := bool_decide (root e = ErrNotExist).
Definition IsPermission (e : ferr) : bool := bool_decide (root e = ErrPermission).
Definition IsErrCaseConflict (e : ferr) : bool := match root e with CaseConflictError _ => true | _ => false end.
(** What a path is not there for. *)
Definition is_gone (e : ferr) : bool := IsNotExist e || IsErrCaseConflict e.

(** ** Items *)

(** [iTime] is the time of the last change in nanoseconds. *)
Record item := MkItem {
  iType : Z;
  iMode : Z;
  iTime : Z;
  iData : list Z;
  iTarget : list Z;
  iPlatform : PlatformData;
}.
#[export] Instance eta_item : Eta item := λ r, MkItem (iType r) (iMode r) (iTime r) (iData r) (iTarget r) (iPlatform r).

Definition IsDir (i : item) : bool := iType i =? FileInfoTypeDirectory.
Definition IsLink (i : item) : bool := iType i =? FileInfoTypeSymlink.
Definition IsRegular (i : item) : bool := negb (IsDir i) && negb (IsLink i).
Definition Size_of (i : item) : Z := Z.of_nat (length (iData i)).

(** The bits [0o777], [0o200] and [0o700]; the higher ones are those of Go. *)
Definition ModePerm : Z := 511.
Definition ModeSetuid : Z := Z.shiftl 1 23.
Definition ModeSetgid : Z := Z.shiftl 1 22.
Definition ModeSticky : Z := Z.shiftl 1 20.
Definition permBits : Z := Z.lor (Z.lor ModePerm ModeSetuid) (Z.lor ModeSetgid ModeSticky).

(** ** Patterns of file names ([filepath.Match])

    Characters are compared as their encodings, whose order is that of the characters. *)
(** The characters of a text; a text of [n] bytes has at most [n]. *)
Fixpoint runes (n : nat) (s : path) : list path :=
  match n, s with
  | S n, _ :: _ => take (Ignore.rune_len s) s :: runes n (drop (Ignore.rune_len s) s)
  | _, _ => []
  end.
Definition to_runes (s : path) : list path := runes (length s) s.

Inductive ptoken := PStar | PAnyChar | PChar (r : path) | PClass (negated : bool) (ranges : list (path * path)).

Definition r_ (c : ascii) : path := [c].
Definition is_r (c : ascii) (r : path) : bool := bool_decide (r = [c]).

(** The order of encodings. *)
Fixpoint bytes_le (a b : path) : bool :=
  match a, b with
  | [], _ => true
  | _, [] => false
  | x :: a, y :: b => (byte_val x <? byte_val y) || ((byte_val x =? byte_val y) && bytes_le a b)
  end.

(** [getEsc] *)
Definition getEsc (rs : list path) : option (path * list path) :=
  match rs with
  | r :: rs' =>
      if is_r "-"%char r || is_r "]"%char r then None
      else if is_r "\"%char r
      then match rs' with r' :: r'' :: rest => Some (r', r'' :: rest) | _ => None end
      else match rs' with [] => None | _ => Some (r, rs') end
  | [] => None
  end.
Fixpoint class_ranges (n : nat) (acc : list (path * path)) (rs : list path) : option (list (path * path) * list path) :=
  match n with
  | O => None
  | S n =>
      match rs with
      | r :: rs' =>
          if is_r "]"%char r && negb (bool_decide (acc = [])) then Some (acc, rs')
          else match getEsc rs with
               | None => None
               | Some (lo, rs1) =>
                   match rs1 with
                   | d :: rs2 =>
                       if is_r "-"%char d
                       then match getEsc rs2 with Some (hi, rs3) => class_ranges n (acc ++ [(lo, hi)]) rs3 | None => None end
                       else class_ranges n (acc ++ [(lo, lo)]) rs1
                   | [] => None
                   end
               end
      | [] => None
      end
  end.
Fixpoint parse_pattern (n : nat) (rs : list path) : option (list ptoken) :=
  match n, rs with
  | _, [] => Some []
  | O, _ => None
  | S n, r :: rs =>
      if is_r "*"%char r then ts ← parse_pattern n rs; Some (PStar :: ts)
      else if is_r "?"%char r then ts ← parse_pattern n rs; Some (PAnyChar :: ts)
      else if is_r "\"%char r
      then match rs with r' :: rs => ts ← parse_pattern n rs; Some (PChar r' :: ts) | [] => None end
      else if is_r "["%char r then
        let neg := match rs with c :: _ => is_r "^"%char c | [] => false end in
        match class_ranges (S (length rs)) [] (if neg then drop 1 rs else rs) with
        | Some (ranges, rs) => ts ← parse_pattern n rs; Some (PClass neg ranges :: ts)
        | None => None
        end
      else ts ← parse_pattern n rs; Some (PChar r :: ts)
  end.

Definition in_class (ranges : list (path * path)) (r : path) : bool :=
  existsb (λ lh, bytes_le lh.1 r && bytes_le r lh.2) ranges.
Fixpoint match_tokens (ts : list ptoken) (s : list path) : bool :=
  match ts with
  | [] => match s with [] => true | _ => false end
  | PChar r :: ts => match s with r' :: s => bool_decide (r = r') && match_tokens ts s | [] => false end
  | PAnyChar :: ts => match s with r' :: s => negb (is_r sep r') && match_tokens ts s | [] => false end
  | PClass neg ranges :: ts => match s with r' :: s => negb (Bool.eqb neg (in_class ranges r')) && match_tokens ts s | [] => false end
  | PStar :: ts =>
      (fix star s := match_tokens ts s || match s with r' :: s => negb (is_r sep r') && star s | [] => false end) s
  end.
(** [None] is a bad pattern. *)
Definition filepath_Match (pattern name : path) : option bool :=
  ts ← parse_pattern (length pattern) (to_runes pattern); Some (match_tokens ts (to_runes name)).

Example match_examples :
  filepath_Match (s2l "a*.t?t") (s2l "abc.txt") = Some true ∧ filepath_Match (s2l "a*") (s2l "a/b") = Some false ∧
  filepath_Match (s2l "[a-c]x") (s2l "bx") = Some true ∧ filepath_Match (s2l "[^a-c]x") (s2l "bx") = Some false ∧
  filepath_Match (s2l "[a") (s2l "a") = None ∧ filepath_Match (s2l "\*") (s2l "*") = Some true.
Proof. by vm_compute. Qed.

(** *** Characters of patterns *)
Definition special : path := s2l "*?[\".
Definition plain (p : path) : Prop := Forall (λ c, c ∉ special) p.

(** A character is one byte, or bytes above those of ASCII. *)
Lemma rune_len_spec c s : let n := Ignore.rune_len (c :: s) in
  (0 < n)%nat ∧ (n = 1%nat ∨ Forall (λ d, 128 <= byte_val d) (take n (c :: s))).
Proof.
  unfold Ignore.rune_len. set (v := byte_val c).
  assert (Htail : ∀ n first, (2 ≤ n)%nat → 128 <= v → (∀ a b, first a b = true → 128 <= b) →
    let m := match c :: s with
      | c0 :: c1 :: rest =>
          if first (byte_val c0) (byte_val c1) &&
             forallb (λ c, (128 <=? byte_val c) && (byte_val c <=? 191)) (take (n - 2) rest) && (n - 2 <=? length rest)%nat
          then n else 1%nat
      | _ => 1%nat end in
    (0 < m)%nat ∧ (m = 1%nat ∨ Forall (λ d, 128 <= byte_val d) (take m (c :: s)))).
  { intros n first Hn Hv Hf m. unfold m. destruct s as [|c1 rest]; [split; [lia|by left]|].
    destruct (_ && _) eqn:E; [|split; [lia|by left]]. split; [lia|]. right.
    apply andb_true_iff in E as [[E1 E2]%andb_true_iff _]. destruct n as [|[|n]]; [lia..|]. cbn [take].
    repeat constructor; [done|by apply Hf in E1|]. replace (S (S n) - 2)%nat with n in E2 by lia.
    apply Forall_forall. intros d Hd. rewrite forallb_forall in E2. apply list_elem_of_In, E2 in Hd. zb. lia. }
  destruct (v <? 194) eqn:E0; [split; [lia|by left]|]. zb.
  destruct (v <? 224).
  { apply (Htail 2%nat (λ _ b, (128 <=? b) && (b <=? 191))); [lia|lia|]. intros a b H. zb. lia. }
  destruct (v <? 240).
  { apply (Htail 3%nat (λ a b, ((if a =? 224 then 160 else 128) <=? b) && (b <=? (if a =? 237 then 159 else 191)))); [lia|lia|].
    intros a b H. destruct (a =? 224), (a =? 237); zb; lia. }
  destruct (v <? 245); [|split; [lia|by left]].
  apply (Htail 4%nat (λ a b, ((if a =? 240 then 144 else 128) <=? b) && (b <=? (if a =? 244 then 143 else 191)))); [lia|lia|].
  intros a b H. destruct (a =? 240), (a =? 244); zb; lia.
Qed.

Lemma runes_concat n s : (length s ≤ n)%nat → mjoin (runes n s) = s.
Proof.
  revert s. induction n as [|n IH]; intros [|c s] Hn; [done|cbn in Hn; lia|done|]. cbn [runes mjoin list_join].
  destruct (rune_len_spec c s) as [Hpos _]. change (mjoin (runes n ?x)) with (mjoin (runes n x)).
  rewrite IH; [apply take_drop|]. rewrite length_drop. cbn in *. lia.
Qed.
Lemma to_runes_concat s : mjoin (to_runes s) = s.
Proof. by apply runes_concat. Qed.

Lemma rune_len_le s : (Ignore.rune_len s ≤ length s)%nat.
Proof.
  destruct s as [|c s]; [done|]. unfold Ignore.rune_len. cbn zeta.
  assert (Htail : ∀ n (first : Z → Z → bool), (2 ≤ n)%nat → Nat.le
    (match c :: s with
      | c0 :: c1 :: rest =>
          if first (byte_val c0) (byte_val c1) &&
             forallb (λ c, (128 <=? byte_val c) && (byte_val c <=? 191)) (take (n - 2) rest) && (n - 2 <=? length rest)%nat
          then n else 1%nat
      | _ => 1%nat end) (length (c :: s))).
  { intros n first Hn. destruct s as [|c1 rest]; [cbn; lia|]. destruct (_ && _) eqn:E; [|cbn; lia].
    apply andb_true_iff in E as [_ E]. apply Nat.leb_le in E. cbn. lia. }
  destruct (byte_val c <? 194); [cbn; lia|]. destruct (byte_val c <? 224); [by apply (Htail 2%nat (λ _ b, (128 <=? b) && (b <=? 191))); lia|].
  destruct (byte_val c <? 240).
  { by apply (Htail 3%nat (λ a b, ((if a =? 224 then 160 else 128) <=? b) && (b <=? (if a =? 237 then 159 else 191)))); lia. }
  destruct (byte_val c <? 245); [|cbn; lia].
  by apply (Htail 4%nat (λ a b, ((if a =? 240 then 144 else 128) <=? b) && (b <=? (if a =? 244 then 143 else 191)))); lia.
Qed.

(** A character ends where one of ASCII begins. *)
Lemma rune_len_app c s d b : byte_val d < 128 → Ignore.rune_len ((c :: s) ++ d :: b) = Ignore.rune_len (c :: s).
Proof.
  intros Hd. cbn [app]. unfold Ignore.rune_len. cbn zeta.
  assert (Htail : ∀ n (first : Z → Z → bool), (∀ x y, first x y = true → 128 <= y) →
    match c :: s ++ d :: b with
      | c0 :: c1 :: rest =>
          if first (byte_val c0) (byte_val c1) &&
             forallb (λ c, (128 <=? byte_val c) && (byte_val c <=? 191)) (take (n - 2) rest) && (n - 2 <=? length rest)%nat
          then n else 1%nat
      | _ => 1%nat end =
    match c :: s with
      | c0 :: c1 :: rest =>
          if first (byte_val c0) (byte_val c1) &&
             forallb (λ c, (128 <=? byte_val c) && (byte_val c <=? 191)) (take (n - 2) rest) && (n - 2 <=? length rest)%nat
          then n else 1%nat
      | _ => 1%nat end).
  { intros n first Hf. destruct s as [|c1 rest]; cbn [app].
    - destruct (first (byte_val c) (byte_val d)) eqn:E; [|done]. apply Hf in E. lia.
    - destruct (n - 2 <=? length rest)%nat eqn:E.
      + apply Nat.leb_le in E. rewrite take_app_le by done. assert ((n - 2 <=? length (rest ++ d :: b))%nat = true) as ->; [|done].
        apply Nat.leb_le. rewrite length_app. lia.
      + apply Nat.leb_gt in E. rewrite andb_false_r. assert (forallb (λ c, (128 <=? byte_val c) && (byte_val c <=? 191)) (take (n - 2) (rest ++ d :: b)) = false) as ->.
        * rewrite take_app_ge by lia. destruct (n - 2 - length rest)%nat as [|k] eqn:Ek; [lia|]. rewrite forallb_app.
          cbn [take forallb]. assert ((128 <=? byte_val d) = false) as -> by lia. cbn. by rewrite andb_false_r.
        * by rewrite andb_false_r. }
  destruct (byte_val c <? 194); [done|].
  destruct (byte_val c <? 224).
  { apply (Htail 2%nat (λ _ b, (128 <=? b) && (b <=? 191))). intros x y H. zb. lia. }
  destruct (byte_val c <? 240).
  { apply (Htail 3%nat (λ a b, ((if a =? 224 then 160 else 128) <=? b) && (b <=? (if a =? 237 then 159 else 191)))).
    intros x y H. destruct (x =? 224), (x =? 237); zb; lia. }
  destruct (byte_val c <? 245); [|done].
  apply (Htail 4%nat (λ a b, ((if a =? 240 then 144 else 128) <=? b) && (b <=? (if a =? 244 then 143 else 191)))).
  intros x y H. destruct (x =? 240), (x =? 244); zb; lia.
Qed.

Lemma runes_fuel n m s : (length s ≤ n)%nat → (length s ≤ m)%nat → runes n s = runes m s.
Proof.
  revert m s. induction n as [|n IH]; intros [|m] [|c s] Hn Hm; try done; try (cbn in *; lia). cbn [runes]. f_equal.
  destruct (rune_len_spec c s) as [Hpos _].
  generalize dependent (Ignore.rune_len (c :: s)). intros k Hk. apply IH; rewrite length_drop; cbn in *; lia.
Qed.
Lemma to_runes_cons c s :
  to_runes (c :: s) = take (Ignore.rune_len (c :: s)) (c :: s) :: to_runes (drop (Ignore.rune_len (c :: s)) (c :: s)).
Proof.
  unfold to_runes at 1. cbn [length runes]. f_equal. destruct (rune_len_spec c s) as [Hpos _].
  generalize dependent (Ignore.rune_len (c :: s)). intros k Hk. apply runes_fuel; rewrite length_drop; cbn; lia.
Qed.

Lemma to_runes_app a d b : byte_val d < 128 → to_runes (a ++ d :: b) = to_runes a ++ to_runes (d :: b).
Proof.
  intros Hd. remember (length a) as n eqn:Hn. assert (Hle : (length a ≤ n)%nat) by lia. clear Hn. revert a Hle.
  induction n as [|n IH]; intros [|c a] Hle; try done; [cbn in Hle; lia|].
  change ((c :: a) ++ d :: b) with (c :: (a ++ d :: b)). rewrite (to_runes_cons c (a ++ d :: b)), (to_runes_cons c a).
  change (c :: a ++ d :: b) with ((c :: a) ++ d :: b). rewrite rune_len_app by done.
  pose proof (rune_len_le (c :: a)). destruct (rune_len_spec c a) as [Hpos _]. rewrite take_app_le, drop_app_le by done.
  cbn [app]. f_equal. apply IH.
  generalize dependent (Ignore.rune_len (c :: a)). intros k _ Hk. rewrite length_drop. cbn in *. lia.
Qed.

Definition rune_ok (r : path) : Prop := (∃ c, r = [c]) ∨ Forall (λ d, 128 <= byte_val d) r.
Lemma to_runes_ok s : Forall rune_ok (to_runes s).
Proof.
  unfold to_runes. generalize (length s). intros n. revert s. induction n as [|n IH]; intros [|c s]; cbn [runes]; try constructor; [|apply IH].
  destruct (rune_len_spec c s) as [_ [E|H]]; [left|by right]. rewrite E. by exists c.
Qed.
Lemma rune_no_sep r : rune_ok r → r ≠ [sep] → sep ∉ r.
Proof.
  intros [[c ->]|H] Hne Hin; [apply list_elem_of_singleton in Hin; by subst|].
  rewrite Forall_forall in H. apply H in Hin. vm_compute in Hin. by destruct Hin.
Qed.

(** Plain text is matched by itself only. *)
Lemma plain_runes p r : plain p → r ∈ to_runes p → ∀ c, c ∈ special → r ≠ [c].
Proof.
  intros Hp Hr c Hc ->. unfold plain in Hp. rewrite Forall_forall in Hp. apply (Hp c); [|done].
  rewrite <-(to_runes_concat p). apply list_elem_of_join. exists [c]. split; [left|done].
Qed.

Lemma parse_plain n rs rest ts : (length rs ≤ n)%nat → (∀ r c, r ∈ rs → c ∈ special → r ≠ [c]) →
  parse_pattern n (rs ++ rest) = Some ts → ∃ ts', ts = map PChar rs ++ ts' ∧ parse_pattern (n - length rs) rest = Some ts'.
Proof.
  revert n ts. induction rs as [|r rs IH]; intros n ts Hn Hs; cbn [app length map].
  { rewrite Nat.sub_0_r. eauto. }
  destruct n as [|n]; [cbn in Hn; lia|]. cbn [parse_pattern].
  assert (Hf : ∀ c, c ∈ special → is_r c r = false) by (intros c Hc; apply bool_decide_eq_false; apply (Hs r c); [left|done]).
  rewrite !Hf by (apply (bool_decide_unpack _); by vm_compute).
  destruct (parse_pattern n (rs ++ rest)) as [ts0|] eqn:E; intros [= <-].
  destruct (IH n ts0) as (ts' & -> & H); [cbn in Hn; lia|intros; by apply Hs; [right|]|done|]. by exists ts'.
Qed.

Lemma match_plain rs ts s : match_tokens (map PChar rs ++ ts) s = true → ∃ s', s = rs ++ s' ∧ match_tokens ts s' = true.
Proof.
  revert s. induction rs as [|r rs IH]; intros s; cbn [map app match_tokens]; [eauto|].
  destruct s as [|r' s]; [done|]. intros [->%bool_decide_eq_true (s' & -> & H)%IH]%andb_true_iff. eauto.
Qed.

Definition token_no_sep (t : ptoken) : Prop :=
  match t with PStar | PAnyChar => True | PChar r => sep ∉ r | PClass _ _ => False end.

Lemma match_no_sep ts s : Forall token_no_sep ts → Forall rune_ok s → match_tokens ts s = true → sep ∉ mjoin s.
Proof.
  intros Hts. revert s. induction Hts as [|t ts Ht Hts IH]; intros s Hs; cbn [match_tokens].
  { destruct s; [|done]. intros _ H. by apply elem_of_nil in H. }
  assert (Hcons : ∀ r s, sep ∉ r → sep ∉ mjoin s → sep ∉ mjoin (r :: s)).
  { intros r s' H1 H2. cbn. by rewrite not_elem_of_app. }
  assert (Hr : ∀ r, rune_ok r → is_r sep r = false → sep ∉ r).
  { intros r H1 H2. apply rune_no_sep; [done|]. by apply bool_decide_eq_false in H2. }
  destruct t as [| |r|]; [| | |done].
  - induction Hs as [|r s Hrok Hs IHs]; [intros _ H; by apply elem_of_nil in H|].
    intros [H|[H1 H2]%andb_true_iff]%orb_true_iff; [apply (IH (r :: s)); [by constructor|done]|].
    apply Hcons; [apply Hr; [done|by apply negb_true_iff]|by apply IHs].
  - destruct Hs as [|r s Hrok Hs]; [done|]. intros [H1%negb_true_iff H2]%andb_true_iff. apply Hcons; [by apply Hr|by apply IH].
  - destruct Hs as [|r' s Hrok Hs]; [done|]. intros [<-%bool_decide_eq_true H2]%andb_true_iff. by apply Hcons; [|apply IH].
Qed.

Lemma parse_no_sep n rs ts :
  (∀ r, r ∈ rs → (sep ∉ r) ∧ (is_r "["%char r) = false ∧ (is_r "092"%char r) = false) →
  parse_pattern n rs = Some ts → Forall token_no_sep ts.
Proof.
  revert rs ts. induction n as [|n IH]; intros [|r rs] ts Hrs; cbn [parse_pattern]; [by intros [= <-]; constructor|done|by intros [= <-]; constructor|].
  destruct (Hrs r) as (H1 & H2 & H3); [left|]. rewrite H2, H3.
  assert (IH' : ∀ ts, parse_pattern n rs = Some ts → Forall token_no_sep ts) by (intros; eapply IH; [|done]; intros; apply Hrs; by right).
  destruct (parse_pattern n rs) as [ts0|]; [|by repeat case_match]. specialize (IH' ts0 eq_refl).
  repeat case_match; intros [= <-]; by constructor.
Qed.

(** A pattern that begins with plain text and has no slash after it. *)
Lemma Match_literal stem d tail q :
  plain stem → byte_val d < 128 → sep ∉ d :: tail → ("["%char ∉ d :: tail) → ("092"%char ∉ d :: tail) →
  filepath_Match (stem ++ d :: tail) q = Some true → ∃ y, q = stem ++ y ∧ sep ∉ y.
Proof.
  intros Hp Hd Hs Hb1 Hb2. unfold filepath_Match. rewrite to_runes_app by done. set (n := length _).
  destruct (parse_pattern n (to_runes stem ++ to_runes (d :: tail))) as [ts|] eqn:E; [|done]. cbn.
  assert (Hlen : (length (to_runes stem) ≤ n)%nat).
  { assert (∀ m s, (length (runes m s) ≤ m)%nat) as Hm.
    { induction m as [|m IH]; intros [|c s]; [cbn; lia..|].
      change (length (runes (S m) (c :: s))) with (S (length (runes m (drop (Ignore.rune_len (c :: s)) (c :: s))))).
      specialize (IH (drop (Ignore.rune_len (c :: s)) (c :: s))). lia. }
    unfold n. rewrite length_app. pose proof (Hm (length stem) stem). unfold to_runes. lia. }
  destruct (parse_plain n (to_runes stem) (to_runes (d :: tail)) ts Hlen (λ r c Hr Hc, plain_runes stem r Hp Hr c Hc) E)
    as (ts' & -> & E').
  intros [= H]. apply match_plain in H as (s' & Hq & H). exists (mjoin s').
  rewrite <-(to_runes_concat q), Hq, join_app, to_runes_concat. split; [done|].
  pose proof (to_runes_ok q) as Hok. rewrite Hq in Hok. apply Forall_app in Hok as [_ Hok].
  eapply match_no_sep; [|exact Hok|exact H]. eapply parse_no_sep; [|exact E']. intros r Hr.
  assert (Hsub : ∀ c, c ∉ d :: tail → c ∉ r).
  { intros c Hc Hin. apply Hc. rewrite <-(to_runes_concat (d :: tail)). apply list_elem_of_join. eauto. }
  split_and!; [by apply Hsub|apply bool_decide_eq_false; intros ->..]; [by apply (Hsub _ Hb1); left|by apply (Hsub _ Hb2); left].
Qed.

(** ** The interface *)
Definition fsres (D A : Type) : Type := D * (ferr + A).

(** What an [XattrFilter] answers (that of a folder is in FolderConfig). *)
Record xattrFilter := MkFilter { xattrPermit : string → bool; maxSingleEntrySize : Z; maxTotalSize : Z }.

(** [strings.EqualFold]: the same text but for the case of letters. *)
Class UnicodeFold := EqualFold : path → path → bool.

Class Filesystem := {
  disk : Type;
  view : disk → gmap path item;
  fs_Lstat : path → disk → fsres disk item;
  fs_Stat : path → disk → fsres disk item;
  fs_Chmod : path → Z → disk → fsres disk unit;
  fs_Chtimes : path → Z → disk → fsres disk unit;
  fs_SetXattr : path → list Xattr → xattrFilter → disk → fsres disk unit;
  fs_Lchown : path → string → string → disk → fsres disk unit;
  fs_Mkdir : path → Z → disk → fsres disk unit;
  fs_MkdirAll : path → Z → disk → fsres disk unit;
  fs_Remove : path → disk → fsres disk unit;
  fs_Rename : path → path → disk → fsres disk unit;
  fs_CreateSymlink : list Z → path → disk → fsres disk unit;
  fs_ReadSymlink : path → disk → fsres disk (list Z);
  fs_PlatformData : path → bool → bool → xattrFilter → disk → fsres disk PlatformData;
  fs_DirNames : path → disk → fsres disk (list path);
  fs_Glob : path → disk → fsres disk (list path);
  (** [copyFileContents] between two names. *)
  fs_CopyContents : path → path → disk → fsres disk unit;
}.

(** The path does not lead through a symbolic link. *)
Definition direct (v : gmap path item) (p : path) : Prop :=
  ∀ q x l, p = q ++ sep :: x → v !! q = Some l → IsLink l = false.

(** What a path leads through are directories. *)
Definition tree (v : gmap path item) : Prop :=
  ∀ p i q x, v !! p = Some i → p = q ++ sep :: x → ∃ j, v !! q = Some j ∧ IsDir j = true.

(** Items with the same content, whatever their mode, time, owner and attributes. *)
Definition same_content (i i' : item) : Prop := iType i' = iType i ∧ iData i' = iData i ∧ iTarget i' = iTarget i.
Definition meta_only (v v' : gmap path item) : Prop :=
  ∀ q, option_relation same_content (λ _, False) (λ _, False) (v !! q) (v' !! q).

Definition readonly {A} `{Filesystem} (op : disk → fsres disk A) : Prop := ∀ d, view (op d).1 = view d.

Class FilesystemLaws (F : Filesystem) : Prop := {
  view_tree d : tree (view d);
  Lstat_reads p : readonly (fs_Lstat p);
  Lstat_item p d i : direct (view d) p → (fs_Lstat p d).2 = inr i → view d !! p = Some i;
  Lstat_gone p d e : (fs_Lstat p d).2 = inl e → is_gone e = true → view d !! p = None;
  Stat_reads p : readonly (fs_Stat p);
  Stat_gone p d e q : (fs_Stat p d).2 = inl e → IsNotExist e = true → Dir q = p → direct (view d) q → view d !! q = None;
  ReadSymlink_reads p : readonly (fs_ReadSymlink p);
  PlatformData_reads p o x f : readonly (fs_PlatformData p o x f);
  DirNames_reads p : readonly (fs_DirNames p);
  DirNames_there p d names name : direct (view d) p → (fs_DirNames p d).2 = inr names → name ∈ names →
    normal name ∧ is_Some (view d !! Join [p; name]);
  Glob_reads p : readonly (fs_Glob p);
  Glob_matches p d names q : (fs_Glob p d).2 = inr names → q ∈ names → filepath_Match p q = Some true ∧ is_Some (view d !! q);
  Glob_nodup p d names : (fs_Glob p d).2 = inr names → NoDup names;
  Chmod_meta p mode d : meta_only (view d) (view (fs_Chmod p mode d).1);
  Chtimes_meta p t d : meta_only (view d) (view (fs_Chtimes p t d).1);
  SetXattr_meta p xs f d : meta_only (view d) (view (fs_SetXattr p xs f d).1);
  Lchown_meta p u g d : meta_only (view d) (view (fs_Lchown p u g d).1);
  Mkdir_ok p mode d : direct (view d) p → (fs_Mkdir p mode d).2 = inr tt →
    view d !! p = None ∧ ∃ i, IsDir i = true ∧ view (fs_Mkdir p mode d).1 = <[p := i]> (view d);
  Mkdir_fails p mode d e : (fs_Mkdir p mode d).2 = inl e → view (fs_Mkdir p mode d).1 = view d;
  MkdirAll_adds p mode d q : view (fs_MkdirAll p mode d).1 !! q = view d !! q ∨
    (view d !! q = None ∧ ∃ i, IsDir i = true ∧ view (fs_MkdirAll p mode d).1 !! q = Some i);
  Remove_ok p d : direct (view d) p → (fs_Remove p d).2 = inr tt →
    view (fs_Remove p d).1 = delete p (view d) ∧ ∀ name, normal name → view d !! Join [p; name] = None;
  Remove_fails p d e : (fs_Remove p d).2 = inl e → view (fs_Remove p d).1 = view d;
  Remove_gone p d e : direct (view d) p → (fs_Remove p d).2 = inl e → IsNotExist e = true → view d !! p = None;
  Rename_ok p q d : direct (view d) p → direct (view d) q → (fs_Rename p q d).2 = inr tt →
    ∃ i, view d !! p = Some i ∧ (IsDir i = false → view (fs_Rename p q d).1 = <[q := i]> (delete p (view d)));
  Rename_fails p q d e : (fs_Rename p q d).2 = inl e → view (fs_Rename p q d).1 = view d;
  Rename_gone p q d e : direct (view d) p → Dir q = Dir p → (fs_Rename p q d).2 = inl e → IsNotExist e = true →
    view d !! p = None;
  CreateSymlink_ok t p d : direct (view d) p → (fs_CreateSymlink t p d).2 = inr tt →
    view d !! p = None ∧ ∃ i, IsLink i = true ∧ iTarget i = t ∧ view (fs_CreateSymlink t p d).1 = <[p := i]> (view d);
  CreateSymlink_fails t p d e : (fs_CreateSymlink t p d).2 = inl e → view (fs_CreateSymlink t p d).1 = view d;
  CopyContents_to p q d r : direct (view d) q → (∀ l, view d !! q = Some l → IsLink l = false) → r ≠ q →
    view (fs_CopyContents p q d).1 !! r = view d !! r;
  CopyContents_ok p q d i : direct (view d) p → view d !! p = Some i → IsLink i = false →
    direct (view d) q → (∀ l, view d !! q = Some l → IsLink l = false) → (fs_CopyContents p q d).2 = inr tt →
    ∃ i', view (fs_CopyContents p q d).1 !! q = Some i' ∧ IsDir i' = false ∧ iData i' = iData i;
}.

#[export] Instance eta_FileInfo : Eta FileInfo := λ r,   MkFileInfo (fName r) (fSize r) (fModifiedS r)
    (fModifiedBy r) (fVersion r) (fSequence r) (fBlocks r) (fSymlinkTarget r) (fBlocksHash r)
    (fPreviousBlocksHash r) (fEncrypted r) (fPlatform r) (fType r) (fPermissions r) (fModifiedNs r)
    (fRawBlockSize r) (fLocalFlags r) (fEncryptionTrailerSize r) (fDeleted r) (fNoPermissions r) (ftruncated
    r).

(** ** Effects

    What an operation on the folder changes: the disk, the paths that are to be
    scanned, the updates of the database, and the errors by path (the first one
    stays).  A computation ends in an error or a result. *)
Section effects.
Context {F : Filesystem}.

Record world := MkWorld {
  wDisk : disk;
  wScans : list path;
  wJobs : list (FileInfo * Z);
  wErrors : gmap path ferr;
}.
#[export] Instance eta_world : Eta world := λ r, MkWorld (wDisk r) (wScans r) (wJobs r) (wErrors r).

Definition M (A : Type) : Type := world → fsres world A.
#[export] Instance M_ret : MRet M := λ A a w, (w, inr a).
#[export] Instance M_bind : MBind M := λ A B k m w,
  match m w with (w', inr a) => k a w' | (w', inl e) => (w', inl e) end.

Definition throw {A} (e : ferr) : M A := λ w, (w, inl e).
(** The error is looked at instead of returned. *)
Definition attempt {A} (m : M A) : M (ferr + A) := λ w, let '(w', r) := m w in (w', inr r).
Definition of_result {A} (r : ferr + A) : M A := λ w, (w, r).
Definition call {A} (op : disk → fsres disk A) : M A := λ w,
  let '(d, r) := op (wDisk w) in (w <| wDisk := d |>, r).
(** Sending a path to the scanner, a job to the updater of the database. *)
Definition scan (p : path) : M unit := λ w, (w <| wScans := wScans w ++ [p] |>, inr tt).
Definition update (f : FileInfo) (jobType : Z) : M unit := λ w, (w <| wJobs := wJobs w ++ [(f, jobType)] |>, inr tt).
Definition wrap {A} (context : string) (m : M A) : M A := λ w,
  match m w with (w', inl e) => (w', inl (Wrapped context e)) | r => r end.

Definition Lstat (p : path) : M item := call (fs_Lstat p).
Definition Remove (p : path) : M unit := call (fs_Remove p).
Definition Chmod (p : path) (mode : Z) : M unit := call (fs_Chmod p mode).

(** ** [model/util.go]: inWritableDir *)
Definition inWritableDir (fn : path → M unit) (p : path) : M unit :=
  let dir := Dir p in
  let! info := call (fs_Stat dir) in
  if negb (IsDir info) then throw (ErrText ("Not a directory: " +:+ l2s p))
  else
    let mode := Z.land (iMode info) permBits in
    if Z.land mode 128 =? 0 then
      let! made := attempt (Chmod dir (Z.lor mode 448)) in
      let! r := attempt (fn p) in
      let! _ := match made with inr _ => (let! _ := attempt (Chmod dir mode) in mret tt) | inl _ => mret tt end in
      match r, made with
      | inl e, inl _ => if IsPermission e then throw (Wrapped "error after failing to make parent directory writable" e)
                        else throw e
      | inl e, inr _ => throw e
      | inr _, _ => mret tt
      end
    else fn p.

(** ** [osutil/traversessymlink.go] *)
Fixpoint traverses_loop (at_ : path) (parts : list path) : M unit :=
  match parts with
  | [] => mret tt
  | part :: parts =>
      let at_ := Join [at_; part] in
      let! info := attempt (Lstat at_) in
      match info with
      | inl e => if IsNotExist e then mret tt else throw e
      | inr info =>
          if IsLink info then throw (TraversesSymlinkError at_)
          else if negb (IsDir info) then throw (NotADirectoryError at_)
          else traverses_loop at_ parts
      end
  end.
Definition TraversesSymlink (name : path) : M unit :=
  match Canonicalize name with
  | Ok name => if bool_decide (name = dot) then mret tt else traverses_loop [] (PathComponents name)
  | Err e => throw (ErrText e)
  | Panic e => throw (ErrText e)
  end.

(** ** [osutil/osutil.go] *)
Definition clear_target {UF : UnicodeFold} (GOOS : string) (from to : path) (f : M unit) : M unit :=
  if IsWindows GOOS then
    let! _ := attempt (Chmod to 438) in
    if EqualFold from to then f
    else
      let! r := attempt (Remove to) in
      match r with
      | inl e => if IsNotExist e then f else throw e
      | inr _ => f
      end
  else f.
Definition withPreparedTarget {UF : UnicodeFold} (GOOS : string) (from to : path) (f : M unit) : M unit :=
  let toDir := Dir to in
  let f := clear_target GOOS from to f in
  let! info := attempt (call (fs_Stat toDir)) in
  match info with
  | inr info =>
      if IsDir info && (Z.land (iMode info) 128 =? 0) then
        let! _ := attempt (Chmod toDir 493) in
        let! r := attempt f in
        let! _ := attempt (Chmod toDir (iMode info)) in
        of_result r
      else f
  | inl _ => f
  end.

(** Both names are in the same file system, so renaming is all that is tried. *)
Definition RenameOrCopy {UF : UnicodeFold} (GOOS : string) (from to : path) : M unit :=
  withPreparedTarget GOOS from to (call (fs_Rename from to)).
Definition Copy {UF : UnicodeFold} (GOOS : string) (from to : path) : M unit :=
  withPreparedTarget GOOS from to (call (fs_CopyContents from to)).

Definition osutil_IsDeleted (name : path) : M bool :=
  let! info := attempt (Lstat name) in
  let gone := match info with inl e => is_gone e | inr _ => false end in
  if gone then mret true
  else
    let! r := attempt (TraversesSymlink (Dir name)) in
    mret match r with inl (NotADirectoryError _) | inl (TraversesSymlinkError _) => true | _ => false end.

(** ** [fs/walkfs.go] *)
Definition SkipDir : ferr := ErrText "skip this directory".
Definition out_of_fuel : ferr := ErrText "out of fuel".

Section walk.
(** The function that is called for each item, [inl] for one that cannot be read; it
    has state of its own, the variables it captures. *)
Context {L : Type} (walkFn : path → ferr + item → L → M (L * option ferr)).

(** An error that only ends the way down is none. *)
Definition unless_SkipDir (skippable : bool) (r : option ferr) : option ferr :=
  match r with Some e => if skippable && bool_decide (root e = SkipDir) then None else Some e | None => None end.

(** The entries of a directory; [sub] walks what is below one. *)
Fixpoint walk_entries (sub : path → item → L → M (L * option ferr)) (dir : path) (names : list path) (l : L)
    : M (L * option ferr) :=
  match names with
  | [] => mret (l, None)
  | name :: names =>
      let filename := Join [dir; name] in
      let! info := attempt (Lstat filename) in
      let! (l, r) :=
        match info with
        | inl e => let! (l, r) := walkFn filename (inl e) l in mret (l, unless_SkipDir true r)
        | inr info => let! (l, r) := sub filename info l in mret (l, unless_SkipDir (IsDir info) r)
        end in
      match r with
      | Some e => mret (l, Some e)
      | None => walk_entries sub dir names l
      end
  end.

Fixpoint walk (fuel : nat) (p : path) (info : item) (l : L) : M (L * option ferr) :=
  match fuel with
  | O => mret (l, Some out_of_fuel)
  | S fuel =>
      match Canonicalize p with
      | Ok p =>
          let! (l, r) := walkFn p (inr info) l in
          match r with
          | Some e => mret (l, unless_SkipDir (IsDir info) (Some e))
          | None =>
              if negb (IsDir info) && negb (bool_decide (p = dot)) then mret (l, None)
              else
                let! names := attempt (call (fs_DirNames p)) in
                match names with
                | inl e => walkFn p (inl e) l
                | inr names => walk_entries (walk fuel) p names l
                end
          end
      | Err e | Panic e => mret (l, Some (ErrText e))
      end
  end.
Definition Walk (fuel : nat) (root_ : path) (l : L) : M (L * option ferr) :=
  let! info := attempt (Lstat root_) in
  match info with
  | inl e => walkFn root_ (inl e) l
  | inr info => walk fuel root_ info l
  end.
End walk.

(** ** [scanner/walk.go]: the record of an item *)
Definition zero_record (name : string) : FileInfo :=
  MkFileInfo name 0 0 0 (MkVector []) 0 [] [] [] [] [] no_platform FileInfoTypeFile 0 0 0 0 0 false false false.

Definition CreateFileInfo (fi : item) (name : path) (scanOwnership scanXattrs : bool) (filter : xattrFilter) : M FileInfo :=
  let f := zero_record (l2s name) in
  let! plat :=
    (if scanOwnership || scanXattrs
     then wrap "reading platform data" (call (fs_PlatformData name scanOwnership scanXattrs filter)) else mret no_platform) in
  if IsLink fi then
    let! target := call (fs_ReadSymlink name) in
    mret (f <| fPlatform := plat |> <| fType := FileInfoTypeSymlink |> <| fSymlinkTarget := target |>
            <| fNoPermissions := true |>)
  else
    let f := f <| fPlatform := plat |> <| fPermissions := Z.land (iMode fi) ModePerm |>
               <| fModifiedS := iTime fi / 1000000000 |> <| fModifiedNs := iTime fi mod 1000000000 |> in
    if IsDir fi then mret (f <| fType := FileInfoTypeDirectory |>)
    else mret (f <| fSize := Size_of fi |> <| fType := FileInfoTypeFile |>).
End effects.

(** ** Reasoning about effects *)
Lemma same_content_refl i : same_content i i.
Proof. done. Qed.
Lemma same_content_trans i j k : same_content i j → same_content j k → same_content i k.
Proof. unfold same_content. intros (?&?&?) (?&?&?). split_and!; congruence. Qed.
Lemma same_content_sym i j : same_content i j → same_content j i.
Proof. unfold same_content. intros (?&?&?). by split_and!. Qed.
#[export] Instance same_content_dec i j : Decision (same_content i j).
Proof. unfold same_content. exact _. Defined.
Lemma same_content_IsDir i j : same_content i j → IsDir j = IsDir i.
Proof. unfold same_content, IsDir. by intros (-> & _). Qed.
Lemma same_content_IsLink i j : same_content i j → IsLink j = IsLink i.
Proof. unfold same_content, IsLink. by intros (-> & _). Qed.

Lemma meta_only_refl v : meta_only v v.
Proof. intros q. by destruct (v !! q). Qed.
Lemma meta_only_trans v1 v2 v3 : meta_only v1 v2 → meta_only v2 v3 → meta_only v1 v3.
Proof.
  intros H1 H2 q. specialize (H1 q). specialize (H2 q). destruct (v1 !! q), (v2 !! q), (v3 !! q); try done.
  cbn in *. by eapply same_content_trans.
Qed.
Lemma meta_only_sym v1 v2 : meta_only v1 v2 → meta_only v2 v1.
Proof. intros H q. specialize (H q). destruct (v1 !! q), (v2 !! q); try done. by apply same_content_sym. Qed.
Lemma meta_only_Some v v' p i : meta_only v v' → v !! p = Some i → ∃ i', v' !! p = Some i' ∧ same_content i i'.
Proof. intros H Hp. specialize (H p). rewrite Hp in H. destruct (v' !! p) as [i'|]; [|done]. eauto. Qed.
Lemma meta_only_None v v' p : meta_only v v' → v !! p = None → v' !! p = None.
Proof. intros H Hp. specialize (H p). rewrite Hp in H. by destruct (v' !! p). Qed.
Lemma meta_only_direct v v' p : meta_only v v' → direct v p → direct v' p.
Proof.
  intros H%meta_only_sym Hd q x l E Hl. destruct (meta_only_Some _ _ _ _ H Hl) as (l' & Hl' & Hs).
  rewrite <-(same_content_IsLink _ _ Hs). by apply (Hd q x).
Qed.
Lemma delete_direct v p q : direct v p → direct (delete q v) p.
Proof. intros H a x l E [_ Hl]%lookup_delete_Some. by apply (H a x). Qed.

Create HintDb effects.

(** A computation that relates every world it starts in to the one it ends in. *)
Section relation.
Context {F : Filesystem} (R : relation world) `{!PreOrder R}.
Definition stays {A} (m : M A) (w : world) : Prop := R w (m w).1.

Lemma stays_ret {A} (a : A) w : stays (mret a) w.
Proof. unfold stays. done. Qed.
Lemma stays_throw {A} e w : stays (throw (A:=A) e) w.
Proof. unfold stays. done. Qed.
Lemma stays_result {A} (r : ferr + A) w : stays (of_result r) w.
Proof. unfold stays. done. Qed.
Lemma stays_bind {A B} (m : M A) (k : A → M B) w :
  stays m w → (∀ a, (m w).2 = inr a → stays (k a) (m w).1) → stays (m ≫= k) w.
Proof.
  unfold stays, mbind, M_bind. intros Hm Hk. destruct (m w) as [w' [e|a]]; [done|]. cbn in *. etrans; [exact Hm|]. by apply Hk.
Qed.
Lemma stays_attempt {A} (m : M A) w : stays m w → stays (attempt m) w.
Proof. unfold stays, attempt. by destruct (m w). Qed.
Lemma stays_wrap {A} c (m : M A) w : stays m w → stays (wrap c m) w.
Proof. unfold stays, wrap. by destruct (m w) as [w' [e|a]]. Qed.
End relation.

(** Computations that do nothing. *)
Ltac stays_end := repeat case_match; first [apply stays_ret; exact _ | apply stays_throw; exact _ | apply stays_result; exact _].

Section rules.
Context {F : Filesystem} {FL : FilesystemLaws F}.
Abbreviation vw w := (view (wDisk w)).

(** What else a world holds is as it was. *)
Definition same_notes (w w' : world) : Prop :=
  wScans w' = wScans w ∧ wJobs w' = wJobs w ∧ wErrors w' = wErrors w.
(** Nothing but metadata changed. *)
Definition quiet (w w' : world) : Prop := same_notes w w' ∧ meta_only (vw w) (vw w').
#[export] Instance quiet_preorder : PreOrder quiet.
Proof.
  split.
  - intros w. split; [done|]. apply meta_only_refl.
  - intros w1 w2 w3 [(H1 & H2 & H3) H4] [(H5 & H6 & H7) H8]. split; [split_and!; congruence|].
    by eapply meta_only_trans.
Qed.

Lemma call_notes {A} (op : disk → fsres disk A) w : same_notes w (call op w).1.
Proof. unfold call. by destruct (op (wDisk w)). Qed.
Lemma call_view {A} (op : disk → fsres disk A) w : vw (call op w).1 = view (op (wDisk w)).1.
Proof. unfold call. by destruct (op (wDisk w)). Qed.
Lemma call_result {A} (op : disk → fsres disk A) w : (call op w).2 = (op (wDisk w)).2.
Proof. unfold call. by destruct (op (wDisk w)). Qed.
Lemma call_quiet {A} (op : disk → fsres disk A) w :
  (∀ d, meta_only (view d) (view (op d).1)) → quiet w (call op w).1.
Proof. intros H. split; [apply call_notes|]. rewrite call_view. apply H. Qed.
Lemma readonly_meta {A} (op : disk → fsres disk A) : readonly op → ∀ d, meta_only (view d) (view (op d).1).
Proof. intros H d. rewrite H. apply meta_only_refl. Qed.

Lemma attempt_result {A} (m : M A) w r : (attempt m w).2 = inr r → (m w).2 = r.
Proof. unfold attempt. destruct (m w). by intros [= ->]. Qed.
Lemma attempt_world {A} (m : M A) w : (attempt m w).1 = (m w).1.
Proof. unfold attempt. by destruct (m w). Qed.

Lemma quiet_Lstat p w : quiet w (Lstat p w).1.
Proof. apply call_quiet, readonly_meta, Lstat_reads. Qed.
Lemma quiet_Stat p w : quiet w (call (fs_Stat p) w).1.
Proof. apply call_quiet, readonly_meta, Stat_reads. Qed.
Lemma quiet_Chmod p mode w : quiet w (Chmod p mode w).1.
Proof. apply call_quiet. intros d. apply Chmod_meta. Qed.

Lemma stays_inWritableDir (R : relation world) `{!PreOrder R} fn p w :
  (∀ w w', quiet w w' → R w w') → (∀ w1, quiet w w1 → stays R (fn p) w1) → stays R (inWritableDir fn p) w.
Proof.
  intros HR Hfn. unfold inWritableDir. apply stays_bind; [done|apply HR, quiet_Stat|]. intros info _.
  pose proof (quiet_Stat (Dir p) w) as Hq. set (w1 := (call (fs_Stat (Dir p)) w).1) in *. clearbody w1.
  destruct (negb (IsDir info)); [by apply stays_throw|]. destruct (Z.land _ 128 =? 0); [|by apply Hfn].
  apply stays_bind; [done|apply stays_attempt, HR, quiet_Chmod|]. intros made _. rewrite attempt_world.
  pose proof (quiet_Chmod (Dir p) (Z.lor (Z.land (iMode info) permBits) 448) w1) as Hq1.
  apply stays_bind; [done|apply stays_attempt, Hfn; by etrans|]. intros r _. rewrite attempt_world.
  apply stays_bind; [done| |]; intros; (destruct made; [try by apply stays_ret|]).
  - apply stays_bind; [done|apply stays_attempt, HR, quiet_Chmod|intros; by apply stays_ret].
  - destruct r as [e|]; [destruct (IsPermission e); by apply stays_throw|by apply stays_ret].
  - destruct r as [e|]; [by apply stays_throw|by apply stays_ret].
Qed.

(** The function was called, in a world where [P] holds, or an error came before: [P] is
    kept by what happens on the way, the target may be removed. *)
Lemma withPreparedTarget_result {UF : UnicodeFold} (P : world → Prop) GOOS from to f w :
  (∀ w w', quiet w w' → P w → P w') → (∀ w1, P w1 → P (Remove to w1).1) → P w →
  let r := withPreparedTarget GOOS from to f w in
  (P r.1 ∧ ∃ e, r.2 = inl e) ∨ ∃ w1, P w1 ∧ quiet (f w1).1 r.1 ∧ r.2 = (f w1).2.
Proof.
  intros HP Hrem Hw.
  assert (Hc : ∀ w1, P w1 → let r := clear_target GOOS from to f w1 in
    (P r.1 ∧ ∃ e, r.2 = inl e) ∨ ∃ w2, P w2 ∧ quiet (f w2).1 r.1 ∧ r.2 = (f w2).2).
  { intros w1 Hw1. unfold clear_target. destruct (IsWindows GOOS); [|by right; exists w1].
    pose proof (quiet_Chmod to 438 w1) as Hq. unfold mbind, M_bind, attempt. destruct (Chmod to 438 w1) as [w2 made].
    apply (HP _ _ Hq) in Hw1. cbn [fst] in Hw1. destruct (EqualFold from to); [by right; exists w2|].
    specialize (Hrem _ Hw1). destruct (Remove to w2) as [w3 [e|[]]]; [|by right; exists w3].
    destruct (IsNotExist e); [by right; exists w3|]. left. split; [done|by exists e]. }
  unfold withPreparedTarget. set (g := clear_target GOOS from to f) in *. clearbody g. cbv zeta in *.
  unfold mbind, M_bind, attempt. pose proof (quiet_Stat (Dir to) w) as Hq.
  destruct (call (fs_Stat (Dir to)) w) as [w1 info]. apply (HP _ _ Hq) in Hw. cbn [fst] in Hw.
  destruct info as [e|info]; [by apply Hc|]. destruct (IsDir info && _); [|by apply Hc].
  pose proof (quiet_Chmod (Dir to) 493 w1) as Hq1. destruct (Chmod (Dir to) 493 w1) as [w2 made].
  apply (HP _ _ Hq1), Hc in Hw. cbn [fst] in Hw. destruct (g w2) as [w3 r]. cbn [fst snd] in Hw.
  pose proof (quiet_Chmod (Dir to) (iMode info) w3) as Hq3. destruct (Chmod (Dir to) (iMode info) w3) as [w4 made'].
  cbn [fst snd of_result] in *. destruct Hw as [[Hw He]|(w5 & Hw5 & Hq5 & ->)]; [left; split; [by eapply HP|done]|].
  right. exists w5. split_and!; [done|by etrans|done].
Qed.
Lemma stays_withPreparedTarget {UF : UnicodeFold} (R : relation world) `{!PreOrder R} (P : world → Prop) GOOS from to f w :
  (∀ w w', quiet w w' → R w w') → (∀ w w', quiet w w' → P w → P w') → P w →
  (∀ w1, P w1 → stays R (Remove to) w1 ∧ P (Remove to w1).1) → (∀ w1, P w1 → stays R f w1) →
  stays R (withPreparedTarget GOOS from to f) w.
Proof.
  intros HR HP Hw Hrem Hf.
  destruct (withPreparedTarget_result (λ w1, R w w1 ∧ P w1) GOOS from to f w) as [[[H _] _]|(w1 & [H1 H2] & Hq & _)].
  - intros w1 w2 Hq [H1 H2]. split; [etrans; [done|by apply HR]|by eapply HP].
  - intros w1 [H1 H2]. destruct (Hrem w1 H2) as [H3 H4]. split; [by etrans|done].
  - by split.
  - done.
  - unfold stays. etrans; [exact H1|]. etrans; [by apply (Hf w1)|by apply HR].
Qed.

(** What the function that was called inside did. *)
Lemma inWritableDir_result fn p w :
  let r := (inWritableDir fn p w).2 in let w' := (inWritableDir fn p w).1 in
  (quiet w w' ∧ ∃ e, r = inl e ∧ (IsNotExist e = true → direct (vw w) p → vw w !! p = None)) ∨
  ∃ w1, quiet w w1 ∧ quiet (fn p w1).1 w' ∧
    match (fn p w1).2 with inr _ => r = inr tt | inl e0 => ∃ e, r = inl e ∧ root e = root e0 end.
Proof.
  cbv zeta. unfold inWritableDir, mbind, M_bind.
  pose proof (quiet_Stat (Dir p) w) as Hq. pose proof (call_result (fs_Stat (Dir p)) w) as Hres.
  destruct (call (fs_Stat (Dir p)) w) as [w1 [e|info]]; cbn [fst snd] in *.
  { left. split; [done|]. exists e. split; [done|]. intros He Hd. by apply (Stat_gone (Dir p) (wDisk w) e p). }
  destruct (negb (IsDir info)) eqn:Hdir; [left; split; [done|by eexists]|].
  destruct (Z.land _ 128 =? 0).
  2:{ right. exists w1. split; [done|]. destruct (fn p w1) as [w2 [e|[]]]; cbn; [split; [done|]|done]. by exists e. }
  pose proof (quiet_Chmod (Dir p) (Z.lor (Z.land (iMode info) permBits) 448) w1) as Hq1. unfold attempt.
  destruct (Chmod (Dir p) _ w1) as [w2 made]. cbn [fst] in Hq1. right. exists w2. split; [by etrans|].
  destruct (fn p w2) as [w3 r]. cbn [fst snd].
  destruct made as [e|[]].
  - cbn. destruct r as [e'|[]]; cbn; [|done]. destruct (IsPermission e'); cbn; split; try done; by eexists.
  - pose proof (quiet_Chmod (Dir p) (Z.land (iMode info) permBits) w3) as Hq3.
    destruct (Chmod (Dir p) _ w3) as [w4 r4]. cbn [fst] in Hq3. cbn. destruct r as [e'|[]]; cbn; [|done]. split; [done|by eexists].
Qed.

(** A relation with what holds of the result. *)
Definition wp {A} (R : relation world) (m : M A) (w : world) (Q : A → world → Prop) : Prop :=
  R w (m w).1 ∧ ∀ a, (m w).2 = inr a → Q a (m w).1.
Lemma wp_bind {A B} (R : relation world) `{!PreOrder R} (m : M A) (k : A → M B) w Q Q' :
  wp R m w Q' → (∀ a w', R w w' → Q' a w' → wp R (k a) w' Q) → wp R (m ≫= k) w Q.
Proof.
  unfold wp, mbind, M_bind. intros [H1 H2] Hk. destruct (m w) as [w' [e|a]]; cbn in *; [by split|].
  destruct (Hk a w' H1 (H2 a eq_refl)) as [H3 H4]. split; [by etrans|done].
Qed.
Lemma wp_ret {A} (R : relation world) `{!PreOrder R} (a : A) w (Q : A → world → Prop) : Q a w → wp R (mret a) w Q.
Proof. intros H. split; [done|]. by intros a' [= <-]. Qed.
Lemma wp_stays {A} (R : relation world) (m : M A) w : stays R m w → wp R m w (λ _ _, True).
Proof. by intros H. Qed.
Lemma wp_mono {A} (R : relation world) (m : M A) w (Q Q' : A → world → Prop) :
  wp R m w Q → (∀ a w', R w w' → Q a w' → Q' a w') → wp R m w Q'.
Proof. intros [H1 H2] H. split; [done|]. intros a Ha. by apply H, H2. Qed.
Lemma wp_wrap {A} (R : relation world) c (m : M A) w (Q : A → world → Prop) : wp R m w Q → wp R (wrap c m) w Q.
Proof. unfold wp, wrap. destruct (m w) as [w' [e|a]]; intros [H1 H2]; by split. Qed.
Lemma wp_bind_stays {A B} (R : relation world) `{!PreOrder R} (m : M A) (k : A → M B) w Q' :
  wp R m w Q' → (∀ a w', R w w' → Q' a w' → stays R (k a) w') → stays R (m ≫= k) w.
Proof. intros [H1 H2] Hk. apply stays_bind; [done..|]. intros a Ha. by apply Hk; [|apply H2]. Qed.
Lemma wp_inWritableDir (R : relation world) `{!PreOrder R} fn p w (Q : world → Prop) :
  (∀ w w', quiet w w' → R w w') → (∀ w w', quiet w w' → Q w → Q w') →
  (∀ w1, quiet w w1 → wp R (fn p) w1 (λ _, Q)) → wp R (inWritableDir fn p) w (λ _, Q).
Proof.
  intros HR HQ Hfn. split; [apply stays_inWritableDir; [done..|]; intros w1 Hq; by apply (Hfn w1 Hq)|]. intros a E.
  destruct (inWritableDir_result fn p w) as [(_ & e & E' & _)|(w1 & Hq1 & Hq2 & Hres)]; [congruence|].
  destruct (Hfn w1 Hq1) as [_ H]. destruct ((fn p w1).2) as [e0|[]] eqn:E0.
  - destruct Hres as (e & E' & _). congruence.
  - eapply HQ; [exact Hq2|]. by apply (H tt).
Qed.

(** ** Symbolic links on the way *)

(** Names as the index holds them: clean, relative and not the folder itself. *)
Definition good_name (p : path) : Prop := ∃ es, es ≠ [] ∧ Forall normal es ∧ p = build false es.

Lemma tree_direct v p i : tree v → v !! p = Some i → direct v p.
Proof.
  intros Ht Hp q x l E Hl. destruct (Ht p i q x Hp E) as (j & Hj & Hd). assert (l = j) as -> by congruence.
  unfold IsDir, IsLink in *. apply Z.eqb_eq in Hd. rewrite Hd. done.
Qed.

Lemma Lstat_view p w : vw (Lstat p w).1 = vw w.
Proof. unfold Lstat. rewrite call_view. apply Lstat_reads. Qed.

Lemma join_split c l : join_byte c (split_byte c l) = l.
Proof.
  induction l as [|d l IH]; [done|]. cbn [split_byte]. pose proof (split_byte_nonempty c l) as Hne.
  destruct (split_byte c l) as [|p ps] eqn:E; [done|].
  destruct (Ascii.eqb_spec d c) as [->|Hd].
  - change (join_byte c ([] :: p :: ps)) with (c :: join_byte c (p :: ps)). by rewrite IH.
  - rewrite <-IH. by destruct ps.
Qed.

(** What lies above a path is one of its first elements. *)
Lemma above_prefix es q x : Forall normal es → build false es = q ++ sep :: x →
  ∃ k, (0 < k < length es)%nat ∧ q = build false (take k es).
Proof.
  intros Hes E. assert (Hne : es ≠ []).
  { intros ->. destruct q as [|c [|]]; injection E; [done|by intros|by intros]. }
  pose proof (split_build false es (Forall_normal_nf _ _ Hes)) as Hs.
  assert (Hraw : raw false es = es) by (by destruct es). rewrite Hraw, E, split_byte_app_sep in Hs.
  exists (length (split_byte sep q)).
  assert (Hq : split_byte sep q ≠ []) by apply split_byte_nonempty.
  assert (Hx : split_byte sep x ≠ []) by apply split_byte_nonempty. split.
  - rewrite <-Hs, length_app. destruct (split_byte sep q), (split_byte sep x); cbn; try done; lia.
  - rewrite <-Hs at 1. rewrite take_app_length. unfold build. by rewrite bool_decide_false, join_split.
Qed.

Definition above (es : list path) : path := if bool_decide (es = []) then [] else build false es.
Lemma Join_above es t : Forall normal es → normal t → Join [above es; t] = build false (es ++ [t]).
Proof.
  intros Hes Ht. unfold above. case_bool_decide as He.
  - subst es. change (Join [[]; t]) with (Join [t]). pose proof Ht as (Hn & _ & _ & Hs).
    change (Join [t]) with (if bool_decide (t = []) then [] else Clean t). rewrite bool_decide_false by done.
    apply (Clean_build false [t]). apply Forall_normal_nf. by apply Forall_singleton.
  - apply Join_build; [by apply Forall_normal_nf|done].
Qed.

(** Items above a path. *)
Definition dirs_above (v : gmap path item) (es : list path) : Prop :=
  ∀ k, (0 < k < length es)%nat → ∃ i, v !! build false (take k es) = Some i ∧ IsDir i = true.
Definition no_links_above (v : gmap path item) (es : list path) : Prop :=
  ∀ k, (0 < k < length es)%nat → ∀ l, v !! build false (take k es) = Some l → IsLink l = false.

Lemma no_links_direct v es : Forall normal es → no_links_above v es → direct v (build false es).
Proof. intros Hes H q x l (k & Hk & ->)%above_prefix Hl; [|done]. by apply (H k). Qed.
Lemma dirs_no_links v es : dirs_above v es → no_links_above v es.
Proof.
  intros H k Hk l Hl. destruct (H k Hk) as (i & Hi & Hd). assert (l = i) as -> by congruence.
  unfold IsDir, IsLink in *. apply Z.eqb_eq in Hd. by rewrite Hd.
Qed.

Lemma build_below es k : Forall normal es → (0 < k < length es)%nat →
  ∃ x, build false es = build false (take k es) ++ sep :: x.
Proof.
  intros Hes Hk. exists (join_byte sep (drop k es)). rewrite <-(take_drop k es) at 1. unfold build.
  assert (H1 : take k es ≠ []) by (destruct es, k; cbn in *; try lia; done).
  assert (H2 : drop k es ≠ []).
  { intros E. apply (f_equal length) in E. rewrite length_drop in E. cbn in E. lia. }
  rewrite !bool_decide_false by (try done; by intros [? ?]%app_eq_nil). generalize (drop k es) H2. clear H2 Hk Hes.
  generalize (take k es) H1. clear. intros l. induction l as [|a l IH]; intros Hl m Hm; [done|].
  destruct l as [|b l]; [by destruct m|]. rewrite <-!app_comm_cons.
  change (join_byte sep (a :: b :: l ++ m)) with (a ++ sep :: join_byte sep ((b :: l) ++ m)).
  change (join_byte sep (a :: b :: l)) with (a ++ sep :: join_byte sep (b :: l)).
  rewrite IH by done. by rewrite <-(assoc_L (++)).
Qed.

Lemma traverses_loop_ok parts es w :
  Forall normal (es ++ parts) → (∀ t, normal t → dirs_above (vw w) (es ++ [t])) →
  (traverses_loop (above es) parts w).2 = inr tt →
  ∀ t, normal t → no_links_above (vw w) (es ++ parts ++ [t]).
Proof.
  revert es w. induction parts as [|part parts IH]; intros es w Hn Hup; cbn [traverses_loop].
  { intros _ t Ht. by apply dirs_no_links, Hup. }
  pose proof Hn as [Hes [Hpart Hparts]%Forall_cons]%Forall_app. rewrite Join_above by done.
  unfold mbind, M_bind at 1, attempt. pose proof (Lstat_view (build false (es ++ [part])) w) as Hv.
  pose proof (call_result (fs_Lstat (build false (es ++ [part]))) w) as Hr. fold (Lstat (build false (es ++ [part]))) in Hr.
  destruct (Lstat (build false (es ++ [part])) w) as [w1 r]. cbn [fst snd] in *.
  assert (Hd : direct (vw w) (build false (es ++ [part]))).
  { apply no_links_direct; [apply Forall_app; by split; [|apply Forall_singleton]|by apply dirs_no_links, Hup]. }
  destruct r as [e|info].
  - destruct (IsNotExist e) eqn:He; [|done]. intros _ t Ht k Hk l Hl.
    assert (Hgone : vw w !! build false (es ++ [part]) = None).
    { apply (Lstat_gone _ (wDisk w) e); [done|]. unfold is_gone. by rewrite He. }
    destruct (decide (k ≤ length es)%nat) as [Hle|Hgt].
    + apply (dirs_no_links _ _ (Hup part Hpart) k); [rewrite length_app; cbn; lia|].
      rewrite take_app_le by done. by rewrite take_app_le in Hl.
    + assert (Hk' : take (S (length es)) (es ++ (part :: parts) ++ [t]) = es ++ [part]).
      { rewrite take_app_ge by lia. by replace (S (length es) - length es)%nat with 1%nat by lia. }
      destruct (decide (k = S (length es))) as [->|Hne].
      * rewrite Hk' in Hl. congruence.
      * exfalso. set (es' := take k (es ++ (part :: parts) ++ [t])) in Hl.
        assert (Hnes : Forall normal (es ++ (part :: parts) ++ [t])).
        { rewrite (assoc_L (++)). apply Forall_app. by split; [|apply Forall_singleton]. }
        assert (Hlen : length es' = k) by (unfold es'; rewrite length_take; lia).
        destruct (build_below es' (S (length es))) as [x Ex]; [by apply Forall_take|lia|].
        destruct (view_tree (wDisk w) _ l _ x Hl Ex) as (j & Hj & _).
        unfold es' in Hj. rewrite take_take in Hj. replace (S (length es) `min` k)%nat with (S (length es)) in Hj by lia.
        rewrite Hk' in Hj. congruence.
  - symmetry in Hr. apply Lstat_item in Hr; [|done].
    destruct (IsLink info); [done|]. destruct (negb (IsDir info)) eqn:Hdir; [done|]. apply negb_false_iff in Hdir.
    assert (Ea : build false (es ++ [part]) = above (es ++ [part])) by (unfold above; rewrite bool_decide_false; [done|by destruct es]).
    rewrite Ea. intros Hloop t Ht. rewrite <-Hv. replace (es ++ (part :: parts) ++ [t]) with ((es ++ [part]) ++ parts ++ [t]) by (by rewrite <-(assoc_L (++))).
    apply (IH _ w1); [by rewrite <-(assoc_L (++))| |done|done]. intros t' Ht' k Hk. rewrite Hv.
    rewrite !length_app in Hk. cbn [length] in Hk. destruct (decide (k ≤ length es)%nat) as [Hle|Hgt].
    + destruct (Hup part Hpart k) as (i & Hi & ?); [rewrite length_app; cbn; lia|]. exists i. split; [|done].
      rewrite <-(assoc_L (++)), take_app_le by done. by rewrite take_app_le in Hi.
    + assert (k = S (length es)) as -> by lia. exists info. split; [|done]. rewrite <-Hr. f_equal. f_equal.
      rewrite take_app_le by (rewrite length_app; cbn; lia). apply take_ge. rewrite length_app. cbn. lia.
Qed.

Lemma quiet_traverses at_ parts w : quiet w (traverses_loop at_ parts w).1.
Proof.
  revert at_ w. induction parts as [|part parts IH]; intros at_ w; [done|]. cbn [traverses_loop].
  apply (stays_bind quiet); [apply (stays_attempt quiet), quiet_Lstat|]. intros info _. rewrite attempt_world.
  destruct info as [e|info]; [destruct (IsNotExist e); stays_end|]. destruct (IsLink info); [stays_end|].
  destruct (negb (IsDir info)); [stays_end|]. apply IH.
Qed.
Lemma quiet_TraversesSymlink p w : quiet w (TraversesSymlink p w).1.
Proof. unfold TraversesSymlink. destruct (Canonicalize p); [|stays_end..].
  case_bool_decide; [stays_end|]. apply quiet_traverses. Qed.

Lemma good_parent p : good_name p → ∃ es t, Forall normal es ∧ normal t ∧ p = build false (es ++ [t]) ∧ Dir p = build false es.
Proof.
  intros (es & Hne & Hes & ->). destruct es as [|t es _] using rev_ind; [done|]. apply Forall_app in Hes as [Hes [Ht _]%Forall_cons].
  exists es, t. split_and!; [done..|]. apply Dir_build; [by apply Forall_normal_nf|done].
Qed.

(** Nothing above a name is a link when the test for its parent succeeds. *)
Lemma TraversesSymlink_direct p w : good_name p → (TraversesSymlink (Dir p) w).2 = inr tt → direct (vw w) p.
Proof.
  intros (es & t & Hes & Ht & -> & ->)%good_parent. unfold TraversesSymlink. rewrite Canonicalize_build by done.
  case_bool_decide as Hd.
  - intros _. destruct es as [|e es].
    + apply no_links_direct; [by apply Forall_singleton|]. intros k Hk. cbn in Hk. lia.
    + exfalso. apply (f_equal (split_byte sep)) in Hd. rewrite split_build in Hd by (by apply Forall_normal_nf).
      injection Hd as -> ->. apply Forall_cons in Hes as [(_ & H & _) _]. done.
  - unfold PathComponents. rewrite split_build by (by apply Forall_normal_nf). destruct es as [|e es]; [done|].
    change (raw false (e :: es)) with (e :: es). intros H. apply no_links_direct.
    + apply Forall_app. by split; [|apply Forall_singleton].
    + apply (traverses_loop_ok (e :: es) [] w); [done| |done|done]. intros t' _ k Hk. cbn in Hk. lia.
Qed.
End rules.
#[export] Hint Resolve quiet_Lstat quiet_Stat quiet_Chmod quiet_TraversesSymlink : effects.
