(* ===== verification/MapDisk.v ===== *)
(** * A file system on a finite map

    An implementation of the interface of Disk, so that what is proved against the
    interface can be run and holds of something: the items are a finite map whose
    paths lead through directories.  Paths through symbolic links are refused, and so
    are changes of the entries of a directory without the permission to write.  It
    stands for no code of the program; it shows that the laws can hold together. *)
From stdpp Require Import functions.
From S2P Require Import Prelude GoLib Vector Platform FileInfo Paths Disk.
From Stdlib Require Import Ascii.
From Stdlib Require String.

Local Open Scope Z_scope.

(** ** Items at paths *)

(** What a path leads through. *)
Fixpoint aboves (p : path) : list path :=
  match p with
  | [] => []
  | c :: r => (if Ascii.eqb c sep then [[]] else []) ++ map (cons c) (aboves r)
  end.
Lemma elem_aboves q p : q ∈ aboves p ↔ ∃ x, p = q ++ sep :: x.
Proof.
  revert q. induction p as [|c r IH]; intros q; cbn [aboves].
  { split; [by intros ?%elem_of_nil|]. intros [x E]. by destruct q. }
  rewrite elem_of_app, list_elem_of_fmap. split.
  - intros [H|(q' & -> & [x ->]%IH)]; [|by exists x]. destruct (Ascii.eqb_spec c sep) as [->|]; [|by apply elem_of_nil in H].
    apply list_elem_of_singleton in H as ->. by exists r.
  - intros [x E]. destruct q as [|d q]; injection E as -> E.
    + left. rewrite Ascii.eqb_refl. by left.
    + right. exists q. split; [done|]. apply IH. by exists x.
Qed.

Definition dir_at (v : gmap path item) (q : path) : bool := match v !! q with Some j => IsDir j | None => false end.
Definition tree_ok (v : gmap path item) : bool := bool_decide (map_Forall (λ p _, forallb (dir_at v) (aboves p) = true) v).
Lemma tree_ok_tree v : tree_ok v = true → tree v.
Proof.
  intros H%bool_decide_eq_true p i q x Hp E.
  pose proof (proj1 (forallb_forall (dir_at v) (aboves p)) (H p i Hp) q) as Hq.
  unfold dir_at in Hq. destruct (v !! q) as [j|].
  - exists j. split; [done|]. apply Hq, list_elem_of_In, elem_aboves. by exists x.
  - exfalso. discriminate Hq. apply list_elem_of_In, elem_aboves. by exists x.
Qed.

Definition directb (v : gmap path item) (p : path) : bool :=
  forallb (λ q, match v !! q with Some l => negb (IsLink l) | None => true end) (aboves p).

Definition normalb (e : path) : bool := negb (bool_decide (e = [])) && negb (bool_decide (e = dot)) &&
  negb (bool_decide (e = dotdot)) && negb (bool_decide (sep ∈ e)).
Lemma normalb_spec e : normalb e = true → normal e.
Proof. unfold normalb, normal. intros H. zb. by split_and!. Qed.
Definition good_path (p : path) : bool := forallb normalb (split_byte sep p).
Lemma good_path_spec p : good_path p = true → ∃ es, es ≠ [] ∧ Forall normal es ∧ p = build false es.
Proof.
  intros H. exists (split_byte sep p). pose proof (split_byte_nonempty sep p). split_and!; [done|..].
  - apply Forall_forall. intros e He. apply normalb_spec. apply (proj1 (forallb_forall normalb _) H). by apply list_elem_of_In.
  - unfold build. rewrite bool_decide_false by done. symmetry. apply join_split.
Qed.

Record mdisk := MkDisk { mv : gmap path item; m_ok : tree_ok mv = true }.
Definition denied {A} (d : mdisk) : fsres mdisk A := (d, inl ErrPermission).
Definition refused {A} (d : mdisk) : fsres mdisk A := (d, inl (ErrText "not supported")).
Definition commit (d : mdisk) (v : gmap path item) : fsres mdisk unit :=
  match decide (tree_ok v = true) with left H => (MkDisk v H, inr tt) | right _ => refused d end.

Definition writable (d : mdisk) (p : path) : bool :=
  match mv d !! Dir p with Some i => IsDir i && negb (Z.land (iMode i) 128 =? 0) | None => false end.

(** The item at a path, if the path is one that is followed. *)
Definition with_item {A} (p : path) (d : mdisk) (f : item → fsres mdisk A) : fsres mdisk A :=
  match mv d !! p with
  | Some i => if directb (mv d) p then f i else refused d
  | None => (d, inl ErrNotExist)
  end.
Definition m_change (f : item → item) (p : path) (d : mdisk) : fsres mdisk unit :=
  with_item p d (λ i, if IsLink i then refused d else commit d (<[p := f i]> (mv d))).

Definition is_child (p q : path) : bool := bool_decide (q = Join [p; default [] (last (split_byte sep q))]).

Definition m_Lstat (p : path) (d : mdisk) : fsres mdisk item := with_item p d (λ i, (d, inr i)).
Definition m_Stat (p : path) (d : mdisk) : fsres mdisk item :=
  match mv d !! p with
  | None => if bool_decide (Exists (λ q, Dir q = p) (map_to_list (mv d)).*1) then refused d else (d, inl ErrNotExist)
  | Some i => if IsLink i then refused d else (d, inr i)
  end.
Definition m_enter (p : path) (d : mdisk) (i : item) : fsres mdisk unit :=
  if negb (good_path p && directb (mv d) p) then refused d
  else match mv d !! p with
  | Some _ => (d, inl ErrExist)
  | None => if writable d p then commit d (<[p := i]> (mv d)) else denied d
  end.
Definition new_dir (mode : Z) : item := MkItem FileInfoTypeDirectory mode 0 [] [] no_platform.
Definition m_MkdirAll (p : path) (mode : Z) (d : mdisk) : fsres mdisk unit :=
  commit d (fold_left (λ v q, match v !! q with None => <[q := new_dir mode]> v | Some _ => v end) (aboves p ++ [p]) (mv d)).
Definition m_Remove (p : path) (d : mdisk) : fsres mdisk unit :=
  with_item p d (λ _,
    if negb (good_path p) then refused d
    else if bool_decide (Exists (λ q, is_child p q = true) (map_to_list (mv d)).*1) then (d, inl ErrExist)
    else if writable d p then commit d (delete p (mv d)) else denied d).
Definition m_Rename (p q : path) (d : mdisk) : fsres mdisk unit :=
  with_item p d (λ i,
    if negb (good_path q && directb (mv d) q) || IsDir i || dir_at (mv d) q then refused d
    else if writable d p && writable d q then commit d (<[q := i]> (delete p (mv d))) else denied d).
Definition m_ReadSymlink (p : path) (d : mdisk) : fsres mdisk (list Z) :=
  with_item p d (λ i, (d, if IsLink i then inr (iTarget i) else inl (ErrText "not a symlink"))).
Definition m_DirNames (p : path) (d : mdisk) : fsres mdisk (list path) :=
  (d, inr (filter (λ n, normalb n = true ∧ is_Some (mv d !! Join [p; n]))
       (map (λ q, default [] (last (split_byte sep q))) (filter (λ q, is_child p q = true) (map_to_list (mv d)).*1)))).
Definition m_Glob (pattern : path) (d : mdisk) : fsres mdisk (list path) :=
  (d, inr (filter (λ q, filepath_Match pattern q = Some true) (map_to_list (mv d)).*1)).
Definition m_CopyContents (p q : path) (d : mdisk) : fsres mdisk unit :=
  with_item p d (λ i,
    if negb (IsRegular i) || negb (good_path q && directb (mv d) q) then refused d
    else match mv d !! q with
    | Some j => if IsRegular j then commit d (<[q := (j <| iData := iData i |>)]> (mv d)) else refused d
    | None => if writable d q
              then commit d (<[q := MkItem FileInfoTypeFile 438 0 (iData i) [] no_platform]> (mv d)) else denied d
    end).
Definition set_owner (uid gid : string) (pd : PlatformData) : PlatformData :=
  MkPlatformData (Some (MkUnixData "" "" (default 0 (parse_uint64 (s2l uid))) (default 0 (parse_uint64 (s2l gid))))) (Windows pd) (Linux pd) (Darwin pd) (FreeBSD pd) (NetBSD pd).
Definition set_xattrs (xs : list Xattr) (pd : PlatformData) : PlatformData :=
  MkPlatformData (Unix pd) (Windows pd) (Some (MkXattrData xs)) (Darwin pd) (FreeBSD pd) (NetBSD pd).

#[export] Instance MapDisk : Filesystem := {|
  disk := mdisk;
  view := mv;
  fs_Lstat := m_Lstat;
  fs_Stat := m_Stat;
  fs_Chmod p mode := m_change (λ i, i <| iMode := mode |>) p;
  fs_Chtimes p t := m_change (λ i, i <| iTime := t |>) p;
  fs_SetXattr p xs _ := m_change (λ i, i <| iPlatform := set_xattrs xs (iPlatform i) |>) p;
  fs_Lchown p u g := m_change (λ i, i <| iPlatform := set_owner u g (iPlatform i) |>) p;
  fs_Mkdir p mode d := m_enter p d (new_dir mode);
  fs_MkdirAll := m_MkdirAll;
  fs_Remove := m_Remove;
  fs_Rename := m_Rename;
  fs_CreateSymlink t p d := m_enter p d (MkItem FileInfoTypeSymlink 511 0 [] t no_platform);
  fs_ReadSymlink := m_ReadSymlink;
  fs_PlatformData p _ _ _ d := with_item p d (λ i, (d, inr (iPlatform i)));
  fs_DirNames := m_DirNames;
  fs_Glob := m_Glob;
  fs_CopyContents := m_CopyContents;
|}.

(** Letters of ASCII without their case. *)
Definition lower_byte (c : ascii) : ascii :=
  if (65 <=? byte_val c) && (byte_val c <=? 90) then byte_chr (byte_val c + 32) else c.
Definition ascii_fold : UnicodeFold := λ a b, bool_decide (map lower_byte a = map lower_byte b).

(** ** The laws *)
Lemma directb_spec v p : directb v p = true ↔ direct v p.
Proof.
  unfold directb. rewrite forallb_forall. split.
  - intros H q x l E Hl. specialize (H q). rewrite Hl in H. apply negb_true_iff, H, list_elem_of_In, elem_aboves. by exists x.
  - intros H q Hq%list_elem_of_In%elem_aboves. destruct Hq as [x E]. destruct (v !! q) as [l|] eqn:El; [|done].
    by rewrite (H q x l).
Qed.

Definition denies {A} (d : mdisk) (r : fsres mdisk A) : Prop := ∃ e, r = (d, inl e) ∧ is_gone e = false.
Lemma commit_cases d v : (∃ H, commit d v = (MkDisk v H, inr tt)) ∨ denies d (commit d v).
Proof. unfold commit. destruct (decide _) as [H|H]; [left; by exists H|right; by eexists]. Qed.
Lemma with_item_cases {A} p d (f : item → fsres mdisk A) :
  (∃ i, mv d !! p = Some i ∧ directb (mv d) p = true ∧ with_item p d f = f i) ∨
  denies d (with_item p d f) ∨ (mv d !! p = None ∧ with_item p d f = (d, inl ErrNotExist)).
Proof.
  unfold with_item. destruct (mv d !! p) as [i|] eqn:E; [|by right; right].
  destruct (directb (mv d) p) eqn:Hd; [left; by exists i|right; left; by eexists].
Qed.

(** What an operation can do: nothing, or put another map in place. *)
Ltac outcomes := repeat match goal with
  | |- context [with_item ?p ?d ?f] => destruct (with_item_cases p d f) as [(?i & ? & ? & ->)|[(?e & -> & ?)|[? ->]]]
  | |- context [commit ?d ?v] => destruct (commit_cases d v) as [[? ->]|(?e & -> & ?)]
  | |- context [if ?b then _ else _] => destruct b eqn:?
  end; cbn [fst snd mv denied refused].

Lemma m_change_meta f p d : (∀ i, same_content i (f i)) → meta_only (mv d) (mv (m_change f p d).1).
Proof.
  intros Hf. unfold m_change. outcomes; try apply meta_only_refl. intros q. destruct (decide (q = p)) as [->|Hne].
  - rewrite lookup_insert_eq, H. apply Hf.
  - rewrite lookup_insert_ne by done. apply meta_only_refl.
Qed.
Lemma m_enter_ok p i d : (m_enter p d i).2 = inr tt →
  mv d !! p = None ∧ mv (m_enter p d i).1 = <[p := i]> (mv d).
Proof.
  unfold m_enter. destruct (negb _); [done|]. destruct (mv d !! p) as [j|]; [done|]. outcomes; try done.
Qed.
Lemma m_enter_fails p i d e : (m_enter p d i).2 = inl e → mv (m_enter p d i).1 = mv d.
Proof. unfold m_enter. destruct (negb _); [done|]. destruct (mv d !! p) as [j|]; [done|]. outcomes; done. Qed.

Lemma m_MkdirAll_adds p mode d q : mv (m_MkdirAll p mode d).1 !! q = mv d !! q ∨
  (mv d !! q = None ∧ ∃ i, IsDir i = true ∧ mv (m_MkdirAll p mode d).1 !! q = Some i).
Proof.
  unfold m_MkdirAll. destruct (commit_cases d (fold_left
    (λ v q0, match v !! q0 with None => <[q0 := new_dir mode]> v | Some _ => v end) (aboves p ++ [p]) (mv d))) as [[H ->]|(e & -> & _)]; [|by left].
  cbn [fst mv]. clear H. generalize (mv d) as v. induction (aboves p ++ [p]) as [|r ps IH]; intros v; cbn [fold_left]; [by left|].
  destruct (v !! r) as [j|] eqn:E; [apply IH|]. destruct (IH (<[r := new_dir mode]> v)) as [->|[Hn (i & Hi & ->)]].
  - destruct (decide (q = r)) as [->|Hne]; [|rewrite lookup_insert_ne by done; by left].
    right. split; [done|]. exists (new_dir mode). by rewrite lookup_insert_eq.
  - destruct (decide (q = r)) as [->|Hne]; [by rewrite lookup_insert_eq in Hn|]. rewrite lookup_insert_ne in Hn by done. eauto.
Qed.

Lemma Join_child es n : Forall normal es → normal n → is_child (build false es) (Join [build false es; n]) = true.
Proof.
  intros Hes Hn. unfold is_child. apply bool_decide_eq_true. rewrite Join_build by (done || by apply Forall_normal_nf).
  rewrite split_build by (apply Forall_normal_nf, Forall_app; by split; [|apply Forall_singleton]).
  assert (Hraw : raw false (es ++ [n]) = es ++ [n]) by (by destruct es). rewrite Hraw, last_snoc. change (default [] (Some n)) with n.
  symmetry. apply Join_build; [by apply Forall_normal_nf|done].
Qed.
Lemma in_keys (v : gmap path item) q i : v !! q = Some i → q ∈ (map_to_list v).*1.
Proof. intros H. apply list_elem_of_fmap. exists (q, i). split; [done|]. by apply elem_of_map_to_list. Qed.

Lemma m_Remove_ok p d : (m_Remove p d).2 = inr tt →
  mv (m_Remove p d).1 = delete p (mv d) ∧ ∀ name, normal name → mv d !! Join [p; name] = None.
Proof.
  unfold m_Remove. outcomes; try done. intros _. split; [done|]. intros name Hn.
  apply negb_false_iff, good_path_spec in Heqb as (es & _ & Hes & ->). apply eq_None_not_Some. intros [j Hj].
  apply bool_decide_eq_false in Heqb0. apply Heqb0. apply Exists_exists. exists (Join [build false es; name]).
  split; [by eapply in_keys|by apply Join_child].
Qed.
Lemma m_Rename_ok p q d : (m_Rename p q d).2 = inr tt →
  ∃ i, mv d !! p = Some i ∧ mv (m_Rename p q d).1 = <[q := i]> (delete p (mv d)).
Proof. unfold m_Rename. outcomes; try done. eauto. Qed.

(** Reading, and failing. *)
Lemma with_item_reads {A} p d (f : item → ferr + A) : mv (with_item p d (λ i, (d, f i))).1 = mv d.
Proof. by outcomes. Qed.
Lemma not_gone e : IsNotExist e = true → is_gone e = true.
Proof. unfold is_gone. by intros ->. Qed.
Lemma m_Lstat_gone p d e : (m_Lstat p d).2 = inl e → is_gone e = true → mv d !! p = None.
Proof. unfold m_Lstat. outcomes; [done| |done]. intros [= ->]. congruence. Qed.
Lemma m_Stat_gone p d e q : (m_Stat p d).2 = inl e → IsNotExist e = true → Dir q = p → mv d !! q = None.
Proof.
  unfold m_Stat. destruct (mv d !! p) as [i|]; [destruct (IsLink i); [by intros [= <-]|done]|].
  case_bool_decide as Hex; [by intros [= <-]|]. intros _ _ Hq. apply eq_None_not_Some. intros [j Hj]. apply Hex, Exists_exists.
  exists q. split; [by eapply in_keys|done].
Qed.
Lemma m_Remove_fails p d e : (m_Remove p d).2 = inl e → mv (m_Remove p d).1 = mv d ∧ (IsNotExist e = true → mv d !! p = None).
Proof.
  unfold m_Remove. outcomes; try done; intros [= <-]; (split; [done|]); try done; intros Hn; try discriminate Hn; apply not_gone in Hn; congruence.
Qed.
Lemma m_Rename_fails p q d e : (m_Rename p q d).2 = inl e → mv (m_Rename p q d).1 = mv d ∧ (IsNotExist e = true → mv d !! p = None).
Proof.
  unfold m_Rename. outcomes; try done; intros [= <-]; (split; [done|]); try done; intros Hn; try discriminate Hn; apply not_gone in Hn; congruence.
Qed.
Lemma m_DirNames_there p d names name : (m_DirNames p d).2 = inr names → name ∈ names →
  normal name ∧ is_Some (mv d !! Join [p; name]).
Proof. intros [= <-] [[Hn ?] _]%list_elem_of_filter. split; [by apply normalb_spec|done]. Qed.
Lemma m_CopyContents_to p q d r : r ≠ q → mv (m_CopyContents p q d).1 !! r = mv d !! r.
Proof.
  intros Hr. unfold m_CopyContents. destruct (mv d !! q) as [j|]; outcomes; first [done|by rewrite lookup_insert_ne].
Qed.
Lemma m_CopyContents_ok p q d i : mv d !! p = Some i → (m_CopyContents p q d).2 = inr tt →
  ∃ i', mv (m_CopyContents p q d).1 !! q = Some i' ∧ IsDir i' = false ∧ iData i' = iData i.
Proof.
  intros Hi. unfold m_CopyContents. destruct (mv d !! q) as [j|]; outcomes; try done; intros _; rewrite lookup_insert_eq;
    (eexists; split; [done|]); [|split; [done|cbn; congruence]].
  split; [|cbn; congruence]. match goal with H : IsRegular j = true |- _ => apply andb_true_iff in H as [H%negb_true_iff _]; exact H end.
Qed.

#[export] Instance MapDiskLaws : FilesystemLaws MapDisk.
Proof.
  split; intros; cbn [view fs_Lstat fs_Stat fs_Chmod fs_Chtimes fs_SetXattr fs_Lchown fs_Mkdir fs_MkdirAll fs_Remove fs_Rename
    fs_CreateSymlink fs_ReadSymlink fs_PlatformData fs_DirNames fs_Glob fs_CopyContents MapDisk disk] in *.
  - apply tree_ok_tree, m_ok.
  - intros d. apply with_item_reads.
  - revert H0. unfold m_Lstat. outcomes; congruence.
  - by eapply m_Lstat_gone.
  - intros d. cbn. unfold m_Stat. by repeat case_match.
  - by eapply m_Stat_gone.
  - intros d. apply (with_item_reads p d (λ i, if IsLink i then inr (iTarget i) else inl (ErrText "not a symlink"))).
  - intros d. apply with_item_reads.
  - by intros d.
  - by eapply m_DirNames_there.
  - by intros d.
  - injection H as <-. apply list_elem_of_filter in H0 as [? Hq]. split; [done|].
    apply list_elem_of_fmap in Hq as ([q' i] & -> & Hq). exists i. by apply elem_of_map_to_list.
  - injection H as <-. apply NoDup_filter, NoDup_fst_map_to_list.
  - by apply m_change_meta.
  - by apply m_change_meta.
  - by apply m_change_meta.
  - by apply m_change_meta.
  - destruct (m_enter_ok _ _ _ H0). split; [done|]. by exists (new_dir mode).
  - by eapply m_enter_fails.
  - apply m_MkdirAll_adds.
  - by apply m_Remove_ok.
  - by eapply m_Remove_fails.
  - by eapply m_Remove_fails.
  - destruct (m_Rename_ok _ _ _ H1) as (i & ? & ?). by exists i.
  - by eapply m_Rename_fails.
  - by eapply m_Rename_fails.
  - destruct (m_enter_ok _ _ _ H0). split; [done|]. by eexists (MkItem FileInfoTypeSymlink 511 0 [] t no_platform).
  - by eapply m_enter_fails.
  - by apply m_CopyContents_to.
  - by eapply m_CopyContents_ok.
Qed.
