(* ===== verification/Puller.v ===== *)
(** * Items the puller puts on disk ([src/lib/model/folder_sendrecv.go])

    A folder that receives makes the items on its disk what the index says: it
    creates directories and links, deletes, renames, replaces files by finished
    temporary ones.  Before it touches an item it compares it with the record of the
    database, so that what was changed behind the program's back is scanned first.
    The file translates these operations over the interface of the file system
    (Disk), with everything they check; operations run one after the other, and nothing
    else changes the disk meanwhile.  It proves that nothing is lost on the way: an item
    that disappears was known to the database with the same metadata and not in conflict
    with the new version, or is a temporary file, a deletable ignored one or an old
    conflict copy, and an item in conflict is kept as a copy; that changed items stay;
    and that a finished file is in place when the database is told of it. *)
From S2P Require Import Prelude GoLib Vector DeviceID Platform FileInfo Paths Disk Base32.
From S2P Require Import FolderConfig.
From S2P Require Import MapDisk.
From S2P Require Ignore.
From Stdlib Require Import Ascii.
From Stdlib Require String.

Local Open Scope Z_scope.

(** ** Names and errors *)
Definition fname (f : FileInfo) : path := s2l (fName f).

Definition dbUpdateHandleDir : Z := 0.
Definition dbUpdateDeleteDir : Z := 1.
Definition dbUpdateHandleFile : Z := 2.
Definition dbUpdateDeleteFile : Z := 3.
Definition dbUpdateShortcutFile : Z := 4.
Definition dbUpdateHandleSymlink : Z := 5.
Definition dbUpdateInvalidate : Z := 6.

Definition retainBits : Z := Z.lor (Z.lor ModeSetgid ModeSetuid) ModeSticky.

Definition errDirPrefix : string := "directory has been deleted on a remote device but ".
Definition errDirHasToBeScanned : ferr := ErrText (errDirPrefix +:+ "contains changed files, scheduling scan").
Definition errDirHasIgnored : ferr :=
  ErrText (errDirPrefix +:+ "contains ignored files (see ignore documentation for (?d) prefix)").
Definition errDirNotEmpty : ferr :=
  ErrText (errDirPrefix +:+ "is not empty; the contents are probably ignored on that remote device, but not locally").
Definition errNotAvailable : ferr := ErrText "no connected device has the required version of this file".
Definition errModified : ferr := ErrText "file modified but not rescanned; will try again later".
Definition errUnexpectedDirOnFileDel : ferr := ErrText "encountered directory when trying to remove file/symlink".
Definition errIncompatibleSymlink : ferr := ErrText "incompatible symlink entry; rescan with newer Syncthing on source".
Definition contextRemovingOldItem : string := "removing item to be replaced".

(** ** Conflict copies *)

(** [filepath.Ext] *)
Fixpoint ext_loop (rest acc : path) : path :=
  match rest with
  | [] => []
  | c :: rest =>
      if Ascii.eqb c sep then []
      else if Ascii.eqb c "."%char then c :: acc else ext_loop rest (c :: acc)
  end.
Definition Ext (p : path) : path := ext_loop (rev p) [].

Definition conflictMark : path := s2l ".sync-conflict-".
(** [stamp] is the time as [20060102-150405]. *)
Definition conflictName (stamp name lastModBy : path) : path :=
  let ext := Ext name in
  take (length name - length ext) name ++ conflictMark ++ stamp ++ s2l "-" ++ lastModBy ++ ext.
Definition isConflict (name : path) : bool := containsb conflictMark (Base name).
Definition conflictPattern (name : path) : path :=
  let ext := Ext name in
  take (length name - length ext) name ++ conflictMark ++ s2l "????????-??????*" ++ ext.

(** [strings.Compare] as an order. *)
Definition path_lt (a b : path) : bool := bytes_le a b && negb (bool_decide (a = b)).

Section puller.
Context {F : Filesystem} {UF : UnicodeFold}.
(** The configuration of the folder, the system, the ignore patterns, the records of
    the local device, where old versions are moved, the time of a conflict, the users
    and groups of the system, and how far a walk may go down. *)
Context (cfg : FolderConfiguration) (modTimeWindow : Z) (GOOS : string).
Context (ignoreMatch : path → Z) (sdb : path → ferr + option FileInfo).
Context (versioner : option (path → M unit)) (stamp : path).
Context (lookup_user lookup_group : string → option string) (tempName : path → path) (depth : nat).

(** *** Errors and comparisons *)

(** The first error of a path is kept. *)
Definition newPullError (p : path) (e : ferr) : M unit := λ w,
  match wErrors w !! p with
  | Some _ => (w, inr tt)
  | None => (w <| wErrors := <[p := e]> (wErrors w) |>, inr tt)
  end.

Definition comparison (fromDelete : bool) : FileInfoComparison :=
  MkFileInfoComparison modTimeWindow (fcIgnorePerms cfg) true LocalAllFlags
    (fromDelete || negb (fcSyncOwnership cfg)) (fromDelete || negb (fcSyncXattrs cfg)).

(** The platform data of a new record are the same pointers only when all are nil. *)
Definition equivalent (f other : FileInfo) (fromDelete : bool) : bool :=
  isEquivalent GOOS (bool_decide (fPlatform f = no_platform ∧ fPlatform other = no_platform)) f other (comparison fromDelete).

Definition filter_of : xattrFilter :=
  MkFilter (Permit (λ pattern name, filepath_Match (s2l pattern) (s2l name)) (fcXattrFilter cfg))
    (xfMaxSingleEntrySize (fcXattrFilter cfg)) (xfMaxTotalSize (fcXattrFilter cfg)).
Definition fileInfo_of (stat : item) (p : path) : M FileInfo :=
  CreateFileInfo stat p (fcSyncOwnership cfg) (fcSyncXattrs cfg) filter_of.

(** [GetDeviceFile] for the local device; a record that does not exist is empty. *)
Definition GetLocalFile (p : path) : M (FileInfo * bool) :=
  match sdb p with
  | inl e => throw e
  | inr (Some f) => mret (f, true)
  | inr None => mret (zero_record "", false)
  end.

Definition scanIfItemChanged (name : path) (stat : item) (it : FileInfo) (hasItem fromDelete : bool) : M unit :=
  let! r := attempt
    (if negb hasItem || fDeleted it then throw errModified
     else
       let! statItem := wrap "comparing item on disk to db" (fileInfo_of stat (fname it)) in
       if equivalent statItem it fromDelete then mret tt else throw errModified) in
  match r with
  | inl e =>
      if bool_decide (root e = errModified) then (let! _ := scan name in throw e) else throw e
  | inr _ => mret tt
  end.

Definition checkToBeDeleted (file cur : FileInfo) (hasCur : bool) : M unit :=
  let! t := attempt (TraversesSymlink (Dir (fname file))) in
  match t with
  | inl _ => throw ErrNotExist
  | inr _ =>
      let! stat := attempt (Lstat (fname file)) in
      match stat with
      | inl e =>
          if is_gone e then
            if hasCur && negb (fDeleted cur) && negb (IsUnsupported cur)
            then let! _ := scan (fname file) in throw errModified
            else throw e
          else throw e
      | inr stat => scanIfItemChanged (fname file) stat cur hasCur true
      end
  end.

(** *** Deleting directories *)

(** What is found below a directory. *)
Record children := MkChildren {
  dirsToDelete : list path;
  hasIgnored : bool;
  hasKnown : bool;
  hasToBeScanned : bool;
  hasReceiveOnlyChanged : bool;
  delErr : option ferr;
}.
#[export] Instance eta_children : Eta children := λ r,
  MkChildren (dirsToDelete r) (hasIgnored r) (hasKnown r) (hasToBeScanned r) (hasReceiveOnlyChanged r) (delErr r).

Definition note_delErr (l : children) (r : ferr + unit) : children :=
  match r, delErr l with inl e, None => l <| delErr := Some e |> | _, _ => l end.
Definition to_be_scanned (p : path) (l : children) : M (children * option ferr) :=
  let! _ := scan p in mret (l <| hasToBeScanned := true |>, None).

Definition visit_child (dir p : path) (info : ferr + item) (l : children) : M (children * option ferr) :=
  if bool_decide (p = dir) then mret (l, None)
  else match info with
  | inl e => mret (l, Some e)
  | inr info =>
      let match_ := ignoreMatch p in
      if Ignore.IsDeletable match_ && IsDir info then mret (l <| dirsToDelete := dirsToDelete l ++ [p] |>, None)
      else if Ignore.IsDeletable match_ || IsTemporary p then
        let! r := attempt (Remove p) in mret (note_delErr l r, None)
      else if Ignore.IsIgnored match_ then mret (l <| hasIgnored := true |>, None)
      else match sdb p with
      | inl e => mret (l, Some e)
      | inr None => to_be_scanned p l
      | inr (Some cf) =>
          if IsDeleted cf then to_be_scanned p l
          else if (fcType cfg =? FolderTypeReceiveOnly) && IsReceiveOnlyChanged cf
          then mret (l <| hasReceiveOnlyChanged := true |>, None)
          else
            let! diskFile := attempt (fileInfo_of info p) in
            match diskFile with
            | inl _ => to_be_scanned p l
            | inr diskFile =>
                if equivalent cf diskFile false then mret (l <| hasKnown := true |>, None) else to_be_scanned p l
            end
      end
  end.

Fixpoint remove_dirs (dirs : list path) (l : children) : M children :=
  match dirs with
  | [] => mret l
  | d :: dirs => let! r := attempt (Remove d) in remove_dirs dirs (note_delErr l r)
  end.

Definition deleteDirOnDiskHandleChildren (dir : path) : M unit :=
  let! (l, err) := Walk (visit_child dir) depth dir (MkChildren [] false false false false None) in
  match err with
  | Some e => throw e
  | None =>
      let! l := remove_dirs (rev (dirsToDelete l)) l in
      if hasToBeScanned l then throw errDirHasToBeScanned
      else if hasIgnored l then throw errDirHasIgnored
      else if hasReceiveOnlyChanged l then scan dir
      else if hasKnown l then throw errDirNotEmpty
      else match delErr l with Some e => throw e | None => mret tt end
  end.

Definition deleteDirOnDisk (dir : path) : M unit :=
  let! _ := TraversesSymlink (Dir dir) in
  let! _ := deleteDirOnDiskHandleChildren dir in
  let! r := attempt (inWritableDir Remove dir) in
  match r with
  | inr _ => mret tt
  | inl e =>
      if IsNotExist e then mret tt
      else
        let! s := attempt (Lstat dir) in
        match s with
        | inl serr => if IsPermission serr then throw e else mret tt
        | inr _ => throw e
        end
  end.

(** *** Conflicts and replaced items *)
Definition existingConflicts (name : path) : M (list path) :=
  let! r := attempt (call (fs_Glob (conflictPattern name))) in
  mret match r with inr matches_ => matches_ | inl _ => [] end.

Fixpoint remove_all (ps : list path) : M unit :=
  match ps with
  | [] => mret tt
  | p :: ps => let! _ := attempt (Remove p) in remove_all ps
  end.

(** Removing what is no conflict copy of its own. *)
Definition remove_instead (name : path) : M unit :=
  let! r := attempt (Remove name) in
  match r with
  | inl e => if IsNotExist e then mret tt else throw (Wrapped contextRemovingOldItem e)
  | inr _ => mret tt
  end.

Definition moveForConflict (lastModBy name : path) : M unit :=
  if isConflict name then remove_instead name
  else if fcMaxConflicts cfg =? 0 then remove_instead name
  else
    let newName := conflictName stamp name lastModBy in
    let! r := attempt (call (fs_Rename name newName)) in
    let err := match r with inl e => if IsNotExist e then None else Some e | inr _ => None end in
    let! _ :=
      if -1 <? fcMaxConflicts cfg then
        let! matches_ := existingConflicts name in
        if fcMaxConflicts cfg <? Z.of_nat (length matches_)
        then remove_all (drop (Z.to_nat (fcMaxConflicts cfg)) (sort_by (λ a b, path_lt b a) matches_))
        else mret tt
      else mret tt in
    match err with
    | None => scan newName
    | Some e => throw e
    end.

Definition modifiedBy (file : FileInfo) : path := ShortID_String (fModifiedBy file).

Definition deleteItemOnDisk (it : FileInfo) : M unit :=
  wrap contextRemovingOldItem
    (if IsDirectory it then deleteDirOnDisk (fname it)
     else match versioner with
          | Some Archive => if negb (IsSymlink it) then inWritableDir Archive (fname it) else inWritableDir Remove (fname it)
          | None => inWritableDir Remove (fname it)
          end).

(** *** Metadata *)
(** [strconv.Itoa] *)
Definition Itoa (z : Z) : string := l2s (if z <? 0 then "-"%char :: dec_encode (- z) else dec_encode z).
Definition syncOwnership (file : FileInfo) (p : path) : M unit :=
  match Unix (fPlatform file) with
  | None => mret tt
  | Some u =>
      let id number name lookup :=
        if bool_decide (name = ""%string) then Itoa number
        else match lookup name with
             | Some found => if bool_decide (found = ""%string) then Itoa number else found
             | None => Itoa number
             end in
      call (fs_Lchown p (id (UID u) (OwnerName u) lookup_user) (id (GID u) (GroupName u) lookup_group))
  end.

(** The owner of the parent directory, by its numbers. *)
Definition copyOwnershipFromParent (p : path) : M unit :=
  if IsWindows GOOS then mret tt
  else
    let! info := wrap "copy owner from parent" (Lstat (Dir p)) in
    let u := default (MkUnixData "" "" 0 0) (Unix (iPlatform info)) in
    wrap "copy owner from parent" (call (fs_Lchown p (Itoa (UID u)) (Itoa (GID u)))).

Definition setPlatformData (file : FileInfo) (name : path) : M unit :=
  let! _ :=
    if fcSyncXattrs cfg then
      let! r := attempt (call (fs_SetXattr name (Platform_Xattrs GOOS (fPlatform file)) filter_of)) in
      match r with
      | inl e => if bool_decide (root e = ErrXattrsNotSupported) then mret tt else throw e
      | inr _ => mret tt
      end
    else mret tt in
  if fcSyncOwnership cfg then syncOwnership file name
  else if fcCopyOwnershipFromParent cfg then copyOwnershipFromParent name
  else mret tt.

(** *** Creating and deleting items *)

(** What [checkParent] finds decides whether the item is looked at. *)
Definition checkParent (file : path) : M bool :=
  let parent := Dir file in
  let! t := attempt (TraversesSymlink parent) in
  match t with
  | inl e => let! _ := newPullError file (Wrapped "checking parent dirs" e) in mret false
  | inr _ =>
      let! info := attempt (Lstat parent) in
      let missing := match info with inl e => IsNotExist e | inr _ => false end in
      if negb missing then mret true
      else
        let! r := attempt (call (fs_MkdirAll parent 493)) in
        match r with
        | inl e => let! _ := newPullError file (Wrapped "creating parent dir" e) in mret false
        | inr _ =>
            let! _ := (if negb (fcType cfg =? FolderTypeReceiveEncrypted) then scan parent else mret tt) in
            mret true
        end
  end.

(** Reporting an error for a file and ending. *)
Definition failing (file : FileInfo) (context : string) (m : M unit) : M bool :=
  let! r := attempt m in
  match r with
  | inl e => let! _ := newPullError (fname file) (Wrapped context e) in mret false
  | inr _ => mret true
  end.

(** What is in the way of a new item goes: a file that is in conflict is kept as a
    copy.  [links] says whether links are told apart from directories here. *)
Definition replace_old (file curFile : FileInfo) (checkDir : bool) : M unit :=
  if (negb checkDir || negb (IsDirectory curFile)) && negb (IsSymlink curFile) && InConflictWith file curFile
  then inWritableDir (moveForConflict (modifiedBy file)) (fname curFile)
  else deleteItemOnDisk curFile.

Definition dir_mode (file : FileInfo) : Z :=
  if fcIgnorePerms cfg || fNoPermissions file then 511 else Z.land (fPermissions file) 511.

Definition mkdir (file : FileInfo) (p : path) : M unit :=
  let! _ := call (fs_Mkdir p (dir_mode file)) in
  let! _ := setPlatformData file p in
  if fcIgnorePerms cfg || fNoPermissions file then mret tt
  else
    let! info := Lstat p in
    Chmod p (Z.lor (dir_mode file) (Z.land (iMode info) retainBits)).

Definition create_dir (file : FileInfo) : M unit :=
  let! ok := failing file "creating directory" (inWritableDir (mkdir file) (fname file)) in
  if ok : bool then update file dbUpdateHandleDir else mret tt.

(** The way to a new directory over what is no directory. *)
Definition clear_for_dir (file : FileInfo) (info : item) : M bool :=
  let! r := attempt (GetLocalFile (fname file)) in
  match r with
  | inl e => let! _ := newPullError (fname file) (Wrapped "handling dir" e) in mret false
  | inr (curFile, hasCurFile) =>
      let! ok := failing file "handling dir" (scanIfItemChanged (fname file) info curFile hasCurFile false) in
      if ok : bool then
        let! r := attempt (replace_old file curFile false) in
        match r with
        | inl e => let! _ := newPullError (fname file) e in mret false
        | inr _ => mret true
        end
      else mret false
  end.

Definition handleDir (file : FileInfo) : M unit :=
  let! r := attempt (Lstat (fname file)) in
  match r with
  | inr info =>
      if negb (IsDir info) then
        let! ok := clear_for_dir file info in
        if ok : bool then create_dir file else mret tt
      else if negb (fcIgnorePerms cfg) && negb (fNoPermissions file) then
        let! ok := failing file "handling dir (setting permissions)"
          (Chmod (fname file) (Z.lor (dir_mode file) (Z.land (iMode info) retainBits))) in
        if ok : bool then
          let! ok := failing file "handling dir (setting metadata)" (setPlatformData file (fname file)) in
          if ok : bool then update file dbUpdateHandleDir else mret tt
        else mret tt
      else update file dbUpdateHandleDir
  | inl e =>
      if IsNotExist e then create_dir file
      else newPullError (fname file) (Wrapped "checking file to be replaced" e)
  end.

Definition handleSymlinkCheckExisting (file : FileInfo) : M unit :=
  let! r := attempt (Lstat (fname file)) in
  match r with
  | inl e => if IsNotExist e then mret tt else throw e
  | inr info =>
      let! (curFile, hasCurFile) := GetLocalFile (fname file) in
      let! _ := scanIfItemChanged (fname file) info curFile hasCurFile false in
      replace_old file curFile true
  end.

Definition create_link (file : FileInfo) (p : path) : M unit :=
  let! _ := call (fs_CreateSymlink (fSymlinkTarget file) p) in
  setPlatformData file p.

Definition handleSymlink (file : FileInfo) : M unit :=
  if bool_decide (fSymlinkTarget file = []) then newPullError (fname file) errIncompatibleSymlink
  else
    let! ok := failing file "handling symlink" (handleSymlinkCheckExisting file) in
    if ok : bool then
      let! ok := failing file "symlink create" (inWritableDir (create_link file) (fname file)) in
      if ok : bool then update file dbUpdateHandleSymlink else mret tt
    else mret tt.

(** The two ways a deletion ends early: there is nothing to delete, or an error. *)
Definition not_deleted (file : FileInfo) (context : string) (jobType : Z) (e : ferr) : M unit :=
  if is_gone e then update file jobType else newPullError (fname file) (Wrapped context e).

Definition deleteDir (file : FileInfo) : M unit :=
  let! r := attempt (GetLocalFile (fname file)) in
  match r with
  | inl e => newPullError (fname file) (Wrapped "delete dir" e)
  | inr (cur, hasCur) =>
      let! r := attempt (checkToBeDeleted file cur hasCur) in
      match r with
      | inl e => not_deleted file "delete dir" dbUpdateDeleteDir e
      | inr _ =>
          let! ok := failing file "delete dir" (deleteDirOnDisk (fname file)) in
          if ok : bool then update file dbUpdateDeleteDir else mret tt
      end
  end.

(** The file goes to a conflict copy, to the old versions, or away. *)
Definition delete_item (file cur : FileInfo) : M unit :=
  if InConflictWith file cur && negb (IsSymlink cur)
  then inWritableDir (moveForConflict (modifiedBy file)) (fname cur)
  else match versioner with
       | Some Archive =>
           if negb (IsSymlink cur) then inWritableDir Archive (fname file) else inWritableDir Remove (fname file)
       | None => inWritableDir Remove (fname file)
       end.

Definition deleteFileWithCurrent (file cur : FileInfo) (hasCur : bool) : M unit :=
  let! r := attempt (checkToBeDeleted file cur hasCur) in
  match r with
  | inl e => not_deleted file "delete file" dbUpdateDeleteFile e
  | inr _ =>
      if IsDirectory cur then newPullError (fname file) (Wrapped "delete file" errUnexpectedDirOnFileDel)
      else
        let! r := attempt (delete_item file cur) in
        match r with
        | inr _ => update file dbUpdateDeleteFile
        | inl e =>
            if IsNotExist e then
              let! _ := update file dbUpdateDeleteFile in newPullError (fname file) (Wrapped "delete file" e)
            else
              let! s := attempt (Lstat (fname file)) in
              match s with
              | inl serr => if IsPermission serr then newPullError (fname file) (Wrapped "delete file" e)
                            else update file dbUpdateDeleteFile
              | inr _ => newPullError (fname file) (Wrapped "delete file" e)
              end
        end
  end.

Definition deleteFile (file : FileInfo) : M unit :=
  let! r := attempt (GetLocalFile (fname file)) in
  match r with
  | inl e => newPullError (fname file) (Wrapped "delete file" e)
  | inr (cur, hasCur) => deleteFileWithCurrent file cur hasCur
  end.

(** *** Finished files *)
Definition prepare_temp (file : FileInfo) (temp : path) : M unit :=
  let! _ := (if negb (fcIgnorePerms cfg) && negb (fNoPermissions file)
             then wrap "setting permissions" (Chmod temp (Z.land (fPermissions file) 511)) else mret tt) in
  wrap "setting metadata" (setPlatformData file temp).
(** What is at the name of a file is looked at again, and gives way. *)
Definition check_existing (file curFile : FileInfo) (hasCurFile : bool) : M unit :=
  let! r := attempt (Lstat (fname file)) in
  match r with
  | inr stat =>
      let! _ := wrap "checking existing file" (scanIfItemChanged (fname file) stat curFile hasCurFile false) in
      wrap "moving for conflict" (replace_old file curFile true)
  | inl e => if IsNotExist e then mret tt else throw (Wrapped "checking existing file" e)
  end.
Definition put_in_place (file curFile : FileInfo) (hasCurFile : bool) (temp : path) : M unit :=
  let! _ := check_existing file curFile hasCurFile in
  let! _ := wrap "replacing file" (RenameOrCopy GOOS temp (fname file)) in
  let! _ := attempt (call (fs_Chtimes (fname file) (ModTime file))) in
  update file dbUpdateHandleFile.
Definition performFinish (file curFile : FileInfo) (hasCurFile : bool) (temp : path) : M unit :=
  let! _ := prepare_temp file temp in put_in_place file curFile hasCurFile temp.

(** Only metadata changed.  [trailer] writes the trailer of an encrypted file and
    returns its size. *)
Definition shortcutFile (trailer : FileInfo → path → M Z) (file : FileInfo) : M unit :=
  let! ok := (if negb (fcIgnorePerms cfg) && negb (fNoPermissions file)
              then failing file "shortcut file (setting permissions)" (Chmod (fname file) (Z.land (fPermissions file) 511))
              else mret true) in
  if ok : bool then
    let! ok := failing file "shortcut file (setting metadata)" (setPlatformData file (fname file)) in
    if ok : bool then
      let! r := attempt (if fcType cfg =? FolderTypeReceiveEncrypted then trailer file (fname file) else mret 0) in
      match r with
      | inl e => newPullError (fname file) (Wrapped "writing encrypted file trailer" e)
      | inr trailerSize =>
          let file := if fcType cfg =? FolderTypeReceiveEncrypted
                      then file <| fEncryptionTrailerSize := trailerSize |> <| fSize := fSize file + trailerSize |> else file in
          let! _ := attempt (call (fs_Chtimes (fname file) (ModTime file))) in
          update file dbUpdateShortcutFile
      end
    else mret tt
  else mret tt.

(** What is at the target of a renaming: the error that stops it. *)
Definition check_target (source target curTarget : FileInfo) (ok : bool) : M unit :=
  let missing : M unit :=
    if negb ok || IsDeleted curTarget then mret tt
    else let! _ := scan (fname target) in throw errModified in
  let! stat := attempt (Lstat (fname target)) in
  match stat with
  | inl serr =>
      match root serr with
      | CaseConflictError real => if bool_decide (real = fname source) then missing else throw serr
      | _ => if IsNotExist serr then missing else throw serr
      end
  | inr stat =>
      if negb ok then let! _ := scan (fname target) in throw errModified
      else
        let! fi := fileInfo_of stat (fname target) in
        if equivalent fi curTarget false then mret tt
        else let! _ := scan (fname target) in throw errModified
  end.

(** [available] is [CheckAvailableSpace]. *)
Definition renameFile (available : Z → option ferr) (cur source target : FileInfo) : M unit :=
  let! _ := checkToBeDeleted source cur true in
  let! (curTarget, ok) := GetLocalFile (fname target) in
  let! _ := check_target source target curTarget ok in
  let temp := tempName (fname target) in
  let! _ :=
    match versioner with
    | Some Archive =>
        match available (u64 (fSize source)) with
        | Some e => throw e
        | None =>
            let! _ := Copy GOOS (fname source) temp in
            inWritableDir Archive (fname source)
        end
    | None => RenameOrCopy GOOS (fname source) temp
    end in
  let! _ := performFinish target curTarget true temp in
  update source dbUpdateDeleteFile.
End puller.

(** ** Nothing is lost

    What may happen to the items that are no directories: they stay, or they are moved
    to a conflict copy, or they may go. *)
Definition meta {F : Filesystem} (w w' : world) : Prop := meta_only (view (wDisk w)) (view (wDisk w')).
#[export] Instance meta_preorder {F : Filesystem} : PreOrder (meta (F:=F)).
Proof.
  split; [intros w; apply meta_only_refl|]. intros w1 w2 w3. apply meta_only_trans.
Qed.

Definition keeps {F : Filesystem} (L : path → item → Prop) (C : path → item → path → Prop) (w w' : world) : Prop :=
  ∀ p i, IsDir i = false → view (wDisk w) !! p = Some i →
    (∃ i', view (wDisk w') !! p = Some i' ∧ same_content i i') ∨ L p i ∨
    ∃ q, C p i q ∧ ∃ i', view (wDisk w') !! q = Some i' ∧ same_content i i'.

(** What may go is told by the content; a copy is not moved again, and does not go. *)
Record reasons (L : path → item → Prop) (C : path → item → path → Prop) : Prop := {
  L_content p i j : same_content i j → L p i → L p j;
  C_content p i j q : same_content i j → C p i q → C p j q;
  C_once p i q j r : C p i q → C q j r → False;
  C_safe p i q : C p i q → L q i → False;
}.

Section keeping.
Context {F : Filesystem} {FL : FilesystemLaws F}.
Context (L : path → item → Prop) (C : path → item → path → Prop) (HLC : reasons L C).
Abbreviation vw w := (view (wDisk w)).

#[local] Instance keeps_preorder : PreOrder (keeps L C).
Proof.
  split.
  - intros w p i _ Hp. left. eauto using same_content_refl.
  - intros w1 w2 w3 H12 H23 p i Hi Hp.
    assert (Hstep : ∀ q j, same_content i j → vw w2 !! q = Some j →
      (∃ i', vw w3 !! q = Some i' ∧ same_content i i') ∨ L q i ∨
      ∃ r, C q i r ∧ ∃ i', vw w3 !! r = Some i' ∧ same_content i i').
    { intros q j Hs Hq. pose proof (same_content_sym _ _ Hs) as Hs'.
      destruct (H23 q j) as [(k & Hk & Hjk)|[HLp|(r & Hr & k & Hk & Hjk)]]; [|done|..].
      - by rewrite (same_content_IsDir _ _ Hs).
      - left. eauto using same_content_trans.
      - right. left. by eapply (L_content _ _ HLC).
      - right. right. exists r. split; [by eapply (C_content _ _ HLC)|]. eauto using same_content_trans. }
    destruct (H12 p i Hi Hp) as [(j & Hj & Hs)|[HLp|(q & Hq & j & Hj & Hs)]].
    + by apply (Hstep p j).
    + by right; left.
    + destruct (Hstep q j Hs Hj) as [H|[H|(r & Hr & _)]]; [by right; right; eauto| |].
      * exfalso. by apply (C_safe _ _ HLC p i q).
      * exfalso. by apply (C_once _ _ HLC p i q i r).
Qed.

Lemma keeps_meta w w' : meta w w' → keeps L C w w'.
Proof. intros H p i _ Hp. left. destruct (meta_only_Some _ _ _ _ H Hp) as (i' & ? & ?). eauto. Qed.
Lemma keeps_quiet w w' : quiet w w' → keeps L C w w'.
Proof. intros [_ H]. by apply keeps_meta. Qed.
Lemma quiet_meta w w' : quiet w w' → meta w w'.
Proof. by intros [_ H]. Qed.

(** Removing an item that may go. *)
Lemma keeps_Remove p w :
  direct (vw w) p → (∀ i, IsDir i = false → vw w !! p = Some i → L p i) → stays (keeps L C) (Remove p) w.
Proof.
  intros Hd Hp. unfold stays, Remove. pose proof (call_view (fs_Remove p) w) as Hv. intros q i Hi Hq.
  rewrite Hv. destruct ((fs_Remove p (wDisk w)).2) as [e|[]] eqn:E.
  - rewrite (Remove_fails _ _ _ E). left. eauto using same_content_refl.
  - destruct (Remove_ok p (wDisk w) Hd E) as [-> _]. destruct (decide (q = p)) as [->|Hne].
    + right. left. by apply Hp.
    + left. exists i. rewrite lookup_delete_ne by done. split; [done|apply same_content_refl].
Qed.

(** Renaming a file over an item that may go or is the same; the file may go or becomes a copy. *)
Lemma keeps_Rename p q w :
  direct (vw w) p → direct (vw w) q →
  (∀ i, vw w !! p = Some i → IsDir i = false ∧ (L p i ∨ C p i q)) →
  (p ≠ q → ∀ i j, IsDir i = false → vw w !! q = Some i → vw w !! p = Some j → L q i ∨ same_content i j) →
  stays (keeps L C) (call (fs_Rename p q)) w.
Proof.
  intros Hdp Hdq Hp Hq. unfold stays. pose proof (call_view (fs_Rename p q) w) as Hv. intros r i Hi Hr. rewrite Hv.
  destruct ((fs_Rename p q (wDisk w)).2) as [e|[]] eqn:E.
  { rewrite (Rename_fails _ _ _ _ E). left. eauto using same_content_refl. }
  destruct (Rename_ok p q (wDisk w) Hdp Hdq E) as (j & Hj & Hview). destruct (Hp j Hj) as [Hjd HLcp]. rewrite (Hview Hjd).
  destruct (decide (r = q)) as [->|Hrq].
  - rewrite lookup_insert_eq. destruct (decide (p = q)) as [->|Hne].
    + assert (i = j) as -> by congruence. left. eauto using same_content_refl.
    + destruct (Hq Hne i j Hi Hr Hj) as [?|Hs]; [by right; left|]. left. by exists j.
  - destruct (decide (r = p)) as [->|Hrp].
    + assert (i = j) as -> by congruence. destruct HLcp as [?|HC]; [by right; left|]. right. right. exists q. split; [done|].
      exists j. rewrite lookup_insert_eq. eauto using same_content_refl.
    + left. exists i. rewrite lookup_insert_ne, lookup_delete_ne by done. eauto using same_content_refl.
Qed.

Lemma keeps_Mkdir p mode w : direct (vw w) p → stays (keeps L C) (call (fs_Mkdir p mode)) w.
Proof.
  intros Hd. unfold stays. pose proof (call_view (fs_Mkdir p mode) w) as Hv. intros q i Hi Hq. rewrite Hv.
  destruct ((fs_Mkdir p mode (wDisk w)).2) as [e|[]] eqn:E.
  - rewrite (Mkdir_fails _ _ _ _ E). left. eauto using same_content_refl.
  - destruct (Mkdir_ok p mode (wDisk w) Hd E) as (Hn & j & _ & ->). left. exists i.
    rewrite lookup_insert_ne by congruence. eauto using same_content_refl.
Qed.
Lemma keeps_MkdirAll p mode w : stays (keeps L C) (call (fs_MkdirAll p mode)) w.
Proof.
  unfold stays. pose proof (call_view (fs_MkdirAll p mode) w) as Hv. intros q i Hi Hq. rewrite Hv.
  destruct (MkdirAll_adds p mode (wDisk w) q) as [->|[Hn _]]; [|congruence]. left. eauto using same_content_refl.
Qed.
Lemma keeps_CreateSymlink t p w : direct (vw w) p → stays (keeps L C) (call (fs_CreateSymlink t p)) w.
Proof.
  intros Hd. unfold stays. pose proof (call_view (fs_CreateSymlink t p) w) as Hv. intros q i Hi Hq. rewrite Hv.
  destruct ((fs_CreateSymlink t p (wDisk w)).2) as [e|[]] eqn:E.
  - rewrite (CreateSymlink_fails _ _ _ _ E). left. eauto using same_content_refl.
  - destruct (CreateSymlink_ok t p (wDisk w) Hd E) as (Hn & j & _ & _ & ->). left. exists i.
    rewrite lookup_insert_ne by congruence. eauto using same_content_refl.
Qed.

(** Nor does a path come to lead through a link, or a temporary file become a directory,
    or an item appear at the paths of [T]. *)
Context (T : path → Prop).
Definition not_dir (w : world) (p : path) : Prop := ∀ i, vw w !! p = Some i → IsDir i = false.
Definition steady (w w' : world) : Prop :=
  (∀ p, direct (vw w) p → direct (vw w') p) ∧ (∀ p, IsTemporary p = true → not_dir w p → not_dir w' p) ∧
  ∀ p i', T p → vw w' !! p = Some i' → ∃ i, vw w !! p = Some i ∧ same_content i i'.
Definition safe (w w' : world) : Prop := keeps L C w w' ∧ steady w w'.
#[local] Instance safe_preorder : PreOrder safe.
Proof.
  split; [intros w; split; [done|split; [by intros|split; [by intros|eauto using same_content_refl]]]|].
  intros w1 w2 w3 (H1 & H2 & H3 & H4) (H5 & H6 & H7 & H8).
  split; [by etrans|split; [intros p Hp; by apply H6, H2|split; [intros p Ht Hp; by apply H7, H3|]]].
  intros p i3 Hp Hi3. destruct (H8 p i3 Hp Hi3) as (i2 & Hi2 & ?). destruct (H4 p i2 Hp Hi2) as (i1 & ? & ?). eauto using same_content_trans.
Qed.
Lemma steady_back w w' : (∀ p i', vw w' !! p = Some i' → ∃ i, vw w !! p = Some i ∧ same_content i i') → steady w w'.
Proof.
  intros H. split; [|split; [|intros p i' _; apply H]].
  - intros p Hd q x l' E Hl. destruct (H q l' Hl) as (l & Hl' & Hs). rewrite (same_content_IsLink _ _ Hs). by apply (Hd q x).
  - intros p _ Hp i' Hi. destruct (H p i' Hi) as (i & Hi' & Hs). rewrite (same_content_IsDir _ _ Hs). by apply Hp.
Qed.
Lemma meta_back w w' p i : meta w w' → vw w' !! p = Some i → ∃ j, vw w !! p = Some j ∧ same_content j i.
Proof.
  intros Hm Hi. destruct (meta_only_Some _ _ _ _ (meta_only_sym _ _ Hm) Hi) as (j & Hj & Hs). eauto using same_content_sym.
Qed.
Lemma safe_meta w w' : meta w w' → safe w w'.
Proof. intros H. split; [by apply keeps_meta|]. apply steady_back. intros p i. by apply meta_back. Qed.
Lemma stays_safe {A} (m : M A) w : stays safe m w → stays (keeps L C) m w.
Proof. apply proj1. Qed.

Lemma safe_Remove p w :
  direct (vw w) p → (∀ i, IsDir i = false → vw w !! p = Some i → L p i) → stays safe (Remove p) w.
Proof.
  intros Hd Hp. split; [by apply keeps_Remove|]. apply steady_back. intros q i. unfold Remove. rewrite call_view.
  destruct ((fs_Remove p (wDisk w)).2) as [e|[]] eqn:E.
  - rewrite (Remove_fails _ _ _ E). eauto using same_content_refl.
  - rewrite (proj1 (Remove_ok p (wDisk w) Hd E)). intros [_ Hq]%lookup_delete_Some. eauto using same_content_refl.
Qed.
Lemma safe_Rename p q w :
  direct (vw w) p → direct (vw w) q → ¬ T q →
  (∀ i, vw w !! p = Some i → IsRegular i = true ∧ (L p i ∨ C p i q)) →
  (p ≠ q → ∀ i j, IsDir i = false → vw w !! q = Some i → vw w !! p = Some j → L q i ∨ same_content i j) →
  stays safe (call (fs_Rename p q)) w.
Proof.
  intros Hdp Hdq Hqt Hp Hq.
  assert (Hreg : ∀ i, vw w !! p = Some i → IsDir i = false ∧ IsLink i = false).
  { intros i Hi. destruct (Hp i Hi) as [[H1 H2]%andb_true_iff _]. by apply negb_true_iff in H1, H2. }
  split.
  { apply keeps_Rename; [done..| |done]. intros i Hi. split; [by apply Hreg|by apply Hp]. }
  assert (Hv : vw (call (fs_Rename p q) w).1 = vw w ∨ ∃ i, IsDir i = false ∧ IsLink i = false ∧
    vw (call (fs_Rename p q) w).1 = <[q := i]> (delete p (vw w))).
  { rewrite call_view. destruct ((fs_Rename p q (wDisk w)).2) as [e|[]] eqn:E; [left; by eapply Rename_fails|].
    right. destruct (Rename_ok p q (wDisk w) Hdp Hdq E) as (i & Hi & Hv). destruct (Hreg i Hi). exists i. auto. }
  destruct Hv as [Hv|(i & Hi1 & Hi2 & Hv)]; unfold steady, not_dir; rewrite Hv; [split_and!; eauto using same_content_refl|].
  split; [|split].
  - intros r Hr x y l E [[<- <-]|[_ [_ Hl]%lookup_delete_Some]]%lookup_insert_Some; [done|by apply (Hr x y)].
  - intros r _ Hr l [[<- <-]|[_ [_ Hl]%lookup_delete_Some]]%lookup_insert_Some; [done|by apply Hr].
  - intros r l Hr [[<- _]|[_ [_ Hl]%lookup_delete_Some]]%lookup_insert_Some; [done|]. eauto using same_content_refl.
Qed.
Lemma steady_mono (T' : path → Prop) : (∀ p, T' p → T p) → ∀ w w', steady w w' →
  (∀ p, direct (vw w) p → direct (vw w') p) ∧ (∀ p, IsTemporary p = true → not_dir w p → not_dir w' p) ∧
  ∀ p i', T' p → vw w' !! p = Some i' → ∃ i, vw w !! p = Some i ∧ same_content i i'.
Proof. intros HT w w' (H1 & H2 & H3). split_and!; [done..|]. intros p i' Hp. by apply H3, HT. Qed.
End keeping.
(** More may go. *)
Lemma keeps_mono {F : Filesystem} (L L' : path → item → Prop) C w w' :
  (∀ p i, L p i → L' p i) → keeps L C w w' → keeps L' C w w'.
Proof. intros HL H p i Hi Hp. destruct (H p i Hi Hp) as [?|[?|?]]; auto. Qed.

(** ** What changes no more than metadata *)

(** One step through a computation; what is called is left to lemmas. *)
Ltac effect_step :=
  lazymatch goal with
  | |- stays _ (mbind _ _) _ => apply stays_bind; [exact _| |intros ? ?]
  | |- stays _ (attempt _) _ => apply stays_attempt
  | |- stays _ (wrap _ _) _ => apply stays_wrap
  | |- stays _ (mret _) _ => apply stays_ret; exact _
  | |- stays _ (throw _) _ => apply stays_throw; exact _
  | |- stays _ (of_result _) _ => apply stays_result; exact _
  | |- stays _ (let '(_, _) := ?x in _) _ => destruct x
  | |- stays _ (match ?x with _ => _ end) _ => destruct x eqn:?
  | |- stays _ (if ?x then _ else _) _ => destruct x eqn:?
  end.
Ltac effects := repeat effect_step; eauto with effects.

Section meta_ops.
Context {F : Filesystem} {FL : FilesystemLaws F}.
Context (cfg : FolderConfiguration) (modTimeWindow : Z) (GOOS : string).
Context (ignoreMatch : path → Z) (sdb : path → ferr + option FileInfo).
Context (lookup_user lookup_group : string → option string).
Abbreviation vw w := (view (wDisk w)).

Lemma meta_call {A} (op : disk → fsres disk A) w : (∀ d, meta_only (view d) (view (op d).1)) → stays meta (call op) w.
Proof. intros H. apply quiet_meta, call_quiet, H. Qed.
Lemma meta_Lstat p w : stays meta (Lstat p) w.
Proof. apply quiet_meta, quiet_Lstat. Qed.
Lemma meta_Chmod p mode w : stays meta (Chmod p mode) w.
Proof. apply quiet_meta, quiet_Chmod. Qed.
Lemma meta_TraversesSymlink p w : stays meta (TraversesSymlink p) w.
Proof. apply quiet_meta, quiet_TraversesSymlink. Qed.
Lemma meta_scan p w : stays meta (scan p) w.
Proof. unfold stays. cbn. apply meta_only_refl. Qed.
Lemma meta_update f t w : stays meta (update f t) w.
Proof. unfold stays. cbn. apply meta_only_refl. Qed.
Lemma meta_newPullError p e w : stays meta (newPullError p e) w.
Proof. unfold stays, newPullError, meta. destruct (wErrors w !! p); apply meta_only_refl. Qed.
#[local] Hint Resolve meta_Lstat meta_Chmod meta_TraversesSymlink meta_scan meta_update meta_newPullError : effects.

Lemma meta_reads {A} (op : disk → fsres disk A) w : readonly op → stays meta (call op) w.
Proof. intros H. apply meta_call. by apply readonly_meta. Qed.

Lemma meta_fileInfo stat p w : stays meta (fileInfo_of cfg stat p) w.
Proof.
  unfold fileInfo_of, CreateFileInfo. effects; apply meta_reads; [apply PlatformData_reads|apply ReadSymlink_reads].
Qed.
Lemma meta_GetLocalFile p w : stays meta (GetLocalFile sdb p) w.
Proof. unfold GetLocalFile. effects. Qed.
#[local] Hint Resolve meta_fileInfo meta_GetLocalFile : effects.

Lemma meta_scanIfItemChanged name stat it has fd w :
  stays meta (scanIfItemChanged cfg modTimeWindow GOOS name stat it has fd) w.
Proof. unfold scanIfItemChanged. effects. Qed.
#[local] Hint Resolve meta_scanIfItemChanged : effects.
Lemma meta_checkToBeDeleted file cur has w :
  stays meta (checkToBeDeleted cfg modTimeWindow GOOS file cur has) w.
Proof. unfold checkToBeDeleted. effects. Qed.
Lemma meta_setPlatformData file name w :
  stays meta (setPlatformData cfg GOOS lookup_user lookup_group file name) w.
Proof.
  unfold setPlatformData, syncOwnership, copyOwnershipFromParent. effects;
    apply meta_call; intros d; [apply SetXattr_meta|apply Lchown_meta..].
Qed.
Lemma meta_existingConflicts name w : stays meta (existingConflicts name) w.
Proof. unfold existingConflicts. effects. apply meta_reads, Glob_reads. Qed.
Lemma meta_check_target source target cur ok w :
  stays meta (check_target cfg modTimeWindow GOOS source target cur ok) w.
Proof. unfold check_target. effects. Qed.
Lemma meta_Chtimes p t w : stays meta (call (fs_Chtimes p t)) w.
Proof. apply meta_call. intros d. apply Chtimes_meta. Qed.
End meta_ops.

#[export] Hint Resolve meta_Lstat meta_Chmod meta_TraversesSymlink meta_scan meta_update meta_newPullError meta_fileInfo
  meta_GetLocalFile meta_scanIfItemChanged meta_checkToBeDeleted meta_setPlatformData meta_existingConflicts
  meta_check_target meta_Chtimes : effects.

(** *** What only looks *)
Definition reads {F : Filesystem} (w w' : world) : Prop := view (wDisk w') = view (wDisk w).
#[export] Instance reads_preorder {F : Filesystem} : PreOrder (reads (F:=F)).
Proof. split; [by intros w|]. intros w1 w2 w3 H1 H2. unfold reads in *. congruence. Qed.
Lemma reads_meta {F : Filesystem} w w' : reads w w' → meta w w'.
Proof. unfold reads, meta. intros ->. apply meta_only_refl. Qed.

Section reading.
Context {F : Filesystem} {FL : FilesystemLaws F}.
Context (cfg : FolderConfiguration) (modTimeWindow : Z) (GOOS : string) (sdb : path → ferr + option FileInfo).
Abbreviation vw w := (view (wDisk w)).

Lemma reads_call {A} (op : disk → fsres disk A) w : readonly op → stays reads (call op) w.
Proof. intros H. unfold stays, reads. rewrite call_view. apply H. Qed.
Lemma reads_Lstat p w : stays reads (Lstat p) w.
Proof. apply Lstat_view. Qed.
Lemma reads_scan p w : stays reads (scan p) w.
Proof. done. Qed.
Lemma reads_update f t w : stays reads (update f t) w.
Proof. done. Qed.
Lemma reads_newPullError p e w : stays reads (newPullError p e) w.
Proof. unfold stays, newPullError, reads. by destruct (wErrors w !! p). Qed.
#[local] Hint Resolve reads_Lstat reads_scan reads_update reads_newPullError : effects.
Lemma reads_TraversesSymlink p w : stays reads (TraversesSymlink p) w.
Proof.
  unfold TraversesSymlink. destruct (Canonicalize p); [|effects..]. case_bool_decide; [effects|].
  generalize (@nil ascii). induction (PathComponents a) as [|part parts IH] in w |- *; intros at_; cbn [traverses_loop]; effects.
Qed.
Lemma reads_fileInfo stat p w : stays reads (fileInfo_of cfg stat p) w.
Proof. unfold fileInfo_of, CreateFileInfo. effects; apply reads_call; [apply PlatformData_reads|apply ReadSymlink_reads]. Qed.
Lemma reads_GetLocalFile p w : stays reads (GetLocalFile sdb p) w.
Proof. unfold GetLocalFile. effects. Qed.
#[local] Hint Resolve reads_TraversesSymlink reads_fileInfo reads_GetLocalFile : effects.
Lemma reads_scanIfItemChanged name stat it has fd w :
  stays reads (scanIfItemChanged cfg modTimeWindow GOOS name stat it has fd) w.
Proof. unfold scanIfItemChanged. effects. Qed.
#[local] Hint Resolve reads_scanIfItemChanged : effects.
Lemma reads_checkToBeDeleted file cur has w :
  stays reads (checkToBeDeleted cfg modTimeWindow GOOS file cur has) w.
Proof. unfold checkToBeDeleted. effects. Qed.
Lemma reads_check_target source target cur ok w :
  stays reads (check_target cfg modTimeWindow GOOS source target cur ok) w.
Proof. unfold check_target. effects. Qed.

(** *** What the comparisons tell *)

(** The item at [p] is what the record [cur] says. *)
Definition known (w : world) (cur : FileInfo) (p : path) (i : item) : Prop :=
  fname cur = p ∧ fDeleted cur = false ∧
  ∃ w1 rec fromDelete, reads w w1 ∧ (fileInfo_of cfg i p w1).2 = inr rec ∧
    equivalent cfg modTimeWindow GOOS rec cur fromDelete = true.

Lemma bind_at {A B} (m : M A) (k : A → M B) w :
  (m ≫= k) w = match m w with (w', inr a) => k a w' | (w', inl e) => (w', inl e) end.
Proof. done. Qed.
Lemma bind_inr {A B} (m : M A) (k : A → M B) w b :
  ((m ≫= k) w).2 = inr b → ∃ a, (m w).2 = inr a ∧ (k a (m w).1).2 = inr b ∧ ((m ≫= k) w).1 = (k a (m w).1).1.
Proof. unfold mbind, M_bind. destruct (m w) as [w' [e|a]]; [done|]. cbn. eauto. Qed.
Lemma wrap_inr {A} c (m : M A) w a : (wrap c m w).2 = inr a → (m w).2 = inr a ∧ (wrap c m w).1 = (m w).1.
Proof. unfold wrap. by destruct (m w) as [w' [e|b]]. Qed.
Lemma attempt_inr {A} (m : M A) w r : (attempt m w).2 = inr r → (m w).2 = r ∧ (attempt m w).1 = (m w).1.
Proof. unfold attempt. destruct (m w). by intros [= ->]. Qed.
Lemma throw_inr {A} e w (a : A) : (throw e w).2 = inr a → False.
Proof. done. Qed.

Lemma scanIfItemChanged_ok name stat it has fd w :
  (scanIfItemChanged cfg modTimeWindow GOOS name stat it has fd w).2 = inr tt →
  has = true ∧ fDeleted it = false ∧
  ∃ rec, (fileInfo_of cfg stat (fname it) w).2 = inr rec ∧ equivalent cfg modTimeWindow GOOS rec it fd = true.
Proof.
  unfold scanIfItemChanged. intros (r & [Hr Ew]%attempt_inr & H & _)%bind_inr.
  destruct r as [e|[]]; [by case_bool_decide; [apply bind_inr in H as (? & _ & H & _)|]|].
  destruct has, (fDeleted it); cbn in Hr; try done. split_and!; [done..|].
  apply bind_inr in Hr as (rec & [Hrec _]%wrap_inr & Hr & _). exists rec. split; [done|]. by destruct (equivalent _ _ _ rec it fd).
Qed.
Lemma scanIfItemChanged_known w name stat it has fd w1 :
  reads w w1 → (scanIfItemChanged cfg modTimeWindow GOOS name stat it has fd w1).2 = inr tt →
  has = true ∧ known w it (fname it) stat.
Proof.
  intros Hr (? & ? & rec & ? & ?)%scanIfItemChanged_ok. split; [done|]. split_and!; [done..|]. by exists w1, rec, fd.
Qed.

Lemma Lstat_found w p w1 i :
  direct (vw w) p → reads w w1 → (Lstat p w1).2 = inr i → vw w !! p = Some i ∧ reads w (Lstat p w1).1.
Proof.
  intros Hd Hr. unfold Lstat. rewrite call_result. intros H%Lstat_item; [|by rewrite Hr].
  split; [by rewrite <-Hr|]. etrans; [exact Hr|]. apply reads_Lstat.
Qed.

Lemma checkToBeDeleted_known file cur has w :
  good_name (fname file) → (checkToBeDeleted cfg modTimeWindow GOOS file cur has w).2 = inr tt →
  has = true ∧ direct (vw w) (fname file) ∧ ∃ i, vw w !! fname file = Some i ∧ known w cur (fname cur) i.
Proof.
  intros Hg. unfold checkToBeDeleted. intros (t & [Ht Ew]%attempt_inr & H & _)%bind_inr. destruct t as [e|[]]; [done|].
  pose proof (TraversesSymlink_direct _ _ Hg Ht) as Hd. rewrite Ew in H.
  apply bind_inr in H as (stat & [Hs Ew2]%attempt_inr & H & _). rewrite Ew2 in H.
  pose proof (reads_TraversesSymlink (Dir (fname file)) w : reads _ _) as Hr.
  destruct stat as [e|stat].
  - destruct (is_gone e); [|done]. destruct (has && negb (fDeleted cur) && negb (IsUnsupported cur)); [|done].
    by apply bind_inr in H as (? & _ & H & _).
  - apply Lstat_found with (w := w) in Hs as [Hi Hr2]; [|done..].
    apply (scanIfItemChanged_known w) in H as [-> Hk]; [|done]. split_and!; eauto.
Qed.

Lemma GetLocalFile_ok p w cur has : (GetLocalFile sdb p w).2 = inr (cur, has) →
  has = true → sdb p = inr (Some cur).
Proof. unfold GetLocalFile. destruct (sdb p) as [e|[f|]]; intros [= <- <-] Hh; [done|done]. Qed.

Lemma failing_ok file c m w : (failing file c m w).2 = inr true → (m w).2 = inr tt ∧ (failing file c m w).1 = (m w).1.
Proof.
  unfold failing. intros (r & [Hr Ew]%attempt_inr & H & E)%bind_inr. rewrite E.
  destruct r as [e|[]]; [by apply bind_inr in H as (? & _ & H & _)|]. by rewrite Ew.
Qed.

Lemma isEquivalent_type GOOS' same f g comp : isEquivalent GOOS' same f g comp = true → fType f = fType g.
Proof. unfold isEquivalent. destruct (_ || _); [done|]. cbv zeta. destruct (_ || _) eqn:E; [done|]. intros _. zb. lia. Qed.
Lemma fileInfo_type i p w rec : (fileInfo_of cfg i p w).2 = inr rec →
  fType rec = if IsLink i then FileInfoTypeSymlink else if IsDir i then FileInfoTypeDirectory else FileInfoTypeFile.
Proof.
  unfold fileInfo_of, CreateFileInfo. intros (plat & _ & H & _)%bind_inr.
  destruct (IsLink i); [by apply bind_inr in H as (? & _ & [= <-] & _)|]. by destruct (IsDir i); injection H as <-.
Qed.
Lemma known_kind w cur p i : known w cur p i → IsDirectory cur = IsDir i ∧ IsSymlink cur = IsLink i.
Proof.
  intros (_ & _ & w1 & rec & fd & _ & Ht%fileInfo_type & E%isEquivalent_type).
  unfold IsDirectory, IsSymlink. rewrite <-E, Ht. destruct (IsLink i) eqn:El; [|by destruct (IsDir i)].
  unfold IsLink, IsDir in *. zb. by rewrite El.
Qed.
End reading.
#[export] Hint Resolve reads_Lstat reads_scan reads_update reads_newPullError reads_TraversesSymlink reads_fileInfo reads_GetLocalFile
  reads_scanIfItemChanged reads_checkToBeDeleted reads_check_target : effects.

(** *** What makes no updates and no errors

    A relation between worlds in which the notes are the same, up to requests to scan,
    is kept by whatever only works on the disk. *)
Class Noting {F : Filesystem} (R : relation world) : Prop := {
  noting_order :: PreOrder R;
  noting_same w w' : same_notes w w' → R w w';
  noting_scan p w : stays R (scan p) w;
}.
Section noting.
Context {F : Filesystem} {FL : FilesystemLaws F} {UF : UnicodeFold} (R : relation world) {HR : Noting R}.
Context (cfg : FolderConfiguration) (modTimeWindow : Z) (GOOS : string).
Context (ignoreMatch : path → Z) (sdb : path → ferr + option FileInfo).
Context (versioner : option (path → M unit)) (stamp : path).
Context (lookup_user lookup_group : string → option string) (depth : nat).

Lemma noting_quiet w w' : quiet w w' → R w w'.
Proof. intros [H _]. by apply (noting_same (R := R)). Qed.
Lemma noting_call {A} (op : disk → fsres disk A) w : stays R (call op) w.
Proof. apply (noting_same (R := R)), call_notes. Qed.
Lemma noting_Lstat p w : stays R (Lstat p) w.
Proof. apply noting_call. Qed.
Lemma noting_Remove p w : stays R (Remove p) w.
Proof. apply noting_call. Qed.
Lemma noting_Chmod p mode w : stays R (Chmod p mode) w.
Proof. apply noting_call. Qed.
#[local] Hint Resolve noting_call noting_Lstat noting_Remove noting_Chmod noting_scan : effects.
Lemma noting_traverses at_ parts w : stays R (traverses_loop at_ parts) w.
Proof. induction parts as [|part parts IH] in w, at_ |- *; cbn [traverses_loop]; effects. Qed.
Lemma noting_TraversesSymlink p w : stays R (TraversesSymlink p) w.
Proof. unfold TraversesSymlink. pose proof noting_traverses. effects. Qed.
Lemma noting_fileInfo stat p w : stays R (fileInfo_of cfg stat p) w.
Proof. unfold fileInfo_of, CreateFileInfo. effects. Qed.
Lemma noting_GetLocalFile p w : stays R (GetLocalFile sdb p) w.
Proof. unfold GetLocalFile. effects. Qed.
#[local] Hint Resolve noting_TraversesSymlink noting_fileInfo noting_GetLocalFile : effects.
Lemma noting_inWritableDir fn p w : (∀ w1, stays R (fn p) w1) → stays R (inWritableDir fn p) w.
Proof. intros H. apply stays_inWritableDir; [exact _|apply noting_quiet|auto]. Qed.
Lemma noting_withPreparedTarget p q f w : (∀ w1, stays R f w1) → stays R (withPreparedTarget GOOS p q f) w.
Proof. intros H. apply stays_withPreparedTarget with (P := λ _, True); [exact _|apply noting_quiet|done..| |auto]. intros w1 _. split; [apply noting_Remove|done]. Qed.
Lemma noting_RenameOrCopy p q w : stays R (RenameOrCopy GOOS p q) w.
Proof. apply noting_withPreparedTarget. intros w1. apply noting_call. Qed.
Lemma noting_Copy p q w : stays R (Copy GOOS p q) w.
Proof. apply noting_withPreparedTarget. intros w1. apply noting_call. Qed.
#[local] Hint Resolve noting_inWritableDir noting_RenameOrCopy noting_Copy : effects.
Lemma noting_scanIfItemChanged name stat it has fd w : stays R (scanIfItemChanged cfg modTimeWindow GOOS name stat it has fd) w.
Proof. unfold scanIfItemChanged. effects. Qed.
#[local] Hint Resolve noting_scanIfItemChanged : effects.
Lemma noting_checkToBeDeleted file cur has w : stays R (checkToBeDeleted cfg modTimeWindow GOOS file cur has) w.
Proof. unfold checkToBeDeleted. effects. Qed.
Lemma noting_setPlatformData file name w : stays R (setPlatformData cfg GOOS lookup_user lookup_group file name) w.
Proof. unfold setPlatformData, syncOwnership, copyOwnershipFromParent. effects. Qed.
Lemma noting_remove_all ps w : stays R (remove_all ps) w.
Proof. induction ps as [|p ps IH] in w |- *; cbn [remove_all]; effects. Qed.
#[local] Hint Resolve noting_checkToBeDeleted noting_setPlatformData noting_remove_all : effects.
Lemma noting_moveForConflict by_ name w : stays R (moveForConflict cfg stamp by_ name) w.
Proof. unfold moveForConflict, remove_instead, existingConflicts. effects. Qed.
#[local] Hint Resolve noting_moveForConflict : effects.

Lemma noting_walk_entries {L} (sub : path → item → L → M (L * option ferr)) walkFn dir names l w :
  (∀ p i l w, stays R (sub p i l) w) → (∀ p i l w, stays R (walkFn p i l) w) → stays R (walk_entries walkFn sub dir names l) w.
Proof. intros Hs Hf. induction names as [|name names IH] in l, w |- *; cbn [walk_entries]; effects. Qed.
Lemma noting_walk {L} (walkFn : path → ferr + item → L → M (L * option ferr)) fuel p i l w :
  (∀ p i l w, stays R (walkFn p i l) w) → stays R (walk walkFn fuel p i l) w.
Proof.
  intros Hf. induction fuel as [|fuel IH] in p, i, l, w |- *; cbn [walk]; effects. by apply noting_walk_entries.
Qed.
Lemma noting_visit_child dir p info l w : stays R (visit_child cfg modTimeWindow GOOS ignoreMatch sdb dir p info l) w.
Proof. unfold visit_child, to_be_scanned. effects. Qed.
Lemma noting_remove_dirs dirs l w : stays R (remove_dirs dirs l) w.
Proof. induction dirs as [|d dirs IH] in l, w |- *; cbn [remove_dirs]; effects. Qed.
#[local] Hint Resolve noting_remove_dirs : effects.
Lemma noting_deleteDirOnDisk dir w : stays R (deleteDirOnDisk cfg modTimeWindow GOOS ignoreMatch sdb depth dir) w.
Proof.
  unfold deleteDirOnDisk, deleteDirOnDiskHandleChildren, Walk. effects; try apply noting_walk; intros; apply noting_visit_child.
Qed.
#[local] Hint Resolve noting_deleteDirOnDisk : effects.
Lemma noting_mkdir file p w : stays R (mkdir cfg GOOS lookup_user lookup_group file p) w.
Proof. unfold mkdir. effects. Qed.
Lemma noting_create_link file p w : stays R (create_link cfg GOOS lookup_user lookup_group file p) w.
Proof. unfold create_link. effects. Qed.

(** Where old versions are moved without notes. *)
Context (Hversioner : ∀ Archive, versioner = Some Archive → ∀ p w, stays R (inWritableDir Archive p) w).
Lemma noting_deleteItemOnDisk it w : stays R (deleteItemOnDisk cfg modTimeWindow GOOS ignoreMatch sdb versioner depth it) w.
Proof. unfold deleteItemOnDisk. effects. Qed.
#[local] Hint Resolve noting_deleteItemOnDisk : effects.
Lemma noting_replace_old file cur checkDir w :
  stays R (replace_old cfg modTimeWindow GOOS ignoreMatch sdb versioner stamp depth file cur checkDir) w.
Proof. unfold replace_old. effects. Qed.
#[local] Hint Resolve noting_replace_old : effects.
Lemma noting_check_existing file cur has w :
  stays R (check_existing cfg modTimeWindow GOOS ignoreMatch sdb versioner stamp depth file cur has) w.
Proof. unfold check_existing. effects. Qed.
Lemma noting_checkExisting file w :
  stays R (handleSymlinkCheckExisting cfg modTimeWindow GOOS ignoreMatch sdb versioner stamp depth file) w.
Proof. unfold handleSymlinkCheckExisting. effects. Qed.
Lemma noting_delete_item file cur w : stays R (delete_item cfg versioner stamp file cur) w.
Proof. unfold delete_item. effects. Qed.
End noting.

#[export] Hint Resolve noting_call noting_Lstat noting_Remove noting_Chmod noting_scan noting_TraversesSymlink noting_fileInfo
  noting_GetLocalFile noting_inWritableDir noting_RenameOrCopy noting_Copy noting_scanIfItemChanged noting_checkToBeDeleted
  noting_setPlatformData noting_moveForConflict noting_deleteDirOnDisk noting_mkdir noting_create_link noting_deleteItemOnDisk
  noting_replace_old noting_check_existing noting_checkExisting noting_delete_item : effects.

(** What leaves the jobs as they are. *)
Definition same_jobs {F : Filesystem} (w w' : world) : Prop := wJobs w' = wJobs w.
#[export] Instance same_jobs_noting {F : Filesystem} : Noting (same_jobs (F := F)).
Proof.
  split; [|by intros w w' (_ & H & _)|by intros p w].
  split; [by intros w|]. intros w1 w2 w3 H1 H2. unfold same_jobs in *. congruence.
Qed.

(** ** Conflict copies *)
Definition stem (name : path) : path := take (length name - length (Ext name)) name.
Definition copy_of (name p : path) : Prop := ∃ y, (sep ∉ y) ∧ p = stem name ++ conflictMark ++ y.

Lemma ext_loop_spec rest acc : sep ∉ acc → (sep ∉ ext_loop rest acc) ∧ ∃ r, rev rest ++ acc = r ++ ext_loop rest acc.
Proof.
  revert acc. induction rest as [|c rest IH]; intros acc Hacc; cbn [ext_loop].
  { split; [by intros ?%elem_of_nil|]. exists acc. by rewrite app_nil_r. }
  destruct (Ascii.eqb c sep) eqn:Ec; [split; [by intros ?%elem_of_nil|]; exists (rev (c :: rest) ++ acc); by rewrite app_nil_r|].
  apply Ascii.eqb_neq in Ec. assert (Hacc' : sep ∉ c :: acc) by (apply not_elem_of_cons; split; congruence).
  cbn [rev]. rewrite <-(assoc_L (++)). cbn [app]. destruct (Ascii.eqb c "."%char); [split; [done|by exists (rev rest)]|]. by apply IH.
Qed.
Lemma Ext_spec name : name = stem name ++ Ext name ∧ (sep ∉ Ext name).
Proof.
  unfold stem, Ext. destruct (ext_loop_spec (rev name) []) as [Hs [r Hr]]; [by intros ?%elem_of_nil|].
  rewrite rev_involutive, app_nil_r in Hr. split; [|done]. set (e := ext_loop (rev name) []) in *. clearbody e. subst name.
  by rewrite length_app, Nat.add_sub, take_app_length.
Qed.

Lemma sep_in_first (q x s z : path) : q ++ sep :: x = s ++ z → sep ∉ z → ∃ x', s = q ++ sep :: x'.
Proof.
  revert q. induction s as [|c s IH]; intros q E Hz.
  - exfalso. apply Hz. cbn in E. rewrite <-E. set_solver.
  - destruct q as [|d q]; injection E as -> E; [by exists s|]. destruct (IH q E Hz) as [x' ->]. by exists x'.
Qed.
Lemma copy_above name p q x : copy_of name p → p = q ++ sep :: x → ∃ x', name = q ++ sep :: x'.
Proof.
  intros (y & Hy & ->) E. symmetry in E. apply sep_in_first in E as [x' E].
  - exists (x' ++ Ext name). rewrite app_comm_cons, (assoc_L (++)), <-E. apply Ext_spec.
  - rewrite elem_of_app. intros [H|H]; [|done]. by repeat (apply elem_of_cons in H as [H|H]; [done|]); apply elem_of_nil in H.
Qed.
Lemma direct_copy v name p : direct v name → copy_of name p → direct v p.
Proof. intros Hd Hc q x l E Hl. destruct (copy_above _ _ _ _ Hc E) as [x' E']. by apply (Hd q x' l). Qed.
Lemma copy_not_above name p x : copy_of name p → name ≠ p ++ sep :: x.
Proof.
  intros (y & Hy & ->) E. destruct (Ext_spec name) as [En He].
  assert (E' : stem name ++ Ext name = stem name ++ (conflictMark ++ y ++ sep :: x)) by (rewrite <-En, E at 1; by rewrite <-!(assoc_L (++))).
  apply app_inv_head in E'. apply He. rewrite E'. set_solver.
Qed.

Lemma conflictName_copy stamp name by_ : sep ∉ stamp → sep ∉ by_ → copy_of name (conflictName stamp name by_).
Proof.
  intros Hs Hb. exists (stamp ++ s2l "-" ++ by_ ++ Ext name). split; [|done]. rewrite !elem_of_app.
  intros [H|[H|[H|H]]]; [done| |done|by apply (proj2 (Ext_spec name))].
  by repeat (apply elem_of_cons in H as [H|H]; [done|]); apply elem_of_nil in H.
Qed.

Lemma conflictName_ne stamp name by_ : conflictName stamp name by_ ≠ name.
Proof.
  unfold conflictName. fold (stem name). destruct (Ext_spec name) as [E _].
  apply (f_equal length) in E. intros H%(f_equal length). rewrite !length_app in *. cbn in H. lia.
Qed.

Lemma split_no_sep z : sep ∉ z → split_byte sep z = [z].
Proof.
  induction z as [|c z IH]; intros Hz; [done|]. apply not_elem_of_cons in Hz as [Hc Hz]. cbn [split_byte].
  rewrite IH by done. destruct (Ascii.eqb_spec c sep) as [->|]; [done|]. done.
Qed.
Lemma split_app_last s z : sep ∉ z → ∃ ps a, split_byte sep s = ps ++ [a] ∧ split_byte sep (s ++ z) = ps ++ [a ++ z].
Proof.
  intros Hz. induction s as [|c s (ps & a & E1 & E2)]; [exists [], []; split; [done|by apply split_no_sep]|].
  cbn [app split_byte]. rewrite E1, E2. destruct (Ascii.eqb c sep).
  - exists ([] :: ps), a. destruct ps; by cbn.
  - destruct ps as [|p ps]; [by exists [], (c :: a)|]. by exists ((c :: p) :: ps), a.
Qed.
Lemma Dir_app s z : sep ∉ z → Dir (s ++ z) = Dir s.
Proof.
  intros Hz. unfold Dir. destruct (split_app_last s z Hz) as (ps & a & -> & ->). cbv zeta.
  rewrite !length_app. cbn [length]. rewrite Nat.add_sub, !take_app_length. done.
Qed.
Lemma Dir_copy name p : copy_of name p → Dir p = Dir name.
Proof.
  intros (y & Hy & ->). destruct (Ext_spec name) as [E He]. rewrite E at 2. rewrite !Dir_app; [done..|].
  rewrite elem_of_app. intros [H|H]; [|done]. by repeat (apply elem_of_cons in H as [H|H]; [done|]); apply elem_of_nil in H.
Qed.

Lemma modifiedBy_no_sep file : sep ∉ modifiedBy file.
Proof.
  unfold modifiedBy, ShortID_String. case_match; [by intros ?%elem_of_nil|]. intros Hin.
  assert (Hs : sep ∈ b32_encode (be_encode 8 (fModifiedBy file))).
  { rewrite <-(take_drop ShortIDStringLength (b32_encode _)). apply elem_of_app. by left. }
  assert (Hch : Forall (λ c, c ∈ alphabet ∨ c = "="%char) (b32_encode (be_encode 8 (fModifiedBy file)))).
  { pose proof (length_be_encode 8 (fModifiedBy file)) as Hl.
    destruct (be_encode 8 _) as [|a [|b [|c [|d [|e [|f [|g [|h [|]]]]]]]]]; try discriminate Hl.
    assert (Hg : ∀ bs, Forall (λ c, c ∈ alphabet ∨ c = "="%char) (encode_group bs)).
    { intros bs. eapply Forall_impl; [apply encode_group_alphabet|]. by left. }
    cbn [b32_encode]. apply Forall_app. split; [apply Hg|]. apply Forall_app. split; [apply Hg|].
    apply Forall_replicate. by right. }
  rewrite Forall_forall in Hch. destruct (Hch _ Hs) as [Ha|Ha]; [|done]. revert Ha. by apply (bool_decide_unpack _).
Qed.

Lemma plain_app a b : plain (a ++ b) ↔ plain a ∧ plain b.
Proof. apply Forall_app. Qed.
Lemma conflictPattern_matches name q : plain name → filepath_Match (conflictPattern name) q = Some true → copy_of name q.
Proof.
  intros Hp. destruct (Ext_spec name) as [En He]. rewrite En in Hp. apply plain_app in Hp as [Hps Hpe].
  assert (E : conflictPattern name = (stem name ++ conflictMark) ++ "?"%char :: s2l "???????-??????*" ++ Ext name).
  { unfold conflictPattern. fold (stem name). by rewrite <-(assoc_L (++)). }
  rewrite E. intros H. assert (Hno : ∀ c, c ∈ special ++ [sep] → c ∉ s2l "?" → c ∉ s2l "*" → c ∉ Ext name → c ∉ "?"%char :: s2l "???????-??????*" ++ Ext name).
  { intros c Hc H1 H2 H3. change ("?"%char :: s2l "???????-??????*" ++ Ext name) with (s2l "????????-??????*" ++ Ext name).
    rewrite elem_of_app. intros [H4|H4]; [|done]. set_unfold in Hc. set_unfold in H1. set_unfold in H2. set_unfold in H4.
    repeat (destruct H4 as [->|H4]; [naive_solver|]). done. }
  unfold plain in Hpe. rewrite Forall_forall in Hpe.
  assert (Hspec : ∀ c, c ∈ special → c ∉ Ext name) by (intros c Hc Hin; by apply (Hpe c)).
  apply Match_literal in H as (y & -> & Hy).
  - exists y. split; [done|]. by rewrite <-(assoc_L (++)).
  - apply plain_app. split; [done|]. apply (bool_decide_unpack _). by vm_compute.
  - done.
  - apply Hno; [set_solver|by apply (bool_decide_unpack _)..|done].
  - apply Hno; [set_solver|by apply (bool_decide_unpack _)..|apply Hspec; set_solver].
  - apply Hno; [set_solver|by apply (bool_decide_unpack _)..|apply Hspec; set_solver].
Qed.

(** The names of conflict copies that are listed, and those of a directory. *)
Definition listed (name q : path) : Prop := filepath_Match (conflictPattern name) q = Some true.
#[export] Instance listed_dec name q : Decision (listed name q).
Proof. unfold listed. exact _. Defined.
Definition below (name p : path) : Prop := ∃ x, p = name ++ sep :: x.

(** *** The order of names *)
Lemma bytes_le_cons x a y b :
  bytes_le (x :: a) (y :: b) = true ↔ byte_val x < byte_val y ∨ (byte_val x = byte_val y ∧ bytes_le a b = true).
Proof. cbn. by rewrite orb_true_iff, andb_true_iff, Z.ltb_lt, Z.eqb_eq. Qed.
Lemma bytes_le_total a b : bytes_le a b = true ∨ bytes_le b a = true.
Proof.
  revert b. induction a as [|x a IH]; intros [|y b]; [by left|by left|by right|]. rewrite !bytes_le_cons.
  destruct (IH b), (Z.lt_total (byte_val x) (byte_val y)) as [?|[?|?]]; auto.
Qed.
Lemma bytes_le_antisym a b : bytes_le a b = true → bytes_le b a = true → a = b.
Proof.
  revert b. induction a as [|x a IH]; intros [|y b]; [done..|]. rewrite !bytes_le_cons. intros [?|[E H1]] [?|[? H2]]; try lia.
  apply byte_val_inj in E as ->. f_equal. by apply IH.
Qed.
Lemma bytes_le_trans a b c : bytes_le a b = true → bytes_le b c = true → bytes_le a c = true.
Proof.
  revert b c. induction a as [|x a IH]; intros [|y b] [|z c]; [done..|]. rewrite !bytes_le_cons.
  intros [?|[E1 H1]] [?|[E2 H2]]; [left; lia..|]. right. split; [congruence|by eapply IH].
Qed.
Lemma path_lt_le a b : path_lt a b = false ↔ bytes_le b a = true.
Proof.
  unfold path_lt. destruct (bytes_le_total a b) as [H|H]; rewrite H; cbn.
  - case_bool_decide as E; [subst; by rewrite H|]. cbn. split; [done|]. intros H'. by destruct E; apply bytes_le_antisym.
  - case_bool_decide as E; [subst; by rewrite H, andb_false_r|]. rewrite andb_true_r. split; [done|]. intros _.
    destruct (bytes_le a b) eqn:H'; [|done]. by destruct E; apply bytes_le_antisym.
Qed.
Lemma path_lt_total a b : path_lt a b = false → a ≠ b → path_lt b a = true.
Proof.
  intros H Hne. destruct (path_lt b a) eqn:H'; [done|]. apply path_lt_le in H, H'. by destruct Hne; apply bytes_le_antisym.
Qed.

Lemma StronglySorted_app_elem {A} (R : A → A → Prop) l1 l2 x y :
  StronglySorted R (l1 ++ l2) → x ∈ l1 → y ∈ l2 → R x y.
Proof.
  induction l1 as [|z l1 IH]; cbn; [by intros _ ?%elem_of_nil|]. intros [H1 H2]%StronglySorted_inv Hx Hy.
  apply elem_of_cons in Hx as [->|Hx]; [|by apply IH]. rewrite Forall_forall in H2. apply H2, elem_of_app. by right.
Qed.
(** What is dropped after the [k] latest names has [k] later ones. *)
Lemma drop_sorted_later ps k p :
  NoDup ps → p ∈ drop k (sort_by (λ a b, path_lt b a) ps) →
  ∃ later, NoDup later ∧ length later = k ∧ ∀ q, q ∈ later → path_lt p q = true ∧ q ∈ ps.
Proof.
  intros Hnd Hp. pose proof (sort_by_perm (λ a b, path_lt b a) ps) as Hperm.
  assert (Hs : StronglySorted (λ a b, path_lt a b = false) (sort_by (λ a b, path_lt b a) ps)).
  { apply (sort_by_sorted (λ a b, path_lt b a)).
    - intros x y H. apply path_lt_le. unfold path_lt in H. by apply andb_true_iff in H as [H _].
    - intros x y z. rewrite !path_lt_le. intros H1 H2. by eapply bytes_le_trans. }
  set (sorted := sort_by _ ps) in *. rewrite <-Hperm in Hnd. exists (take k sorted).
  rewrite <-(take_drop k sorted) in Hs, Hnd. apply NoDup_app in Hnd as (Hnt & Hdis & _). split_and!; [done| |].
  - rewrite length_take. apply Nat.min_l. destruct (decide (k ≤ length sorted)%nat); [done|].
    rewrite drop_ge in Hp by lia. by apply elem_of_nil in Hp.
  - intros q Hq. split; [|rewrite <-Hperm, <-(take_drop k sorted), elem_of_app; by left].
    apply path_lt_total; [by eapply (StronglySorted_app_elem (λ a b, path_lt a b = false))|].
    intros ->. by apply (Hdis p).
Qed.

(** ** Operations keep what may not go *)
Section safe_ops.
Context {F : Filesystem} {FL : FilesystemLaws F}.
Context (cfg : FolderConfiguration) (modTimeWindow : Z) (GOOS : string).
Context (ignoreMatch : path → Z) (sdb : path → ferr + option FileInfo).
Context (versioner : option (path → M unit)) (stamp : path).
Context (lookup_user lookup_group : string → option string) (depth : nat).
Context (L : path → item → Prop) (C : path → item → path → Prop) (HLC : reasons L C).
(** The name that is handled, and that of its new conflict copy. *)
Context (n newName : path).
Abbreviation vw w := (view (wDisk w)).
Abbreviation T := (λ q, q = n ∨ copy_of n q ∧ q ≠ newName).
Abbreviation K := (safe L C T).
#[local] Instance K_preorder : PreOrder K := safe_preorder L C HLC T.

(** What archives a file takes nothing else away, and tells the database nothing. *)
Definition archives_one (Archive : path → M unit) : Prop :=
  ∀ p w, wJobs (Archive p w).1 = wJobs w ∧ (direct (vw w) p → steady (λ q, q = p ∨ copy_of p q) w (Archive p w).1 ∧
    ∀ q i, q ≠ p → IsDir i = false → vw w !! q = Some i → ∃ i', vw (Archive p w).1 !! q = Some i' ∧ same_content i i').
Context (Hversioner : ∀ Archive, versioner = Some Archive → archives_one Archive).

Lemma K_meta {A} (m : M A) w : stays meta m w → stays K m w.
Proof. apply safe_meta. Qed.
Lemma K_quiet w w' : quiet w w' → K w w'.
Proof. intros [_ H]. by apply safe_meta. Qed.

Lemma K_remove_all ps w :
  direct (vw w) n → Forall (λ p, copy_of n p ∧ ∀ i, L p i) ps → stays K (remove_all ps) w.
Proof.
  intros Hd Hps. revert w Hd. induction Hps as [|p ps [Hp HLp] _ IH]; intros w Hd; cbn [remove_all]; [stays_end|].
  pose proof (direct_copy _ _ _ Hd Hp) as Hdp.
  assert (Hr : stays K (attempt (Remove p)) w) by (apply stays_attempt, safe_Remove; [done|]; intros i _ _; by apply HLp).
  apply stays_bind; [exact _|done|intros r _]. apply IH. by apply Hr.
Qed.

(** An old copy: as many later ones as the limit are among the paths of [P]. *)
Definition outnumbered (P : path → Prop) (p : path) : Prop :=
  listed n p ∧ ∃ later, NoDup later ∧ Z.of_nat (length later) = fcMaxConflicts cfg ∧
    Forall (λ q, path_lt p q = true ∧ listed n q ∧ P q) later.

Lemma K_remove_excess w :
  direct (vw w) n → plain n → 0 < fcMaxConflicts cfg →
  (∀ p, outnumbered (λ q, is_Some (vw w !! q)) p → ∀ i, L p i) →
  stays K (let! matches_ := existingConflicts n in
    if fcMaxConflicts cfg <? Z.of_nat (length matches_)
    then remove_all (drop (Z.to_nat (fcMaxConflicts cfg)) (sort_by (λ a b, path_lt b a) matches_)) else mret tt) w.
Proof.
  intros Hd Hplain Hpos HLx. apply stays_bind; [exact _|apply K_meta; eauto with effects|].
  intros ms Hms. case_match eqn:Hlen; [|stays_end].
  assert (Hglob : NoDup ms ∧ ∀ q, q ∈ ms → listed n q ∧ is_Some (vw w !! q)).
  { unfold existingConflicts, mbind, M_bind, attempt in Hms. pose proof (call_result (fs_Glob (conflictPattern n)) w) as Hr.
    destruct (call (fs_Glob (conflictPattern n)) w) as [w2 r2]. cbn in Hms, Hr. injection Hms as <-.
    destruct r2 as [e|names]; [split; [constructor|by intros q ?%elem_of_nil]|]. symmetry in Hr.
    split; [by eapply Glob_nodup|]. intros q Hq. by eapply Glob_matches. }
  destruct Hglob as [Hnd Hms'].
  apply K_remove_all; [by apply (meta_only_direct (vw w)); [apply meta_existingConflicts|]|].
  apply Forall_forall. intros p Hp. set (k := Z.to_nat (fcMaxConflicts cfg)) in *.
  destruct (drop_sorted_later ms k p Hnd Hp) as (later & Hnl & Hll & Hlater).
  assert (Hpm : p ∈ ms) by (rewrite <-(sort_by_perm (λ a b, path_lt b a) ms), <-(take_drop k (sort_by _ ms)), elem_of_app; by right).
  split; [by apply conflictPattern_matches, Hms'|]. apply HLx. split; [by apply Hms'|]. exists later.
  split_and!; [done|unfold k in Hll; lia|]. apply Forall_forall. intros q Hq. destruct (Hlater q Hq) as [? [? ?]%Hms']. done.
Qed.

(** The item that is in the way at [name]. *)
Definition in_the_way (w : world) (name : path) : Prop :=
  direct (vw w) name ∧ ∀ i, vw w !! name = Some i → IsDir i = false → L name i.
(** A file that becomes a copy of itself; what is overwritten may go, or is the same. *)
Definition to_be_copied (w : world) (name copy : path) : Prop :=
  direct (vw w) name ∧ (∀ i, vw w !! name = Some i → IsRegular i = true ∧ C name i copy) ∧
  ∀ i j, vw w !! copy = Some i → vw w !! name = Some j → L copy i ∨ same_content i j.

Lemma in_the_way_meta w w' name : meta w w' → in_the_way w name → in_the_way w' name.
Proof.
  intros Hm [Hd Hi]. split; [by eapply meta_only_direct|]. intros i Hn Hdi.
  destruct (meta_back _ _ _ _ Hm Hn) as (j & Hj & Hs). eapply (L_content _ _ HLC); [exact Hs|]. apply Hi; [done|].
  by rewrite <-(same_content_IsDir _ _ Hs).
Qed.
Lemma to_be_copied_meta w w' name copy : meta w w' → to_be_copied w name copy → to_be_copied w' name copy.
Proof.
  intros Hm (Hd & Hi & Hn). split_and!; [by eapply meta_only_direct|intros i Hp|intros i j Hp Hpj];
    destruct (meta_back _ _ _ _ Hm Hp) as (i1 & Hi1 & Hs).
  - destruct (Hi i1 Hi1) as [Hr HC]. split; [|by eapply (C_content _ _ HLC)]. unfold IsRegular in *.
    by rewrite (same_content_IsDir _ _ Hs), (same_content_IsLink _ _ Hs).
  - destruct (meta_back _ _ _ _ Hm Hpj) as (j1 & Hj1 & Hsj). destruct (Hn i1 j1 Hi1 Hj1) as [?|Hs1].
    + left. by eapply (L_content _ _ HLC).
    + right. eapply same_content_trans; [by apply same_content_sym|]. by eapply same_content_trans.
Qed.

Lemma K_remove_instead name w : in_the_way w name → stays K (remove_instead name) w.
Proof.
  intros [Hd Hi]. unfold remove_instead. effects. apply safe_Remove; [done..|]. intros i Hdi Hn. by apply Hi.
Qed.

Lemma K_moveForConflict by_ w :
  newName = conflictName stamp n by_ →
  (isConflict n = true ∨ fcMaxConflicts cfg = 0 → in_the_way w n) →
  (isConflict n = false → fcMaxConflicts cfg ≠ 0 →
    to_be_copied w n newName ∧ (-1 < fcMaxConflicts cfg → plain n)) →
  sep ∉ stamp → sep ∉ by_ →
  (0 < fcMaxConflicts cfg → ∀ p, outnumbered (λ q, q = newName ∨ is_Some (vw w !! q)) p → ∀ i, L p i) →
  wp K (moveForConflict cfg stamp by_ n) w (λ _ w', isConflict n = false → fcMaxConflicts cfg ≠ 0 → vw w' !! n = None).
Proof.
  intros HnN Hway Hcopied Hs Hb HLx. unfold moveForConflict. destruct (isConflict n) eqn:Hc.
  { split; [apply K_remove_instead; auto|done]. }
  destruct (fcMaxConflicts cfg =? 0) eqn:H0.
  { split; [apply K_remove_instead, Hway; right; zb; lia|]. intros; zb; lia. }
  destruct Hcopied as [(Hd & Hi & Hn) Hplain]; [done|zb; lia|]. clear Hway. cbv zeta. rewrite <-HnN.
  assert (Hcn : copy_of n newName) by (rewrite HnN; by apply conflictName_copy).
  assert (Hdn : direct (vw w) newName) by (by eapply direct_copy).
  assert (Hne : newName ≠ n) by (rewrite HnN; apply conflictName_ne).
  assert (Hren : stays K (call (fs_Rename n newName)) w).
  { apply safe_Rename; [done..|intros [?|[_ ?]]; done|intros i Hp; destruct (Hi i Hp); auto|].
    intros _ i j _. apply Hn. }
  apply wp_bind with (Q' := λ r w1, match r with inr _ => vw w1 !! n = None | inl e => IsNotExist e = true → vw w1 !! n = None end);
    [exact _| |].
  { split; [by apply stays_attempt|]. intros r [Hr ->]%attempt_inr. rewrite call_result in Hr. rewrite call_view. destruct r as [e|[]].
    - intros He. rewrite (Rename_fails _ _ _ _ Hr). apply (Rename_gone n newName _ e); [done| |done..].
      rewrite HnN. apply Dir_copy. by apply conflictName_copy.
    - destruct (Rename_ok _ _ _ Hd Hdn Hr) as (i & Hi' & Hv). destruct (Hi i Hi') as [[Hdi%negb_true_iff _]%andb_true_iff _].
      rewrite (Hv Hdi), lookup_insert_ne by done. apply lookup_delete_eq. }
  intros r w1 HK Hgone. assert (Hd1 : direct (vw w1) n) by (by apply HK).
  assert (HLx1 : 0 < fcMaxConflicts cfg → ∀ p, outnumbered (λ q, is_Some (vw w1 !! q)) p → ∀ i, L p i).
  { intros Hpos p [Hp (later & Hnl & Hll & Hlater)]. apply HLx; [done|]. split; [done|]. exists later. split_and!; [done..|].
    eapply Forall_impl; [exact Hlater|]. intros q (Hq1 & Hq2 & j & Hj). split_and!; [done..|].
    destruct (decide (q = newName)) as [->|Hqn]; [by left|]. right. destruct HK as (_ & _ & _ & Hback).
    destruct (Hback q j) as (j' & Hj' & _); [right; split; [|done]; apply conflictPattern_matches; [apply Hplain; lia|done]|done|by exists j']. }
  clear Hren Hi Hn HLx.
  apply wp_bind with (Q' := λ _ w2, vw w1 !! n = None → vw w2 !! n = None); [exact _| |].
  { assert (HKr : stays K (if -1 <? fcMaxConflicts cfg
        then let! matches_ := existingConflicts n in
             if fcMaxConflicts cfg <? Z.of_nat (length matches_)
             then remove_all (drop (Z.to_nat (fcMaxConflicts cfg)) (sort_by (λ a b, path_lt b a) matches_)) else mret tt
        else mret tt) w1).
    { destruct (-1 <? fcMaxConflicts cfg) eqn:Hm; [|stays_end]. zb.
      apply K_remove_excess; [done|apply Hplain; lia|lia|apply HLx1; lia]. }
    split; [exact HKr|]. intros _ _ Hno. apply eq_None_not_Some. intros [i E].
    destruct HKr as (_ & _ & _ & Hback). destruct (Hback n i (or_introl eq_refl) E) as (j & Hj & _). congruence. }
  intros _ w2 HK2 Hgone2. split; [apply K_meta; effects|]. intros [] Hend _ _.
  destruct r as [e|[]]; [destruct (IsNotExist e); [|done]|]; by apply Hgone2, Hgone.
Qed.

(** *** Walking *)

(** Nothing is lost, and no items appear. *)
Definition shrinks (w w' : world) : Prop :=
  K w w' ∧ ∀ p i', vw w' !! p = Some i' → ∃ i, vw w !! p = Some i ∧ same_content i i'.
#[local] Instance shrinks_preorder : PreOrder shrinks.
Proof.
  split; [intros w; split; [done|]; eauto using same_content_refl|]. intros w1 w2 w3 [H1 H2] [H3 H4]. split; [by etrans|].
  intros p i3 Hp. destruct (H4 p i3 Hp) as (i2 & Hi2 & ?). destruct (H2 p i2 Hi2) as (i1 & ? & ?).
  eauto using same_content_trans.
Qed.
Lemma shrinks_direct w w' p : shrinks w w' → direct (vw w) p → direct (vw w') p.
Proof. intros [H _]. apply H. Qed.
Lemma shrinks_meta w w' : meta w w' → shrinks w w'.
Proof. intros H. split; [by apply safe_meta|]. intros p i. by apply meta_back. Qed.
Lemma shrinks_of_meta {A} (m : M A) w : stays meta m w → stays shrinks m w.
Proof. apply shrinks_meta. Qed.
Lemma shrinks_Remove p w :
  direct (vw w) p → (∀ i, IsDir i = false → vw w !! p = Some i → L p i) → stays shrinks (Remove p) w.
Proof.
  intros Hd Hp. split; [by apply safe_Remove|]. intros q i. unfold Remove. rewrite call_view.
  destruct ((fs_Remove p (wDisk w)).2) as [e|[]] eqn:E.
  - rewrite (Remove_fails _ _ _ E). eauto using same_content_refl.
  - rewrite (proj1 (Remove_ok p (wDisk w) Hd E)). intros [_ Hq]%lookup_delete_Some. eauto using same_content_refl.
Qed.

Section walking.
Context {S : Type} (walkFn : path → ferr + item → S → M (S * option ferr)) (I : S → world → Prop).
(** Of the paths that are visited. *)
Context (B : path → Prop) (HB : ∀ es nm, Forall normal es → normal nm → B (build false es) → B (build false (es ++ [nm]))).
Context (HI : ∀ l w w', shrinks w w' → I l w → I l w').
Definition keeps_I (m : M (S * option ferr)) (w : world) : Prop := wp shrinks m w (λ lr w', I lr.1 w').
Context (Hfn : ∀ p info l w, B p → direct (vw w) p → I l w → keeps_I (walkFn p info l) w).

Lemma walk_entries_keeps sub dir names l w :
  (∀ name, name ∈ names → normal name ∧ B (Join [dir; name]) ∧ direct (vw w) (Join [dir; name])) →
  (∀ name info l w, normal name → direct (vw w) (Join [dir; name]) → I l w → keeps_I (sub (Join [dir; name]) info l) w) →
  I l w → keeps_I (walk_entries walkFn sub dir names l) w.
Proof.
  intros Hnames Hsub. revert l w Hnames. induction names as [|name names IH]; intros l w Hnames Hl; cbn [walk_entries].
  { by apply wp_ret; [exact _|]. }
  destruct (Hnames name) as (Hn & HBn & Hd); [left|].
  apply wp_bind with (Q' := λ _ _, True); [exact _|apply wp_stays, shrinks_of_meta; effects|]. intros info w1 H1 _.
  assert (Hd1 : direct (vw w1) (Join [dir; name])) by (by eapply shrinks_direct).
  apply wp_bind with (Q' := λ lr w', I lr.1 w'); [exact _| |].
  { destruct info as [e|info]; (apply wp_bind with (Q' := λ lr w', I lr.1 w'); [exact _|first [apply Hfn|apply Hsub]; [done..|by eapply HI]|]);
      intros [l2 r2] w2 _ Hl2; by (apply wp_ret; [exact _|]). }
  intros [l2 r2] w2 H2 Hl2. destruct r2 as [e|]; [apply wp_ret; [exact _|done]|]. apply IH; [|done].
  intros nm Hin. destruct (Hnames nm) as (Hnn & HBnn & Hnd); [by right|]. split_and!; [done..|]. eapply shrinks_direct, shrinks_direct; done.
Qed.

Lemma walk_keeps fuel es info l w :
  Forall normal es → B (build false es) → direct (vw w) (build false es) → I l w → keeps_I (walk walkFn fuel (build false es) info l) w.
Proof.
  revert es info l w. induction fuel as [|fuel IH]; intros es info l w Hes HBe Hd Hl; cbn [walk]; [by apply wp_ret; [exact _|]|].
  rewrite Canonicalize_build by done.
  apply wp_bind with (Q' := λ lr w', I lr.1 w'); [exact _|by apply Hfn|]. intros [l1 r1] w1 H1 Hl1.
  destruct r1 as [e|]; [by apply wp_ret; [exact _|]|]. destruct (_ && _); [by apply wp_ret; [exact _|]|].
  assert (Hd1 : direct (vw w1) (build false es)) by (by eapply shrinks_direct).
  apply wp_bind with (Q' := λ names w', vw w' = vw w1 ∧ ∀ ns, names = inr ns → ∀ nm, nm ∈ ns →
    normal nm ∧ is_Some (vw w1 !! Join [build false es; nm])); [exact _| |].
  { pose proof (call_result (fs_DirNames (build false es)) w1) as Hr. pose proof (call_view (fs_DirNames (build false es)) w1) as Hv.
    rewrite DirNames_reads in Hv. split.
    - rewrite attempt_world. apply shrinks_meta. unfold meta. rewrite Hv. apply meta_only_refl.
    - intros names E%attempt_result. rewrite attempt_world. split; [done|]. intros ns -> nm Hin. rewrite E in Hr. symmetry in Hr.
      by apply (DirNames_there (build false es) (wDisk w1) ns nm). }
  intros [e|ns] w2 H2 [Hv Hns]; [apply Hfn; [done|by eapply shrinks_direct|by eapply HI]|].
  apply walk_entries_keeps; [| |by eapply HI].
  - intros nm Hin. destruct (Hns ns eq_refl nm Hin) as [Hn [i Hi]]. split; [done|].
    split; [rewrite Join_build by (done || by apply Forall_normal_nf); by apply HB|]. rewrite Hv. eapply tree_direct; [apply view_tree|done].
  - intros nm info' l' w' Hn Hdn Hl'. assert (Ej : Join [build false es; nm] = build false (es ++ [nm])) by (apply Join_build; [by apply Forall_normal_nf|done]).
    rewrite Ej in Hdn |- *. apply IH; [|by apply HB|done..].
    apply Forall_app. by split; [|apply Forall_singleton].
Qed.

Lemma Walk_keeps fuel es l w :
  Forall normal es → B (build false es) → direct (vw w) (build false es) → I l w → keeps_I (Walk walkFn fuel (build false es) l) w.
Proof.
  intros Hes HBe Hd Hl. unfold Walk. apply wp_bind with (Q' := λ _ _, True); [exact _|apply wp_stays, shrinks_of_meta; effects|].
  intros info w1 H1 _. assert (Hd1 : direct (vw w1) (build false es)) by (by eapply shrinks_direct).
  destruct info as [e|info]; [apply Hfn; [done..|by eapply HI]|]. apply walk_keeps; [done..|by eapply HI].
Qed.
End walking.

(** *** Deleting what is below a directory *)
Context (HLtemp : ∀ p i, below n p → IsTemporary p = true → L p i).
Context (HLdel : ∀ p i, below n p → Ignore.IsDeletable (ignoreMatch p) = true → L p i).

Definition to_delete (l : children) (w : world) : Prop :=
  Forall (λ p, direct (vw w) p ∧ below n p ∧ Ignore.IsDeletable (ignoreMatch p) = true) (dirsToDelete l).
Lemma to_delete_shrinks l w w' : shrinks w w' → to_delete l w → to_delete l w'.
Proof. intros H Hl. eapply Forall_impl; [exact Hl|]. intros p [H1 H2]. split; [by eapply shrinks_direct|done]. Qed.

Lemma note_delErr_dirs l r : dirsToDelete (note_delErr l r) = dirsToDelete l.
Proof. unfold note_delErr. by destruct r, (delErr l). Qed.

Lemma to_be_scanned_keeps p l w : to_delete l w → wp shrinks (to_be_scanned p l) w (λ lr w', to_delete lr.1 w').
Proof.
  intros Hl. split; [apply shrinks_of_meta; unfold to_be_scanned; effects|]. cbn. intros a [= <-]. exact Hl.
Qed.

Lemma visit_child_keeps p info l w :
  p = n ∨ below n p → direct (vw w) p → to_delete l w →
  wp shrinks (visit_child cfg modTimeWindow GOOS ignoreMatch sdb n p info l) w (λ lr w', to_delete lr.1 w').
Proof.
  intros HB Hd Hl. unfold visit_child. case_bool_decide as Hne; [by apply wp_ret; [exact _|]|]. destruct HB as [?|HB]; [done|].
  destruct info as [e|info]; [by apply wp_ret; [exact _|]|]. cbv zeta.
  destruct (Ignore.IsDeletable (ignoreMatch p) && IsDir info) eqn:Hdel.
  { apply wp_ret; [exact _|]. apply andb_true_iff in Hdel as [Hdel _]. apply Forall_app. split; [done|].
    by apply Forall_singleton. }
  destruct (Ignore.IsDeletable (ignoreMatch p) || IsTemporary p) eqn:Hgo.
  { apply wp_bind with (Q' := λ _ _, True); [exact _| |].
    - apply wp_stays. apply stays_attempt. apply shrinks_Remove; [done|]. intros i _ _.
      apply orb_true_iff in Hgo as [Hgo|Hgo]; [by apply HLdel|by apply HLtemp].
    - intros r w1 H1 _. apply wp_ret; [exact _|]. cbn [fst]. unfold to_delete. rewrite note_delErr_dirs.
      by eapply to_delete_shrinks. }
  destruct (Ignore.IsIgnored _); [by apply wp_ret; [exact _|]|].
  destruct (sdb p) as [e|[cf|]]; [by apply wp_ret; [exact _|]| |by apply to_be_scanned_keeps].
  destruct (IsDeleted cf); [by apply to_be_scanned_keeps|].
  destruct ((fcType cfg =? FolderTypeReceiveOnly) && IsReceiveOnlyChanged cf); [by apply wp_ret; [exact _|]|].
  apply wp_bind with (Q' := λ _ _, True); [exact _|apply wp_stays, shrinks_of_meta; effects|]. intros diskFile w1 H1 _.
  pose proof (to_delete_shrinks _ _ _ H1 Hl) as Hl1.
  destruct diskFile as [e|df]; [by apply to_be_scanned_keeps|].
  destruct (equivalent _ _ _ cf df false); [by apply wp_ret; [exact _|]|by apply to_be_scanned_keeps].
Qed.

Lemma remove_dirs_keeps dirs l w :
  Forall (λ p, direct (vw w) p ∧ below n p ∧ Ignore.IsDeletable (ignoreMatch p) = true) dirs → stays shrinks (remove_dirs dirs l) w.
Proof.
  revert l w. induction dirs as [|d dirs IH]; intros l w Hd; cbn [remove_dirs]; [stays_end|].
  apply Forall_cons in Hd as [(Hdir & Hbel & Hdel) Hd].
  assert (Hr : stays shrinks (attempt (Remove d)) w).
  { apply stays_attempt, shrinks_Remove; [done|]. intros i _ _. by apply HLdel. }
  apply stays_bind; [exact _|done|intros r _]. apply IH. eapply Forall_impl; [exact Hd|]. intros p [H1 H2].
  split; [by eapply shrinks_direct|done].
Qed.

Lemma handleChildren_keeps w :
  good_name n → direct (vw w) n →
  stays shrinks (deleteDirOnDiskHandleChildren cfg modTimeWindow GOOS ignoreMatch sdb depth n) w.
Proof.
  intros (es & Hne & Hes & E) Hd. unfold deleteDirOnDiskHandleChildren.
  enough (H : wp shrinks (Walk (visit_child cfg modTimeWindow GOOS ignoreMatch sdb n) depth n
    (MkChildren [] false false false false None)) w (λ lr w', to_delete lr.1 w')).
  { destruct H as [H1 H2]. apply stays_bind; [exact _|exact H1|]. intros [l err] El. specialize (H2 _ El). cbn [fst] in H2.
    destruct err as [e|]; [stays_end|]. apply stays_bind; [exact _|apply remove_dirs_keeps; by apply Forall_rev|].
    intros l' _. apply shrinks_of_meta. effects. }
  rewrite E at 2. apply Walk_keeps with (I := to_delete) (B := λ p, p = n ∨ below n p).
  - intros es' nm Hes' Hnm HB. right. destruct (decide (es' = [])) as [->|Hne'].
    + exfalso. assert (n ≠ dot) as Hdot.
      { rewrite E. intros Ed. apply (f_equal (split_byte sep)) in Ed. rewrite split_build in Ed by (by apply Forall_normal_nf).
        destruct es as [|e es]; [done|]. injection Ed as -> ->. apply Forall_cons in Hes as [(_ & H & _) _]. done. }
      change (build false []) with dot in HB. destruct HB as [HB|[x HB]]; [done|].
      destruct n as [|c [|]]; injection HB; by intros.
    + destruct (build_below (es' ++ [nm]) (length es')) as [x Ex].
      * apply Forall_app. by split; [|apply Forall_singleton].
      * rewrite length_app. destruct es'; cbn; [done|lia].
      * rewrite Ex, take_app_length. destruct HB as [->|[y ->]]; [by exists x|].
        exists (y ++ sep :: x). by rewrite <-(assoc_L (++)).
  - apply to_delete_shrinks.
  - intros p info l w' HB. by apply visit_child_keeps.
  - done.
  - by left.
  - by rewrite <-E.
  - constructor.
Qed.

(** Directories are not files that could be lost; what is below them goes only when it may. *)
Lemma deleteDirOnDisk_keeps w :
  good_name n → (∀ i, vw w !! n = Some i → IsDir i = false → L n i) →
  stays K (deleteDirOnDisk cfg modTimeWindow GOOS ignoreMatch sdb depth n) w.
Proof.
  intros Hgood Hname. unfold deleteDirOnDisk. apply stays_bind; [exact _|apply K_meta; eauto with effects|]. intros [] Ht.
  apply TraversesSymlink_direct in Ht; [|done]. assert (Hm : meta w (TraversesSymlink (Dir n) w).1) by apply meta_TraversesSymlink.
  set (w1 := (TraversesSymlink (Dir n) w).1) in *. clearbody w1.
  pose proof (meta_only_direct _ _ _ Hm Ht) as Hd1.
  assert (Hname1 : ∀ i, vw w1 !! n = Some i → IsDir i = false → L n i).
  { intros i Hi Hdi. destruct (meta_only_Some _ _ _ _ (meta_only_sym _ _ Hm) Hi) as (j & Hj & Hs).
    eapply (L_content _ _ HLC); [by apply same_content_sym|]. apply Hname; [done|]. by rewrite (same_content_IsDir _ _ Hs). }
  assert (Hch : shrinks w1 (deleteDirOnDiskHandleChildren cfg modTimeWindow GOOS ignoreMatch sdb depth n w1).1).
  { by apply handleChildren_keeps. }
  apply stays_bind; [exact _|exact (proj1 Hch)|intros [] _].
  set (w2 := (deleteDirOnDiskHandleChildren cfg modTimeWindow GOOS ignoreMatch sdb depth n w1).1) in *. clearbody w2.
  apply stays_bind; [exact _| |intros r _; apply K_meta; effects].
  apply stays_attempt. apply stays_inWritableDir; [exact _|apply K_quiet|]. intros w3 Hq%quiet_meta.
  assert (Hch2 : shrinks w1 w3) by (etrans; [exact Hch|by apply shrinks_meta]).
  apply safe_Remove; [by eapply shrinks_direct|]. intros i Hdi Hi. destruct (proj2 Hch2 n i Hi) as (j & Hj & Hs).
  eapply (L_content _ _ HLC); [exact Hs|]. apply Hname1; [done|]. by rewrite <-(same_content_IsDir _ _ Hs).
Qed.
End safe_ops.

(** ** What may go *)
Definition none {A} (_ : A) : Prop := False.
Section reasons_of.
Context {F : Filesystem}.
Context (cfg : FolderConfiguration) (modTimeWindow : Z) (GOOS : string) (ignoreMatch : path → Z) (stamp : path).
(** The item that is handled, the records that were taken for the one of its name,
    other records whose item may go, the file that is put in place, and the world the
    handler starts in. *)
Context (file : FileInfo) (src also : FileInfo → Prop) (used : path → Prop) (w : world).
Abbreviation vw w := (view (wDisk w)).

(** The item on disk is a file in conflict with the new one, of which a copy is made. *)
Definition disputed (cur : FileInfo) : bool :=
  InConflictWith file cur && negb (IsSymlink cur) && negb (isConflict (fname file)) && negb (fcMaxConflicts cfg =? 0).
Definition copyName : path := conflictName stamp (fname file) (modifiedBy file).

(** The item of the world at the name of the file, which a record describes. *)
Definition recorded (R : FileInfo → Prop) (p : path) (i : item) : Prop :=
  p = fname file ∧ ∃ cur i0, R cur ∧ vw w !! p = Some i0 ∧ same_content i0 i ∧ known cfg modTimeWindow GOOS w cur p i0.
(** A conflict copy of the same second, if it is not the same. *)
Definition overwritten (p : path) (i : item) : Prop :=
  p = copyName ∧ (∃ i0, vw w !! p = Some i0 ∧ same_content i0 i) ∧ ∀ j, vw w !! fname file = Some j → ¬ same_content i j.

Definition may_go (p : path) (i : item) : Prop :=
  recorded (λ cur, src cur ∧ disputed cur = false ∨ also cur) p i ∨
  (below (fname file) p ∧ (IsTemporary p = true ∨ Ignore.IsDeletable (ignoreMatch p) = true)) ∨
  overwritten p i ∨
  (0 < fcMaxConflicts cfg ∧ outnumbered cfg (fname file) (λ q, q = copyName ∨ is_Some (vw w !! q)) p) ∨
  used p.
Definition may_move (p : path) (i : item) (q : path) : Prop :=
  q = copyName ∧ recorded (λ cur, src cur ∧ disputed cur = true) p i.

Lemma recorded_content R p i j : same_content i j → recorded R p i → recorded R p j.
Proof. intros Hs (? & cur & i0 & ? & ? & ? & ?). split; [done|]. exists cur, i0. split_and!; eauto using same_content_trans. Qed.

Lemma copyName_ne : copyName ≠ fname file.
Proof. apply conflictName_ne. Qed.

(** The new copy has the latest name, and is not the file that is put in place. *)
Context (Hstamp : sep ∉ stamp).
Context (Hlatest : 0 < fcMaxConflicts cfg → ∀ q, listed (fname file) q → is_Some (vw w !! q) → path_lt copyName q = false).
Context (Hused : ∀ p, used p → p ≠ copyName).
Lemma copyName_copy : copy_of (fname file) copyName.
Proof. apply conflictName_copy; [done|apply modifiedBy_no_sep]. Qed.
Lemma copyName_stays i : (∀ j, vw w !! fname file = Some j → same_content i j) → vw w !! fname file ≠ None → ¬ may_go copyName i.
Proof.
  intros Hi Hthere [(E & _)|[([x E] & _)|[(_ & _ & Hne)|[(Hpos & _ & later & _ & Hlen & Hall)|Hu]]]].
  - by apply copyName_ne.
  - destruct (copy_above _ _ _ _ copyName_copy E) as [x' E']. apply (f_equal length) in E'. rewrite length_app in E'. cbn in E'. lia.
  - destruct (vw w !! fname file) as [j|]; [|done]. by apply (Hne j); [|apply Hi].
  - destruct later as [|q later]; [cbn in Hlen; lia|]. apply Forall_cons in Hall as [(Hlt & Hl & [->|Hq]) _].
    + unfold path_lt in Hlt. by rewrite bool_decide_true, andb_false_r in Hlt.
    + by rewrite Hlatest in Hlt.
  - by apply (Hused copyName).
Qed.
Lemma may_reasons : reasons may_go may_move.
Proof.
  split.
  - intros p i j Hs [H|[H|[(E & (i0 & H1 & H2) & H3)|[H|H]]]].
    + left. by eapply recorded_content.
    + by right; left.
    + right. right. left. split; [done|]. split; [exists i0; split; [done|by eapply same_content_trans]|].
      intros k Hk Hjk. by eapply H3, same_content_trans.
    + by right; right; right; left.
    + by right; right; right; right.
  - intros p i j q Hs (? & ?). split; [done|]. by eapply recorded_content.
  - intros p i q j r (-> & _) (_ & E & _). by apply copyName_ne.
  - intros p i q (-> & -> & cur & i0 & _ & Hi0 & Hs & _). apply copyName_stays; [|congruence].
    intros j Hj. assert (j = i0) as -> by congruence. by apply same_content_sym.
Qed.
End reasons_of.

(** ** The handlers *)
Section handlers.
Context {F : Filesystem} {FL : FilesystemLaws F}.
Context (cfg : FolderConfiguration) (modTimeWindow : Z) (GOOS : string).
Context (ignoreMatch : path → Z) (sdb : path → ferr + option FileInfo).
Context (versioner : option (path → M unit)) (stamp : path).
Context (lookup_user lookup_group : string → option string) (depth : nat).
Abbreviation vw w := (view (wDisk w)).
Context (Hversioner : ∀ Archive, versioner = Some Archive → archives_one Archive).
Context (Hstamp : sep ∉ stamp).
(** The database finds records by their names. *)
Context (Hsdb : ∀ p f, sdb p = inr (Some f) → fname f = p).

Section one.
Context (file : FileInfo) (src also : FileInfo → Prop) (used : path → Prop) (w0 : world).
Abbreviation name := (fname file).
Abbreviation copy := (copyName stamp file).
Context (Hgood : good_name name).
Context (Hplain : -1 < fcMaxConflicts cfg → plain name).
Context (Hlatest : 0 < fcMaxConflicts cfg → ∀ q, listed name q → is_Some (vw w0 !! q) → path_lt copy q = false).
Context (Hused : ∀ p, used p → p ≠ copy).
Abbreviation L := (may_go cfg modTimeWindow GOOS ignoreMatch stamp file src also used w0).
Abbreviation C := (may_move cfg modTimeWindow GOOS stamp file src w0).
Lemma HLC : reasons L C.
Proof. by apply may_reasons. Qed.
Abbreviation T := (λ q, q = name ∨ copy_of name q ∧ q ≠ copy).
Abbreviation K := (safe L C T).
#[local] Instance K1_preorder : PreOrder K := safe_preorder L C HLC T.

Lemma K1_quiet w w' : quiet w w' → K w w'.
Proof. intros [_ H]. by apply safe_meta. Qed.
Lemma K1_meta {A} (m : M A) w : stays meta m w → stays K m w.
Proof. apply safe_meta. Qed.
Lemma L_temp p i : below name p → IsTemporary p = true → L p i.
Proof. intros ? ?. right. left. auto. Qed.
Lemma L_deletable p i : below name p → Ignore.IsDeletable (ignoreMatch p) = true → L p i.
Proof. intros ? ?. right. left. auto. Qed.

(** The item at the name of the file, while only metadata changed. *)
Definition at_hand (w : world) (cur : FileInfo) : Prop :=
  meta w0 w ∧ direct (vw w0) name ∧ src cur ∧ fname cur = name ∧
  ∃ i, vw w0 !! name = Some i ∧ known cfg modTimeWindow GOOS w0 cur name i.
Lemma at_hand_meta w w' cur : meta w w' → at_hand w cur → at_hand w' cur.
Proof. intros Hm (H1 & H2). split; [by etrans|done]. Qed.

Lemma at_hand_goes w cur : at_hand w cur → disputed cfg file cur = false → in_the_way L w name.
Proof.
  intros (Hm & Hd & Hsrc & Hn & i0 & Hi & Hk) Hdis. split; [by eapply meta_only_direct|]. intros i Hi' _.
  destruct (meta_back _ _ _ _ Hm Hi') as (j & Hj & Hs). assert (j = i0) as -> by congruence.
  left. split; [done|]. exists cur, i0. split; [by left|done].
Qed.
Lemma at_hand_dir w cur : at_hand w cur → IsDirectory cur = true → in_the_way L w name.
Proof.
  intros (Hm & Hd & Hsrc & Hn & i0 & Hi & Hk) Hdir. split; [by eapply meta_only_direct|]. intros i Hi' Hno.
  destruct (meta_back _ _ _ _ Hm Hi') as (j & Hj & Hs). assert (j = i0) as -> by congruence.
  apply known_kind in Hk as [Hk _]. rewrite (same_content_IsDir _ _ Hs) in Hno. congruence.
Qed.
Lemma at_hand_moves w cur : at_hand w cur → disputed cfg file cur = true → IsDirectory cur = false →
  to_be_copied L C w name copy.
Proof.
  intros (Hm & Hd & Hsrc & Hn & i0 & Hi & Hk) Hdis Hdir. split_and!; [by eapply meta_only_direct|intros i Hi'|intros i k Hi' Hk'].
  - destruct (meta_back _ _ _ _ Hm Hi') as (j & Hj & Hs). assert (j = i0) as -> by congruence.
    pose proof (known_kind _ _ _ _ _ _ _ Hk) as [Hk1 Hk2]. split.
    + unfold IsRegular. rewrite (same_content_IsDir _ _ Hs), (same_content_IsLink _ _ Hs), <-Hk1, <-Hk2, Hdir.
      unfold disputed in Hdis. destruct (IsSymlink cur); [|done]. by rewrite andb_false_r in Hdis.
    + split; [done|]. split; [done|]. by exists cur, i0.
  - destruct (meta_back _ _ _ _ Hm Hi') as (j & Hj & Hs), (meta_back _ _ _ _ Hm Hk') as (j0 & Hj0 & Hs0).
    destruct (decide (same_content i j0)) as [Hsame|Hdiff]; [right; by eapply same_content_trans|]. left. right. right. left.
    split; [done|]. split; [eauto|]. intros j1 Hj1. by assert (j1 = j0) as -> by congruence.
Qed.

(** What replaces an item takes it away as it should; what is left may go. *)
Definition may_replace (w : world) : Prop := ∀ i, vw w !! name = Some i → IsDir i = false → L name i.
Lemma may_replace_K w w' : K w w' → may_replace w → may_replace w'.
Proof.
  intros (_ & _ & _ & Hback) Hw i' Hi' Hdi. destruct (Hback name i' (or_introl eq_refl) Hi') as (i & Hi & Hs).
  eapply (L_content _ _ HLC); [exact Hs|]. apply Hw; [done|]. by rewrite <-(same_content_IsDir _ _ Hs).
Qed.
Lemma may_replace_quiet w w' : quiet w w' → may_replace w → may_replace w'.
Proof. intros Hq. by apply may_replace_K, K1_quiet. Qed.
Lemma wp_way (m : M unit) w : in_the_way L w name → stays K m w → wp K m w (λ _, may_replace).
Proof. intros [_ Hw] HK. split; [done|]. intros a _. by eapply may_replace_K. Qed.

Lemma K_conflict w cur : at_hand w cur → InConflictWith file cur = true → IsSymlink cur = false → IsDirectory cur = false →
  wp K (inWritableDir (moveForConflict cfg stamp (modifiedBy file)) (fname cur)) w (λ _, may_replace).
Proof.
  intros Hat Hcon Hlink Hdir. pose proof Hat as (_ & _ & _ & -> & _).
  apply wp_inWritableDir; [exact _|apply K1_quiet|apply may_replace_quiet|].
  intros w1 [_ Hq]. pose proof (at_hand_meta _ _ _ Hq Hat) as Hat1.
  assert (Hway : isConflict name = true ∨ fcMaxConflicts cfg = 0 → in_the_way L w1 name).
  { intros Hno. apply (at_hand_goes _ cur); [done|]. unfold disputed. rewrite Hcon, Hlink.
    destruct Hno as [-> | ->]; [done|]. by rewrite andb_false_r. }
  assert (HK : wp K (moveForConflict cfg stamp (modifiedBy file) name) w1
    (λ _ w', isConflict name = false → fcMaxConflicts cfg ≠ 0 → vw w' !! name = None)).
  { apply K_moveForConflict; [apply HLC|done..| |done|by apply modifiedBy_no_sep|].
    2:{ intros Hpos p [Hl (later & ? & ? & Hall)] i. right. right. right. left. split; [done|]. split; [done|]. exists later.
        split_and!; [done..|]. eapply Forall_impl; [exact Hall|]. intros q (? & ? & Hj). split; [done|]. split; [done|].
        destruct Hj as [?|[j Hj]]; [by left|]. right. destruct (meta_back _ _ _ _ (proj1 Hat1) Hj) as (j' & Hj' & _). by exists j'. }
    intros Hc H0. split; [|done]. apply (at_hand_moves _ cur); [done| |done].
    unfold disputed. rewrite Hcon, Hlink, Hc. cbn. by apply negb_true_iff, Z.eqb_neq. }
  destruct (decide (isConflict name = true ∨ fcMaxConflicts cfg = 0)) as [Hno|Hno]; [by apply wp_way; [apply Hway|apply HK]|].
  apply (wp_mono _ _ _ _ _ HK). intros _ w' _ Hgone i Hi _. rewrite Hgone in Hi; [done| |tauto].
  destruct (isConflict name); [tauto|done].
Qed.
Lemma K_remove w cur : at_hand w cur → disputed cfg file cur = false → stays K (inWritableDir Remove name) w.
Proof.
  intros Hat Hdis. apply stays_inWritableDir; [exact _|apply K1_quiet|].
  intros w1 [_ Hq]. destruct (at_hand_goes _ _ (at_hand_meta _ _ _ Hq Hat) Hdis) as [Hd Hi].
  apply safe_Remove; [done|]. intros i Hdi Hn. by apply Hi.
Qed.
Lemma K_archive Archive w cur : versioner = Some Archive → at_hand w cur → disputed cfg file cur = false →
  stays K (inWritableDir Archive name) w.
Proof.
  intros Hv Hat Hdis. apply stays_inWritableDir; [exact _|apply K1_quiet|].
  intros w1 [_ Hq]. destruct (at_hand_goes _ _ (at_hand_meta _ _ _ Hq Hat) Hdis) as [Hd Hi].
  destruct (proj2 (Hversioner _ Hv name w1) Hd) as [Hst Hkeep]. split; [|apply (steady_mono _ T) in Hst; [done|tauto]]. intros p i Hdi Hp.
  destruct (decide (p = name)) as [->|Hne]; [right; left; by apply Hi|]. left. by apply Hkeep.
Qed.

Lemma K_deleteItemOnDisk w cur : at_hand w cur → (IsDirectory cur = true ∨ disputed cfg file cur = false) →
  wp K (deleteItemOnDisk cfg modTimeWindow GOOS ignoreMatch sdb versioner depth cur) w (λ _, may_replace).
Proof.
  intros Hat Hor. pose proof Hat as (_ & _ & _ & Hn & _). unfold deleteItemOnDisk. rewrite Hn.
  apply wp_way; [destruct Hor; [by apply (at_hand_dir _ cur)|by apply (at_hand_goes _ cur)]|]. apply stays_wrap.
  destruct (IsDirectory cur) eqn:Hdir.
  - apply deleteDirOnDisk_keeps; [apply HLC|apply L_temp|apply L_deletable|done|].
    intros i Hi Hdi. by apply (at_hand_dir w cur).
  - destruct Hor as [?|Hdis]; [done|]. pose proof (λ A Hv, K_archive A w cur Hv Hat Hdis) as Ha.
    pose proof (K_remove w cur Hat Hdis) as Hr. destruct versioner as [Archive|]; [|done].
    destruct (negb (IsSymlink cur)); [by apply Ha|done].
Qed.
Lemma K_replace_old w cur checkDir : at_hand w cur → (checkDir = false → IsDirectory cur = false) →
  wp K (replace_old cfg modTimeWindow GOOS ignoreMatch sdb versioner stamp depth file cur checkDir) w (λ _, may_replace).
Proof.
  intros Hat Hc. unfold replace_old. destruct (_ && InConflictWith file cur) eqn:E.
  - apply andb_true_iff in E as [[E1 E2%negb_true_iff]%andb_true_iff E3]. apply K_conflict; [done..|].
    destruct checkDir; [|by apply Hc]. by apply negb_true_iff.
  - apply K_deleteItemOnDisk; [done|]. destruct (IsDirectory cur) eqn:Hdir; [by left|]. right. unfold disputed.
    rewrite orb_true_r in E. destruct (InConflictWith file cur), (IsSymlink cur); by try done.
Qed.

(** What is found at the name is at hand when it is as the record says. *)
Lemma at_hand_of w w' cur has i fd :
  reads w0 w → direct (vw w0) name → vw w0 !! name = Some i → (has = true → src cur ∧ fname cur = name) →
  (scanIfItemChanged cfg modTimeWindow GOOS name i cur has fd w).2 = inr tt → meta w0 w' → at_hand w' cur.
Proof.
  intros Hr Hd Hi Hsrc [Hh Hk]%(scanIfItemChanged_known _ _ _ w0) Hm; [|done]. destruct (Hsrc Hh) as [? E].
  split_and!; [done..|]. exists i. split; [done|]. by rewrite <-E at 1.
Qed.

Abbreviation Ks := (keeps L C).
#[local] Instance Ks_preorder : PreOrder Ks := keeps_preorder L C HLC.
Lemma Ks_meta {A} (m : M A) w : stays meta m w → stays Ks m w.
Proof. apply keeps_meta. Qed.
Lemma Ks_quiet w w' : quiet w w' → Ks w w'.
Proof. apply keeps_quiet. Qed.
Lemma Ks_K {A} (m : M A) w : stays K m w → stays Ks m w.
Proof. apply proj1. Qed.

Lemma Ks_create_dir w : direct (vw w) name → stays Ks (create_dir cfg GOOS lookup_user lookup_group file) w.
Proof.
  intros Hd. unfold create_dir, failing. apply stays_bind; [exact _| |intros ok _; apply Ks_meta; effects].
  apply stays_bind; [exact _| |intros ok _; apply Ks_meta; effects]. apply stays_attempt.
  apply stays_inWritableDir; [exact _|apply Ks_quiet|]. intros w1 [_ Hq]. unfold mkdir.
  apply stays_bind; [exact _|apply keeps_Mkdir; by eapply meta_only_direct|]. intros _ _. apply Ks_meta. effects.
Qed.

Context (Hsrc : ∀ cur, sdb name = inr (Some cur) → src cur).

Lemma K_clear_for_dir w i :
  reads w0 w → direct (vw w0) name → vw w0 !! name = Some i → IsDir i = false →
  stays K (clear_for_dir cfg modTimeWindow GOOS ignoreMatch sdb versioner stamp depth file i) w.
Proof.
  intros Hr Hd Hi Hdir. unfold clear_for_dir. apply stays_bind; [exact _|apply K1_meta; effects|].
  intros r [Hget Ew]%attempt_inr. rewrite Ew. assert (Hr1 : reads w0 (GetLocalFile sdb name w).1).
  { etrans; [exact Hr|]. apply reads_GetLocalFile. }
  destruct r as [e|[cur has]]; [apply K1_meta; effects|]. set (w1 := (GetLocalFile sdb name w).1) in *. clearbody w1.
  apply stays_bind; [exact _|apply K1_meta; unfold failing; effects|]. intros ok Hok.
  destruct ok; [|apply K1_meta; effects]. apply failing_ok in Hok as [Hok Ew2]. rewrite Ew2.
  set (w2 := (scanIfItemChanged _ _ _ _ _ _ _ _ w1).1). assert (Hr2 : reads w0 w2).
  { etrans; [exact Hr1|]. apply reads_scanIfItemChanged. }
  assert (Hat : at_hand w2 cur).
  { eapply at_hand_of; [exact Hr1|done|exact Hi| |exact Hok|by apply reads_meta]. intros Hh.
    pose proof (GetLocalFile_ok _ _ _ _ _ Hget Hh). split; [by apply Hsrc|by apply Hsdb]. }
  apply stays_bind; [exact _| |intros r _; apply K1_meta; effects]. apply stays_attempt. apply K_replace_old; [done|]. intros _.
  destruct Hat as (_ & _ & _ & _ & i' & Hi' & [-> _]%known_kind). by assert (i' = i) as -> by congruence.
Qed.

Lemma handleDir_keeps :
  direct (vw w0) name →
  stays Ks (handleDir cfg modTimeWindow GOOS ignoreMatch sdb versioner stamp lookup_user lookup_group depth file) w0.
Proof.
  intros Hd. unfold handleDir. apply stays_bind; [exact _|apply Ks_meta; effects|]. intros r [Hl Ew]%attempt_inr. rewrite Ew.
  assert (Hr : reads w0 (Lstat name w0).1) by apply reads_Lstat.
  destruct r as [e|i].
  - destruct (IsNotExist e); [|apply Ks_meta; effects]. apply Ks_create_dir. by rewrite Hr.
  - apply Lstat_found with (w := w0) in Hl as [Hi _]; [|done..]. destruct (negb (IsDir i)) eqn:Hdir.
    + apply negb_true_iff in Hdir. pose proof (K_clear_for_dir _ i Hr Hd Hi Hdir) as HK.
      apply stays_bind; [exact _|by apply Ks_K|]. intros [] _; [|apply Ks_meta; effects]. apply Ks_create_dir. apply HK. by rewrite Hr.
    + apply Ks_meta. unfold failing. effects.
Qed.

Lemma K_handleSymlinkCheckExisting :
  direct (vw w0) name →
  stays K (handleSymlinkCheckExisting cfg modTimeWindow GOOS ignoreMatch sdb versioner stamp depth file) w0.
Proof.
  intros Hd. unfold handleSymlinkCheckExisting. apply stays_bind; [exact _|apply K1_meta; effects|].
  intros r [Hl Ew]%attempt_inr. rewrite Ew. pose proof (reads_Lstat name w0 : reads _ _) as Hr.
  destruct r as [e|i]; [apply K1_meta; effects|]. apply Lstat_found with (w := w0) in Hl as [Hi _]; [|done..].
  set (w1 := (Lstat name w0).1) in *. clearbody w1.
  apply stays_bind; [exact _|apply K1_meta; effects|]. intros [cur has] Hget.
  pose proof (reads_GetLocalFile sdb name w1 : reads _ _) as Hr1. set (w2 := (GetLocalFile sdb name w1).1) in *. clearbody w2.
  apply stays_bind; [exact _|apply K1_meta; effects|]. intros [] Hok. apply K_replace_old; [|done].
  eapply at_hand_of; [|done|exact Hi| |exact Hok|]; [by etrans| |].
  - intros Hh. pose proof (GetLocalFile_ok _ _ _ _ _ Hget Hh). split; [by apply Hsrc|by apply Hsdb].
  - apply reads_meta. etrans; [exact Hr|]. etrans; [exact Hr1|]. apply reads_scanIfItemChanged.
Qed.

Lemma handleSymlink_keeps :
  direct (vw w0) name →
  stays Ks (handleSymlink cfg modTimeWindow GOOS ignoreMatch sdb versioner stamp lookup_user lookup_group depth file) w0.
Proof.
  intros Hd. unfold handleSymlink. case_bool_decide; [apply Ks_meta; effects|].
  pose proof (K_handleSymlinkCheckExisting Hd) as HK.
  assert (HKf : stays K (failing file "handling symlink" (handleSymlinkCheckExisting cfg modTimeWindow GOOS ignoreMatch sdb versioner stamp depth file)) w0).
  { unfold failing. apply stays_bind; [exact _|by apply stays_attempt|]. intros r _. apply K1_meta. effects. }
  apply stays_bind; [exact _|by apply Ks_K|]. intros [] _; [|apply Ks_meta; effects].
  apply stays_bind; [exact _| |intros ok _; apply Ks_meta; effects].
  unfold failing at 1. apply stays_bind; [exact _| |intros ok _; apply Ks_meta; effects]. apply stays_attempt.
  apply stays_inWritableDir; [exact _|apply Ks_quiet|]. intros w1 [_ Hq]. unfold create_link.
  apply stays_bind; [exact _| |intros _ _; apply Ks_meta; effects].
  apply keeps_CreateSymlink. eapply meta_only_direct; [exact Hq|]. by apply HKf.
Qed.

Lemma not_deleted_keeps context jt e w : stays Ks (not_deleted file context jt e) w.
Proof. apply Ks_meta. unfold not_deleted. effects. Qed.

Lemma deleteDir_keeps :
  (∀ cur, sdb name = inr (Some cur) → also cur) →
  stays Ks (deleteDir cfg modTimeWindow GOOS ignoreMatch sdb depth file) w0.
Proof.
  intros Halso. unfold deleteDir. apply stays_bind; [exact _|apply Ks_meta; effects|].
  intros r [Hget Ew]%attempt_inr. rewrite Ew. pose proof (reads_GetLocalFile sdb name w0 : reads _ _) as Hr.
  destruct r as [e|[cur has]]; [apply Ks_meta; effects|]. set (w1 := (GetLocalFile sdb name w0).1) in *. clearbody w1.
  apply stays_bind; [exact _|apply Ks_meta; effects|]. intros r [Hok Ew2]%attempt_inr. rewrite Ew2.
  destruct r as [e|[]]; [apply not_deleted_keeps|].
  destruct (checkToBeDeleted_known cfg modTimeWindow GOOS file cur has w1 Hgood Hok) as (Hh & Hd & i & Hi & Hk).
  pose proof (GetLocalFile_ok _ _ _ _ _ Hget Hh) as Hs. rewrite (Hsdb _ _ Hs) in Hk.
  set (w2 := (checkToBeDeleted _ _ _ _ _ _ w1).1). assert (Hr2 : reads w1 w2) by apply reads_checkToBeDeleted.
  apply stays_bind; [exact _| |intros ok _; apply Ks_meta; effects]. unfold failing.
  apply stays_bind; [exact _| |intros ok _; apply Ks_meta; effects]. apply stays_attempt, Ks_K.
  apply deleteDirOnDisk_keeps; [apply HLC|apply L_temp|apply L_deletable|done|].
  intros j Hj Hdj. rewrite Hr2, Hr in Hj. rewrite Hr in Hi. assert (i = j) as -> by congruence.
  left. split; [done|]. exists cur, j. split; [right; by apply Halso|]. split; [done|]. split; [done|].
  destruct Hk as (? & ? & w3 & rec & fd & Hr3 & ?). split; [done|]. split; [done|]. exists w3, rec, fd. split; [by etrans|done].
Qed.

Lemma known_reads w w1 cur p i :
  reads w w1 → known cfg modTimeWindow GOOS w1 cur p i → known cfg modTimeWindow GOOS w cur p i.
Proof.
  intros Hr (? & ? & w3 & rec & fd & Hr3 & ?). split; [done|]. split; [done|]. exists w3, rec, fd. split; [by etrans|done].
Qed.

Lemma K_delete_item w cur : at_hand w cur → IsDirectory cur = false →
  stays K (delete_item cfg versioner stamp file cur) w.
Proof.
  intros Hat Hdir. unfold delete_item. destruct (InConflictWith file cur && negb (IsSymlink cur)) eqn:E.
  - apply andb_true_iff in E as [E1 E2%negb_true_iff]. by apply K_conflict.
  - assert (Hdis : disputed cfg file cur = false) by (unfold disputed; by rewrite E).
    pose proof (λ A Hv, K_archive A w cur Hv Hat Hdis) as Ha.
    pose proof (K_remove w cur Hat Hdis) as Hr. destruct versioner as [Archive|]; [|done].
    destruct (negb (IsSymlink cur)); [by apply Ha|done].
Qed.

Lemma deleteFileWithCurrent_keeps w cur has :
  reads w0 w → (has = true → src cur ∧ fname cur = name) →
  stays Ks (deleteFileWithCurrent cfg modTimeWindow GOOS versioner stamp file cur has) w.
Proof.
  intros Hr Hs. unfold deleteFileWithCurrent. apply stays_bind; [exact _|apply Ks_meta; effects|].
  intros r [Hok Ew2]%attempt_inr. rewrite Ew2. destruct r as [e|[]]; [apply not_deleted_keeps|].
  destruct (checkToBeDeleted_known cfg modTimeWindow GOOS file cur has w Hgood Hok) as (Hh & Hd & i & Hi & Hk).
  destruct (Hs Hh) as [Hsc En]. rewrite En in Hk. destruct (IsDirectory cur) eqn:Hdir; [apply Ks_meta; effects|].
  set (w2 := (checkToBeDeleted _ _ _ _ _ _ w).1). assert (Hr2 : reads w w2) by apply reads_checkToBeDeleted.
  assert (Hat : at_hand w2 cur).
  { split; [apply reads_meta; by etrans|]. rewrite Hr in Hd, Hi. split_and!; [done..|]. exists i. split; [done|].
    by eapply known_reads. }
  apply stays_bind; [exact _|by apply Ks_K, stays_attempt, K_delete_item|]. intros r _. apply Ks_meta. effects.
Qed.
Lemma deleteFile_keeps : stays Ks (deleteFile cfg modTimeWindow GOOS sdb versioner stamp file) w0.
Proof.
  unfold deleteFile. apply stays_bind; [exact _|apply Ks_meta; effects|].
  intros r [Hget Ew]%attempt_inr. rewrite Ew. destruct r as [e|[cur has]]; [apply Ks_meta; effects|].
  apply deleteFileWithCurrent_keeps; [apply reads_GetLocalFile|]. intros Hh.
  pose proof (GetLocalFile_ok _ _ _ _ _ Hget Hh). split; [by apply Hsrc|by apply Hsdb].
Qed.

Lemma K_check_existing cur has :
  direct (vw w0) name → (has = true → src cur ∧ fname cur = name) →
  wp K (check_existing cfg modTimeWindow GOOS ignoreMatch sdb versioner stamp depth file cur has) w0 (λ _, may_replace).
Proof.
  intros Hd Hs. unfold check_existing.
  apply wp_bind with (Q' := λ r w', r = (Lstat name w0).2 ∧ w' = (Lstat name w0).1); [exact _| |].
  { split; [apply K1_meta; effects|]. by intros r [Hr Ew]%attempt_inr. }
  intros r w1 _ [Hl Ew]. pose proof (reads_Lstat name w0 : reads _ _) as Hr. rewrite <-Ew in Hr. clear Ew. symmetry in Hl.
  destruct r as [e|i].
  - destruct (IsNotExist e) eqn:He; [|split; [by apply K1_meta, (stays_throw meta)|done]]. apply wp_ret; [exact _|].
    intros i Hi _. exfalso. rewrite Hr in Hi. unfold Lstat in Hl. rewrite call_result in Hl.
    rewrite (Lstat_gone name (wDisk w0) e) in Hi; [done|done|]. unfold is_gone. by rewrite He.
  - apply Lstat_found with (w := w0) in Hl as [Hi _]; [|done..].
    apply wp_bind with (Q' := λ _ w', at_hand w' cur); [exact _| |].
    + split; [apply K1_meta; effects|]. intros [] [Hok Ew3]%wrap_inr. rewrite Ew3.
      eapply at_hand_of; [exact Hr|done|exact Hi|exact Hs|exact Hok|].
      apply reads_meta. etrans; [exact Hr|]. apply reads_scanIfItemChanged.
    + intros _ w2 _ Hat. apply wp_wrap. by apply K_replace_old.
Qed.
End one.

(** *** Finished files take their places *)
Section finishing.
Context {UF : UnicodeFold}.
Context (file : FileInfo) (src : FileInfo → Prop) (temp : path) (w0 : world).
Abbreviation name := (fname file).
Abbreviation copy := (copyName stamp file).
Context (Hgood : good_name name).
Context (Hplain : -1 < fcMaxConflicts cfg → plain name).
Context (Hlatest : 0 < fcMaxConflicts cfg → ∀ q, listed name q → is_Some (vw w0 !! q) → path_lt copy q = false).
Abbreviation L used := (may_go cfg modTimeWindow GOOS ignoreMatch stamp file src none used w0).
Abbreviation C := (may_move cfg modTimeWindow GOOS stamp file src w0).

(** The temporary file of a name is not what is replaced on the way. *)
Record temp_ok : Prop := {
  temp_temporary : IsTemporary temp = true;
  temp_ne : temp ≠ name;
  temp_not_below : ¬ below name temp;
  temp_not_copy : ¬ copy_of name temp;
}.
Context (Htemp : temp_ok).

Lemma temp_ne_copy : temp ≠ copy.
Proof. intros E. destruct Htemp as [_ _ _ H]. apply H. rewrite E. by apply copyName_copy. Qed.
Lemma temp_stays i : ¬ L none temp i.
Proof.
  destruct Htemp as [Ht Hne Hb Hc]. intros [(E & _)|[(H & _)|[(E & _)|[(Hpos & Hl & _)|[]]]]]; [done|done| |].
  - by apply temp_ne_copy.
  - apply Hc, conflictPattern_matches; [apply Hplain; lia|done].
Qed.

Definition reasons_none : reasons (L none) C := HLC file src none none w0 Hlatest (λ p H, False_ind _ H).
Definition reasons_temp : reasons (L (λ p, p = temp)) C := HLC file src none (λ p, p = temp) w0 Hlatest (λ p H, eq_ind_r (λ p, p ≠ copy) temp_ne_copy H).
#[local] Instance kept_preorder : PreOrder (keeps (L none) C) := keeps_preorder _ _ reasons_none.
#[local] Instance used_preorder : PreOrder (keeps (L (λ p, p = temp)) C) := keeps_preorder _ _ reasons_temp.

(** Before the temporary file takes its place. *)
Definition ready (w : world) : Prop :=
  keeps (L none) C w0 w ∧ direct (vw w) name ∧ direct (vw w) temp ∧ not_dir w temp ∧ wJobs w = wJobs w0 ∧
  ∀ i, vw w !! name = Some i → IsDir i = false → L none name i.
Lemma ready_back w w' : ready w → keeps (L none) C w w' → wJobs w' = wJobs w →
  (∀ p i', vw w' !! p = Some i' → ∃ i, vw w !! p = Some i ∧ same_content i i') → ready w'.
Proof.
  intros (H1 & H2 & H3 & H4 & H5 & H6) HK HJ Hback. destruct (steady_back (λ _, True) w w' Hback) as (Hd & Hn & _).
  split; [by etrans|]. split; [by apply Hd|]. split; [by apply Hd|]. split; [by apply Hn; [apply Htemp|]|]. split; [congruence|].
  intros i' Hi' Hdi. destruct (Hback name i' Hi') as (i & Hi & Hs). eapply (L_content _ _ reasons_none); [exact Hs|].
  apply H6; [done|]. by rewrite <-(same_content_IsDir _ _ Hs).
Qed.
Lemma ready_quiet w w' : quiet w w' → ready w → ready w'.
Proof.
  intros [(_ & HJ & _) Hq] Hr. apply (ready_back w); [done|by apply keeps_meta|done|]. intros p i. by apply meta_back.
Qed.
Lemma ready_Remove w : ready w → ready (Remove name w).1.
Proof.
  intros Hr. pose proof Hr as (_ & Hd & _ & _ & _ & Hn). apply (ready_back w); [done|apply (keeps_Remove (L none) C name w Hd); intros; by apply Hn|by apply (call_notes (fs_Remove name))|].
  intros p i. unfold Remove. rewrite call_view. destruct ((fs_Remove name (wDisk w)).2) as [e|[]] eqn:E.
  - rewrite (Remove_fails _ _ _ E). eauto using same_content_refl.
  - rewrite (proj1 (Remove_ok name (wDisk w) Hd E)). intros [_ Hp]%lookup_delete_Some. eauto using same_content_refl.
Qed.
Lemma kept_temp w i : keeps (L none) C w0 w → not_dir w0 temp → vw w0 !! temp = Some i → ∃ i', vw w !! temp = Some i' ∧ same_content i i'.
Proof.
  intros HK Hn Hi. destruct (HK temp i) as [?|[H|(q & (_ & E & _) & _)]]; [by apply Hn|done|done|by apply temp_stays in H|].
  by destruct (temp_ne Htemp).
Qed.

(** Renaming, at last. *)
Lemma ready_Rename w : ready w → not_dir w0 temp →
  let r := call (fs_Rename temp name) w in
  wJobs r.1 = wJobs w0 ∧
  match r.2 with
  | inl _ => keeps (L none) C w0 r.1
  | inr _ => keeps (L (λ p, p = temp)) C w0 r.1 ∧ vw r.1 !! temp = None ∧
      ∀ i, vw w0 !! temp = Some i → ∃ i', vw r.1 !! name = Some i' ∧ same_content i i'
  end.
Proof.
  intros Hr Hn0. pose proof Hr as (HK & Hd & Hdt & Hnt & HJ & Hn). cbv zeta.
  destruct (call_notes (fs_Rename temp name) w) as (_ & HJ' & _). split; [congruence|]. rewrite call_result, call_view.
  destruct ((fs_Rename temp name (wDisk w)).2) as [e|[]] eqn:E.
  { etrans; [exact HK|]. apply keeps_meta. unfold meta. rewrite call_view, (Rename_fails _ _ _ _ E). apply meta_only_refl. }
  destruct (Rename_ok temp name (wDisk w) Hdt Hd E) as (i & Hi & Hview). rewrite (Hview (Hnt i Hi)). split_and!.
  - etrans; [apply (keeps_mono (L none)); [|exact HK]|].
    { intros p j [H|[H|[H|[H|[]]]]]; [by left|by right; left|by right; right; left|by right; right; right; left]. }
    apply keeps_Rename; [done..| |].
    + intros j Hj. split; [by apply Hnt|]. left. by right; right; right; right.
    + intros _ j k Hdj Hj _. left. destruct (Hn j Hj Hdj) as [H|[H|[H|[H|[]]]]]; [by left|by right; left|by right; right; left|by right; right; right; left].
  - rewrite lookup_insert_ne by (intros E'; by apply (temp_ne Htemp)). apply lookup_delete_eq.
  - intros i0 Hi0. rewrite lookup_insert_eq. destruct (kept_temp w i0 HK Hn0 Hi0) as (j & Hj & Hs). exists i. split; [done|congruence].
Qed.
Lemma ready_RenameOrCopy w : ready w → not_dir w0 temp →
  let r := wrap "replacing file" (RenameOrCopy GOOS temp name) w in
  wJobs r.1 = wJobs w0 ∧
  match r.2 with
  | inl _ => keeps (L none) C w0 r.1
  | inr _ => keeps (L (λ p, p = temp)) C w0 r.1 ∧ vw r.1 !! temp = None ∧
      ∀ i, vw w0 !! temp = Some i → ∃ i', vw r.1 !! name = Some i' ∧ same_content i i'
  end.
Proof.
  intros Hr Hn0. cbv zeta.
  destruct (withPreparedTarget_result ready GOOS temp name (call (fs_Rename temp name)) w ready_quiet ready_Remove Hr)
    as [[(HK & _ & _ & _ & HJ & _) [e He]]|(w1 & Hw1 & [(_ & HJq & _) Hq] & Hres)]; unfold wrap, RenameOrCopy;
    destruct (withPreparedTarget _ _ _ _ w) as [w2 r2]; cbn [fst snd] in *.
  { by subst r2. }
  destruct (ready_Rename w1 Hw1 Hn0) as [HJ Hren]. rewrite <-Hres in Hren. destruct r2 as [e|[]]; cbn [fst snd].
  - split; [congruence|]. etrans; [exact Hren|]. by apply keeps_meta.
  - destruct Hren as (HK & Hgone & Hin). split; [congruence|]. split; [etrans; [exact HK|]; by apply keeps_meta|].
    split; [by eapply meta_only_None|]. intros i Hi. destruct (Hin i Hi) as (j & Hj & Hsj).
    destruct (meta_only_Some _ _ _ _ Hq Hj) as (k & Hk & Hsk). exists k. split; [done|]. by eapply same_content_trans.
Qed.

(** The new file is in place and the database is told so, or nothing of this happened. *)
Lemma put_in_place_spec cur has :
  direct (vw w0) name → direct (vw w0) temp → not_dir w0 temp → (has = true → src cur ∧ fname cur = name) →
  let r := put_in_place cfg modTimeWindow GOOS ignoreMatch sdb versioner stamp depth file cur has temp w0 in
  match r.2 with
  | inl _ => keeps (L none) C w0 r.1 ∧ wJobs r.1 = wJobs w0
  | inr _ => keeps (L (λ p, p = temp)) C w0 r.1 ∧ vw r.1 !! temp = None ∧ wJobs r.1 = wJobs w0 ++ [(file, dbUpdateHandleFile)] ∧
      ∀ i, vw w0 !! temp = Some i → ∃ i', vw r.1 !! name = Some i' ∧ same_content i i'
  end.
Proof.
  intros Hd Hdt Hnt Hs r.
  pose proof (K_check_existing file src none none w0 Hgood Hplain Hlatest (λ _ H, False_ind _ H) cur has Hd Hs) as [HK Hrep].
  assert (HJ : wJobs (check_existing cfg modTimeWindow GOOS ignoreMatch sdb versioner stamp depth file cur has w0).1 = wJobs w0).
  { apply (noting_check_existing same_jobs). intros A HA p w. apply noting_inWritableDir; [exact _|].
    intros w1. by apply Hversioner. }
  assert (Er : r = put_in_place cfg modTimeWindow GOOS ignoreMatch sdb versioner stamp depth file cur has temp w0) by done.
  clearbody r. unfold put_in_place in Er. rewrite bind_at in Er.
  destruct (check_existing _ _ _ _ _ _ _ _ _ _ _ w0) as [w1 [e|[]]]; cbn [fst snd] in *; [subst r; split; [apply HK|done]|].
  assert (Hready : ready w1).
  { destruct HK as (HK & Hdd & Hnn & _). split_and!; [done|by apply Hdd..|by apply Hnn; [apply Htemp|]|done|]. by apply (Hrep tt). }
  clear HK Hrep HJ. pose proof (ready_RenameOrCopy w1 Hready Hnt) as [HJ Hren]. rewrite bind_at in Er.
  destruct (wrap "replacing file" _ w1) as [w2 [e|[]]]; cbn [fst snd] in *; [by subst r|].
  destruct Hren as (HK & Hgone & Hin). rewrite bind_at in Er. unfold attempt in Er.
  pose proof (meta_Chtimes name (ModTime file) w2) as Hm. pose proof (call_notes (fs_Chtimes name (ModTime file)) w2) as (_ & HJ' & _).
  unfold stays in Hm. destruct (call (fs_Chtimes name (ModTime file)) w2) as [w3 r3]. cbn [fst snd] in *. subst r.
  cbn [fst snd update]. change (wDisk (w3 <| wJobs := wJobs w3 ++ [(file, dbUpdateHandleFile)] |>)) with (wDisk w3). split_and!.
  - etrans; [exact HK|]. by apply keeps_meta.
  - by eapply meta_only_None.
  - cbn. by rewrite HJ', HJ.
  - intros i Hi. destruct (Hin i Hi) as (j & Hj & Hsj). destruct (meta_only_Some _ _ _ _ Hm Hj) as (k & Hk & Hsk).
    exists k. split; [done|]. by eapply same_content_trans.
Qed.
End finishing.
End handlers.

(** ** Nothing is lost *)
Section safety.
Context {F : Filesystem} {FL : FilesystemLaws F}.
Abbreviation vw w := (view (wDisk w)).

(** After the check of the parent the path is a direct one. *)
Lemma checkParent_direct cfg p w : good_name p → (checkParent cfg p w).2 = inr true →
  direct (vw (checkParent cfg p w).1) p.
Proof.
  intros Hg. unfold checkParent. intros (t & [Ht Ew]%attempt_inr & H & E)%bind_inr. rewrite E. clear E. rewrite Ew in *.
  destruct t as [e|[]]; [by apply bind_inr in H as (? & _ & H & _)|].
  pose proof (TraversesSymlink_direct _ _ Hg Ht) as Hd. rewrite <-(reads_TraversesSymlink (Dir p) w : _ = _) in Hd.
  set (w1 := (TraversesSymlink (Dir p) w).1) in *. clearbody w1.
  apply bind_inr in H as (info & [Hl Ew2]%attempt_inr & H & E). rewrite E. clear E. rewrite Ew2 in *.
  rewrite <-(reads_Lstat (Dir p) w1 : _ = _) in Hd. set (w2 := (Lstat (Dir p) w1).1) in *. clearbody w2.
  destruct (negb _); [done|]. apply bind_inr in H as (r & [Hr Ew3]%attempt_inr & H & E). rewrite E, Ew3 in *. clear E.
  assert (Hd3 : direct (vw (call (fs_MkdirAll (Dir p) 493) w2).1) p).
  { intros q x l Eq Hl'. rewrite call_view in Hl'. destruct (MkdirAll_adds (Dir p) 493 (wDisk w2) q) as [Em|(_ & i & Hi & Em)];
      rewrite Em in Hl'; [by apply (Hd q x)|]. injection Hl' as <-. unfold IsDir, IsLink in *. zb. by rewrite Hi. }
  set (w3 := (call (fs_MkdirAll (Dir p) 493) w2).1) in *. clearbody w3.
  destruct r as [e|[]]; [by apply bind_inr in H as (? & _ & H & _)|].
  apply bind_inr in H as ([] & _ & _ & E). rewrite E. by destruct (negb _).
Qed.
Lemma checkParent_keeps L C cfg p w : reasons L C → stays (keeps L C) (checkParent cfg p) w.
Proof.
  intros HLC. pose proof (keeps_preorder L C HLC). unfold checkParent.
  assert (Hm : ∀ A (m : M A) w, stays meta m w → stays (keeps L C) m w) by (intros; by apply keeps_meta).
  apply stays_bind; [done|apply Hm; effects|]. intros t _. destruct t as [e|[]]; [apply Hm; effects|].
  apply stays_bind; [done|apply Hm; effects|]. intros info _. cbv zeta. destruct (negb _); [apply Hm; effects|].
  apply stays_bind; [done|apply stays_attempt, keeps_MkdirAll|]. intros r _. apply Hm. effects.
Qed.

Context (cfg : FolderConfiguration) (modTimeWindow : Z) (GOOS : string).
Context (ignoreMatch : path → Z) (sdb : path → ferr + option FileInfo).
Context (versioner : option (path → M unit)) (stamp : path).
Context (lookup_user lookup_group : string → option string) (depth : nat).

(** What a handler of [file] assumes: the old versions, the names and the time are in
    order, and no conflict copy on the disk has a later name than the new one. *)
Record handler_ok (file : FileInfo) (w : world) : Prop := {
  ok_versioner Archive : versioner = Some Archive → archives_one Archive;
  ok_stamp : sep ∉ stamp;
  ok_names p f : sdb p = inr (Some f) → fname f = p;
  ok_name : good_name (fname file);
  ok_plain : -1 < fcMaxConflicts cfg → plain (fname file);
  ok_latest : 0 < fcMaxConflicts cfg → ∀ q, listed (fname file) q → is_Some (vw w !! q) → path_lt (copyName stamp file) q = false;
}.

Definition db_record (file cur : FileInfo) : Prop := sdb (fname file) = inr (Some cur).
(** Items are as they were, may go, or became copies. *)
Definition loses_nothing (file : FileInfo) (src also : FileInfo → Prop) (used : path → Prop) (w w' : world) : Prop :=
  keeps (may_go cfg modTimeWindow GOOS ignoreMatch stamp file src also used w) (may_move cfg modTimeWindow GOOS stamp file src w) w w'.


Context {UF : UnicodeFold}.
Lemma prepare_temp_meta file temp w : meta w (prepare_temp cfg GOOS lookup_user lookup_group file temp w).1.
Proof. change (stays meta (prepare_temp cfg GOOS lookup_user lookup_group file temp) w). unfold prepare_temp. effects. Qed.
Lemma prepare_temp_jobs file temp w : wJobs (prepare_temp cfg GOOS lookup_user lookup_group file temp w).1 = wJobs w.
Proof.
  change (stays same_jobs (prepare_temp cfg GOOS lookup_user lookup_group file temp) w).
  pose proof (noting_setPlatformData same_jobs cfg GOOS lookup_user lookup_group) as Hp.
  pose proof (noting_Chmod same_jobs) as Hc. unfold prepare_temp. effects.
Qed.
Lemma handler_ok_meta file w w1 : meta w w1 → handler_ok file w → handler_ok file w1.
Proof.
  intros Hm [Hv Hs Hdb Hg Hp Hl]. split; [done..|]. intros Hpos q Hq [i Hi]. apply Hl; [done..|].
  destruct (meta_back _ _ _ _ Hm Hi) as (j & Hj & _). by exists j.
Qed.
Lemma not_dir_meta w w1 p : meta w w1 → not_dir w p → not_dir w1 p.
Proof.
  intros Hm Hn i Hi. destruct (meta_back _ _ _ _ Hm Hi) as (j & Hj & Hs). rewrite (same_content_IsDir _ _ Hs). by apply Hn.
Qed.

End safety.

(** *** What was changed behind the program's back *)
Section changed.
Context {F : Filesystem} {FL : FilesystemLaws F} {UF : UnicodeFold}.
Abbreviation vw w := (view (wDisk w)).
Context (cfg : FolderConfiguration) (modTimeWindow : Z) (GOOS : string).
Context (ignoreMatch : path → Z) (sdb : path → ferr + option FileInfo).
Context (versioner : option (path → M unit)) (stamp : path).
Context (lookup_user lookup_group : string → option string) (depth : nat).

(** The database has no record that describes the item; its record can be made. *)
Definition stale (w : world) (p : path) (i : item) : Prop :=
  match sdb p with
  | inl _ => False
  | inr None => True
  | inr (Some cur) =>
      fname cur = p ∧ (fDeleted cur = true ∨
      ∀ w1 fd, reads w w1 → ∃ rec, (fileInfo_of cfg i p w1).2 = inr rec ∧ equivalent cfg modTimeWindow GOOS rec cur fd = false)
  end.

(** Nothing happened but a request to scan the path. *)
Definition only_scans (p : path) (w w' : world) : Prop :=
  reads w w' ∧ wScans w' = wScans w ++ [p] ∧ wJobs w' = wJobs w ∧ wErrors w' = wErrors w.
(** Of what is noted nothing changed. *)
Definition looks (w w' : world) : Prop := reads w w' ∧ same_notes w w'.
#[local] Instance looks_preorder : PreOrder looks.
Proof.
  split; [by intros w|]. intros w1 w2 w3 [H1 (H2 & H3 & H4)] [H5 (H6 & H7 & H8)]. split; [by etrans|].
  split_and!; congruence.
Qed.
Lemma looks_call {A} (op : disk → fsres disk A) w : readonly op → stays looks (call op) w.
Proof. intros H. split; [by apply reads_call|apply call_notes]. Qed.
Lemma looks_Lstat p w : stays looks (Lstat p) w.
Proof. apply looks_call, Lstat_reads. Qed.
Lemma looks_fileInfo i p w : stays looks (fileInfo_of cfg i p) w.
Proof. unfold fileInfo_of, CreateFileInfo. effects; apply looks_call; [apply PlatformData_reads|apply ReadSymlink_reads]. Qed.
Lemma looks_GetLocalFile p w : stays looks (GetLocalFile sdb p) w.
Proof. unfold GetLocalFile. effects. Qed.
#[local] Hint Resolve looks_Lstat looks_fileInfo looks_GetLocalFile : effects.
Lemma looks_TraversesSymlink p w : stays looks (TraversesSymlink p) w.
Proof.
  unfold TraversesSymlink. destruct (Canonicalize p); [|effects..]. case_bool_decide; [effects|].
  generalize (@nil ascii). induction (PathComponents a) as [|part parts IH] in w |- *; intros at_; cbn [traverses_loop]; effects.
Qed.
Lemma only_scans_looks p w w1 w' : looks w w1 → only_scans p w1 w' → only_scans p w w'.
Proof.
  intros [H1 (H2 & H3 & H4)] (H5 & H6 & H7 & H8). split; [by etrans|]. split_and!; congruence.
Qed.

Lemma bind_eq {A B} (m : M A) (k : A → M B) w a : (m w).2 = inr a → (m ≫= k) w = k a (m w).1.
Proof. unfold mbind, M_bind. destruct (m w) as [w' r]. by intros [= ->]. Qed.
Lemma bind_err {A B} (m : M A) (k : A → M B) w e : (m w).2 = inl e → (m ≫= k) w = ((m w).1, inl e).
Proof. unfold mbind, M_bind. destruct (m w) as [w' r]. by intros [= ->]. Qed.
Lemma attempt_bind {A B} (m : M A) (k : ferr + A → M B) w : (attempt m ≫= k) w = k (m w).2 (m w).1.
Proof. unfold mbind, M_bind, attempt. by destruct (m w). Qed.

(** A comparison with a record that does not describe the item ends with a scan. *)
Lemma scanIfItemChanged_stale p i w0 w cur has fd :
  looks w0 w → stale w0 p i → (∀ w1, GetLocalFile sdb p w1 = (w1, inr (cur, has))) →
  (scanIfItemChanged cfg modTimeWindow GOOS p i cur has fd w).2 = inl errModified ∧
  only_scans p w (scanIfItemChanged cfg modTimeWindow GOOS p i cur has fd w).1.
Proof.
  intros Hr Hst Hget. unfold scanIfItemChanged.
  set (cmp := if negb has || fDeleted cur then throw errModified else _).
  assert (Hcmp : (cmp w).2 = inl errModified ∧ looks w (cmp w).1).
  { unfold cmp. specialize (Hget w). unfold GetLocalFile in Hget. unfold stale in Hst. destruct (sdb p) as [e|[f|]]; [done| |]; injection Hget as <- <-; [|done].
    destruct Hst as [Hn Hst]. destruct (fDeleted f) eqn:Hdel; [done|]. cbn [negb orb]. destruct Hst as [?|Hst]; [done|].
    destruct (Hst w fd) as (rec & Hrec & Heq); [apply Hr|]. rewrite Hn.
    assert (Hw : (wrap "comparing item on disk to db" (fileInfo_of cfg i p) w).2 = inr rec ∧
      (wrap "comparing item on disk to db" (fileInfo_of cfg i p) w).1 = (fileInfo_of cfg i p w).1).
    { unfold wrap. destruct (fileInfo_of cfg i p w) as [w' r]. cbn in *. by subst r. }
    destruct Hw as [Hw1 Hw2]. rewrite (bind_eq _ _ _ _ Hw1), Hw2, Heq. split; [done|]. apply looks_fileInfo. }
  clearbody cmp. destruct Hcmp as [H1 H2]. rewrite attempt_bind, H1.
  rewrite bool_decide_true by done. cbn. split; [done|]. destruct H2 as [H2 (H3 & H4 & H5)].
  split; [exact H2|]. unfold mbind, M_bind, scan, throw. cbn. rewrite H3, H4, H5. by split_and!.
Qed.
Lemma stale_record w p i : stale w p i → ∃ cur has, ∀ w1, GetLocalFile sdb p w1 = (w1, inr (cur, has)).
Proof. unfold stale, GetLocalFile. destruct (sdb p) as [e|[f|]]; [done|by exists f, true|by eexists _, false]. Qed.

(** The item is there to be looked at. *)
Definition found (w : world) (p : path) (i : item) : Prop :=
  ∀ w1, looks w w1 → (Lstat p w1).2 = inr i ∧ (TraversesSymlink (Dir p) w1).2 = inr tt.

(** [newPullError] after the scan. *)
Definition reported (file : FileInfo) (w w' : world) : Prop :=
  reads w w' ∧ wScans w' = wScans w ++ [fname file] ∧ wJobs w' = wJobs w ∧ is_Some (wErrors w' !! fname file).
Lemma newPullError_reported file e w w1 : only_scans (fname file) w w1 → reported file w (newPullError (fname file) e w1).1.
Proof.
  intros (H1 & H2 & H3 & H4). unfold newPullError. destruct (wErrors w1 !! fname file) as [e'|] eqn:E; cbn; split_and!; try done.
  unfold reported. cbn. by rewrite lookup_insert_eq.
Qed.
Lemma failing_stale file context m w0 w : (m w).2 = inl errModified → only_scans (fname file) w0 (m w).1 →
  (failing file context m w).2 = inr false ∧ reported file w0 (failing file context m w).1.
Proof.
  intros H1 H2. unfold failing. rewrite attempt_bind, H1.
  pose proof (newPullError_reported file (Wrapped context errModified) _ _ H2) as Hn.
  assert (Hr : (newPullError (fname file) (Wrapped context errModified) (m w).1).2 = inr tt).
  { unfold newPullError. by destruct (wErrors _ !! _). }
  by rewrite (bind_eq _ _ _ _ Hr).
Qed.
Lemma checkToBeDeleted_stale file i w cur has :
  found w (fname file) i → stale w (fname file) i → (∀ w1, GetLocalFile sdb (fname file) w1 = (w1, inr (cur, has))) →
  (checkToBeDeleted cfg modTimeWindow GOOS file cur has w).2 = inl errModified ∧
  only_scans (fname file) w (checkToBeDeleted cfg modTimeWindow GOOS file cur has w).1.
Proof.
  intros Hf Hs Hget. unfold checkToBeDeleted. pose proof (looks_TraversesSymlink (Dir (fname file)) w : looks w _) as Hl1.
  rewrite attempt_bind, (proj2 (Hf w (reflexivity _))).
  set (w1 := (TraversesSymlink (Dir (fname file)) w).1) in *. clearbody w1. rewrite attempt_bind, (proj1 (Hf w1 Hl1)).
  assert (Hl2 : looks w (Lstat (fname file) w1).1) by (etrans; [exact Hl1|apply looks_Lstat]).
  destruct (scanIfItemChanged_stale (fname file) i w _ cur has true Hl2 Hs Hget) as [H1 H2].
  split; [done|]. by eapply only_scans_looks.
Qed.

(** C5. An item that is not what the database says stays as it is: deleting it as a file
    or as a directory, replacing it by a directory, a link or a finished file, and moving
    it as the source of a renaming end with a request to scan it and an error, and the
    database is told nothing. *)
Theorem changed_item_is_scanned file i w :
  found w (fname file) i → stale w (fname file) i →
  reported file w (deleteFile cfg modTimeWindow GOOS sdb versioner stamp file w).1 ∧
  reported file w (deleteDir cfg modTimeWindow GOOS ignoreMatch sdb depth file w).1 ∧
  (IsDir i = false → reported file w
    (handleDir cfg modTimeWindow GOOS ignoreMatch sdb versioner stamp lookup_user lookup_group depth file w).1) ∧
  (fSymlinkTarget file ≠ [] → reported file w
    (handleSymlink cfg modTimeWindow GOOS ignoreMatch sdb versioner stamp lookup_user lookup_group depth file w).1) ∧
  (∀ cur has temp, (∀ w1, GetLocalFile sdb (fname file) w1 = (w1, inr (cur, has))) →
    let r := put_in_place cfg modTimeWindow GOOS ignoreMatch sdb versioner stamp depth file cur has temp w in
    r.2 = inl (Wrapped "checking existing file" errModified) ∧ only_scans (fname file) w r.1) ∧
  ∀ cur target tempName available, sdb (fname file) = inr (Some cur) →
    let r := renameFile cfg modTimeWindow GOOS ignoreMatch sdb versioner stamp lookup_user lookup_group tempName depth available cur file target w in
    r.2 = inl errModified ∧ only_scans (fname file) w r.1.
Proof.
  intros Hf Hs. destruct (stale_record _ _ _ Hs) as (cur & has & Hget).
  pose proof (looks_Lstat (fname file) w : looks w _) as Hl. destruct (Hf w (reflexivity _)) as [Hi _].
  assert (Hscan : ∀ cur has fd, (∀ w1, GetLocalFile sdb (fname file) w1 = (w1, inr (cur, has))) →
    let r := scanIfItemChanged cfg modTimeWindow GOOS (fname file) i cur has fd (Lstat (fname file) w).1 in
    r.2 = inl errModified ∧ only_scans (fname file) w r.1).
  { intros cur' has' fd Hget'. destruct (scanIfItemChanged_stale (fname file) i w _ cur' has' fd Hl Hs Hget') as [H1 H2].
    split; [done|]. by eapply only_scans_looks. }
  split_and!.
  - unfold deleteFile. rewrite attempt_bind, Hget. cbn [fst snd]. unfold deleteFileWithCurrent.
    destruct (checkToBeDeleted_stale file i w cur has Hf Hs Hget) as [H1 H2]. rewrite attempt_bind, H1.
    by apply newPullError_reported.
  - unfold deleteDir. rewrite attempt_bind, Hget. cbn [fst snd].
    destruct (checkToBeDeleted_stale file i w cur has Hf Hs Hget) as [H1 H2]. rewrite attempt_bind, H1.
    by apply newPullError_reported.
  - intros Hdir. unfold handleDir. rewrite attempt_bind, Hi, Hdir. cbn [negb].
    destruct (Hscan cur has false Hget) as [H1 H2]. set (w1 := (Lstat (fname file) w).1) in *.
    assert (Hc : (clear_for_dir cfg modTimeWindow GOOS ignoreMatch sdb versioner stamp depth file i w1).2 = inr false ∧
      reported file w (clear_for_dir cfg modTimeWindow GOOS ignoreMatch sdb versioner stamp depth file i w1).1).
    { unfold clear_for_dir. rewrite attempt_bind, Hget. cbn [fst snd].
      destruct (failing_stale file "handling dir" _ w w1 H1 H2) as [Hf1 Hf2]. by rewrite (bind_eq _ _ _ _ Hf1). }
    destruct Hc as [Hc1 Hc2]. by rewrite (bind_eq _ _ _ _ Hc1).
  - intros Ht. unfold handleSymlink. rewrite bool_decide_false by done.
    destruct (Hscan cur has false Hget) as [H1 H2]. set (w1 := (Lstat (fname file) w).1) in *.
    assert (Hc : (handleSymlinkCheckExisting cfg modTimeWindow GOOS ignoreMatch sdb versioner stamp depth file w).2 = inl errModified ∧
      only_scans (fname file) w (handleSymlinkCheckExisting cfg modTimeWindow GOOS ignoreMatch sdb versioner stamp depth file w).1).
    { unfold handleSymlinkCheckExisting. rewrite attempt_bind, Hi. fold w1.
      assert (Hg : (GetLocalFile sdb (fname file) w1).2 = inr (cur, has)) by (by rewrite Hget).
      rewrite (bind_eq _ _ _ _ Hg), Hget. cbn [fst snd]. by rewrite (bind_err _ _ _ _ H1). }
    destruct Hc as [Hc1 Hc2]. destruct (failing_stale file "handling symlink" _ w w Hc1 Hc2) as [Hf1 Hf2].
    by rewrite (bind_eq _ _ _ _ Hf1).
  - intros cur' has' temp Hget'. cbv zeta.
    assert (Hc : (check_existing cfg modTimeWindow GOOS ignoreMatch sdb versioner stamp depth file cur' has' w).2
        = inl (Wrapped "checking existing file" errModified) ∧
      only_scans (fname file) w (check_existing cfg modTimeWindow GOOS ignoreMatch sdb versioner stamp depth file cur' has' w).1).
    { unfold check_existing. rewrite attempt_bind, Hi. destruct (Hscan cur' has' false Hget') as [H1 H2].
      set (w1 := (Lstat (fname file) w).1) in *. rewrite bind_at. unfold wrap at 1 3.
      destruct (scanIfItemChanged _ _ _ _ _ _ _ _ w1) as [w2 [e|[]]]; cbn [fst snd] in *; [|done]. by apply (inj inl) in H1 as ->. }
    destruct Hc as [Hc1 Hc2]. unfold put_in_place. by rewrite (bind_err _ _ _ _ Hc1).
  - intros cur' target tempName available Hcur. cbv zeta. unfold renameFile.
    destruct (checkToBeDeleted_stale file i w cur' true Hf Hs) as [H1 H2]; [intros w1; unfold GetLocalFile; by rewrite Hcur|].
    by rewrite (bind_err _ _ _ _ H1).
Qed.
End changed.

(** ** A sample folder *)
#[local] Existing Instance ascii_fold.
Section sample.
#[local] Open Scope string_scope.
Definition sample_cfg (conflicts : Z) : FolderConfiguration :=
  let zero := MkSize f64_zero "" in
  MkFolderConfiguration "f" "" "basic" "/data" FolderTypeSendReceive [] "" 3600 true f64_zero f64_zero
    false true zero (MkVersioningConfiguration "" ∅ 3600 "" "basic") 0 0 0 0 false 0 0 f64_zero conflicts false false ""
    false 0 0 false 0 0 false false false false false false true (MkXattrFilter [] 1024 4096) false f64_zero 0 false.
Definition sample_file (data : list Z) : item := MkItem FileInfoTypeFile 420 1700000000000000000 data [] no_platform.
Definition sample_view : gmap path item := list_to_map [
  (dot, new_dir 493); (s2l "a.txt", sample_file [1; 2; 3]); (s2l "b.txt", sample_file [4]);
  (s2l "d", new_dir 493); (s2l "d/x", sample_file [5]); (s2l "l", MkItem FileInfoTypeSymlink 511 0 [] [100] no_platform);
  (s2l ".syncthing.a.txt.tmp", sample_file [7; 8])]%Z.
Lemma sample_view_ok : tree_ok sample_view = true.
Proof. by vm_compute. Qed.
Definition sample_world : world (F := MapDisk) := MkWorld (F := MapDisk) (MkDisk sample_view sample_view_ok) [] [] ∅.

Definition sample_record (name : string) (size : Z) (v : Z) : FileInfo :=
  (zero_record name) <| fSize := size |> <| fPermissions := 420 |> <| fModifiedS := 1700000000 |>
    <| fModifiedBy := 1 |> <| fVersion := MkVector [MkCounter v 1] |>.
Definition sample_db (p : path) : ferr + option FileInfo := inr (
  if bool_decide (p = s2l "a.txt") then Some (sample_record "a.txt" 3 1)
  else if bool_decide (p = s2l "b.txt") then Some (sample_record "b.txt" 9 1)
  else if bool_decide (p = s2l "d/x") then Some (sample_record "d/x" 1 1)
  else None).
Definition sample_stamp : path := s2l "20240102-030405".
(** What is left: the names, what is to be scanned, the kinds of the jobs. *)
Definition outcome (w : world (F := MapDisk)) : list string * list string * list Z :=
  (map (λ kv, l2s kv.1) (map_to_list (mv (wDisk w))), map l2s (wScans w), map snd (wJobs w)).
Definition sample_delete (name : string) (v : Z) (conflicts : Z) : world (F := MapDisk) :=
  (deleteFile (F := MapDisk) (sample_cfg conflicts) 0 "linux" sample_db None sample_stamp
    ((sample_record name 0 v) <| fDeleted := true |>) sample_world).1.
Definition sample_delete_dir (name : string) : world (F := MapDisk) :=
  (deleteDir (F := MapDisk) (sample_cfg 10) 0 "linux" (λ _, 0%Z) sample_db 9
    ((sample_record name 0 1) <| fDeleted := true |> <| fType := FileInfoTypeDirectory |>) sample_world).1.
Definition sample_finish (v conflicts : Z) (cur : FileInfo) : world (F := MapDisk) * (ferr + unit) :=
  performFinish (F := MapDisk) (sample_cfg conflicts) 0 "linux" (λ _, 0%Z) sample_db None sample_stamp (λ _, None) (λ _, None) 9
    (sample_record "a.txt" 2 v) cur true (s2l ".syncthing.a.txt.tmp") sample_world.
End sample.

Lemma sample_handler_ok name v conflicts del typ :
  name = "a.txt"%string ∨ name = "b.txt"%string →
  handler_ok (F := MapDisk) (sample_cfg conflicts) sample_db None sample_stamp
    ((sample_record name 0 v) <| fDeleted := del |> <| fType := typ |>) sample_world.
Proof.
  intros Hname. split.
  - done.
  - by apply (bool_decide_unpack _).
  - unfold sample_db. intros p f. case_bool_decide as E1; [by intros [= <-]|]. case_bool_decide as E2; [by intros [= <-]|].
    case_bool_decide as E3; [by intros [= <-]|done].
  - exists [s2l name]. split; [done|]. split; [|by destruct Hname; subst name]. apply Forall_singleton.
    destruct Hname; subst name; by apply normalb_spec.
  - intros _. destruct Hname; subst name; by apply (bool_decide_unpack _); vm_compute.
  - intros _ q Hq [i Hi]. exfalso. revert q i Hi Hq.
    change (map_Forall (λ q _, ¬ listed (s2l name) q) sample_view). apply (bool_decide_unpack _).
    destruct Hname; subst name; by vm_compute.
Qed.

(** The outcomes of handlers in the sample folder: the item that is known goes; one in
    conflict becomes a copy, with no copies it goes; a changed one stays and is scanned. *)
Example sample_outcomes :
  outcome (sample_delete "a.txt" 1 10) = (["d/x"; "b.txt"; ".syncthing.a.txt.tmp"; "l"; "d"; "."], [], [dbUpdateDeleteFile])%string ∧
  outcome (sample_delete "a.txt" 2 10) = (["d/x"; "b.txt"; "a.sync-conflict-20240102-030405-AAAAAAA.txt";
    ".syncthing.a.txt.tmp"; "l"; "d"; "."], ["a.sync-conflict-20240102-030405-AAAAAAA.txt"], [dbUpdateDeleteFile])%string ∧
  outcome (sample_delete "a.txt" 2 0) = (["d/x"; "b.txt"; ".syncthing.a.txt.tmp"; "l"; "d"; "."], [], [dbUpdateDeleteFile])%string ∧
  outcome (sample_delete "b.txt" 1 10) = (["d/x"; "b.txt"; "a.txt"; ".syncthing.a.txt.tmp"; "l"; "d"; "."], ["b.txt"], [])%string.
Proof. split_and!; by vm_compute. Qed.
Example sample_finishes :
  outcome (sample_finish 1 10 (sample_record "a.txt" 3 1)).1 = (["d/x"; "b.txt"; "a.txt"; "l"; "d"; "."], [], [dbUpdateHandleFile])%string ∧
  outcome (sample_finish 2 10 (sample_record "a.txt" 3 1)).1 =
    (["d/x"; "b.txt"; "a.txt"; "a.sync-conflict-20240102-030405-AAAAAAA.txt"; "l"; "d"; "."],
     ["a.sync-conflict-20240102-030405-AAAAAAA.txt"], [dbUpdateHandleFile])%string.
Proof. split_and!; by vm_compute. Qed.


Abbreviation sample_new v := ((sample_record "a.txt" 0 v) <| fDeleted := false |> <| fType := FileInfoTypeFile |>).
Lemma sample_temp_ok v : temp_ok (sample_new v) (s2l ".syncthing.a.txt.tmp").
Proof.
  split; [by vm_compute|done|intros [x E]; by vm_compute in E|]. intros (y & _ & E). by vm_compute in E.
Qed.
Lemma sample_direct_file v : direct (view (wDisk sample_world)) (fname (sample_new v)).
Proof. apply directb_spec. by vm_compute. Qed.
Lemma sample_direct_temp : direct (view (wDisk sample_world)) (s2l ".syncthing.a.txt.tmp").
Proof. apply directb_spec. by vm_compute. Qed.
Lemma sample_temp_not_dir : not_dir sample_world (s2l ".syncthing.a.txt.tmp").
Proof.
  intros i Hi. assert (E : sample_view !! s2l ".syncthing.a.txt.tmp" = Some (sample_file [7; 8])) by by vm_compute.
  change (sample_view !! s2l ".syncthing.a.txt.tmp" = Some i) in Hi. assert (i = sample_file [7; 8]) as -> by congruence. done.
Qed.

Lemma sample_found : found sample_world (s2l "b.txt") (sample_file [4]).
Proof.
  intros w1 [Hr _]. split; [|done]. unfold Lstat. rewrite call_result. unfold reads in Hr.
  change (mv (wDisk w1) = sample_view) in Hr. cbn [fs_Lstat MapDisk]. unfold m_Lstat, with_item. rewrite Hr.
  by vm_compute.
Qed.
Lemma sample_stale : stale (F := MapDisk) (sample_cfg 10) 0 "linux" sample_db sample_world (s2l "b.txt") (sample_file [4]).
Proof.
  split; [done|]. right. intros w1 fd _. eexists. split; [reflexivity|]. by destruct fd; vm_compute.
Qed.
Lemma changed_item_is_scanned_witness :
  reported (F := MapDisk) (sample_record "b.txt" 0 1) sample_world
    (deleteFile (F := MapDisk) (sample_cfg 10) 0 "linux" sample_db None sample_stamp (sample_record "b.txt" 0 1) sample_world).1.
Proof.
  exact (proj1 (changed_item_is_scanned (F := MapDisk) (sample_cfg 10) 0 "linux" (λ _, 0) sample_db None sample_stamp
    (λ _, None) (λ _, None) 9 (sample_record "b.txt" 0 1) (sample_file [4]) sample_world sample_found sample_stale)).
Defined.

(** *** Names that are patterns

    The pattern for old conflict copies is made of the name as it is: a name with a
    bracket makes it match files that are no copies, which then go as excess ones. *)
Definition bracket_view : gmap path item := list_to_map [
  (dot, new_dir 493); (s2l "a[.b]", sample_file [1; 2; 3]); (s2l "as", sample_file [4]); (s2l "ay", sample_file [5])].
Lemma bracket_view_ok : tree_ok bracket_view = true.
Proof. by vm_compute. Qed.
Definition bracket_run : world (F := MapDisk) :=
  (moveForConflict (F := MapDisk) (sample_cfg 1) sample_stamp (s2l "AAAAAAA") (s2l "a[.b]")
    (MkWorld (F := MapDisk) (MkDisk bracket_view bracket_view_ok) [] [] ∅)).1.
Example bracket_removes_others :
  filepath_Match (conflictPattern (s2l "a[.b]")) (s2l "as") = Some true ∧
  outcome bracket_run = (["ay"; "a[.sync-conflict-20240102-030405-AAAAAAA.b]"; "."],
    ["a[.sync-conflict-20240102-030405-AAAAAAA.b]"], [])%string.
Proof. split; by vm_compute. Qed.

(** *** Copies with later names

    Copies are dropped in the order of their names: where one has a later name, as one of
    a device whose clock is ahead has, the new copy is the one that goes. *)
Definition ahead_view : gmap path item := list_to_map [
  (dot, new_dir 493); (s2l "a.txt", sample_file [1; 2; 3]); (s2l "a.sync-conflict-20990101-000000-BBBBBBB.txt", sample_file [4])].
Lemma ahead_view_ok : tree_ok ahead_view = true.
Proof. by vm_compute. Qed.
Definition ahead_run : world (F := MapDisk) :=
  (moveForConflict (F := MapDisk) (sample_cfg 1) sample_stamp (s2l "AAAAAAA") (s2l "a.txt")
    (MkWorld (F := MapDisk) (MkDisk ahead_view ahead_view_ok) [] [] ∅)).1.
Example new_copy_is_dropped :
  outcome ahead_run = (["a.sync-conflict-20990101-000000-BBBBBBB.txt"; "."],
    ["a.sync-conflict-20240102-030405-AAAAAAA.txt"], [])%string.
Proof. by vm_compute. Qed.
