(* ===== verification/Copier.v ===== *)
(** * Getting the blocks of a file ([src/lib/model/folder_sendrecv.go],
      [deviceactivity.go], [src/lib/scanner/blocks.go], [blockqueue.go])

    A file is assembled in a temporary one: what is there already is hashed and
    reused, blocks are copied from the old version or from other files, and the rest
    is requested from other devices.  Copiers and pullers work on one shared state of
    the file (PullerState) at the same time; here every block is a step, in any order.
    It is proved that when the state is closed without an error each block of the
    temporary file has the hash it should have, so that a device that hashed a content
    gives every other device the same content. *)
From stdpp Require Import functions.
From S2P Require Import Prelude GoLib Vector FileInfo PullerState.
From Stdlib Require Import Ascii.
From Stdlib Require String.

Local Open Scope Z_scope.

(** ** Lists of blocks *)

(** Both lists are made with the same block size. *)
Fixpoint diff_loop (have need src tgt : list BlockInfo) : list BlockInfo * list BlockInfo :=
  match tgt, src with
  | [], _ => (have, need)
  | t :: tgt, [] => (have, need ++ t :: tgt)
  | t :: tgt, s :: src =>
      if bool_decide (bHash t = bHash s) then diff_loop (have ++ [t]) need src tgt
      else diff_loop have (need ++ [t]) src tgt
  end.
Definition blockDiff (src tgt : list BlockInfo) : list BlockInfo * list BlockInfo :=
  match tgt, src with
  | [], _ => ([], [])
  | _, [] => ([], tgt)
  | _, _ => diff_loop [] [] src tgt
  end.

Fixpoint offsets_from (offset : Z) (blocks : list BlockInfo) : list BlockInfo :=
  match blocks with
  | [] => []
  | b :: blocks => MkBlockInfo (bHash b) offset (bSize b) :: offsets_from (offset + bSize b) blocks
  end.
Definition populateOffsets (blocks : list BlockInfo) : list BlockInfo := offsets_from 0 blocks.

(** ** Hashing *)
Section hashing.
(** [crypto/sha256] *)
Context (sha256 : list Z → list Z).

Definition SHA256OfNothing : list Z :=
  [227; 176; 196; 66; 152; 252; 28; 20; 154; 251; 244; 200; 153; 111; 185; 36;
   39; 174; 65; 228; 100; 155; 147; 76; 164; 149; 153; 27; 120; 82; 184; 85].

(** [n] bounds the number of blocks. *)
Fixpoint content_loop (n : nat) (content : list Z) (blocksize : nat) (offset : Z) : list BlockInfo :=
  match n, content with
  | S n, _ :: _ =>
      let chunk := take blocksize content in
      MkBlockInfo (sha256 chunk) offset (Z.of_nat (length chunk))
        :: content_loop n (drop blocksize content) blocksize (offset + Z.of_nat (length chunk))
  | _, _ => []
  end.
Definition Blocks (content : list Z) (blocksize sizehint : Z) : list BlockInfo :=
  let r := if 0 <=? sizehint then take (Z.to_nat sizehint) content else content in
  match content_loop (length r) r (Z.to_nat blocksize) 0 with
  | [] => [MkBlockInfo SHA256OfNothing 0 0]
  | blocks => blocks
  end.
Definition Validate (buf hash : list Z) : bool :=
  if (0 <? length hash)%nat then bool_decide (sha256 buf = hash) else true.

Definition verifyBuffer (buf : list Z) (block : BlockInfo) : option error :=
  if negb (Z.of_nat (length buf) =? bSize block) then Some (MkError "length mismatch" false false)
  else if negb (bool_decide (sha256 buf = bHash block)) then Some (MkError "hash mismatch" false false)
  else None.

(** The part of a content a block stands for. *)
Definition slice_of (content : list Z) (b : BlockInfo) : list Z :=
  take (Z.to_nat (bSize b)) (drop (Z.to_nat (bOffset b)) content).
Definition holds (content : list Z) (b : BlockInfo) : Prop :=
  Z.of_nat (length (slice_of content b)) = bSize b ∧ sha256 (slice_of content b) = bHash b.
End hashing.

(** ** Devices that have blocks *)
Record Availability := MkAvailability { avID : list Z; avFromTemporary : bool }.

(** The counts of outstanding requests. *)
Definition deviceActivity : Type := gmap (list Z) Z.
Definition usage (act : deviceActivity) (a : Availability) : Z := default 0 (act !! avID a).
Fixpoint least_loop (act : deviceActivity) (i low best : Z) (availability : list Availability) : Z :=
  match availability with
  | [] => best
  | a :: availability =>
      if usage act a <? low then least_loop act (i + 1) (usage act a) i availability
      else least_loop act (i + 1) low best availability
  end.
Definition leastBusy (act : deviceActivity) (availability : list Availability) : Z :=
  least_loop act 0 (Z.shiftl 2 30 - 1) (-1) availability.
Definition using_ (act : deviceActivity) (a : Availability) : deviceActivity := <[avID a := usage act a + 1]> act.
Definition done_with (act : deviceActivity) (a : Availability) : deviceActivity := <[avID a := usage act a - 1]> act.

(** ** Where blocks come from *)

(** Reading a part of a file of a folder, hashing the temporary file, and asking a
    device; [temp_view] is the content of the temporary file. *)
Class BlockSources (W : Type) := {
  temp_view : W → list Z;
  read_temp : W → W * (error + list Z);
  rename_real : string → W → W * option error;
  ReadAt_in : string → string → Z → Z → W → W * (error + list Z);
  copy_range : string → string → Z → Z → Z → W → W * option error;
  RequestGlobal : Availability → BlockInfo → W → W * (error + list Z);
}.

Definition errNoDevice : error := MkError "peers who had this file went away, or the file has changed while syncing. will retry later" false false.
Definition errCaseConflict (real : string) : error := MkError ("case conflict: " +:+ real) false false.

Section copier.
Context {W : Type} `{FS : Filesystem W} `{PB : Protobuf} `{BS : BlockSources W}.
(** SHA-256, the folder: its name, whether it is receive-encrypted, uses sparse files,
    indexes blocks, and copies data in the standard way; the other folders that index
    blocks; the local index of blocks, whose listing may end with an error. *)
Context (sha256 : list Z → list Z).
Context (folder : string) (receiveEncrypted disableSparse blockIndexing standardCopy : bool).
Context (otherFolders : list string) (blocksWithHash : string → list Z → list (string * Z)).
Context (now : Z).

(** [HashFile]: the file must not change meanwhile, which is an error of reading. *)
Definition HashFile (blockSize : Z) (w : W) : W * (error + list BlockInfo) :=
  let '(w, r) := read_temp w in
  (w, match r with
      | inl e => inl e
      | inr content => inr (Blocks sha256 content blockSize (Z.of_nat (length content)))
      end).

(** The real name when a temporary file exists in another case. *)
Context (case_conflict : error → option string).

Fixpoint reuse_loop (existing : list BlockInfo) (i : Z) (fileBlocks : list BlockInfo)
    (blocks : list BlockInfo) (reused : list Z) : list BlockInfo * list Z :=
  match fileBlocks with
  | [] => (blocks, reused)
  | b :: fileBlocks =>
      if bool_decide (b ∈ existing) then reuse_loop existing (i + 1) fileBlocks blocks (reused ++ [i])
      else reuse_loop existing (i + 1) fileBlocks (blocks ++ [b]) reused
  end.
(** The hashes of the temporary file, after renaming it if need be. *)
Definition hash_temp (blockSize : Z) (w : W) : W * (error + list BlockInfo) :=
  let '(w, r) := HashFile blockSize w in
  match r with
  | inl e =>
      match case_conflict e with
      | Some real =>
          let '(w, rerr) := rename_real real w in
          match rerr with
          | None => HashFile blockSize w
          | Some _ => (w, inl e)
          end
      | None => (w, inl e)
      end
  | inr blocks => (w, inr blocks)
  end.
Definition reuseBlocks (blocks : list BlockInfo) (reused : list Z) (file : FileInfo) (w : W)
    : W * (list BlockInfo * list Z) :=
  let '(w, r) := hash_temp (FileInfo_BlockSize file) w in
  match r with
  | inl _ => (w, (blocks, reused))
  | inr tempBlocks =>
      let '(tempCopyBlocks, _) := blockDiff tempBlocks (fBlocks file) in
      (w, reuse_loop tempCopyBlocks 0 (fBlocks file) [] reused)
  end.

(** [Some] after the data is written, or when the file failed; [false] when there is
    nothing to copy here. *)
Definition copyBlockFromFile (srcFolder srcName : string) (srcOffset : Z) (block : BlockInfo)
    (s : sharedPullerState) (w : W) : go (W * sharedPullerState * bool) :=
  let '(w, r) := ReadAt_in srcFolder srcName srcOffset (bSize block) w in
  match r with
  | inl _ => Ok (w, s, false)
  | inr buf =>
      match (if receiveEncrypted then None else verifyBuffer sha256 buf block) with
      | Some _ => Ok (w, s, false)
      | None =>
          let! (w, s, err) := tempFile s w in
          match err with
          | Some _ => Ok (w, s, false)
          | None =>
              let '(w, err) :=
                if standardCopy then fd_WriteAt buf (bOffset block) w
                else copy_range srcFolder srcName srcOffset (bOffset block) (bSize block) w in
              match err with
              | Some e => Ok (w, fail s (Some (wrap "dst write: " e)), false)
              | None => Ok (w, s, true)
              end
          end
      end
  end.

Fixpoint folder_loop (srcFolder : string) (places : list (string * Z)) (block : BlockInfo)
    (s : sharedPullerState) (w : W) : go (W * sharedPullerState * bool) :=
  match places with
  | [] => Ok (w, s, false)
  | (name, offset) :: places =>
      let! (w, s, ok) := copyBlockFromFile srcFolder name offset block s w in
      if ok : bool then
        Ok (w, (if bool_decide (name = fName (s_file s)) then copiedFromOrigin s now else s), true)
      else match failed s with
           | Some _ => Ok (w, s, false)
           | None => folder_loop srcFolder places block s w
           end
  end.
Definition copyBlockFromFolder (srcFolder : string) (block : BlockInfo) (s : sharedPullerState) (w : W)
    : go (W * sharedPullerState * bool) :=
  folder_loop srcFolder (blocksWithHash srcFolder (bHash block)) block s w.

Fixpoint folders_loop (folders : list string) (block : BlockInfo) (s : sharedPullerState) (w : W)
    : go (W * sharedPullerState * bool) :=
  match folders with
  | [] => Ok (w, s, false)
  | f :: folders =>
      let! (w, s, ok) := copyBlockFromFolder f block s w in
      if ok : bool then Ok (w, s, true)
      else match failed s with
           | Some _ => Ok (w, s, false)
           | None => folders_loop folders block s w
           end
  end.

Definition copyBlock (block : BlockInfo) (s : sharedPullerState) (w : W) : go (W * sharedPullerState * bool) :=
  let! (w, s, ok) :=
    match s_curFileBlocks s !! bHash block with
    | Some idx =>
        match fBlocks (s_curFile s) !! Z.to_nat idx with
        | Some b =>
            let! (w, s, ok) := copyBlockFromFile folder (fName (s_curFile s)) (bOffset b) block s w in
            Ok (w, (if ok : bool then copiedFromOrigin s now else s), ok)
        | None => Panic "index out of range"
        end
    | None => Ok (w, s, false)
    end in
  if ok : bool then Ok (w, s, true)
  else match failed s with
  | Some _ => Ok (w, s, false)
  | None =>
      let! (w, s, ok) := if blockIndexing then copyBlockFromFolder folder block s w else Ok (w, s, false) in
      if ok : bool then Ok (w, s, true)
      else match failed s with
      | Some _ => Ok (w, s, false)
      | None => folders_loop otherFolders block s w
      end
  end.

(** What becomes of a block in [copierRoutine]. *)
Inductive outcome := Copied | ToPull | Stopped.
Definition sparse_block (s : sharedPullerState) (block : BlockInfo) : bool :=
  negb disableSparse && (s_reused s =? 0) && Block_IsEmpty block.
Definition copier_block (block : BlockInfo) (s : sharedPullerState) (w : W) : go (W * sharedPullerState * outcome) :=
  if sparse_block s block then Ok (w, copyDone (skippedSparseBlock s now) block now now, Copied)
  else
    let! (w, s, ok) := copyBlock block s w in
    if ok : bool then Ok (w, copyDone s block now now, Copied)
    else match failed s with
         | Some _ => Ok (w, s, Stopped)
         | None => Ok (w, pullStarted s now, ToPull)
         end.
(** After the blocks of a file; with no blocks the temporary file is still needed. *)
Definition copier_end (blocks : list BlockInfo) (s : sharedPullerState) (w : W) : go (W * sharedPullerState) :=
  match blocks with
  | [] => let! (w, s, err) := tempFile s w in Ok (w, match err with Some e => fail s (Some e) | None => s end)
  | _ => Ok (w, s)
  end.

(** Candidates are tried from the least busy one; [acts] are the counts it sees. *)
Fixpoint pull_loop (n : nat) (acts : nat → deviceActivity) (candidates : list Availability) (lastError : option error)
    (block : BlockInfo) (s : sharedPullerState) (w : W) : W * sharedPullerState :=
  let found := leastBusy (acts n) candidates in
  match n with
  | O => (w, fail s (Some (wrap "pull: " (default errNoDevice lastError))))
  | S n =>
      if found =? -1 then (w, fail s (Some (wrap "pull: " (default errNoDevice lastError))))
      else match candidates !! Z.to_nat found, last candidates with
      | Some selected, Some moved =>
          let candidates := take (length candidates - 1) (<[Z.to_nat found := moved]> candidates) in
          let '(w, r) := RequestGlobal selected block w in
          match r with
          | inl e => pull_loop n acts candidates (Some e) block s w
          | inr buf =>
              match (if receiveEncrypted then None else verifyBuffer sha256 buf block) with
              | Some e => pull_loop n acts candidates (Some e) block s w
              | None =>
                  let '(w, err) := fd_WriteAt buf (bOffset block) w in
                  match err with
                  | Some e => (w, fail s (Some (wrap "save: " e)))
                  | None => (w, pullDone s block now now)
                  end
              end
          end
      | _, _ => (w, s)
      end
  end.
Definition pullBlock (acts : nat → deviceActivity) (candidates : list Availability) (block : BlockInfo)
    (s : sharedPullerState) (w : W) : go (W * sharedPullerState) :=
  let! (w, s, err) := tempFile s w in
  match err with
  | Some _ => Ok (w, s)
  | None =>
      if sparse_block s block then Ok (w, pullDone s block now now)
      else Ok (pull_loop (S (length candidates)) acts candidates None block s w)
  end.
End copier.

(** ** From the record to the shared state *)
Section starting.
Context {W : Type} `{FS : Filesystem W} `{PB : Protobuf} `{BS : BlockSources W}.
Context (sha256 : list Z → list Z) (case_conflict : error → option string).
Context (receiveEncrypted ignorePerms disableSparse disableFsync : bool) (folder : string).
(** [fs.TempName], the order blocks are pulled in, and the record of the local device. *)
Context (TempName : string → string) (Reorder : list BlockInfo → list BlockInfo).
Context (GetLocal : string → error + option FileInfo) (t t' t'' : Z).

Definition with_blocks (f : FileInfo) (blocks : list BlockInfo) : FileInfo :=
  MkFileInfo (fName f) (fSize f) (fModifiedS f) (fModifiedBy f) (fVersion f) (fSequence f) blocks
    (fSymlinkTarget f) (fBlocksHash f) (fPreviousBlocksHash f) (fEncrypted f) (fPlatform f)
    (fType f) (fPermissions f) (fModifiedNs f) (fRawBlockSize f) (fLocalFlags f)
    (fEncryptionTrailerSize f) (fDeleted f) (fNoPermissions f) (ftruncated f).
Definition no_file : FileInfo :=
  MkFileInfo "" 0 0 0 (MkVector []) 0 [] [] [] [] [] Platform.no_platform FileInfoTypeFile 0 0 0 0 0 false false false.

Definition handleFile (file : FileInfo) (w : W) : go (W * (error + (sharedPullerState * list BlockInfo))) :=
  match GetLocal (fName file) with
  | inl e => Ok (w, inl e)
  | inr cur =>
      let tempName := TempName (fName file) in
      let file := with_blocks file (populateOffsets (fBlocks file)) in
      let '(w, (blocks, reused)) :=
        if receiveEncrypted then (w, (fBlocks file, []))
        else reuseBlocks sha256 case_conflict (fBlocks file) [] file w in
      let! w :=
        if (length reused =? 0)%nat then
          let! (w, _, _) := inWritableDir (λ p w, let '(w, e) := fs_Remove p w in Ok (w, tt, e)) tt tempName w in Ok w
        else Ok w in
      let blocks := Reorder blocks in
      Ok (w, inr (newSharedPullerState file folder tempName blocks reused (ignorePerms || fNoPermissions file)
        (bool_decide (is_Some cur)) (default no_file cur) (negb disableSparse) (negb disableFsync) t t' t'', blocks))
  end.
End starting.

(** ** All routines at work on one file *)
Section running.
Context {W : Type} `{FS : Filesystem W} `{PB : Protobuf} `{BS : BlockSources W}.
Context (sha256 : list Z → list Z) (folder : string) (receiveEncrypted disableSparse blockIndexing standardCopy : bool).
Context (otherFolders : list string) (blocksWithHash : string → list Z → list (string * Z)) (now : Z).

Record run := MkRun {
  rw : W;
  rs : sharedPullerState;
  rtodo : list BlockInfo;
  rpulling : list BlockInfo;
}.
Abbreviation cblock := (copier_block sha256 folder receiveEncrypted disableSparse blockIndexing standardCopy otherFolders blocksWithHash now).
Abbreviation pblock := (pullBlock sha256 receiveEncrypted disableSparse now).

(** The copier takes the next block; a puller takes any block that waits, or drops it
    when the file has failed; and the file can fail at any time, as when the folder is
    stopped. *)
Inductive step : run → run → Prop :=
  | step_copied b todo pulling s w s' w' :
      cblock b s w = Ok (w', s', Copied) → step (MkRun w s (b :: todo) pulling) (MkRun w' s' todo pulling)
  | step_to_pull b todo pulling s w s' w' :
      cblock b s w = Ok (w', s', ToPull) → step (MkRun w s (b :: todo) pulling) (MkRun w' s' todo (pulling ++ [b]))
  | step_stopped b todo pulling s w s' w' :
      cblock b s w = Ok (w', s', Stopped) → step (MkRun w s (b :: todo) pulling) (MkRun w' s' [] pulling)
  | step_end blocks pulling s w s' w' :
      copier_end blocks s w = Ok (w', s') → step (MkRun w s [] pulling) (MkRun w' s' [] pulling)
  | step_pulled acts candidates b todo before after s w s' w' :
      failed s = None → pblock acts candidates b s w = Ok (w', s') →
      step (MkRun w s todo (before ++ b :: after)) (MkRun w' s' todo (before ++ after))
  | step_dropped b todo before after s w :
      failed s ≠ None → step (MkRun w s todo (before ++ b :: after)) (MkRun w s todo (before ++ after))
  | step_failed e todo pulling s w : step (MkRun w s todo pulling) (MkRun w (fail s (Some e)) todo pulling).
End running.

(** ** What the operations do to the temporary file *)

Definition write_at (c data : list Z) (off : nat) : list Z :=
  take off (resize (length c `max` (off + length data)) 0 c) ++ data ++ drop (off + length data) c.

Class TempLaws (W : Type) `{FS : Filesystem W} `{BS : BlockSources W} : Prop := {
  read_temp_same w : temp_view (read_temp w).1 = temp_view w;
  read_temp_content w c : (read_temp w).2 = inr c → c = temp_view w;
  ReadAt_same f n o k w : temp_view (ReadAt_in f n o k w).1 = temp_view w;
  Request_same a b w : temp_view (RequestGlobal a b w).1 = temp_view w;
  Stat_same p w : temp_view (fs_Stat p w).1 = temp_view w;
  Chmod_same p m w : temp_view (fs_Chmod p m w).1 = temp_view w;
  Hide_same p w : temp_view (fs_Hide p w) = temp_view w;
  Unhide_same p w : temp_view (fs_Unhide p w) = temp_view w;
  Sync_same w : temp_view (fd_Sync w).1 = temp_view w;
  Close_same w : temp_view (fd_Close w).1 = temp_view w;
  Open_same p mode w : (fs_OpenFile p [OptReadWrite] mode w).2 = None →
    temp_view (fs_OpenFile p [OptReadWrite] mode w).1 = temp_view w;
  Open_new p mode w : (fs_OpenFile p [OptReadWrite; OptCreate; OptExclusive] mode w).2 = None →
    temp_view (fs_OpenFile p [OptReadWrite; OptCreate; OptExclusive] mode w).1 = [];
  Truncate_ok n w : (fd_Truncate n w).2 = None → temp_view (fd_Truncate n w).1 = resize (Z.to_nat n) 0 (temp_view w);
  WriteAt_ok data off w : (fd_WriteAt data off w).2 = None →
    temp_view (fd_WriteAt data off w).1 = write_at (temp_view w) data (Z.to_nat off);
}.

(** *** Slices *)
Lemma slice_write_same (c data : list Z) off : take (length data) (drop off (write_at c data off)) = data.
Proof.
  unfold write_at. set (r := resize _ 0 c). assert (Hr : length (take off r) = off).
  { rewrite length_take. unfold r. rewrite length_resize. lia. }
  rewrite drop_app_ge by lia. rewrite Hr, Nat.sub_diag, drop_0. by rewrite take_app_length.
Qed.
Lemma take_resize (c : list Z) n k : (k ≤ length c)%nat → (k ≤ n)%nat → take k (resize n 0 c) = take k c.
Proof.
  intros H1 H2. destruct (decide (n ≤ length c)%nat) as [Hn|Hn].
  - rewrite resize_le by done. rewrite take_take. f_equal. lia.
  - rewrite resize_ge by lia. rewrite take_app_le by done. done.
Qed.
Lemma slice_write_before (c data : list Z) off o n : (o + n ≤ off)%nat → (o + n ≤ length c)%nat →
  take n (drop o (write_at c data off)) = take n (drop o c).
Proof.
  intros H1 H2. rewrite !take_drop_commute. f_equal. unfold write_at.
  rewrite take_app_le by (rewrite length_take, length_resize; lia).
  rewrite take_take. replace ((o + n) `min` off)%nat with (o + n)%nat by lia. apply take_resize; lia.
Qed.
Lemma slice_write_after (c data : list Z) off o n : (off + length data ≤ o)%nat →
  take n (drop o (write_at c data off)) = take n (drop o c).
Proof.
  intros H. unfold write_at. f_equal.
  assert (Hl : length (take off (resize (length c `max` (off + length data)) 0 c)) = off).
  { rewrite length_take, length_resize. lia. }
  rewrite drop_app_ge by lia. rewrite Hl. rewrite drop_app_ge by lia. rewrite drop_drop. f_equal. lia.
Qed.
Lemma length_write_at (c data : list Z) off : length (write_at c data off) = (length c `max` (off + length data))%nat.
Proof. unfold write_at. rewrite !length_app, length_take, length_resize, length_drop. lia. Qed.
Lemma slice_resize (c : list Z) n o k : (o + k ≤ n)%nat → (o + k ≤ length c)%nat → take k (drop o (resize n 0 c)) = take k (drop o c).
Proof. intros H1 H2. rewrite !take_drop_commute. f_equal. by apply take_resize. Qed.
Lemma slice_zeros n o k : (o + k ≤ n)%nat → take k (drop o (resize n 0 [])) = replicate k 0.
Proof.
  intros H. rewrite resize_nil, drop_replicate, take_replicate. f_equal. lia.
Qed.

(** *** Blocks of a file *)
Definition sizes (blocks : list BlockInfo) : Z := fold_right (λ b n, bSize b + n) 0 blocks.
(** The blocks lie one after the other and make up the file. *)
Record pullable (file : FileInfo) : Prop := {
  ok_offsets : populateOffsets (fBlocks file) = fBlocks file;
  ok_sizes : Forall (λ b, 0 <= bSize b) (fBlocks file);
  ok_total : sizes (fBlocks file) = fSize file;
  ok_distinct : NoDup (fBlocks file);
  ok_regular i b : fBlocks file !! i = Some b →
    bOffset b = Z.of_nat i * FileInfo_BlockSize file ∧ bSize b <= FileInfo_BlockSize file;
  ok_plain : fEncrypted file = [] ∧ IsSymlink file = false;
}.
Lemma offsets_from_bounds off blocks b : Forall (λ b, 0 <= bSize b) blocks → b ∈ offsets_from off blocks →
  off <= bOffset b ∧ 0 <= bSize b ∧ bOffset b + bSize b <= off + sizes blocks.
Proof.
  revert off. induction blocks as [|c blocks IH]; intros off; cbn [offsets_from sizes fold_right]; [by intros _ ?%elem_of_nil|].
  intros [Hc Hbs]%Forall_cons [->|Hb]%elem_of_cons; cbn [bOffset bSize].
  - assert (0 <= sizes blocks); [|unfold sizes in *; lia]. clear -Hbs. induction Hbs; cbn; [lia|]. unfold sizes in *. lia.
  - destruct (IH _ Hbs Hb) as (?&?&?). unfold sizes in *. lia.
Qed.
Lemma offsets_from_apart off blocks b1 b2 : Forall (λ b, 0 <= bSize b) blocks →
  b1 ∈ offsets_from off blocks → b2 ∈ offsets_from off blocks →
  b1 = b2 ∨ bOffset b1 + bSize b1 <= bOffset b2 ∨ bOffset b2 + bSize b2 <= bOffset b1.
Proof.
  revert off. induction blocks as [|c blocks IH]; intros off; cbn [offsets_from]; [by intros _ ?%elem_of_nil|].
  intros [Hc Hbs]%Forall_cons [->|H1]%elem_of_cons [->|H2]%elem_of_cons; [by left|right..|by eapply IH].
  - left. cbn. by destruct (offsets_from_bounds _ _ _ Hbs H2).
  - right. cbn. by destruct (offsets_from_bounds _ _ _ Hbs H1).
Qed.
Section blocks.
Context (file : FileInfo) (Hok : pullable file).
Lemma block_bounds b : b ∈ fBlocks file → 0 <= bOffset b ∧ 0 <= bSize b ∧ bOffset b + bSize b <= fSize file.
Proof.
  intros Hb. destruct Hok as [Ho Hs Ht _ _ _]. rewrite <-Ho in Hb. destruct (offsets_from_bounds _ _ _ Hs Hb). unfold populateOffsets in *.
  lia.
Qed.
Lemma blocks_apart b1 b2 : b1 ∈ fBlocks file → b2 ∈ fBlocks file →
  b1 = b2 ∨ bOffset b1 + bSize b1 <= bOffset b2 ∨ bOffset b2 + bSize b2 <= bOffset b1.
Proof.
  intros H1 H2. destruct Hok as [Ho Hs _ _ _ _]. rewrite <-Ho in H1, H2. by eapply offsets_from_apart.
Qed.

(** A write of one block leaves the others alone. *)
Lemma slice_write b b' c data : b ∈ fBlocks file → b' ∈ fBlocks file → b ≠ b' → Z.of_nat (length data) = bSize b →
  Z.of_nat (length (slice_of c b')) = bSize b' →
  slice_of (write_at c data (Z.to_nat (bOffset b))) b' = slice_of c b'.
Proof.
  intros Hb Hb' Hne Hl Hl'. destruct (block_bounds b Hb) as (?&?&?), (block_bounds b' Hb') as (?&?&?). unfold slice_of in *.
  destruct (decide (bSize b' = 0)) as [E|E]; [by rewrite E|].
  rewrite length_take, length_drop in Hl'.
  destruct (blocks_apart b b' Hb Hb') as [?|[Hap|Hap]]; [done| |].
  - apply slice_write_after. lia.
  - apply slice_write_before; lia.
Qed.
Lemma slice_written b c data : b ∈ fBlocks file → Z.of_nat (length data) = bSize b →
  slice_of (write_at c data (Z.to_nat (bOffset b))) b = data.
Proof. intros Hb Hl. unfold slice_of. rewrite <-Hl, Nat2Z.id. apply slice_write_same. Qed.
End blocks.

(** ** Every step keeps the blocks that are in place *)
Lemma go_bind_Ok {A B} (m : go A) (k : A → go B) r : (m ≫= k) = Ok r → ∃ a, m = Ok a ∧ k a = Ok r.
Proof. destruct m; cbn; [eauto|done..]. Qed.

Section content.
Context {W : Type} `{FS : Filesystem W} `{PB : Protobuf} `{BS : BlockSources W} `{TL : !TempLaws W}.
Context (sha256 : list Z → list Z) (disableSparse : bool).
(** The table of hashes of blocks of zeroes is right, and files can be given a size. *)
Context (Hempty : disableSparse = false → ∀ b, Block_IsEmpty b = true → sha256 (replicate (Z.to_nat (bSize b)) 0) = bHash b).
Context (Htruncate : disableSparse = false → ∀ n w, (fd_Truncate n w).2 = None).
Context (file : FileInfo) (Hfile : pullable file).
Abbreviation writer s := (m_writer (s_mut s)).

(** What opening makes of a temporary file. *)
Definition opened (s : sharedPullerState) (c : list Z) : list Z :=
  let c0 := if s_reused s =? 0 then [] else c in
  if s_sparse s then resize (Z.to_nat (fSize (s_file s))) 0 c0 else c0.

Lemma inWritableDir_view {S} (fn : string → W → go (W * S * option error)) dflt p w w' r :
  inWritableDir fn dflt p w = Ok (w', r, None) →
  ∃ w1 w2, temp_view w1 = temp_view w ∧ fn p w1 = Ok (w2, r, None) ∧ temp_view w' = temp_view w2.
Proof.
  unfold inWritableDir. pose proof (Stat_same (filepath_Dir p) w) as Hst. destruct (fs_Stat _ w) as [w1 [e|[isDir m]]]; [done|].
  cbn [fst] in Hst. destruct (negb isDir); [done|]. destruct (Z.land _ 128 =? 0).
  2:{ intros H. exists w1, w'. done. }
  pose proof (Chmod_same (filepath_Dir p) (Z.lor (Z.land m permBits) 448) w1) as Hc.
  destruct (fs_Chmod _ _ w1) as [w2 pe]. cbn [fst] in Hc. intros ([[w3 s3] err] & Hfn & H)%go_bind_Ok. destruct pe as [pe|].
  - injection H as <- <- Hb. exists w2, w3. split_and!; [congruence| |done]. rewrite Hfn. f_equal. f_equal.
    unfold blame_parent in Hb. destruct err as [e|]; [|done]. by destruct (e_permission e).
  - pose proof (Chmod_same (filepath_Dir p) (Z.land m permBits) w3) as Hc3. destruct (fs_Chmod _ _ w3) as [w4 ?]. cbn [fst] in Hc3.
    injection H as <- <- ->. exists w2, w3. split_and!; [congruence|done|done].
Qed.

Lemma open_temp_view s flags mode w w' b :
  (flags = [OptReadWrite; OptCreate; OptExclusive] ∧ s_reused s = 0 ∨ flags = [OptReadWrite] ∧ s_reused s ≠ 0) →
  s_file s = file → s_sparse s = negb disableSparse → open_temp s flags mode w = Ok (w', b, None) →
  b = true ∧ temp_view w' = opened s (temp_view w).
Proof.
  intros Hflags Hf Hsp. unfold open_temp.
  assert (Hopen : (fs_OpenFile (s_tempName s) flags mode w).2 = None →
    temp_view (fs_OpenFile (s_tempName s) flags mode w).1 = if s_reused s =? 0 then [] else temp_view w).
  { destruct Hflags as [[-> E]|[-> E]]; [rewrite E; apply Open_new|].
    apply Z.eqb_neq in E. rewrite E. apply Open_same. }
  destruct (fs_OpenFile _ _ _ w) as [w1 [e|]]; [done|]. cbn [fst snd] in Hopen. specialize (Hopen eq_refl).
  cbv zeta. destruct Hfile as [_ _ _ _ _ [Henc Hlink]]. rewrite Hf, Hlink, andb_true_r, Henc. unfold opened. rewrite Hf.
  pose proof (Hide_same (s_tempName s) w1) as Hh. set (w2 := fs_Hide (s_tempName s) w1) in *. clearbody w2.
  destruct (s_sparse s) eqn:Es; [|intros [= <- <-]; split; [done|congruence]]. cbn [length Nat.ltb Nat.leb mbind go_bind]. rewrite Z.add_0_r.
  pose proof (Truncate_ok (fSize file) w2) as Ht. destruct disableSparse; [done|].
  pose proof (Htruncate eq_refl (fSize file) w2) as Hnt. destruct (fd_Truncate (fSize file) w2) as [w3 te]. cbn [fst snd] in *. subst te.
  intros [= <- <-]. split; [done|]. rewrite Ht by done. congruence.
Qed.

Lemma addWriterLocked_view s w w' s' : s_file s = file → s_sparse s = negb disableSparse →
  addWriterLocked s w = Ok (w', s', None) →
  s' = with_mut s (set_writer (s_mut s) true) ∧ temp_view w' = opened s (temp_view w).
Proof.
  intros Hf Hsp. unfold addWriterLocked. intros ([[w1 b] err] & Hin & [= <- <- ->])%go_bind_Ok.
  apply inWritableDir_view in Hin as (w2 & w3 & Hv & Hfn & ->). unfold tempFileInWritableDir in Hfn.
  destruct (s_reused s =? 0) eqn:Hre.
  - apply open_temp_view in Hfn as [-> ->]; [|left; zb; done|done..]. rewrite Hv, orb_true_r. done.
  - destruct (negb (s_ignorePerms s)).
    + pose proof (Chmod_same (s_tempName s) (if s_ignorePerms s then 438 else Z.lor (fPermissions (s_file s)) 384) w2) as Hc.
      destruct (fs_Chmod _ _ w2) as [w4 [e|]]; [done|]. cbn [fst] in Hc.
      apply open_temp_view in Hfn as [-> ->]; [|right; zb; done|done..]. rewrite Hc, Hv, orb_true_r. done.
    + apply open_temp_view in Hfn as [-> ->]; [|right; zb; done|done..]. rewrite Hv, orb_true_r. done.
Qed.

(** *** The invariant *)
Definition settled (s : sharedPullerState) (w : W) (b : BlockInfo) : Prop :=
  if writer s then holds sha256 (temp_view w) b
  else if s_reused s =? 0 then sparse_block disableSparse s b = true else holds sha256 (temp_view w) b.
(** Where nothing was written there are zeroes. *)
Definition blank (s : sharedPullerState) (w : W) (b : BlockInfo) : Prop :=
  writer s = true → s_sparse s = true → s_reused s = 0 → slice_of (temp_view w) b = replicate (Z.to_nat (bSize b)) 0.
Record in_order (s : sharedPullerState) (w : W) (pending : list BlockInfo) : Prop := {
  io_file : s_file s = file;
  io_sparse : s_sparse s = negb disableSparse;
  io_pending : ∀ b, b ∈ pending → b ∈ fBlocks file;
  io_distinct : NoDup pending;
  io_settled b : b ∈ fBlocks file → b ∈ pending ∨ settled s w b;
  io_blank b : b ∈ pending → blank s w b;
}.

Lemma sparse_zero s b : s_sparse s = negb disableSparse → sparse_block disableSparse s b = true →
  s_sparse s = true ∧ s_reused s = 0 ∧ sha256 (replicate (Z.to_nat (bSize b)) 0) = bHash b.
Proof. unfold sparse_block. intros -> [[H1 H2]%andb_true_iff H3]%andb_true_iff. split_and!; [done|by zb|apply Hempty; [by destruct disableSparse|done]]. Qed.

Lemma opened_holds s w b : s_file s = file → s_sparse s = negb disableSparse → b ∈ fBlocks file →
  writer s = false → settled s w b → holds sha256 (opened s (temp_view w)) b.
Proof.
  intros Hf Hsp Hb Hw. unfold settled, opened, holds, slice_of. rewrite Hw, Hf.
  destruct (block_bounds file Hfile b Hb) as (Hb1&Hb2&Hb3). destruct (s_reused s =? 0) eqn:Hre.
  - intros (Hs & _ & Hz)%sparse_zero; [|done]. rewrite Hs, slice_zeros by lia. rewrite length_replicate. split; [lia|done].
  - intros [H1 H2]. destruct (decide (bSize b = 0)) as [E|E].
    { rewrite E in *. change (Z.to_nat 0) with 0%nat in *. cbn [take] in *. by split. }
    destruct (s_sparse s); [|by split]. rewrite length_take, length_drop in H1. rewrite slice_resize by lia.
    split; [|done]. rewrite length_take, length_drop. lia.
Qed.

(** Opening the temporary file keeps order. *)
Lemma addWriter_in_order s w s' w' pending : in_order s w pending → writer s = false →
  addWriterLocked s w = Ok (w', s', None) → in_order s' w' pending ∧ writer s' = true.
Proof.
  intros [Hf Hsp Hp Hd Hset Hbl] Hw H. apply addWriterLocked_view in H as [-> Hv]; [|done..]. split; [|done].
  constructor; [done..| |].
  - intros b Hb. destruct (Hset b Hb) as [?|Hs]; [by left|]. right. unfold settled. cbn. rewrite Hv. by apply opened_holds.
  - intros b Hb _ Hs Hr. cbn in *. rewrite Hv. unfold opened. rewrite Hs, Hr, Hf. cbn [Z.eqb].
    destruct (block_bounds file Hfile b (Hp b Hb)) as (?&?&?). apply slice_zeros. lia.
Qed.

(** What the operations leave alone. *)
Definition same_job (s s' : sharedPullerState) : Prop :=
  s_file s' = s_file s ∧ s_sparse s' = s_sparse s ∧ s_reused s' = s_reused s ∧
  m_copyNeeded (s_mut s') = m_copyNeeded (s_mut s) ∧ m_pullNeeded (s_mut s') = m_pullNeeded (s_mut s) ∧
  (failed s' = None → failed s = None).
#[local] Instance same_job_preorder : PreOrder same_job.
Proof.
  split; [intros s; by split_and!|]. intros s1 s2 s3 (?&?&?&?&?&?) (?&?&?&?&?&?). split_and!; [congruence..|auto].
Qed.
Lemma same_job_fail s e : same_job s (fail s (Some e)) ∧ failed (fail s (Some e)) ≠ None.
Proof. unfold fail, failLocked, failed. destruct (m_err (s_mut s)) eqn:E; [|done]. split; [by split_and!|congruence]. Qed.

(** A state that has failed promises nothing. *)
Definition ordered (s : sharedPullerState) (w : W) (pending : list BlockInfo) : Prop :=
  failed s = None → in_order s w pending.
Lemma ordered_view s w w' P : temp_view w' = temp_view w → ordered s w P → ordered s w' P.
Proof.
  intros Hv H Hf. destruct (H Hf) as [H1 H2 H3 H4 H5 H6]. constructor; [done..| |].
  - intros b Hb. destruct (H5 b Hb) as [?|Hs]; [by left|right]. unfold settled in *. by rewrite Hv.
  - intros b Hb. unfold blank in *. rewrite Hv. by apply H6.
Qed.
Lemma ordered_failed s w P : failed s ≠ None → ordered s w P.
Proof. by intros H ?. Qed.

Lemma tempFile_ordered s w w' s' err P : ordered s w P → tempFile s w = Ok (w', s', err) →
  same_job s s' ∧ ordered s' w' P ∧ match err with None => writer s' = true | Some _ => failed s' ≠ None end.
Proof.
  intros Hord. unfold tempFile. destruct (m_err (s_mut s)) as [e|] eqn:He.
  { intros [= <- <- <-]. split; [done|]. assert (failed s ≠ None) by (unfold failed; congruence). split; [by apply ordered_failed|done]. }
  destruct (writer s) eqn:Hw; [intros [= <- <- <-]; by split_and!|].
  intros ([[w1 s1] e1] & Hadd & H)%go_bind_Ok. destruct (addWriterLocked_inv _ _ _ _ _ Hadd) as [wr ->].
  destruct e1 as [e1|]; injection H as <- <- <-.
  - destruct (same_job_fail (with_mut s (set_writer (s_mut s) wr)) e1) as [H1 H2]. unfold fail in *.
    split; [etrans; [|exact H1]; by split_and!|]. split; [by apply ordered_failed|done].
  - destruct (addWriter_in_order _ _ _ _ _ (Hord He) Hw Hadd) as [H1 H2]. split; [by split_and!|]. split; [intros _; exact H1|done].
Qed.

Lemma verifyBuffer_ok buf b : verifyBuffer sha256 buf b = None → Z.of_nat (length buf) = bSize b ∧ sha256 buf = bHash b.
Proof.
  unfold verifyBuffer. destruct (Z.of_nat (length buf) =? bSize b) eqn:E1; [|done]. case_bool_decide; [|done]. zb. done.
Qed.

(** A verified block is written: it is no longer pending. *)
Lemma written_ordered s w w' P P' b buf : ordered s w P → P ≡ₚ b :: P' → writer s = true →
  verifyBuffer sha256 buf b = None → temp_view w' = write_at (temp_view w) buf (Z.to_nat (bOffset b)) → ordered s w' P'.
Proof.
  intros Hord HP Hw [Hl Hh]%verifyBuffer_ok Hv Hf. destruct (Hord Hf) as [H1 H2 H3 H4 H5 H6].
  assert (Hb : b ∈ fBlocks file) by (apply H3; rewrite HP; by left).
  rewrite HP in H4. apply NoDup_cons in H4 as [Hnb Hnd].
  assert (Hp' : ∀ x, x ∈ P' → x ∈ P) by (intros x Hx; rewrite HP; by right).
  constructor; [done..|by auto|done| |].
  - intros x Hx. destruct (decide (x = b)) as [->|Hne].
    { right. unfold settled. rewrite Hw, Hv. unfold holds. by rewrite (slice_written file). }
    destruct (H5 x Hx) as [Hin|Hs]; [rewrite HP in Hin; apply elem_of_cons in Hin as [?|?]; [done|by left]|]. right.
    unfold settled in *. rewrite Hw in *. destruct Hs as [Hs1 Hs2]. unfold holds. rewrite Hv, (slice_write file Hfile b x); [by split|done|done|by apply not_eq_sym|done|done].
  - intros x Hx Hw' Hsp Hre. rewrite Hv. assert (Hne : x ≠ b) by (by intros ->).
    specialize (H6 x (Hp' x Hx) Hw' Hsp Hre). rewrite (slice_write file Hfile b x); [done|done|by apply H3, Hp'|by apply not_eq_sym|done|].
    rewrite H6, length_replicate. destruct (block_bounds file Hfile x); [by apply H3, Hp'|lia].
Qed.
(** *** Copying *)
Lemma ordered_counters s w P m :
  m_writer m = writer s → m_err m = m_err (s_mut s) → ordered s w P → ordered (with_mut s m) w P.
Proof.
  intros Hw He Hord Hf. destruct Hord as [H1 H2 H3 H4 H5 H6]; [unfold failed in *; cbn in Hf; congruence|].
  constructor; [done..| |].
  - intros b Hb. destruct (H5 b Hb) as [?|Hs]; [by left|right]. unfold settled in *. cbn. by rewrite Hw.
  - intros b Hb Hw'. cbn in Hw'. apply H6; [done|congruence].
Qed.

Definition copies (s : sharedPullerState) (w : W) (P P' : list BlockInfo) (r : go (W * sharedPullerState * bool)) : Prop :=
  ∀ w' s' ok, r = Ok (w', s', ok) → same_job s s' ∧ ordered s' w' (if ok : bool then P' else P).
Lemma copies_nothing s w P P' : ordered s w P → copies s w P P' (Ok (w, s, false)).
Proof. intros H w' s' ok [= <- <- <-]. by split. Qed.
Lemma copies_bind s w P P' m (k : sharedPullerState → W → bool → go (W * sharedPullerState * bool)) :
  copies s w P P' m →
  (∀ s1 w1 ok, same_job s s1 → ordered s1 w1 (if ok : bool then P' else P) → ∀ w' s' ok', k s1 w1 ok = Ok (w', s', ok') →
    same_job s1 s' ∧ ordered s' w' (if ok' : bool then P' else P)) →
  copies s w P P' (let! (w, s, ok) := m in k s w ok).
Proof.
  intros Hm Hk w' s' ok' ([[w1 s1] ok] & E & H)%go_bind_Ok. destruct (Hm _ _ _ E) as [Hj Ho].
  destruct (Hk _ _ _ Hj Ho _ _ _ H) as [Hj' Ho']. split; [by etrans|done].
Qed.
Lemma ordered_origin now s w P : ordered s w P → ordered (copiedFromOrigin s now) w P.
Proof. by apply ordered_counters. Qed.
Lemma same_job_origin now s : same_job s (copiedFromOrigin s now).
Proof. by split_and!. Qed.

Context (folder : string) (blockIndexing : bool) (otherFolders : list string).
Context (blocksWithHash : string → list Z → list (string * Z)) (now : Z).
Abbreviation from_file := (copyBlockFromFile sha256 false true).

Lemma copies_file f n o b s w P P' : ordered s w P → P ≡ₚ b :: P' → copies s w P P' (from_file f n o b s w).
Proof.
  intros Hord HP w' s' ok. unfold copyBlockFromFile. pose proof (ReadAt_same f n o (bSize b) w) as Hr.
  destruct (ReadAt_in f n o (bSize b) w) as [w1 [e|buf]]; cbn [fst] in Hr.
  { intros [= <- <- <-]. split; [done|]. by apply (ordered_view s w). }
  destruct (verifyBuffer sha256 buf b) as [e|] eqn:Hver.
  { intros [= <- <- <-]. split; [done|]. by apply (ordered_view s w). }
  intros ([[w2 s2] err] & Ht & H)%go_bind_Ok.
  destruct (tempFile_ordered s w1 w2 s2 err P) as (Hj & Ho & He); [by apply (ordered_view s w)|done|].
  destruct err as [e|]; [injection H as <- <- <-; by split|].
  pose proof (WriteAt_ok buf (bOffset b) w2) as Hw. destruct (fd_WriteAt buf (bOffset b) w2) as [w3 [e|]]; cbn [fst snd] in Hw.
  - injection H as <- <- <-. destruct (same_job_fail s2 (wrap "dst write: " e)) as [H1 H2]. split; [by etrans|by apply ordered_failed].
  - injection H as <- <- <-. split; [done|]. by apply (written_ordered s2 w2 w3 P P' b buf); [..|apply Hw].
Qed.
Lemma copies_folder_loop f places b s w P P' : ordered s w P → P ≡ₚ b :: P' →
  copies s w P P' (folder_loop sha256 false true now f places b s w).
Proof.
  revert s w. induction places as [|[n o] places IH]; intros s w Hord HP; cbn [folder_loop]; [by apply copies_nothing|].
  apply copies_bind; [by apply copies_file|]. intros s1 w1 ok Hj Ho w' s' ok'. destruct ok.
  - intros [= <- <- <-]. destruct (bool_decide _); [split; [apply same_job_origin|by apply ordered_origin]|by split].
  - destruct (failed s1); [intros [= <- <- <-]; by split|]. by apply IH.
Qed.
Lemma copies_folders fs b s w P P' : ordered s w P → P ≡ₚ b :: P' →
  copies s w P P' (folders_loop sha256 false true blocksWithHash now fs b s w).
Proof.
  revert s w. induction fs as [|f fs IH]; intros s w Hord HP; cbn [folders_loop]; [by apply copies_nothing|].
  apply copies_bind; [by apply copies_folder_loop|]. intros s1 w1 ok Hj Ho w' s' ok'. destruct ok; [intros [= <- <- <-]; by split|].
  destruct (failed s1); [intros [= <- <- <-]; by split|]. by apply IH.
Qed.

(** A choice of a second way to copy. *)
Lemma copies_else s w P P' m k : copies s w P P' m → (∀ s1 w1, ordered s1 w1 P → copies s1 w1 P P' (k s1 w1)) →
  copies s w P P' (let! (w, s, ok) := m in
    if ok : bool then Ok (w, s, true) else match failed s with Some _ => Ok (w, s, false) | None => k s w end).
Proof.
  intros Hm Hk. apply copies_bind; [done|]. intros s1 w1 ok Hj Ho w' s' ok'. destruct ok; [intros [= <- <- <-]; by split|].
  destruct (failed s1); [intros [= <- <- <-]; by split|]. by apply Hk.
Qed.
Lemma copies_block b s w P P' : ordered s w P → P ≡ₚ b :: P' →
  copies s w P P' (copyBlock sha256 folder false blockIndexing true otherFolders blocksWithHash now b s w).
Proof.
  intros Hord HP. unfold copyBlock. apply copies_else.
  - destruct (s_curFileBlocks s !! bHash b) as [idx|]; [|by apply copies_nothing].
    destruct (fBlocks (s_curFile s) !! Z.to_nat idx) as [b0|]; [|by intros ???].
    apply copies_bind; [by apply copies_file|]. intros s1 w1 ok Hj Ho w' s' ok' [= <- <- <-].
    destruct ok; [split; [apply same_job_origin|by apply ordered_origin]|by split].
  - intros s1 w1 Ho1. apply copies_else.
    + destruct blockIndexing; [by apply copies_folder_loop|by apply copies_nothing].
    + intros s2 w2 Ho2. by apply copies_folders.
Qed.

(** *** The steps *)
Abbreviation cblock := (copier_block sha256 folder false disableSparse blockIndexing true otherFolders blocksWithHash now).
Abbreviation pblock := (pullBlock sha256 false disableSparse now).

(** Counters next to the pending blocks. *)
Definition counted (s : sharedPullerState) (todo pulling : list BlockInfo) : Prop :=
  m_copyNeeded (s_mut s) = Z.of_nat (length todo) ∧ m_pullNeeded (s_mut s) = Z.of_nat (length pulling).

(** A sparse block that is skipped is settled as it is. *)
Lemma skipped_ordered s w P P' b : ordered s w P → P ≡ₚ b :: P' → sparse_block disableSparse s b = true → ordered s w P'.
Proof.
  intros Hord HP Hsp Hf. destruct (Hord Hf) as [H1 H2 H3 H4 H5 H6].
  assert (Hb : b ∈ P) by (rewrite HP; by left). assert (Hp' : ∀ x, x ∈ P' → x ∈ P) by (intros x Hx; rewrite HP; by right).
  rewrite HP in H4. apply NoDup_cons in H4 as [Hnb Hnd]. constructor; [done..|by auto|done| |by auto].
  intros x Hx. destruct (H5 x Hx) as [Hin|Hs]; [|by right]. rewrite HP in Hin. apply elem_of_cons in Hin as [->|?]; [|by left].
  right. destruct (sparse_zero s b H2 Hsp) as (Hs & Hre & Hz). unfold settled. destruct (writer s) eqn:Hw.
  - specialize (H6 b Hb Hw Hs Hre). unfold holds. rewrite H6, length_replicate. split; [|done].
    destruct (block_bounds file Hfile b Hx). lia.
  - by rewrite Hre.
Qed.

Lemma cblock_step b s w s' w' o P P' : ordered s w P → P ≡ₚ b :: P' → cblock b s w = Ok (w', s', o) →
  (failed s' = None → failed s = None) ∧
  match o with
  | Copied => ordered s' w' P' ∧ m_copyNeeded (s_mut s') = m_copyNeeded (s_mut s) - 1 ∧ m_pullNeeded (s_mut s') = m_pullNeeded (s_mut s)
  | ToPull => ordered s' w' P ∧ m_copyNeeded (s_mut s') = m_copyNeeded (s_mut s) - 1 ∧ m_pullNeeded (s_mut s') = m_pullNeeded (s_mut s) + 1
  | Stopped => failed s' ≠ None
  end.
Proof.
  intros Hord HP. unfold copier_block. destruct (sparse_block disableSparse s b) eqn:Hsp.
  { intros [= <- <- <-]. split; [done|]. split; [|by split].
    apply (ordered_counters (skippedSparseBlock s now) w P'); [done..|].
    apply (ordered_counters s w P'); [done..|]. by eapply skipped_ordered. }
  intros ([[w1 s1] ok] & Hc & H)%go_bind_Ok. destruct (copies_block b s w P P' Hord HP _ _ _ Hc) as [(_ & _ & _ & Hcn & Hpn & Hff) Ho].
  destruct ok.
  { injection H as <- <- <-. split; [done|]. cbn. rewrite Hcn, Hpn. split; [by apply (ordered_counters s1 w1 P')|by split]. }
  destruct (failed s1) as [e|] eqn:Hf1; injection H as <- <- <-.
  - split; [by rewrite Hf1|by rewrite Hf1].
  - split; [intros _; by apply Hff|]. cbn. rewrite Hcn, Hpn. split; [by apply (ordered_counters s1 w1 P)|by split].
Qed.

Lemma least_loop_range act i low best l : let r := least_loop act i low best l in r = best ∨ i <= r < i + Z.of_nat (length l).
Proof.
  revert i low best. induction l as [|a l IH]; intros i low best; cbn [least_loop]; [by left|]. cbn [length].
  destruct (usage act a <? low).
  - destruct (IH (i + 1) (usage act a) i) as [->|?]; right; lia.
  - destruct (IH (i + 1) low best) as [->|?]; [by left|right; lia].
Qed.
Lemma least_found act cands : (leastBusy act cands =? -1) = false →
  ∃ sel mv, cands !! Z.to_nat (leastBusy act cands) = Some sel ∧ last cands = Some mv.
Proof.
  intros H. assert (Hr : 0 <= leastBusy act cands < Z.of_nat (length cands)).
  { unfold leastBusy in *. destruct (least_loop_range act 0 (Z.shiftl 2 30 - 1) (-1) cands) as [E|?]; [|lia].
    rewrite E in H. done. }
  destruct (lookup_lt_is_Some_2 cands (Z.to_nat (leastBusy act cands))) as [sel Hs]; [lia|]. exists sel.
  destruct (last cands) as [mv|] eqn:El; [by exists mv|]. apply last_None in El as ->. cbn in Hr. lia.
Qed.

Lemma pull_loop_step n acts cands le b s w P P' : ordered s w P → P ≡ₚ b :: P' → writer s = true →
  let '(w', s') := pull_loop sha256 false now n acts cands le b s w in
  (failed s' = None → failed s = None) ∧ (failed s' = None → ordered s' w' P' ∧
    m_copyNeeded (s_mut s') = m_copyNeeded (s_mut s) ∧ m_pullNeeded (s_mut s') = m_pullNeeded (s_mut s) - 1).
Proof.
  intros Hord HP Hw. revert cands le w Hord.
  assert (Hfail : ∀ e w0, (failed (fail s (Some e)) = None → failed s = None) ∧ (failed (fail s (Some e)) = None →
    ordered (fail s (Some e)) w0 P' ∧ m_copyNeeded (s_mut (fail s (Some e))) = m_copyNeeded (s_mut s) ∧
    m_pullNeeded (s_mut (fail s (Some e))) = m_pullNeeded (s_mut s) - 1)).
  { intros e w0. destruct (same_job_fail s e) as [_ Hn]. by split. }
  induction n as [|n IH]; intros cands le w Hord; cbn [pull_loop]; [apply Hfail|].
  destruct (leastBusy (acts (S n)) cands =? -1) eqn:Efound; [apply Hfail|].
  destruct (least_found (acts (S n)) cands) as (sel & mv & Es & Em); [done|]. rewrite Es, Em.
  pose proof (Request_same sel b w) as Hr. destruct (RequestGlobal sel b w) as [w1 [e|buf]]; cbn [fst] in Hr;
    (assert (Hord1 : ordered s w1 P) by by apply (ordered_view s w)); [by apply IH|].
  destruct (verifyBuffer sha256 buf b) as [e|] eqn:Hver; [by apply IH|].
  pose proof (WriteAt_ok buf (bOffset b) w1) as Hwr. destruct (fd_WriteAt buf (bOffset b) w1) as [w2 [e|]]; [apply Hfail|].
  cbn [fst snd] in Hwr. split; [done|]. intros _. split; [|by split]. apply (ordered_counters s w2 P'); [done..|].
  by apply (written_ordered s w1 w2 P P' b buf); [..|apply Hwr].
Qed.

Lemma pblock_step acts cands b s w s' w' P P' : ordered s w P → P ≡ₚ b :: P' → pblock acts cands b s w = Ok (w', s') →
  (failed s' = None → failed s = None) ∧ (failed s' = None → ordered s' w' P' ∧
    m_copyNeeded (s_mut s') = m_copyNeeded (s_mut s) ∧ m_pullNeeded (s_mut s') = m_pullNeeded (s_mut s) - 1).
Proof.
  intros Hord HP. unfold pullBlock. intros ([[w1 s1] err] & Ht & H)%go_bind_Ok.
  destruct (tempFile_ordered s w w1 s1 err P Hord Ht) as ((_ & _ & _ & Hcn & Hpn & Hff) & Ho & He).
  destruct err as [e|]; [injection H as <- <-; by split|].
  destruct (sparse_block disableSparse s1 b) eqn:Hsp.
  - injection H as <- <-. split; [done|]. intros _. cbn. rewrite Hcn, Hpn. split; [|by split].
    apply (ordered_counters s1 w1 P'); [done..|]. by eapply skipped_ordered.
  - pose proof (pull_loop_step (S (length cands)) acts cands None b s1 w1 P P' Ho HP He) as Hl.
    destruct (pull_loop sha256 false now (S (length cands)) acts cands None b s1 w1) as [w2 s2]. injection H as <- <-. destruct Hl as [Hl1 Hl2].
    rewrite Hcn, Hpn in Hl2. split; [auto|done].
Qed.

(** *** All steps, and the end *)
Definition going (r : run) : Prop :=
  failed (rs r) = None → in_order (rs r) (rw r) (rtodo r ++ rpulling r) ∧ counted (rs r) (rtodo r) (rpulling r).
Lemma in_order_perm s w P Q : P ≡ₚ Q → in_order s w P → in_order s w Q.
Proof.
  intros HP [H1 H2 H3 H4 H5 H6]. constructor; [done|done| |by rewrite <-HP| |].
  - intros b Hb. apply H3. by rewrite HP.
  - intros b Hb. rewrite <-HP. by apply H5.
  - intros b Hb. apply H6. by rewrite HP.
Qed.
Abbreviation move := (step sha256 folder false disableSparse blockIndexing true otherFolders blocksWithHash now).

Lemma going_step r r' : going r → move r r' → going r'.
Proof.
  intros Hg Hs. destruct Hs as [b todo pulling s w s' w' H|b todo pulling s w s' w' H|b todo pulling s w s' w' H|
    blocks pulling s w s' w' H|acts cands b todo before after s w s' w' Hf0 H|b todo before after s w Hf0|e todo pulling s w];
    unfold going in *; cbn [rs rw rtodo rpulling] in *; intros Hf.
  - destruct (cblock_step b s w s' w' Copied _ (todo ++ pulling) (λ h, proj1 (Hg h)) (reflexivity _) H) as (Hb & Ho & Hc & Hp).
    destruct (Hg (Hb Hf)) as [_ [Hc0 Hp0]]. split; [by apply Ho|]. unfold counted. rewrite Hc, Hp, Hc0, Hp0. cbn [length]. lia.
  - destruct (cblock_step b s w s' w' ToPull _ (todo ++ pulling) (λ h, proj1 (Hg h)) (reflexivity _) H) as (Hb & Ho & Hc & Hp).
    destruct (Hg (Hb Hf)) as [_ [Hc0 Hp0]]. split; [eapply in_order_perm; [|by apply Ho]; solve_Permutation|].
    unfold counted. rewrite Hc, Hp, Hc0, Hp0, length_app. cbn [length]. lia.
  - by destruct (cblock_step b s w s' w' Stopped _ (todo ++ pulling) (λ h, proj1 (Hg h)) (reflexivity _) H).
  - unfold copier_end in H. destruct blocks as [|b blocks]; [|injection H as <- <-; by apply Hg].
    apply go_bind_Ok in H as ([[w1 s1] err] & Ht & H). destruct (tempFile_ordered s w w1 s1 err pulling) as (Hj & Ho & He);
      [intros h; by apply Hg|done|]. destruct err as [e|]; injection H as <- <-; [by destruct (same_job_fail s1 e)|].
    split; [by apply Ho|]. destruct Hj as (_&_&_&Hc&Hp&Hb). destruct (Hg (Hb Hf)) as [_ [Hc0 Hp0]].
    unfold counted. by rewrite Hc, Hp.
  - assert (HP : todo ++ before ++ b :: after ≡ₚ b :: todo ++ before ++ after) by solve_Permutation.
    destruct (pblock_step acts cands b s w s' w' _ _ (λ h, proj1 (Hg h)) HP H) as (Hb & Ho). destruct (Ho Hf) as (Ho1 & Hc & Hp).
    destruct (Hg (Hb Hf)) as [_ [Hc0 Hp0]]. split; [by apply Ho1|]. unfold counted. rewrite Hc, Hp, Hc0, Hp0, !length_app. cbn [length]. lia.
  - done.
  - by destruct (same_job_fail s e).
Qed.
Lemma going_steps r r' : rtc move r r' → going r → going r'.
Proof. induction 1 as [|r1 r2 r3 Hs _ IH]; [done|]. intros Hg. apply IH. by eapply going_step. Qed.

Lemma keep_first_failed s e : failed (keep_first s e) = None → failed s = None.
Proof. unfold keep_first, failed. destruct e, (m_err (s_mut s)) eqn:E; cbn; congruence. Qed.
(** Nothing is written while the file is closed, and an error stays. *)
Lemma close_writer_view s w : temp_view (close_writer s w).1 = temp_view w ∧
  (failed (close_writer s w).2 = None → failed s = None).
Proof.
  unfold close_writer. destruct (writer s); [|done]. unfold SyncClose.
  destruct (s_fsync s).
  - pose proof (Sync_same w) as H1. destruct (fd_Sync w) as [w1 e1]; cbn [fst] in *. pose proof (Close_same w1) as H2.
    destruct (fd_Close w1) as [w2 e2]; cbn [fst] in *. split; [cbn; congruence|apply keep_first_failed].
  - pose proof (Close_same w) as H2. destruct (fd_Close w) as [w2 e2]; cbn [fst] in *. split; [done|apply keep_first_failed].
Qed.
Lemma closed_counted s w w' s' todo pulling : finalClose s w = Ok (w', s', (true, None)) →
  failed s = None → counted s todo pulling → todo = [] ∧ pulling = [].
Proof.
  unfold finalClose, failed. intros H Hf [Hc Hp]. destruct (m_closed (s_mut s)); [done|].
  rewrite Hc, Hp, Hf in H. rewrite (bool_decide_true (None = None)) in H by done. rewrite andb_true_r in H.
  destruct (negb _) eqn:Hz in H; [done|]. zb. destruct todo, pulling; cbn [length] in Hz; try lia. done.
Qed.
Lemma finalClose_failed s w w' s' : finalClose s w = Ok (w', s', (true, None)) → failed s = None.
Proof.
  unfold finalClose. destruct (m_closed (s_mut s)); [done|]. destruct (negb _ && _); [done|].
  intros ([[w1 s1] err] & Hadd & H)%go_bind_Ok. destruct err as [e|]; [done|].
  apply go_bind_Ok in H as ([w2 s2] & Henc & H). pose proof (close_writer_view s2 w2) as [_ Hk].
  destruct (close_writer s2 w2) as [w3 s3]. injection H as <- <- Herr. specialize (Hk Herr).
  assert (H1 : failed s1 = failed s).
  { destruct (writer s); cbn [negb] in Hadd; [by injection Hadd as <- <-|]. by destruct (addWriterLocked_inv _ _ _ _ _ Hadd) as [? ->]. }
  rewrite <-H1. destruct (0 <? _)%nat; [|by injection Henc as <- <-].
  apply go_bind_Ok in Henc as ([[w4 s4] e4] & Hfe & Henc). injection Henc as <- <-. apply keep_first_failed in Hk. rewrite <-Hk.
  unfold finalizeEncrypted in Hfe. apply go_bind_Ok in Hfe as ([w5 [e5|n5]] & _ & Hfe); by injection Hfe as _ <- _.
Qed.
(** The pieces of a successful [finalClose] of a plain file. *)
Lemma finalClose_plain s w w' s' : s_file s = file → finalClose s w = Ok (w', s', (true, None)) →
  ∃ w1 s1, temp_view w' = temp_view w1 ∧
    (writer s = true ∧ w1 = w ∧ s1 = s ∨ writer s = false ∧ addWriterLocked s w = Ok (w1, s1, None)).
Proof.
  unfold finalClose. intros Hfs. destruct (m_closed (s_mut s)); [done|]. destruct (negb _ && _); [done|].
  intros ([[w1 s1] err] & Hadd & H)%go_bind_Ok. destruct err as [e|]; [done|].
  assert (Hadd' : s_file s1 = file ∧
    (writer s = true ∧ w1 = w ∧ s1 = s ∨ writer s = false ∧ addWriterLocked s w = Ok (w1, s1, None))).
  { destruct (writer s); cbn [negb] in Hadd; [injection Hadd as <- <-; split; [done|by left]|].
    destruct (addWriterLocked_inv _ _ _ _ _ Hadd) as [wr ->]. split; [done|by right]. }
  destruct Hadd' as (Hf1 & Hor). destruct Hfile as [_ _ _ _ _ [Hp _]]. rewrite Hf1, Hp in H. cbn [length Nat.ltb Nat.leb mbind go_bind] in H.
  pose proof (close_writer_view s1 w1) as [Hv Hk]. destruct (close_writer s1 w1) as [w3 s3]. cbn [fst snd] in *.
  injection H as <- <- Herr. exists w1, s1. rewrite Unhide_same. by split.
Qed.
Lemma finalClose_holds r w' s' : going r → finalClose (rs r) (rw r) = Ok (w', s', (true, None)) →
  ∀ b, b ∈ fBlocks file → holds sha256 (temp_view w') b.
Proof.
  destruct r as [w s todo pulling]. unfold going. cbn [rs rw rtodo rpulling]. intros Hg H b Hb.
  pose proof (finalClose_failed _ _ _ _ H) as Hf. destruct (Hg Hf) as [Ho Hc].
  destruct (finalClose_plain s w w' s' (io_file _ _ _ Ho) H) as (w1 & s1 & Hv & Hor).
  destruct (closed_counted _ _ _ _ _ _ H Hf Hc) as [-> ->]. cbn [app] in Ho. rewrite Hv.
  assert (H1 : in_order s1 w1 [] ∧ writer s1 = true).
  { destruct Hor as [(Hw & -> & ->)|[Hw Hadd]]; [by split|]. by eapply addWriter_in_order. }
  destruct H1 as [H1 Hw1]. destruct (io_settled _ _ _ H1 b Hb) as [?%elem_of_nil|Hset]; [done|]. unfold settled in Hset. by rewrite Hw1 in Hset.
Qed.
End content.

(** ** The start *)
Lemma diff_loop_have have need src tgt b : b ∈ (diff_loop have need src tgt).1 →
  b ∈ have ∨ ∃ i x, tgt !! i = Some b ∧ src !! i = Some x ∧ bHash x = bHash b.
Proof.
  revert have need src. induction tgt as [|t tgt IH]; intros have need [|s src]; cbn [diff_loop fst]; [by left..|].
  case_bool_decide as E; intros Hb; apply IH in Hb as [Hb|(i & x & H1 & H2 & H3)].
  - apply elem_of_app in Hb as [Hb|Hb%list_elem_of_singleton]; [by left|right]. subst b. by exists 0%nat, s.
  - right. by exists (S i), x.
  - by left.
  - right. by exists (S i), x.
Qed.
Lemma blockDiff_have src tgt b : b ∈ (blockDiff src tgt).1 → ∃ i x, tgt !! i = Some b ∧ src !! i = Some x ∧ bHash x = bHash b.
Proof.
  unfold blockDiff. destruct tgt as [|t tgt]; [by intros ?%elem_of_nil|]. destruct src as [|s src]; [by intros ?%elem_of_nil|].
  intros [?%elem_of_nil|H]%diff_loop_have; done.
Qed.
Lemma reuse_loop_spec ex i l blocks reused : let '(bl, re) := reuse_loop ex i l blocks reused in
  bl = blocks ++ filter (.∉ ex) l ∧ (length re = length reused + length (filter (.∈ ex) l))%nat.
Proof.
  revert i blocks reused. induction l as [|b l IH]; intros i blocks reused; cbn [reuse_loop]; [rewrite app_nil_r; split; [done|cbn; lia]|].
  rewrite !filter_cons. case_bool_decide as Hb.
  - specialize (IH (i + 1) blocks (reused ++ [i])). destruct (reuse_loop _ _ _ _ _) as [bl re]. destruct IH as [-> ->].
    rewrite decide_False by auto. rewrite decide_True by done. rewrite length_app. cbn [length]. split; [done|lia].
  - specialize (IH (i + 1) (blocks ++ [b]) reused). destruct (reuse_loop _ _ _ _ _) as [bl re]. destruct IH as [-> ->].
    rewrite decide_True by auto. rewrite decide_False by done. by rewrite <-app_assoc.
Qed.

Section hashed.
Context (sha256 : list Z → list Z).
Lemma content_loop_lookup n c bs off i x : content_loop sha256 n c bs off !! i = Some x →
  bHash x = sha256 (take bs (drop (i * bs) c)) ∧ bSize x = Z.of_nat (length (take bs (drop (i * bs) c))).
Proof.
  revert c off i. induction n as [|n IH]; intros c off i; cbn [content_loop]; [by destruct i|].
  destruct c as [|z c]; [by destruct i|]. destruct i as [|i]; cbn [lookup list_lookup].
  - by intros [= <-].
  - intros H. apply IH in H. rewrite drop_drop in H. by replace (S i * bs)%nat with (bs + i * bs)%nat by lia.
Qed.

(** What is hashed the same as a block of the file is that block. *)
Lemma hashed_holds file c i b x : pullable file → sha256 [] = SHA256OfNothing →
  (∀ d, sha256 d = bHash b → Z.of_nat (length d) = bSize b) →
  fBlocks file !! i = Some b → Blocks sha256 c (FileInfo_BlockSize file) (Z.of_nat (length c)) !! i = Some x →
  bHash x = bHash b → holds sha256 c b.
Proof.
  intros Hok Hnothing Hlen Hb. unfold Blocks. assert ((0 <=? Z.of_nat (length c)) = true) as -> by (apply Z.leb_le; lia). rewrite Nat2Z.id, take_ge by done.
  set (bs := FileInfo_BlockSize file). destruct (ok_regular _ Hok i b Hb) as [Hoff Hmax]. fold bs in Hoff, Hmax.
  assert (Hin : b ∈ fBlocks file) by by eapply list_elem_of_lookup_2. destruct (block_bounds _ Hok b Hin) as (Ho1&Ho2&Ho3).
  assert (Hchunk : ∀ d, sha256 d = bHash b → d = take (Z.to_nat bs) (drop (i * Z.to_nat bs) c) → holds sha256 c b).
  { intros d Hd Ed. pose proof (Hlen d Hd) as Hl. unfold holds, slice_of.
    assert (E : take (Z.to_nat (bSize b)) (drop (Z.to_nat (bOffset b)) c) = d).
    { rewrite Hoff. replace (Z.to_nat (Z.of_nat i * bs)) with (i * Z.to_nat bs)%nat by (assert (0 <= bs) by lia; rewrite Z2Nat.inj_mul by lia; by rewrite Nat2Z.id).
      rewrite Ed in Hl |- *. rewrite length_take in Hl.
      destruct (decide (Z.to_nat bs ≤ length (drop (i * Z.to_nat bs) c))%nat).
      - f_equal. lia.
      - rewrite !take_ge by lia. done. }
    rewrite E. by split. }
  destruct (content_loop sha256 (length c) c (Z.to_nat bs) 0) as [|y l] eqn:El.
  - destruct i as [|i]; [|done]. cbn. intros [= <-]. cbn [bHash]. intros E. apply (Hchunk []); [congruence|].
    destruct c as [|z c]; [by rewrite drop_nil, take_nil|done].
  - intros Hx. rewrite <-El in Hx. apply content_loop_lookup in Hx as [Hx _]. intros E. rewrite E in Hx.
    by apply (Hchunk (take (Z.to_nat bs) (drop (i * Z.to_nat bs) c))).
Qed.
End hashed.

Section assembled.
Context {W : Type} `{FS : Filesystem W} `{PB : Protobuf} `{BS : BlockSources W} `{TL : !TempLaws W}.
Context (sha256 : list Z → list Z) (case_conflict : error → option string).
Context (ignorePerms disableSparse disableFsync blockIndexing : bool) (folder : string).
Context (TempName : string → string) (Reorder : list BlockInfo → list BlockInfo).
Context (GetLocal : string → error + option FileInfo) (t t' t'' now : Z).
Context (otherFolders : list string) (blocksWithHash : string → list Z → list (string * Z)).

Lemma HashFile_view bs w : temp_view (HashFile sha256 bs w).1 = temp_view w ∧
  ∀ blocks, (HashFile sha256 bs w).2 = inr blocks → blocks = Blocks sha256 (temp_view w) bs (Z.of_nat (length (temp_view w))).
Proof.
  unfold HashFile. pose proof (read_temp_same w) as H1. pose proof (read_temp_content w) as H2.
  destruct (read_temp w) as [w1 [e|c]]; cbn [fst snd] in *; [by split|]. split; [done|]. intros blocks [= <-]. by rewrite <-(H2 c).
Qed.
Lemma hash_temp_view bs w blocks : (hash_temp sha256 case_conflict bs w).2 = inr blocks →
  let c := temp_view (hash_temp sha256 case_conflict bs w).1 in blocks = Blocks sha256 c bs (Z.of_nat (length c)).
Proof.
  unfold hash_temp. destruct (HashFile_view bs w) as [H1 H2].
  destruct (HashFile sha256 bs w) as [w1 [e|l]]; cbn [fst snd] in *; [|by intros [= ->]; rewrite H1; apply H2].
  destruct (case_conflict e) as [real|]; [|done]. destruct (rename_real real w1) as [w2 [e2|]]; [done|].
  destruct (HashFile_view bs w2) as [H3 H4]. rewrite H3. apply H4.
Qed.
(** What is reused is there. *)
Lemma reuseBlocks_holds file w : pullable file → sha256 [] = SHA256OfNothing →
  (∀ b d, b ∈ fBlocks file → sha256 d = bHash b → Z.of_nat (length d) = bSize b) →
  let '(w', (blocks, reused)) := reuseBlocks sha256 case_conflict (fBlocks file) [] file w in
  NoDup blocks ∧ (∀ b, b ∈ blocks → b ∈ fBlocks file) ∧
  (∀ b, b ∈ fBlocks file → b ∈ blocks ∨ length reused ≠ 0%nat ∧ holds sha256 (temp_view w') b).
Proof.
  intros Hok Hn Hlen. unfold reuseBlocks.
  pose proof (λ l, hash_temp_view (FileInfo_BlockSize file) w l) as Hm.
  destruct (hash_temp _ _ _ w) as [w' [e|l]]; [split_and!; [by apply ok_distinct|done|by left]|]. specialize (Hm l eq_refl). cbn [fst snd] in Hm.
  pose proof (blockDiff_have l (fBlocks file)) as Hd. destruct (blockDiff l (fBlocks file)) as [ex need]. cbn [fst] in Hd.
  pose proof (reuse_loop_spec ex 0 (fBlocks file) [] []) as Hr. destruct (reuse_loop ex 0 (fBlocks file) [] []) as [bl re].
  destruct Hr as [-> Hre]. cbn [app length] in *. split_and!.
  - apply NoDup_filter. by apply ok_distinct.
  - intros b [_ Hb]%list_elem_of_filter. done.
  - intros b Hb. destruct (decide (b ∈ ex)) as [Hex|Hex]; [right|left; by apply list_elem_of_filter].
    split.
    + rewrite Hre. assert (Hin : b ∈ filter (.∈ ex) (fBlocks file)) by by apply list_elem_of_filter.
      destruct (filter (.∈ ex) (fBlocks file)); [by apply elem_of_nil in Hin|cbn; lia].
    + destruct (Hd b Hex) as (i & x & H1 & H2 & H3). subst l. eapply hashed_holds; [done..| |exact H1|exact H2|exact H3]. auto.
Qed.

Abbreviation start := (handleFile sha256 case_conflict false ignorePerms disableSparse disableFsync folder TempName Reorder GetLocal t t' t'').
Abbreviation move := (step sha256 folder false disableSparse blockIndexing true otherFolders blocksWithHash now).
Abbreviation offset_file f := (with_blocks f (populateOffsets (fBlocks f))).

Lemma handleFile_going file w w1 s blocks : let file' := offset_file file in
  pullable file' → sha256 [] = SHA256OfNothing →
  (∀ b d, b ∈ fBlocks file' → sha256 d = bHash b → Z.of_nat (length d) = bSize b) →
  (∀ l, Reorder l ≡ₚ l) → start file w = Ok (w1, inr (s, blocks)) →
  going sha256 disableSparse file' (MkRun w1 s blocks []).
Proof.
  intros file' Hok Hn Hlen Hre. unfold handleFile. destruct (GetLocal (fName file)) as [e|cur]; [done|]. cbv zeta. fold file'.
  pose proof (reuseBlocks_holds file' w Hok Hn Hlen) as Hr.
  destruct (reuseBlocks sha256 case_conflict (fBlocks file') [] file' w) as [w2 [bl re]]. destruct Hr as (Hnd & Hin & Hh).
  intros (w3 & Hrm & H)%go_bind_Ok. injection H as <- <- <-. intros _. unfold rs, rw, rtodo, rpulling. rewrite app_nil_r.
  assert (Hw : length re ≠ 0%nat → w3 = w2).
  { destruct (length re =? 0)%nat eqn:E; [intros Hne; by apply Nat.eqb_eq in E|]. by injection Hrm. }
  assert (Hx : ∀ x, x ∈ Reorder bl ↔ x ∈ bl) by (intros x; by rewrite (Hre bl)).
  split; [|unfold counted; cbn; by rewrite (Permutation_length (Hre bl))]. constructor.
  - done.
  - done.
  - intros b Hb. by apply Hin, Hx.
  - by rewrite (Hre bl).
  - intros b Hb. destruct (Hh b Hb) as [?|[Hne Hhb]]; [left; by apply Hx|right]. unfold settled. cbn.
    destruct (Z.of_nat (length re) =? 0) eqn:E; [apply Z.eqb_eq in E; lia|]. by rewrite Hw.
  - intros b Hb Hw'. done.
Qed.

(** C2. A file that is closed without an error has the blocks it should have.  The
    temporary file is hashed and reused where it can be, then the copier and any number
    of pullers work in any order, devices answer with anything, blocks are found
    anywhere, and everything may fail: when [finalClose] reports the file closed and
    without an error, the part of the temporary file of every block of the record has the
    block's length and hash. *)
Theorem closed_file_is_right file w w1 s blocks r w' s' : let file' := offset_file file in
  pullable file' → sha256 [] = SHA256OfNothing →
  (∀ b d, b ∈ fBlocks file' → sha256 d = bHash b → Z.of_nat (length d) = bSize b) →
  (disableSparse = false → ∀ b, Block_IsEmpty b = true → sha256 (replicate (Z.to_nat (bSize b)) 0) = bHash b) →
  (disableSparse = false → ∀ n w, (fd_Truncate n w).2 = None) →
  (∀ l, Reorder l ≡ₚ l) →
  start file w = Ok (w1, inr (s, blocks)) → rtc move (MkRun w1 s blocks []) r →
  finalClose (rs r) (rw r) = Ok (w', s', (true, None)) →
  ∀ b, b ∈ fBlocks file' → holds sha256 (temp_view w') b.
Proof.
  intros file' Hok Hn Hlen He Ht Hre Hs Hr Hc. eapply finalClose_holds; [done..| |exact Hc].
  eapply going_steps; [done..|exact Hr|]. by eapply handleFile_going.
Qed.
End assembled.

(** ** What the blocks say of the content *)

(** Hashing a content and checking the blocks elsewhere fixes the content: what
    holds all of its blocks begins with it, when no two contents have the same hash. *)
Theorem blocks_determine_content (sha256 : list Z → list Z) (c c' : list Z) (bs : Z) :
  0 < bs → (∀ x y, sha256 x = sha256 y → x = y) →
  (∀ b, b ∈ Blocks sha256 c bs (Z.of_nat (length c)) → holds sha256 c' b) → take (length c) c' = c.
Proof.
  intros Hbs Hinj. unfold Blocks. assert ((0 <=? Z.of_nat (length c)) = true) as -> by (apply Z.leb_le; lia).
  rewrite Nat2Z.id, (take_ge c) by done. intros Hh.
  assert (H : ∀ n off rest, (length rest ≤ n)%nat → (∀ b, b ∈ content_loop sha256 n rest (Z.to_nat bs) (Z.of_nat off) → holds sha256 c' b) →
    take (length rest) (drop off c') = rest).
  2:{ specialize (H (length c) 0%nat c (le_n _)). rewrite drop_0 in H. apply H.
      change (Z.of_nat 0) with 0. destruct (content_loop sha256 (length c) c (Z.to_nat bs) 0); [by intros b ?%elem_of_nil|exact Hh]. }
  clear Hh. induction n as [|n IH]; intros off rest Hn; [destruct rest; [done|cbn in Hn; lia]|]. destruct rest as [|z rest]; [done|].
  cbn [content_loop]. set (r := z :: rest) in *. set (chunk := take (Z.to_nat bs) r). intros Hh.
  assert (Hc : take (length chunk) (drop off c') = chunk).
  { destruct (Hh (MkBlockInfo (sha256 chunk) (Z.of_nat off) (Z.of_nat (length chunk)))) as [_ H]; [by left|].
    apply Hinj in H. unfold slice_of in H. cbn [bOffset bSize] in H. by rewrite !Nat2Z.id in H. }
  assert (Hl : (0 < length chunk)%nat) by (unfold chunk, r; rewrite length_take; cbn [length]; lia).
  assert (Hd : take (length (drop (Z.to_nat bs) r)) (drop (off + length chunk) c') = drop (Z.to_nat bs) r).
  { apply IH; [rewrite length_drop; unfold r in *; cbn [length] in *; lia|]. intros b Hb. apply Hh. right. by rewrite <-Nat2Z.inj_add. }
  rewrite <-(take_drop (Z.to_nat bs) r) at 1 2. fold chunk. rewrite length_app.
  rewrite <-(take_drop (length chunk) (drop off c')), Hc, drop_drop.
  rewrite take_app_ge by lia. f_equal. by replace (length chunk + length (drop (Z.to_nat bs) r) - length chunk)%nat with (length (drop (Z.to_nat bs) r)) by lia.
Qed.
Lemma blocks_determine_content_witness :
  (∀ b, b ∈ Blocks (λ c, 1 :: c) [5; 6; 7] 2 3 → holds (λ c, 1 :: c) [5; 6; 7; 8] b) ∧ take 3 [5; 6; 7; 8] = [5; 6; 7].
Proof.
  assert (H : ∀ b, b ∈ Blocks (λ c, 1 :: c) [5; 6; 7] 2 3 → holds (λ c, 1 :: c) [5; 6; 7; 8] b).
  { intros b Hb. repeat (apply elem_of_cons in Hb as [->|Hb]; [by split|]). by apply elem_of_nil in Hb. }
  split; [exact H|]. exact (blocks_determine_content (λ c, 1 :: c) [5; 6; 7] [5; 6; 7; 8] 2 ltac:(lia) ltac:(by intros x y [= ->]) H).
Defined.

(** ** A small disk *)

(** The temporary file if there is one, and what the other devices have. *)
Record toy := MkToy { y_temp : option (list Z); y_source : list Z }.
Definition io : error := MkError "i/o error" false false.
Definition view_of (w : toy) : list Z := default [] (y_temp w).
(** A file may not be given a size on every disk. *)
Definition toy_fs (truncates : bool) : Filesystem toy := {|
  filepath_Dir := λ p, "."%string;
  fs_Stat := λ _ w, (w, inr (true, 493));
  fs_Chmod := λ _ _ w, (w, None);
  fs_OpenFile := λ _ flags _ w,
    match flags, y_temp w with
    | [OptReadWrite], Some _ => (w, None)
    | [OptReadWrite; OptCreate; OptExclusive], None => (MkToy (Some []) (y_source w), None)
    | _, _ => (w, Some io)
    end;
  fs_Remove := λ _ w, (MkToy None (y_source w), None);
  fs_Hide := λ _ w, w;
  fs_Unhide := λ _ w, w;
  fd_Truncate := λ n w, if truncates then (MkToy (Some (resize (Z.to_nat n) 0 (view_of w))) (y_source w), None) else (w, Some io);
  fd_WriteAt := λ data off w, (MkToy (Some (write_at (view_of w) data (Z.to_nat off))) (y_source w), None);
  fd_Sync := λ w, (w, None);
  fd_Close := λ w, (w, None);
|}.
#[global] Instance toy_sources : BlockSources toy := {|
  temp_view := view_of;
  read_temp := λ w, (w, match y_temp w with Some c => inr c | None => inl io end);
  rename_real := λ _ w, (w, Some io);
  ReadAt_in := λ _ _ _ _ w, (w, inl io);
  copy_range := λ _ _ _ _ _ w, (w, Some io);
  RequestGlobal := λ _ b w, (w, inr (slice_of (y_source w) b));
|}.
Lemma toy_laws truncates : @TempLaws toy (toy_fs truncates) toy_sources.
Proof.
  constructor; try done.
  - intros [[d|] src] c; cbn; congruence.
  - intros p mode [[d|] src]; by cbn.
  - intros p mode [[d|] src]; by cbn.
  - intros n [[d|] src]; by destruct truncates.
Qed.

(** A hash that is right for blocks of zeroes and tells lengths apart. *)
Definition toy_hash (c : list Z) : list Z :=
  match c with
  | [] => SHA256OfNothing
  | _ =>
      let plain := [Z.of_nat (length c); foldr Z.add 0 c] in
      if forallb (Z.eqb 0) c then default plain (empty_hash sha256OfEmptyBlock (Z.of_nat (length c))) else plain
  end.
Lemma toy_hash_lengths c : toy_hash c = SHA256OfNothing ∨ empty_hash sha256OfEmptyBlock (Z.of_nat (length c)) = Some (toy_hash c) ∨
  toy_hash c = [Z.of_nat (length c); foldr Z.add 0 c].
Proof.
  destruct c as [|z c]; [by left|right]. unfold toy_hash. set (d := z :: c). clearbody d. destruct (forallb _ d); [|by right].
  destruct (empty_hash _ _); [by left|by right].
Qed.
Lemma empty_hash_long size h : empty_hash sha256OfEmptyBlock size = Some h → length h = 32%nat ∧ 0 < size.
Proof. unfold sha256OfEmptyBlock. cbn [empty_hash]. repeat (case_match; [intros [= <-]; zb; subst; by split|]). done. Qed.
Lemma toy_hash_empty b : Block_IsEmpty b = true → toy_hash (replicate (Z.to_nat (bSize b)) 0) = bHash b.
Proof.
  unfold Block_IsEmpty. destruct (empty_hash _ _) as [h|] eqn:E; [|done]. case_bool_decide as Eh; [|done]. intros _.
  destruct (empty_hash_long _ _ E) as [_ Hpos]. destruct (Z.to_nat (bSize b)) as [|n] eqn:En; [lia|].
  unfold toy_hash. cbn [replicate]. assert (Ha : ∀ m, forallb (Z.eqb 0) (replicate m 0) = true) by (induction m; done).
  change (0 :: replicate n 0) with (replicate (S n) 0). rewrite Ha, length_replicate, <-En, Z2Nat.id by lia. by rewrite E, Eh.
Qed.

Definition toy_file (blocks : list BlockInfo) : FileInfo :=
  with_name (with_trailer (with_blocks no_file blocks) (sizes blocks) 0) "a".
Section toy_runs.
Context (truncates disableSparse : bool).
#[local] Existing Instance plain_proto.
#[local] Instance toy_disk : Filesystem toy := toy_fs truncates.
Definition toy_start := handleFile toy_hash (λ _, None) false false disableSparse true "default" (λ n, ".tmp"%string) (λ l, l) (λ _, inr None) 0 0 0.
Definition toy_step := step toy_hash "default" false disableSparse false true [] (λ _ _, []) 0.
Definition toy_copy := copier_block toy_hash "default" false disableSparse false true [] (λ _ _, []) 0.
Definition toy_pull := pullBlock toy_hash false disableSparse 0 (λ _, ∅) [MkAvailability [7] false].
Definition toy_close := finalClose (W := toy).

(** The copier goes over all blocks, then a puller gets what is left. *)
Fixpoint toy_copies (blocks pulling : list BlockInfo) (s : sharedPullerState) (w : toy) : go (toy * sharedPullerState * list BlockInfo) :=
  match blocks with
  | [] => Ok (w, s, pulling)
  | b :: blocks =>
      let! (w, s, o) := toy_copy b s w in
      match o with
      | Copied => toy_copies blocks pulling s w
      | ToPull => toy_copies blocks (pulling ++ [b]) s w
      | Stopped => Ok (w, s, pulling)
      end
  end.
Fixpoint toy_pulls (pulling : list BlockInfo) (s : sharedPullerState) (w : toy) : go (toy * sharedPullerState) :=
  match pulling with
  | [] => Ok (w, s)
  | b :: pulling => let! (w, s) := toy_pull b s w in toy_pulls pulling s w
  end.
(** Where a file ends up: the error, if it was closed, and the length it has got. *)
Definition toy_sync (file : FileInfo) (w : toy) : go (bool * option error * Z) :=
  let! (w, r) := toy_start file w in
  match r with
  | inl e => Ok (false, Some e, 0)
  | inr (s, blocks) =>
      let! (w, s, pulling) := toy_copies blocks [] s w in
      let! (w, s) := copier_end blocks s w in
      let! (w, s) := toy_pulls pulling s w in
      let! (w, _, (closed, err)) := toy_close s w in
      Ok (closed, err, Z.of_nat (length (view_of w)))
  end.
End toy_runs.

(** One block, which another device has. *)
Definition one_block : BlockInfo := MkBlockInfo (toy_hash [4; 5; 6]) 0 3.
Lemma one_block_pullable : pullable (with_blocks (toy_file [one_block]) (populateOffsets [one_block])).
Proof.
  constructor; cbn; [done|by repeat constructor|done|apply NoDup_singleton| |done].
  intros [|i] b; [|done]. cbn. intros [= <-]. by cbn.
Qed.
Lemma one_block_length d : toy_hash d = bHash one_block → Z.of_nat (length d) = 3.
Proof.
  intros H. destruct (toy_hash_lengths d) as [E|[E|E]]; rewrite H in E; cbn in E; [done| |by injection E].
  by destruct (empty_hash_long _ _ E).
Qed.
Example sample_sync : toy_sync true false (toy_file [one_block]) (MkToy None [4; 5; 6]) = Ok (true, None, 3).
Proof. reflexivity. Qed.

(** The states on the way. *)
Definition run_start (w : toy) : run :=
  match toy_start true false (toy_file [one_block]) w with
  | Ok (w, inr (s, blocks)) => MkRun w s blocks []
  | _ => MkRun w (newSharedPullerState no_file "" "" [] [] false false no_file false false 0 0 0) [] []
  end.
Definition run_copied (r : run) : run :=
  match toy_copy true false one_block (rs r) (rw r) with Ok (w, s, _) => MkRun w s [] [one_block] | _ => r end.
Definition run_pulled (r : run) : run :=
  match toy_pull true false one_block (rs r) (rw r) with Ok (w, s) => MkRun w s [] [] | _ => r end.
Definition run0 : run := run_start (MkToy None [4; 5; 6]).
Definition run1 : run := run_copied run0.
Definition run2 : run := run_pulled run1.
Lemma run0_start : toy_start true false (toy_file [one_block]) (MkToy None [4; 5; 6]) = Ok (rw run0, inr (rs run0, [one_block])).
Proof. reflexivity. Qed.
Lemma run1_copied : toy_copy true false one_block (rs run0) (rw run0) = Ok (rw run1, rs run1, ToPull).
Proof. vm_compute. reflexivity. Qed.
Lemma run2_pulled : toy_pull true false one_block (rs run1) (rw run1) = Ok (rw run2, rs run2).
Proof. vm_compute. reflexivity. Qed.
Lemma run1_going : failed (rs run1) = None.
Proof. vm_compute. reflexivity. Qed.
Definition run_end : run := MkRun (rw run2) (rs run2) [] [].
Lemma run2_steps : rtc (toy_step true false) (MkRun (rw run0) (rs run0) [one_block] []) run_end.
Proof.
  eapply rtc_l; [exact (step_to_pull _ _ _ _ _ _ _ _ _ one_block [] [] _ _ _ _ run1_copied)|].
  apply rtc_once. exact (step_pulled _ _ _ _ _ _ _ _ _ (λ _, ∅) [MkAvailability [7] false] one_block [] [] [] _ _ _ _ run1_going run2_pulled).
Qed.
Lemma run2_closed : ∃ w' s', toy_close true (rs run_end) (rw run_end) = Ok (w', s', (true, None)).
Proof. eexists _, _. vm_compute. reflexivity. Qed.
Lemma one_block_only b d : b ∈ [one_block] → toy_hash d = bHash b → Z.of_nat (length d) = bSize b.
Proof. intros ->%list_elem_of_singleton. apply one_block_length. Qed.
Lemma closed_file_is_right_witness : ∃ w' s',
  toy_close true (rs run_end) (rw run_end) = Ok (w', s', (true, None)) ∧ holds toy_hash (view_of w') one_block.
Proof.
  destruct run2_closed as (w' & s' & E). exists w', s'. split; [exact E|]. pose proof (toy_laws true) as Hlaws.
  exact (@closed_file_is_right toy (toy_fs true) plain_proto toy_sources Hlaws toy_hash (λ _, None) false false true false "default" (λ n, ".tmp"%string)
    (λ l, l) (λ _, inr None) 0 0 0 0 [] (λ _ _, []) (toy_file [one_block]) (MkToy None [4; 5; 6]) (rw run0) (rs run0) [one_block] run_end w' s'
    one_block_pullable eq_refl one_block_only
    (λ _, toy_hash_empty) (λ _ n w, eq_refl) (λ l, reflexivity l) run0_start run2_steps E one_block (list_elem_of_here _ _)).
Defined.

(** *** Two lengths that are wrong *)

(** Nothing cuts a temporary file that is reused when sparse files are disabled: what
    is left of a longer version stays at the end, and the file is closed without an
    error.  (The one block of the file is reused.) *)
Definition toy_reused (truncates disableSparse : bool) : go (bool * option error * list Z) :=
  let s := newSharedPullerState (toy_file [one_block]) "default" ".tmp" [] [0] false false no_file (negb disableSparse) false 0 0 0 in
  let! (w, s) := copier_end (FS := toy_fs truncates) (PB := plain_proto) [] s (MkToy (Some [4; 5; 6; 9; 9]) []) in
  let! (w, _, (closed, err)) := toy_close truncates s w in
  Ok (closed, err, view_of w).
Example sample_too_long : toy_reused true true = Ok (true, None, [4; 5; 6; 9; 9]).
Proof. reflexivity. Qed.
(** With sparse files the end is cut off. *)
Example sample_cut : toy_reused true false = Ok (true, None, [4; 5; 6]).
Proof. reflexivity. Qed.
(** When a file cannot be given a size, which is ignored for a new file, the empty
    blocks at its end, which are never written, are missing. *)
Definition zero_block : BlockInfo := MkBlockInfo (default [] (empty_hash sha256OfEmptyBlock 131072)) 3 131072.
Example sample_too_short :
  toy_sync false false (toy_file [one_block; zero_block]) (MkToy None [4; 5; 6]) = Ok (true, None, 3).
Proof. reflexivity. Qed.
