(* ===== verification/PullLoop.v ===== *)
(** * A round of pulling ([src/lib/model/folder_sendrecv.go])

    A round goes over the items the folder needs.  Directories, links, deletions of
    links and changes of metadata are handled at once, files are queued, other deletions
    are put off; then the queue is worked off, where a file whose content is about to be
    deleted elsewhere is made by renaming; in the end files and then directories are
    deleted, the directories from the leaves.  Meanwhile other routines copy and pull
    the blocks of the files (Copier) and finish them.  The file translates the round
    over the handlers of Puller, as steps in any order of the routines, with the updater
    of the database.  It proves that no item is dropped: when a round ends without an
    error, each item that was needed has a job for the database or an error, but for
    deletions the folder ignores and files that changed in the index meanwhile; and what
    the caller takes for being in sync. *)
From S2P Require Import Prelude GoLib Vector DeviceID Platform FileInfo Paths Disk Puller.
From S2P Require Import FolderConfig.
From S2P Require Import MapDisk.
From S2P Require Ignore.
From S2P Require Queue.
From S2P Require IndexHandler.
From Stdlib Require Import Ascii.
From Stdlib Require String.

Local Open Scope Z_scope.

Definition IsAndroid (GOOS : string) : bool := bool_decide (GOOS = "android"%string).
Definition maxPullerIterations : nat := 3.

(** ** The piles

    [pFiles] is the map [fileDeletions]; [pStarted] are the files whose blocks are on
    the way, with the record of the local device. *)
Record closing := MkClosing { cFile : FileInfo; cCur : FileInfo; cHasCur : bool }.
Record piles := MkPiles {
  pFiles : gmap string FileInfo;
  pDirs : list FileInfo;
  pBuckets : gmap (list Z) (list FileInfo);
  pQueue : Queue.jobQueue;
  pStarted : list closing;
}.
#[export] Instance eta_piles : Eta piles := λ r, MkPiles (pFiles r) (pDirs r) (pBuckets r) (pQueue r) (pStarted r).
Definition no_piles : piles := MkPiles ∅ [] ∅ Queue.newJobQueue [].

Definition popCandidate (buckets : gmap (list Z) (list FileInfo)) (key : list Z)
    : gmap (list Z) (list FileInfo) * option FileInfo :=
  match default [] (buckets !! key) with
  | [] => (buckets, None)
  | c :: cands => (<[key := cands]> buckets, Some c)
  end.

Section round.
Context {F : Filesystem} {UF : UnicodeFold}.
Context (cfg : FolderConfiguration) (modTimeWindow : Z) (GOOS : string).
Context (ignoreMatch : path → Z) (sdb : path → ferr + option FileInfo).
Context (versioner : option (path → M unit)) (stamp : path).
Context (lookup_user lookup_group : string → option string) (tempName : path → path) (depth : nat).
(** What the index says of a name, whether a device has a file, and how much space is
    left; what writes an encryption trailer; and what becomes of the temporary file of
    a new job, with whether blocks of it are reused (Copier). *)
Context (global : path → ferr + option FileInfo) (hasDevice : FileInfo → bool).
Context (available : Z → option ferr) (trailer : FileInfo → path → M Z) (reuse : FileInfo → M bool).

Abbreviation handleDir_ := (handleDir cfg modTimeWindow GOOS ignoreMatch sdb versioner stamp lookup_user lookup_group depth).
Abbreviation handleSymlink_ := (handleSymlink cfg modTimeWindow GOOS ignoreMatch sdb versioner stamp lookup_user lookup_group depth).
Abbreviation deleteDir_ := (deleteDir cfg modTimeWindow GOOS ignoreMatch sdb depth).
Abbreviation deleteFile_ := (deleteFile cfg modTimeWindow GOOS sdb versioner stamp).
Abbreviation deleteFileWithCurrent_ := (deleteFileWithCurrent cfg modTimeWindow GOOS versioner stamp).
Abbreviation renameFile_ := (renameFile cfg modTimeWindow GOOS ignoreMatch sdb versioner stamp lookup_user lookup_group tempName depth available).
Abbreviation performFinish_ := (performFinish cfg modTimeWindow GOOS ignoreMatch sdb versioner stamp lookup_user lookup_group depth).

(** ** Sorting what is needed *)

(** The check of the parent before a handler. *)
Definition with_parent (file : FileInfo) (handler : M unit) : M unit :=
  let! ok := checkParent cfg (fname file) in if ok : bool then handler else mret tt.

(** A file that is to be deleted can be renamed instead when it is there. *)
Definition put_off (file df : FileInfo) (p : piles) : piles :=
  p <| pFiles := <[fName file := file]> (pFiles p) |>
    <| pBuckets := <[fBlocksHash df := default [] (pBuckets p !! fBlocksHash df) ++ [df]]> (pBuckets p) |>.
Definition sort_deletion (file : FileInfo) (p : piles) : M piles :=
  if IsDirectory file then mret (p <| pDirs := pDirs p ++ [file] |>)
  else if IsSymlink file then (let! _ := deleteFile_ file in mret p)
  else
    let! (df, ok) := GetLocalFile sdb (fname file) in
    if ok && negb (IsDeleted df) && negb (IsSymlink df) && negb (IsDirectory df) && negb (IsInvalid df)
    then mret (put_off file df p)
    else let! _ := deleteFileWithCurrent_ file df ok in mret p.
Definition sort_file (file : FileInfo) (p : piles) : M piles :=
  let! (curFile, hasCurFile) := GetLocalFile sdb (fname file) in
  if hasCurFile && BlocksEqual file curFile then
    let! _ := shortcutFile cfg GOOS lookup_user lookup_group trailer file in
    mret (p <| pQueue := Queue.Done (pQueue p) (fName file) |>)
  else mret (p <| pQueue := Queue.Push (pQueue p) (fName file) (fSize file) (ModTime file) |>).
Definition unsupported_link (file : FileInfo) : M unit :=
  let! r := attempt (handleSymlinkCheckExisting cfg modTimeWindow GOOS ignoreMatch sdb versioner stamp depth file) in
  match r with
  | inl e => newPullError (fname file) (Wrapped "handling unsupported symlink" e)
  | inr _ => update (SetUnsupported file) dbUpdateInvalidate
  end.

(** One item of the loop; the last case panics. *)
Definition sort_needed (file : FileInfo) (p : piles) : M piles :=
  if fcIgnoreDelete cfg && IsDeleted file then mret p
  else if Ignore.IsIgnored (ignoreMatch (fname file)) then
    let! _ := update (SetIgnored file) dbUpdateInvalidate in mret p
  else match (if IsWindows GOOS then WindowsInvalidFilename (fname file) else None) with
  | Some e =>
      let! _ := (if IsDeleted file then update file dbUpdateDeleteFile else newPullError (fname file) (ErrText e)) in
      mret p
  | None =>
      if IsDeleted file then sort_deletion file p
      else if fType file =? FileInfoTypeFile then sort_file file p
      else if (IsWindows GOOS || IsAndroid GOOS) && IsSymlink file then
        let! _ := unsupported_link file in mret p
      else if IsDirectory file && negb (IsSymlink file) then
        let! _ := with_parent file (handleDir_ file) in mret p
      else if IsSymlink file then
        let! _ := with_parent file (handleSymlink_ file) in mret p
      else throw (ErrText "unhandleable item type, can't happen")
  end.

(** ** Working off the queue *)

Definition done (name : string) (p : piles) : piles := p <| pQueue := Queue.Done (pQueue p) name |>.

(** Candidates with the same blocks are renamed until one succeeds; [n] bounds their number. *)
Fixpoint try_rename (n : nat) (fi : FileInfo) (p : piles) : M (piles * bool) :=
  match n with
  | O => mret (p, false)
  | S n =>
      match popCandidate (pBuckets p) (fBlocksHash fi) with
      | (_, None) => mret (p, false)
      | (buckets, Some candidate) =>
          let p := p <| pBuckets := buckets |> in
          let desired := default (zero_record "") (pFiles p !! fName candidate) in
          let! r := attempt (renameFile_ candidate desired fi) in
          match r with
          | inl _ => try_rename n fi p
          | inr _ => mret (p <| pFiles := delete (fName candidate) (pFiles p) |>, true)
          end
      end
  end.
Definition candidates (fi : FileInfo) (p : piles) : nat := length (default [] (pBuckets p !! fBlocksHash fi)).

(** [handleFile] up to where the blocks are handed to the copier. *)
Definition start_file (fi : FileInfo) : M closing :=
  let! (curFile, hasCurFile) := GetLocalFile sdb (fname fi) in
  let! reused := reuse fi in
  let! _ := if reused : bool then mret tt
            else (let! _ := attempt (inWritableDir Remove (tempName (fname fi))) in mret tt) in
  mret (MkClosing fi curFile hasCurFile).

(** A round of the second loop; [false] when the queue is empty. *)
Definition next_file (p : piles) : M (piles * bool) :=
  let '(q, (fileName, ok)) := Queue.Pop (pQueue p) in
  let p := p <| pQueue := q |> in
  if negb ok then mret (p, false)
  else
    match global (s2l fileName) with
    | inl e => throw e
    | inr None => mret (done fileName p, true)
    | inr (Some fi) =>
        if IsDeleted fi || IsInvalid fi || negb (fType fi =? FileInfoTypeFile) then mret (done fileName p, true)
        else
          let! ok := checkParent cfg (fname fi) in
          if negb ok then mret (done fileName p, true)
          else
            let! (p, renamed) := try_rename (candidates fi p) fi p in
            if renamed : bool then mret (done fileName p, true)
            else if negb (hasDevice fi) then
              let! _ := newPullError (s2l fileName) errNotAvailable in mret (done fileName p, true)
            else match available (u64 (fSize fi)) with
            | Some e => let! _ := newPullError (s2l fileName) e in mret (done fileName p, true)
            | None =>
                let! r := attempt (start_file fi) in
                match r with
                | inl e => let! _ := newPullError (s2l fileName) e in mret (p, true)
                | inr c => mret (p <| pStarted := pStarted p ++ [c] |>, true)
                end
            end
    end.

(** ** Finishing files *)

(** [finisherRoutine] when [finalClose] closed the file, with the error it ended with. *)
Definition finish (c : closing) (err : option ferr) : M unit :=
  let! r := attempt (match err with
                     | Some e => throw e
                     | None => performFinish_ (cFile c) (cCur c) (cHasCur c) (tempName (fname (cFile c)))
                     end) in
  match r with
  | inl e => newPullError (fname (cFile c)) (Wrapped "finishing" e)
  | inr _ => mret tt
  end.

(** ** Deleting

    [order] is the order in which the map is gone through, [cancelled] whether the
    context is at an end before each item. *)
Fixpoint delete_loop (delete_ : FileInfo → M unit) (cancelled : nat → bool) (i : nat) (files : list FileInfo) : M (nat * bool) :=
  match files with
  | [] => mret (i, true)
  | f :: files => if cancelled i then mret (i, false) else let! _ := delete_ f in delete_loop delete_ cancelled (S i) files
  end.
Definition processDeletions (order : gmap string FileInfo → list FileInfo) (cancelled : nat → bool) (p : piles) : M unit :=
  let! (i, going) := delete_loop deleteFile_ cancelled 0 (order (pFiles p)) in
  if going : bool then (let! _ := delete_loop deleteDir_ cancelled i (rev (pDirs p)) in mret tt) else mret tt.

(** ** The round

    [processNeeded] runs next to the finisher: each item is a step, and so is each file
    that is finished or whose state is never closed. *)
Record round := MkRound {
  rdWorld : world;
  rdPiles : piles;
  rdNeeded : list (ferr + FileInfo);
  rdStuck : list FileInfo;
}.
Inductive phase := Sorting | Draining | Closing | Over.

Inductive move : phase * round → phase * round → Prop :=
  | move_sort f needed p w w' p' stuck :
      sort_needed f p w = (w', inr p') →
      move (Sorting, MkRound w p (inr f :: needed) stuck) (Sorting, MkRound w' p' needed stuck)
  | move_sorted p w stuck : move (Sorting, MkRound w p [] stuck) (Draining, MkRound w p [] stuck)
  | move_next p w w' p' stuck :
      next_file p w = (w', inr (p', true)) → move (Draining, MkRound w p [] stuck) (Draining, MkRound w' p' [] stuck)
  | move_drained p w w' p' stuck :
      next_file p w = (w', inr (p', false)) → move (Draining, MkRound w p [] stuck) (Closing, MkRound w' p' [] stuck)
  | move_finish ph c err before after p w w' needed stuck :
      pStarted p = before ++ c :: after → finish c err w = (w', inr tt) →
      move (ph, MkRound w p needed stuck)
        (ph, MkRound w' (p <| pQueue := Queue.Done (pQueue p) (fName (cFile c)) |> <| pStarted := before ++ after |>) needed stuck)
  | move_stuck ph c before after p w needed stuck :
      pStarted p = before ++ c :: after →
      move (ph, MkRound w p needed stuck) (ph, MkRound w (p <| pStarted := before ++ after |>) needed (stuck ++ [cFile c]))
  | move_delete order cancelled p w w' stuck :
      pStarted p = [] → Permutation (order (pFiles p)) (map snd (map_to_list (pFiles p))) → (∀ i, cancelled i = false) →
      processDeletions order cancelled p w = (w', inr tt) →
      move (Closing, MkRound w p [] stuck) (Over, MkRound w' (p <| pQueue := Queue.newJobQueue |>) [] stuck).
Definition start_round (w : world) (needed : list (ferr + FileInfo)) : phase * round :=
  (Sorting, MkRound (w <| wErrors := ∅ |> <| wJobs := [] |>) no_piles needed []).
(** What [pull] makes of its last round: the number of jobs, and the errors. *)
Definition in_sync (w : world) : bool := (length (wJobs w) =? 0)%nat && bool_decide (wErrors w = ∅).
End round.

(** ** What is noted stays noted *)
Definition noted {F : Filesystem} (n : path) (w : world) : Prop :=
  (∃ j, j ∈ wJobs w ∧ fname j.1 = n) ∨ is_Some (wErrors w !! n).
Definition grows {F : Filesystem} (w w' : world) : Prop :=
  wJobs w `prefix_of` wJobs w' ∧ ∀ p, is_Some (wErrors w !! p) → is_Some (wErrors w' !! p).
#[export] Instance grows_preorder {F : Filesystem} : PreOrder (grows (F:=F)).
Proof.
  split; [by intros w|]. intros w1 w2 w3 [H1 H2] [H3 H4]. split; [by etrans|auto].
Qed.

Create HintDb notes.
Section noting.
Context {F : Filesystem} {FL : FilesystemLaws F} {UF : UnicodeFold}.
Context (cfg : FolderConfiguration) (modTimeWindow : Z) (GOOS : string).
Context (ignoreMatch : path → Z) (sdb : path → ferr + option FileInfo).
Context (versioner : option (path → M unit)) (stamp : path).
Context (lookup_user lookup_group : string → option string) (tempName : path → path) (depth : nat).
(** Old versions are moved without notes. *)
Context (Hversioner : ∀ Archive, versioner = Some Archive → ∀ p w, same_notes w (Archive p w).1).

Lemma grows_same w w' : same_notes w w' → grows w w'.
Proof. intros (_ & HJ & HE). split; [by rewrite HJ|by rewrite HE]. Qed.
#[local] Instance grows_noting : Noting grows.
Proof. split; [exact _|apply grows_same|]. intros q w. split; [done|auto]. Qed.
Lemma grows_archive Archive p w : versioner = Some Archive → stays grows (inWritableDir Archive p) w.
Proof. intros H. apply noting_inWritableDir; [exact _|]. intros w1. by apply grows_same, Hversioner. Qed.
Lemma noted_grows n w w' : grows w w' → noted n w → noted n w'.
Proof. intros [[l HJ] HE] [(j & Hj & Hn)|He]; [left; exists j; rewrite HJ|right; auto]. split; [|done]. apply elem_of_app. by left. Qed.

Lemma grows_update f t w : stays grows (update f t) w.
Proof. split; cbn; [by apply prefix_app_r|auto]. Qed.
Lemma grows_newPullError p e w : stays grows (newPullError p e) w.
Proof.
  unfold stays, newPullError. destruct (wErrors w !! p) eqn:E; cbn; [done|]. split; cbn; [done|].
  intros q Hq. destruct (decide (q = p)) as [->|]; [by rewrite lookup_insert_eq|by rewrite lookup_insert_ne].
Qed.
#[local] Hint Resolve grows_noting grows_update grows_newPullError grows_archive : effects.

(** *** Handlers leave a note *)
Abbreviation notes n := (λ _ w', noted n w').
Lemma wp_update f t w : wp grows (update f t) w (notes (fname f)).
Proof.
  split; [apply grows_update|]. intros [] _. left. exists (f, t). cbn. split; [|done]. apply elem_of_app. right. by apply list_elem_of_singleton.
Qed.
Lemma wp_newPullError p e w : wp grows (newPullError p e) w (notes p).
Proof.
  split; [apply grows_newPullError|]. intros [] _. right. unfold newPullError. destruct (wErrors w !! p) eqn:E; cbn; [by rewrite E|].
  by rewrite lookup_insert_eq.
Qed.
Lemma wp_failing file c m w : stays grows m w → wp grows (failing file c m) w (λ ok w', ok = false → noted (fname file) w').
Proof.
  intros Hm. unfold failing. eapply wp_bind; [exact _|by apply wp_stays, stays_attempt|]. intros [e|[]] w' Hw _.
  - eapply wp_bind; [exact _|apply wp_newPullError|]. intros [] w'' _ Hn. by apply wp_ret; [exact _|].
  - by apply wp_ret; [exact _|].
Qed.
(** After a check that failed with a note. *)
Lemma wp_if_noted n (ok : bool) k w : (ok = false → noted n w) → (ok = true → wp grows k w (notes n)) →
  wp grows (if ok then k else mret tt) w (notes n).
Proof. intros Hf Ht. destruct ok; [by apply Ht|]. by apply wp_ret; [exact _|apply Hf]. Qed.
Lemma wp_checked file c m k w : stays grows m w → (∀ w', wp grows k w' (notes (fname file))) →
  wp grows (let! ok := failing file c m in if ok : bool then k else mret tt) w (notes (fname file)).
Proof.
  intros Hm Hk. eapply wp_bind; [exact _|by apply wp_failing|]. intros ok w' _ Hn. by apply wp_if_noted.
Qed.
(** Reading first. *)
Lemma wp_first {A B} (m : M A) (k : A → M B) w Q : stays grows m w → (∀ a w', wp grows (k a) w' Q) → wp grows (m ≫= k) w Q.
Proof. intros Hm Hk. eapply wp_bind; [exact _|by apply wp_stays|]. intros a w' _ _. apply Hk. Qed.

#[local] Hint Resolve wp_update wp_newPullError : notes.
Ltac handler_step :=
  lazymatch goal with
  | |- wp _ (mbind _ (failing _ _ _)) _ _ => apply wp_checked; [effects|intros ?]
  | |- wp _ (mbind _ _) _ _ => apply wp_first; [effects|intros ? ?]
  | |- wp _ (let '(_, _) := ?x in _) _ _ => destruct x
  | |- wp _ (match ?x with _ => _ end) _ _ => destruct x eqn:?
  end.
Ltac handler := repeat handler_step; eauto with notes.

Lemma wp_create_dir file w : wp grows (create_dir cfg GOOS lookup_user lookup_group file) w (notes (fname file)).
Proof. unfold create_dir. handler. Qed.
#[local] Hint Resolve wp_create_dir : notes.
Lemma wp_clear_for_dir file i w :
  wp grows (clear_for_dir cfg modTimeWindow GOOS ignoreMatch sdb versioner stamp depth file i) w (λ ok w', ok = false → noted (fname file) w').
Proof.
  assert (Hfalse : ∀ e w1, wp grows (let! _ := newPullError (fname file) e in mret false) w1 (λ ok w', ok = false → noted (fname file) w')).
  { intros e w1. eapply wp_bind; [exact _|apply wp_newPullError|]. intros [] w2 _ Hn. by apply wp_ret; [exact _|]. }
  assert (Htrue : ∀ w1, wp grows (mret true) w1 (λ ok w', ok = false → noted (fname file) w')).
  { intros w1. by apply wp_ret; [exact _|]. }
  unfold clear_for_dir. apply wp_first; [effects|]. intros [e|[cur has]] w1; [apply Hfalse|].
  eapply wp_bind; [exact _|apply wp_failing; effects|]. intros [] w2 _ Hn; [|by apply wp_ret; [exact _|]].
  apply wp_first; [effects|]. intros [e|[]] w3; [apply Hfalse|apply Htrue].
Qed.
Lemma wp_handleDir file w : wp grows (handleDir cfg modTimeWindow GOOS ignoreMatch sdb versioner stamp lookup_user lookup_group depth file) w (notes (fname file)).
Proof.
  unfold handleDir. apply wp_first; [effects|]. intros [e|i] w1; [handler|]. destruct (negb (IsDir i)); [|handler].
  eapply wp_bind; [exact _|apply wp_clear_for_dir|]. intros ok w2 _ Hn. apply wp_if_noted; [done|]. intros _. apply wp_create_dir.
Qed.
Lemma wp_handleSymlink file w :
  wp grows (handleSymlink cfg modTimeWindow GOOS ignoreMatch sdb versioner stamp lookup_user lookup_group depth file) w (notes (fname file)).
Proof. unfold handleSymlink. handler. Qed.
Lemma wp_not_deleted file context t e w : wp grows (not_deleted file context t e) w (notes (fname file)).
Proof. unfold not_deleted. handler. Qed.
#[local] Hint Resolve wp_not_deleted : notes.
Lemma wp_deleteDir file w : wp grows (deleteDir cfg modTimeWindow GOOS ignoreMatch sdb depth file) w (notes (fname file)).
Proof. unfold deleteDir. handler. Qed.
Lemma wp_deleteFileWithCurrent file cur has w :
  wp grows (deleteFileWithCurrent cfg modTimeWindow GOOS versioner stamp file cur has) w (notes (fname file)).
Proof. unfold deleteFileWithCurrent. handler. Qed.
#[local] Hint Resolve wp_deleteFileWithCurrent : notes.
Lemma wp_deleteFile file w : wp grows (deleteFile cfg modTimeWindow GOOS sdb versioner stamp file) w (notes (fname file)).
Proof. unfold deleteFile. handler. Qed.
Lemma wp_checkParent p w : wp grows (checkParent cfg p) w (λ ok w', ok = false → noted p w').
Proof.
  assert (Hfalse : ∀ e w1, wp grows (let! _ := newPullError p e in mret false) w1 (λ ok w', ok = false → noted p w')).
  { intros e w1. eapply wp_bind; [exact _|apply wp_newPullError|]. intros [] w2 _ Hn. by apply wp_ret; [exact _|]. }
  assert (Htrue : ∀ w1, wp grows (mret true) w1 (λ ok w', ok = false → noted p w')).
  { intros w1. by apply wp_ret; [exact _|]. }
  unfold checkParent. apply wp_first; [effects|]. intros [e|[]] w1; [apply Hfalse|].
  apply wp_first; [effects|]. intros i w2. destruct (negb _); [apply Htrue|]. apply wp_first; [effects|].
  intros [e|[]] w3; [apply Hfalse|]. apply wp_first; [destruct (negb _); effects|]. intros _ w4. apply Htrue.
Qed.
Lemma wp_with_parent file h w : (∀ w', wp grows h w' (notes (fname file))) → wp grows (with_parent cfg file h) w (notes (fname file)).
Proof.
  intros Hh. unfold with_parent. eapply wp_bind; [exact _|apply wp_checkParent|]. intros ok w1 _ Hn. by apply wp_if_noted.
Qed.
Lemma wp_wrapped {A} c (m : M A) w Q : wp grows m w Q → wp grows (wrap c m) w Q.
Proof. apply wp_wrap. Qed.
Lemma wp_performFinish file cur has temp w :
  wp grows (performFinish cfg modTimeWindow GOOS ignoreMatch sdb versioner stamp lookup_user lookup_group depth file cur has temp) w (notes (fname file)).
Proof. unfold performFinish, prepare_temp, put_in_place. handler. Qed.
End noting.

(** ** Nothing is dropped *)
Section accounting.
Context {F : Filesystem} {FL : FilesystemLaws F} {UF : UnicodeFold}.
Context (cfg : FolderConfiguration) (modTimeWindow : Z) (GOOS : string).
Context (ignoreMatch : path → Z) (sdb : path → ferr + option FileInfo).
Context (versioner : option (path → M unit)) (stamp : path).
Context (lookup_user lookup_group : string → option string) (tempName : path → path) (depth : nat).
Context (global : path → ferr + option FileInfo) (hasDevice : FileInfo → bool).
Context (available : Z → option ferr) (trailer : FileInfo → path → M Z) (reuse : FileInfo → M bool).
(** Old versions, trailers and temporary files are written without notes, and the index
    answers with records of the name it is asked for. *)
Context (Hversioner : ∀ Archive, versioner = Some Archive → ∀ p w, same_notes w (Archive p w).1).
Context (Htrailer : ∀ f p w, same_notes w (trailer f p w).1) (Hreuse : ∀ f w, same_notes w (reuse f w).1).
Context (Hglobal : ∀ p fi, global p = inr (Some fi) → fname fi = p).
Abbreviation notes n := (λ _ w', noted n w').
#[local] Hint Resolve grows_noting grows_update grows_newPullError : effects.
#[local] Existing Instance grows_noting.
#[local] Hint Resolve wp_update wp_newPullError wp_handleDir wp_handleSymlink wp_deleteDir wp_deleteFileWithCurrent wp_deleteFile
  wp_performFinish wp_with_parent : notes.

Lemma wp_shortcutFile file w : wp grows (shortcutFile cfg GOOS lookup_user lookup_group trailer file) w (notes (fname file)).
Proof.
  assert (Hend : ∀ (r : ferr + Z) w1, wp grows (match r with
      | inl e => newPullError (fname file) (Wrapped "writing encrypted file trailer" e)
      | inr trailerSize =>
          let file := if fcType cfg =? FolderTypeReceiveEncrypted
                      then file <| fEncryptionTrailerSize := trailerSize |> <| fSize := fSize file + trailerSize |> else file in
          let! _ := attempt (call (fs_Chtimes (fname file) (ModTime file))) in
          update file dbUpdateShortcutFile
      end) w1 (notes (fname file))).
  { intros [e|z] w1; [apply wp_newPullError|]. cbv zeta. apply wp_first; [effects|]. intros _ w2.
    destruct (fcType cfg =? _); [exact (wp_update (file <| fEncryptionTrailerSize := z |> <| fSize := fSize file + z |>) _ w2)|apply wp_update]. }
  assert (Ht : ∀ w1, stays grows (attempt (if fcType cfg =? FolderTypeReceiveEncrypted then trailer file (fname file) else mret 0)) w1).
  { intros w1. apply stays_attempt. destruct (_ =? _); [by apply grows_same|by apply stays_ret; exact _]. }
  assert (Hrest : ∀ w1, wp grows (let! ok := failing file "shortcut file (setting metadata)" (setPlatformData cfg GOOS lookup_user lookup_group file (fname file)) in
    if ok : bool then
      let! r := attempt (if fcType cfg =? FolderTypeReceiveEncrypted then trailer file (fname file) else mret 0) in
      match r with
      | inl e => newPullError (fname file) (Wrapped "writing encrypted file trailer" e)
      | inr trailerSize =>
          let file := if fcType cfg =? FolderTypeReceiveEncrypted
                      then file <| fEncryptionTrailerSize := trailerSize |> <| fSize := fSize file + trailerSize |> else file in
          let! _ := attempt (call (fs_Chtimes (fname file) (ModTime file))) in
          update file dbUpdateShortcutFile
      end
    else mret tt) w1 (notes (fname file))).
  { intros w1. apply wp_checked; [effects|]. intros w2. apply wp_first; [apply Ht|]. intros r w3. apply Hend. }
  unfold shortcutFile. eapply wp_bind; [exact _| |].
  - instantiate (1 := λ ok w', ok = false → noted (fname file) w'). destruct (_ && _); [apply wp_failing; effects|].
    by apply wp_ret; [exact _|].
  - intros ok w1 _ Hn. apply wp_if_noted; [done|]. intros _. apply Hrest.
Qed.
Lemma wp_renameFile cur source target w :
  wp grows (renameFile cfg modTimeWindow GOOS ignoreMatch sdb versioner stamp lookup_user lookup_group tempName depth available cur source target) w
    (λ _ w', noted (fname source) w' ∧ noted (fname target) w').
Proof.
  pose proof (grows_archive versioner Hversioner) as Ha.
  assert (Hend : ∀ cur temp w1, wp grows (let! _ := performFinish cfg modTimeWindow GOOS ignoreMatch sdb versioner stamp lookup_user lookup_group depth target cur true temp in
      update source dbUpdateDeleteFile) w1 (λ _ w', noted (fname source) w' ∧ noted (fname target) w')).
  { intros c temp w1. eapply wp_bind; [exact _|by apply wp_performFinish|]. intros [] w2 _ Hn.
    eapply wp_mono; [apply wp_update|]. intros [] w3 Hw Hs. split; [done|]. by eapply noted_grows. }
  clear Hversioner. unfold renameFile. apply wp_first; [effects|]. intros [] w1. apply wp_first; [effects|]. intros [curTarget ok] w2.
  apply wp_first; [unfold check_target; effects|]. intros [] w3. apply wp_first; [effects|]. intros [] w4. apply Hend.
Qed.

(** What is still to come for a name. *)
Definition place (n : string) (p : piles) : Prop :=
  is_Some (pFiles p !! n) ∨ n ∈ map fName (pDirs p) ∨ n ∈ map Queue.name (Queue.queued (pQueue p)) ∨ n ∈ map (λ c, fName (cFile c)) (pStarted p).
Definition files_named (p : piles) : Prop := ∀ n g, pFiles p !! n = Some g → fName g = n.
(** The index no longer has a file of the name. *)
Definition changed (n : string) : Prop :=
  match global (s2l n) with
  | inl _ => False
  | inr None => True
  | inr (Some fi) => IsDeleted fi = true ∨ IsInvalid fi = true ∨ fType fi ≠ FileInfoTypeFile
  end.
Definition ignored_deletion (f : FileInfo) : Prop := fcIgnoreDelete cfg = true ∧ IsDeleted f = true.
Definition accounted (n : string) (p : piles) (w : world) : Prop := noted (s2l n) w ∨ place n p.
(** A step of [processNeeded] keeps what is accounted for. *)
Definition keeps_account (p p' : piles) (w' : world) : Prop :=
  files_named p' ∧ ∀ n, place n p → accounted n p' w'.
Lemma keeps_same p p' w : pFiles p' = pFiles p → pDirs p' = pDirs p → Queue.queued (pQueue p') = Queue.queued (pQueue p) →
  pStarted p' = pStarted p → files_named p → keeps_account p p' w.
Proof. intros H1 H2 H3 H4 Hn. unfold keeps_account, files_named, accounted, place. rewrite H1, H2, H3, H4. split; [done|auto]. Qed.

Lemma place_put_off file df p n : place n p ∨ n = fName file → place n (put_off file df p).
Proof.
  unfold place, put_off. cbn. intros [[?|?]| ->]; [left|right; done|left; by rewrite lookup_insert_eq].
  destruct (decide (n = fName file)) as [->|]; [by rewrite lookup_insert_eq|by rewrite lookup_insert_ne].
Qed.
Lemma named_put_off file df p : files_named p → files_named (put_off file df p).
Proof. intros H n g. unfold put_off. cbn. intros [[<- <-]|[_ ?]]%lookup_insert_Some; [done|by apply H]. Qed.

Definition sorted_well (f : FileInfo) (p p' : piles) (w' : world) : Prop :=
  keeps_account p p' w' ∧ (ignored_deletion f ∨ accounted (fName f) p' w').
Lemma sorted_noted f p w : files_named p → noted (fname f) w → sorted_well f p p w.
Proof. intros Hp Hn. split; [by apply keeps_same|]. right. by left. Qed.
Lemma wp_noting f (h : M unit) p w : files_named p → wp grows h w (notes (fname f)) → wp grows (let! _ := h in mret p) w (sorted_well f p).
Proof.
  intros Hp Hh. eapply wp_bind; [exact _|exact Hh|]. intros [] w' _ Hn. apply wp_ret; [exact _|]. by apply sorted_noted.
Qed.
Lemma wp_sort_deletion f p w : files_named p → wp grows (sort_deletion cfg modTimeWindow GOOS sdb versioner stamp f p) w (sorted_well f p).
Proof.
  intros Hp. unfold sort_deletion. destruct (IsDirectory f).
  { apply wp_ret; [exact _|]. split; [split; [done|]|].
    - intros n [?|[?|?]]; right; [by left| |by right; right]. right. left. cbn. rewrite map_app. apply elem_of_app. by left.
    - right. right. right. left. cbn. rewrite map_app. apply elem_of_app. right. by left. }
  destruct (IsSymlink f); [apply wp_noting; [done|by apply wp_deleteFile]|].
  apply wp_first; [effects|]. intros [df ok] w1. destruct (_ && _).
  - apply wp_ret; [exact _|]. split; [split; [by apply named_put_off|]|].
    + intros n Hn. right. apply place_put_off. by left.
    + right. right. apply place_put_off. by right.
  - apply wp_noting; [done|by apply wp_deleteFileWithCurrent].
Qed.
Lemma wp_sort_file f p w : files_named p → wp grows (sort_file cfg GOOS sdb lookup_user lookup_group trailer f p) w (sorted_well f p).
Proof.
  intros Hp. unfold sort_file. apply wp_first; [effects|]. intros [cur has] w1. destruct (_ && _).
  - eapply wp_bind; [exact _|apply wp_shortcutFile|]. intros [] w2 _ Hn. apply wp_ret; [exact _|]. split; [by apply keeps_same|].
    right. by left.
  - apply wp_ret; [exact _|]. split; [split; [done|]|].
    + intros n [?|[?|[?|?]]]; right; [by left|by right; left| |by right; right; right]. right. right. left. cbn.
      rewrite map_app. apply elem_of_app. by left.
    + right. right. right. right. left. cbn. rewrite map_app. apply elem_of_app. right. by left.
Qed.
Lemma wp_unsupported_link f w :
  wp grows (unsupported_link cfg modTimeWindow GOOS ignoreMatch sdb versioner stamp depth f) w (notes (fname f)).
Proof.
  unfold unsupported_link. apply wp_first; [apply stays_attempt, noting_checkExisting; [exact _|]; intros A HA p1 w1; by apply (grows_archive versioner)|].
  intros [e|[]] w1; [apply wp_newPullError|exact (wp_update (SetUnsupported f) _ w1)].
Qed.
Lemma wp_sort_needed f p w : files_named p →
  wp grows (sort_needed cfg modTimeWindow GOOS ignoreMatch sdb versioner stamp lookup_user lookup_group depth trailer f p) w (sorted_well f p).
Proof.
  intros Hp. unfold sort_needed. destruct (fcIgnoreDelete cfg && IsDeleted f) eqn:Hig.
  { apply wp_ret; [exact _|]. split; [by apply keeps_same|]. left. by apply andb_true_iff in Hig. }
  destruct (Ignore.IsIgnored _); [apply wp_noting; [done|exact (wp_update (SetIgnored f) _ w)]|].
  destruct (if IsWindows GOOS then WindowsInvalidFilename (fname f) else None) as [e|].
  { apply wp_noting; [done|]. destruct (IsDeleted f); [apply wp_update|apply wp_newPullError]. }
  destruct (IsDeleted f); [by apply wp_sort_deletion|]. destruct (fType f =? FileInfoTypeFile); [by apply wp_sort_file|].
  destruct ((IsWindows GOOS || IsAndroid GOOS) && IsSymlink f); [apply wp_noting; [done|apply wp_unsupported_link]|].
  destruct (IsDirectory f && negb (IsSymlink f)); [apply wp_noting; [done|apply wp_with_parent; intros; by apply wp_handleDir]|].
  destruct (IsSymlink f); [apply wp_noting; [done|apply wp_with_parent; intros; by apply wp_handleSymlink]|].
  split; [by apply stays_throw; exact _|done].
Qed.

(** The queue. *)
Lemma wp_try_rename k fi p w : files_named p →
  wp grows (try_rename cfg modTimeWindow GOOS ignoreMatch sdb versioner stamp lookup_user lookup_group tempName depth available k fi p) w
    (λ r w', keeps_account p r.1 w' ∧ pQueue r.1 = pQueue p ∧ (r.2 = true → noted (fname fi) w')).
Proof.
  induction k as [|k IH] in p, w |- *; intros Hp; cbn [try_rename].
  { apply wp_ret; [exact _|]. split_and!; [by apply keeps_same|done|done]. }
  destruct (popCandidate (pBuckets p) (fBlocksHash fi)) as [b [c|]]; [|apply wp_ret; [exact _|split_and!; [by apply keeps_same|done|done]]].
  set (p1 := p <| pBuckets := b |>). set (desired := default _ _).
  assert (Hatt : wp grows (attempt (renameFile cfg modTimeWindow GOOS ignoreMatch sdb versioner stamp lookup_user lookup_group tempName depth available c desired fi)) w
    (λ r w', r = inr tt → noted (fname desired) w' ∧ noted (fname fi) w')).
  { destruct (wp_renameFile c desired fi w) as [H1 H2]. split; [by apply stays_attempt|]. intros r Hr Hok. rewrite attempt_world.
    apply attempt_result in Hr. apply (H2 tt). congruence. }
  eapply wp_bind; [exact _|exact Hatt|]. intros [e|[]] w1 Hw H.
  - eapply wp_mono; [by apply IH|]. intros [p' ok] w2 _ (H1 & H2 & H3). by split_and!.
  - destruct (H eq_refl) as [Hd Hf]. apply wp_ret; [exact _|]. split_and!; [split|done|done].
    + intros n g. cbn. intros [_ Hg]%lookup_delete_Some. by apply Hp.
    + intros n [Hn|Hn]; [|by right; right]. destruct (decide (n = fName c)) as [->|Hne].
      * left. destruct Hn as [g Hg]. unfold desired in Hd. cbn in Hd. rewrite Hg in Hd. cbn in Hd. unfold fname in Hd. by rewrite (Hp _ _ Hg) in Hd.
      * right. left. cbn. by rewrite lookup_delete_ne.
Qed.
Lemma keeps_account_trans p p1 p2 w1 w2 : grows w1 w2 → keeps_account p p1 w1 → keeps_account p1 p2 w2 → keeps_account p p2 w2.
Proof.
  intros Hw [_ H1] [H2 H3]. split; [done|]. intros n Hn. destruct (H1 n Hn) as [Hno|Hp]; [left; by eapply noted_grows|by apply H3].
Qed.
(** What became of a name that was taken from the queue. *)
Definition queue_ok (p p' : piles) (w' : world) : Prop :=
  files_named p' ∧ ∀ n, place n p → accounted n p' w' ∨ changed n.
Lemma queue_ok_keeps p p' w : keeps_account p p' w → queue_ok p p' w.
Proof. intros [H1 H2]. split; [done|]. intros n Hn. left. by apply H2. Qed.

Lemma wp_start_file fi w : wp grows (attempt (start_file sdb tempName reuse fi)) w (λ r _, ∀ c, r = inr c → cFile c = fi).
Proof.
  split.
  - apply stays_attempt. unfold start_file. apply stays_bind; [exact _|apply (noting_GetLocalFile grows)|]. intros [cur has] _.
    apply stays_bind; [exact _|by apply grows_same|]. intros ru _. apply stays_bind; [exact _|destruct ru; effects|]. intros [] _.
    apply stays_ret; exact _.
  - intros r Hr c ->. apply attempt_result in Hr. unfold start_file in Hr.
    apply bind_inr in Hr as ([cur has] & _ & Hr & _). apply bind_inr in Hr as (ru & _ & Hr & _).
    apply bind_inr in Hr as ([] & _ & Hr & _). by injection Hr as <-.
Qed.
Lemma wp_next_file p w : files_named p →
  wp grows (next_file cfg modTimeWindow GOOS ignoreMatch sdb versioner stamp lookup_user lookup_group tempName depth global hasDevice available reuse p) w
    (λ r w', queue_ok p r.1 w' ∧ (r.2 = false → Queue.queued (pQueue r.1) = [])).
Proof.
  intros Hp. unfold next_file, Queue.Pop. destruct (Queue.queued (pQueue p)) as [|e rest] eqn:Hq.
  { apply wp_ret; [exact _|]. split; [|by intros _]. apply queue_ok_keeps. by apply keeps_same. }
  cbn [negb]. set (name := Queue.name e). set (p1 := p <| pQueue := _ |>).
  (** the name is all that has to be accounted for *)
  assert (Hpop : ∀ n, place n p → n = name ∨ place n p1).
  { intros n [?|[?|[Hn|?]]]; [by right; left|by right; right; left| |by right; right; right; right].
    rewrite Hq in Hn. cbn in Hn. apply elem_of_cons in Hn as [->|Hn]; [by left|right]. right. right. by left. }
  assert (Hp1 : files_named p1) by done.
  assert (Hend : ∀ p' w', keeps_account p1 p' w' → accounted name p' w' ∨ changed name → queue_ok p p' w').
  { intros p' w' [H1 H2] H3. split; [done|]. intros n [->|Hn]%Hpop; [done|]. left. by apply H2. }
  assert (Hdone : ∀ p' w', keeps_account p1 p' w' → noted (s2l name) w' ∨ changed name → queue_ok p (done name p') w').
  { intros p' w' [H1 H2] H3. apply Hend; [split; [done|]; intros n [?|Hn]%H2; [by left|by right]|]. destruct H3 as [?|?]; [by left; left|by right]. }
  assert (Herr : ∀ e p' w', keeps_account p1 p' w' →
    wp grows (let! _ := newPullError (s2l name) e in mret (done name p', true)) w'
      (λ r w', queue_ok p r.1 w' ∧ (r.2 = false → Queue.queued (pQueue r.1) = []))).
  { intros e' p' w' Hk. eapply wp_bind; [exact _|apply wp_newPullError|]. intros [] w2 Hw Hn. apply wp_ret; [exact _|]. split; [|done].
    apply Hdone; [|by left]. destruct Hk as [H1 H2]. split; [done|]. intros n [?|?]%H2; [left; by eapply noted_grows|by right]. }
  destruct (global (s2l name)) as [e'|[fi|]] eqn:Hg; [by split; [apply stays_throw; exact _|]| |].
  2:{ apply wp_ret; [exact _|]. split; [|done]. apply Hdone; [by apply keeps_same|right]. unfold changed. by rewrite Hg. }
  pose proof (Hglobal _ _ Hg) as Hname.
  destruct (IsDeleted fi || IsInvalid fi || negb (fType fi =? FileInfoTypeFile)) eqn:Hch.
  { apply wp_ret; [exact _|]. split; [|done]. apply Hdone; [by apply keeps_same|right]. unfold changed. rewrite Hg.
    apply orb_true_iff in Hch as [[?|?]%orb_true_iff|H%negb_true_iff]; [by left|by right; left|right; right]. by apply Z.eqb_neq. }
  eapply wp_bind; [exact _|apply wp_checkParent|]. intros ok w1 _ Hn1. destruct ok.
  2:{ apply wp_ret; [exact _|]. split; [|done]. apply Hdone; [by apply keeps_same|left]. rewrite <-Hname. by apply Hn1. }
  cbn [negb]. eapply wp_bind; [exact _|by apply wp_try_rename|]. intros [p2 renamed] w2 _ (Hk & Hq2 & Hn2). cbn [fst snd] in *.
  destruct renamed.
  { apply wp_ret; [exact _|]. split; [|done]. apply Hdone; [done|left]. rewrite <-Hname. by apply Hn2. }
  destruct (negb (hasDevice fi)); [by apply Herr|]. destruct (available (u64 (fSize fi))) as [e'|]; [by apply Herr|].
  eapply wp_bind; [exact _|apply wp_start_file|]. intros [e'|c] w3 Hw3 Hcf.
  - eapply wp_bind; [exact _|apply wp_newPullError|]. intros [] w4 Hw4 Hn4. apply wp_ret; [exact _|]. split; [|done].
    apply Hend; [|by left; left]. destruct Hk as [H1 H2]. split; [done|].
    intros n [?|?]%H2; [left; eapply noted_grows; [|done]; by etrans|by right].
  - apply wp_ret; [exact _|]. split; [|done]. specialize (Hcf c eq_refl). apply Hend.
    + destruct Hk as [H1 H2]. split; [done|]. intros n [?|[?|[?|[?|Hn]]]]%H2; [left; by eapply noted_grows|by right; left|by right; right; left|
        by right; right; right; left|]. right. right. right. right. cbn. rewrite map_app. apply elem_of_app. by left.
    + left. right. right. right. right. cbn. rewrite map_app. apply elem_of_app. right. cbn. rewrite Hcf. apply list_elem_of_singleton.
      unfold fname in Hname. apply (f_equal l2s) in Hname. by rewrite !String.string_of_list_ascii_of_string in Hname.
Qed.
Lemma wp_finish c err w :
  wp grows (finish cfg modTimeWindow GOOS ignoreMatch sdb versioner stamp lookup_user lookup_group tempName depth c err) w (notes (fname (cFile c))).
Proof.
  unfold finish. set (m := match err with Some e => throw e | None => _ end).
  assert (Hm : wp grows m w (notes (fname (cFile c)))).
  { unfold m. destruct err as [e|]; [by split; [apply stays_throw; exact _|]|by apply wp_performFinish]. }
  clearbody m. destruct Hm as [H1 H2]. eapply wp_bind with (Q' := λ r w', r = inr tt → noted (fname (cFile c)) w'); [exact _| |].
  - split; [by apply stays_attempt|]. intros r Hr ->. rewrite attempt_world. apply attempt_result in Hr. by apply (H2 tt).
  - intros [e|[]] w1 _ Hn; [apply wp_newPullError|]. apply wp_ret; [exact _|]. by apply Hn.
Qed.
Lemma wp_delete_loop del cancelled i files w : (∀ f w, wp grows (del f) w (notes (fname f))) → (∀ i, cancelled i = false) →
  wp grows (delete_loop del cancelled i files) w (λ r w', r.2 = true ∧ ∀ f, f ∈ files → noted (fname f) w').
Proof.
  intros Hdel Hc. induction files as [|f files IH] in i, w |- *; cbn [delete_loop].
  { apply wp_ret; [exact _|]. split; [done|]. by intros f ?%elem_of_nil. }
  rewrite Hc. eapply wp_bind; [exact _|apply Hdel|]. intros [] w1 _ Hn. eapply wp_mono; [apply IH|]. intros r w2 Hw [H1 H2].
  split; [done|]. intros g [->|Hg]%elem_of_cons; [by eapply noted_grows|by apply H2].
Qed.
Lemma wp_processDeletions order cancelled p w :
  (∀ i, cancelled i = false) → Permutation (order (pFiles p)) (map snd (map_to_list (pFiles p))) →
  wp grows (processDeletions cfg modTimeWindow GOOS ignoreMatch sdb versioner stamp depth order cancelled p) w
    (λ _ w', (∀ n g, pFiles p !! n = Some g → noted (fname g) w') ∧ ∀ f, f ∈ pDirs p → noted (fname f) w').
Proof.
  intros Hc Ho. unfold processDeletions. eapply wp_bind; [exact _|apply wp_delete_loop; [|done]; intros; by apply wp_deleteFile|].
  intros [i going] w1 _ [Hg H1]. cbn in Hg. subst going. eapply wp_bind; [exact _|apply wp_delete_loop; [|done]; intros; by apply wp_deleteDir|].
  intros r w2 Hw [_ H2]. apply wp_ret; [exact _|]. split.
  - intros n g Hn. eapply noted_grows; [exact Hw|]. apply H1. rewrite Ho. apply list_elem_of_In, in_map_iff. exists (n, g). split; [done|].
    by apply list_elem_of_In, elem_of_map_to_list.
  - intros f Hf. apply H2. apply list_elem_of_In. rewrite <-in_rev. by apply list_elem_of_In.
Qed.

Abbreviation moves := (rtc (move cfg modTimeWindow GOOS ignoreMatch sdb versioner stamp lookup_user lookup_group tempName depth global hasDevice available trailer reuse)).
(** Where an item can be. *)
Definition kept (f : FileInfo) (r : round) : Prop :=
  ignored_deletion f ∨ changed (fName f) ∨ fName f ∈ map fName (rdStuck r) ∨ accounted (fName f) (rdPiles r) (rdWorld r).
Definition phase_ok (ph : phase) (r : round) : Prop :=
  match ph with
  | Sorting => True
  | Draining => rdNeeded r = []
  | Closing => rdNeeded r = [] ∧ Queue.queued (pQueue (rdPiles r)) = []
  | Over => rdNeeded r = [] ∧ pStarted (rdPiles r) = [] ∧ ∀ f, kept f r → ignored_deletion f ∨ changed (fName f) ∨ fName f ∈ map fName (rdStuck r) ∨ noted (fname f) (rdWorld r)
  end.
Definition all_kept (needed : list (ferr + FileInfo)) (pr : phase * round) : Prop :=
  files_named (rdPiles pr.2) ∧ phase_ok pr.1 pr.2 ∧ ∀ f, inr f ∈ needed → inr f ∈ rdNeeded pr.2 ∨ kept f pr.2.

Lemma kept_step f w w' p p' needed needed' stuck stuck' :
  kept f (MkRound w p needed stuck) → grows w w' → (∀ n, n ∈ map fName stuck → n ∈ map fName stuck') →
  (∀ n, place n p → accounted n p' w' ∨ changed n ∨ n ∈ map fName stuck') → kept f (MkRound w' p' needed' stuck').
Proof.
  intros [?|[?|[Hs|[Hn|Hp]]]] Hw Hst Hpl; [by left|by right; left|right; right; left; by apply Hst|
    right; right; right; left; by eapply noted_grows|].
  destruct (Hpl _ Hp) as [?|[?|?]]; [by right; right; right|by right; left|by right; right; left].
Qed.
Lemma nothing_started (before : list closing) c after : [] ≠ before ++ c :: after.
Proof. by destruct before. Qed.
Lemma place_finished p before c after q n : pStarted p = before ++ c :: after → Queue.queued q = Queue.queued (pQueue p) →
  place n p → place n (p <| pQueue := q |> <| pStarted := before ++ after |>) ∨ n = fName (cFile c).
Proof.
  intros Hst Hq [?|[?|[Hn|Hn]]]; [by left; left|by left; right; left|left; right; right; left; cbn; by rewrite Hq|].
  rewrite Hst, map_app in Hn. cbn in Hn. apply elem_of_app in Hn as [Hn|[->|Hn]%elem_of_cons]; [left|by right|left];
    right; right; right; cbn; rewrite map_app; apply elem_of_app; [by left|by right].
Qed.
Lemma all_kept_move needed pr pr' : all_kept needed pr →
  move cfg modTimeWindow GOOS ignoreMatch sdb versioner stamp lookup_user lookup_group tempName depth global hasDevice available trailer reuse pr pr' →
  all_kept needed pr'.
Proof.
  intros (Hp & Hph & Hk) Hm. destruct Hm as [f todo p w w' p' stuck E|p w stuck|p w w' p' stuck E|p w w' p' stuck E|
    ph c err before after p w w' todo stuck Hst E|ph c before after p w todo stuck Hst|order cancelled p w w' stuck Hst Ho Hc E];
    cbn [fst snd rdPiles rdNeeded rdWorld rdStuck] in *.
  - destruct (wp_sort_needed f p w Hp) as [Hw Hs]. rewrite E in Hw, Hs. cbn [fst snd] in *. destruct (Hs p' eq_refl) as [[Hp' Hpl] Hf].
    split_and!; [done|done|]. intros g Hg. destruct (Hk g Hg) as [[[= ->]|Hin]%elem_of_cons|Hkept]; [right|by left|right].
    + destruct Hf as [?|?]; [by left|by right; right; right].
    + eapply kept_step; [exact Hkept|done|done|]. intros n Hn. left. by apply Hpl.
  - split_and!; [done|done|]. intros g Hg. destruct (Hk g Hg) as [Hin|?]; [by apply elem_of_nil in Hin|by right].
  - destruct (wp_next_file p w Hp) as [Hw Hs]. rewrite E in Hw, Hs. cbn [fst snd] in *. destruct (Hs _ eq_refl) as [[Hp' Hpl] _].
    split_and!; [done|done|]. intros g Hg. destruct (Hk g Hg) as [Hin|Hkept]; [by apply elem_of_nil in Hin|right].
    eapply kept_step; [exact Hkept|done|done|]. intros n Hn. destruct (Hpl n Hn) as [?|?]; [by left|by right; left].
  - destruct (wp_next_file p w Hp) as [Hw Hs]. rewrite E in Hw, Hs. cbn [fst snd] in *. destruct (Hs _ eq_refl) as [[Hp' Hpl] Hq].
    split_and!; [done|split; [done|by apply Hq]|]. intros g Hg. destruct (Hk g Hg) as [Hin|Hkept]; [by apply elem_of_nil in Hin|right].
    eapply kept_step; [exact Hkept|done|done|]. intros n Hn. destruct (Hpl n Hn) as [?|?]; [by left|by right; left].
  - destruct (wp_finish c err w) as [Hw Hs]. rewrite E in Hw, Hs. cbn [fst snd] in *. specialize (Hs tt eq_refl).
    assert (Hkept : ∀ g, kept g (MkRound w p todo stuck) → kept g (MkRound w' (p <| pQueue := Queue.Done (pQueue p) (fName (cFile c)) |>
      <| pStarted := before ++ after |>) todo stuck)).
    { intros g Hg. eapply kept_step; [exact Hg|done|done|]. intros n Hn. left.
      destruct (place_finished _ _ _ _ (Queue.Done (pQueue p) (fName (cFile c))) n Hst eq_refl Hn) as [?| ->]; [by right|by left]. }
    split_and!; [done| |intros g Hg; destruct (Hk g Hg) as [?|?]; [by left|right; by apply Hkept]].
    destruct ph; cbn in *; [done..|]. destruct Hph as (_ & H1 & _). rewrite H1 in Hst. by apply nothing_started in Hst.
  - assert (Hkept : ∀ g, kept g (MkRound w p todo stuck) → kept g (MkRound w (p <| pStarted := before ++ after |>) todo (stuck ++ [cFile c]))).
    { intros g Hg. eapply kept_step; [exact Hg|done|intros n Hn; rewrite map_app; apply elem_of_app; by left|]. intros n Hn.
      destruct (place_finished _ _ _ _ (pQueue p) n Hst eq_refl Hn) as [?| ->]; [by left; right|right; right].
      rewrite map_app. apply elem_of_app. right. by apply list_elem_of_singleton. }
    split_and!; [done| |intros g Hg; destruct (Hk g Hg) as [?|?]; [by left|right; by apply Hkept]].
    destruct ph; cbn in *; [done..|]. destruct Hph as (_ & H1 & _). rewrite H1 in Hst. by apply nothing_started in Hst.
  - destruct (wp_processDeletions order cancelled p w Hc Ho) as [Hw Hs]. rewrite E in Hw, Hs. cbn [fst snd] in *.
    destruct (Hs tt eq_refl) as [Hfiles Hdirs]. destruct Hph as [_ Hq]. cbn in Hq.
    assert (Hrest : ∀ n, is_Some (pFiles p !! n) ∨ n ∈ map fName (pDirs p) → noted (s2l n) w').
    { intros n [[h Hh]|Hd]; [rewrite <-(Hp _ _ Hh); by apply (Hfiles _ _ Hh)|].
      apply list_elem_of_In, in_map_iff in Hd as (h & <- & Hd). apply Hdirs. by apply list_elem_of_In. }
    split_and!; [done| |].
    + split_and!; [done|done|]. cbn [rdStuck rdWorld]. intros g Hg.
      destruct Hg as [?|[?|[?|[Hn|Hpl]]]]; [by left|by right; left|by right; right; left|by right; right; right|].
      right. right. right. destruct Hpl as [?|[?|[Hn|Hn]]]; [apply Hrest; by left|apply Hrest; by right| |].
      * by apply elem_of_nil in Hn.
      * cbn in Hn. rewrite Hst in Hn. by apply elem_of_nil in Hn.
    + intros g Hg. right. destruct (Hk g Hg) as [Hin|Hkept]; [by apply elem_of_nil in Hin|].
      eapply kept_step; [exact Hkept|done|done|]. intros n [?|[?|[Hn|Hn]]]; [left; left; apply Hrest; by left|left; left; apply Hrest; by right| |].
      * rewrite Hq in Hn. by apply elem_of_nil in Hn.
      * rewrite Hst in Hn. by apply elem_of_nil in Hn.
Qed.

(** C3. A round drops nothing.  When it comes to its end, every item that was needed has
    a job for the database or an error under its name, unless it is a deletion and the
    folder ignores those, the index has no such file any more, or its temporary file
    could never be closed; so when the caller finds no jobs and no errors and takes the
    folder for being in sync, only such items were needed. *)
Theorem round_drops_nothing w needed r : moves (start_round w needed) (Over, r) →
  ∀ f, inr f ∈ needed →
  let excused := ignored_deletion f ∨ changed (fName f) ∨ fName f ∈ map fName (rdStuck r) in
  (excused ∨ noted (fname f) (rdWorld r)) ∧ (in_sync (rdWorld r) = true → excused).
Proof.
  intros Hr f Hf excused. assert (Hall : all_kept needed (Over, r)).
  { assert (H0 : all_kept needed (start_round w needed)).
    { split_and!; [intros n g Hg; cbn in Hg; by apply lookup_empty_Some in Hg|done|]. intros g Hg. by left. }
    revert H0. generalize dependent Hr. generalize (start_round w needed). intros pr Hr. remember (Over, r) as pr'. clear Heqpr'.
    induction Hr as [|? ? ? Hm _ IH]; [done|]. intros H0. apply IH. by eapply all_kept_move. }
  destruct Hall as (_ & (Hnd & _ & Hdone) & Hk). cbn [fst snd] in *. destruct (Hk f Hf) as [Hin|Hkept]; [rewrite Hnd in Hin; by apply elem_of_nil in Hin|].
  assert (Hex : excused ∨ noted (fname f) (rdWorld r)).
  { destruct (Hdone f Hkept) as [?|[?|[?|?]]]; [by left; left|by left; right; left|by left; right; right|by right]. }
  split; [done|]. unfold in_sync. intros [HJ HE]%andb_true_iff. apply Nat.eqb_eq, length_zero_iff_nil in HJ. apply bool_decide_eq_true in HE.
  destruct Hex as [?|[(j & Hj & _)|[e He]]]; [done|rewrite HJ in Hj; by apply elem_of_nil in Hj|by rewrite HE, lookup_empty in He].
Qed.
End accounting.

(** ** The updater of the database ([dbUpdaterRoutine]) *)

(** What the closure of the batch has done: the batches given to [updateLocalsFromPulling],
    the directories that were synced before each, and the calls of [ReceivedFile]. *)
Record updater := MkUpdater {
  uBatch : IndexHandler.FileInfoBatch;
  uDirs : gset path;
  uLast : option FileInfo;
  uChanged : nat;
  uFlushed : list (list FileInfo);
  uSynced : list (gset path);
  uReceived : list (string * bool);
}.
#[export] Instance eta_updater : Eta updater := λ r,
  MkUpdater (uBatch r) (uDirs r) (uLast r) (uChanged r) (uFlushed r) (uSynced r) (uReceived r).
Definition newUpdater : updater := MkUpdater IndexHandler.NewFileInfoBatch ∅ None 0 [] [] [].

Section updating.
Context (protoSize : bepFileInfo → Z) (disableFsync : bool).

Definition flush (u : updater) : updater :=
  match IndexHandler.infos (uBatch u) with
  | [] => u
  | files =>
      let u := u <| uSynced := uSynced u ++ [if disableFsync then ∅ else uDirs u] |> <| uDirs := ∅ |>
                 <| uFlushed := uFlushed u ++ [files] |> in
      let u := match uLast u with
               | Some f => u <| uReceived := uReceived u ++ [(fName f, IsDeleted f)] |> <| uLast := None |>
               | None => u
               end in
      u <| uBatch := IndexHandler.Reset (uBatch u) |>
  end.
(** The directory that a job changes. *)
Definition changed_dir (file : FileInfo) (jobType : Z) : option path :=
  if (jobType =? dbUpdateHandleFile) || (jobType =? dbUpdateShortcutFile) then Some (Dir (fname file))
  else if jobType =? dbUpdateHandleDir then Some (fname file) else None.
Definition counts_as_received (file : FileInfo) (jobType : Z) : bool :=
  negb (IsInvalid file) && negb (Z.land jobType (Z.lor dbUpdateHandleFile dbUpdateDeleteFile) =? 0).
Definition sequenced (file : FileInfo) : FileInfo := file <| fSequence := 0 |>.

Definition one_job (job : FileInfo * Z) (u : updater) : go updater :=
  let '(file, jobType) := job in
  let u := match changed_dir file jobType with Some d => u <| uDirs := {[d]} ∪ uDirs u |> | None => u end in
  let u := if counts_as_received file jobType then u <| uLast := Some file |> else u in
  let file := sequenced file in
  let! b := IndexHandler.Append protoSize (uBatch u) file in
  let u := u <| uBatch := b |> in
  let u := if IndexHandler.Full b then flush u else u in
  Ok (u <| uChanged := S (uChanged u) |>).

(** A job comes in, or the ticker fires. *)
Inductive event := Job (file : FileInfo) (jobType : Z) | Tick.
Fixpoint updates (events : list event) (u : updater) : go updater :=
  match events with
  | [] => Ok (flush u)
  | Job file jobType :: events => let! u := one_job (file, jobType) u in updates events u
  | Tick :: events => updates events (flush u)
  end.

Definition job_files (events : list event) : list FileInfo :=
  omap (λ ev, match ev with Job f _ => Some f | Tick => None end) events.
Definition to_write (u : updater) : list FileInfo := concat (uFlushed u) ++ IndexHandler.infos (uBatch u).
(** Batches that were written have one to a thousand records, the open one has room. *)
Definition batches_ok (u : updater) : Prop :=
  Forall (λ b, (0 < length b ≤ IndexHandler.MaxBatchSizeFiles)%nat) (uFlushed u) ∧
  (length (IndexHandler.infos (uBatch u)) < IndexHandler.MaxBatchSizeFiles)%nat.

Lemma flush_spec u : (length (IndexHandler.infos (uBatch u)) ≤ IndexHandler.MaxBatchSizeFiles)%nat →
  Forall (λ b, (0 < length b ≤ IndexHandler.MaxBatchSizeFiles)%nat) (uFlushed u) →
  to_write (flush u) = to_write u ∧ batches_ok (flush u) ∧ uChanged (flush u) = uChanged u ∧ IndexHandler.infos (uBatch (flush u)) = [].
Proof.
  intros Hl Hf. unfold flush, to_write, batches_ok. destruct (IndexHandler.infos (uBatch u)) as [|f files] eqn:E.
  { rewrite E. split_and!; [done|done|unfold IndexHandler.MaxBatchSizeFiles; cbn; lia|done|done]. }
  assert (Hall : Forall (λ b, (0 < length b ≤ IndexHandler.MaxBatchSizeFiles)%nat) (uFlushed u ++ [f :: files])).
  { apply Forall_app. split; [done|]. apply Forall_singleton. cbn [length] in *. lia. }
  cbn. destruct (uLast u); cbn; rewrite concat_app; cbn; rewrite !app_nil_r; (split_and!; [done|done|unfold IndexHandler.MaxBatchSizeFiles; lia|done|done]).
Qed.
Lemma one_job_spec f t u : ftruncated f = false → batches_ok u →
  ∃ u', one_job (f, t) u = Ok u' ∧ to_write u' = to_write u ++ [sequenced f] ∧ batches_ok u' ∧ uChanged u' = S (uChanged u).
Proof.
  intros Ht [Hf Hl]. unfold one_job. set (u1 := match changed_dir f t with Some d => _ | None => u end).
  set (u2 := if counts_as_received f t then _ else u1).
  assert (Hsame : uBatch u2 = uBatch u ∧ uFlushed u2 = uFlushed u ∧ uChanged u2 = uChanged u).
  { subst u2 u1. destruct (changed_dir f t), (counts_as_received f t); by cbn. }
  clearbody u2. destruct Hsame as (Hb & Hfl & Hc). unfold IndexHandler.Append.
  assert (Hw : ∃ m, FileInfo_ToWire (sequenced f) true = Ok m).
  { unfold FileInfo_ToWire, sequenced. cbn. rewrite Ht. by eexists. }
  destruct Hw as [m ->]. cbn [mbind go_bind]. set (b := IndexHandler.MkBatch _ _). set (u3 := u2 <| uBatch := b |>).
  assert (Hinfos : IndexHandler.infos b = IndexHandler.infos (uBatch u) ++ [sequenced f]) by (subst b; cbn; by rewrite Hb).
  assert (Hlen : (length (IndexHandler.infos (uBatch u3)) ≤ IndexHandler.MaxBatchSizeFiles)%nat).
  { change (uBatch u3) with b. rewrite Hinfos, length_app. cbn. lia. }
  assert (Hw3 : to_write u3 = to_write u ++ [sequenced f]).
  { unfold to_write. change (uBatch u3) with b. change (uFlushed u3) with (uFlushed u2). by rewrite Hfl, Hinfos, app_assoc. }
  assert (Hf3 : Forall (λ b, (0 < length b ≤ IndexHandler.MaxBatchSizeFiles)%nat) (uFlushed u3)) by (change (uFlushed u3) with (uFlushed u2); by rewrite Hfl).
  eexists. split; [reflexivity|]. destruct (IndexHandler.Full b) eqn:Hfull.
  - destruct (flush_spec u3 Hlen Hf3) as (H1 & [H2 H3] & H4 & _). cbn. split_and!; [|exact (conj H2 H3)|].
    + unfold to_write in *. cbn. by rewrite <-Hw3.
    + rewrite H4. change (uChanged u3) with (uChanged u2). by rewrite Hc.
  - split; [exact Hw3|]. split; [split; [exact Hf3|]|cbn; by rewrite Hc]. cbn. change (length (IndexHandler.infos b) < IndexHandler.MaxBatchSizeFiles)%nat.
    unfold IndexHandler.Full in Hfull. apply orb_false_iff in Hfull as [Hfull _]. by apply Nat.leb_gt.
Qed.

(** C39. Every job reaches the database once, in order and with its sequence number
    cleared, in batches of one to a thousand records, and is counted; the updater never
    fails as long as the records are complete. *)
Theorem updates_complete events :
  Forall (λ f, ftruncated f = false) (job_files events) →
  ∃ u, updates events newUpdater = Ok u ∧ concat (uFlushed u) = map sequenced (job_files events) ∧
    uChanged u = length (job_files events) ∧
    Forall (λ b, (0 < length b ≤ IndexHandler.MaxBatchSizeFiles)%nat) (uFlushed u).
Proof.
  intros Ht. assert (H : ∀ u, batches_ok u → ∃ u', updates events u = Ok u' ∧ concat (uFlushed u') = to_write u ++ map sequenced (job_files events) ∧
    uChanged u' = (uChanged u + length (job_files events))%nat ∧ Forall (λ b, (0 < length b ≤ IndexHandler.MaxBatchSizeFiles)%nat) (uFlushed u')).
  2:{ destruct (H newUpdater) as (u & H1 & H2 & H3 & H4); [split; [by constructor|cbn; unfold IndexHandler.MaxBatchSizeFiles; lia]|]. by exists u. }
  induction events as [|[f t|] events IH]; intros u Hu; cbn [updates].
  - destruct Hu as [H1 H2]. destruct (flush_spec u) as (H3 & [H4 H5] & H6 & H7); [lia|done|]. exists (flush u). split_and!; [done| |cbn; lia|done].
    unfold to_write in *. by rewrite H7, app_nil_r in H3; rewrite H3, app_nil_r.
  - change (job_files (Job f t :: events)) with (f :: job_files events) in *. apply Forall_cons in Ht as [Hf Ht]. destruct (one_job_spec f t u Hf Hu) as (u1 & -> & H1 & H2 & H3). cbn [mbind go_bind].
    destruct (IH Ht u1 H2) as (u' & H4 & H5 & H6 & H7). exists u'. split_and!; [done| | |done].
    + rewrite H5, H1. cbn. by rewrite <-app_assoc.
    + rewrite H6, H3. cbn [length]. lia.
  - destruct Hu as [H1 H2]. destruct (flush_spec u) as (H3 & H4 & H5 & _); [lia|done|].
    destruct (IH Ht (flush u) H4) as (u' & H6 & H7 & H8 & H9). exists u'. split_and!; [done|by rewrite H7, H3|by rewrite H8, H5|done].
Qed.
End updating.

Lemma updates_complete_witness :
  ∃ u, updates (λ _, 300000) false [Job (sample_record "a.txt" 3 1) dbUpdateHandleFile; Tick; Job (sample_record "b.txt" 9 1) dbUpdateDeleteDir] newUpdater = Ok u ∧
    concat (uFlushed u) = [sample_record "a.txt" 3 1; sample_record "b.txt" 9 1].
Proof.
  destruct (updates_complete (λ _, 300000) false [Job (sample_record "a.txt" 3 1) dbUpdateHandleFile; Tick; Job (sample_record "b.txt" 9 1) dbUpdateDeleteDir]
    ltac:(by repeat constructor)) as (u & H1 & H2 & _). exists u. by split.
Defined.
(** The kinds of jobs are numbers, but they are tested as bits: of a directory that is
    deleted it is told that a file was received. *)
Example directories_received :
  counts_as_received (sample_record "d" 0 1) dbUpdateDeleteDir = true ∧ counts_as_received (sample_record "l" 0 1) dbUpdateHandleSymlink = true ∧
  counts_as_received (sample_record "d" 0 1) dbUpdateHandleDir = false.
Proof. by vm_compute. Qed.

(** *** A round in the sample folder

    a.txt is to be deleted and c.txt, with the same blocks, to be made: it is renamed. *)
#[local] Existing Instance ascii_fold.
Definition gone_record : FileInfo := (sample_record "a.txt" 0 2) <| fDeleted := true |>.
Definition new_record : FileInfo := sample_record "c.txt" 3 1.
Definition sample_needed : list (ferr + FileInfo) := [inr gone_record; inr new_record].
Definition sample_global (p : path) : ferr + option FileInfo :=
  inr (if bool_decide (p = s2l "c.txt") then Some new_record else None).
Definition sample_temp (p : path) : path := s2l ".syncthing." ++ p ++ s2l ".tmp".

Abbreviation sample_sort := (sort_needed (F := MapDisk) (sample_cfg 10) 0 "linux" (λ _, 0) sample_db None sample_stamp (λ _, None) (λ _, None) 9 (λ _ _, mret 0)).
Abbreviation sample_next := (next_file (F := MapDisk) (sample_cfg 10) 0 "linux" (λ _, 0) sample_db None sample_stamp (λ _, None) (λ _, None) sample_temp 9
  sample_global (λ _, true) (λ _, None) (λ _, mret false)).
Abbreviation sample_deletions := (processDeletions (F := MapDisk) (sample_cfg 10) 0 "linux" (λ _, 0) sample_db None sample_stamp 9
  (λ m, map snd (map_to_list m)) (λ _, false)).
Definition piles_of {A} (f : A → piles) (r : ferr + A) : piles := match r with inr a => f a | inl _ => no_piles end.
Definition w0 : world (F := MapDisk) := rdWorld (start_round (F := MapDisk) sample_world sample_needed).2.
Definition w1 : world (F := MapDisk) := (sample_sort gone_record no_piles w0).1.
Definition p1 : piles := piles_of (λ p, p) (sample_sort gone_record no_piles w0).2.
Definition w2 : world (F := MapDisk) := (sample_sort new_record p1 w1).1.
Definition p2 : piles := piles_of (λ p, p) (sample_sort new_record p1 w1).2.
Definition w3 : world (F := MapDisk) := (sample_next p2 w2).1.
Definition p3 : piles := piles_of fst (sample_next p2 w2).2.
Definition w4 : world (F := MapDisk) := (sample_next p3 w3).1.
Definition p4 : piles := piles_of fst (sample_next p3 w3).2.
Definition w5 : world (F := MapDisk) := (sample_deletions p4 w4).1.
Definition sample_end : round (F := MapDisk) := MkRound (F := MapDisk) w5 (p4 <| pQueue := Queue.newJobQueue |>) [] [].
Example sample_renamed :
  outcome w5 = (["d/x"; "c.txt"; "b.txt"; ".syncthing.a.txt.tmp"; "l"; "d"; "."], [], [dbUpdateHandleFile; dbUpdateDeleteFile])%string.
Proof. by vm_compute. Qed.

Lemma ends_in {A} (m : M (F := MapDisk) A) w a : (m w).2 = inr a → m w = ((m w).1, inr a).
Proof. intros <-. apply surjective_pairing. Qed.
Lemma sorted1 : sample_sort gone_record no_piles w0 = (w1, inr p1).
Proof. unfold w1. apply (ends_in (sample_sort gone_record no_piles)). by vm_compute. Qed.
Lemma sorted2 : sample_sort new_record p1 w1 = (w2, inr p2).
Proof. unfold w2. apply (ends_in (sample_sort new_record p1)). by vm_compute. Qed.
Lemma next1 : sample_next p2 w2 = (w3, inr (p3, true)).
Proof. unfold w3. apply (ends_in (sample_next p2)). by vm_compute. Qed.
Lemma next2 : sample_next p3 w3 = (w4, inr (p4, false)).
Proof. unfold w4. apply (ends_in (sample_next p3)). by vm_compute. Qed.
Lemma deleted1 : sample_deletions p4 w4 = (w5, inr tt).
Proof. unfold w5. apply (ends_in (sample_deletions p4)). by vm_compute. Qed.
Lemma nothing_started1 : pStarted p4 = [].
Proof. by vm_compute. Qed.
Abbreviation sample_move := (move (F := MapDisk) (sample_cfg 10) 0 "linux" (λ _, 0) sample_db None sample_stamp (λ _, None) (λ _, None) sample_temp 9
  sample_global (λ _, true) (λ _, None) (λ _ _, mret 0) (λ _, mret false)).
Lemma sample_moves : rtc sample_move (start_round (F := MapDisk) sample_world sample_needed) (Over, sample_end).
Proof.
  eapply rtc_l; [exact (move_sort (F := MapDisk) _ _ _ _ _ _ _ _ _ _ _ _ _ _ _ _ gone_record [inr new_record] no_piles w0 w1 p1 [] sorted1)|].
  eapply rtc_l; [exact (move_sort (F := MapDisk) _ _ _ _ _ _ _ _ _ _ _ _ _ _ _ _ new_record [] p1 w1 w2 p2 [] sorted2)|].
  eapply rtc_l; [exact (move_sorted (F := MapDisk) _ _ _ _ _ _ _ _ _ _ _ _ _ _ _ _ p2 w2 [])|].
  eapply rtc_l; [exact (move_next (F := MapDisk) _ _ _ _ _ _ _ _ _ _ _ _ _ _ _ _ p2 w2 w3 p3 [] next1)|].
  eapply rtc_l; [exact (move_drained (F := MapDisk) _ _ _ _ _ _ _ _ _ _ _ _ _ _ _ _ p3 w3 w4 p4 [] next2)|].
  apply rtc_once. exact (move_delete (F := MapDisk) _ _ _ _ _ _ _ _ _ _ _ _ _ _ _ _ (λ m, map snd (map_to_list m)) (λ _, false) p4 w4 w5 []
    nothing_started1 (reflexivity _) (λ _, eq_refl) deleted1).
Qed.
Lemma sample_global_names p fi : sample_global p = inr (Some fi) → fname fi = p.
Proof. unfold sample_global. case_bool_decide as E; [|done]. by intros [= <-]. Qed.
Lemma round_drops_nothing_witness :
  (ignored_deletion (sample_cfg 10) new_record ∨ changed sample_global (fName new_record) ∨ fName new_record ∈ map fName (rdStuck sample_end)) ∨
  noted (fname new_record) (rdWorld sample_end).
Proof.
  exact (proj1 (round_drops_nothing (F := MapDisk) (sample_cfg 10) 0 "linux" (λ _, 0) sample_db None sample_stamp (λ _, None) (λ _, None) sample_temp 9
    sample_global (λ _, true) (λ _, None) (λ _ _, mret 0) (λ _, mret false) (λ _ H, ltac:(discriminate H)) (λ _ _ _, conj eq_refl (conj eq_refl eq_refl))
    (λ _ _, conj eq_refl (conj eq_refl eq_refl)) sample_global_names sample_world sample_needed sample_end sample_moves new_record
    ltac:(by right; left))).
Defined.
