(* ===== verification/Scanner.v ===== *)
(** * Scanning a folder ([src/lib/scanner/walk.go], [blockqueue.go])

    The scanner walks a folder and compares every item with the record of the local
    database.  Items that differ get a new record with a new version; regular files are
    hashed first.  Items that match an ignore pattern are passed over, but below an
    ignored directory there may be items that are not, and then the directories that lead
    to them are reported too.  The file translates the walk over the file system of
    Disk and proves that a scan misses nothing: each item below the root that is not
    ignored, temporary or internal is as the database says, or reported, or an error
    is reported for it or for a directory above it. *)
From S2P Require Import Prelude GoLib Vector Platform FileInfo Paths Disk MapDisk.
From S2P Require Ignore Copier.
From Stdlib Require Import Ascii.
From Stdlib Require String.

Local Open Scope Z_scope.

(** [utf8.ValidString] *)
Fixpoint valid_utf8_loop (n : nat) (s : path) : bool :=
  match n, s with
  | _, [] => true
  | O, _ => false
  | S n, c :: _ =>
      let k := Ignore.rune_len s in
      negb ((k =? 1)%nat && (128 <=? byte_val c)) && valid_utf8_loop n (drop k s)
  end.
Definition ValidString (s : path) : bool := valid_utf8_loop (length s) s.

(** ** Data *)
Record Config := MkConfig {
  Subs : list path;
  TempLifetime : Z;
  cIgnorePerms : bool;
  AutoNormalize : bool;
  ShortID : Z;
  cLocalFlags : Z;
  cModTimeWindow : Z;
  ScanOwnership : bool;
  ScanXattrs : bool;
  cXattrFilter : xattrFilter;
}.

Inductive ScanResult := Scanned (f : FileInfo) | Failed (p : path) (e : ferr).

(** The highest ignored directory above, the files that go to the hashers and the
    results that are sent at once. *)
Record walked := MkWalked { ignoredParent : path; toHash : list FileInfo; finished : list ScanResult }.
#[export] Instance eta_walked : Eta walked := λ r, MkWalked (ignoredParent r) (toHash r) (finished r).
Definition nothing_walked : walked := MkWalked [] [] [].

Definition errUTF8Invalid : ferr := ErrText "item is not in UTF8 encoding".
Definition errUTF8Normalization : ferr := ErrText "item is not in the correct UTF8 normalization form".
Definition errUTF8Conflict : ferr := ErrText "item has UTF8 encoding conflict with another item".

Definition to_hash (f : FileInfo) (l : walked) : walked := l <| toHash := toHash l ++ [f] |>.
Definition finish_with (r : ScanResult) (l : walked) : walked := l <| finished := finished l ++ [r] |>.
Definition handleError (context : string) (p : path) (e : ferr) (l : walked) : walked :=
  finish_with (Failed p (Wrapped context e)) l.

Section walker.
Context {F : Filesystem}.
(** The configuration, the system, the ignore patterns, the records of the local
    device, the normal form of names, whether two items are one, reading a file, the
    time at the start of the walk and when an item's version is updated, and how far a
    walk may go down. *)
Context (cfg : Config) (GOOS : string) (ignoreMatch : path → Z) (CurrentFile : path → option FileInfo).
Context (norm : path → path) (SameFile : item → item → bool) (read_file : path → disk → fsres disk (list Z)).
Context (sha256 : list Z → list Z) (now : Z) (clock : path → Z) (depth : nat).

(** ** Records of items *)
Definition updateFileInfo (p : path) (dst src : FileInfo) : FileInfo :=
  let dst :=
    if (fType dst =? FileInfoTypeFile) && IsWindows GOOS
    then dst <| fPermissions := Z.lor (fPermissions dst) (Z.land (fPermissions src) 73) |> else dst in
  dst <| fVersion := Update (fVersion src) (ShortID cfg) (clock p) |>
      <| fModifiedBy := ShortID cfg |>
      <| fLocalFlags := cLocalFlags cfg |>
      <| fPreviousBlocksHash := fBlocksHash src |>
      <| fPlatform := MergeWith (fPlatform dst) (fPlatform src) |>.

Definition scan_comparison : FileInfoComparison :=
  MkFileInfoComparison (cModTimeWindow cfg) (cIgnorePerms cfg) true (cLocalFlags cfg)
    (negb (ScanOwnership cfg)) (negb (ScanXattrs cfg)).

(** What is done with the record [f] of an item once it is made; [bare] says that the
    item has no platform data of its own, which makes the pointers those of the record. *)
Definition if_changed (cur : option FileInfo) (bare : bool) (f : FileInfo) : option FileInfo :=
  match cur with
  | None => Some f
  | Some curFile =>
      if IsEquivalentOptional GOOS bare curFile f scan_comparison then None
      else if ShouldConflict curFile && negb (ShouldConflict f)
           then Some (f <| fVersion := DropOthers (fVersion f) (ShortID cfg) |>)
           else Some f
  end.

Definition create (p : path) (info : item) : M FileInfo :=
  CreateFileInfo info p (ScanOwnership cfg) (ScanXattrs cfg) (cXattrFilter cfg).
Definition is_bare (f : FileInfo) : bool := bool_decide (fPlatform f = no_platform).

(** The size of blocks stays when it is within a factor of two. *)
Definition retained_block_size (cur : option FileInfo) (size : Z) : Z :=
  let blockSize := BlockSize size in
  match cur with
  | None => blockSize
  | Some curFile =>
      let curBlockSize := FileInfo_BlockSize curFile in
      if (curBlockSize <? blockSize) && (blockSize / curBlockSize <=? 2) then curBlockSize
      else if (blockSize <? curBlockSize) && (curBlockSize / blockSize <=? 2) then curBlockSize
      else blockSize
  end.

Definition walkRegular (p : path) (info : item) : M (option FileInfo) :=
  let cur := CurrentFile p in
  let blockSize := retained_block_size cur (Size_of info) in
  let! f := create p info in
  let bare := is_bare f in
  let f := updateFileInfo p f (default (zero_record "") cur) in
  let f := f <| fNoPermissions := cIgnorePerms cfg |> <| fRawBlockSize := i32 blockSize |> in
  mret (if_changed cur bare f).
Definition walkDir (p : path) (info : item) : M (option FileInfo) :=
  let cur := CurrentFile p in
  let! f := create p info in
  let bare := is_bare f in
  let f := updateFileInfo p f (default (zero_record "") cur) in
  let f := f <| fNoPermissions := cIgnorePerms cfg |> in
  mret (if_changed cur bare f).
Definition walkSymlink (p : path) (info : item) : M (option FileInfo) :=
  if IsWindows GOOS then mret None
  else
    let! f := create p info in
    let cur := CurrentFile p in
    let bare := is_bare f in
    let f := updateFileInfo p f (default (zero_record "") cur) in
    mret (if_changed cur bare f).

Definition handleItem (p : path) (info : item) (l : walked) : M walked :=
  if IsLink info then
    let! r := walkSymlink p info in
    mret (match r with Some f => finish_with (Scanned f) l | None => l end)
  else if IsDir info then
    let! r := walkDir p info in
    mret (match r with Some f => finish_with (Scanned f) l | None => l end)
  else
    let! r := walkRegular p info in
    mret (match r with Some f => to_hash f l | None => l end).

(** ** Visiting an item *)
Definition applyNormalization (p normPath : path) (info : item) : M path :=
  let! normInfo := attempt (Lstat normPath) in
  match normInfo with
  | inl e =>
      if IsNotExist e then
        let! _ := call (fs_Rename p normPath) in mret normPath
      else throw errUTF8Conflict
  | inr normInfo =>
      if SameFile info normInfo then
        let tempPath := TempNameWithPrefix sha256 normPath [] in
        let! _ := call (fs_Rename p tempPath) in
        let! r := attempt (call (fs_Rename tempPath normPath)) in
        match r with inl _ => mret tempPath | inr _ => mret normPath end
      else throw errUTF8Conflict
  end.

(** The result of a visit: whether a directory is left out. *)
Definition skip_of (info : ferr + item) : option ferr :=
  match info with inr i => if IsDir i then Some SkipDir else None | inl _ => None end.

Definition handle_or_fail (at_ : path) (info : item) (p : path) (skip : option ferr) (l : walked)
    : M (walked * option ferr) :=
  let! r := attempt (handleItem at_ info l) in
  match r with
  | inl e => mret (handleError "scan" p e l, skip)
  | inr l => mret (l, None)
  end.

(** The ignored directories above the item at [p], which is not ignored, and the item. *)
Fixpoint handle_parents (names : list path) (p : path) (skip : option ferr) (l : walked) : M (walked * option ferr) :=
  match names with
  | [] => mret (l <| ignoredParent := [] |>, None)
  | name :: names =>
      let parent := Join [ignoredParent l; name] in
      let l := l <| ignoredParent := parent |> in
      let! info := attempt (Lstat parent) in
      match info with
      | inl e => mret (handleError "scan" parent e l, skip)
      | inr info =>
          let! (l, failed) := handle_or_fail parent info p (Some SkipDir) l in
          match failed with Some _ => mret (l, skip) | None => handle_parents names p skip l end
      end
  end.

Definition visit_item (p : path) (info : item) (skip : option ferr) (l : walked) : M (walked * option ferr) :=
  if bool_decide (ignoredParent l = []) then handle_or_fail p info p skip l
  else
    let rel := Ignore.TrimPrefix p (ignoredParent l ++ [sep]) in
    if bool_decide (rel = p) then handle_or_fail p info p skip (l <| ignoredParent := [] |>)
    else handle_parents ([] :: PathComponents rel) p skip l.

Definition remove_temporary (p : path) (info : ferr + item) : M unit :=
  match info with
  | inr i => if IsRegular i && (iTime i + TempLifetime cfg <? now)
             then let! _ := attempt (Remove p) in mret tt else mret tt
  | inl _ => mret tt
  end.

(** The function the walk calls for each item, and for those that cannot be read. *)
Definition visit (p : path) (info : ferr + item) (l : walked) : M (walked * option ferr) :=
  let skip := skip_of info in
  if negb (ValidString p) then mret (handleError "scan" p errUTF8Invalid l, skip)
  else if IsTemporary p then let! _ := remove_temporary p info in mret (l, None)
  else if IsInternal p then mret (l, skip)
  else
    let nonNormPath := p in
    let p := norm p in
    let m := ignoreMatch p in
    match info with
    | inl e =>
        if Ignore.IsIgnored m || IsNotExist e then mret (l, skip) else mret (handleError "scan" p e l, skip)
    | inr info =>
        if Ignore.IsIgnored m then
          if Ignore.CanSkipDir m || IsLink info then mret (l, skip)
          else if IsDir info && (bool_decide (ignoredParent l = []) || negb (IsParent p (ignoredParent l)))
          then mret (l <| ignoredParent := p |>, None)
          else mret (l, None)
        else if bool_decide (p = dot) then mret (l, None)
        else if bool_decide (p = nonNormPath) then visit_item p info skip l
        else if negb (AutoNormalize cfg) then
          mret (handleError "normalizing path" nonNormPath errUTF8Normalization l, skip)
        else
          let! r := attempt (applyNormalization nonNormPath p info) in
          match r with
          | inl e => mret (handleError "normalizing path" nonNormPath e l, skip)
          | inr p => visit_item p info skip l
          end
    end.

(** ** The scan *)
Fixpoint scan_subs (subs : list path) (l : walked) : M walked :=
  match subs with
  | [] => mret l
  | sub :: subs =>
      let! t := attempt (TraversesSymlink (Dir sub)) in
      match t with
      | inl _ => scan_subs subs l
      | inr _ => let! (l, _) := Walk visit depth sub l in scan_subs subs l
      end
  end.
Definition scan_items : M walked :=
  match Subs cfg with
  | [] => let! (l, _) := Walk visit depth dot nothing_walked in mret l
  | subs => scan_subs subs nothing_walked
  end.

(** One file of a hasher; its size becomes that of what was read. *)
Definition hash_file (f : FileInfo) : M ScanResult :=
  let name := s2l (fName f) in
  let! data := attempt (call (read_file name)) in
  match data with
  | inl e => mret (Failed name (Wrapped "hashing" e))
  | inr data =>
      let blocks := Copier.Blocks sha256 data (FileInfo_BlockSize f) (Z.of_nat (length data)) in
      mret (Scanned (f <| fBlocks := blocks |> <| fBlocksHash := BlocksHash sha256 blocks |>
                       <| fSize := fold_left (λ s b, i64 (s + bSize b)) blocks 0 |>))
  end.
Fixpoint hash_files (fs : list FileInfo) : M (list ScanResult) :=
  match fs with
  | [] => mret []
  | f :: fs => let! r := hash_file f in let! rs := hash_files fs in mret (r :: rs)
  end.

(** What arrives on the channel of results; the order there is any. *)
Definition Walk_results : M (list ScanResult) :=
  let! l := scan_items in
  let! hashed := hash_files (toHash l) in
  mret (finished l ++ hashed).
Definition WalkWithoutHashing : M (list ScanResult) :=
  let! l := scan_items in mret (finished l ++ map Scanned (toHash l)).
End walker.

(** ** What a scan does to the disk

    Old temporary files are removed; names are put into normal form when they are not. *)
Class ListingLaws (F : Filesystem) : Prop := {
  DirNames_all es d names name : Forall normal es → direct (view d) (build false es) →
    (fs_DirNames (build false es) d).2 = inr names → normal name → is_Some (view d !! Join [build false es; name]) → name ∈ names;
  DirNames_gone p d e : (fs_DirNames p d).2 = inl e → IsNotExist e = true → view d !! p = None;
}.

Section reasoning.
Context {F : Filesystem} {FL : FilesystemLaws F}.
Abbreviation vw w := (view (wDisk w)).

Definition only_temps (w w' : world) : Prop := ∀ q,
  vw w' !! q = vw w !! q ∨ (IsTemporary q = true ∧ vw w' !! q = None ∧ ∃ i, vw w !! q = Some i ∧ IsDir i = false).
#[export] Instance only_temps_preorder : PreOrder only_temps.
Proof.
  split; [by left|]. intros w1 w2 w3 H1 H2 q.
  destruct (H1 q) as [E1|(Ht & E1 & i & Hi & Hd)], (H2 q) as [E2|(Ht' & E2 & i' & Hi' & Hd')].
  - left. congruence.
  - right. split_and!; [done..|]. exists i'. split; [congruence|done].
  - right. split_and!; [done|congruence|by exists i].
  - congruence.
Qed.
Lemma temps_same w w' : vw w' = vw w → only_temps w w'.
Proof. intros E q. left. by rewrite E. Qed.
Lemma temps_dir w w' q i : only_temps w w' → vw w !! q = Some i → IsDir i = true → vw w' !! q = Some i.
Proof. intros H Hi Hd. destruct (H q) as [->|(_ & _ & j & Hj & Hdj)]; [done|]. congruence. Qed.
Lemma temps_named w w' q i : only_temps w w' → vw w !! q = Some i → IsTemporary q = false → vw w' !! q = Some i.
Proof. intros H Hi Ht. destruct (H q) as [->|(Ht' & _)]; [done|congruence]. Qed.
Lemma temps_back w w' q i : only_temps w w' → vw w' !! q = Some i → vw w !! q = Some i.
Proof. intros H Hi. destruct (H q) as [<-|(_ & E & _)]; [done|congruence]. Qed.
Lemma temps_direct w w' p : only_temps w w' → direct (vw w) p → direct (vw w') p.
Proof. intros H Hd q x l E Hl. eapply Hd; [exact E|by eapply temps_back]. Qed.

(** The computation has a result, which satisfies the condition. *)
Definition total {A} (m : M A) (w : world) (Q : A → world → Prop) : Prop :=
  only_temps w (m w).1 ∧ ∃ a, (m w).2 = inr a ∧ Q a (m w).1.
Lemma total_ret {A} (a : A) w (Q : A → world → Prop) : Q a w → total (mret a) w Q.
Proof. intros H. split; [done|by exists a]. Qed.
Lemma total_bind {A B} (m : M A) (k : A → M B) w Q Q' :
  total m w Q' → (∀ a w', only_temps w w' → Q' a w' → total (k a) w' Q) → total (m ≫= k) w Q.
Proof.
  unfold total, mbind, M_bind. intros (H1 & a & Ha & HQ) Hk. destruct (m w) as [w1 r]. cbn in *. subst r.
  destruct (Hk a w1 H1 HQ) as [H2 H3]. split; [by etrans|done].
Qed.
Lemma total_attempt {A} (m : M A) w (Q : ferr + A → world → Prop) :
  stays only_temps m w → Q (m w).2 (m w).1 → total (attempt m) w Q.
Proof. unfold stays, total, attempt. destruct (m w) as [w1 r]. intros H1 H2. split; [done|by exists r]. Qed.
Lemma total_mono {A} (m : M A) w (Q Q' : A → world → Prop) :
  total m w Q → (∀ a w', only_temps w w' → Q a w' → Q' a w') → total m w Q'.
Proof. intros (H1 & a & Ha & HQ) H. split; [done|]. exists a. split; [done|by apply H]. Qed.

Lemma temps_call {A} (op : disk → fsres disk A) w : readonly op → stays only_temps (call op) w.
Proof. intros H. apply temps_same. by rewrite call_view, H. Qed.
Lemma total_Lstat p w (Q : ferr + item → world → Prop) :
  (∀ r w', vw w' = vw w → (∀ i, r = inr i → direct (vw w) p → vw w !! p = Some i) →
     (∀ e, r = inl e → IsNotExist e = true → vw w !! p = None) →
     (∃ d, view d = vw w ∧ (fs_Lstat p d).2 = r) → Q r w') → total (attempt (Lstat p)) w Q.
Proof.
  intros H. apply total_attempt; [apply temps_call, Lstat_reads|]. unfold Lstat. rewrite call_result.
  apply H; [by rewrite call_view, Lstat_reads|..].
  - intros i E Hd. by eapply Lstat_item.
  - intros e E He. eapply Lstat_gone; [exact E|]. unfold is_gone. by rewrite He.
  - by eexists.
Qed.
Lemma total_DirNames p w (Q : ferr + list path → world → Prop) :
  (∀ r w', vw w' = vw w → (∃ d, view d = vw w ∧ (fs_DirNames p d).2 = r) → Q r w') →
  total (attempt (call (fs_DirNames p))) w Q.
Proof.
  intros H. apply total_attempt; [apply temps_call, DirNames_reads|]. rewrite call_result.
  apply H; [by rewrite call_view, DirNames_reads|by eexists].
Qed.
End reasoning.

(** ** What a scan reports *)
Section reports.
Context {F : Filesystem} {FL : FilesystemLaws F}.
Context (cfg : Config) (GOOS : string) (ignoreMatch : path → Z) (CurrentFile : path → option FileInfo).
Context (norm : path → path) (SameFile : item → item → bool) (read_file : path → disk → fsres disk (list Z)).
Context (sha256 : list Z → list Z) (now : Z) (clock : path → Z) (depth : nat).
Abbreviation vw w := (view (wDisk w)).
Abbreviation visit_ := (visit cfg GOOS ignoreMatch CurrentFile norm SameFile sha256 now clock).
Abbreviation handleItem_ := (handleItem cfg GOOS CurrentFile clock).

(** The record of an item: what it is, and a version that counts this scan. *)
Record describes (p : path) (i : item) (f : FileInfo) : Prop := {
  d_name : fName f = l2s p;
  d_type : fType f = if IsLink i then FileInfoTypeSymlink else if IsDir i then FileInfoTypeDirectory else FileInfoTypeFile;
  d_time : IsLink i = false → fModifiedS f = iTime i / 1000000000 ∧ fModifiedNs f = iTime i mod 1000000000;
  d_mode : IsLink i = false → IsWindows GOOS = false → fPermissions f = Z.land (iMode i) ModePerm;
  d_present : fDeleted f = false;
  d_flags : fLocalFlags f = cLocalFlags cfg;
  d_by : fModifiedBy f = ShortID cfg;
  d_version : let v := Update (fVersion (default (zero_record "") (CurrentFile p))) (ShortID cfg) (clock p) in
    fVersion f = v ∨ fVersion f = DropOthers v (ShortID cfg);
}.

(** The record of the local device stands for the item as it is. *)
Definition unchanged (p : path) (i : item) : Prop := ∃ cur f bare,
  CurrentFile p = Some cur ∧ describes p i f ∧ (IsRegular i = true → fSize f = Size_of i) ∧
  IsEquivalentOptional GOOS bare cur f (scan_comparison cfg) = true.

Definition reported (p : path) (i : item) (l : walked) : Prop := ∃ f, describes p i f ∧
  if IsLink i || IsDir i then Scanned f ∈ finished l else f ∈ toHash l.
(** Links are not followed up on Windows. *)
Definition accounted (p : path) (i : item) (l : walked) : Prop :=
  (IsLink i = true ∧ IsWindows GOOS = true) ∨ unchanged p i ∨ reported p i l.

Definition grows (l l' : walked) : Prop := finished l ⊆ finished l' ∧ toHash l ⊆ toHash l'.
#[export] Instance grows_preorder : PreOrder grows.
Proof. split; [by split|]. intros l1 l2 l3 [H1 H2] [H3 H4]. by split; etrans. Qed.
Lemma grows_finish r l : grows l (finish_with r l).
Proof. split; [|done]. intros x Hx. apply elem_of_app. by left. Qed.
Lemma grows_hash f l : grows l (to_hash f l).
Proof. split; [done|]. intros x Hx. apply elem_of_app. by left. Qed.
Lemma reported_grows p i l l' : grows l l' → reported p i l → reported p i l'.
Proof. intros [H1 H2] (f & Hf & Hin). exists f. split; [done|]. destruct (_ || _); auto. Qed.
Lemma accounted_grows p i l l' : grows l l' → accounted p i l → accounted p i l'.
Proof. intros H [?|[?|?]]; [by left|by right; left|right; right; by eapply reported_grows]. Qed.

(** *** The record of one item *)
Lemma create_spec p info w : stays only_temps (create cfg p info) w ∧
  ∀ f, (create cfg p info w).2 = inr f →
    fName f = l2s p ∧ fDeleted f = false ∧
    fType f = (if IsLink info then FileInfoTypeSymlink else if IsDir info then FileInfoTypeDirectory else FileInfoTypeFile) ∧
    (IsLink info = false → fModifiedS f = iTime info / 1000000000 ∧ fModifiedNs f = iTime info mod 1000000000 ∧
       fPermissions f = Z.land (iMode info) ModePerm) ∧
    (IsRegular info = true → fSize f = Size_of info).
Proof.
  assert (Hrest : ∀ plat w1, vw w1 = vw w →
    let m := (if IsLink info then
        let! target := call (fs_ReadSymlink p) in
        mret ((zero_record (l2s p)) <| fPlatform := plat |> <| fType := FileInfoTypeSymlink |>
                <| fSymlinkTarget := target |> <| fNoPermissions := true |>)
      else
        let f := (zero_record (l2s p)) <| fPlatform := plat |> <| fPermissions := Z.land (iMode info) ModePerm |>
               <| fModifiedS := iTime info / 1000000000 |> <| fModifiedNs := iTime info mod 1000000000 |> in
        if IsDir info then mret (f <| fType := FileInfoTypeDirectory |>)
        else mret (f <| fSize := Size_of info |> <| fType := FileInfoTypeFile |>)) : M FileInfo in
    vw (m w1).1 = vw w ∧ ∀ f, (m w1).2 = inr f → fName f = l2s p ∧ fDeleted f = false ∧
      fType f = (if IsLink info then FileInfoTypeSymlink else if IsDir info then FileInfoTypeDirectory else FileInfoTypeFile) ∧
      (IsLink info = false → fModifiedS f = iTime info / 1000000000 ∧ fModifiedNs f = iTime info mod 1000000000 ∧
         fPermissions f = Z.land (iMode info) ModePerm) ∧
      (IsRegular info = true → fSize f = Size_of info)).
  { intros plat w1 Hw1. cbv zeta. unfold IsRegular. destruct (IsLink info).
    - unfold mbind, M_bind. pose proof (call_view (fs_ReadSymlink p) w1) as Hv. rewrite ReadSymlink_reads in Hv.
      destruct (call (fs_ReadSymlink p) w1) as [w2 [e|t]]; cbn in *; (split; [congruence|]); [done|].
      intros f [= <-]. split_and!; try done. cbn. by rewrite andb_false_r.
    - destruct (IsDir info); (split; [done|]); intros f [= <-]; by split_and!. }
  assert (Hbind : ∀ A B (m : M A) (k : A → M B), (m ≫= k) w = (let '(w1, r) := m w in
    match r with inr a => k a w1 | inl e => (w1, inl e) end)) by (intros A B m k; unfold mbind, M_bind; by destruct (m w) as [? []]).
  unfold stays, create, CreateFileInfo. set (plat := if _ || _ then _ else _).
  assert (Hp : vw (plat w).1 = vw w).
  { unfold plat. destruct (_ || _); [|done]. unfold wrap.
    pose proof (call_view (fs_PlatformData p (ScanOwnership cfg) (ScanXattrs cfg) (cXattrFilter cfg)) w) as Hv. rewrite PlatformData_reads in Hv.
    by destruct (call _ w) as [w1 []]. }
  rewrite Hbind. destruct (plat w) as [w1 [e|pl]]; cbn [fst] in Hp; [split; [by apply temps_same|intros f Hf; discriminate Hf]|].
  destruct (Hrest pl w1 Hp) as [H1 H2]. split; [by apply temps_same|exact H2].
Qed.

(** The fields of a record that stand for the item and the scan. *)
Lemma updated_describes p info f : fName f = l2s p → fDeleted f = false →
  fType f = (if IsLink info then FileInfoTypeSymlink else if IsDir info then FileInfoTypeDirectory else FileInfoTypeFile) →
  (IsLink info = false → fModifiedS f = iTime info / 1000000000 ∧ fModifiedNs f = iTime info mod 1000000000 ∧
     fPermissions f = Z.land (iMode info) ModePerm) →
  let g := updateFileInfo cfg GOOS clock p f (default (zero_record "") (CurrentFile p)) in
  describes p info g ∧ fSize g = fSize f ∧
  fVersion g = Update (fVersion (default (zero_record "") (CurrentFile p))) (ShortID cfg) (clock p).
Proof.
  intros H1 H2 H3 H4. unfold updateFileInfo. destruct ((fType f =? FileInfoTypeFile) && IsWindows GOOS) eqn:E.
  - apply andb_prop in E as [_ E]. split_and!; [|done..].
    split; try done; [by intros (? & ? & ?)%H4|by rewrite E|by left].
  - split_and!; [|done..]. split; try done; [by intros (? & ? & ?)%H4|by intros (? & ? & ?)%H4|by left].
Qed.

#[local] Opaque updateFileInfo.
Lemma emit_spec p info bare g (emit : FileInfo → walked → walked) l :
  describes p info g → fVersion g = Update (fVersion (default (zero_record "") (CurrentFile p))) (ShortID cfg) (clock p) →
  (IsRegular info = true → fSize g = Size_of info) →
  (∀ f, grows l (emit f l) ∧ ignoredParent (emit f l) = ignoredParent l ∧ (describes p info f → reported p info (emit f l))) →
  let l' := match if_changed cfg GOOS (CurrentFile p) bare g with Some f => emit f l | None => l end in
  grows l l' ∧ ignoredParent l' = ignoredParent l ∧ accounted p info l'.
Proof.
  intros Hf Hv Hs He. unfold if_changed. destruct (CurrentFile p) as [cur|] eqn:E; [|destruct (He g) as (? & ? & ?); split_and!; unfold accounted; auto].
  destruct (IsEquivalentOptional _ _ _ _ _) eqn:Eq; [split_and!; [done..|right; left; exists cur, g, bare; by split_and!]|].
  assert (Hd : ∀ g', g' = g ∨ g' = g <| fVersion := DropOthers (fVersion g) (ShortID cfg) |> → describes p info g').
  { intros g' [->| ->]; [done|]. destruct Hf. split; try done. right. cbn. by rewrite Hv, E. }
  destruct (_ && _); match goal with |- context [emit ?f l] => destruct (He f) as (? & ? & Hr) end;
    (split; [done|split; [done|right; right; apply Hr, Hd; auto]]).
Qed.

Lemma emit_finish p info l f : IsLink info || IsDir info = true →
  grows l (finish_with (Scanned f) l) ∧ ignoredParent (finish_with (Scanned f) l) = ignoredParent l ∧
  (describes p info f → reported p info (finish_with (Scanned f) l)).
Proof.
  intros H. split_and!; [apply grows_finish|done|]. intros Hd. exists f. split; [done|]. rewrite H. apply elem_of_app. right. by left.
Qed.
Lemma emit_hash p info l f : IsLink info || IsDir info = false →
  grows l (to_hash f l) ∧ ignoredParent (to_hash f l) = ignoredParent l ∧
  (describes p info f → reported p info (to_hash f l)).
Proof.
  intros H. split_and!; [apply grows_hash|done|]. intros Hd. exists f. split; [done|]. rewrite H. apply elem_of_app. right. by left.
Qed.

(** The record of an item before it is compared. *)
Definition fresh_record (p : path) (info : item) (g : FileInfo) : Prop :=
  describes p info g ∧ fVersion g = Update (fVersion (default (zero_record "") (CurrentFile p))) (ShortID cfg) (clock p) ∧
  (IsRegular info = true → fSize g = Size_of info).
Lemma fresh_permissions p info g b : fresh_record p info g → fresh_record p info (g <| fNoPermissions := b |>).
Proof. intros ([] & ? & ?). split_and!; [by split|done..]. Qed.
Lemma fresh_block_size p info g n : fresh_record p info g → fresh_record p info (g <| fRawBlockSize := n |>).
Proof. intros ([] & ? & ?). split_and!; [by split|done..]. Qed.

(** A record is made from the item, completed by [g], compared, and sent on. *)
Lemma record_step p info (g : FileInfo → FileInfo) (emit : FileInfo → walked → walked) l w :
  (∀ f, (create cfg p info w).2 = inr f → fresh_record p info (g f)) →
  (∀ f, grows l (emit f l) ∧ ignoredParent (emit f l) = ignoredParent l ∧ (describes p info f → reported p info (emit f l))) →
  let m := (let! r := (let! f := create cfg p info in mret (if_changed cfg GOOS (CurrentFile p) (is_bare f) (g f))) in
            mret (match r with Some f => emit f l | None => l end)) : M walked in
  stays only_temps m w ∧ ∀ l', (m w).2 = inr l' → grows l l' ∧ ignoredParent l' = ignoredParent l ∧ accounted p info l'.
Proof.
  intros Hg He m. destruct (create_spec p info w) as [Hst _]. unfold m, mbind, M_bind, stays in *.
  destruct (create cfg p info w) as [w1 [e|f]]; cbn [fst snd] in *; [by split|]. split; [done|].
  intros l' El. apply (inj inr) in El. subst l'. destruct (Hg f eq_refl) as (H1 & H2 & H3).
  by apply (emit_spec p info (is_bare f) (g f) emit).
Qed.

Lemma handleItem_spec p info l w : stays only_temps (handleItem_ p info l) w ∧
  ∀ l', (handleItem_ p info l w).2 = inr l' → grows l l' ∧ ignoredParent l' = ignoredParent l ∧ accounted p info l'.
Proof.
  assert (Hupd : ∀ f, (create cfg p info w).2 = inr f →
    fresh_record p info (updateFileInfo cfg GOOS clock p f (default (zero_record "") (CurrentFile p)))).
  { intros f Hf. destruct (create_spec p info w) as [_ Hcr]. destruct (Hcr f Hf) as (H1 & H2 & H3 & H4 & H5).
    destruct (updated_describes p info f H1 H2 H3 H4) as (H6 & H7 & H8). split; [exact H6|split; [exact H8|]]. intros Hr. rewrite H7. auto. }
  set (upd f := updateFileInfo cfg GOOS clock p f (default (zero_record "") (CurrentFile p))) in *.
  unfold handleItem, walkSymlink, walkDir, walkRegular.
  destruct (IsLink info) eqn:Hl; [destruct (IsWindows GOOS) eqn:Hw|destruct (IsDir info) eqn:Hd].
  - split; [by unfold stays|]. intros l' El. apply (inj inr) in El. subst l'. split_and!; [done..|by left].
  - apply (record_step p info upd (λ f, finish_with (Scanned f))); [done|]. intros f. apply emit_finish. by rewrite Hl.
  - apply (record_step p info (λ f, (upd f) <| fNoPermissions := cIgnorePerms cfg |>) (λ f, finish_with (Scanned f))).
    + intros f Hf. exact (fresh_permissions _ _ _ _ (Hupd f Hf)).
    + intros f. apply emit_finish. by rewrite Hl, Hd.
  - apply (record_step p info (λ f, (upd f) <| fNoPermissions := cIgnorePerms cfg |> <| fRawBlockSize := _ |>) to_hash).
    + intros f Hf. exact (fresh_block_size _ _ _ _ (fresh_permissions _ _ _ _ (Hupd f Hf))).
    + intros f. apply emit_hash. by rewrite Hl, Hd.
Qed.

(** *** One visit *)
Definition failed_on (es : list path) (l : walked) : Prop := ∃ k e, Failed (build false (take k es)) e ∈ finished l.
Lemma failed_grows es l l' : grows l l' → failed_on es l → failed_on es l'.
Proof. intros [H _] (k & e & Hin). exists k, e. by apply H. Qed.
Lemma failed_at es k e l : Failed (build false (take k es)) e ∈ finished l → failed_on es l.
Proof. intros. by exists k, e. Qed.
Lemma failed_end es e l : Failed (build false es) e ∈ finished l → failed_on es l.
Proof. intros. exists (length es), e. by rewrite take_ge. Qed.
Lemma handleError_in c p e l : Failed p (Wrapped c e) ∈ finished (handleError c p e l).
Proof. apply elem_of_app. right. by left. Qed.

Lemma handle_or_fail_spec at_ info p skip l w (Q : walked * option ferr → world → Prop) :
  (∀ l' w', only_temps w w' → grows l l' → ignoredParent l' = ignoredParent l → accounted at_ info l' → Q (l', None) w') →
  (∀ e w', only_temps w w' → Q (handleError "scan" p e l, skip) w') →
  total (handle_or_fail cfg GOOS CurrentFile clock at_ info p skip l) w Q.
Proof.
  intros H1 H2. unfold handle_or_fail. destruct (handleItem_spec at_ info l w) as [Hs Hr].
  apply total_bind with (Q' := λ r w1, only_temps w w1 ∧ ∀ l', r = inr l' → grows l l' ∧ ignoredParent l' = ignoredParent l ∧ accounted at_ info l').
  { by apply total_attempt. }
  intros r w1 Hw [Hw1 Hl]. destruct r as [e|l']; apply total_ret; [by apply H2|]. destruct (Hl l' eq_refl) as (? & ? & ?). by apply H1.
Qed.

Lemma parent_step parent p skip l w (K : walked → M (walked * option ferr)) (Q : walked * option ferr → world → Prop) :
  (∀ l' w', only_temps w w' → grows l l' → ignoredParent l' = parent →
     (direct (vw w) parent → ∃ j, vw w !! parent = Some j ∧ accounted parent j l') → total (K l') w' Q) →
  (∀ l' w', only_temps w w' → grows l l' → (∃ e, Failed parent e ∈ finished l' ∨ Failed p e ∈ finished l') → Q (l', skip) w') →
  total (let l := l <| ignoredParent := parent |> in
    let! info := attempt (Lstat parent) in
    match info with
    | inl e => mret (handleError "scan" parent e l, skip)
    | inr info =>
        let! (l, failed) := handle_or_fail cfg GOOS CurrentFile clock parent info p (Some SkipDir) l in
        match failed with Some _ => mret (l, skip) | None => K l end
    end) w Q.
Proof.
  intros HK HF. cbv zeta. eapply total_bind.
  { apply total_Lstat with (Q := λ r w1, vw w1 = vw w ∧ ∀ i, r = inr i → direct (vw w) parent → vw w !! parent = Some i).
    by intros r w1 Hv Hi _ _. }
  intros r w1 Hw1 [Hv Hi]. destruct r as [e|info].
  - apply total_ret, HF; [by apply temps_same|split; [by intros x Hx; apply elem_of_app; left|done]|].
    eexists. left. apply handleError_in.
  - eapply total_bind with (Q' := λ lr w2, only_temps w w2 ∧ grows l lr.1 ∧
      ((lr.2 = None ∧ ignoredParent lr.1 = parent ∧ accounted parent info lr.1) ∨
       (lr.2 = Some SkipDir ∧ ∃ e, Failed p e ∈ finished lr.1))).
    + apply handle_or_fail_spec.
      * intros l' w' Hw' Hg Hp Ha. split_and!; [by etrans; [|exact Hw']; apply temps_same| |by left].
        etrans; [|exact Hg]. by split.
      * intros e w' Hw'. split_and!; [by etrans; [|exact Hw']; apply temps_same| |right].
        { split; [by intros x Hx; apply elem_of_app; left|done]. }
        split; [done|]. eexists. apply handleError_in.
    + intros [l' fl] w2 _ (Hw2 & Hg & H). cbn [fst snd] in *. destruct H as [(-> & Hp & Ha)|(-> & e & He)].
      * apply HK; [done..|]. intros Hd. exists info. by auto.
      * apply total_ret, HF; [done..|]. exists e. by right.
Qed.

Lemma direct_prefix v es k : Forall normal es → (0 < k)%nat → direct v (build false es) → direct v (build false (take k es)).
Proof.
  intros Hes Hk Hd. destruct (decide (k < length es)%nat) as [Hlt|]; [|by rewrite take_ge by lia].
  destruct (build_below es k Hes) as [x Ex]; [lia|]. intros q y l E Hl. eapply (Hd q (y ++ sep :: x)); [|done].
  by rewrite Ex, E, <-app_assoc.
Qed.
Lemma Join_next es k name names : Forall normal es → (0 < k)%nat → drop k es = name :: names →
  Join [build false (take k es); name] = build false (take (S k) es).
Proof.
  intros Hes Hk E. assert (Hn : es !! k = Some name) by (by rewrite <-(Nat.add_0_r k), <-lookup_drop, E).
  rewrite (take_S_r _ _ _ Hn). apply Join_build; [apply Forall_normal_nf; by apply Forall_take|].
  by eapply Forall_lookup_1 in Hn.
Qed.

(** What is known after a visit on the way to an item. *)
Definition visited (es : list path) (w : world) (lr : walked * option ferr) : Prop :=
  failed_on es lr.1 ∨ (lr.2 = None ∧ ∃ j, vw w !! build false es = Some j ∧ accounted (build false es) j lr.1).
Lemma visited_temps es w w' lr : only_temps w w' → visited es w' lr → visited es w lr.
Proof. intros H [?|(H1 & j & Hj & Ha)]; [by left|right]. split; [done|]. exists j. split; [by eapply temps_back|done]. Qed.

(** Parents that are still to be handled when the first [k] elements are done. *)
Lemma handle_parents_spec names p skip l w :
  total (handle_parents cfg GOOS CurrentFile clock names p skip l) w (λ lr _, grows l lr.1 ∧ (lr.2 = None ∨ lr.2 = skip) ∧
    ∀ es k, Forall normal es → p = build false es → ignoredParent l = build false (take k es) → names = drop k es →
      (0 < k < length es)%nat → direct (vw w) p → visited es w lr).
Proof.
  revert l w. induction names as [|name names IH]; intros l w; cbn [handle_parents].
  { apply total_ret. split_and!; [by split|by left|]. intros es k _ _ _ E Hk. symmetry in E. apply (f_equal length) in E.
    rewrite length_drop in E. cbn in E. lia. }
  apply parent_step.
  - intros l' w' Hw Hg Hp Ha.
    assert (Hnext : ∀ es k, Forall normal es → p = build false es → ignoredParent l = build false (take k es) →
      name :: names = drop k es → (0 < k < length es)%nat →
      Join [ignoredParent l; name] = build false (take (S k) es) ∧ names = drop (S k) es).
    { intros es k Hes -> Hip E Hk. split; [rewrite Hip; by apply (Join_next es k name names); [|lia|]|].
      by rewrite <-Nat.add_1_r, <-drop_drop, <-E. }
    destruct names as [|n2 names].
    + apply total_ret. split_and!; [done|by left|]. intros es k Hes -> Hip E Hk Hd. right. split; [done|].
      destruct (Hnext es k Hes eq_refl Hip E Hk) as [Ej En]. rewrite Ej in Ha.
      apply (f_equal length) in En. rewrite length_drop in En. cbn in En. rewrite take_ge in Ha by lia. by apply Ha.
    + eapply total_mono; [apply IH|]. intros [l2 r2] w2 _ (Hg2 & Hr2 & Hv). cbn [fst snd] in *.
      split_and!; [by etrans|done|]. intros es k Hes -> Hip E Hk Hd. destruct (Hnext es k Hes eq_refl Hip E Hk) as [Ej En].
      apply (visited_temps _ _ w'); [done|]. apply (Hv es (S k)); [done|done|by rewrite Hp|done| |by eapply temps_direct].
      apply (f_equal length) in En. rewrite length_drop in En. cbn in En. lia.
  - intros l' w' Hw Hg (e & He). split_and!; [done|by right|]. intros es k Hes -> Hip E Hk Hd. left.
    destruct He as [He|He]; [|by eapply failed_end]. rewrite Hip, (Join_next es k name names) in He by (done || lia).
    by eapply failed_at.
Qed.

Lemma trimmed es ip : Forall normal es →
  Ignore.TrimPrefix (build false es) (ip ++ [sep]) ≠ build false es →
  ∃ k, (0 < k < length es)%nat ∧ ip = build false (take k es) ∧
    PathComponents (Ignore.TrimPrefix (build false es) (ip ++ [sep])) = drop k es.
Proof.
  intros Hes. unfold Ignore.TrimPrefix. destruct (has_prefix _ _) eqn:Hp; [|done]. intros _.
  apply prefixb_spec in Hp as [rel E]. rewrite <-app_assoc in E. destruct (above_prefix es ip rel Hes E) as (k & Hk & Hip).
  exists k. split_and!; [lia..|done|]. rewrite E. rewrite (app_assoc ip [sep] rel), drop_app_length.
  unfold PathComponents. pose proof (split_build false es (Forall_normal_nf _ _ Hes)) as Hs.
  assert (Hraw : ∀ l, (0 < length l)%nat → raw false l = l) by (by intros []; cbn; [lia|]).
  rewrite E in Hs. cbn [app] in Hs. rewrite split_byte_app_sep, Hip, split_build in Hs by (by apply Forall_normal_nf, Forall_take).
  rewrite !Hraw in Hs by (rewrite ?length_take; lia).
  apply (app_inv_head (take k es)). by rewrite take_drop.
Qed.
Lemma Join_self es : Forall normal es → Join [build false es; []] = build false es.
Proof.
  intros Hes. pose proof (Forall_normal_nf false es Hes) as Hn. cbn [Join]. rewrite bool_decide_false by by apply build_nonempty.
  cbn [join_byte]. rewrite Clean_build_app by done. cbn. by rewrite rev_involutive.
Qed.

Lemma visit_item_spec p info skip l w :
  total (visit_item cfg GOOS CurrentFile clock p info skip l) w (λ lr _, grows l lr.1 ∧ (lr.2 = None ∨ lr.2 = skip) ∧
    ∀ es, Forall normal es → p = build false es → direct (vw w) p → vw w !! p = Some info → visited es w lr).
Proof.
  assert (Hone : ∀ l1, grows l l1 →
    total (handle_or_fail cfg GOOS CurrentFile clock p info p skip l1) w (λ lr _, grows l lr.1 ∧ (lr.2 = None ∨ lr.2 = skip) ∧
      ∀ es, Forall normal es → p = build false es → direct (vw w) p → vw w !! p = Some info → visited es w lr)).
  { intros l1 Hl1. apply handle_or_fail_spec.
    - intros l' w' Hw Hg _ Ha. split_and!; [by etrans|by left|]. intros es Hes -> _ Hi. right. split; [done|]. by exists info.
    - intros e w' Hw. split_and!; [etrans; [exact Hl1|apply grows_finish]|by right|]. intros es Hes -> _ _. left.
      eapply failed_end, handleError_in. }
  unfold visit_item. case_bool_decide as He; [by apply Hone|]. cbv zeta.
  case_bool_decide as Hr; [by apply Hone; split|]. change ([] :: PathComponents ?r) with ([[]] ++ PathComponents r).
  cbn [app handle_parents].
  apply parent_step.
  - intros l' w' Hw Hg Hp _. eapply total_mono; [apply handle_parents_spec|]. intros [l2 r2] w2 _ (Hg2 & Hr2 & Hv). cbn [fst snd] in *.
    split_and!; [by etrans|done|]. intros es Hes -> Hd Hi. apply (visited_temps _ _ w'); [done|].
    destruct (trimmed es (ignoredParent l)) as (k & Hk & Hip & Hn); [done..|].
    apply (Hv es k); [done..| |done|done|by eapply temps_direct]. by rewrite Hp, Hip, Join_self by (by apply Forall_take).
  - intros l' w' Hw Hg (e & He'). split_and!; [done|by right|]. intros es Hes -> Hd Hi. left.
    destruct (trimmed es (ignoredParent l)) as (k & Hk & Hip & Hn); [done..|].
    destruct He' as [He'|He']; [|by eapply failed_end]. rewrite Hip, Join_self in He' by (by apply Forall_take). by eapply failed_at.
Qed.

(** What can be looked up and listed wherever it is. *)
Definition readable (q : path) : Prop := ∀ d, direct (view d) q → is_Some (view d !! q) →
  (∃ i, (fs_Lstat q d).2 = inr i) ∧ (∃ names, (fs_DirNames q d).2 = inr names).
Definition silent (q : path) : Prop := Ignore.IsIgnored (ignoreMatch q) = true ∨ IsTemporary q = true.

(** The walk comes to an item when nothing above it makes it turn back; where an error
    would not be reported, there must be none. *)
Record reachable (es : list path) : Prop := {
  r_names : Forall normal es;
  r_below : es ≠ [];
  r_item : ¬ silent (build false es) ∧ IsInternal (build false es) = false;
  r_above k : (k < length es)%nat → let q := build false (take k es) in
    IsInternal q = false ∧ (Ignore.IsIgnored (ignoreMatch q) = true → Ignore.CanSkipDir (ignoreMatch q) = false) ∧
    (silent q → readable q);
}.

Lemma failed_take es k l : failed_on (take k es) l → failed_on es l.
Proof. intros (k' & e & H). rewrite take_take in H. by eapply failed_at. Qed.
Lemma build_not_dot es : Forall normal es → es ≠ [] → build false es ≠ dot.
Proof.
  intros Hes Hne E. pose proof (split_build false es (Forall_normal_nf _ _ Hes)) as Hs. rewrite E in Hs.
  destruct es as [|e es]; [done|]. injection Hs as <- <-. apply Forall_cons in Hes as [(_ & H & _) _]. done.
Qed.

Definition visit_result (es : list path) (k : nat) (p : path) (info : ferr + item) (lr : walked * option ferr) : Prop :=
  match info with
  | inl e => IsNotExist e = false → ¬ silent p → failed_on es lr.1
  | inr i => IsDir i = true ∨ k = length es → failed_on es lr.1 ∨ (lr.2 = None ∧ (k = length es → accounted p i lr.1))
  end.

Lemma remove_temporary_total p info w : IsTemporary p = true → direct (vw w) p →
  (∀ i, info = inr i → vw w !! p = Some i) → total (remove_temporary cfg now p info) w (λ _ _, True).
Proof.
  intros Ht Hd Hi. unfold remove_temporary. destruct info as [e|i]; [by apply total_ret|].
  destruct (IsRegular i) eqn:Hr; [|by apply total_ret]. destruct (_ <? _); [|by apply total_ret]. cbn [andb].
  apply total_bind with (Q' := λ _ _, True); [|by intros; apply total_ret]. apply total_attempt; [|done].
  unfold stays, Remove. intros q. rewrite call_view.
  destruct ((fs_Remove p (wDisk w)).2) as [e|[]] eqn:E; [left; by erewrite Remove_fails|].
  destruct (Remove_ok p (wDisk w) Hd E) as [Hv _]. rewrite Hv. destruct (decide (q = p)) as [->|Hne].
  - right. rewrite lookup_delete_eq. split_and!; [done..|]. exists i. split; [by apply Hi|].
    unfold IsRegular in Hr. by destruct (IsDir i).
  - left. by rewrite lookup_delete_ne.
Qed.

Lemma visit_spec p info l w : direct (vw w) p → (∀ i, info = inr i → vw w !! p = Some i ∧ norm p = p) →
  total (visit_ p info l) w (λ lr _, grows l lr.1 ∧ (lr.2 = None ∨ lr.2 = skip_of info) ∧
    ∀ es k, reachable es → (k ≤ length es)%nat → p = build false (take k es) → norm p = p → visit_result es k p info lr).
Proof.
  intros Hd Hi. unfold visit.
  assert (Herr : ∀ c e p', (norm p = p → p' = p) → total (mret (handleError c p' e l, skip_of info)) w (λ lr _, grows l lr.1 ∧ (lr.2 = None ∨ lr.2 = skip_of info) ∧
    ∀ es k, reachable es → (k ≤ length es)%nat → p = build false (take k es) → norm p = p → visit_result es k p info lr)).
  { intros c e p' Hp'. apply total_ret. split_and!; [apply grows_finish|by right|]. intros es k _ _ -> En. rewrite Hp' by done.
    assert (failed_on es (handleError c (build false (take k es)) e l)) by (eapply failed_at, handleError_in).
    unfold visit_result. destruct info; cbn [fst]; intros; [done|by left]. }
  destruct (negb (ValidString p)); [by apply Herr|].
  destruct (IsTemporary p) eqn:Ht.
  { eapply total_bind; [by apply remove_temporary_total; [| |by intros i [? _]%Hi]|]. intros [] w1 _ _. apply total_ret.
    split_and!; [done|by left|]. intros es k Hr Hk -> _. unfold visit_result. destruct info as [e|i]; [by intros _ []; right|].
    right. split; [done|]. intros ->. rewrite take_ge in Ht by done. destruct Hr. destruct r_item0 as [[] _]. by right. }
  destruct (IsInternal p) eqn:Hint.
  { apply total_ret. split_and!; [done|by right|]. intros es k Hr Hk -> _. exfalso. destruct (decide (k < length es)%nat) as [Hlt|].
    - destruct (r_above es Hr k Hlt) as [H _]. congruence.
    - rewrite take_ge in Hint by lia. destruct (r_item es Hr) as [_ H]. congruence. }
  cbv zeta. destruct info as [e|info].
  { destruct (Ignore.IsIgnored (ignoreMatch (norm p))) eqn:Hig; cbn [orb].
    - apply total_ret. split_and!; [done|by right|]. intros es k _ _ _ Hn. rewrite Hn in Hig. intros _ []. by left.
    - destruct (IsNotExist e) eqn:He; [|by apply Herr]. apply total_ret. split_and!; [done|by right|].
      intros es k _ _ _ _. unfold visit_result. congruence. }
  destruct (Hi info eq_refl) as [Hv Hn]. rewrite Hn. rewrite (bool_decide_true (p = p)) by done.
  destruct (Ignore.IsIgnored (ignoreMatch p)) eqn:Hig.
  { assert (Hres : ∀ l', grows l l' → total (mret (l', None)) w (λ lr _, grows l lr.1 ∧ (lr.2 = None ∨ lr.2 = skip_of (inr info)) ∧
      ∀ es k, reachable es → (k ≤ length es)%nat → p = build false (take k es) → p = p → visit_result es k p (inr info) lr)).
    { intros l' Hl'. apply total_ret. split_and!; [done|by left|]. intros es k Hr Hk -> _ _. right. split; [done|]. intros ->.
      rewrite take_ge in Hig by done. destruct (r_item es Hr) as [[] _]. by left. }
    destruct (Ignore.CanSkipDir (ignoreMatch p) || IsLink info) eqn:Hsk; [|destruct (_ && _); by apply Hres].
    apply total_ret. split_and!; [done|by right|]. intros es k Hr Hk -> _ Hdir. exfalso. destruct (decide (k < length es)%nat) as [Hlt|].
    - destruct (r_above es Hr k Hlt) as (_ & H & _). rewrite H in Hsk by done. destruct Hdir as [Hdir|]; [|lia].
      unfold IsDir, IsLink in *. apply Z.eqb_eq in Hdir. rewrite Hdir in Hsk. done.
    - rewrite take_ge in Hig by lia. destruct (r_item es Hr) as [[] _]. by left. }
  case_bool_decide as Hdot.
  { apply total_ret. split_and!; [done|by left|]. intros es k Hr Hk -> _ _. right. split; [done|]. intros ->. exfalso.
    rewrite take_ge in Hdot by done. revert Hdot. apply build_not_dot; apply Hr. }
  eapply total_mono; [apply visit_item_spec|]. intros [l' r] w' Hw (Hg & Hr & Hvis). cbn [fst snd] in *. split_and!; [done..|].
  intros es k Hre Hk -> _ _. destruct (Hvis (take k es)) as [Hf|(-> & j & Hj & Ha)]; [by apply Forall_take, Hre|done..| |].
  - left. by eapply failed_take.
  - right. split; [done|]. intros _. assert (j = info) as -> by congruence. done.
Qed.

(** *** The walk *)
Context {HL : ListingLaws F}.
Definition settled (es : list path) (i : item) (l : walked) : Prop := failed_on es l ∨ accounted (build false es) i l.
Lemma settled_grows es i l l' : grows l l' → settled es i l → settled es i l'.
Proof. intros H [?|?]; [left; by eapply failed_grows|right; by eapply accounted_grows]. Qed.

Definition named (w : world) : Prop := ∀ q, is_Some (vw w !! q) → norm q = q.
Lemma named_temps w w' : only_temps w w' → named w → named w'.
Proof. intros H Hn q [i Hi]. apply Hn. exists i. by eapply temps_back. Qed.

(** What leads to an item stays while temporary files are removed. *)
Lemma on_the_way w w' es i k : only_temps w w' → reachable es → vw w !! build false es = Some i → (0 < k ≤ length es)%nat →
  ∃ j, vw w' !! build false (take k es) = Some j ∧ (k < length es → IsDir j = true)%nat.
Proof.
  intros Hw Hr Hi Hk. destruct (decide (k < length es)%nat) as [Hlt|].
  - destruct (build_below es k) as [x Ex]; [apply Hr|lia|]. destruct (view_tree (wDisk w) _ i _ x Hi Ex) as (j & Hj & Hd).
    exists j. split; [by eapply temps_dir|done].
  - rewrite take_ge by lia. exists i. split; [|lia]. eapply temps_named; [done..|].
    destruct (r_item es Hr) as [Hs _]. destruct (IsTemporary _) eqn:E; [|done]. destruct Hs. by right.
Qed.
Lemma item_direct w q i : vw w !! q = Some i → direct (vw w) q.
Proof. apply tree_direct, view_tree. Qed.
Lemma not_silent es k d i e : reachable es → (k ≤ length es)%nat → view d !! build false (take k es) = Some i →
  (fs_Lstat (build false (take k es)) d).2 = inl e ∨ ((k < length es)%nat ∧ (fs_DirNames (build false (take k es)) d).2 = inl e) →
  ¬ silent (build false (take k es)).
Proof.
  intros Hr Hk Hi He Hs. destruct (decide (k < length es)%nat) as [Hlt|].
  - destruct (r_above es Hr k Hlt) as (_ & _ & H). destruct (H Hs d) as ((i1 & H1) & (ns & H2)); [|by exists i|].
    + eapply tree_direct; [apply view_tree|done].
    + destruct He as [He|[_ He]]; congruence.
  - rewrite take_ge in Hs by lia. by destruct (r_item es Hr).
Qed.

Definition walk_result (qs : list path) (w : world) (l : walked) (lr : walked * option ferr) : Prop :=
  grows l lr.1 ∧ lr.2 = None ∧
  ∀ es i, reachable es → (length qs ≤ length es)%nat → qs = take (length qs) es →
    vw w !! build false es = Some i → settled es i lr.1.

Lemma walk_entries_spec sub qs names l w :
  Forall normal qs → named w → (∀ n, n ∈ names → normal n ∧ direct (vw w) (build false (qs ++ [n]))) →
  (∀ n info l w', n ∈ names → only_temps w w' → vw w' !! build false (qs ++ [n]) = Some info →
     total (sub (build false (qs ++ [n])) info l) w' (λ lr _, walk_result (qs ++ [n]) w' l lr)) →
  total (walk_entries visit_ sub (build false qs) names l) w (λ lr _, grows l lr.1 ∧ lr.2 = None ∧
    ∀ es i n, reachable es → n ∈ names → (length qs < length es)%nat → qs ++ [n] = take (S (length qs)) es →
      vw w !! build false es = Some i → settled es i lr.1).
Proof.
  intros Hqs. revert l w. induction names as [|n names IH]; intros l w Hnamed Hnames Hsub; cbn [walk_entries].
  { apply total_ret. split_and!; [done..|]. by intros es i n _ ?%elem_of_nil. }
  destruct (Hnames n) as [Hn Hdq]; [by left|]. rewrite Join_build by (by try apply Forall_normal_nf).
  set (q := build false (qs ++ [n])) in *.
  assert (Hex : ∀ w1, vw w1 = vw w → ∀ es i, reachable es → (length (qs ++ [n]) ≤ length es)%nat → qs ++ [n] = take (length (qs ++ [n])) es →
    vw w !! build false es = Some i → ∃ j, vw w1 !! q = Some j).
  { intros w1 Hv es i Hre Hlen Hpre Hit. rewrite Hv. rewrite length_app in Hlen, Hpre. cbn in Hlen, Hpre.
    destruct (on_the_way w w es i (length qs + 1)) as (j & Hj & _); [done..|lia|]. exists j. unfold q. by rewrite Hpre. }
  eapply total_bind.
  { apply total_Lstat with (Q := λ r w1, vw w1 = vw w ∧ (∀ i, r = inr i → vw w !! q = Some i) ∧
      ∀ e, r = inl e → (IsNotExist e = true → vw w !! q = None) ∧ ∃ d, view d = vw w ∧ (fs_Lstat q d).2 = inl e).
    intros r w1 Hv Hi He Hd. split_and!; [done|intros i ->; by apply Hi|]. intros e ->. split; [by apply He|done]. }
  intros r w1 Hw1 (Hv1 & Hi & He).
  eapply total_bind with (Q' := λ lr w2, only_temps w w2 ∧ walk_result (qs ++ [n]) w l lr).
  - destruct r as [e|info].
    + destruct (He e eq_refl) as (Hne & d & Hvd & Hd). eapply total_bind.
      { apply visit_spec; [by rewrite Hv1|done]. }
      intros [l2 r2] w2 Hw2 (Hg & Hr & Hvis). cbn [fst snd] in *. apply total_ret. split; [by etrans; [|exact Hw2]; apply temps_same|].
      assert (r2 = None) as -> by (by destruct Hr). split_and!; [done..|]. intros es i Hre Hlen Hpre Hit. left.
      destruct (Hex w eq_refl es i Hre Hlen Hpre Hit) as [j0 Hj0].
      rewrite length_app in Hlen, Hpre. cbn [length] in Hlen, Hpre. apply (Hvis es (length qs + 1)%nat); [done|done|by unfold q; rewrite <-Hpre| | |].
      * apply Hnamed. by exists j0.
      * destruct (IsNotExist e); [|done]. rewrite Hne in Hj0; done.
      * unfold q. rewrite Hpre. apply (not_silent es _ d j0 e); [done|done|by rewrite <-Hpre, Hvd|left; by rewrite <-Hpre].
    + eapply total_bind; [apply (Hsub n info l w1); [by left|done|]; rewrite Hv1; by apply Hi|].
      intros [l2 r2] w2 Hw2 (Hg & Hr & Hwalk). cbn [fst snd] in *. subst r2. apply total_ret.
      split; [by etrans; [|exact Hw2]; apply temps_same|]. split_and!; [done..|]. intros es i Hre Hlen Hpre Hit.
      apply Hwalk; [done..|]. by rewrite Hv1.
  - intros [l2 r2] w2 _ (Hw2 & Hg & Hr & Hwalk). cbn [fst snd] in *. subst r2.
    eapply total_mono; [apply IH|].
    + by eapply named_temps.
    + intros m Hm. destruct (Hnames m) as [? ?]; [by right|]. split; [done|by eapply temps_direct].
    + intros m info l' w' Hm Hw' Hi'. apply Hsub; [by right|by etrans|done].
    + intros [l3 r3] w3 _ (Hg3 & Hr3 & Hall). cbn [fst snd] in *. subst r3. split_and!; [by etrans|done|].
      intros es i m Hre [->|Hm]%elem_of_cons Hlen Hpre Hit.
      * eapply settled_grows; [exact Hg3|]. rewrite <-Nat.add_1_r in Hpre. apply Hwalk; rewrite ?length_app; [done|cbn; lia|done|done].
      * destruct (on_the_way w w2 es i (length es) Hw2 Hre Hit) as (j & Hj & _); [lia|]. rewrite take_ge in Hj by done.
        assert (j = i) as -> by (eapply temps_back in Hj; [|exact Hw2]; congruence). by eapply Hall.
Qed.

(** The length of the names of what is on the disk bounds how far the walk goes down. *)
Definition within (n : nat) (w : world) : Prop := ∀ q, is_Some (vw w !! q) → (length (split_byte sep q) < n)%nat.

(** The entries of a directory after it was visited, with what is known of the walks below. *)
Lemma walk_below fuel qs info l l1 w w1 :
  Forall normal qs → named w → within (S fuel + length qs) w → vw w !! build false qs = Some info →
  only_temps w w1 → grows l l1 →
  (∀ es i, reachable es → qs = take (length qs) es → vw w !! build false es = Some i →
     ((length qs < length es)%nat → vw w1 !! build false qs = Some info) ∧ (length qs = length es → settled es i l1)) →
  (∀ qs' info' l' w', Forall normal qs' → named w' → within (fuel + length qs') w' → vw w' !! build false qs' = Some info' →
     (qs' = [] → IsDir info' = true) → total (walk visit_ fuel (build false qs') info' l') w' (λ lr _, walk_result qs' w' l' lr)) →
  total (let! names := attempt (call (fs_DirNames (build false qs))) in
         match names with
         | inl e => visit_ (build false qs) (inl e) l1
         | inr names => walk_entries visit_ (walk visit_ fuel) (build false qs) names l1
         end) w1 (λ lr _, walk_result qs w l lr).
Proof.
  intros Hqs Hnamed Hdeep Hq Hw1 Hg1 Hfirst IH.
  assert (Hd1 : direct (vw w1) (build false qs)) by (eapply temps_direct; [done|by eapply item_direct]).
  eapply total_bind.
  { apply total_DirNames with (Q := λ r w2, vw w2 = vw w1 ∧ ∃ d, view d = vw w1 ∧ (fs_DirNames (build false qs) d).2 = r). done. }
  intros r w2 Hw2 (Hv2 & d & Hvd & Hr). destruct r as [e|names].
  - eapply total_mono; [apply visit_spec; [by rewrite Hv2|done]|]. intros [l3 r3] w3 Hw3 (Hg3 & Hr3 & Hvis3). cbn [fst snd] in *.
    assert (r3 = None) as -> by (by destruct Hr3). split_and!; [by etrans|done|]. intros es i Hre Hlen Hpre Hit.
    destruct (decide (length qs < length es)%nat) as [Hlt|].
    + left. apply (Hvis3 es (length qs)); [done|done|by rewrite <-Hpre|apply Hnamed; by exists info|..].
      * destruct (IsNotExist e) eqn:Ee; [|done]. assert (E : view d !! build false qs = Some info) by (rewrite Hvd; by eapply Hfirst).
        by rewrite (DirNames_gone _ d e) in E.
      * rewrite Hpre. apply (not_silent es _ d info e); [done|done|rewrite <-Hpre, Hvd; by eapply Hfirst|right; by rewrite <-Hpre].
    + eapply settled_grows; [exact Hg3|]. apply Hfirst; [done..|lia].
  - eapply total_mono; [apply (walk_entries_spec (walk visit_ fuel) qs names l1 w2); [done| | |]|].
    + eapply named_temps; [exact Hw2|]. by eapply named_temps.
    + intros n Hn. destruct (DirNames_there (build false qs) d names n) as [Hnn [j Hj]]; [by rewrite Hvd|done|done|].
      rewrite Join_build in Hj by (by try apply Forall_normal_nf). split; [done|]. rewrite Hv2, <-Hvd. eapply tree_direct; [apply view_tree|done].
    + intros n info' l' w' Hn Hw' Hi'. destruct (DirNames_there (build false qs) d names n) as [Hnn _]; [by rewrite Hvd|done|done|].
      assert (Hall : only_temps w w') by (etrans; [exact Hw1|]; by etrans). apply IH.
      * apply Forall_app. by split; [|apply Forall_singleton].
      * by eapply named_temps.
      * intros q [j Hj]. rewrite length_app. cbn. replace (fuel + (length qs + 1))%nat with (S fuel + length qs)%nat by lia.
        apply Hdeep. exists j. by eapply temps_back.
      * done.
      * intros E. by destruct qs.
    + intros [l3 r3] w3 Hw3 (Hg3 & Hr3 & Hall). cbn [fst snd] in *. subst r3. split_and!; [by etrans|done|]. intros es i Hre Hlen Hpre Hit.
      destruct (decide (length qs < length es)%nat) as [Hlt|].
      * destruct (lookup_lt_is_Some_2 es (length qs) Hlt) as [n Hn].
        assert (Hnn : normal n) by (by eapply Forall_lookup_1; [apply Hre|]).
        assert (Hnext : qs ++ [n] = take (S (length qs)) es) by (by rewrite (take_S_r _ _ _ Hn), <-Hpre).
        destruct (on_the_way w w2 es i (S (length qs))) as (j & Hj & _); [by etrans|done..|lia|].
        apply (Hall es i n); [done| |done|done|].
        -- apply (DirNames_all qs d); [done|by rewrite Hvd|done| |].
           ++ done.
           ++ exists j. rewrite Join_build by (by try apply Forall_normal_nf). by rewrite Hnext, Hvd, <-Hv2.
        -- destruct (on_the_way w w2 es i (length es)) as (j' & Hj' & _); [by etrans|done..|lia|]. rewrite take_ge in Hj' by done.
           assert (j' = i) as -> by (eapply temps_back in Hj'; [|etrans; [exact Hw1|exact Hw2]]; congruence). done.
      * eapply settled_grows; [exact Hg3|]. apply Hfirst; [done..|lia].
Qed.

Lemma walk_spec fuel qs info l w :
  Forall normal qs → named w → within (fuel + length qs) w → vw w !! build false qs = Some info → (qs = [] → IsDir info = true) →
  total (walk visit_ fuel (build false qs) info l) w (λ lr _, walk_result qs w l lr).
Proof.
  revert qs info l w. induction fuel as [|fuel IH]; intros qs info l w Hqs Hnamed Hdeep Hq Hroot; cbn [walk].
  { exfalso. pose proof (Hdeep (build false qs) (ex_intro _ info Hq)) as H. rewrite split_build in H by (by apply Forall_normal_nf).
    destruct qs; cbn in H; lia. }
  rewrite Canonicalize_build by done. eapply total_bind.
  { apply visit_spec; [by eapply item_direct|]. intros i [= <-]. split; [done|]. apply Hnamed. by exists info. }
  intros [l1 r1] w1 Hw1 (Hg1 & Hr1 & Hvis). cbn [fst snd] in *.
  assert (Hdir : ∀ es i, reachable es → (length qs ≤ length es)%nat → qs = take (length qs) es → vw w !! build false es = Some i →
    IsDir info = true ∨ length qs = length es).
  { intros es i Hre Hlen Hpre Hit. destruct (decide (length qs < length es)%nat) as [Hlt|]; [left|right; lia].
    destruct (decide (qs = [])) as [->|Hne]; [by apply Hroot|].
    destruct (on_the_way w w es i (length qs)) as (j & Hj & Hjd); [done..|destruct qs; cbn in *; [done|lia]|].
    rewrite <-Hpre, Hq in Hj. injection Hj as <-. by apply Hjd. }
  assert (Hfirst : ∀ es i, reachable es → (length qs ≤ length es)%nat → qs = take (length qs) es → vw w !! build false es = Some i →
    failed_on es l1 ∨ (r1 = None ∧ (length qs = length es → accounted (build false qs) info l1))).
  { intros es i Hre Hlen Hpre Hit. apply (Hvis es (length qs)); [done|done|by rewrite <-Hpre|apply Hnamed; by exists info|]. by eapply Hdir. }
  assert (Hsame : ∀ es i, (length qs ≤ length es)%nat → qs = take (length qs) es → vw w !! build false es = Some i →
    length qs = length es → accounted (build false qs) info l1 → accounted (build false es) i l1).
  { intros es i Hlen Hpre Hit Hl Ha. rewrite Hl, take_ge in Hpre by lia. subst qs. assert (i = info) as -> by congruence. done. }
  destruct r1 as [e|].
  { assert (Hskip : Some e = skip_of (inr info)) by (by destruct Hr1). cbn in Hskip. destruct (IsDir info) eqn:Hd; [|done].
    injection Hskip as ->. apply total_ret. split_and!; [done..|]. intros es i Hre Hlen Hpre Hit. left.
    by destruct (Hfirst es i Hre Hlen Hpre Hit) as [?|[? _]]. }
  destruct (negb (IsDir info) && negb (bool_decide (build false qs = dot))) eqn:Hleaf.
  { apply total_ret. split_and!; [done..|]. intros es i Hre Hlen Hpre Hit.
    apply andb_prop in Hleaf as [Hd _]. apply negb_true_iff in Hd.
    destruct (Hfirst es i Hre Hlen Hpre Hit) as [?|[_ Ha]]; [by left|right]. destruct (Hdir es i Hre Hlen Hpre Hit); [congruence|].
    by apply Hsame; auto. }
  apply walk_below with (info := info); [done..| |done]. intros es i Hre Hpre Hit.
  assert (Hlen : (length qs ≤ length es)%nat) by (rewrite Hpre, length_take; lia). split.
  - intros Hlt. destruct (Hdir es i Hre Hlen Hpre Hit) as [Hd|]; [by eapply temps_dir|lia].
  - intros Hl. destruct (Hfirst es i Hre Hlen Hpre Hit) as [?|[_ Ha]]; [by left|right]. apply Hsame; auto.
Qed.

(** *** Hashing *)
Context (Hread : ∀ p, readonly (read_file p)).

(** The blocks of the record are those of a content that was read. *)
Definition hashed (p : path) (f : FileInfo) : Prop := ∃ d data, (read_file p d).2 = inr data ∧
  fBlocks f = Copier.Blocks sha256 data (FileInfo_BlockSize f) (Z.of_nat (length data)) ∧
  fBlocksHash f = BlocksHash sha256 (fBlocks f) ∧ fSize f = fold_left (λ s b, i64 (s + bSize b)) (fBlocks f) 0.

Lemma hash_files_spec fs w : total (hash_files read_file sha256 fs) w (λ rs _, ∀ p i f, f ∈ fs → describes p i f →
  (∃ e, Failed p e ∈ rs) ∨ ∃ f', describes p i f' ∧ hashed p f' ∧ Scanned f' ∈ rs).
Proof.
  revert w. induction fs as [|f fs IH]; intros w; cbn [hash_files].
  { apply total_ret. by intros p i f ?%elem_of_nil. }
  apply total_bind with (Q' := λ r _, ∀ p i, describes p i f →
    (∃ e, r = Failed p e) ∨ ∃ f', describes p i f' ∧ hashed p f' ∧ r = Scanned f').
  - unfold hash_file. eapply total_bind with (Q' := λ r _, ∃ d, (read_file (s2l (fName f)) d).2 = r).
    { apply total_attempt; [by apply temps_call|]. rewrite call_result. by exists (wDisk w). }
    intros r w1 _ [d Hd]. destruct r as [e|data]; apply total_ret; intros p i Hdes.
    + left. rewrite (d_name _ _ _ Hdes), s2l_l2s. by eexists.
    + right. rewrite (d_name _ _ _ Hdes), s2l_l2s in Hd. eexists. split; [|split; [|done]]; [by destruct Hdes; split|by exists d, data].
  - intros r w1 _ Hr. eapply total_bind; [apply IH|]. intros rs w2 _ Hrs. apply total_ret.
    intros p i g [->|Hg]%elem_of_cons Hdes.
    + destruct (Hr p i Hdes) as [[e ->]|(f' & H1 & H2 & ->)]; [left; exists e; by left|right; exists f'; split_and!; [done..|by left]].
    + destruct (Hrs p i g Hg Hdes) as [[e He]|(f' & H1 & H2 & H3)]; [left; exists e; by right|right; exists f'; split_and!; [done..|by right]].
Qed.

(** *** The scan *)
Abbreviation Walk_results_ := (Walk_results cfg GOOS ignoreMatch CurrentFile norm SameFile read_file sha256 now clock depth).

Lemma Walk_root w top : named w → within depth w → vw w !! dot = Some top → IsDir top = true →
  total (Walk visit_ depth dot nothing_walked) w (λ lr _, ∀ es i, reachable es → vw w !! build false es = Some i → settled es i lr.1).
Proof.
  intros Hnamed Hdeep Htop Hdir. unfold Walk. eapply total_bind.
  { apply total_Lstat with (Q := λ r w1, vw w1 = vw w ∧ (∀ i, r = inr i → vw w !! dot = Some i) ∧
      ∀ e, r = inl e → IsNotExist e = false ∧ ∃ d, view d = vw w ∧ (fs_Lstat dot d).2 = inl e).
    intros r w1 Hv Hi He Hd. split_and!; [done|intros i ->; apply Hi; [done|by eapply item_direct]|]. intros e ->. split; [|done].
    destruct (IsNotExist e) eqn:E; [|done]. rewrite (He e eq_refl E) in Htop. done. }
  intros r w1 Hw1 (Hv1 & Hi & He). destruct r as [e|info].
  - eapply total_mono; [apply visit_spec; [rewrite Hv1; by eapply item_direct|done]|]. intros [l r] w2 Hw2 (_ & _ & Hvis). cbn [fst] in *.
    intros es i Hre Hit. left. destruct (He e eq_refl) as (Hne & d & Hvd & Hd).
    apply (Hvis es 0%nat); [done|lia|done|apply Hnamed; by exists top|done|].
    apply (not_silent es 0 d top e); [done|lia|by rewrite Hvd|by left].
  - assert (info = top) as -> by (specialize (Hi info eq_refl); congruence).
    eapply total_mono; [apply (walk_spec depth [] top)|].
    + done.
    + by eapply named_temps.
    + intros q [j Hj]. rewrite Nat.add_0_r. apply Hdeep. exists j. by rewrite <-Hv1.
    + by rewrite Hv1.
    + done.
    + intros [l r] w2 Hw2 (_ & _ & Hall). cbn [fst] in *. intros es i Hre Hit. apply Hall; [done|cbn; lia|done|by rewrite Hv1].
Qed.

End reports.

(** ** A sample scan *)
Lemma normalb_of e : normal e → normalb e = true.
Proof. intros (H1 & H2 & H3 & H4). unfold normalb. by rewrite !bool_decide_false. Qed.
#[export] Instance MapDiskListing : ListingLaws MapDisk.
Proof.
  split; [|done]. intros es d names name Hes _ [= <-] Hn [i Hi]. apply list_elem_of_filter.
  split; [split; [by apply normalb_of|by exists i]|]. apply list_elem_of_fmap. exists (Join [build false es; name]). split.
  - rewrite Join_build by (done || by apply Forall_normal_nf).
    rewrite split_build by (apply Forall_normal_nf, Forall_app; by split; [|apply Forall_singleton]).
    assert (Hraw : raw false (es ++ [name]) = es ++ [name]) by (by destruct es). by rewrite Hraw, last_snoc.
  - apply list_elem_of_filter. split; [by apply Join_child|by eapply in_keys].
Qed.

Section sample.
#[local] Open Scope string_scope.
Definition scan_file (data : list Z) (time : Z) : item := MkItem FileInfoTypeFile 420 time data [] no_platform.
Definition scan_view : gmap path item := list_to_map [
  (dot, new_dir 493); (s2l "a", new_dir 493); (s2l "a/b.txt", scan_file [1; 2; 3]%Z 1700000000000000000);
  (s2l "a/skip.txt", scan_file [4]%Z 1700000000000000000);
  (s2l "c.txt", scan_file [4; 5]%Z 1700000000000000000); (s2l "d", new_dir 493); (s2l "d/e.txt", scan_file [6]%Z 1700000000000000000);
  (s2l ".vidsync.c.txt.tmp", scan_file [7]%Z 0); (s2l ".stignore", scan_file [8]%Z 0)].
Lemma scan_view_ok : tree_ok scan_view = true.
Proof. by vm_compute. Qed.
Definition scan_world : world (F := MapDisk) := MkWorld (F := MapDisk) (MkDisk scan_view scan_view_ok) [] [] ∅.
Definition scan_config : Config := MkConfig [] 86400000000000 false true 7 0 0 false false (MkFilter (λ _, true) 1024 4096).
(** The patterns ignore [a] but not [a/b.txt], and skip [d]. *)
Definition scan_ignores (p : path) : Z :=
  if bool_decide (p = s2l "a") || bool_decide (p = s2l "a/skip.txt") then Ignore.Ignored false
  else if bool_decide (p = s2l "d") then Ignore.IgnoreAndSkip false else Ignore.NotIgnored.
Definition scan_record : FileInfo :=
  (zero_record "c.txt") <| fSize := 2 |> <| fPermissions := 420 |> <| fModifiedS := 1700000000 |>
    <| fVersion := MkVector [MkCounter 7 1] |>.
Definition scan_db (p : path) : option FileInfo := if bool_decide (p = s2l "c.txt") then Some scan_record else None.
Definition scan_read (p : path) (d : mdisk) : fsres mdisk (list Z) := with_item p d (λ i, (d, inr (iData i))).
Definition scan_sha (l : list Z) : list Z := [Z.of_nat (length l)].
Definition scan_now : Z := 1700000100000000000.

Definition result_name (r : ScanResult) : string := match r with Scanned f => fName f | Failed p _ => l2s p end.
Definition scan_run : fsres (world (F := MapDisk)) walked :=
  scan_items (F := MapDisk) scan_config "linux" scan_ignores scan_db (λ p, p) (λ _ _, false) scan_sha scan_now (λ _, 1700000100) 3 scan_world.

(** The ignored directory is reported with the file below it, the file the database knows
    is not, nor what is ignored; the old temporary file is gone. *)
Example scan_sample :
  match scan_run with
  | (w, inr l) => map result_name (finished l) = ["a"] ∧ map fName (toHash l) = ["a/b.txt"] ∧
      mv (wDisk w) !! s2l ".vidsync.c.txt.tmp" = None ∧ size (mv (wDisk w)) = 8%nat
  | _ => False
  end.
Proof. vm_compute. by split_and!. Qed.

Definition small_tree (v : gmap path item) (n : nat) : bool :=
  bool_decide (map_Forall (λ q _, (length (split_byte sep q) < n)%nat) v).
Lemma scan_small : small_tree scan_view 3 = true.
Proof. by vm_compute. Qed.
Lemma scan_root : scan_view !! dot = Some (new_dir 493).
Proof. by vm_compute. Qed.
Lemma scan_item : scan_view !! build false [s2l "a"; s2l "b.txt"] = Some (scan_file [1; 2; 3]%Z 1700000000000000000).
Proof. by vm_compute. Qed.
Lemma MapDisk_readable q : readable (F := MapDisk) q.
Proof.
  intros d Hd [i Hi]. split; [|by eexists]. exists i. change (mv d !! q = Some i) in Hi. change ((m_Lstat q d).2 = inr i).
  unfold m_Lstat, with_item. rewrite Hi. by destruct (directb (mv d) q) eqn:E; [|rewrite (proj2 (directb_spec (mv d) q) Hd) in E].
Qed.
Lemma scan_reachable : reachable (F := MapDisk) scan_ignores [s2l "a"; s2l "b.txt"].
Proof.
  split.
  - apply Forall_forall. intros e He. apply normalb_spec. revert e He. apply Forall_forall. by repeat constructor.
  - done.
  - split; [|by vm_compute]. intros [H|H]; vm_compute in H; done.
  - intros k Hk. cbn in Hk. split_and!; [destruct k as [|[|k]]; [by vm_compute..|lia]| |intros _; apply MapDisk_readable].
    intros H. destruct k as [|[|k]]; [by vm_compute..|lia].
Qed.

End sample.
